(* ===== verification/_CoqProject ===== *)
-Q . S2P
Prelude.v
Crypto.v
Text.v
JsonText.v
Sql.v
Asyncio.v
Admission.v
Placement.v
Routing.v
Store.v
Quota.v
Keys.v
Billing.v
Accounts.v
Gateway.v
AuditChain.v
Webhooks.v
ClientEvents.v
Telemetry.v
Serving.v
Stream.v
Backend.v
Requests.v
Contract.v
Remote.v
Backends.v
Edges.v
Net.v
Downloads.v
Gguf.v
Models.v
ModelLifecycle.v
Config.v
Ownership.v
Serve.v
Observability.v
Grpc.v
Operators.v
ClientApi.v
ClientFrames.v
Migrations.v
Backup.v
Bench.v
BenchGate.v
Operability.v
Delivery.v
Sensors.v
Redaction.v
Release.v
CommandLine.v
HostSensors.v
OperatorViews.v
Reachability.v
ModelViews.v
LiveFeed.v
LocalBackend.v
Wiring.v
Tooling.v
BenchRun.v
Collected.v
