(* ===== verification/Prelude.v ===== *)
(** * A verification of the inference engine

    The program (the Python package [engine] under [src/]) serves language models over
    HTTP and gRPC.  A request enters through the OpenAI, Anthropic or gRPC edge, passes the
    gateway (key, entitlement, rate, concurrency and quota), waits for admission in the
    scheduler, is placed on a local or remote backend by the router and the backend
    registry, streams its tokens to the client, and is accounted for when it ends.  Around
    that path stand the stores on one SQLite database, owned by one process at a time; the
    operator and client routes; the Stripe webhook that drives the client lifecycle; the
    worker that delivers outbound webhooks; the live event streams; the model registry with
    its downloads; telemetry; backups and migrations; and the benchmark and release tools.

    ** Files, and what they model

    Foundations.
    - [Prelude]: results, statements that may raise, rationals, dictionaries, tactics.
    - [Crypto], [Text], [JsonText], [Sql], [Asyncio]: what the source uses of Python's
      standard library and of SQLite: SHA-256, HMAC, base64, [str] methods, JSON values,
      their text as [json] writes and reads it, the SQL statements, and CPython's fair
      [asyncio.Semaphore].

    The serving path.
    - [Admission]: [inference/scheduler.py].  [Scheduler.t] has a field per attribute;
      [admit] is split at its await into [admit_begin] and [admit_resume].  [System] runs
      calls, timers, cancellations, releases and the drain in any order.
    - [Placement]: [inference/registry.py]; [Routing]: [inference/router.py].
    - [Gateway]: [gateway.py], with the limiter and the access handle.
    - [Serving]: [api/serving.py], which composes gateway, scheduler, router and counters;
      [ServingSystem] runs whole requests in any interleaving.
    - [Requests]: [inference/types.py] and [api/schemas/], the request schemas and their
      translation; [Edges]: [api/errors.py], [openai_router.py], [anthropic_router.py];
      [Collected]: their answers without streaming; [Grpc]: [grpc/server.py]; [Net]: the
      HTTP middlewares of [main.py], with the host of a URL and the arithmetic of IP networks.
    - [Contract]: the abstract stream of [inference/base.py] as an interface with laws;
      [Stream] ([inference/stream.py]) and [Remote] ([inference/remote/]) implement it.
    - [Backend]: [inference/threaded.py]; [Backends]: the remote backend object, its
      metrics, the producers of [llamacpp.py] and [factory.py]; [LocalBackend]: the hooks of
      [llamacpp.py] with the model object they share, in the executor.

    Accounts and their routes.
    - [Store]: the tables; [Quota]: [quota/]; [Keys]: [auth/keys.py]; [Billing]:
      [billing/store.py], [billing/stripe.py] and the webhook route of
      [api/billing_router.py]; [Accounts]: all of them on the shared tables.
    - [AuditChain]: [audit/log.py]; [Webhooks] and [Delivery]: [billing/webhooks/], its
      transport and its worker task; [ClientEvents], [ClientFrames]:
      [billing/client_events.py], and the streaming loop of [api/client_router.py] with the
      frames it writes.
    - [Operators]: [api/deps.py], [admin_router.py], [billing_router.py]; [ClientApi]: the
      client's routes and the usage threshold hook.

    Models and data.
    - [Downloads]: [models/downloader.py]; [Gguf]: [models/gguf.py]; [Models]:
      [models/registry.py], [service.py], [compat.py]; [ModelLifecycle]:
      [api/models_router.py] and the interleaving of downloads, imports, loads and
      deletions; [Redaction]: [models/redaction.py]; [ModelViews]: the listing routes.
    - [Ownership]: [store/ownership.py] and the lifespan of [main.py], for any number of
      engines; [Serve]: the startup sequence of [main.py] with what its teardown releases;
      [Migrations]: [store/migrations.py]; [Backup]: [backup.py].
    - [Config]: [config.py] and the pool [main.py] builds from it; [Wiring]: everything else
      [create_app] builds.
    - [CommandLine]: [cli.py], [buildinfo.py] and the connections of [store/db.py]: the
      options, the settings made from them, every subcommand and the exit codes.

    Telemetry and tools.
    - [Telemetry]: [telemetry/counters.py], [route_metrics.py], [taxonomy.py];
      [Observability]: [events.py], [logbuffer.py], [logging_setup.py]; [Operability]:
      [alerts.py], [service.py], [api/health.py], [monitoring_router.py], [ws_router.py] and
      model control; [Sensors]: [power.py], [diagnostics.py]; [HostSensors]:
      [resources.py], [hardware.py]; [LiveFeed]: the feed helpers and the sampler loop of
      [service.py] over the event bus.
    - [OperatorViews]: the snapshot of [service.py], the error taxonomy, the system summary
      and every view of [admin_router.py], [monitoring_router.py] and [ops_router.py].
    - [Bench], [BenchGate], [BenchRun]: [bench/]; [Release]: [scripts/release.py]; [Reachability]:
      [scripts/image_reachability.py]; [Tooling]: [scripts/export_routes.py] and
      [scripts/npm_audit_report.py].

    ** How code becomes definitions

    A class is a module, its attributes a record, a method a function on the record, with
    the source's names.  Code between two awaits of the event loop is one step, because
    nothing else runs on the loop meanwhile; a coroutine that awaits is split there, and a
    suspended call is an entry of the state.  Threads are interleaved at each access to
    shared memory ([Stream], [Downloads]).  Exceptions are values of [result] or, where
    tables change before one is raised, of the monad [stmt].  Systems of operations are
    step functions with lists or relations of steps, and their guarantees are invariants
    of every reachable state.

    Clock readings, random bytes, new identifiers and the answers of other processes (the
    HTTP peer of a webhook, a model server, a token producer, a statement that SQLite fails) are
    arguments or labels of the steps, so the theorems hold for all of them.  Library code
    that is not written out is a parameter of its section: the JSON, TOML and float codecs,
    path resolution, [str.lower] and the host checks of [urlsplit] beyond ASCII, what SQLite
    reads in a migration (relied on as [Migrations.reads_sql], and instantiated there by a
    reader that knows strings and comments) and copies in a backup, the random choice and the float rounding
    of the benchmarks, the date parser of the exceptions.  Floats are rationals; the numbers
    of a JSON value are integers.  The uniqueness and reference constraints of the schema
    ([store/migrations/]) are the [IntegrityError] branches of the stores.  Strings
    are strings of code points up to 255, or lists of code points in [Gguf] and [Redaction];
    integers are unbounded as in Python; SHA-256 works on 32-bit words and GGUF integers
    have their width, with the wrap-around written out.  Recursion is structural wherever
    the code's is bounded by its data.  Fuel is used in [Semaphore.wake_while], where the
    length of the deque bounds the rounds ([wake_loop_exit]), and in the block loop of
    SHA-256, and in [JsonText.value], where the length of the text is enough for every text
    [json.dumps] writes ([loads_dumps]); the entries a GGUF file declares are bounded by its
    length ([probe_answers]), and the polls of a wait by its deadline ([workload_ends]).

    ** What the theorems show

    - Serving: every slot and gauge is held by exactly the requests that should hold it, and
      none is left when the requests are over ([resources_exact], [nothing_leaks],
      [grpc_finalized_once]); each routed request is recorded once ([routed_once]).
    - Admission: concurrency and queue bounds, first-come first-served, no lost permit
      ([bounded_concurrency], [bounded_waiting], [admission_fifo], [admission_drains]).
    - Placement: a chosen backend can serve and is the least busy of the best tier, and the
      dry run predicts the real choice ([select_sound], [select_least_busy],
      [plan_predicts_acquire], [cascade_takes_first_step]).
    - Gateway: an accepted request has passed every check ([authorize_sound]), the limits
      hold ([rate_bounded]), a handle ends once ([access_ends_once]), and only operators
      reach the operator surface ([operator_gate], [operator_routes_gated]), whose writes
      are recorded ([operator_writes_recorded]); a client sees only what is its own
      ([client_isolation]).
    - Edges: requests are typed ([openai_translation_typed]), streams are well formed
      ([openai_stream_wellformed], [anthropic_stream_wellformed]) and say what the plain
      answer says, which is accounted for once ([streamed_or_collected],
      [collected_once]), each handler answers
      with its envelope and the request's id ([errors_in_dialect]), the address allowlist is in front of every
      route ([allowlist_guards]).
    - Keys and billing: revocation is final ([revocation_terminal], [canceled_keys_dead]), keys verify
      ([create_verify_roundtrip]), deliveries are authentic, applied once and never define
      limits ([webhook_authentic], [webhook_idempotent], [webhook_never_defines_limits]),
      a threshold is announced once a week ([threshold_once]).
    - Streams and backends: no token is lost, repeated or reordered in a bounded buffer
      ([stream_faithful], [stream_bounded]), neither side can wait for ever
      ([waiting_client_served], [close_stops_worker]), one generation at a time
      ([single_generation]) and a ready local backend has its model
      ([local_backend_honest]); both streams refine the abstract contract
      ([streams_refine_contract], [remote_generation_faithful], [remote_single_attempt]).
    - Models: only verified bytes are installed, also after a resume, and a cancellation
      never crosses a commit ([download_verified], [download_resumes], [cancel_or_commit]);
      a file has one owner and the registry tells the truth about it ([download_owns_file],
      [registry_truthful], [reconcile_exact]); the reader inverts the encoder and answers on
      every file ([probe_roundtrip], [probe_answers]); redacted text and sources carry no
      credentials ([text_credentials_hidden], [ref_credentials_hidden]), and neither does
      the listing ([listing_hides_credentials]).
    - Stores: one engine per store, its locks released by a complete teardown
      ([store_exclusive], [complete_teardown_releases]); what a start, however it ends, leaves
      running is known ([startup_accounted]), through cancellation ([awaits_complete]);
      migrations refine their specification and resume ([apply_refines], [migrations_resume]); a backup restores ([backup_restores]).
    - Configuration: an accepted configuration gives a well-formed pool, an exposed engine
      authenticates ([accepted_pool], [exposed_engine_authenticates]), and the running
      components keep the configured limits ([accepted_limits]).
    - Command line: flags come before the environment and the file ([settings_precedence]);
      a key created there verifies and is on record ([keys_create_verifies],
      [keys_revoke_exact]); the generate command gives back what it took
      ([generate_releases]); the exit codes are exact ([main_exit_codes]).
    - Audit, webhooks, client events: a recorded log verifies and an edit is detected or is
      a SHA-256 collision ([record_verifies], [tamper_evident]); signatures verify at the
      receiver, attempts are bounded, every delivery whose POST ends in a status or a
      [TransportError] settles and the worker stops cleanly
      ([signature_header_verifies], [attempts_bounded], [deliveries_settle],
      [batch_conforms], [worker_stops_clean]); a client sees each of its events once and in
      order, no wakeup is lost, and a reader of the bytes sees just these events
      ([stream_exactly_once], [no_lost_wakeup], [client_reads_sent]).
    - Telemetry: a feed delivers a contiguous run ([feed_exact]), secrets do not reach the
      log ([redaction_hides], [redact_config_masks]), the mirror is bounded
      over any table it starts from ([log_mirror_bounded]); alerts and readiness are exact ([alerts_exact],
      [readiness_exact]), the sockets are gated ([feed_gated]), measured energy is measured
      ([measured_is_measured]); the operator's views are gated ([views_read_only]), count
      exactly ([taxonomy_exact]) and show no secret ([system_secretless]); the feed publishes
      just the handlers' events and the snapshots that could be taken ([feed_composed]).
    - Tools: the benchmark allocates and aggregates exactly and its gate equals its
      specification ([allocate_exact], [aggregate_conserves], [gate_exact]), and a report
      carries its measurements to the gate ([run_report_measures]); image tags only
      climb, the vulnerability gate is exact and a compose file is pinned
      ([convenience_tags_climb], [scan_gate_exact], [compose_pinned]); a complete
      reachability report is exact for the image, the requests of its workload are all
      made, and a stream is read whole ([elf_report_exact], [python_static_exact], [workload_ends], [stream_whole]); the route
      inventory agrees with the schema ([inventory_exact]) and a failed npm audit is never
      clean ([audit_outcomes]).
    - Concrete histories show where the code falls short of its own documentation; each is
      an [Example] or a theorem of the component's file, such as
      [cancelled_wait_leaks_slot], [failed_usage_write_leaks_gauge],
      [drained_while_serving], [generate_during_unload], [join_timeout_overlaps],
      [malformed_signature_escapes], [overlapping_records_break_chain],
      [truncated_download_installed], [refused_restore_writes], [shed_slice_passes],
      [protocol_error_stalls], [worker_keys_in_bundle], [conservative_keeps_userinfo],
      [restart_resets_plan], [load_unload_race], [open_comment_unrecorded],
      [unrecorded_write], [failed_forget_drops_event], [failed_start_keeps_backends], [metrics_view_raises],
      [generate_invalid_escapes].

    ** What is not modelled

    What psutil, the platform module and [/proc] answer, the llama.cpp binding, SQLite below
    its statements and Python's [argparse], which are parameters; the inclusion of the
    routers, the OpenAPI document and the static files, which are calls of the framework; the
    text of log lines, release notes and reports; the random source and the HTTP client of
    the benchmark driver; the generated gRPC stubs.  The scripts that start containers and
    browsers and those that print readings have no logic of their own to verify: what they
    do is what Docker, Playwright and the host answer.  The dashboard is TypeScript, and the
    tests are not modelled. *)

From Stdlib Require Export ZArith QArith Qround Lia Lqa.
From stdpp Require Export sorting strings numbers gmap base list.

Set Default Goal Selector "!".

(** ** Results of fallible operations

    A Python call that may raise is a value of [result E A]: [Ok a] is a normal
    return, [Err e] an exception [e].  The stdpp monad notation
    [x ← c; k] is the sequencing of statements. *)

Inductive result (E A : Type) : Type :=
| Ok (a : A)
| Err (e : E).
Arguments Ok {E A} a.
Arguments Err {E A} e.

#[export] Instance result_ret {E} : MRet (result E) := fun A a => Ok a.
#[export] Instance result_bind {E} : MBind (result E) := fun A B k c =>
  match c with Ok a => k a | Err e => Err e end.

Definition is_ok {E A} (r : result E A) : bool :=
  match r with Ok _ => true | Err _ => false end.

(** The exceptions the modelled code raises or lets through. *)
Inductive exn :=
| IntegrityError      (* sqlite3: UNIQUE, PRIMARY KEY, NOT NULL, FOREIGN KEY *)
| ProgrammingError    (* sqlite3: a value that cannot be bound *)
| OverflowError
| AttributeError
| TypeError
| ValueError
| KeyError
| IndexError
| OSError
| EOFError
| StructError         (* struct.error *)
| OperationalError    (* sqlite3: a locked or unreadable database *)
| HTTPException       (* http.client: a reply that is no HTTP *)
.
#[export] Instance exn_eq_dec : EqDecision exn.
Proof. solve_decision. Defined.

(** Statements that read and change a state of type [S] and may raise: what was
    changed before an exception stays changed. *)
Definition stmt (S A : Type) : Type := S → S * result exn A.
#[export] Instance stmt_ret {S} : MRet (stmt S) := fun A a s => (s, Ok a).
#[export] Instance stmt_bind {S} : MBind (stmt S) := fun A B k c s =>
  match c s with
  | (s', Ok a) => k a s'
  | (s', Err e) => (s', Err e)
  end.
Definition raise {S A} (e : exn) : stmt S A := fun s => (s, Err e).
(** A statement that does not raise. *)
Definition run {S A} (f : S → S * A) : stmt S A := fun s => let '(s', a) := f s in (s', Ok a).
(** A query: it returns a value and leaves the state alone. *)
Definition query {S A} (f : S → A) : stmt S A := fun s => (s, Ok (f s)).

Lemma stmt_bind_Ok {S A B} (c : stmt S A) (k : A → stmt S B) s s' b :
  (c ≫= k) s = (s', Ok b) ↔ ∃ s1 a, c s = (s1, Ok a) ∧ k a s1 = (s', Ok b).
Proof.
  unfold mbind, stmt_bind. destruct (c s) as [s1 [a|e]]; split.
  - intros H. by exists s1, a.
  - intros (? & ? & ? & ?). by simplify_eq.
  - done.
  - intros (? & ? & ? & ?). by simplify_eq.
Qed.

Lemma run_Ok {S A} (f : S → S * A) s s' a : run f s = (s', Ok a) → f s = (s', a).
Proof. unfold run. destruct (f s). naive_solver. Qed.

(** Inverts the normal return of a sequence of statements. *)
Ltac stmt_inv :=
  repeat match goal with
  | H : (_ ≫= _) _ = (_, Ok _) |- _ =>
      apply stmt_bind_Ok in H; destruct H as (?s & ?a & ?H & H)
  | H : query _ _ = (_, Ok _) |- _ => unfold query in H; simplify_eq
  | H : mret _ _ = (_, Ok _) |- _ => unfold mret, stmt_ret in H; simplify_eq
  | H : raise _ _ = (_, Ok _) |- _ => unfold raise in H; simplify_eq
  | H : run _ _ = (_, Ok _) |- _ => apply run_Ok in H
  | H : (match ?x with _ => _ end) _ = (_, Ok _) |- _ => destruct x eqn:?
  end.

(** [pres I c]: the statement [c] preserves [I], also when it raises. *)
Definition pres {S A} (I : S → Prop) (c : stmt S A) : Prop := ∀ s, I s → I (fst (c s)).

Section Pres.
Context {S : Type} (I : S → Prop).
Lemma pres_ret {A} (a : A) : pres I (mret a).
Proof. by intros s. Qed.
Lemma pres_raise {A} e : pres I (raise (A:=A) e).
Proof. by intros s. Qed.
Lemma pres_query {A} (f : S → A) : pres I (query f).
Proof. by intros s. Qed.
Lemma pres_run {A} (f : S → S * A) : (∀ s, I s → I (fst (f s))) → pres I (run f).
Proof. intros H s Hs. specialize (H s Hs). unfold run. by destruct (f s). Qed.
Lemma pres_bind {A B} (c : stmt S A) (k : A → stmt S B) :
  pres I c → (∀ a, pres I (k a)) → pres I (c ≫= k).
Proof.
  intros Hc Hk s Hs. specialize (Hc s Hs). unfold mbind, stmt_bind.
  destruct (c s) as [s1 [a|e]]; simpl in *; [by apply Hk|done].
Qed.
End Pres.

(** The statements' structural rules, for [pres] goals. *)
Create HintDb pres.
#[export] Hint Resolve pres_ret pres_raise pres_query pres_run pres_bind : pres.

Lemma pres_elim {S A} (I : S → Prop) (c : stmt S A) s s' r :
  pres I c → c s = (s', r) → I s → I s'.
Proof. intros Hc E Hs. specialize (Hc s Hs). by rewrite E in Hc. Qed.
Ltac pres_step :=
  first [ apply pres_ret | apply pres_raise | apply pres_query
        | apply pres_bind; [|intros ?]
        | match goal with |- pres _ (match ?x with _ => _ end) => destruct x eqn:? end
        | solve [eauto with pres] ].
Ltac pres_auto := repeat pres_step.

(** ** Python numbers

    A Python [int] is [Z].  A Python [float] is a rational [Q]: every finite
    binary64 value is one, and the arithmetic is exact (rounding of intermediate
    results, infinities and NaN are outside the model). *)

#[export] Instance Qle_dec : RelDecision Qle.
Proof.
  intros x y. destruct (Qle_bool x y) eqn:E.
  - left. by apply Qle_bool_iff.
  - right. intros H%Qle_bool_iff. congruence.
Defined.

#[export] Instance Qlt_dec : RelDecision Qlt.
Proof.
  intros x y. destruct (Qle_bool y x) eqn:E.
  - right. apply Qle_bool_iff in E. by apply Qle_not_lt.
  - left. apply Qnot_le_lt. intros H%Qle_bool_iff. congruence.
Defined.

(** [max(a, b)] on floats: Python returns the first argument unless the second
    is strictly greater. *)
Definition qmax (a b : Q) : Q := if bool_decide (a < b)%Q then b else a.

Lemma qmax_ge_l a b : (a <= qmax a b)%Q.
Proof. unfold qmax. case_bool_decide; lra. Qed.
Lemma qmax_ge_r a b : (b <= qmax a b)%Q.
Proof. unfold qmax. case_bool_decide; lra. Qed.
Lemma qmax_cases a b : qmax a b = a ∨ qmax a b = b.
Proof. unfold qmax. case_bool_decide; auto. Qed.

(** [math.ceil] on floats. *)
Definition ceil (q : Q) : Z := Qceiling q.

(** Moves [inject_Z] to the variables, for [lra]. *)
Ltac push_inject :=
  unfold Z.sub in *;
  repeat match goal with
  | H : context [inject_Z (?a + ?b)] |- _ => rewrite (inject_Z_plus a b) in H
  | H : context [inject_Z (?a * ?b)] |- _ => rewrite (inject_Z_mult a b) in H
  | H : context [inject_Z (- ?a)] |- _ => rewrite (inject_Z_opp a) in H
  | H : context [inject_Z (Zpos ?p)] |- _ => change (inject_Z (Zpos p)) with (Zpos p # 1) in H
  | |- context [inject_Z (?a + ?b)] => rewrite (inject_Z_plus a b)
  | |- context [inject_Z (?a * ?b)] => rewrite (inject_Z_mult a b)
  | |- context [inject_Z (- ?a)] => rewrite (inject_Z_opp a)
  | |- context [inject_Z (Zpos ?p)] => change (inject_Z (Zpos p)) with (Zpos p # 1)
  end.

(** ** Truthiness *)

(** [bool(s)] for a [str]. *)
Definition str_true (s : string) : bool := negb (bool_decide (s = "")).
(** [bool(o)] for a [str | None]. *)
Definition ostr_true (o : option string) : bool :=
  match o with Some s => str_true s | None => false end.

(** ** Python dictionaries in insertion order

    An association list with unique keys: assigning to a present key keeps its
    position, a new key goes last. *)

Section Dict.
Context {K V : Type} `{EqDecision K}.

Definition dict_get (k : K) (d : list (K * V)) : option V :=
  snd <$> find (fun p => bool_decide (fst p = k)) d.

Fixpoint dict_set (k : K) (v : V) (d : list (K * V)) : list (K * V) :=
  match d with
  | [] => [(k, v)]
  | (k', v') :: d' => if bool_decide (k' = k) then (k, v) :: d' else (k', v') :: dict_set k v d'
  end.

(** [{k: v for ...}] *)
Definition dict_of (l : list (K * V)) : list (K * V) :=
  fold_left (fun d p => dict_set (fst p) (snd p) d) l [].

Lemma dict_get_set_eq k v d : dict_get k (dict_set k v d) = Some v.
Proof.
  unfold dict_get. induction d as [|[k' v'] d IH]; simpl; [by rewrite bool_decide_true|].
  destruct (bool_decide (k' = k)) eqn:E; simpl; [by rewrite bool_decide_true|by rewrite E].
Qed.

Lemma dict_get_set_ne k k' v d : k ≠ k' → dict_get k' (dict_set k v d) = dict_get k' d.
Proof.
  unfold dict_get. intros Hne. induction d as [|[k0 v0] d IH]; simpl.
  - by rewrite bool_decide_false by congruence.
  - destruct (bool_decide (k0 = k)) eqn:E; simpl.
    + apply bool_decide_eq_true in E as ->. rewrite !bool_decide_false by congruence. done.
    + destruct (bool_decide (k0 = k')); [done|apply IH].
Qed.

Lemma dict_set_keys k v d :
  map fst (dict_set k v d) = if bool_decide (k ∈ map fst d) then map fst d else map fst d ++ [k].
Proof.
  induction d as [|[k0 v0] d IH]; simpl; [done|].
  destruct (bool_decide (k0 = k)) eqn:E; simpl.
  - apply bool_decide_eq_true in E as ->. rewrite bool_decide_true by set_solver. done.
  - apply bool_decide_eq_false in E. rewrite IH.
    destruct (bool_decide (k ∈ map fst d)) eqn:F; [apply bool_decide_eq_true in F;
      rewrite bool_decide_true by set_solver|apply bool_decide_eq_false in F;
      rewrite bool_decide_false by set_solver]; done.
Qed.

Lemma dict_set_nodup k v d : NoDup (map fst d) → NoDup (map fst (dict_set k v d)).
Proof.
  intros Hd. rewrite dict_set_keys. destruct (bool_decide _) eqn:E; [done|].
  apply bool_decide_eq_false in E. apply NoDup_app. split_and!; [done|set_solver|apply NoDup_singleton].
Qed.

Lemma dict_of_get l k v : dict_get k (dict_of l) = Some v → (k, v) ∈ l.
Proof.
  unfold dict_of. assert (∀ d, dict_get k (fold_left (fun d p => dict_set (fst p) (snd p) d) l d) = Some v →
    (k, v) ∈ l ∨ dict_get k d = Some v) as H.
  { induction l as [|[k0 v0] l IH]; intros d E; [by right|]. destruct (IH _ E) as [Hl|Hd]; [left; by right|].
    simpl in Hd. destruct (decide (k0 = k)) as [->|Hne].
    - rewrite dict_get_set_eq in Hd. simplify_eq. left. left.
    - rewrite dict_get_set_ne in Hd by done. by right. }
  intros E. by destruct (H [] E).
Qed.
End Dict.

(** ** Option and list helpers *)

Lemma find_ext_some {A} (f : A → bool) l x : find f l = Some x → x ∈ l ∧ f x = true.
Proof. intros [? ?]%find_some. split; [by apply list_elem_of_In|done]. Qed.

(** [sorted] on a list of [str]. *)
Definition str_leb (a b : string) : bool := String.leb a b.
Fixpoint insert_str (x : string) (l : list string) : list string :=
  match l with
  | [] => [x]
  | y :: l' => if str_leb x y then x :: l else y :: insert_str x l'
  end.
Definition sort_str (l : list string) : list string := fold_right insert_str [] l.

Lemma sort_str_perm l : sort_str l ≡ₚ l.
Proof.
  induction l as [|x l IH]; simpl; [done|].
  enough (∀ k, insert_str x k ≡ₚ x :: k) as H by (by rewrite H, IH).
  intros k. induction k as [|y k IHk]; simpl; [done|]. case_match; [done|].
  rewrite IHk. by constructor.
Qed.
