(* ===== verification/Crypto.v ===== *)
(** * Digests and encodings of Python's standard library

    What the engine uses of [hashlib], [hmac], [base64] and [str.encode]: SHA-256
    (FIPS 180-4), HMAC (RFC 2104), lower-case hexadecimal, base64 with the standard
    alphabet, and UTF-8.  All of them are executable.  A [str] is a [string], one
    character per code point (code points above 255 are outside the model); bytes are
    integers in [0..255]. *)

From S2P Require Import Prelude.
From Stdlib Require Import Ascii.

Open Scope Z_scope.

Module Crypto.

(** ** Words of 32 bits *)

Definition wrap32 (x : Z) : Z := Z.land x 4294967295.
Definition add32 (x y : Z) : Z := wrap32 (x + y).
Definition rotr (n x : Z) : Z :=
  Z.lor (Z.shiftr x n) (wrap32 (Z.shiftl x (32 - n))).
Definition not32 (x : Z) : Z := Z.lxor x 4294967295.

Definition Ch (x y z : Z) : Z := Z.lxor (Z.land x y) (Z.land (not32 x) z).
Definition Maj (x y z : Z) : Z := Z.lxor (Z.lxor (Z.land x y) (Z.land x z)) (Z.land y z).
Definition Sigma0 (x : Z) : Z := Z.lxor (Z.lxor (rotr 2 x) (rotr 13 x)) (rotr 22 x).
Definition Sigma1 (x : Z) : Z := Z.lxor (Z.lxor (rotr 6 x) (rotr 11 x)) (rotr 25 x).
Definition sigma0 (x : Z) : Z := Z.lxor (Z.lxor (rotr 7 x) (rotr 18 x)) (Z.shiftr x 3).
Definition sigma1 (x : Z) : Z := Z.lxor (Z.lxor (rotr 17 x) (rotr 19 x)) (Z.shiftr x 10).

Definition round_constants : list Z :=
  [1116352408; 1899447441; 3049323471; 3921009573; 961987163; 1508970993; 2453635748; 2870763221;
   3624381080; 310598401; 607225278; 1426881987; 1925078388; 2162078206; 2614888103; 3248222580;
   3835390401; 4022224774; 264347078; 604807628; 770255983; 1249150122; 1555081692; 1996064986;
   2554220882; 2821834349; 2952996808; 3210313671; 3336571891; 3584528711; 113926993; 338241895;
   666307205; 773529912; 1294757372; 1396182291; 1695183700; 1986661051; 2177026350; 2456956037;
   2730485921; 2820302411; 3259730800; 3345764771; 3516065817; 3600352804; 4094571909; 275423344;
   430227734; 506948616; 659060556; 883997877; 958139571; 1322822218; 1537002063; 1747873779;
   1955562222; 2024104815; 2227730452; 2361852424; 2428436474; 2756734187; 3204031479; 3329325298].

Definition initial_hash : list Z :=
  [1779033703; 3144134277; 1013904242; 2773480762; 1359893119; 2600822924; 528734635; 1541459225].

(** Big-endian integer of a byte string. *)
Definition be_int (bs : list Z) : Z := fold_left (fun a b => a * 256 + b) bs 0.
(** [n] big-endian bytes of [x]. *)
Fixpoint be_bytes (n : nat) (x : Z) : list Z :=
  match n with
  | O => []
  | S n' => Z.land (Z.shiftr x (8 * Z.of_nat n')) 255 :: be_bytes n' x
  end.

(** Message padding: 0x80, zeros, and the bit length on 8 bytes. *)
Definition pad (m : list Z) : list Z :=
  let l := Z.of_nat (length m) in
  m ++ [128] ++ replicate (Z.to_nat ((55 - l) mod 64)) 0 ++ be_bytes 8 (8 * l).

Fixpoint chunks (fuel : nat) (n : nat) (l : list Z) : list (list Z) :=
  match fuel with
  | O => []
  | S f => match l with [] => [] | _ => take n l :: chunks f n (drop n l) end
  end.

(** Message schedule, most recent word first. *)
Fixpoint extend (n : nat) (w : list Z) : list Z :=
  match n with
  | O => w
  | S n' =>
      let at_ i := nth i w 0 in
      extend n' (add32 (add32 (sigma1 (at_ 1%nat)) (at_ 6%nat))
                       (add32 (sigma0 (at_ 14%nat)) (at_ 15%nat)) :: w)
  end.

Definition round (st : list Z) (kw : Z * Z) : list Z :=
  match st with
  | [a; b; c; d; e; f; g; h] =>
      let t1 := add32 (add32 (add32 h (Sigma1 e)) (add32 (Ch e f g) (fst kw))) (snd kw) in
      let t2 := add32 (Sigma0 a) (Maj a b c) in
      [add32 t1 t2; a; b; c; add32 d t1; e; f; g]
  | st => st
  end.

Definition compress (h : list Z) (block : list Z) : list Z :=
  let w := extend 48 (rev (map be_int (chunks 16 4 block))) in
  let st := fold_left round (combine round_constants (rev w)) h in
  map (fun p => add32 (fst p) (snd p)) (combine h st).

(** [hashlib.sha256(m).digest()] *)
Definition sha256 (m : list Z) : list Z :=
  let p := pad m in
  flat_map (be_bytes 4) (fold_left compress (chunks (S (length p)) 64 p) initial_hash).

(** [hmac.new(key, m, hashlib.sha256).digest()] *)
Definition hmac_sha256 (key m : list Z) : list Z :=
  let k := if (64 <? Z.of_nat (length key)) then sha256 key else key in
  let k := k ++ replicate (64 - length k) 0 in
  sha256 (map (Z.lxor 92) k ++ sha256 (map (Z.lxor 54) k ++ m)).

(** ** Text *)

Definition code (c : ascii) : Z := Z.of_N (N_of_ascii c).
Definition char (n : Z) : ascii := ascii_of_N (Z.to_N n).

Fixpoint chars (s : string) : list ascii :=
  match s with EmptyString => [] | String c s' => c :: chars s' end.
Fixpoint of_chars (l : list ascii) : string :=
  match l with [] => EmptyString | c :: l' => String c (of_chars l') end.

(** [s.encode("utf-8")] *)
Definition utf8_char (c : ascii) : list Z :=
  let n := code c in
  if n <? 128 then [n] else [Z.lor 192 (Z.shiftr n 6); Z.lor 128 (Z.land n 63)].
Definition utf8 (s : string) : list Z := flat_map utf8_char (chars s).

Definition hex_digit (n : Z) : ascii := char (if n <? 10 then 48 + n else 87 + n).
(** [bytes.hex()] *)
Definition hex (bs : list Z) : string :=
  of_chars (flat_map (fun b => [hex_digit (Z.shiftr b 4); hex_digit (Z.land b 15)]) bs).

(** [hashlib.sha256(s.encode("utf-8")).hexdigest()] *)
Definition sha256_hex (s : string) : string := hex (sha256 (utf8 s)).
(** [int(hashlib.sha256(s.encode("utf-8")).hexdigest(), 16)] *)
Definition sha256_int (s : string) : Z := be_int (sha256 (utf8 s)).

(** [base64.b64encode(bs).decode("ascii")] *)
Definition b64_char (n : Z) : ascii :=
  char (if n <? 26 then 65 + n else if n <? 52 then 71 + n else if n <? 62 then n - 4
        else if n =? 62 then 43 else 47).
Fixpoint b64_groups (bs : list Z) : list ascii :=
  match bs with
  | [] => []
  | [a] => [b64_char (Z.shiftr a 2); b64_char (Z.shiftl (Z.land a 3) 4); "="%char; "="%char]
  | [a; b] => [b64_char (Z.shiftr a 2);
               b64_char (Z.lor (Z.shiftl (Z.land a 3) 4) (Z.shiftr b 4));
               b64_char (Z.shiftl (Z.land b 15) 2); "="%char]
  | a :: b :: c :: bs' =>
      b64_char (Z.shiftr a 2)
      :: b64_char (Z.lor (Z.shiftl (Z.land a 3) 4) (Z.shiftr b 4))
      :: b64_char (Z.lor (Z.shiftl (Z.land b 15) 2) (Z.shiftr c 6))
      :: b64_char (Z.land c 63) :: b64_groups bs'
  end.
Definition b64encode (bs : list Z) : string := of_chars (b64_groups bs).

(** [base64.b64decode(s)] of an ASCII string (the lenient decoder of [binascii]):
    characters outside the alphabet are skipped, complete padding ends the input, and an
    incomplete group is an error. *)
Definition b64_value (c : ascii) : option Z :=
  let n := code c in
  if (65 <=? n) && (n <=? 90) then Some (n - 65)
  else if (97 <=? n) && (n <=? 122) then Some (n - 71)
  else if (48 <=? n) && (n <=? 57) then Some (n + 4)
  else if n =? 43 then Some 62
  else if n =? 47 then Some 63
  else None.
Fixpoint b64_loop (l : list ascii) (quad left pads : Z) (acc : list Z) : option (list Z) :=
  match l with
  | [] => if quad =? 0 then Some (rev acc) else None
  | c :: l' =>
      if code c =? 61 then
        if 2 <=? quad then
          if 4 <=? quad + (pads + 1) then Some (rev acc) else b64_loop l' quad left (pads + 1) acc
        else b64_loop l' quad left pads acc
      else match b64_value c with
           | None => b64_loop l' quad left pads acc
           | Some v =>
               if quad =? 0 then b64_loop l' 1 v 0 acc
               else if quad =? 1 then b64_loop l' 2 (Z.land v 15) 0 (Z.lor (Z.shiftl left 2) (Z.shiftr v 4) :: acc)
               else if quad =? 2 then b64_loop l' 3 (Z.land v 3) 0 (Z.lor (Z.shiftl left 4) (Z.shiftr v 2) :: acc)
               else b64_loop l' 0 0 0 (Z.lor (Z.shiftl left 6) v :: acc)
           end
  end.
Definition b64decode (s : string) : option (list Z) :=
  if forallb (fun c => code c <? 128) (chars s) then b64_loop (chars s) 0 0 0 [] else None.

(** ** Test vectors (FIPS 180-4, RFC 4231, RFC 4648) *)

Example sha256_abc :
  sha256_hex "abc" = "ba7816bf8f01cfea414140de5dae2223b00361a396177a9cb410ff61f20015ad".
Proof. vm_compute. reflexivity. Qed.
Example sha256_empty :
  sha256_hex "" = "e3b0c44298fc1c149afbf4c8996fb92427ae41e4649b934ca495991b7852b855".
Proof. vm_compute. reflexivity. Qed.
Example hmac_rfc4231_2 :
  hex (hmac_sha256 (utf8 "Jefe") (utf8 "what do ya want for nothing?"))
  = "5bdcc146bf60754e6a042426089575c75a003f089d2739839dec58b964ec3843".
Proof. vm_compute. reflexivity. Qed.
Example b64_foobar : b64encode (utf8 "foobar") = "Zm9vYmFy" ∧ b64encode (utf8 "foob") = "Zm9vYg==".
Proof. split; vm_compute; reflexivity. Qed.

(** ** Alphabets

    Used by the webhook signature header, whose tokens are separated by spaces and
    commas. *)

Definition b64_alphabet (c : ascii) : bool :=
  let n := code c in
  ((65 <=? n) && (n <=? 90)) || ((97 <=? n) && (n <=? 122)) || ((48 <=? n) && (n <=? 57))
  || (n =? 43) || (n =? 47) || (n =? 61).

Lemma code_char n : 0 <= n < 256 → code (char n) = n.
Proof.
  intros H. unfold code, char. rewrite N_ascii_embedding by lia. lia.
Qed.

Lemma code_range c : 0 <= code c < 256.
Proof. unfold code. pose proof (N_ascii_bounded c). lia. Qed.

(** ** Ranges *)

Definition byte (b : Z) : Prop := 0 <= b < 256.

Lemma be_bytes_byte n x : Forall byte (be_bytes n x).
Proof.
  induction n as [|n IH]; simpl; constructor; [|done]. unfold byte.
  change 255 with (Z.ones 8). rewrite Z.land_ones by lia. apply Z.mod_pos_bound. done.
Qed.

Lemma sha256_byte m : Forall byte (sha256 m).
Proof.
  unfold sha256. apply Forall_forall. intros b Hb.
  apply list_elem_of_In, in_flat_map in Hb as (x & _ & Hx).
  eapply (proj1 (Forall_forall _ _)); [apply be_bytes_byte|by apply list_elem_of_In].
Qed.

Lemma chars_of_chars l : chars (of_chars l) = l.
Proof. induction l as [|c l IH]; simpl; [done|by rewrite IH]. Qed.
Lemma of_chars_chars s : of_chars (chars s) = s.
Proof. induction s as [|c s IH]; simpl; [done|by rewrite IH]. Qed.

Lemma hex_digit_code n : 0 <= n < 16 → 48 <= code (hex_digit n) < 128.
Proof. intros H. unfold hex_digit. rewrite code_char; case_match; lia. Qed.

(** The text of a digest is ASCII. *)
Lemma hex_code bs c : Forall byte bs → c ∈ chars (hex bs) → 48 <= code c < 128.
Proof.
  intros Hb. unfold hex. rewrite chars_of_chars, list_elem_of_In. intros (b & Hin & Hc)%in_flat_map.
  apply list_elem_of_In in Hin. rewrite Forall_forall in Hb. specialize (Hb b Hin). unfold byte in Hb.
  destruct Hc as [<-|[<-|[]]]; apply hex_digit_code.
  - rewrite Z.shiftr_div_pow2 by lia. change (2 ^ 4) with 16.
    split; [apply Z.div_pos; lia|apply Z.div_lt_upper_bound; lia].
  - change 15 with (Z.ones 4). rewrite Z.land_ones by lia. by apply Z.mod_pos_bound.
Qed.

(** ** Lengths *)

Lemma be_bytes_length n x : length (be_bytes n x) = n.
Proof. induction n as [|n IH]; simpl; [done|by rewrite IH]. Qed.

Lemma round_length st kw : length (round st kw) = length st.
Proof. unfold round. do 9 (destruct st as [|? st]; [done|]). done. Qed.

Lemma compress_length h b : length (compress h b) = length h.
Proof.
  unfold compress. rewrite length_map, length_combine.
  assert (∀ l st, length (fold_left round l st) = length st) as ->.
  { induction l as [|kw l IH]; intros st; simpl; [done|]. by rewrite IH, round_length. }
  lia.
Qed.

Lemma flat_map_length {A} (f : A → list Z) n l :
  (∀ x, length (f x) = n) → length (flat_map f l) = (length l * n)%nat.
Proof. intros H. induction l as [|x l IH]; simpl; [done|]. by rewrite length_app, IH, H. Qed.

Lemma sha256_length m : length (sha256 m) = 32%nat.
Proof.
  unfold sha256. rewrite (flat_map_length _ 4) by (intros; apply be_bytes_length).
  assert (∀ l h, length (fold_left compress l h) = length h) as ->; [|done].
  induction l as [|b l IH]; intros h; simpl; [done|]. by rewrite IH, compress_length.
Qed.

Lemma of_chars_length l : String.length (of_chars l) = length l.
Proof. induction l as [|c l IH]; simpl; [done|by rewrite IH]. Qed.

Lemma hex_length bs : String.length (hex bs) = (2 * length bs)%nat.
Proof.
  unfold hex. rewrite of_chars_length. induction bs as [|b bs IH]; simpl; [done|]. rewrite IH. lia.
Qed.

Lemma sha256_hex_length s : String.length (sha256_hex s) = 64%nat.
Proof. unfold sha256_hex. by rewrite hex_length, sha256_length. Qed.

(** ** Base64 round trip *)

Lemma b64_char_spec n :
  0 <= n < 64 →
  b64_value (b64_char n) = Some n ∧ (code (b64_char n) =? 61) = false ∧
  b64_alphabet (b64_char n) = true ∧ (code (b64_char n) <? 128) = true.
Proof.
  intros H.
  set (check n := bool_decide (b64_value (b64_char n) = Some n) && negb (code (b64_char n) =? 61)
                  && b64_alphabet (b64_char n) && (code (b64_char n) <? 128)).
  assert (forallb check (map Z.of_nat (seq 0 64)) = true) as Hall by (vm_compute; reflexivity).
  rewrite forallb_forall in Hall.
  assert (check n = true) as Hn.
  { apply Hall, in_map_iff. exists (Z.to_nat n). split; [lia|]. apply in_seq. lia. }
  unfold check in Hn. apply andb_true_iff in Hn as [[[H1 H2]%andb_true_iff H3]%andb_true_iff H4].
  by apply bool_decide_eq_true in H1; apply negb_true_iff in H2.
Qed.

Lemma lor_shiftl_add x y k : 0 <= k → 0 <= y < 2 ^ k → Z.lor (Z.shiftl x k) y = x * 2 ^ k + y.
Proof.
  intros Hk Hy. rewrite <- Z.shiftl_mul_pow2 by done.
  assert (Z.land (Z.shiftl x k) y = 0) as Hl; [|by rewrite <- Z.lxor_lor, <- Z.add_nocarry_lxor].
  apply Z.bits_inj'. intros n Hn. rewrite Z.land_spec, Z.bits_0, Z.shiftl_spec by done.
  destruct (Z.lt_ge_cases n k); [by rewrite Z.testbit_neg_r by lia|].
  rewrite <- (Z.mod_small y (2 ^ k)) by done. rewrite Z.mod_pow2_bits_high by lia. apply andb_false_r.
Qed.

(** Shifts and masks by constants as divisions, for [lia]. *)
Lemma land3 x : Z.land x 3 = x mod 4.
Proof. exact (Z.land_ones x 2 ltac:(lia)). Qed.
Lemma land15 x : Z.land x 15 = x mod 16.
Proof. exact (Z.land_ones x 4 ltac:(lia)). Qed.
Lemma land63 x : Z.land x 63 = x mod 64.
Proof. exact (Z.land_ones x 6 ltac:(lia)). Qed.
Lemma shiftr2 x : Z.shiftr x 2 = x / 4.
Proof. exact (Z.shiftr_div_pow2 x 2 ltac:(lia)). Qed.
Lemma shiftr4 x : Z.shiftr x 4 = x / 16.
Proof. exact (Z.shiftr_div_pow2 x 4 ltac:(lia)). Qed.
Lemma shiftr6 x : Z.shiftr x 6 = x / 64.
Proof. exact (Z.shiftr_div_pow2 x 6 ltac:(lia)). Qed.
Ltac bits_to_div :=
  rewrite ?land3, ?land15, ?land63, ?shiftr2, ?shiftr4, ?shiftr6;
  change (2 ^ 2) with 4 in *; change (2 ^ 4) with 16 in *; change (2 ^ 6) with 64 in *;
  Z.div_mod_to_equations; lia.

Lemma pack_div x y k : 0 <= y < k → (x * k + y) / k = x.
Proof. intros H. rewrite Z.div_add_l by lia. rewrite Z.div_small by done. lia. Qed.
Lemma pack_mod x y k : 0 <= y < k → (x * k + y) mod k = y.
Proof. intros H. rewrite Z.add_comm, Z.mod_add by lia. by apply Z.mod_small. Qed.
(** A byte in two parts. *)
Lemma byte_parts a k n : 0 < k → 256 = n * k → byte a →
  ∃ h l, a = h * k + l ∧ 0 <= l < k ∧ 0 <= h < n ∧ a / k = h ∧ a mod k = l.
Proof.
  intros Hk Hn Ha. unfold byte in Ha. exists (a / k), (a mod k).
  pose proof (Z.mod_pos_bound a k Hk). split_and!; try lia.
  - rewrite Z.mul_comm. apply Z.div_mod. lia.
  - apply Z.div_pos; lia.
  - apply Z.div_lt_upper_bound; lia.
Qed.
Lemma lor_pack x y k : 0 <= k → 0 <= y < 2 ^ k → Z.lor (Z.shiftl x k) y = x * 2 ^ k + y.
Proof. apply lor_shiftl_add. Qed.

Lemma b64_loop_char n l quad left pads acc :
  0 <= n < 64 →
  b64_loop (b64_char n :: l) quad left pads acc =
  (if quad =? 0 then b64_loop l 1 n 0 acc
   else if quad =? 1 then b64_loop l 2 (Z.land n 15) 0 (Z.lor (Z.shiftl left 2) (Z.shiftr n 4) :: acc)
   else if quad =? 2 then b64_loop l 3 (Z.land n 3) 0 (Z.lor (Z.shiftl left 4) (Z.shiftr n 2) :: acc)
   else b64_loop l 0 0 0 (Z.lor (Z.shiftl left 6) n :: acc)).
Proof. intros H. destruct (b64_char_spec n H) as (H1 & H2 & _). cbn [b64_loop]. by rewrite H2, H1. Qed.

(** Shifts and masks of packed parts. *)
Ltac unpack := rewrite ?land3, ?land15, ?land63, ?shiftr2, ?shiftr4, ?shiftr6,
  ?pack_div, ?pack_mod by lia.
Ltac pack := rewrite ?(lor_pack _ _ 2), ?(lor_pack _ _ 4), ?(lor_pack _ _ 6) by lia;
  change (2 ^ 2) with 4; change (2 ^ 4) with 16; change (2 ^ 6) with 64.

Lemma b64_group a b c l acc :
  byte a → byte b → byte c →
  b64_loop (b64_groups (a :: b :: c :: l)) 0 0 0 acc = b64_loop (b64_groups l) 0 0 0 (c :: b :: a :: acc).
Proof.
  intros Ha Hb Hc. cbn [b64_groups].
  destruct (byte_parts a 4 64) as (a1 & a0 & Ea & ? & ? & _); [done..|].
  destruct (byte_parts b 16 16) as (b1 & b0 & Eb & ? & ? & _); [done..|].
  destruct (byte_parts c 64 4) as (c1 & c0 & Ec & ? & ? & _); [done..|].
  subst a b c. unpack. pack.
  rewrite b64_loop_char by lia. cbn [Z.eqb]. rewrite b64_loop_char by lia. cbn [Z.eqb Pos.eqb].
  rewrite b64_loop_char by lia. cbn [Z.eqb Pos.eqb]. rewrite b64_loop_char by lia. cbn [Z.eqb Pos.eqb].
  unpack. pack. done.
Qed.

Lemma b64_tail1 a acc : byte a → b64_loop (b64_groups [a]) 0 0 0 acc = Some (rev (a :: acc)).
Proof.
  intros Ha. cbn [b64_groups]. destruct (byte_parts a 4 64) as (a1 & a0 & Ea & ? & ? & _); [done..|].
  subst a. unpack. rewrite Z.shiftl_mul_pow2 by lia. change (2 ^ 4) with 16.
  rewrite b64_loop_char by lia. cbn [Z.eqb]. rewrite b64_loop_char by lia. cbn [Z.eqb Pos.eqb].
  replace (a0 * 16) with (a0 * 16 + 0) by lia. unpack. pack. reflexivity.
Qed.

Lemma b64_tail2 a b acc :
  byte a → byte b → b64_loop (b64_groups [a; b]) 0 0 0 acc = Some (rev (b :: a :: acc)).
Proof.
  intros Ha Hb. cbn [b64_groups].
  destruct (byte_parts a 4 64) as (a1 & a0 & Ea & ? & ? & _); [done..|].
  destruct (byte_parts b 16 16) as (b1 & b0 & Eb & ? & ? & _); [done..|].
  subst a b. unpack. pack. rewrite Z.shiftl_mul_pow2 by lia. change (2 ^ 2) with 4.
  rewrite b64_loop_char by lia. cbn [Z.eqb]. rewrite b64_loop_char by lia. cbn [Z.eqb Pos.eqb].
  rewrite b64_loop_char by lia. cbn [Z.eqb Pos.eqb].
  replace (b0 * 4) with (b0 * 4 + 0) by lia. unpack. pack. reflexivity.
Qed.

Lemma b64_roundtrip_loop n bs acc :
  (length bs <= n)%nat → Forall byte bs →
  b64_loop (b64_groups bs) 0 0 0 acc = Some (rev acc ++ bs).
Proof.
  revert bs acc. induction n as [|n IH]; intros bs acc Hn Hb.
  { destruct bs; [|simpl in Hn; lia]. simpl. by rewrite app_nil_r. }
  destruct bs as [|a [|b [|c bs]]].
  - simpl. by rewrite app_nil_r.
  - apply Forall_cons in Hb as [Ha _]. by rewrite b64_tail1.
  - apply Forall_cons in Hb as [Ha [Hb _]%Forall_cons]. rewrite b64_tail2 by done.
    simpl. by rewrite <- app_assoc.
  - apply Forall_cons in Hb as [Ha [Hb [Hc Hl]%Forall_cons]%Forall_cons].
    rewrite b64_group by done. rewrite IH by (done || (simpl in Hn; lia)).
    simpl. by rewrite <- !app_assoc.
Qed.

Lemma b64_groups_alphabet n bs c :
  (length bs <= n)%nat → Forall byte bs → c ∈ b64_groups bs → b64_alphabet c = true ∧ (code c <? 128) = true.
Proof.
  revert bs. induction n as [|n IH]; intros bs Hn Hb.
  { destruct bs; [set_solver|simpl in Hn; lia]. }
  assert (b64_alphabet "=" = true ∧ (code "=" <? 128) = true) as Heq by done.
  assert (∀ x, 0 <= x < 64 → b64_alphabet (b64_char x) = true ∧ (code (b64_char x) <? 128) = true) as Hch
    by (intros x Hx; by destruct (b64_char_spec x Hx) as (_ & _ & ?)).
  destruct bs as [|a [|b [|d bs]]]; cbn [b64_groups]; rewrite ?elem_of_cons;
    repeat match goal with H : Forall _ (_ :: _) |- _ => apply Forall_cons in H as [? H] end;
    try (destruct (byte_parts a 4 64) as (a1 & a0 & Ea & ? & ? & _); [done..|]; subst a);
    try (destruct (byte_parts b 16 16) as (b1 & b0 & Eb & ? & ? & _); [done..|]; subst b);
    try (destruct (byte_parts d 64 4) as (c1 & c0 & Ec & ? & ? & _); [done..|]; subst d);
    unpack; pack; rewrite ?Z.shiftl_mul_pow2 by lia; change (2 ^ 2) with 4; change (2 ^ 4) with 16.
  - set_solver.
  - intros [->|[->|[->|[->|?]]]]; [apply Hch; lia|apply Hch; lia|done|done|set_solver].
  - intros [->|[->|[->|[->|?]]]]; [apply Hch; lia..|done|set_solver].
  - intros [->|[->|[->|[->|?]]]]; [apply Hch; lia..|]. apply (IH bs); [simpl in Hn; lia|done|done].
Qed.

(** Decoding what was encoded. *)
Lemma b64_roundtrip bs : Forall byte bs → b64decode (b64encode bs) = Some bs.
Proof.
  intros Hb. unfold b64decode, b64encode. rewrite chars_of_chars.
  replace (forallb _ _) with true.
  - by rewrite (b64_roundtrip_loop (length bs)).
  - symmetry. apply forallb_forall. intros c Hc%list_elem_of_In.
    by apply (b64_groups_alphabet (length bs) bs).
Qed.

Lemma b64encode_alphabet bs c : Forall byte bs → c ∈ chars (b64encode bs) → b64_alphabet c = true.
Proof.
  intros Hb. unfold b64encode. rewrite chars_of_chars. intros Hc.
  by eapply (b64_groups_alphabet (length bs)).
Qed.

End Crypto.
