(* ===== verification/Text.v ===== *)
(** * Python text and JSON values

    The [str] methods the engine uses ([split], [partition], [strip], [startswith],
    [int(s)], [str(n)], [repr]) on strings of code points up to 255, and the values
    [json.loads] returns, with [dict.get] and truthiness.  JSON numbers are integers. *)

From S2P Require Import Prelude Crypto.
From Stdlib Require Import Ascii.
From stdpp Require Export pretty.

Open Scope Z_scope.

Module Text.

(** [s.split(sep)] for a one-character separator. *)
Fixpoint split (sep : ascii) (s : string) : list string :=
  match s with
  | EmptyString => [""]
  | String c s' =>
      if bool_decide (c = sep) then "" :: split sep s'
      else match split sep s' with
           | [] => [String c ""]
           | w :: ws => String c w :: ws
           end
  end.

(** [s.partition(sep)] without the middle component. *)
Fixpoint partition (sep : ascii) (s : string) : string * string :=
  match s with
  | EmptyString => ("", "")
  | String c s' =>
      if bool_decide (c = sep) then ("", s')
      else let '(a, b) := partition sep s' in (String c a, b)
  end.

(** [sep in s] for a one-character [sep]. *)
Fixpoint mem (sep : ascii) (s : string) : bool :=
  match s with EmptyString => false | String c s' => bool_decide (c = sep) || mem sep s' end.

(** [sep.join(l)] *)
Definition join (sep : string) (l : list string) : string := String.concat sep l.

(** [str.isspace] on code points up to 255. *)
Definition isspace (c : ascii) : bool :=
  let n := Crypto.code c in
  ((9 <=? n) && (n <=? 13)) || ((28 <=? n) && (n <=? 32)) || (n =? 133) || (n =? 160).

Fixpoint lstrip (s : string) : string :=
  match s with
  | EmptyString => ""
  | String c s' => if isspace c then lstrip s' else s
  end.
Definition rev_string (s : string) : string := Crypto.of_chars (rev (Crypto.chars s)).
Definition strip (s : string) : string := rev_string (lstrip (rev_string (lstrip s))).

Fixpoint startswith (p s : string) : bool :=
  match p, s with
  | EmptyString, _ => true
  | String a p', String b s' => bool_decide (a = b) && startswith p' s'
  | _, _ => false
  end.
Definition endswith (p s : string) : bool := startswith (rev_string p) (rev_string s).

(** [s.lower()] on code points up to 255. *)
Definition lower_char (c : ascii) : ascii :=
  let n := Crypto.code c in
  if ((65 <=? n) && (n <=? 90)) || ((192 <=? n) && (n <=? 222) && negb (n =? 215))
  then Crypto.char (n + 32) else c.
Definition lower (s : string) : string := Crypto.of_chars (map lower_char (Crypto.chars s)).

(** [s.isascii()] *)
Definition isascii (s : string) : bool := forallb (fun c => Crypto.code c <? 128) (Crypto.chars s).

(** [s.split()]: maximal runs of non-space characters. *)
Fixpoint split_ws (s : string) : list string :=
  match s with
  | EmptyString => []
  | String c s' =>
      if isspace c then split_ws s'
      else match s' with
           | EmptyString => [String c ""]
           | String c' _ =>
               if isspace c' then String c "" :: split_ws s'
               else match split_ws s' with
                    | [] => [String c ""]
                    | w :: ws => String c w :: ws
                    end
           end
  end.

(** ** Integers *)

Definition digit_of (c : ascii) : option Z :=
  let n := Crypto.code c in if (48 <=? n) && (n <=? 57) then Some (n - 48) else None.

(** Digits with single underscores between them; [after_digit] tells whether the
    previous character was a digit.  The result carries the number of digits. *)
Fixpoint digits (after_digit : bool) (acc n : Z) (l : list ascii) : option (Z * Z) :=
  match l with
  | [] => if after_digit then Some (acc, n) else None
  | c :: l' =>
      match digit_of c with
      | Some d => digits true (acc * 10 + d) (n + 1) l'
      | None => if bool_decide (c = "_"%char) && after_digit then
                  match l' with
                  | c' :: _ => match digit_of c' with
                               | Some _ => digits false acc n l' | None => None end
                  | [] => None
                  end
                else None
      end
  end.

(** [int(s)]; [None] is [ValueError], also for more than 4300 digits. *)
Definition int (s : string) : option Z :=
  let magnitude l := match digits false 0 0 l with
                     | Some (v, n) => if n <=? 4300 then Some v else None
                     | None => None end in
  match Crypto.chars (strip s) with
  | "-"%char :: l => Z.opp <$> magnitude l
  | "+"%char :: l => magnitude l
  | l => magnitude l
  end.

(** [str(n)] for an [int]. *)
Definition str_int (n : Z) : string := pretty n.

(** The least integer whose conversion to a binary64 float overflows. *)
Definition float_overflow : Z := 2 ^ 1024 - 2 ^ 970.
(** [float(n)] raises [OverflowError]. *)
Definition overflows (n : Z) : bool := float_overflow <=? Z.abs n.

(** ** Facts *)

Lemma split_nonempty sep s : split sep s ≠ [].
Proof. destruct s; simpl; [done|]. case_bool_decide; [done|]. by destruct (split sep s). Qed.

Lemma split_app sep a b :
  mem sep a = false → split sep (a +:+ String sep b) = a :: split sep b.
Proof.
  induction a as [|c a IH]; simpl; intros H.
  - by rewrite bool_decide_true.
  - apply orb_false_iff in H as [H1 H2]. rewrite H1, IH by done. done.
Qed.

Lemma split_single sep a : mem sep a = false → split sep a = [a].
Proof.
  induction a as [|c a IH]; simpl; intros H; [done|].
  apply orb_false_iff in H as [H1 H2]. by rewrite H1, IH.
Qed.

Lemma split_concat sep l :
  l ≠ [] → Forall (fun a => mem sep a = false) l →
  split sep (String.concat (String sep "") l) = l.
Proof.
  intros Hne H. induction H as [|a l Ha Hl IH]; [done|].
  destruct l as [|b l]; [by apply split_single|].
  change (String.concat _ (a :: b :: l))
    with (a +:+ String sep (String.concat (String sep "") (b :: l))).
  rewrite split_app by done. f_equal. by apply IH.
Qed.

Lemma mem_app sep a b : mem sep (a +:+ b) = mem sep a || mem sep b.
Proof. induction a as [|c a IH]; simpl; [done|]. by rewrite IH, orb_assoc. Qed.

Lemma partition_app sep a b :
  mem sep a = false → partition sep (a +:+ String sep b) = (a, b).
Proof.
  induction a as [|c a IH]; simpl; intros H; [by rewrite bool_decide_true|].
  apply orb_false_iff in H as [H1 H2]. by rewrite H1, IH.
Qed.

Definition no_space (s : string) : bool := forallb (fun c => negb (isspace c)) (Crypto.chars s).

Lemma split_ws_app a b :
  a ≠ "" → no_space a = true → split_ws (a +:+ String " " b) = a :: split_ws b.
Proof.
  induction a as [|c a IH]; [done|]. intros _ H. unfold no_space in H. simpl in H.
  apply andb_true_iff in H as [Hc%negb_true_iff Ha].
  change (String c a +:+ String " " b) with (String c (a +:+ String " " b)).
  cbn [split_ws]. rewrite Hc. destruct a as [|c' a]; [done|].
  pose proof Ha as [Hc'%negb_true_iff _]%andb_true_iff.
  rewrite IH by done. simpl. by rewrite Hc'.
Qed.

Lemma split_ws_single a : a ≠ "" → no_space a = true → split_ws a = [a].
Proof.
  induction a as [|c a IH]; [done|]. intros _ H. unfold no_space in H. simpl in H.
  apply andb_true_iff in H as [Hc%negb_true_iff Ha].
  cbn [split_ws]. rewrite Hc. destruct a as [|c' a]; [done|].
  pose proof Ha as [Hc'%negb_true_iff _]%andb_true_iff.
  rewrite IH by done. by rewrite Hc'.
Qed.

(** Splitting what [" ".join] put together. *)
Lemma split_ws_join l :
  Forall (fun a => a ≠ "" ∧ no_space a = true) l → split_ws (join " " l) = l.
Proof.
  unfold join. induction 1 as [|a l [Ha1 Ha2] Hl IH]; [done|].
  destruct l as [|b l]; [by apply split_ws_single|].
  change (String.concat " " (a :: b :: l)) with (a +:+ String " " (String.concat " " (b :: l))).
  rewrite split_ws_app by done. f_equal. apply IH.
Qed.

(** Prefixes and suffixes. *)
Lemma append_nil a : a +:+ "" = a.
Proof. induction a as [|c a IH]; [done|]. change (String c (a +:+ "") = String c a). by rewrite IH. Qed.
Lemma append_assoc a b c : a +:+ (b +:+ c) = (a +:+ b) +:+ c.
Proof. induction a as [|x a IH]; [done|]. change (String x (a +:+ (b +:+ c)) = String x ((a +:+ b) +:+ c)). by rewrite IH. Qed.
Lemma chars_app a b : Crypto.chars (a +:+ b) = Crypto.chars a ++ Crypto.chars b.
Proof. induction a as [|c a IH]; simpl; [done|by rewrite IH]. Qed.
Lemma of_chars_app a b : Crypto.of_chars (a ++ b) = Crypto.of_chars a +:+ Crypto.of_chars b.
Proof. induction a as [|c a IH]; simpl; [done|by rewrite IH]. Qed.
Lemma rev_string_app a b : rev_string (a +:+ b) = rev_string b +:+ rev_string a.
Proof. unfold rev_string. by rewrite chars_app, rev_app_distr, of_chars_app. Qed.
Lemma startswith_app p s t : startswith p s = true → startswith p (s +:+ t) = true.
Proof.
  revert s. induction p as [|a p IH]; intros s H; [done|]. destruct s as [|b s]; [done|]. simpl in *.
  apply andb_true_iff in H as [-> H]. by apply IH.
Qed.
Lemma startswith_self p s : startswith p (p +:+ s) = true.
Proof. induction p as [|a p IH]; simpl; [done|]. by rewrite bool_decide_true. Qed.
Lemma startswith_spec p s : startswith p s = true ↔ ∃ t, s = p +:+ t.
Proof.
  split; [|intros [t ->]; apply startswith_self]. revert s. induction p as [|a p IH]; intros s H; [by exists s|].
  destruct s as [|b s]; [done|]. simpl in H. apply andb_true_iff in H as [->%bool_decide_eq_true H].
  destruct (IH s H) as [t ->]. by exists t.
Qed.
Lemma endswith_app p s t : endswith p t = true → endswith p (s +:+ t) = true.
Proof. unfold endswith. rewrite rev_string_app. apply startswith_app. Qed.
Lemma endswith_self p s : endswith p (s +:+ p) = true.
Proof. unfold endswith. rewrite rev_string_app. apply startswith_self. Qed.

Example int_forms :
  int "42" = Some 42 ∧ int " -1_000 " = Some (-1000) ∧ int "1__0" = None ∧ int "" = None ∧ int "x" = None.
Proof. repeat split. Qed.

(** ** The characters of a number *)

Definition numchar (c : ascii) : bool :=
  match digit_of c with Some _ => true | None => bool_decide (c = "-"%char) end.
Lemma pretty_go_chars x s : forallb numchar (Crypto.chars s) = true → forallb numchar (Crypto.chars (pretty_N_go x s)) = true.
Proof.
  revert s. induction (N.lt_wf_0 x) as [x _ IH]; intros s Hs.
  destruct (decide (0 < x)%N) as [Hx|Hx]; [|assert (x = 0%N) as -> by lia; by rewrite pretty_N_go_0].
  rewrite pretty_N_go_step by done. apply IH; [by apply N.div_lt|]. cbn. rewrite Hs, andb_true_r.
  unfold pretty_N_char. repeat case_match; done.
Qed.
Lemma str_int_chars z : forallb numchar (Crypto.chars (str_int z)) = true.
Proof.
  unfold str_int. destruct z as [|p|p]; [done| |].
  - change (pretty (Z.pos p)) with (pretty_N_go (N.pos p) ""). by apply pretty_go_chars.
  - change (pretty (Z.neg p)) with ("-" +:+ pretty_N_go (N.pos p) ""). rewrite chars_app, forallb_app.
    by rewrite pretty_go_chars.
Qed.

End Text.

Module Json.

Inductive t :=
| JNull
| JBool (b : bool)
| JInt (z : Z)
| JStr (s : string)
| JArr (l : list t)
| JObj (l : list (string * t)).

(** [bool(v)] *)
Definition truthy (v : t) : bool :=
  match v with
  | JNull => false
  | JBool b => b
  | JInt z => negb (z =? 0)
  | JStr s => str_true s
  | JArr l => negb (Nat.eqb (length l) 0)
  | JObj l => negb (Nat.eqb (length l) 0)
  end.

(** [v.get(key)]: [None] is the [AttributeError] of a value that is no object.  Of
    repeated names the last one counts. *)
Definition get (key : string) (v : t) : option (option t) :=
  match v with
  | JObj l => Some (snd <$> find (fun p => bool_decide (fst p = key)) (rev l))
  | _ => None
  end.

(** [repr] of a string: single quotes unless only those occur inside. *)
Definition escape_char (quote c : ascii) : list ascii :=
  let n := Crypto.code c in
  let bs := "\"%char in
  if bool_decide (c = quote) || bool_decide (c = bs) then [bs; c]
  else if n =? 10 then [bs; "n"%char]
  else if n =? 13 then [bs; "r"%char]
  else if n =? 9 then [bs; "t"%char]
  else if (n <? 32) || ((127 <=? n) && (n <=? 160)) || (n =? 173) then
    [bs; "x"%char; Crypto.hex_digit (Z.shiftr n 4); Crypto.hex_digit (Z.land n 15)]
  else [c].
Definition repr_str (s : string) : string :=
  let squote := Crypto.char 39 in
  let dquote := Crypto.char 34 in
  let q := if Text.mem squote s && negb (Text.mem dquote s) then dquote else squote in
  Crypto.of_chars (q :: flat_map (escape_char q) (Crypto.chars s) ++ [q]).

Fixpoint repr (v : t) : string :=
  match v with
  | JNull => "None"
  | JBool b => if b then "True" else "False"
  | JInt z => Text.str_int z
  | JStr s => repr_str s
  | JArr l => "[" +:+ String.concat ", " (map repr l) +:+ "]"
  | JObj l => "{" +:+ String.concat ", " (map (fun p => repr_str (fst p) +:+ ": " +:+ repr (snd p)) l) +:+ "}"
  end.
(** [str(v)] *)
Definition str (v : t) : string := match v with JStr s => s | _ => repr v end.

(** [json.dumps] of a string, with [ensure_ascii]. *)
Definition dumps_char (c : ascii) : list ascii :=
  let n := Crypto.code c in
  let bs := "\"%char in
  if (n =? 34) || (n =? 92) then [bs; c]
  else if n =? 10 then [bs; "n"%char]
  else if n =? 13 then [bs; "r"%char]
  else if n =? 9 then [bs; "t"%char]
  else if n =? 8 then [bs; "b"%char]
  else if n =? 12 then [bs; "f"%char]
  else if (n <? 32) || (126 <? n) then
    [bs; "u"%char; "0"%char; "0"%char; Crypto.hex_digit (Z.shiftr n 4); Crypto.hex_digit (Z.land n 15)]
  else [c].
Definition dumps_str (s : string) : string :=
  let q := Crypto.char 34 in
  Crypto.of_chars (q :: flat_map dumps_char (Crypto.chars s) ++ [q]).

(** Items in the order of their keys. *)
Fixpoint insert_item (x : string * string) (l : list (string * string)) : list (string * string) :=
  match l with
  | [] => [x]
  | y :: l' => if str_leb (fst x) (fst y) then x :: l else y :: insert_item x l'
  end.
Definition sort_items (l : list (string * string)) : list (string * string) :=
  fold_right insert_item [] l.

(** [json.dumps(v, sort_keys=True, separators=(",", ":"))] *)
Fixpoint dumps (v : t) : string :=
  match v with
  | JNull => "null"
  | JBool b => if b then "true" else "false"
  | JInt z => Text.str_int z
  | JStr s => dumps_str s
  | JArr l => "[" +:+ String.concat "," (map dumps l) +:+ "]"
  | JObj l => "{" +:+ String.concat ","
                (map (fun p => dumps_str (fst p) +:+ ":" +:+ snd p)
                   (sort_items (map (fun p => (fst p, dumps (snd p))) l))) +:+ "}"
  end.

Definition eq_str (v : t) (s : string) : bool :=
  match v with JStr x => bool_decide (x = s) | _ => false end.
Definition hashable (v : t) : bool := match v with JArr _ | JObj _ => false | _ => true end.

End Json.
