(* ===== verification/JsonText.v ===== *)
(** * The text of JSON values

    What the engine uses of Python's [json] module where a value goes through text and back:
    [Module JsonText] has [json.dumps] with its separators and [sort_keys], and [json.loads].
    A string is its characters (code points below 256); a number is an integer, so that a
    text with a fraction or an exponent is refused here although Python reads it as a float.
    [loads_dumps]: reading what was written with sorted keys gives the value with its
    dictionaries in the order of their keys, and [dumps_normal]: that order does not show in
    a text with sorted keys. *)

From S2P Require Import Prelude Crypto Text.
From Stdlib Require Import Ascii.

Open Scope Z_scope.

Module JsonText.
Import Json.

(** ** Writing *)

(** The items of a dictionary in the order of their keys (stable). *)
Fixpoint ins {A} (x : string * A) (l : list (string * A)) : list (string * A) :=
  match l with
  | [] => [x]
  | y :: l' => if str_leb (fst x) (fst y) then x :: l else y :: ins x l'
  end.
Definition sort_kv {A} (l : list (string * A)) : list (string * A) := fold_right ins [] l.

Definition quote : ascii := Crypto.char 34.
Definition backslash : ascii := Crypto.char 92.
Definition quoted (s : string) : list ascii := quote :: flat_map dumps_char (Crypto.chars s) ++ [quote].
Fixpoint joined (sep : list ascii) (l : list (list ascii)) : list ascii :=
  match l with
  | [] => []
  | [x] => x
  | x :: l' => x ++ sep ++ joined sep l'
  end.
(** [json.dumps(v, sort_keys=sort, separators=(isep, ksep))] *)
Fixpoint print (sort : bool) (isep ksep : list ascii) (v : Json.t) : list ascii :=
  match v with
  | JNull => Crypto.chars "null"
  | JBool b => Crypto.chars (if b then "true" else "false")
  | JInt z => Crypto.chars (Text.str_int z)
  | JStr s => quoted s
  | JArr l => "["%char :: joined isep (map (print sort isep ksep) l) ++ ["]"%char]
  | JObj l =>
      let items := map (fun p => (fst p, print sort isep ksep (snd p))) l in
      "{"%char :: joined isep (map (fun p => quoted (fst p) ++ ksep ++ snd p) (if sort then sort_kv items else items))
        ++ ["}"%char]
  end.
Definition dumps (sort : bool) (isep ksep : string) (v : Json.t) : string :=
  Crypto.of_chars (print sort (Crypto.chars isep) (Crypto.chars ksep) v).

(** ** Reading *)

Definition is_ws (c : ascii) : bool := bool_decide (Crypto.code c ∈ [32; 9; 10; 13]).
Fixpoint skip_ws (l : list ascii) : list ascii :=
  match l with c :: l' => if is_ws c then skip_ws l' else l | [] => [] end.

Definition hex_of (c : ascii) : option Z :=
  let n := Crypto.code c in
  if (48 <=? n) && (n <=? 57) then Some (n - 48)
  else if (97 <=? n) && (n <=? 102) then Some (n - 87)
  else if (65 <=? n) && (n <=? 70) then Some (n - 55)
  else None.
(** The characters after a backslash other than [u]. *)
Definition unescape (c : ascii) : option ascii :=
  let n := Crypto.code c in
  if (n =? 34) || (n =? 92) || (n =? 47) then Some c
  else if n =? 98 then Some (Crypto.char 8)
  else if n =? 102 then Some (Crypto.char 12)
  else if n =? 110 then Some (Crypto.char 10)
  else if n =? 114 then Some (Crypto.char 13)
  else if n =? 116 then Some (Crypto.char 9)
  else None.
Definition code_point (a b c d : ascii) : option ascii :=
  x ← hex_of a; y ← hex_of b; z ← hex_of c; w ← hex_of d;
  let n := ((x * 16 + y) * 16 + z) * 16 + w in
  if n <? 256 then Some (Crypto.char n) else None.
(** A string after its opening quote; control characters are refused. *)
Fixpoint string_body (l : list ascii) : option (list ascii * list ascii) :=
  let cons c r := match r with Some (s, r) => Some (c :: s, r) | None => None end in
  match l with
  | [] => None
  | c :: r =>
      if bool_decide (c = quote) then Some ([], r)
      else if bool_decide (c = backslash) then
        match r with
        | [] => None
        | e :: r1 =>
            if bool_decide (e = "u"%char) then
              match r1 with
              | a :: b :: c :: d :: r2 => match code_point a b c d with Some x => cons x (string_body r2) | None => None end
              | _ => None
              end
            else match unescape e with Some x => cons x (string_body r1) | None => None end
        end
      else if Crypto.code c <? 32 then None
      else cons c (string_body r)
  end.

Definition digit (c : ascii) : option Z := Text.digit_of c.
(** The digits at the head of a text, as a number from [acc] on. *)
Fixpoint digits (acc : Z) (l : list ascii) : Z * list ascii :=
  match l with
  | c :: l' => match digit c with Some d => digits (10 * acc + d) l' | None => (acc, l) end
  | [] => (acc, [])
  end.
(** Whether a fraction or an exponent follows. *)
Definition float_follows (l : list ascii) : bool :=
  match l with c :: _ => bool_decide (c ∈ ["."; "e"; "E"]%char) | [] => false end.
(** An integer without a sign: [0], or digits that do not begin with one. *)
Definition natural (l : list ascii) : option (Z * list ascii) :=
  match l with
  | c :: l' =>
      match digit c with
      | Some 0 => if float_follows l' then None else Some (0, l')
      | Some d => let '(n, r) := digits d l' in if float_follows r then None else Some (n, r)
      | None => None
      end
  | [] => None
  end.
Definition number (l : list ascii) : option (Z * list ascii) :=
  match l with
  | c :: l' => if bool_decide (c = "-"%char) then match natural l' with Some (n, r) => Some (- n, r) | None => None end
               else natural l
  | [] => None
  end.
Fixpoint after (p l : list ascii) : option (list ascii) :=
  match p, l with
  | [], _ => Some l
  | a :: p', b :: l' => if bool_decide (a = b) then after p' l' else None
  | _ :: _, [] => None
  end.

(** A value at the head of a text; elements up to the closing bracket; items up to the
    closing brace.  The fuel is the length of the text. *)
Fixpoint value (n : nat) (l : list ascii) : option (Json.t * list ascii) :=
  match n with
  | O => None
  | S n =>
      let l := skip_ws l in
      match l with
      | [] => None
      | c :: r =>
          if bool_decide (c = quote) then '(s, r) ← string_body r; Some (JStr (Crypto.of_chars s), r)
          else if bool_decide (c = "["%char) then
            match skip_ws r with
            | d :: r' => if bool_decide (d = "]"%char) then Some (JArr [], r')
                         else '(vs, r) ← elements n r; Some (JArr vs, r)
            | [] => None
            end
          else if bool_decide (c = "{"%char) then
            match skip_ws r with
            | d :: r' => if bool_decide (d = "}"%char) then Some (JObj [], r')
                         else '(ms, r) ← members n r; Some (JObj (dict_of ms), r)
            | [] => None
            end
          else match after (Crypto.chars "null") l with
               | Some r => Some (JNull, r)
               | None => match after (Crypto.chars "true") l with
                         | Some r => Some (JBool true, r)
                         | None => match after (Crypto.chars "false") l with
                                   | Some r => Some (JBool false, r)
                                   | None => '(z, r) ← number l; Some (JInt z, r)
                                   end
                         end
               end
      end
  end
with elements (n : nat) (l : list ascii) : option (list Json.t * list ascii) :=
  match n with
  | O => None
  | S n =>
      '(v, r) ← value n l;
      match skip_ws r with
      | c :: r => if bool_decide (c = ","%char) then '(vs, r) ← elements n r; Some (v :: vs, r)
                  else if bool_decide (c = "]"%char) then Some ([v], r) else None
      | [] => None
      end
  end
with members (n : nat) (l : list ascii) : option (list (string * Json.t) * list ascii) :=
  match n with
  | O => None
  | S n =>
      match skip_ws l with
      | c :: r =>
          if negb (bool_decide (c = quote)) then None
          else
            '(k, r) ← string_body r;
            match skip_ws r with
            | c :: r =>
                if negb (bool_decide (c = ":"%char)) then None
                else
                  '(v, r) ← value n r;
                  match skip_ws r with
                  | c :: r => if bool_decide (c = ","%char) then '(ms, r) ← members n r; Some ((Crypto.of_chars k, v) :: ms, r)
                              else if bool_decide (c = "}"%char) then Some ([(Crypto.of_chars k, v)], r) else None
                  | [] => None
                  end
            | [] => None
            end
      | [] => None
      end
  end.
(** [json.loads(s)]: [None] is a [JSONDecodeError], or a number that is no integer. *)
Definition loads (s : string) : option Json.t :=
  '(v, r) ← value (String.length s) (Crypto.chars s);
  match skip_ws r with [] => Some v | _ :: _ => None end.

Example loads_forms :
  loads "" = None ∧ loads " 12 " = Some (JInt 12) ∧ loads "01" = None ∧ loads "-0" = Some (JInt 0) ∧ loads "1.5" = None ∧
  loads "[1, [], {}]" = Some (JArr [JInt 1; JArr []; JObj []]) ∧ loads "[1,]" = None ∧ loads "nul" = None.
Proof. vm_compute. repeat split. Qed.

(** ** Order of keys *)

Section Values.
Context (P : Json.t → Prop) (Pnull : P JNull) (Pbool : ∀ b, P (JBool b)) (Pint : ∀ z, P (JInt z)) (Pstr : ∀ s, P (JStr s))
  (Parr : ∀ l, Forall P l → P (JArr l)) (Pobj : ∀ l, Forall (fun p => P (snd p)) l → P (JObj l)).
Fixpoint value_ind (v : Json.t) : P v :=
  match v with
  | JNull => Pnull | JBool b => Pbool b | JInt z => Pint z | JStr s => Pstr s
  | JArr l => Parr l ((fix go (l : list Json.t) : Forall P l :=
      match l with [] => List.Forall_nil _ | x :: l => Forall_cons_2 _ _ _ (value_ind x) (go l) end) l)
  | JObj l => Pobj l ((fix go (l : list (string * Json.t)) : Forall (fun p => P (snd p)) l :=
      match l with [] => List.Forall_nil _ | x :: l => Forall_cons_2 _ _ _ (value_ind (snd x)) (go l) end) l)
  end.
End Values.

Section Order.
Context {A : Type}.
Definition before (a b : string * A) : Prop := str_leb (fst a) (fst b) = true.
Lemma ins_sorted (x : string * A) (l : list (string * A)) : Sorted before l → Sorted before (ins x l).
Proof.
  induction 1 as [|y l Hs IH Hh]; simpl; [by repeat constructor|].
  destruct (str_leb (fst x) (fst y)) eqn:E; [by repeat constructor|]. constructor; [done|].
  assert (before y x) as Hyx by (unfold before, str_leb in *; destruct (String.leb_total (fst x) (fst y)); congruence).
  destruct l as [|z l]; simpl; [by constructor|]. destruct (str_leb (fst x) (fst z)); constructor; [done|by inversion Hh].
Qed.
Lemma sort_sorted (l : list (string * A)) : Sorted before (sort_kv l).
Proof. induction l as [|x l IH]; [constructor|]. by apply ins_sorted. Qed.
Lemma sort_id (l : list (string * A)) : Sorted before l → sort_kv l = l.
Proof.
  induction 1 as [|x l Hs IH Hh]; [done|]. simpl. rewrite IH. destruct Hh as [|y l Hxy]; [done|]. simpl. by rewrite Hxy.
Qed.
Lemma ins_perm (x : string * A) (l : list (string * A)) : ins x l ≡ₚ x :: l.
Proof. induction l as [|y l IH]; simpl; [done|]. case_match; [done|]. rewrite IH. by constructor. Qed.
Lemma sort_perm (l : list (string * A)) : sort_kv l ≡ₚ l.
Proof. induction l as [|x l IH]; simpl; [done|]. by rewrite ins_perm, IH. Qed.
End Order.
Definition on_snd {A B} (f : A → B) (p : string * A) : string * B := (fst p, f (snd p)).
Lemma sort_map {A B} (f : A → B) l : sort_kv (map (on_snd f) l) = map (on_snd f) (sort_kv l).
Proof.
  assert (∀ x l, ins (on_snd f x) (map (on_snd f) l) = map (on_snd f) (ins x l)) as Hi.
  { intros x k. induction k as [|y k IH]; simpl; [done|]. destruct (str_leb (fst x) (fst y)); [done|]. simpl. by rewrite IH. }
  induction l as [|x l IH]; [done|]. simpl. by rewrite IH, Hi.
Qed.

(** The value with its dictionaries in the order of their keys; values equal up to that order
    are the same in Python. *)
Fixpoint normal (v : Json.t) : Json.t :=
  match v with
  | JArr l => JArr (map normal l)
  | JObj l => JObj (sort_kv (map (on_snd normal) l))
  | _ => v
  end.
(** Dictionaries have distinct keys. *)
Fixpoint dicts_ok (v : Json.t) : bool :=
  match v with
  | JArr l => forallb dicts_ok l
  | JObj l => bool_decide (NoDup (map fst l)) && forallb (fun p => dicts_ok (snd p)) l
  | _ => true
  end.

Lemma print_obj isep ksep l :
  print true isep ksep (JObj l) =
  "{"%char :: joined isep (map (fun p => quoted (fst p) ++ ksep ++ print true isep ksep (snd p)) (sort_kv l)) ++ ["}"%char].
Proof.
  cbn [print]. do 2 f_equal. change (map (fun p => (fst p, print true isep ksep (snd p))) l) with (map (on_snd (print true isep ksep)) l).
  rewrite sort_map, map_map. done.
Qed.
Lemma print_normal isep ksep v : print true isep ksep (normal v) = print true isep ksep v.
Proof.
  induction v as [| | | |l IH|l IH] using value_ind; try done.
  - cbn [normal print]. do 3 f_equal. rewrite map_map. induction IH as [|x l Hx _ IHl]; [done|]. simpl. by rewrite Hx, IHl.
  - cbn [normal]. rewrite !print_obj. do 3 f_equal. rewrite (sort_id (sort_kv _)) by apply sort_sorted. rewrite sort_map, map_map.
    assert (Forall (fun p => print true isep ksep (normal (snd p)) = print true isep ksep (snd p)) (sort_kv l)) as H
      by (rewrite (sort_perm l); done).
    apply map_ext_Forall. eapply Forall_impl; [exact H|]. intros [k x] E. cbn in E |- *. by rewrite E.
Qed.
(** The order of the keys does not show in a text written with sorted keys. *)
Lemma dumps_normal isep ksep v : dumps true isep ksep (normal v) = dumps true isep ksep v.
Proof. unfold dumps. by rewrite print_normal. Qed.

(** ** Reading back *)

Lemma skip_ws_head c r : is_ws c = false → skip_ws (c :: r) = c :: r.
Proof. intros H. simpl. by rewrite H. Qed.
Lemma string_char c tl : string_body (dumps_char c ++ tl) =
  match string_body tl with Some (s, r) => Some (c :: s, r) | None => None end.
Proof. destruct c as [[] [] [] [] [] [] [] []]; reflexivity. Qed.
Lemma string_read s rest : string_body (flat_map dumps_char s ++ quote :: rest) = Some (s, rest).
Proof. induction s as [|c s IH]; [reflexivity|]. cbn [flat_map]. by rewrite <- app_assoc, string_char, IH. Qed.

Lemma digit_pretty n : (n < 10)%N → digit (pretty_N_char n) = Some (Z.of_N n).
Proof. intros H. assert (n ∈ [0;1;2;3;4;5;6;7;8;9]%N) as Hn by (rewrite !elem_of_cons; lia).
  rewrite !elem_of_cons in Hn. repeat destruct Hn as [->|Hn]; try reflexivity. by apply not_elem_of_nil in Hn.
Qed.
Lemma digits_go x s rest : digits 0 (Crypto.chars (pretty_N_go x s) ++ rest) = digits (Z.of_N x) (Crypto.chars s ++ rest).
Proof.
  revert s. induction (N.lt_wf_0 x) as [x _ IH]; intros s.
  destruct (decide (0 < x)%N) as [Hx|Hx]; [|assert (x = 0%N) as -> by lia; by rewrite pretty_N_go_0].
  rewrite pretty_N_go_step by done. rewrite IH by (by apply N.div_lt). cbn [Crypto.chars digits app].
  rewrite digit_pretty by (apply N.mod_lt; lia). f_equal. pose proof (N.div_mod x 10 ltac:(lia)). lia.
Qed.
(** The text of a positive number begins with a digit other than zero. *)
Lemma go_head x s : (0 < x)%N → ∃ c tl d, Crypto.chars (pretty_N_go x s) = c :: tl ∧ digit c = Some d ∧ 0 < d.
Proof.
  revert s. induction (N.lt_wf_0 x) as [x _ IH]; intros s Hx. rewrite pretty_N_go_step by done.
  destruct (decide (0 < x `div` 10)%N) as [Hd|Hd]; [apply IH; [by apply N.div_lt|done]|].
  assert (N.div x 10 = 0%N) as E by (by apply N.le_0_r, N.nlt_ge). rewrite E, pretty_N_go_0. do 3 eexists. split; [reflexivity|].
  rewrite digit_pretty by (apply N.mod_lt; lia). split; [done|]. apply N.div_small_iff in E; [|lia]. rewrite N.mod_small by done. lia.
Qed.
(** What may follow a number. *)
Definition stops (l : list ascii) : Prop := match l with c :: _ => digit c = None ∧ c ∉ ["."; "e"; "E"]%char | [] => True end.
Lemma natural_read p rest : stops rest → natural (Crypto.chars (pretty_N_go (N.pos p) "") ++ rest) = Some (Z.pos p, rest).
Proof.
  intros Hr. destruct (go_head (N.pos p) "" ltac:(lia)) as (c & tl & d & E & Hd & Hpos).
  pose proof (digits_go (N.pos p) "" rest) as Hg. rewrite E in Hg |- *. cbn [app digits] in Hg. rewrite Hd in Hg.
  cbn [app natural]. rewrite Hd. replace (10 * 0 + d) with d in Hg by lia. destruct d as [|d|]; [lia| |lia]. rewrite Hg.
  cbn [Crypto.chars app]. destruct rest as [|x rest]; [done|]. destruct Hr as [Hx Hf]. cbn [digits]. rewrite Hx. unfold float_follows.
  by rewrite bool_decide_false.
Qed.
Lemma number_read z rest : stops rest → number (Crypto.chars (Text.str_int z) ++ rest) = Some (z, rest).
Proof.
  intros Hr. unfold Text.str_int. destruct z as [|p|p].
  - destruct rest as [|x rest]; [reflexivity|]. destruct Hr as [_ Hf].
    transitivity (if float_follows (x :: rest) then None else Some (0, x :: rest)); [reflexivity|].
    unfold float_follows. by rewrite bool_decide_false by exact Hf.
  - change (pretty (Z.pos p)) with (pretty_N_go (N.pos p) "").
    pose proof (natural_read p rest Hr) as H. destruct (go_head (N.pos p) "" ltac:(lia)) as (c & tl & d & E & Hd & _).
    rewrite E in H |- *. cbn [app number] in *. rewrite bool_decide_false; [done|]. intros ->. vm_compute in Hd. discriminate.
  - change (pretty (Z.neg p)) with ("-" +:+ pretty_N_go (N.pos p) ""). cbn [Crypto.chars String.append app number].
    change (Crypto.chars ("-" +:+ pretty_N_go (N.pos p) "")) with ("-"%char :: Crypto.chars (pretty_N_go (N.pos p) "")).
    cbn [app number]. rewrite bool_decide_true by done. by rewrite natural_read.
Qed.

Definition isep : list ascii := Crypto.chars ", ".
Definition ksep : list ascii := Crypto.chars ": ".

(** The reader is at character [c], which it expects. *)
Ltac see c := change (skip_ws (c :: ?x)) with (c :: x); cbv beta iota; rewrite ?(bool_decide_true (c = c)) by done; cbv beta iota.

Lemma value_space n l : value n (" "%char :: l) = value n l.
Proof. by destruct n. Qed.
Lemma elements_space n l : elements n (" "%char :: l) = elements n l.
Proof. destruct n; [done|]. cbn [elements]. by rewrite value_space. Qed.
Lemma members_space n l : members n (" "%char :: l) = members n l.
Proof. by destruct n. Qed.

(** A character that begins a number begins nothing else. *)
Definition starts_number (c : ascii) : bool := match digit c with Some _ => true | None => bool_decide (c = "-"%char) end.
Lemma number_starts c l z r : number (c :: l) = Some (z, r) → starts_number c = true.
Proof.
  unfold number, starts_number. case_bool_decide as E; [by intros _; case_match|]. unfold natural. by case_match.
Qed.
Lemma value_number n c l z r : number (c :: l) = Some (z, r) → value (S n) (c :: l) = Some (JInt z, r).
Proof.
  intros H. pose proof (number_starts _ _ _ _ H) as Hs.
  assert (value (S n) (c :: l) = ('(z, r) ← number (c :: l); Some (JInt z, r))) as ->; [|by rewrite H].
  clear H. destruct c as [[] [] [] [] [] [] [] []]; vm_compute in Hs; try discriminate; reflexivity.
Qed.
(** The text of a value begins with no blank and no closing bracket. *)
Lemma print_head s i k v : ∃ c tl, print s i k v = c :: tl ∧ is_ws c = false ∧ c ≠ "]"%char.
Proof.
  destruct v as [|[]|z|str|l|l]; try (by do 2 eexists; repeat split).
  pose proof (number_read z [] I) as H. cbn [print]. destruct (Crypto.chars (Text.str_int z)) as [|c tl]; [discriminate|].
  apply number_starts in H. exists c, (tl). split; [done|].
  destruct c as [[] [] [] [] [] [] [] []]; vm_compute in H; try discriminate; by vm_compute.
Qed.

Abbreviation text := (print true isep ksep).
(** What the reader makes of the text of a value. *)
Definition reads (v : Json.t) : Prop :=
  ∀ n rest, (length (text v) ≤ n)%nat → stops rest → value n (text v ++ rest) = Some (normal v, rest).

Lemma stops_sep c rest : c ∈ [","; "]"; "}"]%char → stops (c :: rest).
Proof. rewrite !elem_of_cons, elem_of_nil. intros [->|[->|[->|[]]]]; split; try done; set_solver. Qed.

Lemma elements_read l n rest : Forall reads l → l ≠ [] → (length (joined isep (map text l)) < n)%nat →
  elements n (joined isep (map text l) ++ "]"%char :: rest) = Some (map normal l, rest).
Proof.
  intros H. revert n. induction H as [|v l Hv Hl IH]; intros n Hne Hn; [done|]. destruct n as [|n]; [lia|]. clear Hne.
  destruct l as [|w l].
  - cbn [map joined] in *. cbn [elements]. rewrite Hv by (try apply stops_sep; set_solver + || lia). reflexivity.
  - change (joined isep (map text (v :: w :: l))) with (text v ++ isep ++ joined isep (map text (w :: l))) in *.
    rewrite !length_app in Hn. rewrite <- !app_assoc. cbn [elements].
    change (isep ++ ?x) with (","%char :: " "%char :: x). rewrite Hv by (try (apply stops_sep; set_solver +); lia).
    cbn [mbind option_bind]. see ","%char. rewrite elements_space, IH; [done|done|]. change (length isep) with 2%nat in Hn. lia.
Qed.

Definition item_text (p : string * Json.t) : list ascii := quoted (fst p) ++ ksep ++ text (snd p).
Lemma members_read l n rest : Forall (fun p => reads (snd p)) l → l ≠ [] → (length (joined isep (map item_text l)) < n)%nat →
  members n (joined isep (map item_text l) ++ "}"%char :: rest) = Some (map (on_snd normal) l, rest).
Proof.
  assert (∀ p n rest, reads (snd p) → (length (item_text p) ≤ n)%nat → stops rest →
    members (S n) (item_text p ++ rest) =
    match skip_ws rest with
    | c :: r => if bool_decide (c = ","%char) then '(ms, r) ← members n r; Some (on_snd normal p :: ms, r)
                else if bool_decide (c = "}"%char) then Some ([on_snd normal p], r) else None
    | [] => None
    end) as Hitem.
  { clear. intros [k v] n rest Hv Hn Hr. unfold item_text, quoted in *. cbn [fst snd] in *.
    rewrite !length_app in Hn. cbn [length] in Hn. rewrite <- !app_assoc. cbn [app]. rewrite <- !app_assoc. cbn [app].
    cbn [members]. see quote. cbn [negb].
    rewrite string_read. cbn [mbind option_bind]. change (ksep ++ ?x) with (":"%char :: " "%char :: x).
    see ":"%char. cbn [negb].
    rewrite value_space, Hv by (done || lia). cbn [mbind option_bind]. unfold on_snd. cbn [fst snd].
    by rewrite Crypto.of_chars_chars. }
  intros H. revert n. induction H as [|p l Hp Hl IH]; intros n Hne Hn; [done|]. destruct n as [|n]; [lia|]. clear Hne.
  destruct l as [|q l].
  - cbn [map joined] in *. rewrite Hitem by (try (apply stops_sep; set_solver +); done || lia). reflexivity.
  - change (joined isep (map item_text (p :: q :: l))) with (item_text p ++ isep ++ joined isep (map item_text (q :: l))) in *.
    rewrite !length_app in Hn. rewrite <- !app_assoc. change (isep ++ ?x) with (","%char :: " "%char :: x).
    rewrite Hitem by (try (apply stops_sep; set_solver +); done || lia). see ","%char. rewrite members_space, IH; [done|done|]. change (length isep) with 2%nat in Hn. lia.
Qed.

Lemma dict_of_distinct (l : list (string * Json.t)) : NoDup (map fst l) → dict_of l = l.
Proof.
  assert (∀ d l : list (string * Json.t), NoDup (map fst (d ++ l)) → fold_left (fun d p => dict_set (fst p) (snd p) d) l d = d ++ l) as H.
  { clear l. intros d l. revert d. induction l as [|[k v] l IH]; intros d Hd; [by rewrite app_nil_r|]. cbn [fold_left fst snd].
    assert (dict_set k v d = d ++ [(k, v)]) as ->; [|rewrite IH; rewrite <- app_assoc; done].
    assert (k ∉ map fst d) as Hk.
    { rewrite map_app in Hd. apply NoDup_app in Hd as (_ & Hd & _). intros Hk. apply (Hd k Hk). left. }
    clear Hd IH. induction d as [|[k' v'] d IH]; [done|]. cbn in Hk |- *. rewrite bool_decide_false by set_solver.
    by rewrite IH by set_solver. }
  intros Hl. by apply (H [] l).
Qed.

Lemma print_fuel v n : (length (text v) ≤ n)%nat → ∃ m, n = S m.
Proof.
  intros Hn. destruct (print_head true isep ksep v) as (c & tl & E & _). rewrite E in Hn. destruct n as [|n]; [cbn in Hn; lia|by exists n].
Qed.
Lemma print_reads v : dicts_ok v = true → reads v.
Proof.
  induction v as [|b|z|s|l IH|l IH] using value_ind; intros Hok n rest Hn Hr;
    destruct (print_fuel _ n Hn) as [m ->]; rename m into n.
  - reflexivity.
  - by destruct b.
  - cbn [print normal]. pose proof (number_read z rest Hr) as H. destruct (Crypto.chars (Text.str_int z) ++ rest); [discriminate|].
    by apply value_number.
  - cbn [print normal]. unfold quoted. cbn [app value]. see quote. rewrite <- app_assoc. cbn [app]. rewrite string_read. cbn. by rewrite Crypto.of_chars_chars.
  - cbn [dicts_ok] in Hok. assert (Forall reads l) as Hl.
    { rewrite forallb_forall in Hok. rewrite Forall_forall in IH |- *.
      intros x Hx. apply IH; [done|]. apply Hok. by apply list_elem_of_In. }
    destruct l as [|v l]; [reflexivity|]. cbn [print normal] in *. rewrite <- app_comm_cons, <- app_assoc. cbn [app value].
    see "["%char. cbn [length] in Hn. rewrite length_app in Hn. cbn [length] in Hn.
    pose proof (elements_read (v :: l) n rest Hl ltac:(done) ltac:(lia)) as He. 
    destruct (print_head true isep ksep v) as (c & tl & E & Hc & Hc').
    assert (∃ tl', joined isep (map text (v :: l)) ++ "]"%char :: rest = c :: tl') as [tl' E'].
    { destruct l; cbn [map joined]; rewrite E; eexists; reflexivity. }
    rewrite E' in *. rewrite skip_ws_head by done. rewrite (bool_decide_false (c = _)) by done. rewrite He. reflexivity.
  - cbn [dicts_ok] in Hok. apply andb_true_iff in Hok as [Hk Hok]. apply bool_decide_eq_true in Hk.
    assert (Forall (fun p => reads (snd p)) (sort_kv l)) as Hl.
    { rewrite (sort_perm l). rewrite forallb_forall in Hok. rewrite Forall_forall in IH |- *.
      intros x Hx. apply IH; [done|]. apply Hok. by apply list_elem_of_In. }
    rewrite print_obj in Hn |- *. fold item_text in Hn |- *. cbn [normal]. rewrite sort_map.
    rewrite <- app_comm_cons, <- app_assoc. cbn [app value]. see "{"%char. rewrite !(bool_decide_false ("{"%char = _)) by done.
    cbn [length] in Hn. rewrite length_app in Hn. cbn [length] in Hn.
    rewrite <- (dict_of_distinct (map _ (sort_kv l))).
    2: { rewrite map_map. change (NoDup (map fst (sort_kv l))). by rewrite (sort_perm l). }
    destruct (sort_kv l) as [|p k]; [reflexivity|].
    pose proof (members_read (p :: k) n rest Hl ltac:(done) ltac:(lia)) as Hm.
    assert (∃ tl', joined isep (map item_text (p :: k)) ++ "}"%char :: rest = quote :: tl') as [tl' E'].
    { destruct k; eexists; reflexivity. }
    rewrite E' in *. see quote. rewrite (bool_decide_false (quote = _)) by done. rewrite Hm. reflexivity.
Qed.

(** ** The round trip *)

(** Reading what was written with sorted keys gives the value back, its dictionaries in
    the order of their keys. *)
Lemma loads_dumps v : dicts_ok v = true → loads (dumps true ", " ": " v) = Some (normal v).
Proof.
  intros H. unfold loads, dumps. rewrite Crypto.of_chars_length, Crypto.chars_of_chars.
  rewrite <- (app_nil_r (print _ _ _ v)) at 2. by rewrite (print_reads v H) by done.
Qed.

End JsonText.
