(* ===== verification/Sql.v ===== *)
(** * The SQL statements the engine executes

    A table is the list of its rows in rowid order.  The statements are those of the
    engine's stores: [SELECT ... WHERE], [UPDATE ... WHERE], [DELETE ... WHERE],
    [INSERT], [INSERT OR IGNORE] and [ORDER BY].  A predicate is the [WHERE] clause;
    comparisons with NULL are false, so a nullable column is compared through
    [sql_eq].  [rowcount] is the cursor's count of affected rows. *)

From S2P Require Import Prelude.

Module Sql.

(** [column = ?] on a nullable column. *)
Definition sql_eq {A} `{EqDecision A} (c : option A) (v : A) : bool := bool_decide (c = Some v).

Section Table.
Context {R : Type}.
Implicit Types (p : R → bool) (t : list R).

Definition select p t : list R := List.filter p t.
Definition fetchone p t : option R := find p t.
Definition update p (f : R → R) t : list R := map (fun r => if p r then f r else r) t.
Definition rowcount p t : nat := length (List.filter p t).
Definition delete p t : list R := List.filter (fun r => negb (p r)) t.
Definition insert (r : R) t : list R := t ++ [r].
(** [INSERT OR IGNORE]: nothing happens when a row conflicts with the new one. *)
Definition insert_or_ignore (conflict : R → bool) (r : R) t : list R * nat :=
  if existsb conflict t then (t, 0%nat) else (t ++ [r], 1%nat).

(** [ORDER BY]: a stable sort; [le x y] holds when [x] may come before [y]. *)
Fixpoint insert_sorted (le : R → R → bool) (x : R) (l : list R) : list R :=
  match l with
  | [] => [x]
  | y :: l' => if le x y then x :: l else y :: insert_sorted le x l'
  end.
Definition order_by (le : R → R → bool) t : list R := fold_right (insert_sorted le) [] t.

(** ** Facts *)

Lemma elem_of_select p t r : r ∈ select p t ↔ r ∈ t ∧ p r = true.
Proof. unfold select. rewrite !list_elem_of_In. apply filter_In. Qed.

Lemma elem_of_delete p t r : r ∈ delete p t ↔ r ∈ t ∧ p r = false.
Proof. unfold delete. rewrite !list_elem_of_In, filter_In, negb_true_iff. done. Qed.

Lemma elem_of_update p f t r :
  r ∈ update p f t ↔ ∃ x, x ∈ t ∧ r = (if p x then f x else x).
Proof.
  unfold update. rewrite list_elem_of_In, in_map_iff. split; intros (x & H1 & H2).
  - exists x. split; [by apply list_elem_of_In|done].
  - exists x. split; [done|by apply list_elem_of_In].
Qed.

Lemma fetchone_Some p t r : fetchone p t = Some r → r ∈ t ∧ p r = true.
Proof. apply find_ext_some. Qed.

Lemma fetchone_None p t r : fetchone p t = None → r ∈ t → p r = false.
Proof. intros H Hr. eapply find_none; [done|by apply list_elem_of_In]. Qed.

Lemma fetchone_insert p r t :
  fetchone p (insert r t) =
  match fetchone p t with Some x => Some x | None => if p r then Some r else None end.
Proof.
  unfold fetchone, insert. induction t as [|x t IH]; simpl; [done|].
  destruct (p x); [done|apply IH].
Qed.

(** A row found by a predicate that an update neither reads nor changes. *)
Lemma fetchone_update p q f t :
  (∀ r, r ∈ t → p (f r) = p r) →
  fetchone p (update q f t) =
  (fun r => if q r then f r else r) <$> fetchone p t.
Proof.
  unfold fetchone, update. induction t as [|x t IH]; simpl; intros Hp; [done|].
  assert (p (if q x then f x else x) = p x) as ->
    by (destruct (q x); [apply Hp; left|done]).
  destruct (p x); simpl; [done|]. apply IH. intros r Hr. apply Hp. by right.
Qed.

Lemma update_key {K} (key : R → K) p f t :
  (∀ r, p r = true → key (f r) = key r) → map key (update p f t) = map key t.
Proof.
  intros H. unfold update. rewrite map_map. apply map_ext. intros r.
  destruct (p r) eqn:E; [by apply H|done].
Qed.

Lemma update_omap {K} (key : R → option K) p f t :
  (∀ r, p r = true → key (f r) = key r) → omap key (update p f t) = omap key t.
Proof.
  intros H. unfold update. induction t as [|x t IH]; [done|].
  change (map ?g (x :: t)) with (g x :: map g t). cbn beta.
  destruct (p x) eqn:E; csimpl; [rewrite (H x E)|]; by rewrite IH.
Qed.

(** A property of all rows that an update keeps. *)
Lemma update_forall (P : R → Prop) p f t :
  (∀ r, P r → p r = true → P (f r)) → (∀ r, r ∈ t → P r) → ∀ r, r ∈ update p f t → P r.
Proof.
  intros Hf Ht r (x & Hx & ->)%elem_of_update. destruct (p x) eqn:E; auto.
Qed.
Lemma insert_forall (P : R → Prop) x t :
  P x → (∀ r, r ∈ t → P r) → ∀ r, r ∈ insert x t → P r.
Proof. intros Hx Ht r [Hr|Hr%list_elem_of_singleton]%elem_of_app; [auto|by subst]. Qed.
Lemma delete_forall (P : R → Prop) p t :
  (∀ r, r ∈ t → P r) → ∀ r, r ∈ delete p t → P r.
Proof. intros Ht r [Hr _]%elem_of_delete. auto. Qed.

Lemma existsb_false_elem p t r : existsb p t = false → r ∈ t → p r = false.
Proof.
  intros H Hr. destruct (p r) eqn:E; [|done]. rewrite <- not_true_iff_false, existsb_exists in H.
  destruct H. exists r. split; [by apply list_elem_of_In|done].
Qed.
Lemma existsb_key {K} `{EqDecision K} (key : R → K) k t :
  existsb (fun r => bool_decide (key r = k)) t = bool_decide (k ∈ map key t).
Proof.
  apply eq_true_iff_eq. rewrite existsb_exists, bool_decide_eq_true. split.
  - intros (r & Hr & E%bool_decide_eq_true). rewrite <- E. apply list_elem_of_fmap_2.
    by apply list_elem_of_In.
  - intros (r & -> & Hr)%list_elem_of_fmap. exists r. split; [by apply list_elem_of_In|].
    by apply bool_decide_eq_true.
Qed.

Lemma delete_key {K} (key : R → K) p t : NoDup (map key t) → NoDup (map key (delete p t)).
Proof.
  unfold delete. induction t as [|x t IH]; simpl; [done|]. intros [Hn Hd]%NoDup_cons.
  destruct (p x); simpl; [by apply IH|]. apply NoDup_cons. split; [|by apply IH].
  intros (y & Hy & Hin)%list_elem_of_fmap. apply Hn. rewrite Hy.
  apply list_elem_of_In, filter_In in Hin as [Hin _].
  apply list_elem_of_fmap_2. by apply list_elem_of_In.
Qed.

Lemma insert_key {K} (key : R → K) r t :
  NoDup (map key t) → key r ∉ map key t → NoDup (map key (insert r t)).
Proof.
  intros Hd Hn. unfold insert. rewrite map_app. apply NoDup_app.
  split_and!; [done|set_solver|apply NoDup_singleton].
Qed.

Lemma key_inj {K} (key : R → K) t a b : NoDup (map key t) → a ∈ t → b ∈ t → key a = key b → a = b.
Proof.
  intros Hn Ha Hb E. apply list_elem_of_lookup in Ha as [m Em], Hb as [n En]. assert (m = n) as ->; [|by simplify_eq].
  eapply (NoDup_lookup (map key t)); [done| |].
  - apply list_lookup_fmap_Some. eauto.
  - rewrite E. apply list_lookup_fmap_Some. eauto.
Qed.
(** [SELECT ... WHERE key = ?] on a UNIQUE column finds the row. *)
Lemma fetchone_key {K} `{EqDecision K} (key : R → K) t a :
  NoDup (map key t) → a ∈ t → fetchone (fun r => bool_decide (key r = key a)) t = Some a.
Proof.
  intros Hn Ha. destruct (fetchone _ t) as [b|] eqn:E.
  - apply fetchone_Some in E as [Hb Hk%bool_decide_eq_true]. f_equal. by apply (key_inj key t).
  - apply (fetchone_None _ _ a) in E; [|done]. by apply bool_decide_eq_false in E.
Qed.

Lemma rowcount_zero p t : rowcount p t = 0%nat ↔ ∀ r, r ∈ t → p r = false.
Proof.
  unfold rowcount. split.
  - intros H r Hr. destruct (p r) eqn:E; [|done].
    assert (r ∈ List.filter p t) as Hf by (rewrite list_elem_of_In, filter_In; split; [by apply list_elem_of_In|done]).
    destruct (List.filter p t); [set_solver|simpl in H; lia].
  - intros H. destruct (List.filter p t) as [|x l] eqn:E; [done|].
    assert (x ∈ List.filter p t) as Hx by (rewrite E; left).
    apply list_elem_of_In, filter_In in Hx as [Hx Hp]. rewrite H in Hp; [done|by apply list_elem_of_In].
Qed.

Lemma insert_sorted_perm le x l : insert_sorted le x l ≡ₚ x :: l.
Proof.
  induction l as [|y l IH]; simpl; [done|]. destruct (le x y); [done|].
  rewrite IH. by constructor.
Qed.
Lemma order_by_perm le t : order_by le t ≡ₚ t.
Proof.
  unfold order_by. induction t as [|x t IH]; simpl; [done|]. by rewrite insert_sorted_perm, IH.
Qed.

Lemma order_by_id le t : StronglySorted (fun a b => le a b = true) t → order_by le t = t.
Proof.
  induction 1 as [|x l Hs IH Hf]; [done|]. unfold order_by in *. simpl. rewrite IH.
  destruct l as [|y l]; [done|]. simpl. inversion Hf as [|? ? Hxy]; subst. by rewrite Hxy.
Qed.

(** Sortedness, for a total preorder. *)
Section Sorted.
Context (le : R → R → bool).
Hypothesis le_total : ∀ x y, le x y = true ∨ le y x = true.
Hypothesis le_trans : ∀ x y z, le x y = true → le y z = true → le x z = true.

Lemma insert_sorted_sorted x l :
  StronglySorted (fun a b => le a b = true) l →
  StronglySorted (fun a b => le a b = true) (insert_sorted le x l).
Proof.
  induction l as [|y l IH]; simpl; intros Hs; [by repeat constructor|].
  inversion Hs as [|? ? Hl Hf]; subst. destruct (le x y) eqn:E.
  - constructor; [done|]. constructor; [done|]. eapply Forall_impl; [exact Hf|].
    intros z Hz. by eapply le_trans.
  - constructor; [by apply IH|]. rewrite insert_sorted_perm. constructor; [|done].
    destruct (le_total x y); congruence.
Qed.
Lemma order_by_sorted t : StronglySorted (fun a b => le a b = true) (order_by le t).
Proof.
  unfold order_by. induction t as [|x t IH]; simpl; [constructor|by apply insert_sorted_sorted].
Qed.
End Sorted.

End Table.

(** Sorting commutes with a map that keeps the order. *)
Lemma insert_sorted_map {R R'} (h : R → R') (le : R → R → bool) (le' : R' → R' → bool) x l :
  (∀ a b, le' (h a) (h b) = le a b) → insert_sorted le' (h x) (map h l) = map h (insert_sorted le x l).
Proof.
  intros Hle. induction l as [|y l IH]; simpl; [done|]. rewrite Hle. destruct (le x y); simpl; [done|by rewrite IH].
Qed.
Lemma order_by_map {R R'} (h : R → R') (le : R → R → bool) (le' : R' → R' → bool) l :
  (∀ a b, le' (h a) (h b) = le a b) → order_by le' (map h l) = map h (order_by le l).
Proof.
  intros Hle. unfold order_by. induction l as [|x l IH]; simpl; [done|]. by rewrite IH, (insert_sorted_map h le le').
Qed.
(** Rows that are related pairwise, and alike to the order, are related after sorting. *)
Lemma order_by_Forall2 {R} (P : R → R → Prop) (le : R → R → bool) l l' :
  (∀ x x' y y', P x x' → P y y' → le x y = le x' y') → Forall2 P l l' → Forall2 P (order_by le l) (order_by le l').
Proof.
  intros Hle. unfold order_by. induction 1 as [|x x' l l' Hx Hl IH]; simpl; [constructor|].
  revert IH. generalize (fold_right (insert_sorted le) [] l) (fold_right (insert_sorted le) [] l'). intros m m'.
  induction 1 as [|y y' m m' Hy Hm IHm]; simpl; [by repeat constructor|]. rewrite (Hle x x' y y') by done.
  destruct (le x' y'); by repeat constructor.
Qed.
End Sql.
