(* ===== verification/Asyncio.v ===== *)
(** * [asyncio.Semaphore]

    The part of Python's asyncio the engine's admission layer relies on: the
    FIFO-fair [Semaphore] of CPython 3.12 (the interpreter of the release image).
    A coroutine suspended in [acquire] is an entry of the semaphore's deque; the
    entry also carries the local data [A] of the suspended caller. *)

From S2P Require Import Prelude.

Open Scope Z_scope.

Module Semaphore.

(** The future a waiter awaits, together with whether its task has a pending
    [CancelledError]: [Granted] has a result, [GrantedCancel] got a result and was
    then cancelled before it could resume, [Cancelled] was cancelled first. *)
Inductive fut := Pending | Granted | GrantedCancel | Cancelled.

#[global] Instance fut_eq_dec : EqDecision fut.
Proof. solve_decision. Defined.

(** [fut.done()] and [fut.cancelled()]. *)
Definition done (f : fut) : bool :=
  match f with Pending => false | _ => true end.
Definition cancelled (f : fut) : bool :=
  match f with Cancelled => true | _ => false end.
(** A permit has been handed to the future and not yet consumed or returned. *)
Definition holds (f : fut) : bool :=
  match f with Granted | GrantedCancel => true | _ => false end.

Section Sem.
Context {A : Type}.

Record waiter := Waiter { w_id : nat; w_fut : fut; w_data : A }.
Record sem := Sem { value : Z; waiters : list waiter }.

Definition set_fut (f : fut) (w : waiter) : waiter :=
  Waiter (w_id w) f (w_data w).

(** [Semaphore.locked]. *)
Definition locked (s : sem) : bool :=
  (value s =? 0) || existsb (fun w => negb (cancelled (w_fut w))) (waiters s).

(** The first waiter whose future is not done gets a result. *)
Fixpoint grant_first (ws : list waiter) : option (list waiter) :=
  match ws with
  | [] => None
  | w :: ws' =>
      if done (w_fut w) then (cons w) <$> grant_first ws'
      else Some (set_fut Granted w :: ws')
  end.

(** [Semaphore._wake_up_next]. *)
Definition wake_up_next (s : sem) : sem * bool :=
  match grant_first (waiters s) with
  | None => (s, false)
  | Some ws => (Sem (value s - 1) ws, true)
  end.

(** [while self._value > 0: if not self._wake_up_next(): break], the loop at the
    end of [acquire].  Every productive round grants one pending future, so the
    length of the deque bounds the rounds. *)
Fixpoint wake_loop (fuel : nat) (s : sem) : sem :=
  match fuel with
  | O => s
  | S n => if 0 <? value s
           then match wake_up_next s with
                | (s', true) => wake_loop n s'
                | (s', false) => s'
                end
           else s
  end.
Definition wake_while (s : sem) : sem := wake_loop (S (length (waiters s))) s.

(** [Semaphore.release]. *)
Definition release (s : sem) : sem :=
  fst (wake_up_next (Sem (value s + 1) (waiters s))).

(** [acquire] up to its first suspension: either the permit is taken at once, or
    the caller is appended to the deque. *)
Definition acquire_begin (id : nat) (d : A) (s : sem) : sem * bool :=
  if locked s
  then (Sem (value s) (waiters s ++ [Waiter id Pending d]), false)
  else (Sem (value s - 1) (waiters s), true).

Definition remove_waiter (id : nat) (ws : list waiter) : list waiter :=
  filter (fun w => w_id w ≠ id) ws.

(** [acquire] from the resumption of the awaited future to its end; [true] means
    it returned, [false] that [CancelledError] propagates.  A future that is still
    pending cannot resume. *)
Definition acquire_resume (w : waiter) (s : sem) : option (sem * bool) :=
  let ws := remove_waiter (w_id w) (waiters s) in
  match w_fut w with
  | Pending => None
  | Granted => Some (wake_while (Sem (value s) ws), true)
  | GrantedCancel => Some (wake_while (Sem (value s + 1) ws), false)
  | Cancelled => Some (wake_while (Sem (value s) ws), false)
  end.

(** [task.cancel()] on the suspended task. *)
Definition cancel_fut (f : fut) : fut :=
  match f with
  | Pending => Cancelled
  | Granted => GrantedCancel
  | f => f
  end.

(** ** Counting permits *)

Definition granted (ws : list waiter) : Z :=
  Z.of_nat (length (filter (fun w => holds (w_fut w) = true) ws)).
Definition has_pending (ws : list waiter) : Prop :=
  Exists (fun w => w_fut w = Pending) ws.
Definition has_holder (ws : list waiter) : Prop :=
  Exists (fun w => holds (w_fut w) = true) ws.
#[global] Instance has_pending_dec ws : Decision (has_pending ws).
Proof. unfold has_pending. apply _. Defined.
#[global] Instance has_holder_dec ws : Decision (has_holder ws).
Proof. unfold has_holder. apply _. Defined.

(** Permits are granted in arrival order: no waiter behind a pending one has
    been granted a permit. *)
Fixpoint fifo (ws : list waiter) : Prop :=
  match ws with
  | [] => True
  | w :: ws' =>
      (w_fut w = Pending → Forall (fun v => holds (w_fut v) = false) ws') ∧ fifo ws'
  end.

Lemma granted_nil : granted [] = 0.
Proof. reflexivity. Qed.
Lemma granted_cons w ws :
  granted (w :: ws) = (if holds (w_fut w) then 1 else 0) + granted ws.
Proof.
  unfold granted. rewrite filter_cons.
  destruct (holds (w_fut w)) eqn:E; case_decide; simpl; try congruence; lia.
Qed.
Lemma granted_app ws1 ws2 : granted (ws1 ++ ws2) = granted ws1 + granted ws2.
Proof. unfold granted. rewrite filter_app, length_app. lia. Qed.
Lemma granted_nonneg ws : 0 <= granted ws.
Proof. unfold granted. lia. Qed.
Lemma granted_holder ws : 0 < granted ws ↔ has_holder ws.
Proof.
  unfold has_holder. induction ws as [|w ws IH]; [rewrite granted_nil; split; [lia|inversion 1]|].
  rewrite granted_cons, Exists_cons, <- IH.
  pose proof (granted_nonneg ws). destruct (holds (w_fut w)); intuition (lia || congruence).
Qed.

(** ** [grant_first] and [wake_up_next] *)

Lemma grant_first_None ws : grant_first ws = None ↔ ¬ has_pending ws.
Proof.
  unfold has_pending. induction ws as [|w ws IH]; simpl; [by rewrite Exists_nil; tauto|].
  rewrite Exists_cons. destruct (w_fut w) eqn:E; simpl;
    rewrite ?fmap_None, ?IH; intuition congruence.
Qed.

Lemma grant_first_Some ws ws' :
  grant_first ws = Some ws' →
  length ws' = length ws ∧ map w_id ws' = map w_id ws ∧
  granted ws' = granted ws + 1 ∧ (fifo ws → fifo ws') ∧
  (∀ w, w ∈ ws' → ∃ v, v ∈ ws ∧ w_id v = w_id w ∧ w_data v = w_data w).
Proof.
  revert ws'. induction ws as [|w ws IH]; simpl; intros ws' H; [done|].
  destruct (done (w_fut w)) eqn:E.
  - apply fmap_Some in H as (ws1 & H & ->).
    destruct (IH _ H) as (L & M & G & F & D). rewrite !granted_cons. simpl.
    split_and!; [lia | congruence | lia | | ].
    + intros [HP HF]. split; [|by apply F]. intros HP'. rewrite HP' in E. done.
    + intros x [->|Hx]%elem_of_cons; [exists w; split; [left|done]|].
      destruct (D x Hx) as (v & ? & ?). exists v. split; [by right|done].
  - simplify_eq. rewrite !granted_cons. destruct (w_fut w) eqn:F; try done. simpl.
    split_and!; [done | done | lia | | ].
    + intros [HP HF]. split; [|done]. done.
    + intros x [->|Hx]%elem_of_cons;
        [exists w; split; [left|done] | exists x; split; [by right|done]].
Qed.

Lemma grant_first_pending_length ws ws' :
  grant_first ws = Some ws' →
  (length (filter (fun w => w_fut w = Pending) ws') <
   length (filter (fun w => w_fut w = Pending) ws))%nat.
Proof.
  revert ws'. induction ws as [|w ws IH]; simpl; intros ws' H; [done|].
  destruct (done (w_fut w)) eqn:E.
  - apply fmap_Some in H as (ws1 & H & ->). specialize (IH _ H).
    rewrite !filter_cons. case_decide; simpl; lia.
  - simplify_eq. destruct (w_fut w) eqn:F; try done.
    rewrite !filter_cons. simpl. repeat case_decide; simpl; congruence || lia.
Qed.

(** ** What waking preserves *)

(** [wakes s s']: [s'] is [s] after handing permits to some waiters. *)
Definition wakes (s s' : sem) : Prop :=
  value s' + granted (waiters s') = value s + granted (waiters s) ∧
  length (waiters s') = length (waiters s) ∧
  map w_id (waiters s') = map w_id (waiters s) ∧
  (fifo (waiters s) → fifo (waiters s')) ∧
  (0 <= value s → 0 <= value s').

#[global] Instance wakes_refl : Reflexive wakes.
Proof. intros s. unfold wakes. naive_solver. Qed.
#[global] Instance wakes_trans : Transitive wakes.
Proof. intros s1 s2 s3. unfold wakes. intros. destruct_and!. split_and!; try lia; try congruence; auto. Qed.

Lemma wake_up_next_wakes s s' b :
  (b = true → 0 < value s) → wake_up_next s = (s', b) → wakes s s'.
Proof.
  unfold wake_up_next. intros Hv. destruct (grant_first _) as [ws|] eqn:E; intros; simplify_eq; [|done].
  destruct (grant_first_Some _ _ E) as (L & M & G & F & _).
  unfold wakes; simpl. specialize (Hv eq_refl). split_and!; try lia; auto.
Qed.

Lemma wake_loop_wakes n s : wakes s (wake_loop n s).
Proof.
  revert s. induction n as [|n IH]; intros s; simpl; [done|].
  destruct (0 <? value s) eqn:Hv; [|done].
  destruct (wake_up_next s) as [s' b] eqn:E.
  assert (wakes s s') by (eapply wake_up_next_wakes; [|done]; lia).
  destruct b; [|done]. etransitivity; [done | apply IH].
Qed.

(** The loop's exit condition: it stops only when no permit is left or nobody
    waits for one; the fuel is never what stops it. *)
Lemma wake_loop_exit n s :
  (length (filter (fun w => w_fut w = Pending) (waiters s)) < n)%nat →
  value (wake_loop n s) <= 0 ∨ ¬ has_pending (waiters (wake_loop n s)).
Proof.
  revert s. induction n as [|n IH]; intros s Hn; [lia|]. simpl.
  destruct (0 <? value s) eqn:Hv; [|left; lia].
  unfold wake_up_next. destruct (grant_first (waiters s)) as [ws|] eqn:E.
  - apply IH. simpl. apply grant_first_pending_length in E. lia.
  - right. by apply grant_first_None.
Qed.

Lemma wake_while_wakes s : wakes s (wake_while s).
Proof. apply wake_loop_wakes. Qed.

Lemma wake_while_exit s :
  value (wake_while s) <= 0 ∨ ¬ has_pending (waiters (wake_while s)).
Proof.
  apply wake_loop_exit.
  pose proof (length_filter (fun w => w_fut w = Pending) (waiters s)). lia.
Qed.

Lemma release_wakes s :
  0 <= value s →
  wakes (Sem (value s + 1) (waiters s)) (release s).
Proof.
  intros Hv. unfold release.
  destruct (wake_up_next (Sem (value s + 1) (waiters s))) as [s' b] eqn:E.
  eapply wake_up_next_wakes; [|exact E]. simpl. lia.
Qed.

(** A property of the waiters that granting keeps is kept by every wake-up. *)
Section KeepWaiters.
Context (P : waiter → Prop) (granting : ∀ w, P w → P (set_fut Granted w)).

Lemma wake_up_next_Forall s : Forall P (waiters s) → Forall P (waiters (fst (wake_up_next s))).
Proof using granting.
  intros H. unfold wake_up_next. destruct (grant_first (waiters s)) as [ws|] eqn:E; [|done]. simpl.
  revert ws E. induction H as [|w l Hw Hl IH]; simpl; [done|]. intros ws.
  destruct (done (w_fut w)); [|intros [= <-]; constructor; auto].
  intros (ws' & E & ->)%fmap_Some. constructor; auto.
Qed.
Lemma wake_loop_Forall n s : Forall P (waiters s) → Forall P (waiters (wake_loop n s)).
Proof using granting.
  revert s. induction n as [|n IH]; intros s H; simpl; [done|]. destruct (0 <? value s); [|done].
  pose proof (wake_up_next_Forall s H) as H'. destruct (wake_up_next s) as [s' []]; auto.
Qed.
Lemma acquire_resume_Forall w s s' got :
  acquire_resume w s = Some (s', got) → Forall P (waiters s) → Forall P (waiters s').
Proof using granting.
  intros E H. assert (Forall P (remove_waiter (w_id w) (waiters s))) as Hr.
  { rewrite Forall_forall in *. intros u [_ Hu]%list_elem_of_filter. auto. }
  unfold acquire_resume in E. destruct (w_fut w); simplify_eq; by apply wake_loop_Forall.
Qed.
End KeepWaiters.

(** ** Removal and cancellation *)

Lemma remove_waiter_fifo id ws : fifo ws → fifo (remove_waiter id ws).
Proof.
  induction ws as [|w ws IH]; simpl; [done|]. intros [HP HF].
  unfold remove_waiter. rewrite filter_cons. case_decide; [|by apply IH].
  simpl. split; [|by apply IH]. intros HP'. specialize (HP HP').
  rewrite Forall_forall in *. intros x Hx%list_elem_of_filter. naive_solver.
Qed.

Lemma remove_waiter_fresh id ws : id ∉ map w_id ws → remove_waiter id ws = ws.
Proof.
  induction ws as [|v ws IH]; simpl; [done|]. intros [Hn Hd]%not_elem_of_cons.
  unfold remove_waiter. rewrite filter_cons, decide_True by done. f_equal. by apply IH.
Qed.

Lemma granted_remove ws w :
  NoDup (map w_id ws) → w ∈ ws →
  granted (remove_waiter (w_id w) ws) = granted ws - (if holds (w_fut w) then 1 else 0)
  ∧ S (length (remove_waiter (w_id w) ws)) = length ws.
Proof.
  induction ws as [|v ws IH]; [set_solver|]. simpl. intros [Hn Hd]%NoDup_cons Hw.
  unfold remove_waiter. rewrite filter_cons.
  apply elem_of_cons in Hw as [->|Hw].
  - rewrite decide_False by naive_solver. fold (remove_waiter (w_id v) ws).
    rewrite remove_waiter_fresh, granted_cons by done. split; [lia|done].
  - rewrite decide_True; [|intros Heq; apply Hn; rewrite Heq; by apply list_elem_of_fmap_2].
    fold (remove_waiter (w_id w) ws). rewrite !granted_cons.
    destruct (IH Hd Hw) as [G L]. simpl. split; lia.
Qed.

Lemma remove_waiter_ids id ws :
  NoDup (map w_id ws) → NoDup (map w_id (remove_waiter id ws)) ∧
  map w_id (remove_waiter id ws) ⊆ map w_id ws.
Proof.
  induction ws as [|v ws IH]; simpl; [done|]. intros [Hn Hd]%NoDup_cons.
  destruct (IH Hd) as [IH1 IH2]. unfold remove_waiter. rewrite filter_cons.
  fold (remove_waiter id ws). case_decide; [|split; [done|set_solver]]. simpl. split.
  - apply NoDup_cons. split; [|done]. set_solver.
  - set_solver.
Qed.

(** [task.cancel()] on waiter [id], rewriting its local data with [g]. *)
Definition cancel_waiter (id : nat) (g : A → A) (ws : list waiter) : list waiter :=
  map (fun w => if decide (w_id w = id)
                then Waiter (w_id w) (cancel_fut (w_fut w)) (g (w_data w)) else w) ws.

Lemma cancel_waiter_spec id g ws :
  length (cancel_waiter id g ws) = length ws ∧
  map w_id (cancel_waiter id g ws) = map w_id ws ∧
  granted (cancel_waiter id g ws) = granted ws ∧
  (fifo ws → fifo (cancel_waiter id g ws)) ∧
  (has_pending (cancel_waiter id g ws) → has_pending ws).
Proof.
  unfold cancel_waiter, has_pending.
  induction ws as [|v ws (L & M & G & F & P)]; simpl; [done|].
  rewrite !granted_cons. split_and!.
  - by rewrite L.
  - rewrite M. by case_decide.
  - rewrite G. case_decide; [|done]. by destruct (w_fut v).
  - intros [HP HF]. split; [|by apply F]. intros HP'.
    assert (w_fut v = Pending) as Hv
      by (case_decide; [destruct (w_fut v) eqn:Ev; done|done]).
    specialize (HP Hv). clear -HP. induction HP as [|u us Hu _ IH]; simpl; constructor; [|done].
    case_decide; [|done]. by destruct (w_fut u).
  - rewrite !Exists_cons. intros [H|H]; [|auto]. left.
    case_decide; [|done]. by destruct (w_fut v).
Qed.

(** ** The semaphore's invariant

    [sem_ok total s]: [total] permits are either free or handed to a waiter that
    has not resumed yet; they are handed out in arrival order; and no permit lies
    idle while somebody waits, unless a granted waiter is about to resume (and will
    run the wake-up loop). *)
Record sem_ok (total : Z) (s : sem) : Prop := SemOk {
  ok_value : 0 <= value s;
  ok_total : value s + granted (waiters s) = total;
  ok_ids : NoDup (map w_id (waiters s));
  ok_fifo : fifo (waiters s);
  ok_wakeup : 0 < value s → has_pending (waiters s) → has_holder (waiters s)
}.

Lemma wakes_ok total s s' :
  0 <= value s → value s + granted (waiters s) = total →
  NoDup (map w_id (waiters s)) → fifo (waiters s) → wakes s s' →
  (0 < value s' → has_pending (waiters s') → has_holder (waiters s')) →
  sem_ok total s'.
Proof.
  intros Hv Ht Hn Hf (W1 & W2 & W3 & W4 & W5) Hw.
  constructor; [lia | lia | by rewrite W3 | auto | done].
Qed.

Lemma wake_while_ok total s :
  0 <= value s → value s + granted (waiters s) = total →
  NoDup (map w_id (waiters s)) → fifo (waiters s) → sem_ok total (wake_while s).
Proof.
  intros. eapply wakes_ok; eauto using wake_while_wakes.
  destruct (wake_while_exit s); intros; [lia|done].
Qed.

Lemma release_ok total s : sem_ok total s → sem_ok (total + 1) (release s).
Proof.
  intros [Hv Ht Hn Hf Hw].
  apply (wakes_ok _ (Sem (value s + 1) (waiters s))); simpl; auto using release_wakes; [lia|lia|].
  unfold release, wake_up_next. destruct (grant_first _) as [ws|] eqn:E; simpl.
  - intros _ _. apply granted_holder. apply grant_first_Some in E as (_ & _ & G & _).
    simpl in G. pose proof (granted_nonneg (waiters s)). lia.
  - intros _ Hp. by apply grant_first_None in E.
Qed.

Lemma release_length s :
  length (waiters (release s)) = length (waiters s) ∧
  map w_id (waiters (release s)) = map w_id (waiters s).
Proof.
  unfold release, wake_up_next. destruct (grant_first _) as [ws|] eqn:E; simpl; [|done].
  apply grant_first_Some in E. naive_solver.
Qed.

Lemma fifo_snoc ws w : holds (w_fut w) = false → fifo ws → fifo (ws ++ [w]).
Proof.
  intros Hw. induction ws as [|v ws IH]; simpl; [done|]. intros [HP HF].
  split; [|by apply IH]. intros HP'. apply Forall_app. split; [by apply HP|by constructor].
Qed.

Lemma locked_spec s :
  locked s = true → value s = 0 ∨ has_pending (waiters s) ∨ has_holder (waiters s).
Proof.
  unfold locked. intros [H|H]%orb_true_iff; [left; lia|right].
  apply existsb_exists in H as (w & Hw%list_elem_of_In & Hc).
  unfold has_pending, has_holder. rewrite !Exists_exists.
  destruct (w_fut w) eqn:E; [left|right|right|done]; exists w; rewrite E; done.
Qed.

Lemma unlocked_spec s :
  locked s = false → value s ≠ 0 ∧ ¬ has_pending (waiters s).
Proof.
  unfold locked. intros [H1 H2]%orb_false_iff. split; [lia|].
  unfold has_pending. rewrite Exists_exists. intros (w & Hw & E).
  assert (existsb (fun w => negb (cancelled (w_fut w))) (waiters s) = true); [|congruence].
  apply existsb_exists. exists w. split; [by apply list_elem_of_In|]. by rewrite E.
Qed.

Lemma acquire_begin_ok total id d s s' got :
  sem_ok total s → id ∉ map w_id (waiters s) → acquire_begin id d s = (s', got) →
  got = negb (locked s) ∧
  sem_ok (if got then total - 1 else total) s' ∧
  (waiters s' = if got then waiters s else waiters s ++ [Waiter id Pending d]).
Proof.
  intros [Hv Ht Hn Hf Hw] Hid. unfold acquire_begin.
  destruct (locked s) eqn:L; intros; simplify_eq; simpl; split_and!; try done.
  - constructor; simpl; rewrite ?granted_app, ?map_app, ?granted_cons, ?granted_nil; simpl; try lia.
    + apply NoDup_app. split_and!; [done|set_solver|apply NoDup_singleton].
    + by apply fifo_snoc.
    + intros Hpos _. unfold has_holder in *. apply Exists_app. left.
      destruct (locked_spec _ L) as [?|[?|?]]; [lia|auto|done].
  - apply unlocked_spec in L as [L1 L2]. constructor; simpl; auto with lia; lia.
Qed.

Lemma acquire_resume_ok total w s s' got :
  sem_ok total s → w ∈ waiters s → acquire_resume w s = Some (s', got) →
  sem_ok (if got then total - 1 else total) s' ∧
  S (length (waiters s')) = length (waiters s) ∧
  map w_id (waiters s') ⊆ map w_id (waiters s).
Proof.
  intros [Hv Ht Hn Hf Hw] Hin. unfold acquire_resume.
  destruct (granted_remove _ _ Hn Hin) as [G L].
  destruct (remove_waiter_ids (w_id w) _ Hn) as [N1 N2].
  pose proof (remove_waiter_fifo (w_id w) _ Hf).
  assert (∀ v, length (waiters (wake_while (Sem v (remove_waiter (w_id w) (waiters s)))))
               = length (remove_waiter (w_id w) (waiters s)) ∧
               map w_id (waiters (wake_while (Sem v (remove_waiter (w_id w) (waiters s)))))
               = map w_id (remove_waiter (w_id w) (waiters s))) as HL.
  { intros v. destruct (wake_while_wakes (Sem v (remove_waiter (w_id w) (waiters s))))
      as (_ & ? & ? & _). done. }
  destruct (w_fut w) eqn:E; intros; simplify_eq; simpl in *;
    match goal with |- context [wake_while (Sem ?v _)] => destruct (HL v) as [-> ->] end;
    (split_and!; [|done|done]); apply wake_while_ok; simpl; auto; lia.
Qed.

Lemma cancel_waiter_ok total id g s :
  sem_ok total s → sem_ok total (Sem (value s) (cancel_waiter id g (waiters s))).
Proof.
  intros [Hv Ht Hn Hf Hw].
  destruct (cancel_waiter_spec id g (waiters s)) as (L & M & G & F & P).
  constructor; simpl; [done | by rewrite G | by rewrite M | by apply F | ].
  intros Hpos Hp. apply granted_holder. rewrite G. apply granted_holder. auto.
Qed.

(** A semaphore with every permit back has no waiter left behind. *)
Lemma sem_ok_progress total s :
  sem_ok total s → 0 < total → has_pending (waiters s) →
  value s = total → False.
Proof.
  intros [Hv Ht Hn Hf Hw] Hpos Hp Hval.
  assert (has_holder (waiters s)) as H by (apply Hw; [lia|done]).
  apply granted_holder in H. lia.
Qed.

End Sem.
Arguments waiter : clear implicits.
Arguments sem : clear implicits.

End Semaphore.
