(* ===== verification/Admission.v ===== *)
(** * Admission control ([engine/inference/scheduler.py])

    [Module Scheduler] translates the class [Scheduler] and its lease; the record
    [t] has one field per attribute.  Each method is the synchronous code between
    two suspension points of the event loop: [admit] is split at its only [await]
    into [admit_begin] (call up to the suspension in [sem.acquire]) and
    [admit_resume] (from the resumption to the return).  [Module System] runs the
    methods in every interleaving the event loop allows and proves the admission
    guarantees as invariants of the reachable states. *)

From S2P Require Import Prelude Asyncio.

Open Scope Z_scope.

Module Scheduler.

(** Why a cancelled waiter was cancelled: by the [wait_for] timer or by somebody
    cancelling the request's task (a client disconnect).  An outer cancellation
    dominates: [asyncio.timeout] then lets [CancelledError] through. *)
Inductive cause := NoCancel | Timer | Outer.

(** Locals of a suspended [admit]: [wait_start] and the cancellation cause. *)
Record frame := Frame { wait_start : Q; why : cause }.

Record t := Mk {
  max_concurrency : Z;
  max_queue_depth : Z;
  queue_timeout_s : Q;
  sem : Semaphore.sem frame;
  draining : bool;
  idle : bool;            (* asyncio.Event: is it set *)
  in_use : Z;
  waiters : Z;
  admitted : Z;
  rejected_queue_full : Z;
  rejected_timeout : Z;
  cancelled : Z;
  slow_consumer : Z;
  peak_in_use : Z;
  peak_waiters : Z;
  wait_total : Q;
  wait_count : Z;
  wait_max : Q;
  wait_last : Q
}.

(** [Scheduler.__init__]; [None] is the [ValueError]. *)
Definition init (max_concurrency max_queue_depth : Z) (queue_timeout_s : Q) : option t :=
  if max_concurrency <? 1 then None
  else if max_queue_depth <? 0 then None
  else if bool_decide (queue_timeout_s < 0)%Q then None
  else Some (Mk max_concurrency max_queue_depth queue_timeout_s
                (Semaphore.Sem max_concurrency []) false true
                0 0 0 0 0 0 0 0 0 0%Q 0 0%Q 0%Q).

(** [SchedulerSaturated.reason] *)
Inductive reason := Draining | QueueFull | QueueTimeout.

Record saturated := Saturated { s_reason : reason; retry_after_s : Z }.

(** Field updates. *)
Definition with_sem (x : Semaphore.sem frame) (s : t) : t :=
  Mk (max_concurrency s) (max_queue_depth s) (queue_timeout_s s) x (draining s) (idle s)
     (in_use s) (waiters s) (admitted s) (rejected_queue_full s) (rejected_timeout s)
     (cancelled s) (slow_consumer s) (peak_in_use s) (peak_waiters s)
     (wait_total s) (wait_count s) (wait_max s) (wait_last s).
Definition with_gauges (idle' : bool) (in_use' waiters' : Z) (s : t) : t :=
  Mk (max_concurrency s) (max_queue_depth s) (queue_timeout_s s) (sem s) (draining s) idle'
     in_use' waiters' (admitted s) (rejected_queue_full s) (rejected_timeout s)
     (cancelled s) (slow_consumer s) (peak_in_use s) (peak_waiters s)
     (wait_total s) (wait_count s) (wait_max s) (wait_last s).
Definition with_peaks (in_use' waiters' : Z) (s : t) : t :=
  Mk (max_concurrency s) (max_queue_depth s) (queue_timeout_s s) (sem s) (draining s) (idle s)
     (in_use s) (waiters s) (admitted s) (rejected_queue_full s) (rejected_timeout s)
     (cancelled s) (slow_consumer s) in_use' waiters'
     (wait_total s) (wait_count s) (wait_max s) (wait_last s).
Definition with_counts (adm full timeout canc slow : Z) (s : t) : t :=
  Mk (max_concurrency s) (max_queue_depth s) (queue_timeout_s s) (sem s) (draining s) (idle s)
     (in_use s) (waiters s) adm full timeout canc slow (peak_in_use s) (peak_waiters s)
     (wait_total s) (wait_count s) (wait_max s) (wait_last s).
Definition with_waits (total : Q) (count : Z) (mx last : Q) (s : t) : t :=
  Mk (max_concurrency s) (max_queue_depth s) (queue_timeout_s s) (sem s) (draining s) (idle s)
     (in_use s) (waiters s) (admitted s) (rejected_queue_full s) (rejected_timeout s)
     (cancelled s) (slow_consumer s) (peak_in_use s) (peak_waiters s) total count mx last.
Definition with_draining (b : bool) (s : t) : t :=
  Mk (max_concurrency s) (max_queue_depth s) (queue_timeout_s s) (sem s) b (idle s)
     (in_use s) (waiters s) (admitted s) (rejected_queue_full s) (rejected_timeout s)
     (cancelled s) (slow_consumer s) (peak_in_use s) (peak_waiters s)
     (wait_total s) (wait_count s) (wait_max s) (wait_last s).

Definition count_full (s : t) : t :=
  with_counts (admitted s) (rejected_queue_full s + 1) (rejected_timeout s)
              (cancelled s) (slow_consumer s) s.
Definition count_timeout (s : t) : t :=
  with_counts (admitted s) (rejected_queue_full s) (rejected_timeout s + 1)
              (cancelled s) (slow_consumer s) s.

(** [Scheduler._retry_after_hint]. *)
Definition retry_after_hint (s : t) : Z :=
  if 0 <? wait_count s
  then Z.max 1 (ceil (wait_total s / inject_Z (wait_count s))%Q)
  else 1.

(** The tail of [admit], after the permit was obtained. *)
Definition admit_granted (waited : Q) (s : t) : t :=
  let s := with_gauges false (in_use s + 1) (waiters s) s in
  let s := with_peaks (Z.max (peak_in_use s) (in_use s)) (peak_waiters s) s in
  let s := with_counts (admitted s + 1) (rejected_queue_full s) (rejected_timeout s)
                       (cancelled s) (slow_consumer s) s in
  with_waits (wait_total s + waited)%Q (wait_count s + 1) (qmax (wait_max s) waited) waited s.

(** What a run of [admit] up to a suspension or its end produced. *)
Inductive outcome :=
| Leased (waited : Q)
| Suspended
| Raised (e : saturated)
| RaisedCancelled.

(** [admit] from the call to its suspension (or its end when it does not wait):
    [id] names the call, [now] is the clock. *)
Definition admit_begin (id : nat) (now : Q) (s : t) : t * outcome :=
  if draining s then
    let s := count_full s in (s, Raised (Saturated Draining (retry_after_hint s)))
  else
    let must_queue := Semaphore.locked (sem s) in
    if must_queue && (max_queue_depth s <=? waiters s) then
      let s := count_full s in (s, Raised (Saturated QueueFull (retry_after_hint s)))
    else if must_queue then
      let s := with_gauges (idle s) (in_use s) (waiters s + 1) s in
      let s := with_peaks (peak_in_use s) (Z.max (peak_waiters s) (waiters s)) s in
      let '(sem', got) := Semaphore.acquire_begin id (Frame now NoCancel) (sem s) in
      let s := with_sem sem' s in
      if got then (* the permit was free after all: unreachable, [locked] held *)
        (admit_granted 0 (with_gauges (idle s) (in_use s) (waiters s - 1) s), Leased 0)
      else (s, Suspended)
    else
      let '(sem', _) := Semaphore.acquire_begin id (Frame 0 NoCancel) (sem s) in
      (admit_granted 0 (with_sem sem' s), Leased 0).

(** [admit] from the resumption of waiter [w] to its end. *)
Definition admit_resume (w : Semaphore.waiter frame) (now : Q) (s : t) : option (t * outcome) :=
  '(sem', got) ← Semaphore.acquire_resume w (sem s);
  let s := with_sem sem' s in
  (* the [finally] clause *)
  let s' := with_gauges (idle s) (in_use s) (waiters s - 1) s in
  if (got : bool) then
    let waited := qmax 0 (now - wait_start (Semaphore.w_data w)) in
    Some (admit_granted waited s', Leased waited)
  else
    match why (Semaphore.w_data w) with
    | Timer =>
        (* [except TimeoutError] runs before [finally] *)
        let s := count_timeout s in
        Some (with_gauges (idle s) (in_use s) (waiters s - 1) s,
              Raised (Saturated QueueTimeout (retry_after_hint s)))
    | _ => Some (s', RaisedCancelled)
    end.

(** A timer or an outer cancellation reaches the suspended [admit]. *)
Definition note_cause (c : cause) (f : frame) : frame :=
  Frame (wait_start f)
        (match why f, c with
         | NoCancel, c => c
         | Outer, _ => Outer
         | Timer, Outer => Outer
         | w, _ => w
         end).
Definition cancel_waiter (id : nat) (c : cause) (s : t) : t :=
  with_sem (Semaphore.Sem (Semaphore.value (sem s))
              (Semaphore.cancel_waiter id (note_cause c) (Semaphore.waiters (sem s)))) s.

(** [Scheduler._release]. *)
Definition release (canc : bool) (s : t) : t :=
  let s := if 0 <? in_use s then with_gauges (idle s) (in_use s - 1) (waiters s) s else s in
  let s := if canc then with_counts (admitted s) (rejected_queue_full s) (rejected_timeout s)
                                    (cancelled s + 1) (slow_consumer s) s else s in
  let s := if in_use s =? 0 then with_gauges true (in_use s) (waiters s) s else s in
  with_sem (Semaphore.release (sem s)) s.

(** [SchedulerLease]; the scheduler it points to is the state it is used with. *)
Record lease := Lease { waited_s : Q; released : bool }.

(** [SchedulerLease.release]. *)
Definition lease_release (canc : bool) (l : lease) (s : t) : lease * t :=
  if released l then (l, s)
  else (Lease (waited_s l) true, release canc s).

(** [Scheduler.begin_drain]. *)
Definition begin_drain (s : t) : t := with_draining true s.

(** [Scheduler.note_slow_consumer]. *)
Definition note_slow_consumer (n : Z) (s : t) : t :=
  if 0 <? n then with_counts (admitted s) (rejected_queue_full s) (rejected_timeout s)
                             (cancelled s) (slow_consumer s + 1) s
  else s.

(** The counters of [Scheduler.snapshot] that are derived from others. *)
Definition available (s : t) : Z := max_concurrency s - in_use s.
Definition rejected_total (s : t) : Z := rejected_queue_full s + rejected_timeout s.

End Scheduler.

Module System.
Import Scheduler.

(** A pending call of [wait_drained], suspended in [_idle.wait()]. *)
Inductive drain_call := NotCalled | DrainWaiting | DrainWoken | DrainReturned (drained : bool).

(** The event loop: the scheduler, the leases handed out so far, the number of
    [admit] calls made, how many of them ended by an outer cancellation while
    queued, and the shutdown's call of [wait_drained]. *)
Record sys := Sys {
  sched : t;
  leases : list lease;
  calls : nat;
  aborted : Z;
  drain : drain_call
}.

Inductive label :=
| Admit (now : Q)
| Resume (id : nat) (now : Q)
| TimerFires (id : nat)
| OuterCancel (id : nat)
| Release (i : nat) (canc : bool)
| BeginDrain
| WaitDrained
| DrainResume
| DrainTimeout
| SlowConsumer (n : Z).

Definition find_waiter (id : nat) (s : t) : option (Semaphore.waiter frame) :=
  find (fun w => bool_decide (Semaphore.w_id w = id)) (Semaphore.waiters (sem s)).

(** The effect of an [admit] outcome on the bookkeeping around the scheduler. *)
Definition settle (o : outcome) (ls : list lease) (ab : Z) : list lease * Z :=
  match o with
  | Leased q => (ls ++ [Lease q false], ab)
  | RaisedCancelled => (ls, ab + 1)
  | _ => (ls, ab)
  end.

(** [Event.set] wakes a coroutine waiting on [_idle]. *)
Definition wake_drain (s : t) (d : drain_call) : drain_call :=
  match d with
  | DrainWaiting => if idle s then DrainWoken else DrainWaiting
  | d => d
  end.

(** [Scheduler.wait_drained] up to its suspension. *)
Definition wait_drained (s : t) : drain_call :=
  if in_use s =? 0 then DrainReturned true
  else if idle s then DrainReturned true
  else DrainWaiting.

Definition exec (l : label) (x : sys) : option sys :=
  let s := sched x in
  match l with
  | Admit now =>
      let '(s', o) := admit_begin (calls x) now s in
      let '(ls, ab) := settle o (leases x) (aborted x) in
      Some (Sys s' ls (S (calls x)) ab (drain x))
  | Resume id now =>
      w ← find_waiter id s;
      '(s', o) ← admit_resume w now s;
      let '(ls, ab) := settle o (leases x) (aborted x) in
      Some (Sys s' ls (calls x) ab (drain x))
  | TimerFires id =>
      if bool_decide (0 < queue_timeout_s s)%Q
      then Some (Sys (cancel_waiter id Timer s) (leases x) (calls x) (aborted x) (drain x))
      else None
  | OuterCancel id =>
      Some (Sys (cancel_waiter id Outer s) (leases x) (calls x) (aborted x) (drain x))
  | Release i canc =>
      l ← leases x !! i;
      let '(l', s') := lease_release canc l s in
      Some (Sys s' (<[i := l']> (leases x)) (calls x) (aborted x) (wake_drain s' (drain x)))
  | BeginDrain => Some (Sys (begin_drain s) (leases x) (calls x) (aborted x) (drain x))
  | WaitDrained =>
      match drain x with
      | NotCalled => Some (Sys s (leases x) (calls x) (aborted x) (wait_drained s))
      | _ => None
      end
  | DrainResume =>
      match drain x with
      | DrainWoken => Some (Sys s (leases x) (calls x) (aborted x) (DrainReturned true))
      | _ => None
      end
  | DrainTimeout =>
      match drain x with
      | DrainWaiting | DrainWoken =>
          Some (Sys s (leases x) (calls x) (aborted x) (DrainReturned false))
      | _ => None
      end
  | SlowConsumer n =>
      Some (Sys (note_slow_consumer n s) (leases x) (calls x) (aborted x) (drain x))
  end.

Fixpoint run (ls : list label) (x : sys) : option sys :=
  match ls with
  | [] => Some x
  | l :: ls' => exec l x ≫= run ls'
  end.

Definition start (s : t) : sys := Sys s [] 0 0 NotCalled.

Inductive reachable (mc md : Z) (qt : Q) : sys → Prop :=
| reach_init s : init mc md qt = Some s → reachable mc md qt (start s)
| reach_step l x x' : reachable mc md qt x → exec l x = Some x' → reachable mc md qt x'.

Lemma run_reachable mc md qt ls x x' :
  reachable mc md qt x → run ls x = Some x' → reachable mc md qt x'.
Proof.
  revert x. induction ls as [|l ls IH]; simpl; intros x Hx H; [by simplify_eq|].
  apply bind_Some in H as (y & Hy & H). eapply IH; [|done]. by eapply reach_step.
Qed.

(** Unreleased leases. *)
Definition live (ls : list lease) : Z :=
  Z.of_nat (length (filter (fun l => released l = false) ls)).

Lemma live_app ls1 ls2 : live (ls1 ++ ls2) = live ls1 + live ls2.
Proof. unfold live. rewrite filter_app, length_app. lia. Qed.

Lemma live_snoc ls q : live (ls ++ [Lease q false]) = live ls + 1.
Proof. by rewrite live_app. Qed.

Lemma live_release ls i l b :
  ls !! i = Some l → released l = false → released b = true →
  live (<[i := b]> ls) = live ls - 1.
Proof.
  intros Hl Hr Hb. pose proof (lookup_lt_Some _ _ _ Hl) as Hlt.
  rewrite (insert_take_drop _ _ _ Hlt). rewrite <- (take_drop_middle _ _ _ Hl) at 3.
  unfold live. rewrite !filter_app, !length_app, !filter_cons.
  rewrite decide_False by congruence. rewrite decide_True by done. simpl. lia.
Qed.

Lemma live_nonneg ls : 0 <= live ls.
Proof. unfold live. lia. Qed.

Record inv (mc md : Z) (qt : Q) (x : sys) : Prop := Inv {
  i_limits : max_concurrency (sched x) = mc ∧ max_queue_depth (sched x) = md ∧
             queue_timeout_s (sched x) = qt ∧ 1 <= mc ∧ 0 <= md;
  i_sem : Semaphore.sem_ok (mc - in_use (sched x)) (sem (sched x));
  i_ids : ∀ id, id ∈ map Semaphore.w_id (Semaphore.waiters (sem (sched x))) →
                (id < calls x)%nat;
  i_leases : in_use (sched x) = live (leases x);
  i_queue : waiters (sched x) = Z.of_nat (length (Semaphore.waiters (sem (sched x)))) ∧
            waiters (sched x) <= md;
  i_idle : idle (sched x) = (in_use (sched x) =? 0);
  i_peaks : in_use (sched x) <= peak_in_use (sched x) <= mc ∧
            waiters (sched x) <= peak_waiters (sched x) <= md;
  i_counts : admitted (sched x) = Z.of_nat (length (leases x)) ∧
             wait_count (sched x) = admitted (sched x) ∧
             Z.of_nat (calls x) = admitted (sched x) + rejected_total (sched x) +
                                  waiters (sched x) + aborted x
}.

(** Closes the fields of [inv] that only arithmetic connects. *)
Ltac inv_arith :=
  constructor; simpl in *; unfold rejected_total in *; simpl in *;
  destruct_and?; split_and?; auto; lia.

Lemma inv_init mc md qt s : init mc md qt = Some s → inv mc md qt (start s).
Proof.
  unfold init. intros H. repeat case_match; simplify_eq.
  constructor; simpl; unfold rejected_total; simpl; split_and?; try done; try lia.
  - constructor; simpl; rewrite ?Semaphore.granted_nil; try lia; [constructor|].
    intros _ Hp. inversion Hp.
  - intros id Hid. set_solver.
Qed.

Lemma inv_admit mc md qt now x x' :
  inv mc md qt x → exec (Admit now) x = Some x' → inv mc md qt x'.
Proof.
  intros [Hl Hs Hid Hls Hq Hi Hp Hc]. destruct x as [s ls c ab d]; simpl in *.
  assert (∀ id, id ∈ map Semaphore.w_id (Semaphore.waiters (sem s)) → (id < S c)%nat) as HidS
    by (intros id ?%Hid; lia).
  unfold admit_begin. destruct (draining s); [intros; simpl in *; simplify_eq; inv_arith|].
  assert (c ∉ map Semaphore.w_id (Semaphore.waiters (sem s))) as Hfresh
    by (intros H%Hid; lia).
  destruct (Semaphore.locked (sem s)) eqn:L; simpl.
  - destruct (max_queue_depth s <=? waiters s) eqn:D; [intros; simpl in *; simplify_eq; inv_arith|].
    destruct (Semaphore.acquire_begin _ _ _) as [sem' got] eqn:E.
    destruct (Semaphore.acquire_begin_ok _ _ _ _ _ _ Hs Hfresh E) as (-> & Hok & Hw).
    rewrite L in *. intros. simpl in *. simplify_eq.
    constructor; simpl in *; unfold rejected_total in *; simpl;
      rewrite ?Hw, ?length_app; simpl; destruct_and?; split_and?; auto; try lia.
    rewrite map_app. simpl. intros id [?%Hid|?%list_elem_of_singleton]%elem_of_app; lia.
  - destruct (Semaphore.acquire_begin _ _ _) as [sem' got] eqn:E.
    destruct (Semaphore.acquire_begin_ok _ _ _ _ _ _ Hs Hfresh E) as (-> & Hok & Hw).
    rewrite L in *. intros. simpl in *. simplify_eq.
    pose proof (Semaphore.ok_value _ _ Hok). pose proof (Semaphore.ok_total _ _ Hok).
    pose proof (Semaphore.granted_nonneg (Semaphore.waiters sem')).
    pose proof (live_nonneg ls).
    constructor; simpl in *; unfold rejected_total in *; simpl;
      rewrite ?Hw, ?live_snoc, ?length_app; simpl; destruct_and?; split_and?; auto; try lia.
    by replace (mc - (in_use s + 1)) with (mc - in_use s - 1) by lia.
Qed.

Lemma find_waiter_elem id s w :
  find_waiter id s = Some w → w ∈ Semaphore.waiters (sem s).
Proof. intros [H _]%find_some. by apply list_elem_of_In. Qed.

Lemma inv_resume mc md qt id now x x' :
  inv mc md qt x → exec (Resume id now) x = Some x' → inv mc md qt x'.
Proof.
  intros [Hl Hs Hid Hls Hq Hi Hp Hc]. destruct x as [s ls c ab d]; simpl in *.
  intros H. apply bind_Some in H as (w & Hw%find_waiter_elem & H).
  apply bind_Some in H as ([s' o] & H & H2). unfold admit_resume in H.
  apply bind_Some in H as ([sem' got] & E & H).
  destruct (Semaphore.acquire_resume_ok _ _ _ _ _ Hs Hw E) as (Hok & Hlen & Hsub).
  pose proof (Semaphore.ok_value _ _ Hok). pose proof (Semaphore.ok_total _ _ Hok).
  pose proof (Semaphore.granted_nonneg (Semaphore.waiters sem')).
  pose proof (live_nonneg ls).
  assert (∀ id, id ∈ map Semaphore.w_id (Semaphore.waiters sem') → (id < c)%nat) as Hid'
    by (intros i Hi'; apply Hid; by apply Hsub).
  destruct got.
  - simplify_eq. simpl in *. simplify_eq.
    constructor; simpl in *; unfold rejected_total in *; simpl;
      rewrite ?live_snoc, ?length_app; simpl; destruct_and?; split_and?; auto; try lia.
    by replace (mc - (in_use s + 1)) with (mc - in_use s - 1) by lia.
  - destruct (why _); simplify_eq; simpl in *; simplify_eq; inv_arith.
Qed.

Lemma inv_release mc md qt i canc x x' :
  inv mc md qt x → exec (Release i canc) x = Some x' → inv mc md qt x'.
Proof.
  intros [Hl Hs Hid Hls Hq Hi Hp Hc]. destruct x as [s ls c ab d]; simpl in *.
  intros H. apply bind_Some in H as (l & Hli & H). unfold lease_release in H.
  destruct (released l) eqn:R; simpl in *.
  { simplify_eq. rewrite list_insert_id by done. inv_arith. }
  simplify_eq.
  pose proof (live_release ls i l (Lease (waited_s l) true) Hli R eq_refl) as Hlive.
  pose proof (live_nonneg (<[i:=Lease (waited_s l) true]> ls)).
  destruct (Semaphore.release_length (sem s)) as [L1 L2].
  pose proof (Semaphore.release_ok _ _ Hs) as Hok.
  replace (mc - in_use s + 1) with (mc - (in_use s - 1)) in Hok by lia.
  unfold release. rewrite (proj2 (Z.ltb_lt 0 (in_use s))) by lia.
  constructor; simpl in *; unfold rejected_total in *; simpl;
    destruct canc; simpl; destruct (in_use s - 1 =? 0) eqn:Z0; simpl in *;
    rewrite ?L1, ?L2, ?length_insert, ?Z0, ?Hlive; auto;
    destruct_and?; split_and?; auto; try lia; rewrite Hi; lia.
Qed.

Lemma inv_cancel mc md qt id c x :
  inv mc md qt x →
  inv mc md qt (Sys (cancel_waiter id c (sched x)) (leases x) (calls x) (aborted x) (drain x)).
Proof.
  intros [Hl Hs Hid Hls Hq Hi Hp Hc]. destruct x as [s ls k ab d]; simpl in *.
  destruct (Semaphore.cancel_waiter_spec id (note_cause c) (Semaphore.waiters (sem s)))
    as (L & M & _).
  constructor; simpl in *; unfold rejected_total in *; simpl;
    rewrite ?L, ?M; auto. by apply Semaphore.cancel_waiter_ok.
Qed.

Lemma inv_exec mc md qt l x x' :
  inv mc md qt x → exec l x = Some x' → inv mc md qt x'.
Proof.
  intros Hi. destruct l; eauto using inv_admit, inv_resume, inv_release; simpl; intros H.
  - case_match; simplify_eq. by apply inv_cancel.
  - simplify_eq. by apply inv_cancel.
  - destruct Hi. simplify_eq. inv_arith.
  - destruct Hi. case_match; simplify_eq. inv_arith.
  - destruct Hi. case_match; simplify_eq. inv_arith.
  - destruct Hi. case_match; simplify_eq; inv_arith.
  - destruct Hi. simplify_eq. unfold note_slow_consumer. case_match; inv_arith.
Qed.

Lemma inv_reachable mc md qt x : reachable mc md qt x → inv mc md qt x.
Proof. induction 1; eauto using inv_init, inv_exec. Qed.

(** ** Draining the queue *)

(** Work still owed: each queued call needs a resumption and then a release. *)
Definition owed (x : sys) : nat :=
  (2 * length (Semaphore.waiters (sem (sched x))) +
   length (filter (fun l => released l = false) (leases x)))%nat.

(** The steps that finish work: a waiter resumes, a lease is released. *)
Definition is_work (l : label) : bool :=
  match l with Resume _ _ | Release _ _ => true | _ => false end.

Lemma live_exists ls : 0 < live ls → ∃ i l, ls !! i = Some l ∧ released l = false.
Proof.
  unfold live. intros H. destruct (filter _ ls) as [|l k] eqn:E; simpl in H; [lia|].
  assert (l ∈ filter (fun l => released l = false) ls) as Hl by (rewrite E; left).
  apply list_elem_of_filter in Hl as [Hr [i Hi]%list_elem_of_lookup]. eauto.
Qed.

Lemma find_waiter_self s w :
  NoDup (map Semaphore.w_id (Semaphore.waiters (sem s))) →
  w ∈ Semaphore.waiters (sem s) → find_waiter (Semaphore.w_id w) s = Some w.
Proof.
  unfold find_waiter. generalize (Semaphore.waiters (sem s)) as ws.
  induction ws as [|v ws IH]; simpl; [set_solver|]. intros [Hn Hd]%NoDup_cons.
  intros [->|Hw]%elem_of_cons; [by rewrite bool_decide_true|].
  rewrite bool_decide_false; [by apply IH|].
  intros E. apply Hn. rewrite E. by apply list_elem_of_fmap_2.
Qed.

(** A waiter whose future is done can resume. *)
Lemma resume_enabled mc md qt x w now :
  inv mc md qt x → w ∈ Semaphore.waiters (sem (sched x)) →
  Semaphore.done (Semaphore.w_fut w) = true →
  ∃ x', exec (Resume (Semaphore.w_id w) now) x = Some x' ∧ (owed x' < owed x)%nat.
Proof.
  intros Hi Hw Hd. destruct x as [s ls c ab d]; simpl in *.
  assert (∃ sem' got, Semaphore.acquire_resume w (sem s) = Some (sem', got)) as (sem' & got & E).
  { unfold Semaphore.acquire_resume. destruct (Semaphore.w_fut w); [done|eauto..]. }
  destruct (Semaphore.acquire_resume_ok _ _ _ _ _ (i_sem _ _ _ _ Hi) Hw E) as (_ & L & _).
  assert (find_waiter (Semaphore.w_id w) s = Some w) as F
    by (apply find_waiter_self; [exact (Semaphore.ok_ids _ _ (i_sem _ _ _ _ Hi))|done]).
  simpl in *. rewrite F. simpl. unfold admit_resume. rewrite E. simpl. unfold owed. simpl.
  destruct got; simpl.
  - eexists. split; [done|]. simpl. rewrite filter_app, length_app. simpl. lia.
  - destruct (why _); simpl; eexists; (split; [done|]); simpl; lia.
Qed.

Lemma release_enabled x i l :
  leases x !! i = Some l → released l = false →
  ∃ x', exec (Release i false) x = Some x' ∧ (owed x' < owed x)%nat.
Proof.
  intros Hl Hr. simpl. rewrite Hl. simpl. unfold lease_release. rewrite Hr.
  eexists. split; [done|]. unfold owed. simpl.
  pose proof (live_release _ _ _ (Lease (waited_s l) true) Hl Hr eq_refl) as H.
  unfold live in H. unfold release.
  repeat case_match; simpl; destruct (Semaphore.release_length (sem (sched x))) as [-> _]; lia.
Qed.

(** Whenever work is owed, some step finishes part of it. *)
Lemma work_enabled mc md qt x :
  inv mc md qt x → owed x ≠ 0%nat →
  ∃ l x', is_work l = true ∧ exec l x = Some x' ∧ (owed x' < owed x)%nat.
Proof.
  intros Hi Ho. destruct (decide (0 < live (leases x))) as [Hl|Hl].
  { apply live_exists in Hl as (i & l & Hl & Hr).
    destruct (release_enabled _ _ _ Hl Hr) as (x' & ? & ?). by exists (Release i false), x'. }
  assert (∃ w, w ∈ Semaphore.waiters (sem (sched x)) ∧
               Semaphore.done (Semaphore.w_fut w) = true) as (w & Hw & Hd).
  { destruct Hi as [Hlim Hs _ Hls _ _ _ _]. destruct (Semaphore.waiters (sem (sched x))) as [|w ws] eqn:E.
    { unfold owed, live in *. rewrite E in Ho. simpl in *. lia. }
    destruct (decide (Semaphore.has_pending (w :: ws))) as [Hp|Hp].
    - assert (Semaphore.has_holder (w :: ws)) as Hh.
      { rewrite <- E in *. destruct (decide (0 < Semaphore.granted (Semaphore.waiters (sem (sched x))))).
        - by apply Semaphore.granted_holder.
        - apply (Semaphore.ok_wakeup _ _ Hs); [|done].
          pose proof (Semaphore.ok_total _ _ Hs).
          pose proof (Semaphore.granted_nonneg (Semaphore.waiters (sem (sched x)))).
          pose proof (live_nonneg (leases x)). lia. }
      apply Exists_exists in Hh as (v & Hv & Hh). exists v. split; [done|].
      by destruct (Semaphore.w_fut v).
    - exists w. split; [left|]. destruct (Semaphore.w_fut w) eqn:F; try done.
      exfalso. apply Hp. by constructor. }
  destruct (resume_enabled _ _ _ _ _ 0%Q Hi Hw Hd) as (x' & ? & ?).
  by exists (Resume (Semaphore.w_id w) 0%Q), x'.
Qed.

(** ** The admission guarantees *)

(** C4. Bounded concurrency: in every state the event loop can reach, the number of
    slots in use is the number of leases handed out and not yet released, it is
    between 0 and [max_concurrency], and every permit is accounted for: free in the
    semaphore, granted to a waiter that has not resumed, or in use. *)
Theorem bounded_concurrency mc md qt x :
  reachable mc md qt x →
  0 <= in_use (sched x) <= mc ∧
  in_use (sched x) = live (leases x) ∧
  Semaphore.value (sem (sched x)) + Semaphore.granted (Semaphore.waiters (sem (sched x)))
    + in_use (sched x) = mc ∧
  idle (sched x) = (in_use (sched x) =? 0).
Proof.
  intros [Hl Hs _ Hls _ Hi _ _]%inv_reachable. pose proof (live_nonneg (leases x)).
  pose proof (Semaphore.ok_value _ _ Hs). pose proof (Semaphore.ok_total _ _ Hs).
  pose proof (Semaphore.granted_nonneg (Semaphore.waiters (sem (sched x)))).
  split_and!; auto; lia.
Qed.

(** Bounded waiting and complete accounting: the queue gauge is the real queue
    length and never exceeds [max_queue_depth], the peaks stay within their limits,
    and every [admit] call is counted exactly once, as admitted, rejected, still
    queued, or abandoned by its client while queued. *)
Theorem bounded_waiting mc md qt x :
  reachable mc md qt x →
  waiters (sched x) = Z.of_nat (length (Semaphore.waiters (sem (sched x)))) ∧
  waiters (sched x) <= md ∧
  peak_in_use (sched x) <= mc ∧ peak_waiters (sched x) <= md ∧
  admitted (sched x) = Z.of_nat (length (leases x)) ∧
  Z.of_nat (calls x) = admitted (sched x) + rejected_total (sched x)
                       + waiters (sched x) + aborted x.
Proof.
  intros [_ _ _ _ [Hq1 Hq2] _ [Hp1 Hp2] (Hc1 & _ & Hc2)]%inv_reachable.
  split_and!; try done; lia.
Qed.

(** C5. No lost wake-up, and admission always drains: from every reachable state,
    however calls, timeouts and disconnects were interleaved, letting granted waiters
    resume and leases be released reaches a state with no queued call and no slot in
    use.  No queued request can be stranded. *)
Theorem admission_drains mc md qt x :
  reachable mc md qt x →
  ∃ ls x', forallb is_work ls = true ∧ run ls x = Some x' ∧
           Semaphore.waiters (sem (sched x')) = [] ∧ in_use (sched x') = 0.
Proof.
  intros Hi%inv_reachable. remember (owed x) as n eqn:Hn. revert x Hi Hn.
  induction (lt_wf n) as [n _ IH]. intros x Hi ->.
  destruct (decide (owed x = 0%nat)) as [H0|H0].
  - exists [], x. split_and!; [done|done| |].
    + apply nil_length_inv. unfold owed in H0. lia.
    + rewrite (i_leases _ _ _ _ Hi). unfold owed in H0. unfold live. lia.
  - destruct (work_enabled _ _ _ _ Hi H0) as (l & x1 & Hl & Hx & Ho).
    destruct (IH _ Ho x1 (inv_exec _ _ _ _ _ _ Hi Hx) eq_refl) as (ls & x' & ? & ? & ?).
    exists (l :: ls), x'. simpl. rewrite Hl, Hx. done.
Qed.

(** FIFO admission: while a waiter is still pending, no call queued behind it has
    been granted a slot. *)
Theorem admission_fifo mc md qt x i j w v :
  reachable mc md qt x →
  Semaphore.waiters (sem (sched x)) !! i = Some w →
  Semaphore.waiters (sem (sched x)) !! j = Some v →
  (i < j)%nat → Semaphore.w_fut w = Semaphore.Pending →
  Semaphore.holds (Semaphore.w_fut v) = false.
Proof.
  intros [_ Hs _ _ _ _ _ _]%inv_reachable. pose proof (Semaphore.ok_fifo _ _ Hs) as Hf.
  revert i j Hf. generalize (Semaphore.waiters (sem (sched x))) as ws.
  induction ws as [|u ws IH]; intros i j Hf Hi Hj Hij Hw; [done|].
  destruct j as [|j]; [lia|]. destruct Hf as [HP HF]. destruct i as [|i]; simpl in *.
  - simplify_eq. specialize (HP Hw). rewrite Forall_lookup in HP. by eapply HP.
  - eapply (IH i j); eauto; lia.
Qed.

(** Draining: once [begin_drain] ran, no call of [admit] obtains a lease or a place
    in the queue: each is refused with the reason [Draining] and counted, and nothing
    else changes. *)
Theorem draining_refuses id now s :
  draining s = true →
  admit_begin id now s = (count_full s, Raised (Saturated Draining (retry_after_hint s))) ∧
  1 <= retry_after_hint s.
Proof.
  intros H. unfold admit_begin. rewrite H. split; [done|].
  unfold retry_after_hint. case_match; lia.
Qed.

(** A finished drain does not mean an idle engine: with one slot, a request in
    flight and another one queued, releasing the slot sets the idle event and hands
    the slot to the queued request, so [wait_drained] returns [True] after that
    request has started. *)
Theorem drained_while_serving :
  ∃ s x, init 1 4 30 = Some s ∧
    run [Admit 0; Admit 0; BeginDrain; WaitDrained; Release 0 false; Resume 1 5; DrainResume]
        (start s) = Some x ∧
    draining (sched x) = true ∧ drain x = DrainReturned true ∧
    in_use (sched x) = 1 ∧ live (leases x) = 1.
Proof. eexists _, _. split; [reflexivity|]. split; [vm_compute; reflexivity|done]. Qed.

(** *** Witnesses *)

Definition run_from_init (mc md : Z) (qt : Q) (ls : list label) : option sys :=
  s ← init mc md qt; run ls (start s).

Lemma run_from_init_reachable mc md qt ls x :
  run_from_init mc md qt ls = Some x → reachable mc md qt x.
Proof.
  unfold run_from_init. intros H. apply bind_Some in H as (s & Hs & H).
  eapply run_reachable; [|done]. by apply reach_init.
Qed.

Definition empty_sys : sys :=
  start (Mk 0 0 0%Q (Semaphore.Sem 0 []) false true 0 0 0 0 0 0 0 0 0 0%Q 0 0%Q 0%Q).

(** Two slots, three calls: the third waits and is granted the slot the first frees. *)
Definition demo : sys :=
  Eval vm_compute in default empty_sys
    (run_from_init 2 1 30 [Admit 0; Admit 1; Admit 2; Release 0 false]).
Lemma demo_reachable : reachable 2 1 30 demo.
Proof.
  apply (run_from_init_reachable 2 1 30 [Admit 0; Admit 1; Admit 2; Release 0 false]).
  vm_compute. reflexivity.
Qed.

Lemma bounded_concurrency_witness :
  in_use (sched demo) <= 2 ∧ Semaphore.granted (Semaphore.waiters (sem (sched demo))) = 1.
Proof.
  split; [apply (bounded_concurrency 2 1 30 demo demo_reachable)|reflexivity].
Defined.

Lemma bounded_waiting_witness : waiters (sched demo) <= 1.
Proof. apply (bounded_waiting 2 1 30 demo demo_reachable). Defined.

Lemma admission_drains_witness :
  ∃ ls x', run ls demo = Some x' ∧ in_use (sched x') = 0.
Proof.
  destruct (admission_drains 2 1 30 demo demo_reachable) as (ls & x' & _ & H & _ & H').
  exists ls, x'. split; [exact H|exact H'].
Defined.

(** One slot in use, two calls queued behind it. *)
Definition demo_fifo : sys :=
  Eval vm_compute in default empty_sys (run_from_init 1 2 30 [Admit 0; Admit 1; Admit 2]).
Lemma demo_fifo_reachable : reachable 1 2 30 demo_fifo.
Proof.
  apply (run_from_init_reachable 1 2 30 [Admit 0; Admit 1; Admit 2]). vm_compute. reflexivity.
Qed.

Lemma admission_fifo_witness :
  ∃ w v, Semaphore.waiters (sem (sched demo_fifo)) = [w; v] ∧
         Semaphore.holds (Semaphore.w_fut v) = false.
Proof.
  eexists _, _. split; [reflexivity|].
  apply (admission_fifo 1 2 30 demo_fifo 0 1
           (Semaphore.Waiter 1 Semaphore.Pending (Frame 1 NoCancel))
           (Semaphore.Waiter 2 Semaphore.Pending (Frame 2 NoCancel)) demo_fifo_reachable);
    [reflexivity|reflexivity|repeat constructor|reflexivity].
Defined.

Definition demo_sched : t := sched demo.
Lemma draining_refuses_witness :
  draining (begin_drain demo_sched) = true ∧ 1 <= retry_after_hint (begin_drain demo_sched).
Proof.
  split; [reflexivity|]. apply (draining_refuses 0 0 (begin_drain demo_sched) eq_refl).
Defined.

End System.
