(* ===== verification/Placement.v ===== *)
(** * Backend registry ([engine/inference/registry.py], types of [engine/inference/types.py])

    [Module BackendRegistry] translates the pool of backends: health-aware
    least-busy selection with prefix affinity and a spillover tier, the reservation
    of in-flight slots and the lease that gives them back.  The pool is the list of
    its entries, in registration order; [order] is an entry's index and identifies
    it (a Python entry object is shared by the pool and its leases). *)

From S2P Require Import Prelude Crypto.

Open Scope Z_scope.

Module BackendRegistry.

(** [BackendState] *)
Inductive BackendState := UNLOADED | LOADING | READY | GENERATING | FAILED.

(** The fields of [Capabilities] that placement reads. *)
Record Capabilities := Caps {
  model_id : string;
  context_length : Z;
  supports_structured_output : bool;
  supports_kv_cache_metrics : bool
}.

(** What [provider()] returns: the backend's current state and, when loaded, its
    capabilities. *)
Record backend := Backend { state : BackendState; capabilities : Capabilities }.

(** The keys of [_FEATURE_ATTR]. *)
Inductive feature := structured_output.

#[export] Instance feature_eq_dec : EqDecision feature.
Proof. solve_decision. Defined.

(** [_FEATURE_ATTR]: feature to the capability that gates it. *)
Definition feature_attr (f : feature) (c : Capabilities) : bool :=
  match f with structured_output => supports_structured_output c end.

Record BackendEntry := Entry {
  name : string;
  kind : string;
  is_local : bool;
  provider : option backend;
  max_in_flight : Z;
  prefix_cache : bool;
  order : nat;
  in_flight : Z;
  available : bool;
  cost_per_1k_input : Q;
  cost_per_1k_output : Q;
  spillover : bool;
  external : bool;
  served_model : option string
}.

Definition readyish (s : BackendState) : bool :=
  match s with READY | GENERATING => true | _ => false end.

Definition is_loaded (e : BackendEntry) : bool :=
  match provider e with Some b => readyish (state b) | None => false end.
Definition is_ready (e : BackendEntry) : bool := available e && is_loaded e.
Definition has_capacity (e : BackendEntry) : bool := in_flight e <? max_in_flight e.

Definition live_model (e : BackendEntry) : option string :=
  if is_ready e then
    match provider e with
    | Some b => Some (model_id (capabilities b))
    | None => None
    end
  else None.

Definition current_model (e : BackendEntry) : option string :=
  match live_model e with Some m => Some m | None => served_model e end.

(** Field updates. *)
Definition with_order (n : nat) (e : BackendEntry) : BackendEntry :=
  Entry (name e) (kind e) (is_local e) (provider e) (max_in_flight e) (prefix_cache e) n
        (in_flight e) (available e) (cost_per_1k_input e) (cost_per_1k_output e)
        (spillover e) (external e) (served_model e).
Definition with_in_flight (n : Z) (e : BackendEntry) : BackendEntry :=
  Entry (name e) (kind e) (is_local e) (provider e) (max_in_flight e) (prefix_cache e) (order e)
        n (available e) (cost_per_1k_input e) (cost_per_1k_output e)
        (spillover e) (external e) (served_model e).
Definition with_available (a : bool) (e : BackendEntry) : BackendEntry :=
  Entry (name e) (kind e) (is_local e) (provider e) (max_in_flight e) (prefix_cache e) (order e)
        (in_flight e) a (cost_per_1k_input e) (cost_per_1k_output e)
        (spillover e) (external e) (served_model e).

(** [BackendRegistry.__init__]: every entry learns its index. *)
Definition init (entries : list BackendEntry) : list BackendEntry := imap with_order entries.

Definition any_ready (reg : list BackendEntry) : bool := existsb is_ready reg.

(** [representative]: a ready backend, whatever it serves. *)
Definition representative (reg : list BackendEntry) : option backend :=
  e ← find is_ready reg; provider e.

(** [representative_for]: the first ready backend serving [m]. *)
Definition representative_for (m : string) (reg : list BackendEntry) : option backend :=
  e ← find (fun e => bool_decide (live_model e = Some m)) reg; provider e.

(** [known_models] *)
Definition known_models (reg : list BackendEntry) : gset string :=
  list_to_set (omap current_model reg).

(** [eligible] *)
Definition eligible (model : option string) (features : list feature) (e : BackendEntry) : bool :=
  match model with
  | Some m => bool_decide (live_model e = Some m)
  | None => true
  end &&
  match features with
  | [] => true
  | _ =>
      match (if is_ready e then provider e else None) with
      | None => false
      | Some b => forallb (fun f => feature_attr f (capabilities b)) features
      end
  end.

(** [allowed is None or e.name in allowed] *)
Definition in_scope (allowed : option (list string)) (e : BackendEntry) : bool :=
  match allowed with
  | None => true
  | Some names => bool_decide (name e ∈ names)
  end.

Inductive Reason := model_map | least_busy | prefix_affinity | affinity_fallback.
Inductive Tier := primary | spill.
Inductive Fallback := cascade_escalation | spillover_used.
Inductive Policy := base | route | cascade.

(** [min(candidates, key=lambda e: (e.in_flight, e.order))] *)
Definition busier (a b : BackendEntry) : bool :=
  (in_flight b <? in_flight a) ||
  ((in_flight b =? in_flight a) && (Nat.ltb (order b) (order a))).
Fixpoint min_from (best : BackendEntry) (l : list BackendEntry) : BackendEntry :=
  match l with
  | [] => best
  | e :: l' => min_from (if busier best e then e else best) l'
  end.
Definition min_busy (l : list BackendEntry) : option BackendEntry :=
  match l with [] => None | e :: l' => Some (min_from e l') end.

(** [sorted(..., key=lambda e: e.order)] *)
Fixpoint insert_by_order (e : BackendEntry) (l : list BackendEntry) : list BackendEntry :=
  match l with
  | [] => [e]
  | x :: l' => if Nat.ltb (order e) (order x) then e :: l else x :: insert_by_order e l'
  end.
Definition sort_by_order (l : list BackendEntry) : list BackendEntry :=
  fold_left (fun acc e => insert_by_order e acc) l [].

Definition candidate (e : BackendEntry) : bool := is_ready e && has_capacity e.
Definition affine (e : BackendEntry) : bool := is_ready e && prefix_cache e.

(** [capable[int(digest, 16) % len(capable)]] *)
Definition affinity_target (key : string) (capable : list BackendEntry) : option BackendEntry :=
  nth_error capable (Z.to_nat (Crypto.sha256_int key mod Z.of_nat (length capable))).

(** [_pick] *)
Definition pick (pool : list BackendEntry) (prefix_key : option string)
  : option (BackendEntry * Reason) :=
  let candidates := List.filter candidate pool in
  let plain := e ← min_busy candidates; Some (e, least_busy) in
  match prefix_key with
  | Some key =>
      if str_true key then
        match sort_by_order (List.filter affine pool) with
        | [] => plain
        | capable =>
            match affinity_target key capable with
            | None => None (* unreachable: the index is within the list *)
            | Some target =>
                if has_capacity target then Some (target, prefix_affinity)
                else e ← min_busy candidates; Some (e, affinity_fallback)
            end
        end
      else plain
  | None => plain
  end.

Section Selection.
Context (prefix_key : option string) (allowed : option (list string))
        (model : option string) (features : list feature).

(** The pool a request may be placed on, and its two tiers. *)
Definition pool (reg : list BackendEntry) : list BackendEntry :=
  List.filter (fun e => in_scope allowed e && eligible model features e) reg.
Definition tier_pool (t : Tier) (reg : list BackendEntry) : list BackendEntry :=
  List.filter (fun e => match t with primary => negb (spillover e) | spill => spillover e end)
              (pool reg).

(** [_select_detailed]: entry, reason, tier and the candidates in that tier. *)
Definition select_detailed (reg : list BackendEntry)
  : option (BackendEntry * Reason * Tier * nat) :=
  let in_tier t p :=
    let '(e, r) := p in
    let n := length (List.filter candidate (tier_pool t reg)) in
    let r := match r, model with
             | least_busy, Some _ => if Nat.eqb n 1 then model_map else least_busy
             | r, _ => r
             end in
    (e, r, t, n) in
  match pick (tier_pool primary reg) prefix_key with
  | Some p => Some (in_tier primary p)
  | None =>
      match pick (tier_pool spill reg) prefix_key with
      | Some p => Some (in_tier spill p)
      | None => None
      end
  end.

(** [select] *)
Definition select (reg : list BackendEntry) : option BackendEntry :=
  match select_detailed reg with
  | Some (e, _, _, _) => Some e
  | None => None
  end.
End Selection.

(** [RouteDecision] *)
Record RouteDecision := Decision_ {
  d_backend : string;
  d_engine : string;
  d_tier : Tier;
  d_reason : Reason;
  d_fallbacks : list Fallback;
  d_policy : Policy;
  d_step : option nat;
  d_workload_rule : option string
}.

(** [RegistryLease]: [entry] is the index of the leased entry. *)
Record RegistryLease := Lease_ {
  entry : nat;
  released : bool;
  decision : option RouteDecision
}.

Inductive placement_error :=
| NoBackendUnloaded
| NoBackendBusy
| FeatureUnsupported (features : list feature) (model : option string).

(** [entry.in_flight += 1] and [_release] on the shared entry. *)
Definition bump (d : Z) (i : nat) (reg : list BackendEntry) : list BackendEntry :=
  alter (fun e => with_in_flight (in_flight e + d) e) i reg.
Definition release_entry (i : nat) (reg : list BackendEntry) : list BackendEntry :=
  alter (fun e => if 0 <? in_flight e then with_in_flight (in_flight e - 1) e else e) i reg.

(** [acquire] *)
Definition acquire (prefix_key : option string) (allowed : option (list string))
  (model : option string) (features : list feature) (reg : list BackendEntry)
  : result placement_error (RegistryLease * list BackendEntry) :=
  match select_detailed prefix_key allowed model features reg with
  | None =>
      let scope := List.filter (in_scope allowed) reg in
      let model_ready := List.filter (fun e => is_ready e &&
        match model with Some m => bool_decide (live_model e = Some m) | None => true end) scope in
      match model_ready with
      | [] => Err NoBackendUnloaded
      | _ =>
          match List.filter (eligible model features) model_ready with
          | [] => Err (FeatureUnsupported features model)
          | _ => Err NoBackendBusy
          end
      end
  | Some (e, reason, tier, _) =>
      let decision := Decision_ (name e) (kind e) tier reason
                        (match tier with spill => [spillover_used] | primary => [] end)
                        base None None in
      Ok (Lease_ (order e) false (Some decision), bump 1 (order e) reg)
  end.

(** [RegistryLease.release] *)
Definition lease_release (l : RegistryLease) (reg : list BackendEntry)
  : RegistryLease * list BackendEntry :=
  if released l then (l, reg)
  else (Lease_ (entry l) true (decision l), release_entry (entry l) reg).

(** [refresh_health] on one entry: [check] is the remote's probe ([None]: the backend
    has none). *)
Definition refresh_health (check : option bool) (e : BackendEntry) : BackendEntry :=
  match provider e with
  | None => with_available false e
  | Some b =>
      if is_local e then with_available (readyish (state b)) e
      else match check with
           | None => with_available (readyish (state b)) e
           | Some ok => with_available ok e
           end
  end.

(** ** Least-busy choice *)

(** [e] comes no later than [x] in the order of [(in_flight, order)]. *)
Definition no_busier (e x : BackendEntry) : Prop :=
  in_flight e < in_flight x ∨ (in_flight e = in_flight x ∧ (order e <= order x)%nat).

#[export] Instance no_busier_refl : Reflexive no_busier.
Proof. intros e. right. lia. Qed.
#[export] Instance no_busier_trans : Transitive no_busier.
Proof. intros x y z [] []; unfold no_busier; lia. Qed.

Lemma busier_spec a b : if busier a b then no_busier b a else no_busier a b.
Proof.
  unfold busier, no_busier.
  destruct (Nat.ltb_spec (order b) (order a)), (Z.ltb_spec (in_flight b) (in_flight a)),
    (Z.eqb_spec (in_flight b) (in_flight a)); simpl; lia.
Qed.

Lemma min_from_spec best l :
  min_from best l ∈ best :: l ∧ Forall (no_busier (min_from best l)) (best :: l).
Proof.
  revert best. induction l as [|e l IH]; intros best; simpl.
  - split; [left|]. by repeat constructor.
  - destruct (IH (if busier best e then e else best)) as [H1 H2].
    inversion H2 as [|? ? Hb Hl]; subst. pose proof (busier_spec best e) as Hc.
    destruct (busier best e); (split; [set_solver|]).
    + constructor; [by etransitivity|by constructor].
    + constructor; [done|constructor; [by etransitivity|done]].
Qed.

Lemma min_busy_Some l e :
  min_busy l = Some e → e ∈ l ∧ Forall (no_busier e) l.
Proof. destruct l; simpl; intros; simplify_eq. apply min_from_spec. Qed.
Lemma min_busy_None l : min_busy l = None ↔ l = [].
Proof. by destruct l. Qed.

(** ** Sorting by registration order keeps the elements *)

Lemma insert_by_order_perm e l : insert_by_order e l ≡ₚ e :: l.
Proof.
  induction l as [|x l IH]; simpl; [done|]. case_match; [done|].
  rewrite IH. by constructor.
Qed.
Lemma sort_by_order_perm l : sort_by_order l ≡ₚ l.
Proof.
  unfold sort_by_order. enough (∀ acc, fold_left (fun acc e => insert_by_order e acc) l acc ≡ₚ l ++ acc)
    as H by (by rewrite H, app_nil_r).
  induction l as [|x l IH]; intros acc; simpl; [done|].
  rewrite IH, insert_by_order_perm. symmetry. apply Permutation_middle.
Qed.

Lemma affinity_target_Some key capable :
  capable ≠ [] → ∃ e, affinity_target key capable = Some e ∧ e ∈ capable.
Proof.
  intros Hne. unfold affinity_target.
  assert (0 < Z.of_nat (length capable)) by (destruct capable; simpl; [done|lia]).
  pose proof (Z.mod_pos_bound (Crypto.sha256_int key) (Z.of_nat (length capable))).
  destruct (nth_error capable _) as [e|] eqn:E.
  - exists e. split; [done|]. apply list_elem_of_In. by eapply nth_error_In.
  - apply nth_error_None in E. lia.
Qed.

Lemma elem_of_bfilter (f : BackendEntry → bool) e l :
  e ∈ List.filter f l ↔ e ∈ l ∧ f e = true.
Proof. rewrite !list_elem_of_In. apply filter_In. Qed.

(** ** [pick] *)

Lemma pick_Some pool key e r :
  pick pool key = Some (e, r) →
  e ∈ pool ∧ candidate e = true ∧
  (r ≠ prefix_affinity → Forall (no_busier e) (List.filter candidate pool)).
Proof.
  assert (∀ r0, (x ← min_busy (List.filter candidate pool); Some (x, r0)) = Some (e, r) →
     e ∈ pool ∧ candidate e = true ∧
     (r ≠ prefix_affinity → Forall (no_busier e) (List.filter candidate pool))) as Hmin.
  { intros r0 H. apply bind_Some in H as (x & Hx & H). simplify_eq.
    apply min_busy_Some in Hx as [[Hx Hc]%elem_of_bfilter Hf]. auto. }
  unfold pick. destruct key as [key|]; [|apply Hmin].
  destruct (str_true key); [|apply Hmin].
  pose proof (sort_by_order_perm (List.filter affine pool)) as Hperm.
  destruct (sort_by_order _) as [|c cs] eqn:E; [apply Hmin|].
  destruct (affinity_target_Some key (c :: cs)) as (t & -> & Ht); [done|].
  destruct (has_capacity t) eqn:Hc; [|apply Hmin]. intros; simplify_eq.
  rewrite Hperm in Ht. apply elem_of_bfilter in Ht as [Ht Ha].
  unfold affine in Ha. unfold candidate. rewrite Hc.
  split_and!; [done| |done]. destruct (is_ready e); done.
Qed.

Lemma pick_None pool key :
  pick pool key = None ↔ List.filter candidate pool = [].
Proof.
  assert (∀ r0 : Reason, (x ← min_busy (List.filter candidate pool); Some (x, r0)) = None
                ↔ List.filter candidate pool = []) as Hmin.
  { intros r0. rewrite bind_None. rewrite <- min_busy_None.
    split; [|auto]. intros [?|(? & ? & ?)]; done. }
  unfold pick. destruct key as [key|]; [|apply Hmin].
  destruct (str_true key); [|apply Hmin].
  pose proof (sort_by_order_perm (List.filter affine pool)) as Hperm.
  destruct (sort_by_order _) as [|c cs] eqn:E; [apply Hmin|].
  destruct (affinity_target_Some key (c :: cs)) as (t & -> & Ht); [done|].
  destruct (has_capacity t) eqn:Hc; [|apply Hmin]. split; [done|]. intros Hnil.
  rewrite Hperm in Ht. apply elem_of_bfilter in Ht as [Ht Ha].
  assert (t ∈ List.filter candidate pool) as H; [|rewrite Hnil in H; set_solver].
  apply elem_of_bfilter. split; [done|]. unfold affine in Ha. unfold candidate.
  rewrite Hc. destruct (is_ready t); done.
Qed.

(** ** [select] *)

Section SelectFacts.
Context (prefix_key : option string) (allowed : option (list string))
        (model : option string) (features : list feature) (reg : list BackendEntry).

(** The abstract placement problem: the entries that could take the request now. *)
Definition can_serve (e : BackendEntry) : Prop :=
  e ∈ reg ∧ in_scope allowed e = true ∧ eligible model features e = true ∧
  is_ready e = true ∧ has_capacity e = true.

Lemma elem_of_tier_pool t e :
  e ∈ tier_pool allowed model features t reg ↔
  e ∈ reg ∧ in_scope allowed e = true ∧ eligible model features e = true ∧
  spillover e = (match t with primary => false | spill => true end).
Proof.
  unfold tier_pool, pool. rewrite !elem_of_bfilter, andb_true_iff.
  destruct t, (spillover e); naive_solver.
Qed.

Lemma elem_of_tier_candidates t e :
  e ∈ List.filter candidate (tier_pool allowed model features t reg) ↔
  can_serve e ∧ spillover e = (match t with primary => false | spill => true end).
Proof.
  rewrite elem_of_bfilter, elem_of_tier_pool. unfold candidate, can_serve.
  rewrite andb_true_iff. tauto.
Qed.

Lemma no_tier_candidates t :
  List.filter candidate (tier_pool allowed model features t reg) = [] ↔
  ∀ e, can_serve e → spillover e ≠ (match t with primary => false | spill => true end).
Proof.
  split.
  - intros Hn e He Hs. assert (e ∈ List.filter candidate (tier_pool allowed model features t reg)) as H
      by (by apply elem_of_tier_candidates). rewrite Hn in H. set_solver.
  - intros H. destruct (List.filter _ _) as [|e l] eqn:E; [done|exfalso].
    assert (e ∈ List.filter candidate (tier_pool allowed model features t reg)) as He
      by (rewrite E; left). apply elem_of_tier_candidates in He as [? ?]. by eapply H.
Qed.

Lemma select_detailed_Some e r t n :
  select_detailed prefix_key allowed model features reg = Some (e, r, t, n) →
  can_serve e ∧
  spillover e = (match t with primary => false | spill => true end) ∧
  (t = spill → ∀ x, can_serve x → spillover x = true) ∧
  (r ≠ prefix_affinity → ∀ x, can_serve x → spillover x = spillover e → no_busier e x).
Proof.
  unfold select_detailed.
  destruct (pick (tier_pool _ _ _ primary _) _) as [[e1 r1]|] eqn:P1;
    [|destruct (pick (tier_pool _ _ _ spill _) _) as [[e1 r1]|] eqn:P2]; intros; simplify_eq.
  1: rename P1 into P. 2: rename P2 into P.
  all: destruct (pick_Some _ _ _ _ P) as (Hin & Hc & Hmin);
    assert (e ∈ List.filter candidate (tier_pool allowed model features _ reg)) as He
      by (apply elem_of_bfilter; split; [exact Hin|exact Hc]);
    apply elem_of_tier_candidates in He as [He Hs]; (split_and!; [done|done| |]).
  - done.
  - intros Hr x Hx Hxs. rewrite Forall_forall in Hmin. apply Hmin.
    + intros ->. apply Hr. by destruct model.
    + apply elem_of_tier_candidates. split; [done|congruence].
  - intros _ x Hx. apply pick_None in P1. pose proof (proj1 (no_tier_candidates primary) P1 x Hx).
    by destruct (spillover x).
  - intros Hr x Hx Hxs. rewrite Forall_forall in Hmin. apply Hmin.
    + intros ->. apply Hr. by destruct model.
    + apply elem_of_tier_candidates. split; [done|congruence].
Qed.

Lemma select_detailed_None :
  select_detailed prefix_key allowed model features reg = None ↔ ∀ e, ¬ can_serve e.
Proof.
  unfold select_detailed. destruct (pick (tier_pool _ _ _ primary _) _) as [[e1 r1]|] eqn:P1.
  { split; [done|]. intros H. exfalso. destruct (pick_Some _ _ _ _ P1) as (Hin & Hc & _).
    apply (H e1). apply (elem_of_tier_candidates primary).
    apply elem_of_bfilter. done. }
  destruct (pick (tier_pool _ _ _ spill _) _) as [[e1 r1]|] eqn:P2.
  { split; [done|]. intros H. exfalso. destruct (pick_Some _ _ _ _ P2) as (Hin & Hc & _).
    apply (H e1). apply (elem_of_tier_candidates spill). apply elem_of_bfilter. done. }
  split; [|done]. intros _ e He.
  apply pick_None in P1, P2. rewrite no_tier_candidates in P1, P2.
  specialize (P1 _ He). specialize (P2 _ He). by destruct (spillover e).
Qed.

Lemma select_can_serve e :
  select prefix_key allowed model features reg = Some e → can_serve e.
Proof.
  unfold select. destruct (select_detailed _ _ _ _ _) as [[[[x r] t] n]|] eqn:E; [|done].
  intros; simplify_eq. by destruct (select_detailed_Some _ _ _ _ E).
Qed.

Lemma select_None_none :
  select prefix_key allowed model features reg = None → ∀ e, ¬ can_serve e.
Proof.
  unfold select. destruct (select_detailed _ _ _ _ _) as [[[[x r] t] n]|] eqn:E; [done|].
  intros _. by apply select_detailed_None.
Qed.

End SelectFacts.

(** ** Guarantees of placement *)

(** Placement is sound: a selected backend is in the pool and in the allowed scope,
    healthy, loaded and below its capacity, serves the requested model right now and
    supports every required feature; and a spillover backend is chosen only when no
    primary backend could take the request. *)
Theorem select_sound pk allowed model features reg e :
  select pk allowed model features reg = Some e →
  e ∈ reg ∧ in_scope allowed e = true ∧
  is_ready e = true ∧ in_flight e < max_in_flight e ∧
  (∀ m, model = Some m → live_model e = Some m) ∧
  (∀ f, f ∈ features → ∃ b, provider e = Some b ∧ feature_attr f (capabilities b) = true) ∧
  (spillover e = true →
   ∀ x, can_serve allowed model features reg x → spillover x = true).
Proof.
  unfold select. destruct (select_detailed _ _ _ _ _) as [[[[x r] t] n]|] eqn:E; [|done].
  intros; simplify_eq.
  destruct (select_detailed_Some _ _ _ _ _ _ _ _ _ E) as ((Hin & Hsc & Hel & Hr & Hc) & Ht & Hs & _).
  unfold has_capacity in Hc. unfold eligible in Hel. apply andb_true_iff in Hel as [Hm Hf].
  split_and!; auto; [lia| | |].
  - intros m ->. by apply bool_decide_eq_true in Hm.
  - intros f Hin'. destruct features as [|f0 fs]; [set_solver|]. rewrite Hr in Hf.
    destruct (provider e) as [b|]; [|done]. exists b. split; [done|].
    rewrite forallb_forall in Hf. apply Hf. by apply list_elem_of_In.
  - intros Hsp. apply Hs. destruct t; [congruence|done].
Qed.

(** Placement is complete: selection fails exactly when no entry of the pool is in
    scope, eligible for the model and the features, ready and below capacity; prefix
    affinity never makes a servable request fail. *)
Theorem select_complete pk allowed model features reg :
  select pk allowed model features reg = None ↔
  ∀ e, ¬ can_serve allowed model features reg e.
Proof.
  rewrite <- (select_detailed_None pk). unfold select.
  destruct (select_detailed _ _ _ _ _) as [[[[? ?] ?] ?]|]; done.
Qed.

(** Least-busy choice: unless the prefix hash decided, the selected entry has the
    smallest (in-flight, registration order) among all entries of its tier that could
    take the request. *)
Theorem select_least_busy pk allowed model features reg e r t n x :
  select_detailed pk allowed model features reg = Some (e, r, t, n) →
  r ≠ prefix_affinity →
  can_serve allowed model features reg x → spillover x = spillover e →
  in_flight e < in_flight x ∨ (in_flight e = in_flight x ∧ (order e <= order x)%nat).
Proof.
  intros E Hr Hx Hs.
  destruct (select_detailed_Some _ _ _ _ _ _ _ _ _ E) as (_ & _ & _ & H). by apply H.
Qed.

(** A refused placement names the right cause: [unloaded] when no ready backend in
    scope serves the model, [FeatureUnsupportedError] when some do but none supports
    the features, [busy] when a ready, eligible backend exists but all are full. *)
Theorem acquire_error pk allowed model features reg err :
  acquire pk allowed model features reg = Err err →
  let serves e := e ∈ reg ∧ in_scope allowed e = true ∧ is_ready e = true ∧
                  (∀ m, model = Some m → live_model e = Some m) in
  match err with
  | NoBackendUnloaded => ∀ e, ¬ serves e
  | FeatureUnsupported fs m =>
      fs = features ∧ m = model ∧ (∃ e, serves e) ∧
      ∀ e, serves e → eligible model features e = false
  | NoBackendBusy =>
      (∃ e, serves e ∧ eligible model features e = true) ∧
      ∀ e, serves e → eligible model features e = true → has_capacity e = false
  end.
Proof.
  unfold acquire. destruct (select_detailed _ _ _ _ _) as [[[[x r] t] n]|] eqn:E; [done|].
  rewrite select_detailed_None in E. simpl.
  remember (List.filter _ (List.filter _ _)) as mr eqn:Emr.
  assert (∀ e, e ∈ mr ↔ e ∈ reg ∧ in_scope allowed e = true ∧ is_ready e = true ∧
                        (∀ m, model = Some m → live_model e = Some m)) as Hmr.
  { intros e. rewrite Emr, !elem_of_bfilter, andb_true_iff.
    destruct model as [m|]; [rewrite bool_decide_eq_true|]; naive_solver. }
  clear Emr. destruct mr as [|y ys].
  { intros; simplify_eq. intros e He%Hmr. set_solver. }
  destruct (List.filter (eligible model features) (y :: ys)) as [|z zs] eqn:F;
    intros; simplify_eq.
  - split_and!; [done|done| |].
    + exists y. apply Hmr. left.
    + intros e He. apply Hmr in He. destruct (eligible model features e) eqn:El; [|done].
      assert (e ∈ List.filter (eligible model features) (y :: ys)) as H by (by apply elem_of_bfilter).
      rewrite F in H. set_solver.
  - split.
    + assert (z ∈ List.filter (eligible model features) (y :: ys)) as [Hz El]%elem_of_bfilter
        by (rewrite F; left). exists z. split; [by apply Hmr|done].
    + intros e (H1 & H2 & H3 & H4) El. destruct (has_capacity e) eqn:C; [|done].
      exfalso. by apply (E e).
Qed.

(** ** In-flight accounting over any sequence of placements *)

(** The pool and the leases it has handed out. *)
Record pool_sys := PoolSys { reg : list BackendEntry; leases : list RegistryLease }.

Inductive pool_label :=
| PAcquire (pk : option string) (allowed : option (list string))
           (model : option string) (features : list feature)
| PRelease (i : nat)
| PBackendChange (i : nat) (b : option backend)
| PHealth (i : nat) (check : option bool).

Definition with_provider (b : option backend) (e : BackendEntry) : BackendEntry :=
  Entry (name e) (kind e) (is_local e) b (max_in_flight e) (prefix_cache e) (order e)
        (in_flight e) (available e) (cost_per_1k_input e) (cost_per_1k_output e)
        (spillover e) (external e) (served_model e).

Definition pool_exec (l : pool_label) (p : pool_sys) : pool_sys :=
  match l with
  | PAcquire pk allowed model features =>
      match acquire pk allowed model features (reg p) with
      | Ok (lease, reg') => PoolSys reg' (leases p ++ [lease])
      | Err _ => p
      end
  | PRelease i =>
      match leases p !! i with
      | Some lease =>
          let '(lease', reg') := lease_release lease (reg p) in
          PoolSys reg' (<[i := lease']> (leases p))
      | None => p
      end
  | PBackendChange i b => PoolSys (alter (with_provider b) i (reg p)) (leases p)
  | PHealth i check => PoolSys (alter (refresh_health check) i (reg p)) (leases p)
  end.

Definition pool_run (entries : list BackendEntry) (ls : list pool_label) : pool_sys :=
  fold_left (fun p l => pool_exec l p) ls (PoolSys (init entries) []).

(** Live leases on entry [i]. *)
Definition live_on (i : nat) (ls : list RegistryLease) : Z :=
  Z.of_nat (length (filter (fun l => released l = false ∧ entry l = i) ls)).

Definition pool_inv (p : pool_sys) : Prop :=
  ∀ i e, reg p !! i = Some e →
    order e = i ∧ in_flight e = live_on i (leases p) ∧ in_flight e <= Z.max 0 (max_in_flight e).

Lemma live_on_snoc i ls l :
  live_on i (ls ++ [l]) =
  live_on i ls + (if decide (released l = false ∧ entry l = i) then 1 else 0).
Proof.
  unfold live_on. rewrite filter_app, length_app, filter_cons. case_decide; simpl; lia.
Qed.

Lemma live_on_insert i ls k l l' :
  ls !! k = Some l →
  live_on i (<[k := l']> ls) =
  live_on i ls - (if decide (released l = false ∧ entry l = i) then 1 else 0)
               + (if decide (released l' = false ∧ entry l' = i) then 1 else 0).
Proof.
  intros Hl. pose proof (lookup_lt_Some _ _ _ Hl) as Hlt.
  rewrite (insert_take_drop _ _ _ Hlt). rewrite <- (take_drop_middle _ _ _ Hl) at 3.
  unfold live_on. rewrite !filter_app, !length_app, !filter_cons.
  repeat case_decide; simpl; lia.
Qed.

Lemma live_on_release i ls k l d :
  ls !! k = Some l → released l = false →
  live_on i (<[k := Lease_ (entry l) true d]> ls) =
  live_on i ls - (if decide (entry l = i) then 1 else 0).
Proof.
  intros Hl Hr. rewrite (live_on_insert _ _ _ _ _ Hl).
  repeat case_decide; simpl in *; destruct_and?; try lia; exfalso; tauto.
Qed.

Lemma pool_inv_init entries : Forall (fun e => in_flight e = 0) entries →
  pool_inv (PoolSys (init entries) []).
Proof.
  intros H i e. unfold init. simpl. rewrite list_lookup_imap.
  destruct (entries !! i) as [x|] eqn:E; simpl; intros; simplify_eq. simpl.
  rewrite Forall_lookup in H. rewrite (H _ _ E). unfold live_on. simpl. lia.
Qed.

Lemma pool_inv_alter f i p :
  (∀ e, order (f e) = order e ∧ in_flight (f e) = in_flight e ∧
        max_in_flight (f e) = max_in_flight e) →
  pool_inv p → pool_inv (PoolSys (alter f i (reg p)) (leases p)).
Proof.
  intros Hf Hp k e. simpl. rewrite list_lookup_alter. case_decide; [|apply Hp]. subst.
  intros (x & E & ->)%fmap_Some. destruct (Hf x) as (-> & -> & ->). by apply Hp.
Qed.

Lemma pool_inv_acquire pk allowed model features p lease reg' :
  pool_inv p → acquire pk allowed model features (reg p) = Ok (lease, reg') →
  pool_inv (PoolSys reg' (leases p ++ [lease])).
Proof.
  intros Hp. unfold acquire.
  destruct (select_detailed _ _ _ _ _) as [[[[x r] t] n]|] eqn:E; [|repeat case_match; done].
  intros; simplify_eq.
  destruct (select_detailed_Some _ _ _ _ _ _ _ _ _ E) as ((Hin & _ & _ & _ & Hc) & _).
  apply list_elem_of_lookup in Hin as [j Hj]. destruct (Hp _ _ Hj) as (Ho & Hf & Hm).
  unfold has_capacity in Hc. unfold bump. intros k e. simpl.
  rewrite live_on_snoc. simpl. rewrite list_lookup_alter, Ho.
  case_decide as Hk; subst.
  - rewrite Hj. simpl. intros [= <-]. simpl. rewrite decide_True by done. lia.
  - intros Hek. destruct (Hp _ _ Hek) as (? & ? & ?). rewrite decide_False by naive_solver. lia.
Qed.

Lemma pool_inv_release i lease p :
  pool_inv p → leases p !! i = Some lease →
  pool_inv (pool_exec (PRelease i) p).
Proof.
  intros Hp Hl. simpl. rewrite Hl. unfold lease_release.
  destruct (released lease) eqn:R; simpl; [by rewrite list_insert_id by done; destruct p|].
  intros k e. simpl. rewrite (live_on_release _ _ _ _ _ Hl R).
  unfold release_entry. rewrite list_lookup_alter. case_decide as Hk; subst.
  - intros (x & E & ->)%fmap_Some.
    destruct (Hp _ _ E) as (Ho & Hf & Hm).
    assert (0 < live_on (entry lease) (leases p)).
    { unfold live_on. destruct (filter _ (leases p)) eqn:F; [|simpl; lia].
      exfalso. eapply (filter_nil_not_elem_of _ _ lease F); [done|].
      apply list_elem_of_lookup. eauto. }
    case_match; simpl; lia.
  - intros Hek. destruct (Hp _ _ Hek) as (? & ? & ?). lia.
Qed.

Lemma pool_inv_exec l p : pool_inv p → pool_inv (pool_exec l p).
Proof.
  intros Hp. destruct l as [pk al m fs|i|i b|i c].
  - simpl. destruct (acquire pk al m fs (reg p)) as [[lease reg']|] eqn:E; [|done].
    by eapply pool_inv_acquire.
  - destruct (leases p !! i) eqn:L; [by eapply pool_inv_release|]. simpl. by rewrite L.
  - by apply pool_inv_alter.
  - apply pool_inv_alter; [|done]. intros e. unfold refresh_health. repeat case_match; done.
Qed.

Lemma pool_inv_run entries ls :
  Forall (fun e => in_flight e = 0) entries → pool_inv (pool_run entries ls).
Proof.
  intros H%pool_inv_init. unfold pool_run. revert H.
  generalize (PoolSys (init entries) []) as p.
  induction ls as [|l ls IH]; simpl; intros p Hp; [done|]. apply IH. by apply pool_inv_exec.
Qed.

(** In-flight accounting: after any sequence of placements, lease releases (repeated
    ones included), backend reloads and health probes, each backend's in-flight counter
    is exactly the number of unreleased leases on it and stays within its limit. *)
Theorem in_flight_exact entries ls i e :
  Forall (fun e => in_flight e = 0) entries →
  reg (pool_run entries ls) !! i = Some e →
  in_flight e = live_on i (leases (pool_run entries ls)) ∧
  0 <= in_flight e <= Z.max 0 (max_in_flight e).
Proof.
  intros H0 He. destruct (pool_inv_run entries ls H0 i e He) as (_ & Hf & Hm).
  split; [done|]. unfold live_on in Hf. lia.
Qed.

(** Prefix affinity is sticky: as long as the ready, prefix-caching entries of the
    primary tier stay the same and their common target has room, requests with the same
    key go to the same backend, whatever else the pool is doing. *)
Theorem affinity_sticky key allowed model features reg1 reg2 t :
  str_true key = true →
  let capable reg := sort_by_order (List.filter affine (tier_pool allowed model features primary reg)) in
  map order (capable reg1) = map order (capable reg2) →
  affinity_target key (capable reg1) = Some t → has_capacity t = true →
  (∀ u, affinity_target key (capable reg2) = Some u → has_capacity u = true) →
  ∃ e1 e2, select (Some key) allowed model features reg1 = Some e1 ∧
           select (Some key) allowed model features reg2 = Some e2 ∧
           order e1 = order e2 ∧ order e1 = order t.
Proof.
  intros Hk capable Hsame Ht Hc Hc2.
  assert (∀ rg u, affinity_target key (capable rg) = Some u → has_capacity u = true →
                  select (Some key) allowed model features rg = Some u) as Hsel.
  { intros rg u Hu Hcu. unfold select, select_detailed, pick. rewrite Hk.
    fold (capable rg). destruct (capable rg) as [|c cs] eqn:E.
    - unfold affinity_target in Hu. rewrite nth_error_nil in Hu. done.
    - by rewrite Hu, Hcu. }
  assert (∃ u, affinity_target key (capable reg2) = Some u ∧ order u = order t) as (u & Hu & Ho).
  { unfold affinity_target in *. assert (length (capable reg1) = length (capable reg2)) as HL
      by (rewrite <- (length_map order), Hsame; apply length_map).
    rewrite <- HL. set (i := Z.to_nat _) in *.
    pose proof (nth_error_map order i (capable reg1)) as H1.
    pose proof (nth_error_map order i (capable reg2)) as H2.
    rewrite Hsame, H2, Ht in H1. simpl in H1.
    destruct (nth_error (capable reg2) i) as [u|]; [|done]. exists u.
    simpl in H1. by simplify_eq. }
  exists t, u. split_and!; [by apply Hsel|apply Hsel; auto|done|done].
Qed.

(** *** Witnesses *)

Definition demo_entry (n k m : string) (limit : Z) (cache structured spills : bool) : BackendEntry :=
  Entry n k (negb spills) (Some (Backend READY (Caps m 4096 structured false)))
        limit cache 0 0 true 0 0 spills spills (Some m).
(** A local llama.cpp, two vLLM workers and an external spillover provider. *)
Definition demo_pool : list BackendEntry :=
  init [demo_entry "local" "llamacpp" "llama" 1 false true false;
        demo_entry "vllm-a" "remote_vllm" "llama" 2 true false false;
        demo_entry "vllm-b" "remote_vllm" "llama" 2 true false false;
        demo_entry "ext" "external" "llama" 4 false true true].
Definition nth_pool (i : nat) : BackendEntry := nth i demo_pool (demo_entry "" "" "" 0 false false false).

Lemma select_sound_witness :
  select None None (Some "llama") [structured_output] demo_pool = Some (nth_pool 0) ∧
  is_ready (nth_pool 0) = true.
Proof.
  split; [reflexivity|].
  apply (select_sound None None (Some "llama") [structured_output] demo_pool (nth_pool 0)).
  reflexivity.
Defined.

Lemma select_least_busy_witness :
  in_flight (nth_pool 0) < in_flight (nth_pool 1) ∨
  (in_flight (nth_pool 0) = in_flight (nth_pool 1) ∧
   (order (nth_pool 0) <= order (nth_pool 1))%nat).
Proof.
  apply (select_least_busy None None (Some "llama") [] demo_pool
           (nth_pool 0) least_busy primary 3 (nth_pool 1)).
  - reflexivity.
  - discriminate.
  - unfold can_serve. split_and!; try reflexivity. apply list_elem_of_lookup. by exists 1%nat.
  - reflexivity.
Defined.

(** Full local backend: structured output is only available there and in spillover. *)
Definition busy_pool : list BackendEntry := [with_in_flight 1 (nth_pool 0)].
Lemma acquire_error_witness :
  acquire None None (Some "llama") [] busy_pool = Err NoBackendBusy ∧
  ∃ e, e ∈ busy_pool ∧ eligible (Some "llama") [] e = true.
Proof.
  split; [reflexivity|].
  destruct (acquire_error None None (Some "llama") [] busy_pool NoBackendBusy eq_refl)
    as [(e & (He & _) & Hel) _].
  exists e. split; [exact He|exact Hel].
Defined.

Lemma in_flight_exact_witness :
  let p := pool_run demo_pool [PAcquire None None (Some "llama") [];
                               PAcquire None None None []; PRelease 0; PRelease 0] in
  ∃ e, reg p !! 1%nat = Some e ∧ in_flight e = 1 ∧ in_flight e = live_on 1 (leases p).
Proof.
  eexists. split; [reflexivity|]. split; [reflexivity|].
  apply (in_flight_exact demo_pool
           [PAcquire None None (Some "llama") []; PAcquire None None None []; PRelease 0; PRelease 0] 1).
  - repeat constructor.
  - reflexivity.
Defined.

Lemma affinity_sticky_witness :
  ∃ e1 e2, select (Some "You are a helpful assistant") None (Some "llama") [] demo_pool = Some e1 ∧
           select (Some "You are a helpful assistant") None (Some "llama") []
                  (bump 1 0 demo_pool) = Some e2 ∧
           order e1 = order e2.
Proof.
  destruct (affinity_sticky "You are a helpful assistant" None (Some "llama") []
              demo_pool (bump 1 0 demo_pool)
              (default (nth_pool 0) (affinity_target "You are a helpful assistant"
                 [nth_pool 1; nth_pool 2])))
    as (e1 & e2 & H1 & H2 & H3 & _).
  - reflexivity.
  - reflexivity.
  - vm_compute. reflexivity.
  - vm_compute. reflexivity.
  - intros u H. vm_compute in H. injection H as <-. reflexivity.
  - exists e1, e2. split_and!; [exact H1|exact H2|exact H3].
Defined.

End BackendRegistry.
