(* ===== verification/Routing.v ===== *)
(** * Virtual models and route policies ([engine/inference/router.py])

    [Module Router] resolves a client-facing model name to placement scopes of the
    backend registry: physical models, [route] and [cascade] virtual models, and the
    opt-in workload preference.  [acquire] reserves a slot, [plan] explains what
    [acquire] would do without reserving; the two are proved to agree. *)

From S2P Require Import Prelude Placement.

Module Router.
Import BackendRegistry.

Record VirtualModel := VModel {
  vm_name : string;
  vm_policy : Policy;
  vm_steps : list (list string)
}.

Record WorkloadRoutingRule := Rule {
  rule_name : string;
  rule_kind : string;
  rule_model : string;
  preferred_backends : list string;
  rule_enabled : bool
}.

Record t := Mk {
  vmodels : list (string * VirtualModel);
  workload_rules : list WorkloadRoutingRule;
  workload_routing_enabled : bool
}.

(** [Router.__init__] *)
Definition init (vms : list VirtualModel) (rules : list WorkloadRoutingRule) (on : bool) : t :=
  Mk (dict_of (map (fun vm => (vm_name vm, vm)) vms)) rules on.

Definition is_virtual (r : t) (name : string) : bool :=
  match dict_get name (vmodels r) with Some _ => true | None => false end.

(** [known_model] *)
Definition known_model (r : t) (reg : list BackendEntry) (name : string) : bool :=
  is_virtual r name || bool_decide (name ∈ known_models reg).

(** [model_names] *)
Definition model_names (r : t) (reg : list BackendEntry) : list string :=
  sort_str (elements (known_models reg)) ++ map fst (vmodels r).

(** [_scopes]; [self._vmodels[name]] raises [KeyError] for a name that is not virtual,
    the callers check first. *)
Definition scopes (r : t) (name : string) : list (list string) :=
  match dict_get name (vmodels r) with Some vm => vm_steps vm | None => [] end.

Definition policy_of (r : t) (name : string) : Policy :=
  match dict_get name (vmodels r) with Some vm => vm_policy vm | None => base end.

(** [_matching_workload_rule] *)
Definition matching_workload_rule (r : t) (name : string) (features : list feature)
  : option WorkloadRoutingRule :=
  if negb (workload_routing_enabled r) || is_virtual r name then None
  else find (fun ru => rule_enabled ru &&
                       bool_decide (rule_kind ru = "structured_output_preference") &&
                       bool_decide (rule_model ru = name) &&
                       bool_decide (structured_output ∈ features)) (workload_rules r).

(** [_with_policy] *)
Definition with_policy (p : Policy) (step : option nat) (escalated : bool) (l : RegistryLease)
  : RegistryLease :=
  match decision l with
  | None => l
  | Some d =>
      let fb := if escalated then cascade_escalation :: d_fallbacks d else d_fallbacks d in
      Lease_ (entry l) (released l)
        (Some (Decision_ (d_backend d) (d_engine d) (d_tier d) (d_reason d) fb p step
                         (d_workload_rule d)))
  end.

(** [_with_workload_rule] *)
Definition with_workload_rule (n : string) (l : RegistryLease) : RegistryLease :=
  match decision l with
  | None => l
  | Some d =>
      Lease_ (entry l) (released l)
        (Some (Decision_ (d_backend d) (d_engine d) (d_tier d) (d_reason d) (d_fallbacks d)
                         (d_policy d) (d_step d) (Some n)))
  end.

Section Acquire.
Context (r : t) (name : string) (pk : option string) (features : list feature).

(** The loop over a virtual model's steps, from step [i] on. *)
Fixpoint cascade_loop (policy : Policy) (i : nat) (steps : list (list string))
  (saw_busy saw_feature : bool) (reg : list BackendEntry)
  : result placement_error (RegistryLease * list BackendEntry) :=
  match steps with
  | [] =>
      if saw_busy then Err NoBackendBusy
      else if saw_feature then Err (FeatureUnsupported features (Some name))
      else Err NoBackendUnloaded
  | scope :: steps' =>
      match BackendRegistry.acquire pk (Some scope) None features reg with
      | Ok (l, reg') => Ok (with_policy policy (Some i) (Nat.ltb 0 i) l, reg')
      | Err NoBackendBusy => cascade_loop policy (S i) steps' true saw_feature reg
      | Err NoBackendUnloaded => cascade_loop policy (S i) steps' saw_busy saw_feature reg
      | Err (FeatureUnsupported _ _) => cascade_loop policy (S i) steps' saw_busy true reg
      end
  end.

(** The placement without a preference. *)
Definition acquire_baseline (reg : list BackendEntry)
  : result placement_error (RegistryLease * list BackendEntry) :=
  if negb (is_virtual r name) then
    '(l, reg') ← BackendRegistry.acquire pk None (Some name) features reg;
    Ok (with_policy base None false l, reg')
  else cascade_loop (policy_of r name) 0 (scopes r name) false false reg.

(** [Router.acquire] *)
Definition acquire (reg : list BackendEntry)
  : result placement_error (RegistryLease * list BackendEntry) :=
  match matching_workload_rule r name features with
  | Some rule =>
      match BackendRegistry.acquire pk (Some (preferred_backends rule)) (Some name) features reg with
      | Ok (l, reg') =>
          Ok (with_workload_rule (rule_name rule) (with_policy base None false l), reg')
      | Err _ => acquire_baseline reg
      end
  | None => acquire_baseline reg
  end.
End Acquire.

(** ** The dry run *)

(** [_candidate_row]; [row_state = None] is the string ["unloaded"] of a missing
    backend. *)
Record candidate_row := CandidateRow {
  row_name : string;
  row_state : option BackendState;
  row_available : bool;
  row_in_flight : Z;
  row_has_capacity : bool
}.
Definition candidate_row_of (e : BackendEntry) : candidate_row :=
  CandidateRow (BackendRegistry.name e) (state <$> provider e) (is_ready e) (in_flight e)
               (has_capacity e).

(** One row of [plan]'s [steps]; [targets = None] is ["*all*"]. *)
Record plan_step := PlanStep {
  targets : option (list string);
  step_choice : option string;
  candidates : list candidate_row
}.

Record Plan := PlanOut {
  p_policy : Policy;
  p_known : bool;
  p_chosen : option string;
  p_chosen_step : option nat;
  p_steps : list plan_step;
  p_rule : option string;
  p_rule_targets : option (list string)
}.

Section PlanDef.
Context (pk : option string) (model : option string) (features : list feature).

(** The loop of [plan] from scope number [i] on. *)
Fixpoint plan_loop (i : nat) (scs : list (option (list string)))
  (chosen : option string) (chosen_step : option nat) (reg : list BackendEntry)
  : option string * option nat * list plan_step :=
  match scs with
  | [] => (chosen, chosen_step, [])
  | sc :: scs' =>
      let ent := match chosen with
                 | None => BackendRegistry.select pk sc model features reg
                 | Some _ => None
                 end in
      let cands := map candidate_row_of
                     (List.filter (fun e => in_scope sc e && eligible model features e) reg) in
      let choice := BackendRegistry.name <$> ent in
      let '(chosen', step') :=
        match chosen, choice with
        | None, Some n => (Some n, Some i)
        | c, _ => (c, chosen_step)
        end in
      let '(c, s, rows) := plan_loop (S i) scs' chosen' step' reg in
      (c, s, PlanStep ((fun names => sort_str (remove_dups names)) <$> sc) choice cands :: rows)
  end.
End PlanDef.

(** [Router.plan] *)
Definition plan (r : t) (name : string) (pk : option string) (features : list feature)
  (reg : list BackendEntry) : Plan :=
  let rule := matching_workload_rule r name features in
  let virtual := is_virtual r name in
  let policy := if virtual then policy_of r name else base in
  let model := if virtual then None else Some name in
  let scs := match rule with
             | Some ru => [Some (preferred_backends ru); None]
             | None => if virtual then map Some (scopes r name) else [None]
             end in
  let '(chosen, step, rows) := plan_loop pk model features 0 scs None None reg in
  PlanOut policy (known_model r reg name) chosen step rows
          (rule_name <$> rule) (preferred_backends <$> rule).

(** ** Registry facts in the router's terms *)

Lemma acquire_select pk sc m fs reg :
  match BackendRegistry.acquire pk sc m fs reg with
  | Ok (l, reg') => ∃ e d, BackendRegistry.select pk sc m fs reg = Some e ∧
                    decision l = Some d ∧ d_backend d = BackendRegistry.name e ∧
                    entry l = order e ∧ reg' = bump 1 (order e) reg ∧
                    released l = false ∧ d_workload_rule d = None ∧ d_step d = None
  | Err _ => BackendRegistry.select pk sc m fs reg = None
  end.
Proof.
  unfold BackendRegistry.acquire, select.
  destruct (select_detailed _ _ _ _ _) as [[[[e re] ti] n]|] eqn:E.
  - by eexists e, _.
  - by repeat case_match.
Qed.

Lemma plan_loop_chosen pk m fs i scs n st reg :
  fst (plan_loop pk m fs i scs (Some n) st reg) = (Some n, st).
Proof.
  revert i. induction scs as [|sc scs IH]; intros i; simpl; [done|].
  specialize (IH (S i)). by destruct (plan_loop _ _ _ _ _ _ _ _) as [[? ?] ?].
Qed.

(** The name and the step a lease's decision reports. *)
Definition lease_backend (l : RegistryLease) : option string := d_backend <$> decision l.

Lemma with_policy_backend p st e l : lease_backend (with_policy p st e l) = lease_backend l.
Proof. unfold with_policy, lease_backend. by destruct (decision l) eqn:E; simpl; rewrite ?E. Qed.
Lemma with_rule_backend n l : lease_backend (with_workload_rule n l) = lease_backend l.
Proof. unfold with_workload_rule, lease_backend. by destruct (decision l) eqn:E; simpl; rewrite ?E. Qed.

Definition lease_step (l : RegistryLease) : option nat := decision l ≫= d_step.
Definition lease_rule (l : RegistryLease) : option string := decision l ≫= d_workload_rule.

Lemma plan_loop_cascade name pk fs policy i steps sb sf reg :
  fst (plan_loop pk None fs i (map Some steps) None None reg) =
  match cascade_loop name pk fs policy i steps sb sf reg with
  | Ok (l, _) => (lease_backend l, lease_step l)
  | Err _ => (None, None)
  end.
Proof.
  revert i sb sf. induction steps as [|sc steps IH]; intros i sb sf; simpl.
  { by repeat case_match. }
  pose proof (acquire_select pk (Some sc) None fs reg) as H.
  destruct (BackendRegistry.acquire _ _ _ _ _) as [[l reg']|err].
  - destruct H as (e & d & -> & Hd & Hb & _). simpl.
    pose proof (plan_loop_chosen pk None fs (S i) (map Some steps) (BackendRegistry.name e)
                  (Some i) reg) as Hc.
    destruct (plan_loop _ _ _ _ _ _ _ _) as [[c st] rows]. simpl in *. simplify_eq.
    rewrite with_policy_backend. unfold lease_step, with_policy, lease_backend.
    rewrite Hd. simpl. by rewrite Hb.
  - rewrite H. simpl.
    destruct err; (match goal with |- context [cascade_loop _ _ _ _ _ _ ?b ?f _] =>
      specialize (IH (S i) b f) end); rewrite <- IH;
      by destruct (plan_loop _ _ _ _ _ _ _ _) as [[? ?] ?].
Qed.

Lemma plan_eq r name pk fs reg :
  let '(c, s) := fst (plan_loop pk (if is_virtual r name then None else Some name) fs 0
      (match matching_workload_rule r name fs with
       | Some ru => [Some (preferred_backends ru); None]
       | None => if is_virtual r name then map Some (scopes r name) else [None]
       end) None None reg) in
  p_chosen (plan r name pk fs reg) = c ∧ p_chosen_step (plan r name pk fs reg) = s.
Proof. unfold plan. by destruct (plan_loop _ _ _ _ _ _ _ _) as [[c s] rows]. Qed.

Lemma rule_not_virtual r name fs ru :
  matching_workload_rule r name fs = Some ru → is_virtual r name = false.
Proof.
  unfold matching_workload_rule. destruct (is_virtual r name); [|done].
  by rewrite orb_true_r.
Qed.

Lemma cascade_decided name pk fs policy i steps sb sf reg :
  match cascade_loop name pk fs policy i steps sb sf reg with
  | Ok (l, _) => is_Some (lease_backend l)
  | Err _ => True
  end.
Proof.
  revert i sb sf. induction steps as [|sc steps IH]; intros i sb sf; simpl.
  { by repeat case_match. }
  pose proof (acquire_select pk (Some sc) None fs reg) as H.
  destruct (BackendRegistry.acquire _ _ _ _ _) as [[l reg']|err].
  - destruct H as (e & d & _ & Hd & _). rewrite with_policy_backend.
    unfold lease_backend. rewrite Hd. by eexists.
  - destruct err; apply IH.
Qed.

(** C20. The dry run tells the truth: [plan] reports a chosen backend exactly when
    [acquire], run in the same state, succeeds, and it is the backend [acquire] leases;
    the step [plan] reports is the cascade step the lease records, and with a matching
    workload preference step 0 means the preference itself placed the request. *)
Theorem plan_predicts_acquire r name pk fs reg :
  match acquire r name pk fs reg with
  | Ok (l, _) =>
      p_chosen (plan r name pk fs reg) = lease_backend l ∧
      is_Some (lease_backend l) ∧
      (is_virtual r name = true → p_chosen_step (plan r name pk fs reg) = lease_step l) ∧
      (is_Some (matching_workload_rule r name fs) →
       p_chosen_step (plan r name pk fs reg) =
         Some (if bool_decide (lease_rule l = None) then 1%nat else 0%nat))
  | Err _ => p_chosen (plan r name pk fs reg) = None
  end.
Proof.
  pose proof (plan_eq r name pk fs reg) as Hp.
  unfold acquire, acquire_baseline.
  destruct (matching_workload_rule r name fs) as [ru|] eqn:Hr.
  - pose proof (rule_not_virtual _ _ _ _ Hr) as Hv. rewrite Hv in *. simpl in *.
    pose proof (acquire_select pk (Some (preferred_backends ru)) (Some name) fs reg) as H1.
    destruct (BackendRegistry.acquire pk (Some _) _ _ _) as [[l reg']|err].
    + destruct H1 as (e & d & Hs & Hd & Hb & _). rewrite Hs in Hp. simpl in Hp.
      destruct Hp as [-> ->]. rewrite with_rule_backend, with_policy_backend.
      unfold lease_rule, with_workload_rule, with_policy, lease_backend. rewrite Hd. simpl.
      split_and!; [by rewrite Hb|by eexists|done|done].
    + rewrite H1 in Hp. simpl in Hp.
      pose proof (acquire_select pk None (Some name) fs reg) as H2.
      destruct (BackendRegistry.acquire pk None _ _ _) as [[l reg']|err2]; simpl.
      * destruct H2 as (e & d & Hs & Hd & Hb & _ & _ & _ & Hrule & _). rewrite Hs in Hp.
        simpl in Hp. destruct Hp as [-> ->]. rewrite with_policy_backend.
        unfold lease_rule, with_policy, lease_backend. rewrite Hd. simpl. rewrite Hrule.
        split_and!; [by rewrite Hb|by eexists|done|done].
      * rewrite H2 in Hp. by destruct Hp as [-> _].
  - destruct (is_virtual r name) eqn:Hv; simpl.
    + rewrite (plan_loop_cascade name pk fs (policy_of r name) 0 (scopes r name) false false reg) in Hp.
      pose proof (cascade_decided name pk fs (policy_of r name) 0 (scopes r name) false false reg) as Hc.
      destruct (cascade_loop _ _ _ _ _ _ _ _ _) as [[l reg']|err];
        destruct Hp as [Hp1 Hp2]; rewrite Hp1, ?Hp2; [|done].
      split_and!; [done|done|done|by intros [? ?]].
    + simpl in Hp. pose proof (acquire_select pk None (Some name) fs reg) as H2.
      destruct (BackendRegistry.acquire pk None _ _ _) as [[l reg']|err2]; simpl.
      * destruct H2 as (e & d & Hs & Hd & Hb & _). rewrite Hs in Hp. simpl in Hp.
        destruct Hp as [-> ->]. rewrite with_policy_backend.
        unfold lease_backend. rewrite Hd. simpl.
        split_and!; [by rewrite Hb|by eexists|done|by intros [? ?]].
      * rewrite H2 in Hp. by destruct Hp as [-> _].
Qed.

(** ** Cascades *)

Lemma cascade_first name pk fs policy i steps sb sf reg l reg' :
  cascade_loop name pk fs policy i steps sb sf reg = Ok (l, reg') →
  ∃ k sc e, steps !! k = Some sc ∧ lease_step l = Some (i + k)%nat ∧
    can_serve (Some sc) None fs reg e ∧ entry l = order e ∧ reg' = bump 1 (order e) reg ∧
    (∀ j sc', (j < k)%nat → steps !! j = Some sc' → ∀ x, ¬ can_serve (Some sc') None fs reg x).
Proof.
  revert i sb sf. induction steps as [|sc steps IH]; intros i sb sf; simpl.
  { by repeat case_match. }
  pose proof (acquire_select pk (Some sc) None fs reg) as H.
  destruct (BackendRegistry.acquire _ _ _ _ _) as [[l0 reg0]|err].
  - intros; simplify_eq. destruct H as (e & d & Hs & Hd & _ & He & Hreg & _).
    exists 0%nat, sc, e. split_and!; [done| | | |done|intros; lia].
    + unfold lease_step, with_policy. rewrite Hd. simpl. f_equal. lia.
    + by apply select_can_serve in Hs.
    + unfold with_policy. by rewrite Hd.
  - intros Hl. assert (∃ sb' sf', cascade_loop name pk fs policy (S i) steps sb' sf' reg = Ok (l, reg'))
      as (sb' & sf' & Hl') by (destruct err; eauto).
    destruct (IH _ _ _ Hl') as (k & sc' & e & Hk & Hst & Hcs & He & Hreg & Hb).
    exists (S k), sc', e. split_and!; auto.
    + rewrite Hst. f_equal. lia.
    + intros [|j] sc'' Hj Hsc; simpl in *.
      * simplify_eq. by eapply select_None_none.
      * eapply Hb; [|done]. lia.
Qed.

(** Cascades escalate in order: a virtual model's lease comes from the first
    configured step that has a backend able to take the request; every earlier step had
    none, and the lease records that step. *)
Theorem cascade_takes_first_step r name pk fs reg l reg' :
  is_virtual r name = true →
  acquire r name pk fs reg = Ok (l, reg') →
  ∃ k sc e, scopes r name !! k = Some sc ∧ lease_step l = Some k ∧
    can_serve (Some sc) None fs reg e ∧ entry l = order e ∧ reg' = bump 1 (order e) reg ∧
    (∀ j sc', (j < k)%nat → scopes r name !! j = Some sc' →
              ∀ x, ¬ can_serve (Some sc') None fs reg x).
Proof.
  intros Hv. unfold acquire, acquire_baseline.
  destruct (matching_workload_rule r name fs) as [ru|] eqn:Hr.
  { apply rule_not_virtual in Hr. congruence. }
  rewrite Hv. simpl. intros H%cascade_first. simpl in H. exact H.
Qed.

(** The failures a run of the cascade has seen. *)
Definition step_error pk fs reg (sc : list string) : option placement_error :=
  match BackendRegistry.acquire pk (Some sc) None fs reg with Ok _ => None | Err e => Some e end.

Lemma cascade_error name pk fs policy i steps sb sf reg e :
  cascade_loop name pk fs policy i steps sb sf reg = Err e →
  Forall (fun sc => is_Some (step_error pk fs reg sc)) steps ∧
  e = (if sb || existsb (fun sc => match step_error pk fs reg sc with
                                   | Some NoBackendBusy => true | _ => false end) steps
       then NoBackendBusy
       else if sf || existsb (fun sc => match step_error pk fs reg sc with
                                        | Some (FeatureUnsupported _ _) => true | _ => false end) steps
       then FeatureUnsupported fs (Some name) else NoBackendUnloaded).
Proof.
  revert i sb sf. induction steps as [|sc steps IH]; intros i sb sf; simpl.
  { rewrite !orb_false_r. by repeat case_match; intros; simplify_eq. }
  destruct (BackendRegistry.acquire _ _ _ _ _) as [[? ?]|err] eqn:E; [done|].
  assert (step_error pk fs reg sc = Some err) as Hsc by (unfold step_error; by rewrite E).
  rewrite Hsc. intros Hc.
  destruct err; destruct (IH _ _ _ Hc) as [IH1 ->]; (split; [by constructor|]); simpl;
    destruct sb, sf; simpl; by rewrite ?orb_true_r.
Qed.

(** The most actionable failure wins: when no step of a virtual model takes the
    request the error is [busy] if some step was merely full, otherwise
    [FeatureUnsupportedError] if some step lacked only the feature, otherwise
    [unloaded]. *)
Theorem cascade_error_priority r name pk fs reg e :
  is_virtual r name = true →
  acquire r name pk fs reg = Err e →
  e = (if existsb (fun sc => match step_error pk fs reg sc with
                             | Some NoBackendBusy => true | _ => false end) (scopes r name)
       then NoBackendBusy
       else if existsb (fun sc => match step_error pk fs reg sc with
                                  | Some (FeatureUnsupported _ _) => true | _ => false end)
                       (scopes r name)
       then FeatureUnsupported fs (Some name) else NoBackendUnloaded).
Proof.
  intros Hv. unfold acquire, acquire_baseline.
  destruct (matching_workload_rule r name fs) as [ru|] eqn:Hr.
  { apply rule_not_virtual in Hr. congruence. }
  rewrite Hv. simpl. by intros [_ ->]%cascade_error.
Qed.

(** *** Witnesses *)

(** A cascade: the local backend first, then the two vLLM workers. *)
Definition demo_router : t :=
  init [VModel "auto" cascade [["local"]; ["vllm-a"; "vllm-b"]]]
       [Rule "prefer-local" "structured_output_preference" "llama" ["local"] true] true.
(** The pool with the local backend full. *)
Definition full_local : list BackendEntry := bump 1 0 demo_pool.

Lemma cascade_takes_first_step_witness :
  ∃ l reg', acquire demo_router "auto" None [] full_local = Ok (l, reg') ∧ lease_step l = Some 1%nat.
Proof.
  destruct (acquire demo_router "auto" None [] full_local) as [[l reg']|e] eqn:E;
    [|vm_compute in E; discriminate E].
  exists l, reg'. split; [reflexivity|].
  destruct (cascade_takes_first_step demo_router "auto" None [] full_local l reg' eq_refl E)
    as (k & sc & e & Hk & Hs & _).
  vm_compute in E. injection E as <- _. reflexivity.
Defined.

(** The feature is only offered by the full local backend: saturation, not a request
    error. *)
Lemma cascade_error_priority_witness :
  acquire demo_router "auto" None [structured_output] full_local = Err NoBackendBusy.
Proof.
  destruct (acquire demo_router "auto" None [structured_output] full_local) as [[l reg']|e] eqn:E;
    [vm_compute in E; discriminate E|].
  rewrite (cascade_error_priority demo_router "auto" None [structured_output] full_local e eq_refl E).
  vm_compute. reflexivity.
Defined.

End Router.
