(* ===== verification/Store.v ===== *)
(** * The engine's database

    The tables of the migrations under [engine/store/migrations/] that the gateway,
    the key store, the usage store and the billing store share.  Columns that may be
    NULL are options; timestamps stored as text are strings, those stored as REAL are
    rationals; a JSON column is the value it encodes. *)

From S2P Require Import Prelude.

Module Db.

(** [api_keys] (0002, 0006) *)
Record api_key := ApiKey {
  k_id : string;
  key_hash : string;
  prefix : string;
  label : option string;
  created_at : string;
  last_used_at : option string;
  revoked_at : option string;
  k_client : option string;
  k_status : string
}.

(** [usage_events] (0002) *)
Record usage_event := UsageEvent {
  u_ts : Q;
  u_key : option string;
  u_request : string;
  u_endpoint : string;
  u_model : option string;
  u_prompt : Z;
  u_completion : Z;
  u_cu : Q;
  u_status : option Z
}.

(** [plans] (0006) *)
Record plan := Plan {
  pl_id : string;
  pl_name : string;
  pl_quota_5h : Q;
  pl_quota_weekly : Q;
  pl_rate : option Z;
  pl_models : option (list string)
}.

(** [clients] (0006) *)
Record client := Client {
  c_id : string;
  c_external_ref : option string;
  c_email : option string;
  c_status : string;
  c_created_at : string
}.

(** [subscriptions] (0006) *)
Record subscription := Subscription {
  s_id : string;
  s_client : string;
  s_plan : option string;
  s_provider : string;
  s_provider_sub : string;
  s_status : string;
  s_period_end : option string;
  s_updated_at : string
}.

(** [webhook_events] (0006) *)
Record webhook_event := WebhookEvent {
  we_provider : string;
  we_event_id : string;
  we_type : option string;
  we_received_at : string;
  we_processed_at : option string;
  we_result : option string
}.

Record t := Mk {
  api_keys : list api_key;
  usage_events : list usage_event;
  plans : list plan;
  clients : list client;
  subscriptions : list subscription;
  webhook_events : list webhook_event
}.

Definition with_keys (x : list api_key) (d : t) : t :=
  Mk x (usage_events d) (plans d) (clients d) (subscriptions d) (webhook_events d).
Definition with_usage (x : list usage_event) (d : t) : t :=
  Mk (api_keys d) x (plans d) (clients d) (subscriptions d) (webhook_events d).
Definition with_plans (x : list plan) (d : t) : t :=
  Mk (api_keys d) (usage_events d) x (clients d) (subscriptions d) (webhook_events d).
Definition with_clients (x : list client) (d : t) : t :=
  Mk (api_keys d) (usage_events d) (plans d) x (subscriptions d) (webhook_events d).
Definition with_subscriptions (x : list subscription) (d : t) : t :=
  Mk (api_keys d) (usage_events d) (plans d) (clients d) x (webhook_events d).
Definition with_webhook_events (x : list webhook_event) (d : t) : t :=
  Mk (api_keys d) (usage_events d) (plans d) (clients d) (subscriptions d) x.

Definition empty : t := Mk [] [] [] [] [] [].

(** The constraints of the schema: primary keys, UNIQUE columns and foreign keys
    ([PRAGMA foreign_keys=ON]). *)
Record wf (d : t) : Prop := {
  wf_key_id : NoDup (map k_id (api_keys d));
  wf_key_hash : NoDup (map key_hash (api_keys d));
  wf_plan_id : NoDup (map pl_id (plans d));
  wf_client_id : NoDup (map c_id (clients d));
  wf_client_ref : NoDup (omap c_external_ref (clients d));
  wf_sub_id : NoDup (map s_id (subscriptions d));
  wf_sub_provider : NoDup (map (fun s => (s_provider s, s_provider_sub s)) (subscriptions d));
  wf_event : NoDup (map (fun e => (we_provider e, we_event_id e)) (webhook_events d));
  wf_key_client : ∀ k c, k ∈ api_keys d → k_client k = Some c → c ∈ map c_id (clients d);
  wf_sub_client : ∀ s, s ∈ subscriptions d → s_client s ∈ map c_id (clients d);
  wf_sub_plan : ∀ s p, s ∈ subscriptions d → s_plan s = Some p → p ∈ map pl_id (plans d)
}.

Lemma wf_empty : wf empty.
Proof. split; simpl; try constructor; set_solver. Qed.

End Db.
