(* ===== verification/Quota.v ===== *)
(** * Compute-unit quota ([engine/quota/])

    [Module Windows] translates the window helpers, [Module ComputeModel] the cost
    model, [Module UsageStore] the [usage_events] table with its sums. *)

From S2P Require Import Prelude Sql Store.

Open Scope Z_scope.

Module Windows.

Definition WINDOW_5H_SECONDS : Z := 5 * 60 * 60.

(** [rolling_5h_start] *)
Definition rolling_5h_start (now : Q) : Q := (now - inject_Z WINDOW_5H_SECONDS)%Q.

(** [datetime.fromtimestamp(now, tz=UTC)] rounds to the nearest microsecond, ties to
    even; the instant is the resulting number of microseconds since the epoch. *)
Definition round_half_even (q : Q) : Z :=
  let f := Qfloor q in
  let r := (q - inject_Z f)%Q in
  if bool_decide (r < 1 # 2)%Q then f
  else if bool_decide ((1 # 2) < r)%Q then f + 1
  else if Z.even f then f else f + 1.
Definition microseconds (now : Q) : Z := round_half_even (now * 1000000)%Q.

(** The day number since the epoch (a Thursday, [weekday() = 3]). *)
Definition day_number (now : Q) : Z := microseconds now / 86400000000.
Definition weekday (day : Z) : Z := (day + 3) mod 7.

(** [week_start]: Monday 00:00 UTC of the current week, in epoch seconds. *)
Definition week_start (now : Q) : Q :=
  let d := day_number now in inject_Z ((d - weekday d) * 86400).

(** [week_reset] *)
Definition week_reset (now : Q) : Q := (week_start now + inject_Z (7 * 24 * 60 * 60))%Q.

Lemma round_half_even_bounds q :
  (inject_Z (round_half_even q) - (1 # 2) <= q /\ q <= inject_Z (round_half_even q) + (1 # 2))%Q.
Proof.
  unfold round_half_even.
  pose proof (Qfloor_le q). pose proof (Qlt_floor q) as H1.
  rewrite inject_Z_plus in H1. change (inject_Z 1) with 1%Q in H1.
  repeat (case_bool_decide || destruct (Z.even _)); rewrite ?inject_Z_plus;
    change (inject_Z 1) with 1%Q; split; lra.
Qed.

Lemma week_day_bounds d : d - weekday d <= d < d - weekday d + 7.
Proof. unfold weekday. pose proof (Z.mod_pos_bound (d + 3) 7). lia. Qed.

Lemma week_start_Z now :
  ∃ k, week_start now = inject_Z (k * 86400) ∧ (k + 3) mod 7 = 0 ∧
       k * 86400000000 <= microseconds now < (k + 7) * 86400000000.
Proof.
  exists (day_number now - weekday (day_number now)). split_and!; [done| | |].
  - unfold weekday.
    replace (day_number now - (day_number now + 3) mod 7 + 3)
      with (day_number now + 3 - (day_number now + 3) mod 7) by lia.
    rewrite Zminus_mod_idemp_r, Z.sub_diag. done.
  - pose proof (week_day_bounds (day_number now)).
    pose proof (Z.mul_div_le (microseconds now) 86400000000). unfold day_number in *. lia.
  - pose proof (week_day_bounds (day_number now)).
    pose proof (Z.mul_succ_div_gt (microseconds now) 86400000000). unfold day_number in *. lia.
Qed.

(** The weekly window is Monday-anchored and contains the instant it is computed for:
    its start is midnight UTC of a Monday, at most half a microsecond after [now] (the
    clock reading is rounded to microseconds), and [now] is before its reset, seven days
    later. *)
Theorem week_window now :
  (∃ day, week_start now = inject_Z (day * 86400) ∧ weekday day = 0) ∧
  (week_start now <= now + (1 # 2000000) /\ now < week_reset now)%Q.
Proof.
  destruct (week_start_Z now) as (k & Hk & Hm & H1 & H2). split; [by exists k|].
  unfold week_reset. rewrite Hk.
  destruct (round_half_even_bounds (now * 1000000)%Q) as [B1 B2].
  fold (microseconds now) in B1, B2.
  rewrite Zle_Qle in H1. assert (microseconds now <= (k + 7) * 86400000000 - 1) as H3 by lia.
  rewrite Zle_Qle in H3. push_inject.
  split; lra.
Qed.

(** The weekly window does not move with usage: any two instants of the same week
    (from its start to one microsecond before its reset) get the same window. *)
Theorem week_window_fixed t1 t2 :
  (week_start t1 <= t2)%Q → (t2 + (1 # 1000000) <= week_reset t1)%Q →
  week_start t2 = week_start t1 ∧ week_reset t2 = week_reset t1.
Proof.
  intros L1 L2. enough (week_start t2 = week_start t1) as H
    by (split; [done|unfold week_reset; by rewrite H]).
  destruct (week_start_Z t1) as (k & Hk & Hm & _).
  destruct (week_start_Z t2) as (j & Hj & Hn & B1 & B2).
  destruct (round_half_even_bounds (t2 * 1000000)%Q) as [R1 R2].
  fold (microseconds t2) in R1, R2.
  unfold week_reset in L2. rewrite Hk in *. rewrite Hj. do 2 f_equal.
  assert (k * 86400000000 - 1 < microseconds t2 < (k + 7) * 86400000000) as [C1 C2].
  { split; rewrite Zlt_Qlt; push_inject; lra. }
  clear -Hm Hn B1 B2 C1 C2. Z.div_mod_to_equations. lia.
Qed.

Lemma week_window_fixed_witness :
  week_start 1700000000 = week_start 1699833600 ∧ week_reset 1700000000 = week_reset 1699833600.
Proof.
  apply (week_window_fixed 1699833600 1700000000); vm_compute; discriminate.
Defined.

End Windows.

Module ComputeModel.

Record t := Mk { prompt_weight : Q; completion_weight : Q }.

(** [ComputeModel.actual] *)
Definition actual (m : t) (prompt_tokens completion_tokens : Z) (multiplier : Q) : Q :=
  ((inject_Z prompt_tokens * prompt_weight m + inject_Z completion_tokens * completion_weight m)
   * multiplier)%Q.

(** [ComputeModel.estimate] *)
Definition estimate (m : t) (prompt_tokens max_tokens : Z) (multiplier : Q) : Q :=
  actual m prompt_tokens max_tokens multiplier.

(** [estimate_prompt_tokens] *)
Definition estimate_prompt_tokens (text : string) : Z :=
  Z.max 1 (ceil (inject_Z (Z.of_nat (String.length text)) / 4)%Q).

End ComputeModel.

Module UsageStore.
Import Db.

(** [WindowUsage] *)
Record WindowUsage := Window { used : Q; limit : Q; reset_at : Q }.

(** [WindowUsage.remaining]; [None] is infinity. *)
Definition remaining (w : WindowUsage) : option Q :=
  if bool_decide (limit w <= 0)%Q then None else Some (qmax 0 (limit w - used w)).

(** [WindowUsage.would_exceed] *)
Definition would_exceed (w : WindowUsage) (additional : Q) : bool :=
  if bool_decide (limit w <= 0)%Q then false
  else bool_decide (limit w < used w + additional)%Q.

(** [UsageStore.record] *)
Definition record (e : usage_event) (d : Db.t) : Db.t :=
  with_usage (Sql.insert e (usage_events d)) d.

Definition qsum (l : list Q) : Q := fold_right Qplus 0%Q l.

(** [UsageStore._sum_cu] *)
Definition sum_cu (key_id : string) (since : Q) (d : Db.t) : Q :=
  qsum (map u_cu (Sql.select (fun e => Sql.sql_eq (u_key e) key_id &&
                                       bool_decide (since <= u_ts e)%Q) (usage_events d))).

(** [UsageStore.usage_5h] *)
Definition usage_5h (key_id : string) (lim : Q) (now : Q) (d : Db.t) : WindowUsage :=
  Window (sum_cu key_id (Windows.rolling_5h_start now) d) lim
         (now + inject_Z (5 * 60 * 60))%Q.

(** [UsageStore.usage_weekly] *)
Definition usage_weekly (key_id : string) (lim : Q) (now : Q) (d : Db.t) : WindowUsage :=
  Window (sum_cu key_id (Windows.week_start now) d) lim (Windows.week_reset now).

(** [KeyAttribution] *)
Record KeyAttribution := Attribution {
  at_key : option string;
  at_requests : Z;
  at_prompt : Z;
  at_completion : Z;
  at_cu : Q;
  at_last_ts : option Q;
  at_errors : Z
}.

Definition zsum (l : list Z) : Z := fold_right Z.add 0 l.
Definition is_error (e : usage_event) : bool :=
  match u_status e with Some s => 400 <=? s | None => false end.

(** One group of the [GROUP BY key_id]. *)
Definition attribution_of (k : option string) (rows : list usage_event) : KeyAttribution :=
  let mine := List.filter (fun e => bool_decide (u_key e = k)) rows in
  Attribution k (Z.of_nat (length mine)) (zsum (map u_prompt mine))
    (zsum (map u_completion mine)) (qsum (map u_cu mine))
    (match map u_ts mine with [] => None | t :: ts => Some (fold_left qmax ts t) end)
    (Z.of_nat (length (List.filter is_error mine))).

(** [UsageStore.attribution] *)
Definition attribution (since : Q) (d : Db.t) : list KeyAttribution :=
  let rows := Sql.select (fun e => bool_decide (since <= u_ts e)%Q) (usage_events d) in
  Sql.order_by (fun a b => bool_decide (at_cu b <= at_cu a)%Q)
    (map (fun k => attribution_of k rows) (remove_dups (map u_key rows))).

(** ** Facts *)

Lemma filter_filter_and {A} (f g : A → bool) l :
  List.filter f (List.filter g l) = List.filter (fun x => f x && g x) l.
Proof.
  induction l as [|x l IH]; simpl; [done|].
  destruct (g x) eqn:G; simpl; rewrite ?G, ?andb_true_r, ?andb_false_r; [|done].
  destruct (f x); by rewrite IH.
Qed.

(** Attribution reconciles with enforcement: the operator's per-key rollup has one
    line per key that used the engine since the given time, and the compute units on a
    key's line are exactly the sum the quota windows enforce for that key. *)
Theorem attribution_reconciles since d :
  NoDup (map at_key (attribution since d)) ∧
  ∀ a, a ∈ attribution since d → ∀ k, at_key a = Some k →
       at_cu a = sum_cu k since d ∧ 0 < at_requests a ∧
       0 <= at_errors a <= at_requests a.
Proof.
  unfold attribution. set (rows := Sql.select _ (usage_events d)).
  split.
  - rewrite (fmap_Permutation at_key _ _ (Sql.order_by_perm _ _)).
    rewrite map_map. simpl. rewrite map_id. apply NoDup_remove_dups.
  - intros a Ha k Hk. rewrite Sql.order_by_perm in Ha.
    apply list_elem_of_fmap in Ha as (k' & -> & Hin). simpl in Hk. subst k'.
    apply elem_of_remove_dups, list_elem_of_fmap in Hin as (e & He & Hin).
    simpl. split_and!.
    + unfold sum_cu, rows, Sql.select. by rewrite filter_filter_and.
    + destruct (List.filter (fun e0 => bool_decide (u_key e0 = Some k)) rows) eqn:F; [|simpl; lia].
      assert (e ∈ List.filter (fun e0 => bool_decide (u_key e0 = Some k)) rows) as H.
      { rewrite list_elem_of_In, filter_In. split; [by apply list_elem_of_In|].
        by rewrite bool_decide_eq_true. }
      rewrite F in H. set_solver.
    + lia.
    + apply inj_le. apply filter_length_le.
Qed.

(** ** Recording *)

Lemma sum_cu_record k since e d :
  (sum_cu k since (record e d) ==
   sum_cu k since d + (if Sql.sql_eq (u_key e) k && bool_decide (since <= u_ts e)
                       then u_cu e else 0))%Q.
Proof.
  unfold sum_cu, record, Sql.insert, Sql.select. simpl. rewrite List.filter_app, map_app. simpl.
  assert (∀ l1 l2, qsum (l1 ++ l2) == qsum l1 + qsum l2)%Q as Happ.
  { intros l1 l2. unfold qsum. induction l1 as [|x l1 IH]; simpl; [lra|]. rewrite IH. lra. }
  rewrite Happ. case_match; simpl; lra.
Qed.

End UsageStore.
