(* ===== verification/Keys.v ===== *)
(** * API keys ([engine/auth/keys.py])

    [Module KeyStore]: the operations of [KeyStore] on the [api_keys] table.  The
    random token and id of a new key and the clock readings are arguments. *)

From S2P Require Import Prelude Crypto Sql Store.

Module KeyStore.
Import Db.

Definition KEY_PREFIX : string := "sk-ie-".
Definition PREFIX_DISPLAY_LEN : nat := 12.

(** [hash_token] *)
Definition hash_token (token : string) : string := Crypto.sha256_hex token.

(** [KeyRecord] *)
Record KeyRecord := Rec {
  id : string;
  prefix : string;
  label : option string;
  created_at : string;
  last_used_at : option string;
  revoked_at : option string;
  client_id : option string
}.

(** [KeyRecord.revoked] *)
Definition revoked (r : KeyRecord) : bool := bool_decide (is_Some (revoked_at r)).

Inductive role_t := ROLE_OPERATOR | ROLE_CLIENT.
(** [KeyRecord.role] *)
Definition role (r : KeyRecord) : role_t :=
  if bool_decide (is_Some (client_id r)) then ROLE_CLIENT else ROLE_OPERATOR.

(** [_row_to_record] *)
Definition row_to_record (k : api_key) : KeyRecord :=
  Rec (k_id k) (Db.prefix k) (Db.label k) (Db.created_at k) (Db.last_used_at k)
      (Db.revoked_at k) (k_client k).

(** [KeyStore.create]; [rnd] is [secrets.token_urlsafe(32)], [key_id] is
    [uuid.uuid4().hex]. *)
Definition create (rnd key_id now : string) (lbl : option string) : stmt Db.t (KeyRecord * string) :=
  fun d =>
  let token := KEY_PREFIX +:+ rnd in
  let pre := String.substring 0 PREFIX_DISPLAY_LEN token in
  if existsb (fun k => bool_decide (k_id k = key_id) || bool_decide (key_hash k = hash_token token))
       (api_keys d)
  then (d, Err IntegrityError)
  else (with_keys (Sql.insert (ApiKey key_id (hash_token token) pre lbl now None None None "active")
                     (api_keys d)) d,
        Ok (Rec key_id pre lbl now None None None, token)).

Definition touch (now : string) (k : api_key) : api_key :=
  ApiKey (k_id k) (key_hash k) (Db.prefix k) (Db.label k) (Db.created_at k) (Some now)
    (Db.revoked_at k) (k_client k) (k_status k).

(** [KeyStore.verify] *)
Definition verify (token now : string) (d : Db.t) : Db.t * option KeyRecord :=
  if negb (str_true token) then (d, None)
  else match Sql.fetchone (fun k => bool_decide (key_hash k = hash_token token)) (api_keys d) with
       | None => (d, None)
       | Some row =>
           match Db.revoked_at row with
           | Some _ => (d, None)
           | None =>
               (with_keys (Sql.update (fun k => bool_decide (k_id k = k_id row)) (touch now) (api_keys d)) d,
                Some (row_to_record row))
           end
       end.

Definition set_revoked (now : string) (k : api_key) : api_key :=
  ApiKey (k_id k) (key_hash k) (Db.prefix k) (Db.label k) (Db.created_at k) (Db.last_used_at k)
    (Some now) (k_client k) (k_status k).
Definition live_with_id (key_id : string) (k : api_key) : bool :=
  bool_decide (k_id k = key_id) && bool_decide (Db.revoked_at k = None).

(** [KeyStore.revoke] *)
Definition revoke (key_id now : string) (d : Db.t) : Db.t * bool :=
  (with_keys (Sql.update (live_with_id key_id) (set_revoked now) (api_keys d)) d,
   Nat.ltb 0 (Sql.rowcount (live_with_id key_id) (api_keys d))).

(** [KeyStore.delete] *)
Definition delete (key_id : string) (d : Db.t) : Db.t * bool :=
  let p k := bool_decide (k_id k = key_id) in
  (with_keys (Sql.delete p (api_keys d)) d, Nat.ltb 0 (Sql.rowcount p (api_keys d))).

(** [KeyStore.get] *)
Definition get (key_id : string) (d : Db.t) : option KeyRecord :=
  row_to_record <$> Sql.fetchone (fun k => bool_decide (k_id k = key_id)) (api_keys d).

(** [KeyStore.list] *)
Definition list_keys (d : Db.t) : list KeyRecord :=
  map row_to_record (Sql.order_by (fun a b => str_leb (Db.created_at a) (Db.created_at b)) (api_keys d)).

End KeyStore.
