(* ===== verification/Billing.v ===== *)
(** * Billing ([engine/billing/store.py], [engine/billing/stripe.py])

    [Module BillingStore] has the operations of the billing store on the shared
    tables, [Module Stripe] the signature check of the inbound webhook and the mapping of
    an event to a lifecycle action, [Module StripeWebhook] the webhook route of
    [engine/api/billing_router.py] that composes them.  Clock readings, new ids and
    the parsed body are arguments. *)

From S2P Require Import Prelude Crypto Text Sql Store Quota Keys.
From Stdlib Require Import Ascii Qabs.

Open Scope Z_scope.

Module BillingStore.
Import Db.

Definition STATUS_ACTIVE : string := "active".
Definition STATUS_SUSPENDED : string := "suspended".
Definition STATUS_REVOKED : string := "revoked".
Definition STATUS_CANCELED : string := "canceled".

(** [Entitlement] *)
Record Entitlement := Entitle {
  plan_id : string;
  quota_5h_cu : Q;
  quota_weekly_cu : Q;
  rate_limit_per_min : option Z;
  allowed_models : option (list string)
}.

(** [KeyAccess] *)
Record KeyAccess := Access { status : string; entitlement : option Entitlement }.

(** ** Plans *)

(** [upsert_plan] *)
Definition upsert_plan (p : plan) (d : Db.t) : Db.t :=
  if existsb (fun q => bool_decide (pl_id q = pl_id p)) (plans d)
  then with_plans (Sql.update (fun q => bool_decide (pl_id q = pl_id p)) (fun _ => p) (plans d)) d
  else with_plans (Sql.insert p (plans d)) d.

(** [get_plan] *)
Definition get_plan (i : string) (d : Db.t) : option plan :=
  Sql.fetchone (fun p => bool_decide (pl_id p = i)) (plans d).

(** [list_plans] *)
Definition list_plans (d : Db.t) : list plan :=
  Sql.order_by (fun a b => str_leb (pl_id a) (pl_id b)) (plans d).

(** ** Clients *)

(** [create_client] *)
Definition create_client (i : string) (ref email : option string) (now : string)
  : stmt Db.t client := fun d =>
  let c := Client i ref email STATUS_ACTIVE now in
  if existsb (fun x => bool_decide (c_id x = i)
                       || match ref with Some r => Sql.sql_eq (c_external_ref x) r | None => false end)
       (clients d)
  then (d, Err IntegrityError)
  else (with_clients (Sql.insert c (clients d)) d, Ok c).

(** [get_client] *)
Definition get_client (i : string) (d : Db.t) : option client :=
  Sql.fetchone (fun c => bool_decide (c_id c = i)) (clients d).

(** [get_client_by_external_ref] *)
Definition get_client_by_external_ref (ref : string) (d : Db.t) : option client :=
  Sql.fetchone (fun c => Sql.sql_eq (c_external_ref c) ref) (clients d).

(** [list_clients] *)
Definition list_clients (d : Db.t) : list client :=
  Sql.order_by (fun a b => str_leb (c_created_at a) (c_created_at b)) (clients d).

Definition put_client_status (s : string) (c : client) : client :=
  Client (c_id c) (c_external_ref c) (c_email c) s (c_created_at c).

(** [set_client_status] *)
Definition set_client_status (i s : string) (d : Db.t) : Db.t * bool :=
  let p c := bool_decide (c_id c = i) in
  (with_clients (Sql.update p (put_client_status s) (clients d)) d,
   Nat.ltb 0 (Sql.rowcount p (clients d))).

(** ** Keys and clients *)

Definition put_client (c : string) (k : api_key) : api_key :=
  ApiKey (k_id k) (key_hash k) (Db.prefix k) (Db.label k) (Db.created_at k) (Db.last_used_at k)
    (Db.revoked_at k) (Some c) (k_status k).

(** [attach_key]: the foreign key makes an unknown client an [IntegrityError] when a
    row is changed. *)
Definition attach_key (key_id client_id : string) : stmt Db.t bool := fun d =>
  let p k := bool_decide (k_id k = key_id) in
  let n := Sql.rowcount p (api_keys d) in
  if Nat.ltb 0 n && negb (existsb (fun c => bool_decide (c_id c = client_id)) (clients d))
  then (d, Err IntegrityError)
  else (with_keys (Sql.update p (put_client client_id) (api_keys d)) d, Ok (Nat.ltb 0 n)).

(** [client_id_for_key] *)
Definition client_id_for_key (key_id : string) (d : Db.t) : option string :=
  match Sql.fetchone (fun k => bool_decide (k_id k = key_id)) (api_keys d) with
  | Some k => k_client k
  | None => None
  end.

Definition put_revoked (now : string) (k : api_key) : api_key :=
  ApiKey (k_id k) (key_hash k) (Db.prefix k) (Db.label k) (Db.created_at k) (Db.last_used_at k)
    (Some now) (k_client k) STATUS_REVOKED.
Definition live_of_client (client_id : string) (k : api_key) : bool :=
  Sql.sql_eq (k_client k) client_id && bool_decide (Db.revoked_at k = None).

(** [revoke_client_keys] *)
Definition revoke_client_keys (client_id now : string) (d : Db.t) : Db.t * nat :=
  (with_keys (Sql.update (live_of_client client_id) (put_revoked now) (api_keys d)) d,
   Sql.rowcount (live_of_client client_id) (api_keys d)).

(** ** Subscriptions *)

Definition same_provider (provider sub : string) (s : subscription) : bool :=
  bool_decide (s_provider s = provider) && bool_decide (s_provider_sub s = sub).

(** [upsert_subscription]: [ON CONFLICT(provider, provider_sub_id) DO UPDATE] is tested
    before the primary key; the foreign keys are those of the columns written. *)
Definition upsert_subscription (n : subscription) : stmt Db.t unit := fun d =>
  let plan_ok := match s_plan n with
                 | None => true
                 | Some p => existsb (fun q => bool_decide (pl_id q = p)) (plans d)
                 end in
  let conflict := same_provider (s_provider n) (s_provider_sub n) in
  if existsb conflict (subscriptions d) then
    if plan_ok then
      (with_subscriptions
         (Sql.update conflict
            (fun s => Subscription (s_id s) (s_client s) (s_plan n) (s_provider s) (s_provider_sub s)
                        (s_status n) (s_period_end n) (s_updated_at n)) (subscriptions d)) d, Ok ())
    else (d, Err IntegrityError)
  else if existsb (fun s => bool_decide (s_id s = s_id n)) (subscriptions d)
          || negb (existsb (fun c => bool_decide (c_id c = s_client n)) (clients d))
          || negb plan_ok
  then (d, Err IntegrityError)
  else (with_subscriptions (Sql.insert n (subscriptions d)) d, Ok ()).

(** [get_subscription_by_provider] *)
Definition get_subscription_by_provider (provider sub : string) (d : Db.t) : option subscription :=
  Sql.fetchone (same_provider provider sub) (subscriptions d).

(** ** Entitlement *)

(** [_entitlement_for_client]; [default_plan_id] is the store's constructor argument. *)
Definition entitlement_for_client (default_plan_id : option string) (client_id : string) (d : Db.t)
  : option Entitlement :=
  let subs := Sql.order_by (fun a b => str_leb (s_updated_at b) (s_updated_at a))
                (Sql.select (fun s => bool_decide (s_client s = client_id)
                                      && bool_decide (s_status s = STATUS_ACTIVE)) (subscriptions d)) in
  let pid := match subs with s :: _ => s_plan s | [] => None end in
  let pid := match pid with None => default_plan_id | Some p => Some p end in
  match pid with
  | None => None
  | Some p =>
      match get_plan p d with
      | None => None
      | Some p => Some (Entitle (pl_id p) (pl_quota_5h p) (pl_quota_weekly p) (pl_rate p) (pl_models p))
      end
  end.

(** [key_access] *)
Definition key_access (default_plan_id : option string) (key_id : string) (d : Db.t) : KeyAccess :=
  match Sql.fetchone (fun k => bool_decide (k_id k = key_id)) (api_keys d) with
  | None => Access STATUS_ACTIVE None
  | Some k =>
      if bool_decide (k_status k = STATUS_REVOKED) then Access STATUS_REVOKED None
      else match k_client k with
           | None => Access (if bool_decide (k_status k = STATUS_SUSPENDED) then STATUS_SUSPENDED
                             else STATUS_ACTIVE) None
           | Some c =>
               let client_status := c_status <$> get_client c d in
               if bool_decide (client_status = Some STATUS_SUSPENDED)
                  || bool_decide (client_status = Some STATUS_CANCELED)
               then Access STATUS_SUSPENDED None
               else if bool_decide (k_status k = STATUS_SUSPENDED) then Access STATUS_SUSPENDED None
               else Access STATUS_ACTIVE (entitlement_for_client default_plan_id c d)
           end
  end.

(** ** Idempotency ledger *)

Definition same_event (provider event_id : string) (e : webhook_event) : bool :=
  bool_decide (we_provider e = provider) && bool_decide (we_event_id e = event_id).

(** [record_event_once] *)
Definition record_event_once (provider event_id : string) (ty : option string) (now : string)
  (d : Db.t) : Db.t * bool :=
  let '(rows, n) := Sql.insert_or_ignore (same_event provider event_id)
                      (WebhookEvent provider event_id ty now None None) (webhook_events d) in
  (with_webhook_events rows d, Nat.ltb 0 n).

(** [mark_event_processed] *)
Definition mark_event_processed (provider event_id res now : string) (d : Db.t) : Db.t :=
  with_webhook_events
    (Sql.update (same_event provider event_id)
       (fun e => WebhookEvent (we_provider e) (we_event_id e) (we_type e) (we_received_at e)
                   (Some now) (Some res)) (webhook_events d)) d.

(** [forget_event] *)
Definition forget_event (provider event_id : string) (d : Db.t) : Db.t :=
  with_webhook_events (Sql.delete (same_event provider event_id) (webhook_events d)) d.

(** ** Metering *)

(** [client_usage_cu]: the join gives a usage row once per key row with its id. *)
Definition client_usage_cu (client_id : string) (since : Q) (d : Db.t) : Q :=
  UsageStore.qsum (flat_map (fun u =>
      map (fun _ => u_cu u)
        (Sql.select (fun k => Sql.sql_eq (u_key u) (k_id k) && Sql.sql_eq (k_client k) client_id)
           (api_keys d)))
    (Sql.select (fun u => bool_decide (since <= u_ts u)%Q) (usage_events d))).

End BillingStore.

Module Stripe.
Import Db BillingStore.

Definition PROVIDER : string := "stripe".

(** ** Signature *)

(** One part of the header, as the loop of [_parse_sig_header] treats it. *)
Definition parse_part (acc : Z * list string) (part : string) : Z * list string :=
  let '(timestamp, v1) := acc in
  if negb (Text.mem "=" part) then (timestamp, v1)
  else let '(pre, value) := Text.partition "=" part in
       let pre := Text.strip pre in
       if bool_decide (pre = "t") then
         (match Text.int value with Some n => n | None => -1 end, v1)
       else if bool_decide (pre = "v1") then (timestamp, v1 ++ [Text.strip value])
       else (timestamp, v1).

(** [_parse_sig_header] *)
Definition parse_sig_header (header : string) : Z * list string :=
  fold_left parse_part (Text.split "," header) (-1, []).

Inductive sig_error :=
| SignatureError (msg : string)
| Uncaught (e : exn).

(** [hmac.compare_digest] on two [str]: both must be ASCII. *)
Definition compare_digest (a b : string) : result sig_error bool :=
  if Text.isascii a && Text.isascii b then Ok (bool_decide (a = b)) else Err (Uncaught TypeError).

(** [any(hmac.compare_digest(expected, c) for c in signatures)] *)
Fixpoint any_digest (expected : string) (sigs : list string) : result sig_error bool :=
  match sigs with
  | [] => Ok false
  | c :: rest =>
      match compare_digest expected c with
      | Err e => Err e
      | Ok true => Ok true
      | Ok false => any_digest expected rest
      end
  end.

Definition expected_signature (secret : string) (timestamp : Z) (payload : list Z) : string :=
  Crypto.hex (Crypto.hmac_sha256 (Crypto.utf8 secret)
                (Crypto.utf8 (Text.str_int timestamp +:+ ".") ++ payload)).

(** [verify_signature] *)
Definition verify_signature (payload : list Z) (header : option string) (secret : string)
  (tolerance_s : Z) (now : Q) : result sig_error unit :=
  match header with
  | None => Err (SignatureError "missing signature header")
  | Some h =>
      if negb (str_true h) then Err (SignatureError "missing signature header")
      else if negb (str_true secret) then Err (SignatureError "no signing secret configured")
      else
        let '(timestamp, signatures) := parse_sig_header h in
        if (timestamp <? 0) || Nat.eqb (length signatures) 0
        then Err (SignatureError "malformed signature header")
        else if (0 <? tolerance_s) && Text.overflows timestamp then Err (Uncaught OverflowError)
        else if (0 <? tolerance_s)
                && bool_decide (inject_Z tolerance_s < Qabs (now - inject_Z timestamp))%Q
        then Err (SignatureError "timestamp outside tolerance")
        else match any_digest (expected_signature secret timestamp payload) signatures with
             | Err e => Err e
             | Ok true => Ok ()
             | Ok false => Err (SignatureError "signature mismatch")
             end
  end.

(** ** Lifecycle *)

(** [LifecycleResult] *)
Record LifecycleResult := Lifecycle { action : string; client_id : option string }.

(** A JSON value bound to a TEXT column. *)
Definition bind_text {S} (v : Json.t) : stmt S (option string) :=
  match v with
  | Json.JNull => mret None
  | Json.JBool b => mret (Some (if b then "1" else "0"))
  | Json.JInt z => if (- 2 ^ 63 <=? z) && (z <? 2 ^ 63) then mret (Some (Text.str_int z))
                   else raise OverflowError
  | Json.JStr s => mret (Some s)
  | Json.JArr _ | Json.JObj _ => raise ProgrammingError
  end.
(** The same for a NOT NULL column. *)
Definition bind_not_null {S} (v : Json.t) : stmt S string :=
  o ← bind_text v; match o with Some s => mret s | None => raise IntegrityError end.

(** [v.get(key, default)] *)
Definition jget {S} (key : string) (dflt v : Json.t) : stmt S Json.t :=
  match Json.get key v with
  | None => raise AttributeError
  | Some o => mret (default dflt o)
  end.
(** [v or {}] *)
Definition or_empty (v : Json.t) : Json.t := if Json.truthy v then v else Json.JObj [].

(** What one call reads from its environment: a fresh id and the clock at each write. *)
Record reads := Reads { r_uuid : string; r_create : string; r_upsert : string; r_revoke : string }.

(** [_ensure_client] *)
Definition ensure_client (r : reads) (customer_ref email : Json.t) : stmt Db.t string :=
  ref ← bind_text customer_ref;
  found ← query (fun d => match ref with Some x => get_client_by_external_ref x d | None => None end);
  match found with
  | Some c => mret (c_id c)
  | None =>
      em ← bind_text email;
      c ← create_client (r_uuid r) ref em (r_create r);
      mret (c_id c)
  end.

(** [_resolve_plan_id] *)
Definition resolve_plan_id (obj : Json.t) : stmt Db.t (option string) :=
  m ← jget "metadata" Json.JNull obj;
  candidate ← jget "plan" Json.JNull (or_empty m);
  if Json.truthy candidate then
    c ← bind_text candidate;
    match c with
    | None => mret None
    | Some p => found ← query (get_plan p);
                mret (match found with Some _ => Some p | None => None end)
    end
  else mret None.

(** [sub_status in _ACTIVE_SUB_STATES] *)
Definition active_sub_state {S} (v : Json.t) : stmt S bool :=
  if Json.hashable v then mret (Json.eq_str v "active" || Json.eq_str v "trialing")
  else raise TypeError.

(** [_period_end] *)
Definition period_end {S} (obj : Json.t) : stmt S (option string) :=
  v ← jget "current_period_end" Json.JNull obj;
  mret (match v with Json.JNull => None | _ => Some (Json.str v) end).

(** The branch for [customer.subscription.created] and [.updated]. *)
Definition on_subscription (r : reads) (obj : Json.t) : stmt Db.t LifecycleResult :=
  customer_ref ← jget "customer" Json.JNull obj;
  sub_id ← jget "id" Json.JNull obj;
  if negb (Json.truthy customer_ref) || negb (Json.truthy sub_id)
  then mret (Lifecycle "ignored" None)
  else
    email ← jget "email" Json.JNull obj;
    cid ← ensure_client r customer_ref email;
    sub_status ← jget "status" (Json.JStr "") obj;
    pid ← resolve_plan_id obj;
    act ← active_sub_state sub_status;
    pe ← period_end obj;
    sid ← bind_not_null sub_id;
    st ← (if act : bool then mret STATUS_ACTIVE else bind_not_null sub_status);
    _ ← upsert_subscription (Subscription sid cid pid PROVIDER sid st pe (r_upsert r));
    if act : bool then
      _ ← run (set_client_status cid STATUS_ACTIVE);
      mret (Lifecycle "activated" (Some cid))
    else mret (Lifecycle "plan_changed" (Some cid)).

Definition find_client (customer_ref : Json.t) : stmt Db.t (option client) :=
  ref ← bind_text customer_ref;
  query (fun d => match ref with Some x => get_client_by_external_ref x d | None => None end).

(** The branch for [invoice.payment_failed]. *)
Definition on_payment_failed (obj : Json.t) : stmt Db.t LifecycleResult :=
  customer_ref ← jget "customer" Json.JNull obj;
  if negb (Json.truthy customer_ref) then mret (Lifecycle "ignored" None)
  else
    c ← find_client customer_ref;
    match c with
    | None => mret (Lifecycle "ignored" None)
    | Some c =>
        _ ← run (set_client_status (c_id c) STATUS_SUSPENDED);
        mret (Lifecycle "suspended" (Some (c_id c)))
    end.

(** The branch for [customer.subscription.deleted]. *)
Definition on_deleted (r : reads) (obj : Json.t) : stmt Db.t LifecycleResult :=
  customer_ref ← jget "customer" Json.JNull obj;
  sub_id ← jget "id" Json.JNull obj;
  if negb (Json.truthy customer_ref) then mret (Lifecycle "ignored" None)
  else
    c ← find_client customer_ref;
    match c with
    | None => mret (Lifecycle "ignored" None)
    | Some c =>
        _ ← (if Json.truthy sub_id then
               sid ← bind_not_null sub_id;
               existing ← query (get_subscription_by_provider PROVIDER sid);
               pe ← period_end obj;
               upsert_subscription
                 (Subscription sid (c_id c) (s ← existing; s_plan s) PROVIDER sid STATUS_CANCELED pe
                    (r_upsert r))
             else mret ());
        _ ← run (set_client_status (c_id c) STATUS_CANCELED);
        _ ← run (revoke_client_keys (c_id c) (r_revoke r));
        mret (Lifecycle "canceled" (Some (c_id c)))
    end.

(** [handle_event] *)
Definition handle_event (r : reads) (event : Json.t) : stmt Db.t LifecycleResult :=
  ty ← jget "type" (Json.JStr "") event;
  data ← jget "data" Json.JNull event;
  obj ← jget "object" Json.JNull (or_empty data);
  let obj := or_empty obj in
  if Json.eq_str ty "customer.subscription.created" || Json.eq_str ty "customer.subscription.updated"
  then on_subscription r obj
  else if Json.eq_str ty "invoice.payment_failed" then on_payment_failed obj
  else if Json.eq_str ty "customer.subscription.deleted" then on_deleted r obj
  else mret (Lifecycle "ignored" None).

End Stripe.

(** * The route [POST /billing/webhooks/stripe] *)

Module StripeWebhook.
Import Db BillingStore Stripe.

Inductive response :=
| Disabled                                 (* 404 billing_disabled *)
| InvalidSignature (detail : string)       (* 400 invalid_signature *)
| InvalidPayload                           (* 400 invalid_payload *)
| Duplicate (event_id : string)            (* 200 *)
| ProcessingError                          (* 500 webhook_processing_error *)
| Processed (act : string).                (* 200 *)

(** What the route hands to the client event emitter. *)
Record emission := Emission { em_client : string; em_type : string; em_event_id : string }.

(** [_LIFECYCLE_EVENT_TYPES] *)
Definition lifecycle_event_type (act : string) : option string :=
  dict_get act [("activated", "subscription.activated"); ("plan_changed", "subscription.updated");
                ("suspended", "subscription.suspended"); ("canceled", "subscription.canceled")].

(** [_emit_lifecycle] *)
Definition emit_lifecycle (res : LifecycleResult) (source_event_id : string) : option emission :=
  match client_id res, lifecycle_event_type (action res) with
  | Some c, Some ty => Some (Emission c ty (source_event_id +:+ "." +:+ action res))
  | _, _ => None
  end.

Record request := Request {
  enabled : bool;               (* a billing store, provider "stripe" and a secret *)
  secret : string;
  tolerance_s : Z;
  raw : list Z;
  header : option string;
  now : Q;
  now_received : string;
  now_processed : string;
  env : reads;
  end_fault : option exn        (* what the statement that ends the delivery raises, if it fails *)
}.

(** [json.loads(raw)] of the body, when it parses. *)
Definition parser := list Z → option Json.t.

(** The [try] around [handle_event] and what follows it.  Both [forget_event] and
    [mark_event_processed] run outside the [try]: when their statement fails, the exception
    leaves the route with the tables as [handle_event] left them. *)
Definition handle_recorded (q : request) (event : Json.t) (event_id : string)
  : stmt Db.t (response * option emission) := fun d =>
  match handle_event (env q) event d, end_fault q with
  | (d1, _), Some e => (d1, Err e)
  | (d1, Err _), None => (forget_event PROVIDER event_id d1, Ok (ProcessingError, None))
  | (d1, Ok res), None =>
      (mark_event_processed PROVIDER event_id (action res) (now_processed q) d1,
       Ok (Processed (action res), emit_lifecycle res event_id))
  end.

(** The part of [stripe_webhook] after the signature check and [json.loads]. *)
Definition process (q : request) (event : Json.t) : stmt Db.t (response * option emission) :=
  i ← jget "id" Json.JNull event;
  match i return stmt Db.t (response * option emission) with
  | Json.JStr event_id =>
      if negb (str_true event_id) then mret (InvalidPayload, None)
      else
        ty ← jget "type" Json.JNull event;
        ety ← bind_text ty;
        fresh ← run (record_event_once PROVIDER event_id ety (now_received q));
        if negb fresh then mret (Duplicate event_id, None)
        else handle_recorded q event event_id
  | _ => mret (InvalidPayload, None)
  end.

(** [stripe_webhook]; [Err] is an exception no handler of the route catches. *)
Definition stripe_webhook (json_loads : parser) (q : request)
  : stmt Db.t (response * option emission) :=
  if negb (enabled q) then mret (Disabled, None)
  else match verify_signature (raw q) (header q) (secret q) (tolerance_s q) (now q) with
       | Err (SignatureError msg) => mret (InvalidSignature msg, None)
       | Err (Uncaught e) => raise e
       | Ok () =>
           match json_loads (raw q) with
           | None => mret (InvalidPayload, None)
           | Some event => process q event
           end
       end.

End StripeWebhook.
