(* ===== verification/Accounts.v ===== *)
(** * Keys, billing and webhook deliveries together

    [Module Lifecycle] runs the operations of the key store, the usage store, the
    billing store and the Stripe webhook in any order on the shared tables, and states
    what holds throughout: the schema's constraints, terminal revocation, operator
    ownership of entitlements, idempotency and authenticity of deliveries. *)

From S2P Require Import Prelude Crypto Text Sql Store Quota Keys Billing.
From Stdlib Require Import Ascii Qabs.

Open Scope Z_scope.

Module Lifecycle.
Import Db BillingStore Stripe StripeWebhook.

Inductive op :=
| OpCreateKey (rnd key_id now : string) (lbl : option string)
| OpVerify (token now : string)
| OpRevoke (key_id now : string)
| OpDeleteKey (key_id : string)
| OpRecordUsage (e : usage_event)
| OpUpsertPlan (p : plan)
| OpCreateClient (i : string) (ref email : option string) (now : string)
| OpSetClientStatus (i s : string)
| OpAttachKey (key_id cid : string)
| OpRevokeClientKeys (cid now : string)
| OpUpsertSubscription (n : subscription)
| OpWebhook (json_loads : parser) (q : request).

Definition exec (o : op) (d : Db.t) : Db.t :=
  match o with
  | OpCreateKey rnd i n l => fst (KeyStore.create rnd i n l d)
  | OpVerify tok n => fst (KeyStore.verify tok n d)
  | OpRevoke i n => fst (KeyStore.revoke i n d)
  | OpDeleteKey i => fst (KeyStore.delete i d)
  | OpRecordUsage e => UsageStore.record e d
  | OpUpsertPlan p => upsert_plan p d
  | OpCreateClient i r e n => fst (create_client i r e n d)
  | OpSetClientStatus i s => fst (set_client_status i s d)
  | OpAttachKey i c => fst (attach_key i c d)
  | OpRevokeClientKeys c n => fst (revoke_client_keys c n d)
  | OpUpsertSubscription n => fst (upsert_subscription n d)
  | OpWebhook jl q => fst (stripe_webhook jl q d)
  end.
Definition execs (os : list op) (d : Db.t) : Db.t := fold_left (fun d o => exec o d) os d.

(** ** Preservation through the webhook

    A property kept by the store operations the adapter calls is kept by the route. *)
Section Preserved.
Context (I : Db.t → Prop).
Hypothesis I_create_client : ∀ i r e n, pres I (create_client i r e n).
Hypothesis I_status : ∀ i s d, I d → I (fst (set_client_status i s d)).
Hypothesis I_upsert_sub : ∀ n, pres I (upsert_subscription n).
Hypothesis I_revoke_client : ∀ c n d, I d → I (fst (revoke_client_keys c n d)).
Hypothesis I_record : ∀ p i ty n d, I d → I (fst (record_event_once p i ty n d)).
Hypothesis I_mark : ∀ p i r n d, I d → I (mark_event_processed p i r n d).
Hypothesis I_forget : ∀ p i d, I d → I (forget_event p i d).

Lemma pres_bind_text (v : Json.t) : pres I (bind_text v).
Proof. unfold bind_text. pres_auto. Qed.
Lemma pres_bind_not_null (v : Json.t) : pres I (bind_not_null v).
Proof. unfold bind_not_null. pres_auto; apply pres_bind_text. Qed.
Lemma pres_jget k (a v : Json.t) : pres I (jget k a v).
Proof. unfold jget. pres_auto. Qed.
Lemma pres_set_status i s : pres I (run (set_client_status i s)).
Proof. apply pres_run. auto. Qed.
Lemma pres_revoke_client c n : pres I (run (revoke_client_keys c n)).
Proof. apply pres_run. auto. Qed.
Lemma pres_record p i ty n : pres I (run (record_event_once p i ty n)).
Proof. apply pres_run. auto. Qed.
Local Hint Resolve pres_bind_text pres_bind_not_null pres_jget pres_set_status pres_revoke_client
  pres_record : pres.

Lemma pres_handle_event r ev : pres I (handle_event r ev).
Proof using I_create_client I_status I_upsert_sub I_revoke_client.
  unfold handle_event, on_subscription, on_payment_failed, on_deleted, ensure_client, find_client,
    resolve_plan_id, active_sub_state, period_end.
  pres_auto.
Qed.

Lemma pres_stripe_webhook jl q : pres I (stripe_webhook jl q).
Proof using All.
  assert (∀ ev i, pres I (handle_recorded q ev i)) as Hh.
  { intros ev i d Hd. pose proof (pres_handle_event (env q) ev d Hd) as H. unfold handle_recorded.
    destruct (handle_event (env q) ev d) as [d1 [res|e]], (end_fault q); simpl in *; auto. }
  unfold stripe_webhook, process. pres_auto.
Qed.
End Preserved.

(** ** The schema's constraints *)

Lemma wf_with_keys ks d :
  wf d → NoDup (map k_id ks) → NoDup (map key_hash ks) →
  (∀ k c, k ∈ ks → k_client k = Some c → c ∈ map c_id (clients d)) → wf (with_keys ks d).
Proof. intros [] ? ? ?. by split. Qed.

Lemma wf_update_keys p f d :
  wf d →
  (∀ k, p k = true → k_id (f k) = k_id k ∧ key_hash (f k) = key_hash k) →
  (∀ k c, p k = true → k_client (f k) = Some c → k_client k = Some c ∨ c ∈ map c_id (clients d)) →
  wf (with_keys (Sql.update p f (api_keys d)) d).
Proof.
  intros W Hf Hc. apply wf_with_keys; [done|..].
  - rewrite Sql.update_key; [apply W|]. intros r Hr. by apply Hf.
  - rewrite Sql.update_key; [apply W|]. intros r Hr. by apply Hf.
  - intros k c Hk Hkc. apply Sql.elem_of_update in Hk as (x & Hx & ->).
    destruct (p x) eqn:E; [|by eapply wf_key_client].
    destruct (Hc x c E Hkc); [by eapply wf_key_client|done].
Qed.

Lemma wf_with_events es d :
  wf d → NoDup (map (fun e => (we_provider e, we_event_id e)) es) → wf (with_webhook_events es d).
Proof. intros [] ?. by split. Qed.

Lemma wf_create_key rnd i n l d : wf d → wf (fst (KeyStore.create rnd i n l d)).
Proof.
  intros W. unfold KeyStore.create. destruct (existsb _ _) eqn:E; [done|]. simpl.
  assert ((i ∉ map k_id (api_keys d)) ∧
          (KeyStore.hash_token (KeyStore.KEY_PREFIX +:+ rnd) ∉ map key_hash (api_keys d))) as [H1 H2].
  { split; intros (k & Hk & Hin)%list_elem_of_fmap;
      pose proof (Sql.existsb_false_elem _ _ _ E Hin) as [F1 F2]%orb_false_iff;
      apply bool_decide_eq_false in F1, F2; congruence. }
  apply wf_with_keys; [done|by apply Sql.insert_key; [apply W|]..|].
  intros k c [Hk|Hk%list_elem_of_singleton]%elem_of_app; [by apply (wf_key_client d W)|by subst].
Qed.

Lemma wf_verify tok n d : wf d → wf (fst (KeyStore.verify tok n d)).
Proof.
  intros W. unfold KeyStore.verify. repeat case_match; simpl; try done.
  apply wf_update_keys; naive_solver.
Qed.

Lemma wf_revoke i n d : wf d → wf (fst (KeyStore.revoke i n d)).
Proof. intros W. apply wf_update_keys; naive_solver. Qed.

Lemma wf_delete_key i d : wf d → wf (fst (KeyStore.delete i d)).
Proof.
  intros W. apply wf_with_keys; [done|by apply Sql.delete_key, W..|].
  intros k c [Hk _]%Sql.elem_of_delete. by apply (wf_key_client d W).
Qed.

Lemma wf_upsert_plan p d : wf d → wf (upsert_plan p d).
Proof.
  intros W. unfold upsert_plan. rewrite Sql.existsb_key. case_bool_decide as Hp.
  - assert (map pl_id (plans (with_plans (Sql.update (λ q, bool_decide (pl_id q = pl_id p))
        (fun _ => p) (plans d)) d)) = map pl_id (plans d)) as E.
    { simpl. apply Sql.update_key. intros r Hr. symmetry. by apply bool_decide_eq_true in Hr. }
    destruct W. split; rewrite ?E; done.
  - assert (map pl_id (plans (with_plans (Sql.insert p (plans d)) d)) = map pl_id (plans d) ++ [pl_id p])
      as E by (simpl; unfold Sql.insert; by rewrite map_app).
    destruct W. split; rewrite ?E; try done.
    + apply NoDup_app. split_and!; [done|set_solver|apply NoDup_singleton].
    + intros s q Hs Hq. apply elem_of_app. left. by eapply wf_sub_plan0.
Qed.

Lemma wf_with_clients cs d :
  wf d → NoDup (map c_id cs) → NoDup (omap c_external_ref cs) →
  map c_id (clients d) ⊆ map c_id cs → wf (with_clients cs d).
Proof. intros [] ? ? ?. split; simpl; try done; eauto. Qed.

Lemma wf_create_client i r e n : pres wf (create_client i r e n).
Proof.
  intros d W. unfold create_client. destruct (existsb _ _) eqn:E; [done|]. simpl.
  assert (∀ c, c ∈ clients d → c_id c ≠ i ∧ (is_Some r → c_external_ref c ≠ r)) as H.
  { intros c Hc. pose proof (Sql.existsb_false_elem _ _ _ E Hc) as [F1 F2]%orb_false_iff.
    apply bool_decide_eq_false in F1. split; [done|]. intros [x ->].
    unfold Sql.sql_eq in F2. by apply bool_decide_eq_false in F2. }
  apply wf_with_clients; [done|..].
  - apply Sql.insert_key; [apply W|]. intros (c & Hc & Hin)%list_elem_of_fmap.
    destruct (H c Hin). simpl in Hc. congruence.
  - unfold Sql.insert. rewrite omap_app. apply NoDup_app. split_and!; [apply W| |].
    + intros x Hx. apply list_elem_of_omap in Hx as (c & Hc & Hcx). simpl.
      destruct r as [r|]; [|set_solver]. rewrite list_elem_of_singleton. intros ->.
      destruct (H c Hc) as [_ H2]. by apply H2.
    + simpl. destruct r; [apply NoDup_singleton|constructor].
  - unfold Sql.insert. rewrite map_app. set_solver.
Qed.

Lemma wf_set_client_status i s d : wf d → wf (fst (set_client_status i s d)).
Proof.
  intros W. unfold set_client_status. simpl. apply wf_with_clients; [done|..].
  - rewrite Sql.update_key; [apply W|done].
  - rewrite Sql.update_omap; [apply W|done].
  - rewrite Sql.update_key; done.
Qed.

Lemma wf_attach_key i c : pres wf (attach_key i c).
Proof.
  intros d W. unfold attach_key. rewrite Sql.existsb_key.
  destruct (Nat.ltb _ _) eqn:N; simpl.
  - case_bool_decide as Hc; simpl; [|done]. apply wf_update_keys; [done|done|].
    intros k c' _ [= <-]. by right.
  - apply Nat.ltb_ge in N. assert (Sql.rowcount (λ k, bool_decide (k_id k = i)) (api_keys d) = 0%nat) as N0 by lia.
    assert (Sql.update (λ k, bool_decide (k_id k = i)) (put_client c) (api_keys d) = api_keys d) as ->.
    { unfold Sql.update. rewrite <- (map_id (api_keys d)) at 2. apply map_ext_in. intros k Hk.
      rewrite (proj1 (Sql.rowcount_zero _ _) N0); [done|by apply list_elem_of_In]. }
    by destruct d.
Qed.

Lemma wf_revoke_client c n d : wf d → wf (fst (revoke_client_keys c n d)).
Proof. intros W. apply wf_update_keys; naive_solver. Qed.

Lemma wf_upsert_subscription n : pres wf (upsert_subscription n).
Proof.
  intros d W. unfold upsert_subscription.
  set (plan_ok := match s_plan n with Some _ => _ | None => _ end).
  assert (plan_ok = true → ∀ p, s_plan n = Some p → p ∈ map pl_id (plans d)) as Hp.
  { unfold plan_ok. intros H p E. rewrite E, Sql.existsb_key in H. by apply bool_decide_eq_true in H. }
  destruct (existsb _ (subscriptions d)) eqn:E; simpl.
  - destruct plan_ok; [|done]. simpl. destruct W. split; simpl; try done.
    + by rewrite Sql.update_key.
    + by rewrite Sql.update_key.
    + apply (Sql.update_forall (fun s => s_client s ∈ map c_id (clients d))); [|done].
      intros r Hr _. done.
    + intros s p Hs. revert s Hs p.
      apply (Sql.update_forall (fun s => ∀ p, s_plan s = Some p → p ∈ map pl_id (plans d)));
        [|naive_solver]. intros r _ _ p. simpl. by apply Hp.
  - rewrite !Sql.existsb_key.
    destruct (bool_decide (s_id n ∈ _)) eqn:E1, (bool_decide (s_client n ∈ _)) eqn:E2, plan_ok; simpl; try done.
    apply bool_decide_eq_false in E1. apply bool_decide_eq_true in E2.
    destruct W. split; simpl; try done.
    + by apply Sql.insert_key.
    + apply Sql.insert_key; [done|]. intros (s & Hs & Hin)%list_elem_of_fmap.
      pose proof (Sql.existsb_false_elem _ _ _ E Hin) as F. unfold same_provider in F.
      injection Hs as H1 H2. rewrite H1, H2, !bool_decide_true in F; done.
    + by apply (Sql.insert_forall (fun s => s_client s ∈ map c_id (clients d))).
    + intros s p Hs. revert s Hs p.
      apply (Sql.insert_forall (fun s => ∀ p, s_plan s = Some p → p ∈ map pl_id (plans d)));
        [|naive_solver]. by apply Hp.
Qed.

Lemma wf_record_event p i ty n d : wf d → wf (fst (record_event_once p i ty n d)).
Proof.
  intros W. unfold record_event_once, Sql.insert_or_ignore. destruct (existsb _ _) eqn:E; simpl.
  - apply wf_with_events; [done|apply W].
  - apply wf_with_events; [done|]. apply Sql.insert_key; [apply W|].
    intros (e & He & Hin)%list_elem_of_fmap.
    pose proof (Sql.existsb_false_elem _ _ _ E Hin) as F. unfold same_event in F.
    injection He as H1 H2. rewrite <- H1, <- H2, !bool_decide_true in F; done.
Qed.
Lemma wf_mark_event p i r n d : wf d → wf (mark_event_processed p i r n d).
Proof. intros W. apply wf_with_events; [done|]. rewrite Sql.update_key; [apply W|done]. Qed.
Lemma wf_forget_event p i d : wf d → wf (forget_event p i d).
Proof. intros W. apply wf_with_events; [done|]. apply Sql.delete_key, W. Qed.

#[local] Hint Resolve wf_create_key wf_verify wf_revoke wf_delete_key wf_upsert_plan
  wf_create_client wf_set_client_status wf_attach_key wf_revoke_client wf_upsert_subscription
  wf_record_event wf_mark_event wf_forget_event : pres.

Lemma exec_wf o d : wf d → wf (exec o d).
Proof.
  intros W. destruct o; cbn [exec]; eauto with pres.
  - destruct W. by split.
  - by apply wf_create_client.
  - by apply wf_attach_key.
  - by apply wf_upsert_subscription.
  - apply pres_stripe_webhook; eauto with pres.
Qed.

(** Every operation of the key store, the usage store and the billing store, and every
    delivery to the Stripe webhook, keeps the schema's constraints, whatever the order:
    unique ids, unique key hashes, unique customer references and provider subscription
    ids, one ledger row per event, and no dangling client or plan. *)
Lemma tables_wf os : wf (execs os empty).
Proof.
  unfold execs. enough (∀ d, wf d → wf (fold_left (fun d o => exec o d) os d)) as H
    by (apply H, wf_empty).
  induction os as [|o os IH]; simpl; intros d W; [done|]. by apply IH, exec_wf.
Qed.

(** ** Keys: round trip and revocation *)

(** Every row with this id is revoked. *)
Definition dead (i : string) (d : Db.t) : Prop :=
  ∀ k, k ∈ api_keys d → k_id k = i → Db.revoked_at k ≠ None.

Lemma dead_verify i tok n d r :
  dead i d → snd (KeyStore.verify tok n d) = Some r → KeyStore.id r ≠ i.
Proof.
  intros D. unfold KeyStore.verify. destruct (negb _); [done|].
  destruct (Sql.fetchone _ _) as [k|] eqn:E; [|done].
  apply Sql.fetchone_Some in E as [Hk _]. destruct (Db.revoked_at k) eqn:R; [done|].
  intros [= <-] Hi. by apply (D k).
Qed.

Lemma dead_update i p f d :
  dead i d → (∀ k, k_id (f k) = k_id k ∧ (Db.revoked_at k ≠ None → Db.revoked_at (f k) ≠ None)) →
  dead i (with_keys (Sql.update p f (api_keys d)) d).
Proof.
  intros D Hf k Hk Hi. simpl in Hk. apply Sql.elem_of_update in Hk as (x & Hx & ->).
  destruct (p x); [|by apply D]. destruct (Hf x) as [H1 H2]. rewrite H1 in Hi. by apply H2, D.
Qed.

Lemma dead_set_status i c s d : dead i d → dead i (fst (set_client_status c s d)).
Proof. done. Qed.
Lemma dead_create_client i c r e n : pres (dead i) (create_client c r e n).
Proof. intros d D. unfold create_client. by destruct (existsb _ _). Qed.
Lemma dead_upsert_subscription i n : pres (dead i) (upsert_subscription n).
Proof. intros d D. unfold upsert_subscription. by repeat case_match. Qed.
Lemma dead_revoke_client i c n d : dead i d → dead i (fst (revoke_client_keys c n d)).
Proof. intros D. by apply dead_update. Qed.
Lemma dead_record_event i p e ty n d : dead i d → dead i (fst (record_event_once p e ty n d)).
Proof. unfold record_event_once, Sql.insert_or_ignore. by destruct (existsb _ _). Qed.

#[local] Hint Resolve dead_set_status dead_create_client dead_upsert_subscription
  dead_revoke_client dead_record_event : pres.

Definition creates (i : string) (o : op) : bool :=
  match o with OpCreateKey _ j _ _ => bool_decide (j = i) | _ => false end.

Lemma exec_dead i o d : creates i o = false → dead i d → dead i (exec o d).
Proof.
  intros Hc D. destruct o; cbn [exec]; eauto with pres.
  - unfold KeyStore.create. destruct (existsb _ _); simpl; [done|].
    intros k [Hk|Hk%list_elem_of_singleton]%elem_of_app Hi; [by apply D|]. subst k.
    simpl in *. by apply bool_decide_eq_false in Hc.
  - unfold KeyStore.verify. repeat case_match; simpl; try done. by apply dead_update.
  - by apply dead_update.
  - intros k [Hk _]%Sql.elem_of_delete Hi. by apply D.
  - unfold upsert_plan. by destruct (existsb _ _).
  - by apply dead_create_client.
  - unfold attach_key. case_match; [done|]. by apply dead_update.
  - by apply dead_upsert_subscription.
  - apply pres_stripe_webhook; eauto with pres.
Qed.

Lemma execs_dead i os d :
  forallb (fun o => negb (creates i o)) os = true → dead i d → dead i (execs os d).
Proof.
  unfold execs. revert d. induction os as [|o os IH]; simpl; intros d H D; [done|].
  apply andb_true_iff in H as [H1%negb_true_iff H2]. apply IH; [done|]. by apply exec_dead.
Qed.

Lemma revoke_dead i n d : dead i (fst (KeyStore.revoke i n d)).
Proof.
  intros k Hk Hi. simpl in Hk. apply Sql.elem_of_update in Hk as (x & Hx & ->).
  unfold KeyStore.live_with_id in *. destruct (bool_decide (k_id x = i)) eqn:E1; simpl in *.
  - destruct (bool_decide (Db.revoked_at x = None)) eqn:E2; [done|].
    by apply bool_decide_eq_false in E2.
  - apply bool_decide_eq_false in E1. done.
Qed.

(** C24. Revocation is terminal: once a key is revoked, no token verifies as that key again,
    whatever operations of the stores and whatever webhook deliveries follow (other than
    the creation of a new key under the very same random id). *)
Theorem revocation_terminal i now1 os tok now2 d r :
  forallb (fun o => negb (creates i o)) os = true →
  snd (KeyStore.verify tok now2 (execs os (fst (KeyStore.revoke i now1 d)))) = Some r →
  KeyStore.id r ≠ i.
Proof. intros H. apply dead_verify, execs_dead; [done|apply revoke_dead]. Qed.

(** The token handed out at creation verifies as that key, with the operator role, in
    the very next state, and any token that verifies as that key
    has the stored hash (so a token is accepted as the new key only if its SHA-256
    is that of the token issued). *)
Theorem create_verify_roundtrip rnd i n l d d' rec tok n2 :
  KeyStore.create rnd i n l d = (d', Ok (rec, tok)) →
  (snd (KeyStore.verify tok n2 d') = Some rec ∧ KeyStore.role rec = KeyStore.ROLE_OPERATOR) ∧
  ∀ tok' n3 r, snd (KeyStore.verify tok' n3 d') = Some r → KeyStore.id r = i →
    Crypto.sha256_hex tok' = Crypto.sha256_hex tok.
Proof.
  unfold KeyStore.create. destruct (existsb _ _) eqn:E; [done|]. intros [= <- <- <-].
  set (h := KeyStore.hash_token _) in *. split; [split; [|reflexivity]|].
  - unfold KeyStore.verify. simpl. rewrite Sql.fetchone_insert.
    destruct (Sql.fetchone _ _) as [x|] eqn:F.
    + apply Sql.fetchone_Some in F as [Hx Hxh].
      pose proof (Sql.existsb_false_elem _ _ _ E Hx) as [_ G]%orb_false_iff. unfold h in G.
      simpl in *. congruence.
    + simpl. rewrite bool_decide_true; done.
  - intros tok' n3 r. unfold KeyStore.verify. destruct (negb _); [done|].
    destruct (Sql.fetchone _ _) as [x|] eqn:F; [|done].
    apply Sql.fetchone_Some in F as [Hx Hxh%bool_decide_eq_true].
    destruct (Db.revoked_at x); [done|]. intros [= <-] Hi. simpl in Hi.
    apply elem_of_app in Hx as [Hx|Hx%list_elem_of_singleton].
    + pose proof (Sql.existsb_false_elem _ _ _ E Hx) as [G _]%orb_false_iff.
      by apply bool_decide_eq_false in G.
    + subst x. symmetry. exact Hxh.
Qed.

(** ** Cancellation *)

Definition keys_are (ks : list api_key) (d : Db.t) : Prop := api_keys d = ks.

Lemma keys_upsert_subscription ks n : pres (keys_are ks) (upsert_subscription n).
Proof. intros d D. unfold upsert_subscription. by repeat case_match. Qed.
Lemma keys_bind_text ks (v : Json.t) : pres (keys_are ks) (bind_text v).
Proof. apply pres_bind_text. Qed.
Lemma keys_jget ks k (a v : Json.t) : pres (keys_are ks) (jget k a v).
Proof. apply pres_jget. Qed.
#[local] Hint Resolve keys_upsert_subscription keys_bind_text keys_jget : pres.

Lemma revoke_client_dead c n d0 d k :
  NoDup (map k_id (api_keys d0)) → api_keys d = api_keys d0 →
  k ∈ api_keys d0 → k_client k = Some c → dead (k_id k) (fst (revoke_client_keys c n d)).
Proof.
  intros ND E Hk Hc k' Hk' Hi. simpl in Hk'. rewrite E in Hk'.
  apply Sql.elem_of_update in Hk' as (x & Hx & ->).
  assert (k_id x = k_id k) as Hid by (by destruct (live_of_client c x)).
  assert (x = k) as ->.
  { clear -ND Hk Hx Hid. induction (api_keys d0) as [|y l IH]; [set_solver|].
    simpl in ND. apply NoDup_cons in ND as [Hn ND].
    apply elem_of_cons in Hk, Hx. destruct Hk as [->|Hk], Hx as [->|Hx]; [done|..|by apply IH];
      destruct Hn; apply list_elem_of_fmap; eauto. }
  unfold live_of_client, Sql.sql_eq in *. rewrite bool_decide_true in * by done. simpl in *.
  case_bool_decide; [done|]. done.
Qed.

Lemma jget_state {S} k (a v : Json.t) (s s' : S) r : jget k a v s = (s', r) → s' = s.
Proof. unfold jget, raise, mret, stmt_ret. destruct (Json.get k v); naive_solver. Qed.

Lemma handle_canceled r ev d d' c k :
  wf d → handle_event r ev d = (d', Ok (Stripe.Lifecycle "canceled" (Some c))) →
  k ∈ api_keys d → k_client k = Some c → dead (k_id k) d'.
Proof.
  intros W H Hk Hc. unfold handle_event in H. stmt_inv.
  - exfalso. unfold on_subscription in H. stmt_inv.
  - exfalso. unfold on_payment_failed in H. stmt_inv.
  - apply jget_state in H0, H1, H2. subst.
    unfold on_deleted in H. apply stmt_bind_Ok in H as (s1 & ref & E1%jget_state & H). subst s1.
    apply stmt_bind_Ok in H as (s2 & sub & E2%jget_state & H). subst s2.
    destruct (negb (Json.truthy ref)); [stmt_inv|].
    apply stmt_bind_Ok in H as (s3 & cl & E3 & H). destruct cl as [cl|]; [|stmt_inv].
    apply (pres_elim (keys_are (api_keys d))) in E3;
      [|unfold find_client; pres_auto|done].
    apply stmt_bind_Ok in H as (s4 & [] & E4 & H).
    apply (pres_elim (keys_are (api_keys d))) in E4;
      [|unfold bind_not_null, period_end; pres_auto|done].
    apply stmt_bind_Ok in H as (s5 & b5 & E5%run_Ok & H).
    apply stmt_bind_Ok in H as (s6 & b6 & E6%run_Ok & H).
    unfold mret, stmt_ret in H. simplify_eq.
    assert (api_keys s5 = api_keys d) as Hs5 by (by injection E5 as <- _).
    replace d' with (fst (revoke_client_keys (c_id cl) (r_revoke r) s5)) by (by rewrite E6).
    eapply revoke_client_dead; [apply W|done..].
Qed.

Lemma bind_text_state {S} (v : Json.t) (s s' : S) r : bind_text v s = (s', r) → s' = s.
Proof. unfold bind_text, raise, mret, stmt_ret. repeat case_match; naive_solver. Qed.

Lemma jget_Ok {S} k (v : Json.t) x (s s' : S) :
  x ≠ Json.JNull → jget k Json.JNull v s = (s', Ok x) → Json.get k v = Some (Some x).
Proof.
  unfold jget, raise, mret, stmt_ret. destruct (Json.get k v) as [[y|]|]; simpl; naive_solver.
Qed.

Definition handled (rs : response) : bool :=
  match rs with Processed _ | ProcessingError => true | _ => false end.

(** A delivery either reaches [handle_event] with a fresh ledger row, or changes nothing. *)
Lemma webhook_cases jl q d d' r :
  stripe_webhook jl q d = (d', r) →
  (d' = d ∧ match r with Ok (rs, _) => handled rs = false | Err _ => True end) ∨
  (∃ ev eid ty d0,
    verify_signature (raw q) (header q) (secret q) (tolerance_s q) (now q) = Ok () ∧
    jl (raw q) = Some ev ∧ Json.get "id" ev = Some (Some (Json.JStr eid)) ∧ eid ≠ "" ∧
    record_event_once PROVIDER eid ty (now_received q) d = (d0, true) ∧
    handle_recorded q ev eid d0 = (d', r)).
Proof.
  unfold stripe_webhook. destruct (negb _); [intros [= <- <-]; by left|].
  destruct (verify_signature _ _ _ _ _) as [[]|[]];
    [|intros [= <- <-]; by left..].
  destruct (jl (raw q)) as [ev|]; [|intros [= <- <-]; by left].
  unfold process, mbind, stmt_bind. destruct (jget "id" _ _ _) as [s1 [v|e]] eqn:E1;
    pose proof (jget_state _ _ _ _ _ _ E1) as ->; [|intros [= <- <-]; by left].
  destruct v as [| | |eid| |]; try (intros [= <- <-]; by left).
  unfold str_true. destruct (bool_decide_reflect (eid = "")) as [|Hne]; simpl; [intros [= <- <-]; by left|].
  destruct (jget "type" _ _ _) as [s2 [ty|e]] eqn:E2;
    apply jget_state in E2 as ->; [|intros [= <- <-]; by left].
  destruct (bind_text _ _) as [s3 [ety|e]] eqn:E3;
    apply bind_text_state in E3 as ->; [|intros [= <- <-]; by left].
  unfold run. destruct (record_event_once _ _ _ _ _) as [d0 []] eqn:R; simpl.
  - intros H. right. exists ev, eid, ety, d0. split_and!; try done.
    by eapply jget_Ok in E1.
  - intros [= <- <-]. left. split; [|done].
    unfold record_event_once, Sql.insert_or_ignore in R.
    destruct (existsb _ _); [|done]. injection R as <-. by destruct d.
Qed.

(** What a processed delivery went through. *)
Lemma webhook_processed jl q d d' a em :
  stripe_webhook jl q d = (d', Ok (Processed a, em)) →
  ∃ ev eid ty d0 d1 res,
    verify_signature (raw q) (header q) (secret q) (tolerance_s q) (now q) = Ok () ∧
    jl (raw q) = Some ev ∧ Json.get "id" ev = Some (Some (Json.JStr eid)) ∧
    record_event_once PROVIDER eid ty (now_received q) d = (d0, true) ∧
    handle_event (env q) ev d0 = (d1, Ok res) ∧
    d' = mark_event_processed PROVIDER eid a (now_processed q) d1 ∧
    a = action res ∧ em = emit_lifecycle res eid.
Proof.
  intros [[_ ?]|(ev & eid & ty & d0 & ? & ? & ? & _ & ? & H)]%webhook_cases; [done|].
  unfold handle_recorded in H. destruct (handle_event _ _ _) as [d1 [res|e]] eqn:E, (end_fault q); try done.
  injection H as <- <- <-. by exists ev, eid, ty, d0, d1, res.
Qed.

Lemma record_event_frame p e ty n d d' b :
  record_event_once p e ty n d = (d', b) →
  api_keys d' = api_keys d ∧ plans d' = plans d ∧ clients d' = clients d ∧
  subscriptions d' = subscriptions d ∧ usage_events d' = usage_events d.
Proof.
  unfold record_event_once, Sql.insert_or_ignore. destruct (existsb _ _); by intros [= <- <-].
Qed.

(** A canceled subscription kills the client's keys for good: when the webhook reports
    that it canceled a client, no token ever verifies again as a key that client owned,
    whatever happens afterwards. *)
Theorem canceled_keys_dead jl q d d' em os k tok n r :
  wf d → stripe_webhook jl q d = (d', Ok (Processed "canceled", Some em)) →
  k ∈ api_keys d → k_client k = Some (em_client em) →
  forallb (fun o => negb (creates (k_id k) o)) os = true →
  snd (KeyStore.verify tok n (execs os d')) = Some r → KeyStore.id r ≠ k_id k.
Proof.
  intros W H Hk Hc Hos. apply dead_verify, execs_dead; [done|].
  destruct (webhook_processed _ _ _ _ _ _ H)
    as (ev & eid & ty & d0 & d1 & [a c] & _ & _ & _ & Hr & He & -> & Ha & Hem). simpl in Ha. subst a.
  destruct c as [c|]; [|done]. injection Hem as ->. simpl in Hc.
  destruct (record_event_frame _ _ _ _ _ _ _ Hr) as (Ek & _).
  change (dead (k_id k) d1). eapply handle_canceled; [|exact He|by rewrite Ek|done].
  replace d0 with (fst (record_event_once PROVIDER eid ty (now_received q) d)) by (by rewrite Hr).
  by apply wf_record_event.
Qed.

(** ** Entitlements *)

Definition operator_tables (p : list plan) (u : list usage_event) (d : Db.t) : Prop :=
  plans d = p ∧ usage_events d = u.

Lemma op_create_client p u c r e n : pres (operator_tables p u) (create_client c r e n).
Proof. intros d D. unfold create_client. by destruct (existsb _ _). Qed.
Lemma op_upsert_subscription p u n : pres (operator_tables p u) (upsert_subscription n).
Proof. intros d D. unfold upsert_subscription. by repeat case_match. Qed.
Lemma op_record_event p u pr e ty n d :
  operator_tables p u d → operator_tables p u (fst (record_event_once pr e ty n d)).
Proof. unfold record_event_once, Sql.insert_or_ignore. by destruct (existsb _ _). Qed.
#[local] Hint Resolve op_create_client op_upsert_subscription op_record_event : pres.

Lemma webhook_operator_tables jl q d :
  operator_tables (plans d) (usage_events d) (fst (stripe_webhook jl q d)).
Proof. apply pres_stripe_webhook; eauto with pres. done. Qed.

Definition entitlement_of (p : plan) : Entitlement :=
  Entitle (pl_id p) (pl_quota_5h p) (pl_quota_weekly p) (pl_rate p) (pl_models p).

(** Entitlements are operator-defined: whatever a delivery to the webhook contains, the
    limits any key is granted afterwards are those of a row of the plans table as the
    operator left it, and no usage row is added or removed. *)
Theorem webhook_never_defines_limits jl q dflt i d :
  usage_events (fst (stripe_webhook jl q d)) = usage_events d ∧
  ∀ e, entitlement (key_access dflt i (fst (stripe_webhook jl q d))) = Some e →
       ∃ p, p ∈ plans d ∧ e = entitlement_of p.
Proof.
  destruct (webhook_operator_tables jl q d) as [Hp Hu]. split; [done|].
  intros e. set (d' := fst _) in *. clearbody d'.
  unfold key_access. repeat case_match; simpl; try done.
  unfold entitlement_for_client.
  destruct (match match _ with [] => None | s :: _ => s_plan s end with Some p => _ | None => _ end);
    [|done].
  destruct (get_plan _ _) as [p|] eqn:G; [|done]. intros [= <-].
  apply Sql.fetchone_Some in G as [G _]. rewrite Hp in G. by exists p.
Qed.

(** What a key may do, on every branch: a key with status [revoked] is refused for good;
    a key of a suspended or canceled client, or itself suspended, is suspended; an active
    client key gets the plan of its most recent active subscription, or the default plan;
    an unowned or unknown key is active with the engine-wide limits. *)
Theorem key_access_spec dflt i d k :
  Sql.fetchone (fun k => bool_decide (k_id k = i)) (api_keys d) = Some k →
  let st := k_client k ≫= fun c => c_status <$> get_client c d in
  let a := key_access dflt i d in
  (status a = STATUS_REVOKED ↔ k_status k = STATUS_REVOKED) ∧
  (k_status k ≠ STATUS_REVOKED →
     (status a = STATUS_SUSPENDED ↔
        k_status k = STATUS_SUSPENDED ∨ st = Some STATUS_SUSPENDED ∨ st = Some STATUS_CANCELED)) ∧
  (status a = STATUS_ACTIVE →
     entitlement a = c ← k_client k; entitlement_for_client dflt c d) ∧
  (status a ≠ STATUS_ACTIVE → entitlement a = None).
Proof.
  intros F st a. unfold a, key_access. rewrite F. clear a.
  assert (STATUS_REVOKED ≠ STATUS_SUSPENDED ∧ STATUS_REVOKED ≠ STATUS_ACTIVE ∧
          STATUS_SUSPENDED ≠ STATUS_ACTIVE) as (N1 & N2 & N3) by done.
  destruct (bool_decide (k_status k = STATUS_REVOKED)) eqn:E1; simpl.
  { apply bool_decide_eq_true in E1. rewrite E1. naive_solver. }
  apply bool_decide_eq_false in E1. unfold st. clear st.
  destruct (k_client k) as [c|]; simpl.
  - destruct (bool_decide (c_status <$> _ = Some STATUS_SUSPENDED)) eqn:E2; simpl.
    { apply bool_decide_eq_true in E2. naive_solver. }
    destruct (bool_decide (c_status <$> _ = Some STATUS_CANCELED)) eqn:E3; simpl.
    { apply bool_decide_eq_true in E3. naive_solver. }
    apply bool_decide_eq_false in E2, E3.
    destruct (bool_decide (k_status k = STATUS_SUSPENDED)) eqn:E4; simpl.
    + apply bool_decide_eq_true in E4. naive_solver.
    + apply bool_decide_eq_false in E4. naive_solver.
  - destruct (bool_decide (k_status k = STATUS_SUSPENDED)) eqn:E4; simpl.
    + apply bool_decide_eq_true in E4. naive_solver.
    + apply bool_decide_eq_false in E4. naive_solver.
Qed.

(** ** Idempotency *)

Lemma same_event_refl p i e : same_event p i e = true ↔ we_provider e = p ∧ we_event_id e = i.
Proof. unfold same_event. by rewrite andb_true_iff, !bool_decide_eq_true. Qed.

Definition ledgered (eid : string) (d : Db.t) : Prop :=
  existsb (same_event PROVIDER eid) (webhook_events d) = true.

Lemma ledger_create_client e c r m n : pres (ledgered e) (create_client c r m n).
Proof. intros d D. unfold create_client. by destruct (existsb _ (clients d)). Qed.
Lemma ledger_upsert_subscription e n : pres (ledgered e) (upsert_subscription n).
Proof. intros d D. unfold upsert_subscription. repeat case_match; done. Qed.
#[local] Hint Resolve ledger_create_client ledger_upsert_subscription : pres.

Lemma ledger_mark e p i r n d : ledgered e d → ledgered e (mark_event_processed p i r n d).
Proof.
  unfold ledgered. rewrite !existsb_exists. intros (x & Hx & E). simpl.
  exists (if same_event p i x then
            WebhookEvent (we_provider x) (we_event_id x) (we_type x) (we_received_at x) (Some n) (Some r)
          else x).
  split; [apply in_map_iff; by exists x|]. by destruct (same_event p i x).
Qed.

Lemma ledger_record eid ty n d d' b :
  record_event_once PROVIDER eid ty n d = (d', b) → ledgered eid d' ∧ (b = false → d' = d).
Proof.
  unfold record_event_once, Sql.insert_or_ignore, ledgered. destruct (existsb _ _) eqn:E.
  - intros [= <- <-]. by destruct d.
  - intros [= <- <-]. split; [|done]. simpl. rewrite existsb_app. simpl.
    unfold same_event at 2. simpl. rewrite !bool_decide_true by done. by rewrite orb_true_r.
Qed.

Lemma ledger_forget eid d : ¬ ledgered eid (forget_event PROVIDER eid d).
Proof.
  unfold ledgered. rewrite existsb_exists. intros (x & [Hx Hn]%filter_In & E). by rewrite E in Hn.
Qed.

Lemma ledgered_duplicate jl q ev eid ty d :
  ledgered eid d → enabled q = true →
  verify_signature (raw q) (header q) (secret q) (tolerance_s q) (now q) = Ok () →
  jl (raw q) = Some ev → Json.get "id" ev = Some (Some (Json.JStr eid)) → eid ≠ "" →
  Json.get "type" ev = Some (Some (Json.JStr ty)) →
  stripe_webhook jl q d = (d, Ok (Duplicate eid, None)).
Proof.
  intros L En Hv Hj Hi Hne Hty. unfold stripe_webhook.
  rewrite En, Hv, Hj. simpl. unfold process, mbind, stmt_bind, jget. rewrite Hi. simpl.
  unfold str_true. rewrite bool_decide_false by done. simpl. rewrite Hty. simpl.
  unfold run, record_event_once, Sql.insert_or_ignore. rewrite L. simpl. by destruct d.
Qed.

(** C25. Deliveries are idempotent, and retried when needed.  A delivery answered
    [processed] leaves its (non-empty) event id in the ledger, and while it is there every
    delivery that billing accepts (enabled, signature valid, body an event with that id and a
    text as type) is answered [duplicate], changes no table and emits nothing.  A delivery
    answered 500 after its event failed leaves no ledger row, so that the provider's retry is
    processed.  When the statement that closes a delivery (the ledger update, or the removal
    of its row) fails itself, that exception leaves the route with the id still in the ledger;
    every other answer, and every other exception, leaves all tables as they were.  The
    numbers of a body are integers. *)
Theorem webhook_idempotent jl q d d' r :
  stripe_webhook jl q d = (d', r) →
  match r with
  | Ok (Processed _, _) =>
      end_fault q = None ∧
      ∃ ev eid, jl (raw q) = Some ev ∧ Json.get "id" ev = Some (Some (Json.JStr eid)) ∧ eid ≠ "" ∧
      ledgered eid d' ∧
      ∀ q' ev' ty d2, ledgered eid d2 → enabled q' = true →
        verify_signature (raw q') (header q') (secret q') (tolerance_s q') (now q') = Ok () →
        jl (raw q') = Some ev' → Json.get "id" ev' = Some (Some (Json.JStr eid)) →
        Json.get "type" ev' = Some (Some (Json.JStr ty)) →
        stripe_webhook jl q' d2 = (d2, Ok (Duplicate eid, None))
  | Ok (ProcessingError, _) =>
      ∃ ev eid, jl (raw q) = Some ev ∧ Json.get "id" ev = Some (Some (Json.JStr eid)) ∧
                ¬ ledgered eid d'
  | Err e =>
      d' = d ∨ (end_fault q = Some e ∧
        ∃ ev eid, jl (raw q) = Some ev ∧ Json.get "id" ev = Some (Some (Json.JStr eid)) ∧ ledgered eid d')
  | _ => d' = d
  end.
Proof.
  intros H. pose proof H as [[-> Hr]|(ev & eid & ty & d0 & _ & Hj & Hid & Hne & Hr & Hh)]%webhook_cases.
  { destruct r as [[[] ?]|]; auto; done. }
  assert (∀ d1 x, handle_event (env q) ev d0 = (d1, x) → ledgered eid d1) as Hl.
  { intros d1 x He. apply (pres_elim (ledgered eid)) in He; [done| |by eapply ledger_record].
    apply pres_handle_event; eauto with pres; done. }
  unfold handle_recorded in Hh.
  destruct (handle_event _ _ _) as [d1 [res|e]] eqn:He, (end_fault q) as [f|] eqn:Ef; injection Hh as <- <-.
  - right. split; [done|]. exists ev, eid. by eauto.
  - split; [done|]. exists ev, eid. split_and!; [done|done|done|by eapply ledger_mark, Hl|].
    intros. by eapply ledgered_duplicate.
  - right. split; [done|]. exists ev, eid. by eauto.
  - exists ev, eid. split_and!; [done|done|apply ledger_forget].
Qed.

(** The ledger row outlives a failing [forget_event]: an event that was not applied is then
    answered [duplicate] when the provider delivers it again. *)
Lemma failed_forget_drops_event jl q d d1 ev eid ty e f d0 :
  enabled q = true → end_fault q = Some f →
  verify_signature (raw q) (header q) (secret q) (tolerance_s q) (now q) = Ok () →
  jl (raw q) = Some ev → Json.get "id" ev = Some (Some (Json.JStr eid)) → eid ≠ "" →
  Json.get "type" ev = Some (Some (Json.JStr ty)) →
  record_event_once PROVIDER eid (Some ty) (now_received q) d = (d0, true) →
  handle_event (env q) ev d0 = (d1, Err e) →
  stripe_webhook jl q d = (d1, Err f) ∧ stripe_webhook jl q d1 = (d1, Ok (Duplicate eid, None)).
Proof.
  intros En Ef Hv Hj Hi Hne Hty Hr Hh. split.
  - unfold stripe_webhook. rewrite En, Hv, Hj. simpl. unfold process, mbind, stmt_bind, jget. rewrite Hi. simpl.
    unfold str_true. rewrite bool_decide_false by done. simpl. rewrite Hty. simpl. unfold run. rewrite Hr. simpl.
    unfold handle_recorded. by rewrite Hh, Ef.
  - eapply ledgered_duplicate; try done. apply (pres_elim (ledgered eid)) in Hh; [done| |by eapply ledger_record].
    apply pres_handle_event; eauto with pres; done.
Qed.

(** ** Authenticity *)

Lemma any_digest_true e l : any_digest e l = Ok true → e ∈ l.
Proof.
  induction l as [|c l IH]; simpl; [done|]. unfold compare_digest.
  destruct (_ && _); [|done]. case_bool_decide as E; [subst; left|right; auto].
Qed.

Lemma expected_ascii sec ts pl : Text.isascii (expected_signature sec ts pl) = true.
Proof.
  unfold Text.isascii, expected_signature. apply forallb_forall. intros c Hc%list_elem_of_In.
  apply Z.ltb_lt. eapply Crypto.hex_code; [|exact Hc]. apply Crypto.sha256_byte.
Qed.

Lemma any_digest_ascii e l :
  Text.isascii e = true → forallb Text.isascii l = true →
  any_digest e l = Ok (bool_decide (e ∈ l)).
Proof.
  intros He. induction l as [|c l IH]; simpl; [done|]. intros [Hc Hl]%andb_true_iff.
  unfold compare_digest. rewrite He, Hc. simpl. destruct (bool_decide (e = c)) eqn:E.
  - apply bool_decide_eq_true in E as ->. by rewrite bool_decide_true by left.
  - apply bool_decide_eq_false in E. rewrite IH by done. f_equal. apply bool_decide_ext. rewrite elem_of_cons. naive_solver.
Qed.

(** The condition under which a parsed header authenticates a payload. *)
Definition authentic (pl : list Z) (sec : string) (tol : Z) (n : Q) (ts : Z) (sigs : list string)
  : Prop :=
  0 <= ts ∧ (0 < tol → (Qabs (n - inject_Z ts) <= inject_Z tol)%Q) ∧
  expected_signature sec ts pl ∈ sigs.

Lemma verify_authentic pl hd sec tol n :
  verify_signature pl hd sec tol n = Ok () →
  ∃ h, hd = Some h ∧
    authentic pl sec tol n (fst (parse_sig_header h)) (snd (parse_sig_header h)).
Proof.
  unfold verify_signature. destruct hd as [h|]; [|done]. do 2 (destruct (negb _); [done|]).
  destruct (parse_sig_header h) as [ts sigs] eqn:P. simpl.
  destruct (Z.ltb_spec ts 0); simpl; [done|]. destruct (Nat.eqb _ _); [done|].
  destruct (_ && Text.overflows ts); [done|].
  destruct (0 <? tol) eqn:T; simpl.
  - destruct (bool_decide (inject_Z tol < _)%Q) eqn:W; [done|]. apply bool_decide_eq_false, Qnot_lt_le in W.
    destruct (any_digest _ _) as [[]|] eqn:A; [|done..]. intros _.
    exists h. rewrite P. split; [done|]. split_and!; [done|done|by apply any_digest_true].
  - destruct (any_digest _ _) as [[]|] eqn:A; [|done..]. intros _.
    exists h. rewrite P. split; [done|]. split_and!; [done|lia|by apply any_digest_true].
Qed.

(** C26. Only authentic deliveries act: if a delivery changes any table, the timestamp its
    [Stripe-Signature] header names is not negative and, where the tolerance is positive,
    within it of the clock, and one of the header's signatures is the HMAC-SHA-256 of that
    timestamp and the raw body under the signing secret. *)
Theorem webhook_authentic jl q d :
  fst (stripe_webhook jl q d) ≠ d →
  ∃ h ts sigs, header q = Some h ∧ parse_sig_header h = (ts, sigs) ∧
               authentic (raw q) (secret q) (tolerance_s q) (now q) ts sigs.
Proof.
  destruct (stripe_webhook jl q d) as [d' r] eqn:H. simpl. intros Hne.
  apply webhook_cases in H as [[? _]|(ev & eid & ty & d0 & Hv & _)]; [done|].
  apply verify_authentic in Hv as (h & Hh & Ha). exists h, (fst (parse_sig_header h)), (snd (parse_sig_header h)).
  split_and!; [done| |done]. by destruct (parse_sig_header h).
Qed.

(** The signature check decides authenticity: for a header whose signatures are ASCII
    and whose timestamp is below the float range, the payload is accepted exactly when the
    timestamp is non-negative and within the tolerance and one of the [v1] signatures is
    the HMAC of the timestamp and the payload. *)
Theorem verify_signature_iff pl h sec tol n ts sigs :
  h ≠ "" → sec ≠ "" → parse_sig_header h = (ts, sigs) →
  forallb Text.isascii sigs = true → Text.overflows ts = false →
  verify_signature pl (Some h) sec tol n = Ok () ↔ authentic pl sec tol n ts sigs.
Proof.
  intros Hh Hs P Ha Ho. split.
  { intros (h' & [= <-] & Au)%verify_authentic. by rewrite P in Au. }
  intros (H0 & Ht & Hin). unfold verify_signature, str_true. rewrite !bool_decide_false by done.
  simpl. rewrite P, Ho, andb_false_r.
  destruct (Z.ltb_spec ts 0); [lia|]. simpl.
  destruct sigs as [|x sigs]; [set_solver|]. simpl (Nat.eqb _ _). cbv iota.
  rewrite any_digest_ascii by (done || apply expected_ascii).
  rewrite (bool_decide_true (_ ∈ _)) by done.
  destruct (Z.ltb_spec 0 tol); simpl; [|done].
  rewrite bool_decide_false; [done|]. by apply Qle_not_lt, Ht.
Qed.

(** Two malformed headers escape the route's error handling: with a fresh timestamp
    and a first [v1] signature that is not ASCII the comparison raises [TypeError], and a
    timestamp beyond the float range raises [OverflowError]; neither is the
    [SignatureError] that the route turns into a 400, for any payload and secret. *)
Theorem malformed_signature_escapes jl q d h ts sigs :
  enabled q = true → secret q ≠ "" → header q = Some h → h ≠ "" →
  parse_sig_header h = (ts, sigs) → 0 <= ts → 0 < tolerance_s q →
  (∀ c rest, sigs = c :: rest → Text.isascii c = false → Text.overflows ts = false →
     (Qabs (now q - inject_Z ts) <= inject_Z (tolerance_s q))%Q →
     stripe_webhook jl q d = (d, Err TypeError)) ∧
  (sigs ≠ [] → Text.overflows ts = true → stripe_webhook jl q d = (d, Err OverflowError)).
Proof.
  intros En Hs Hh Hne P H0 Ht. unfold stripe_webhook, verify_signature, str_true.
  rewrite En, Hh, !bool_decide_false by done. simpl. rewrite P.
  destruct (Z.ltb_spec ts 0); [lia|]. destruct (Z.ltb_spec 0 (tolerance_s q)); [|lia]. simpl.
  split.
  - intros c rest -> Hc Ho Hw. rewrite Ho. simpl.
    rewrite bool_decide_false by (by apply Qle_not_lt). unfold compare_digest.
    by rewrite Hc, andb_false_r.
  - intros Hn Ho. rewrite Ho. by destruct sigs.
Qed.

(** [key_access] does not see a revocation made through the key store: after
    [KeyStore.revoke] an unowned active key is still reported [active], although its token
    no longer verifies. *)
Theorem revoked_key_access_active i now1 d k dflt :
  Sql.fetchone (fun k => bool_decide (k_id k = i)) (api_keys d) = Some k →
  k_status k = STATUS_ACTIVE → k_client k = None →
  status (key_access dflt i (fst (KeyStore.revoke i now1 d))) = STATUS_ACTIVE ∧
  ∀ tok n r, snd (KeyStore.verify tok n (fst (KeyStore.revoke i now1 d))) = Some r → KeyStore.id r ≠ i.
Proof.
  intros F Hs Hc. split.
  - unfold key_access. simpl. rewrite Sql.fetchone_update by done. rewrite F. simpl.
    destruct (KeyStore.live_with_id i k); simpl; by rewrite Hs, Hc.
  - intros tok n r. apply dead_verify, revoke_dead.
Qed.

(** ** A concrete history *)

Definition demo_ops : list op :=
  [OpUpsertPlan (Plan "pro" "Pro" 100 500 (Some 60) None);
   OpCreateClient "c1" (Some "cus_1") None "2024-01-01";
   OpCreateKey "aaaa" "k1" "2024-01-02" None;
   OpAttachKey "k1" "c1";
   OpCreateKey "bbbb" "k2" "2024-01-03" (Some "ops")].
Definition demo_db : Db.t := Eval vm_compute in execs demo_ops empty.

Definition demo_deleted : Json.t :=
  Json.JObj [("id", Json.JStr "evt_1"); ("type", Json.JStr "customer.subscription.deleted");
             ("data", Json.JObj [("object", Json.JObj [("customer", Json.JStr "cus_1");
                                                       ("id", Json.JStr "sub_1")])])].
Definition demo_loads : parser := fun _ => Some demo_deleted.
Definition demo_body : list Z := Eval vm_compute in Crypto.utf8 "{}".
Definition demo_sig : string := Eval vm_compute in expected_signature "whsec" 1000 demo_body.
Definition demo_request : request :=
  Request true "whsec" 300 demo_body (Some ("t=1000,v1=" +:+ demo_sig)) 1100 "r" "p"
    (Reads "u" "a" "b" "c") None.
Definition demo_canceled : Db.t := Eval vm_compute in fst (stripe_webhook demo_loads demo_request demo_db).

Lemma demo_wf : wf demo_db.
Proof.
  change demo_db with (fold_left (fun d o => exec o d) demo_ops empty).
  assert (∀ os d, wf d → wf (fold_left (fun d o => exec o d) os d)) as H.
  { induction os as [|o os IH]; simpl; intros d W; [done|]. by apply IH, exec_wf. }
  apply H, wf_empty.
Qed.

Lemma demo_cancel :
  stripe_webhook demo_loads demo_request demo_db =
  (demo_canceled, Ok (Processed "canceled",
                      Some (Emission "c1" "subscription.canceled" "evt_1.canceled"))).
Proof. vm_compute. reflexivity. Qed.

Lemma revocation_terminal_witness :
  ∃ r, snd (KeyStore.verify "sk-ie-bbbb" "n"
              (execs [OpAttachKey "k1" "c1"] (fst (KeyStore.revoke "k1" "n" demo_db)))) = Some r ∧
       KeyStore.id r ≠ "k1".
Proof.
  eexists. split; [vm_compute; reflexivity|].
  eapply (revocation_terminal "k1" "n" [OpAttachKey "k1" "c1"] "sk-ie-bbbb" "n" demo_db);
    vm_compute; reflexivity.
Defined.

Lemma create_verify_roundtrip_witness :
  ∃ d' rec tok, KeyStore.create "cccc" "k3" "n" None demo_db = (d', Ok (rec, tok)) ∧
    snd (KeyStore.verify tok "m" d') = Some rec.
Proof.
  do 3 eexists. split; [vm_compute; reflexivity|].
  eapply (create_verify_roundtrip "cccc" "k3" "n" None demo_db). vm_compute. reflexivity.
Defined.

Lemma canceled_keys_dead_witness :
  ∃ r, snd (KeyStore.verify "sk-ie-bbbb" "n" (execs [] demo_canceled)) = Some r ∧ KeyStore.id r ≠ "k1".
Proof.
  eexists. split; [vm_compute; reflexivity|].
  refine (canceled_keys_dead demo_loads demo_request demo_db demo_canceled _ []
            (nth 0 (api_keys demo_db) (ApiKey "" "" "" None "" None None None "")) "sk-ie-bbbb" "n" _
            demo_wf demo_cancel _ _ _ _).
  - left.
  - reflexivity.
  - reflexivity.
  - vm_compute. reflexivity.
Defined.

Lemma key_access_spec_witness :
  status (key_access None "k1" demo_db) = STATUS_ACTIVE ∧
  (status (key_access None "k1" demo_db) = STATUS_ACTIVE →
   entitlement (key_access None "k1" demo_db) = entitlement_for_client None "c1" demo_db).
Proof.
  split; [reflexivity|].
  apply (key_access_spec None "k1" demo_db
           (nth 0 (api_keys demo_db) (ApiKey "" "" "" None "" None None None ""))).
  vm_compute. reflexivity.
Defined.

Lemma webhook_idempotent_witness :
  ∃ eid, ledgered eid demo_canceled ∧
         stripe_webhook demo_loads demo_request demo_canceled = (demo_canceled, Ok (Duplicate eid, None)).
Proof.
  destruct (webhook_idempotent demo_loads demo_request demo_db demo_canceled _ demo_cancel)
    as (_ & ev & eid & Hj & Hid & _ & L & H).
  exists eid. split; [exact L|]. injection Hj as <-. injection Hid as <-.
  apply (H demo_request demo_deleted "customer.subscription.deleted" demo_canceled L);
    [reflexivity|vm_compute; reflexivity|reflexivity|reflexivity|reflexivity].
Defined.

Lemma webhook_authentic_witness :
  ∃ h ts sigs, header demo_request = Some h ∧ parse_sig_header h = (ts, sigs) ∧
    authentic demo_body "whsec" 300 1100 ts sigs.
Proof.
  apply (webhook_authentic demo_loads demo_request demo_db).
  rewrite demo_cancel. discriminate.
Defined.

Lemma verify_signature_iff_witness :
  authentic demo_body "whsec" 300 1100 1000 [demo_sig].
Proof.
  apply (verify_signature_iff demo_body ("t=1000,v1=" +:+ demo_sig) "whsec" 300 1100 1000 [demo_sig]);
    [discriminate|discriminate|vm_compute; reflexivity..].
Defined.

Definition demo_latin1 : string := "t=1000,v1=" +:+ String (Crypto.char 233) "".
Definition demo_bad : request :=
  Request true "whsec" 300 demo_body (Some demo_latin1) 1100 "r" "p" (Reads "u" "a" "b" "c") None.

Lemma malformed_signature_escapes_witness :
  stripe_webhook demo_loads demo_bad demo_db = (demo_db, Err TypeError).
Proof.
  eapply (malformed_signature_escapes demo_loads demo_bad demo_db demo_latin1 1000
           [String (Crypto.char 233) ""]);
    [reflexivity|discriminate|reflexivity|discriminate|vm_compute; reflexivity|lia|simpl; lia
    |reflexivity|reflexivity|vm_compute; reflexivity|vm_compute; discriminate].
Defined.

Lemma revoked_key_access_active_witness :
  status (key_access None "k2" (fst (KeyStore.revoke "k2" "n" demo_db))) = STATUS_ACTIVE ∧
  ∀ tok n r, snd (KeyStore.verify tok n (fst (KeyStore.revoke "k2" "n" demo_db))) = Some r →
    KeyStore.id r ≠ "k2".
Proof.
  apply (revoked_key_access_active "k2" "n" demo_db
           (nth 1 (api_keys demo_db) (ApiKey "" "" "" None "" None None None "")) None);
    vm_compute; reflexivity.
Defined.

End Lifecycle.
