(* ===== verification/Gateway.v ===== *)
(** * The secure gateway ([engine/gateway.py])

    [Module Limiter] is the in-memory rate and concurrency limiter, [Module Gateway]
    authentication, the operator gate, authorization with entitlement and quota, and
    the handle ([ApiAccess]) whose [finalize] and [abort] end an authorized request.
    The routes call [authorize_token] without awaiting, so each call is one step of the
    event loop; the limiter's lock makes its own methods atomic. *)

From S2P Require Import Prelude Text Sql Store Quota Keys Billing.

Open Scope Z_scope.

Module Limiter.

(** [Limiter.__init__] and its fields *)
Record t := Mk {
  rate_per_min : Z;
  max_concurrent : Z;
  windows : gmap string (Z * Z);
  inflight : gmap string Z
}.
Definition init (rate max : Z) : t := Mk rate max ∅ ∅.

Definition with_windows (w : gmap string (Z * Z)) (l : t) : t :=
  Mk (rate_per_min l) (max_concurrent l) w (inflight l).
Definition with_inflight (m : gmap string Z) (l : t) : t :=
  Mk (rate_per_min l) (max_concurrent l) (windows l) m.

(** [int(now // 60)] *)
Definition bucket_of (now : Q) : Z := Qfloor (now / 60).

(** [Limiter.check_rate] *)
Definition check_rate (key_id : string) (now : Q) (rate : option Z) (l : t) : t * bool :=
  let effective := default (rate_per_min l) rate in
  if effective <=? 0 then (l, true)
  else
    let bucket := bucket_of now in
    let '(cur_bucket, count) := default (bucket, 0) (windows l !! key_id) in
    let '(cur_bucket, count) := if negb (cur_bucket =? bucket) then (bucket, 0) else (cur_bucket, count) in
    if effective <=? count then (with_windows (<[key_id := (cur_bucket, count)]> (windows l)) l, false)
    else (with_windows (<[key_id := (cur_bucket, count + 1)]> (windows l)) l, true).

(** What [_windows] counts for a key in the minute of [now]. *)
Definition minute_count (key_id : string) (now : Q) (l : t) : Z :=
  match windows l !! key_id with
  | Some (b, c) => if b =? bucket_of now then c else 0
  | None => 0
  end.

(** [self._inflight.get(key_id, 0)] *)
Definition held (key_id : string) (l : t) : Z := default 0 (inflight l !! key_id).

(** [Limiter.acquire] *)
Definition acquire (key_id : string) (l : t) : t * bool :=
  if max_concurrent l <=? 0 then
    (with_inflight (<[key_id := held key_id l + 1]> (inflight l)) l, true)
  else
    let current := held key_id l in
    if max_concurrent l <=? current then (l, false)
    else (with_inflight (<[key_id := current + 1]> (inflight l)) l, true).

(** [Limiter.release] *)
Definition release (key_id : string) (l : t) : t :=
  let current := held key_id l in
  if current <=? 1 then with_inflight (base.delete key_id (inflight l)) l
  else with_inflight (<[key_id := current - 1]> (inflight l)) l.

(** ** Facts *)

Lemma held_check_rate k k' n r l : held k' (fst (check_rate k n r l)) = held k' l.
Proof. unfold check_rate. repeat case_match; done. Qed.
Lemma max_check_rate k n r l : max_concurrent (fst (check_rate k n r l)) = max_concurrent l.
Proof. unfold check_rate. repeat case_match; done. Qed.

(** A request that passes [check_rate] under a limit found the count of its minute below
    it, and is counted. *)
Lemma check_rate_passed k n r l l' :
  check_rate k n r l = (l', true) → 0 < default (rate_per_min l) r →
  minute_count k n l < default (rate_per_min l) r ∧ minute_count k n l' = minute_count k n l + 1.
Proof.
  unfold check_rate, minute_count. intros H Hpos.
  destruct (Z.leb_spec (default (rate_per_min l) r) 0) as [|_]; [lia|].
  destruct (windows l !! k) as [[cb cnt]|]; simpl in H; [|rewrite Z.eqb_refl in H]; simpl in H;
    [destruct (Z.eqb_spec cb (bucket_of n)) as [->|]; simpl in H|];
    match type of H with context [?x <=? ?y] => destruct (Z.leb_spec x y) end; try done;
    injection H as <-; simpl; rewrite lookup_insert_eq, Z.eqb_refl; lia.
Qed.
Lemma minute_count_acquire k k' n l l' b : acquire k l = (l', b) → minute_count k' n l' = minute_count k' n l.
Proof. unfold acquire. repeat case_match; intros [= <- <-]; done. Qed.

Lemma held_acquire k k' l l' :
  acquire k l = (l', true) →
  held k' l' = held k' l + (if bool_decide (k' = k) then 1 else 0) ∧
  (0 < max_concurrent l → held k l < max_concurrent l) ∧ max_concurrent l' = max_concurrent l.
Proof.
  assert (held k' (with_inflight (<[k := held k l + 1]> (inflight l)) l) =
          held k' l + (if bool_decide (k' = k) then 1 else 0)) as Hh.
  { unfold held. simpl. case_bool_decide as E; [subst; by rewrite lookup_insert_eq|].
    rewrite lookup_insert_ne by done. lia. }
  unfold acquire. destruct (Z.leb_spec (max_concurrent l) 0) as [H|H].
  - intros [= <-]. split_and!; [done|lia|done].
  - destruct (Z.leb_spec (max_concurrent l) (held k l)); [done|].
    intros [= <-]. split_and!; [done|lia|done].
Qed.
Lemma held_acquire_fail k l l' : acquire k l = (l', false) → l' = l ∧ 0 < max_concurrent l <= held k l.
Proof.
  unfold acquire. destruct (Z.leb_spec (max_concurrent l) 0); [done|].
  destruct (Z.leb_spec (max_concurrent l) (held k l)); [|done]. intros [= <-]. split; [done|lia].
Qed.

Lemma held_release k k' l :
  0 < held k l →
  held k' (release k l) = held k' l - (if bool_decide (k' = k) then 1 else 0) ∧
  max_concurrent (release k l) = max_concurrent l.
Proof.
  intros H. unfold release. destruct (Z.leb_spec (held k l) 1); simpl; (split; [|done]);
    unfold held in *; simpl; case_bool_decide as E; subst.
  - rewrite lookup_delete_eq. simpl. lia.
  - rewrite lookup_delete_ne by done. lia.
  - by rewrite lookup_insert_eq.
  - rewrite lookup_insert_ne by done. lia.
Qed.

(** ** Rate *)

(** A call of [check_rate]: its key, its clock reading, its override. *)
Definition call := (string * Q * option Z)%type.
Definition run_call (st : t * list (string * Z)) (c : call) : t * list (string * Z) :=
  let '(k, n, r) := c in
  let '(l', ok) := check_rate k n r (fst st) in
  (l', if ok then (k, bucket_of n) :: snd st else snd st).
(** The limiter after the calls, and the requests let through as (key, minute). *)
Definition run_calls (cs : list call) (l : t) : t * list (string * Z) := fold_left run_call cs (l, []).

Definition passed (k : string) (b : Z) (log : list (string * Z)) : Z :=
  Z.of_nat (length (List.filter (fun p => bool_decide (p = (k, b))) log)).

(** The stored count covers what was let through in the stored minute, and nothing was
    let through in a later one. *)
Definition rate_inv (R : Z) (l : t) (log : list (string * Z)) (last : Z) : Prop :=
  ∀ k, match windows l !! k with
       | None => ∀ b, passed k b log = 0
       | Some (b0, c) => passed k b0 log = c ∧ b0 <= last ∧ c <= R ∧
                         (∀ b, b0 < b → passed k b log = 0)
       end ∧ (∀ b, passed k b log <= R).

Definition limits (R : Z) (l : t) (c : call) : Prop :=
  0 < default (rate_per_min l) (snd c) <= R.

Lemma passed_cons k b k' b' log :
  passed k b ((k', b') :: log) = (if bool_decide ((k', b') = (k, b)) then 1 else 0) + passed k b log.
Proof. unfold passed. simpl. case_bool_decide; simpl; lia. Qed.

Lemma rate_step R l log last k n r :
  limits R l (k, n, r) → rate_inv R l log last → last <= bucket_of n → 0 < R →
  let st := run_call (l, log) (k, n, r) in
  rate_inv R (fst st) (snd st) (bucket_of n) ∧ rate_per_min (fst st) = rate_per_min l.
Proof.
  intros Hl I Hlast HR st. unfold limits in Hl. simpl in Hl. unfold st, run_call, check_rate.  cbn [fst snd].
  destruct (Z.leb_spec (default (rate_per_min l) r) 0) as [|_]; [lia|].
  set (b := bucket_of n) in *. set (eff := default (rate_per_min l) r) in *.
  destruct (default (b, 0) (windows l !! k)) as [cb cnt] eqn:W.
  set (cur := if negb (cb =? b) then (b, 0) else (cb, cnt)).
  assert (fst cur = b ∧ passed k b log = snd cur ∧ 0 <= snd cur ∧
          (∀ b', b < b' → passed k b' log = 0)) as (Hb & Hc & H0 & Hlater).
  { destruct (I k) as [Ik _]. assert (∀ b', 0 <= passed k b' log) as Hpos by (unfold passed; lia).
    unfold cur. destruct (windows l !! k) as [[b0 c]|] eqn:E; simpl in W; injection W as <- <-.
    - destruct Ik as (I1 & I2 & I3 & I4). specialize (Hpos b0). destruct (Z.eqb_spec b0 b) as [->|]; simpl.
      + split_and!; [done|done|lia|done].
      + split_and!; [done|apply I4; lia|lia|]. intros b' ?. apply I4. lia.
    - rewrite Z.eqb_refl. simpl. by split_and!. }
  destruct cur as [cb' cnt'] eqn:Ecur. simpl in Hb, Hc, H0. subst cb'.
  destruct (Z.leb_spec eff cnt') as [Hge|Hlt]; simpl; (split; [|done]); intros k'; simpl.
  - destruct (I k') as [Ik Ib]. split; [|done]. destruct (decide (k' = k)) as [->|Hne].
    + rewrite lookup_insert_eq. split_and!; [done|lia| |done]. rewrite <- Hc. apply Ib.
    + rewrite lookup_insert_ne by done. destruct (windows l !! k') as [[b0 c]|]; [|done].
      destruct Ik as (? & ? & ? & ?). split_and!; [done|lia|done|done].
  - destruct (I k') as [Ik Ib]. destruct (decide (k' = k)) as [->|Hne].
    + rewrite lookup_insert_eq. split.
      * split_and!; [|lia|lia|].
        -- rewrite passed_cons, bool_decide_true by done. lia.
        -- intros b' ?. rewrite passed_cons, bool_decide_false by (intros [= ?]; lia).
           by rewrite Hlater.
      * intros b'. rewrite passed_cons. case_bool_decide as E; [injection E as <-; lia|].
        specialize (Ib b'). lia.
    + rewrite lookup_insert_ne by done.
      assert (∀ b', passed k' b' ((k, b) :: log) = passed k' b' log) as Hp.
      { intros b'. rewrite passed_cons, bool_decide_false by naive_solver. lia. }
      split; [|intros b'; rewrite Hp; apply Ib].
      destruct (windows l !! k') as [[b0 c]|]; [|intros b'; by rewrite Hp].
      destruct Ik as (? & ? & ? & ?). rewrite Hp. split_and!; [done|lia|done|].
      intros b' ?. rewrite Hp. auto.
Qed.

(** The rate limit holds: whatever sequence of calls, by any keys and with any
    overrides of at most [R] per minute, under a clock that does not go backwards, at most
    [R] requests of a key pass in any one minute. *)
Theorem rate_bounded R rate max cs k b :
  0 < R → Forall (limits R (init rate max)) cs →
  StronglySorted Z.le (map (fun c : call => bucket_of (snd (fst c))) cs) →
  passed k b (snd (run_calls cs (init rate max))) <= R.
Proof.
  intros HR Hlim Hs. unfold run_calls.
  assert (∀ cs l log last, rate_inv R l log last → rate_per_min l = rate →
    Forall (limits R l) cs → Forall (Z.le last) (map (fun c : call => bucket_of (snd (fst c))) cs) →
    StronglySorted Z.le (map (fun c : call => bucket_of (snd (fst c))) cs) →
    passed k b (snd (fold_left run_call cs (l, log))) <= R) as Hgen.
  { clear -HR. induction cs as [|[[k0 n0] r0] cs IH]; intros l log last I Hr Hl Hlast Hs.
    - simpl. by apply (I k).
    - apply Forall_cons in Hl as [Hl1 Hl2]. simpl in Hlast, Hs.
      apply Forall_cons in Hlast as [Hlast1 _]. inversion Hs as [|? ? Hs1 Hs2]; subst.
      destruct (rate_step R l log last k0 n0 r0) as [I' Hr']; [done..|].
      change (fold_left run_call ((k0, n0, r0) :: cs) (l, log))
        with (fold_left run_call cs (run_call (l, log) (k0, n0, r0))).
      destruct (run_call (l, log) (k0, n0, r0)) as [l1 log1]. simpl in *.
      eapply IH; [exact I'|done| |done|done].
      eapply Forall_impl; [exact Hl2|]. intros c. unfold limits. by rewrite Hr'. }
  destruct cs as [|c cs]; [unfold passed; simpl; lia|].
  apply (Hgen (c :: cs) _ [] (bucket_of (snd (fst c)))); [|done|done| |done].
  - intros k0. split; [|unfold passed; simpl; lia]. simpl. by rewrite lookup_empty.
  - simpl. constructor; [lia|]. by inversion Hs.
Qed.

Lemma rate_bounded_witness :
  passed "k" 0 (snd (run_calls [("k", 1%Q, None); ("k", 2%Q, None); ("k", 3%Q, None)] (init 2 0))) <= 2.
Proof.
  apply (rate_bounded 2 2 0).
  - lia.
  - repeat constructor; vm_compute; congruence.
  - repeat constructor; vm_compute; congruence.
Defined.

End Limiter.

Module Gateway.
Import Db.

Definition LOCAL_KEY_ID : string := "local".

(** The fields of [Settings] the gateway reads. *)
Record Settings := MkSettings {
  host : string;
  require_auth : option bool;
  quota_5h_cu : Q;
  quota_weekly_cu : Q;
  cu_prompt_weight : Q;
  cu_completion_weight : Q;
  rate_limit_per_min : Z;
  max_concurrent_per_key : Z
}.

Definition loopback : list string := ["127.0.0.1"; "::1"; "localhost"].

(** [is_loopback_client] *)
Definition is_loopback_client (h : option string) : bool :=
  match h with Some x => bool_decide (x ∈ loopback) | None => false end.

(** [Settings.is_loopback_host] *)
Definition is_loopback_host (s : Settings) : bool := bool_decide (host s ∈ loopback).

(** [Settings.effective_require_auth] *)
Definition effective_require_auth (s : Settings) : bool :=
  match require_auth s with Some b => b | None => negb (is_loopback_host s) end.

(** [extract_token], from the [authorization] and [x-api-key] headers. *)
Definition extract_token (authorization x_api_key : option string) : option string :=
  let from_key := match x_api_key with
                  | Some k => if str_true k then Some (Text.strip k) else None
                  | None => None end in
  match authorization with
  | Some auth =>
      if str_true auth && Text.startswith "bearer " (Text.lower auth)
      then Some (Text.strip (String.substring 7 (String.length auth - 7) auth))
      else from_key
  | None => from_key
  end.

(** The gateway's mutable state: the shared tables and the limiter. *)
Record state := State { db : Db.t; limiter : Limiter.t }.
Definition with_db (d : Db.t) (s : state) : state := State d (limiter s).
Definition with_limiter (l : Limiter.t) (s : state) : state := State (db s) l.

(** [Gateway.__init__] *)
Definition init (st : Settings) (d : Db.t) : state :=
  State d (Limiter.init (rate_limit_per_min st) (max_concurrent_per_key st)).
Definition compute (st : Settings) : ComputeModel.t :=
  ComputeModel.Mk (cu_prompt_weight st) (cu_completion_weight st).

(** [OpenAIError], with the fields callers see. *)
Record OpenAIError := Error {
  status_code : Z;
  code : string;
  err_headers : list (string * string)
}.

(** [ApiAccess] *)
Record ApiAccess := Handle {
  key_id : string;
  endpoint : string;
  headers : list (string * string);
  slot_held : bool;
  finalized : bool
}.

(** [ApiAccess.abort] *)
Definition abort (a : ApiAccess) (s : state) : ApiAccess * state :=
  if finalized a then (a, s)
  else (Handle (key_id a) (endpoint a) (headers a) false true,
        if slot_held a then with_limiter (Limiter.release (key_id a) (limiter s)) s else s).

(** The arguments of [finalize], its clock reading, and whether [usage.record] succeeds
    (the database may fail).  The [on_usage_recorded] hook, whose exceptions are
    swallowed, does not change the gateway's state. *)
Record outcome := Outcome {
  o_now : Q; o_request : string; o_model : option string; o_prompt : Z; o_completion : Z;
  o_status : Z; o_stored : bool
}.

(** [ApiAccess.finalize] *)
Definition finalize (st : Settings) (o : outcome) (a : ApiAccess) (s : state) : ApiAccess * state :=
  if finalized a then (a, s)
  else
    let cu := ComputeModel.actual (compute st) (o_prompt o) (o_completion o) 1 in
    let s1 := if o_stored o then
                with_db (UsageStore.record
                  (UsageEvent (o_now o) (Some (key_id a)) (o_request o) (endpoint a) (o_model o)
                     (o_prompt o) (o_completion o) cu (Some (o_status o))) (db s)) s
              else s in
    (Handle (key_id a) (endpoint a) (headers a) false true,
     if slot_held a then with_limiter (Limiter.release (key_id a) (limiter s1)) s1 else s1).

(** [Gateway._authenticate_token] *)
Definition authenticate_token (st : Settings) (token : option string) (now : string) (s : state)
  : state * result OpenAIError string :=
  let required := effective_require_auth st in
  match token with
  | Some tok =>
      if str_true tok then
        let '(d', r) := KeyStore.verify tok now (db s) in
        match r with
        | Some rec => (with_db d' s, Ok (KeyStore.id rec))
        | None => (with_db d' s, if required then Err (Error 401 "invalid_api_key" []) else Ok LOCAL_KEY_ID)
        end
      else (s, if required then Err (Error 401 "missing_api_key" []) else Ok LOCAL_KEY_ID)
  | None => (s, if required then Err (Error 401 "missing_api_key" []) else Ok LOCAL_KEY_ID)
  end.

Inductive OperatorAccess := ALLOWED | UNAUTHENTICATED | FORBIDDEN_ROLE.

(** [Gateway.operator_access] *)
Definition operator_access (st : Settings) (client_host token : option string) (now : string) (s : state)
  : state * (OperatorAccess * option KeyStore.KeyRecord) :=
  let keyless := if negb (effective_require_auth st) && is_loopback_client client_host
                 then (ALLOWED, None) else (UNAUTHENTICATED, None) in
  match token with
  | Some tok =>
      if str_true tok then
        let '(d', r) := KeyStore.verify tok now (db s) in
        match r with
        | None => (with_db d' s, (UNAUTHENTICATED, None))
        | Some rec => (with_db d' s,
            match KeyStore.role rec with
            | KeyStore.ROLE_CLIENT => (FORBIDDEN_ROLE, Some rec)
            | KeyStore.ROLE_OPERATOR => (ALLOWED, Some rec)
            end)
        end
      else (s, keyless)
  | None => (s, keyless)
  end.

(** [int(x)] of a float. *)
Definition trunc (q : Q) : Z := Z.quot (Qnum q) (Zpos (Qden q)).

(** The three headers of one window; a window without limit has none. *)
Definition window_headers (suffix : string) (w : UsageStore.WindowUsage) : list (string * string) :=
  if bool_decide (0 < UsageStore.limit w)%Q then
    [("x-ratelimit-limit-cu-" +:+ suffix, Text.str_int (trunc (UsageStore.limit w)));
     ("x-ratelimit-remaining-cu-" +:+ suffix,
        Text.str_int (trunc (default 0%Q (UsageStore.remaining w))));
     ("x-ratelimit-reset-cu-" +:+ suffix, Text.str_int (trunc (UsageStore.reset_at w)))]
  else [].
(** [Gateway._quota_headers] *)
Definition quota_headers (u5h uweek : UsageStore.WindowUsage) : list (string * string) :=
  window_headers "5h" u5h ++ window_headers "week" uweek.

(** The arguments of [authorize_token] with its clock readings; [billing] is the store's
    default plan when billing is configured. *)
Record request := Request {
  token : option string;
  prompt_text : string;
  max_tokens : Z;
  r_endpoint : string;
  model : option string;
  now_iso : string;
  now : Q
}.
Definition billing_cfg := option (option string).

(** The limits a key is authorized against: both quotas and the rate override. *)
Record bounds := Bounds { b_5h : Q; b_week : Q; b_rate : option Z }.

(** The billing part of [authorize_token]: the refusal, or the bounds to apply. *)
Definition entitled (st : Settings) (billing : billing_cfg) (m : option string) (k : string) (d : Db.t)
  : result OpenAIError bounds :=
  let engine_wide := Bounds (quota_5h_cu st) (quota_weekly_cu st) None in
  match billing with
  | None => Ok engine_wide
  | Some dflt =>
      let a := BillingStore.key_access dflt k d in
      if bool_decide (BillingStore.status a = BillingStore.STATUS_REVOKED)
      then Err (Error 403 "key_revoked" [])
      else if bool_decide (BillingStore.status a = BillingStore.STATUS_SUSPENDED)
      then Err (Error 403 "key_suspended" [])
      else match BillingStore.entitlement a with
           | None => Ok engine_wide
           | Some e =>
               let refused := match BillingStore.allowed_models e, m with
                              | Some l, Some x => negb (bool_decide (x ∈ l))
                              | _, _ => false
                              end in
               if refused then Err (Error 403 "model_not_entitled" [])
               else Ok (Bounds (BillingStore.quota_5h_cu e) (BillingStore.quota_weekly_cu e)
                          (BillingStore.rate_limit_per_min e))
           end
  end.

(** The quota part of [authorize_token], with the slot held. *)
Definition quota_check (st : Settings) (q : request) (b : bounds) (k : string) (s : state)
  : state * result OpenAIError ApiAccess :=
  let access := Handle k (r_endpoint q) [] true false in
  let estimate := ComputeModel.estimate (compute st)
                    (ComputeModel.estimate_prompt_tokens (prompt_text q)) (max_tokens q) 1 in
  let u5h := UsageStore.usage_5h k (b_5h b) (now q) (db s) in
  let uweek := UsageStore.usage_weekly k (b_week b) (now q) (db s) in
  let hs := quota_headers u5h uweek in
  if UsageStore.would_exceed uweek estimate then
    (snd (abort access s),
     Err (Error 429 "quota_exceeded"
            (hs ++ [("retry-after", Text.str_int (trunc (UsageStore.reset_at uweek - now q)))])))
  else if UsageStore.would_exceed u5h estimate then
    (snd (abort access s), Err (Error 429 "quota_exceeded" (hs ++ [("retry-after", "60")])))
  else (s, Ok (Handle k (r_endpoint q) hs true false)).

(** [Gateway.authorize_token] *)
Definition authorize_token (st : Settings) (billing : billing_cfg) (q : request) (s : state)
  : state * result OpenAIError ApiAccess :=
  match authenticate_token st (token q) (now_iso q) s with
  | (s, Err e) => (s, Err e)
  | (s, Ok k) =>
      if bool_decide (k = LOCAL_KEY_ID) then (s, Ok (Handle k (r_endpoint q) [] false false))
      else match entitled st billing (model q) k (db s) with
           | Err e => (s, Err e)
           | Ok b =>
               let '(l1, ok) := Limiter.check_rate k (now q) (b_rate b) (limiter s) in
               let s := with_limiter l1 s in
               if negb ok then (s, Err (Error 429 "rate_limit_exceeded" [("retry-after", "60")]))
               else
                 let '(l2, ok) := Limiter.acquire k (limiter s) in
                 let s := with_limiter l2 s in
                 if negb ok
                 then (s, Err (Error 429 "concurrency_limit_exceeded" [("retry-after", "5")]))
                 else quota_check st q b k s
           end
  end.

End Gateway.

(** * What the gateway guarantees *)

Module GatewaySystem.
Import Db Gateway.

Lemma authenticate_frame st tok n s s' r :
  authenticate_token st tok n s = (s', r) →
  limiter s' = limiter s ∧ usage_events (db s') = usage_events (db s).
Proof.
  unfold authenticate_token. destruct tok as [tok|]; [|by intros [= <- <-]].
  destruct (str_true tok); [|by intros [= <- <-]].
  unfold KeyStore.verify. repeat case_match; intros; simplify_eq; done.
Qed.

(** A token that authenticates as a real key is that of a stored, unrevoked key. *)
Lemma authenticate_key st tok n s s' k :
  authenticate_token st tok n s = (s', Ok k) → k ≠ LOCAL_KEY_ID →
  ∃ t r, tok = Some t ∧ snd (KeyStore.verify t n (db s)) = Some r ∧ KeyStore.id r = k.
Proof.
  unfold authenticate_token. destruct tok as [tok|]; [|destruct (effective_require_auth st); naive_solver].
  destruct (str_true tok); [|destruct (effective_require_auth st); naive_solver].
  destruct (KeyStore.verify tok n (db s)) as [d' [r|]] eqn:V.
  - intros [= <- <-] _. exists tok, r. by rewrite V.
  - destruct (effective_require_auth st); naive_solver.
Qed.

Lemma authenticate_local st tok n s s' :
  authenticate_token st tok n s = (s', Ok LOCAL_KEY_ID) →
  effective_require_auth st = false ∨
  ∃ t r, tok = Some t ∧ snd (KeyStore.verify t n (db s)) = Some r ∧ KeyStore.id r = LOCAL_KEY_ID.
Proof.
  unfold authenticate_token. destruct (effective_require_auth st); [|by left].
  destruct tok as [tok|]; [|naive_solver]. destruct (str_true tok); [|naive_solver].
  destruct (KeyStore.verify tok n (db s)) as [d' [r|]] eqn:V; [|naive_solver].
  intros [= <- ?]. right. exists tok, r. by rewrite V.
Qed.

(** The decision of [authorize_token], step by step. *)
Lemma authorize_inv st b q s s' r :
  authorize_token st b q s = (s', r) →
  ∃ s1 ra, authenticate_token st (token q) (now_iso q) s = (s1, ra) ∧
  match ra with
  | Err e => s' = s1 ∧ r = Err e
  | Ok k =>
      (k = LOCAL_KEY_ID ∧ s' = s1 ∧ r = Ok (Handle k (r_endpoint q) [] false false)) ∨
      (k ≠ LOCAL_KEY_ID ∧
       ((∃ e, entitled st b (model q) k (db s1) = Err e ∧ s' = s1 ∧ r = Err e) ∨
        ∃ bd, entitled st b (model q) k (db s1) = Ok bd ∧
        let '(l1, ok) := Limiter.check_rate k (now q) (b_rate bd) (limiter s1) in
        ((ok = false ∧ s' = with_limiter l1 s1 ∧ ¬ is_ok r) ∨
         (ok = true ∧ Limiter.acquire k l1 = (l1, false) ∧ s' = with_limiter l1 s1 ∧ ¬ is_ok r) ∨
         (ok = true ∧ ∃ l2, Limiter.acquire k l1 = (l2, true) ∧
            quota_check st q bd k (with_limiter l2 s1) = (s', r)))))
  end.
Proof.
  unfold authorize_token. destruct (authenticate_token _ _ _ _) as [s1 [k|e]];
    intros H; exists s1; eexists; (split; [reflexivity|]); simpl; [|naive_solver].
  case_bool_decide as Hk; [left; naive_solver|]. right. split; [done|].
  destruct (entitled _ _ _ _ _) as [bd|e] eqn:E; [right|left; naive_solver].
  exists bd. split; [done|].
  destruct (Limiter.check_rate _ _ _ _) as [l1 []]; simpl in H; [|left; naive_solver].
  right. destruct (Limiter.acquire k l1) as [l2 []] eqn:A; simpl in H.
  - right. split; [done|]. by exists l2.
  - apply Limiter.held_acquire_fail in A as Hl. destruct Hl as [-> _]. left. naive_solver.
Qed.

(** What [authorize_token] does to the slots: a granted request with a slot holds one
    more, and every refusal leaves every key's count as it was. *)
Lemma authorize_slots st b q s s' r :
  authorize_token st b q s = (s', r) → (∀ k, 0 <= Limiter.held k (limiter s)) →
  usage_events (db s') = usage_events (db s) ∧
  Limiter.max_concurrent (limiter s') = Limiter.max_concurrent (limiter s) ∧
  match r with
  | Err _ => ∀ k, Limiter.held k (limiter s') = Limiter.held k (limiter s)
  | Ok a => finalized a = false ∧
      (∀ k, Limiter.held k (limiter s') =
         Limiter.held k (limiter s) + (if slot_held a && bool_decide (key_id a = k) then 1 else 0)) ∧
      (slot_held a = true → 0 < Limiter.max_concurrent (limiter s) →
       Limiter.held (key_id a) (limiter s) < Limiter.max_concurrent (limiter s))
  end.
Proof.
  intros H Hpos. apply authorize_inv in H as (s1 & ra & Ha & H).
  apply authenticate_frame in Ha as [Hl Hu]. destruct ra as [k|e].
  2: { destruct H as [-> ->]. rewrite Hl, Hu. done. }
  destruct H as [(-> & -> & ->)|(Hk & [(e & _ & -> & ->)|(bd & _ & H)])].
  - rewrite Hl, Hu. simpl. split_and!; try done. intros. lia.
  - rewrite Hl, Hu. done.
  - destruct (Limiter.check_rate k (now q) (b_rate bd) (limiter s1)) as [l1 ok] eqn:C.
    assert (∀ k', Limiter.held k' l1 = Limiter.held k' (limiter s)) as Hh.
    { intros k'. replace l1 with (fst (Limiter.check_rate k (now q) (b_rate bd) (limiter s1)))
        by (by rewrite C). rewrite Limiter.held_check_rate. by rewrite Hl. }
    assert (Limiter.max_concurrent l1 = Limiter.max_concurrent (limiter s)) as Hm.
    { replace l1 with (fst (Limiter.check_rate k (now q) (b_rate bd) (limiter s1))) by (by rewrite C).
      rewrite Limiter.max_check_rate. by rewrite Hl. }
    destruct H as [(_ & -> & Hr)|[(_ & _ & -> & Hr)|(_ & l2 & A & Q)]].
    1,2: destruct r; [done|]; simpl; rewrite Hu; done.
    unfold quota_check in Q.
    assert (∀ k', Limiter.held k' l2 = Limiter.held k' (limiter s) + (if bool_decide (k = k') then 1 else 0)) as H2.
    { intros k'. destruct (Limiter.held_acquire k k' l1 l2 A) as (Hx & _ & _). rewrite Hx, Hh.
      f_equal. destruct (decide (k = k')); [rewrite !bool_decide_true|rewrite !bool_decide_false]; done. }
    destruct (Limiter.held_acquire k k l1 l2 A) as (_ & Hlt & Hm2).
    assert (∀ e : OpenAIError, s' = snd (abort (Handle k (r_endpoint q) [] true false) (with_limiter l2 s1)) →
      usage_events (db s') = usage_events (db s) ∧
      Limiter.max_concurrent (limiter s') = Limiter.max_concurrent (limiter s) ∧
      ∀ k', Limiter.held k' (limiter s') = Limiter.held k' (limiter s)) as Hab.
    { intros _ ->. simpl. rewrite Hu. split; [done|].
      assert (0 < Limiter.held k l2) as Hgt.
      { rewrite H2, bool_decide_true by done. specialize (Hpos k). lia. }
      split; [|intros k'].
      - destruct (Limiter.held_release k k l2 Hgt) as [_ ->]. congruence.
      - destruct (Limiter.held_release k k' l2 Hgt) as [-> _]. rewrite H2.
        destruct (decide (k = k')) as [->|]; [rewrite !bool_decide_true|rewrite !bool_decide_false]; try done; lia. }
    destruct (UsageStore.would_exceed (UsageStore.usage_weekly _ _ _ _) _); [|
      destruct (UsageStore.would_exceed (UsageStore.usage_5h _ _ _ _) _)]; simplify_eq.
    1,2: destruct (Hab (Error 0 "" []) eq_refl) as (? & ? & ?); by split_and!.
    simpl. rewrite Hu. split_and!; [done|congruence|done|done|]. intros _. rewrite <- Hm, <- Hh. exact Hlt.
Qed.

(** ** Requests in flight *)

(** The gateway with every handle it has given out; other components may change the
    tables at any time. *)
Record sys := Sys { gw : state; handles : list ApiAccess }.

Inductive op :=
| Authorize (b : billing_cfg) (q : request)
| Finalize (i : nat) (o : outcome)
| Abort (i : nat)
| Tables (d : Db.t).

Definition on_handle (f : ApiAccess → state → ApiAccess * state) (i : nat) (x : sys) : sys :=
  match handles x !! i with
  | Some a => let '(a', s') := f a (gw x) in Sys s' (<[i := a']> (handles x))
  | None => x
  end.

Definition step (st : Settings) (o : op) (x : sys) : sys :=
  match o with
  | Authorize b q =>
      match authorize_token st b q (gw x) with
      | (s', Ok a) => Sys s' (handles x ++ [a])
      | (s', Err _) => Sys s' (handles x)
      end
  | Finalize i out => on_handle (finalize st out) i x
  | Abort i => on_handle abort i x
  | Tables d => Sys (with_db d (gw x)) (handles x)
  end.
Definition steps (st : Settings) (os : list op) (x : sys) : sys := fold_left (fun x o => step st o x) os x.

(** Handles of a key that hold a slot. *)
Definition holding (k : string) (hs : list ApiAccess) : Z :=
  Z.of_nat (length (List.filter (fun a => slot_held a && bool_decide (key_id a = k)) hs)).

Record slots_ok (st : Settings) (x : sys) : Prop := {
  so_max : Limiter.max_concurrent (limiter (gw x)) = max_concurrent_per_key st;
  so_exact : ∀ k, Limiter.held k (limiter (gw x)) = holding k (handles x);
  so_bound : 0 < max_concurrent_per_key st → ∀ k, Limiter.held k (limiter (gw x)) <= max_concurrent_per_key st;
  so_final : ∀ a, a ∈ handles x → finalized a = true → slot_held a = false
}.

Lemma holding_nonneg k hs : 0 <= holding k hs.
Proof. unfold holding. lia. Qed.

Lemma holding_app k hs a :
  holding k (hs ++ [a]) = holding k hs + (if slot_held a && bool_decide (key_id a = k) then 1 else 0).
Proof.
  unfold holding. rewrite List.filter_app, length_app. simpl. case_match; simpl; lia.
Qed.

Lemma holding_insert k hs i a a' :
  hs !! i = Some a → slot_held a' = false →
  holding k (<[i := a']> hs) = holding k hs - (if slot_held a && bool_decide (key_id a = k) then 1 else 0).
Proof.
  unfold holding. revert i. induction hs as [|x hs IH]; intros [|i] Hi Ha'; simpl in *; simplify_eq.
  - rewrite Ha'. simpl. case_match; simpl; lia.
  - specialize (IH i Hi Ha'). destruct (slot_held x && _); simpl; lia.
Qed.

(** Ending a handle gives its slot back, once. *)
Lemma end_handle_ok st x i a a' s' :
  slots_ok st x → handles x !! i = Some a →
  slot_held a' = false →
  (limiter s' = if slot_held a then Limiter.release (key_id a) (limiter (gw x)) else limiter (gw x)) →
  slots_ok st (Sys s' (<[i := a']> (handles x))).
Proof.
  intros [Hm He Hb Hf] Hi Ha' Hl.
  assert (slot_held a = true → 0 < Limiter.held (key_id a) (limiter (gw x))) as Hpos.
  { intros Hs. rewrite He. unfold holding.
    assert (a ∈ List.filter (fun b => slot_held b && bool_decide (key_id b = key_id a)) (handles x)) as Hin.
    { rewrite list_elem_of_In, filter_In. split; [apply list_elem_of_In; by eapply list_elem_of_lookup_2|].
      by rewrite Hs, bool_decide_true. }
    destruct (List.filter _ _); [set_solver|simpl; lia]. }
  assert (∀ k, Limiter.held k (limiter s') = Limiter.held k (limiter (gw x))
            - (if slot_held a && bool_decide (key_id a = k) then 1 else 0)) as Hh.
  { intros k. rewrite Hl. destruct (slot_held a); simpl; [|lia].
    destruct (Limiter.held_release (key_id a) k _ (Hpos eq_refl)) as [-> _]. f_equal.
    destruct (decide (k = key_id a)) as [->|]; [rewrite !bool_decide_true|rewrite !bool_decide_false]; done. }
  split; simpl.
  - rewrite Hl. destruct (slot_held a); [|done].
    by destruct (Limiter.held_release (key_id a) (key_id a) _ (Hpos eq_refl)) as [_ ->].
  - intros k. rewrite Hh, (holding_insert k _ _ _ _ Hi Ha'), He. done.
  - intros H0 k. rewrite Hh. specialize (Hb H0 k). destruct (slot_held a && _); lia.
  - intros b [j Hj]%list_elem_of_lookup Hfb. destruct (decide (i = j)) as [<-|Hne].
    + rewrite list_lookup_insert_eq in Hj by (by eapply lookup_lt_Some). by simplify_eq.
    + rewrite list_lookup_insert_ne in Hj by done. eapply Hf; [by eapply list_elem_of_lookup_2|done].
Qed.

Lemma step_slots st o x : slots_ok st x → slots_ok st (step st o x).
Proof.
  intros I. destruct o as [b q|i o|i|d]; simpl.
  - destruct (authorize_token st b q (gw x)) as [s' r] eqn:A.
    pose proof I as [Hm He Hb Hf].
    apply authorize_slots in A as (_ & Hm' & Hr); [|intros k; rewrite He; apply holding_nonneg].
    destruct r as [a|e].
    + destruct Hr as (Hfa & Hh & Hlt). split; simpl.
      * congruence.
      * intros k. by rewrite Hh, He, holding_app.
      * intros H0 k. rewrite Hh. specialize (Hb H0 k).
        destruct (slot_held a) eqn:Hs; simpl; [|lia]. case_bool_decide as Hk; [|lia].
        subst k. rewrite Hm in Hlt. specialize (Hlt eq_refl H0). lia.
      * intros c [Hc|Hc%list_elem_of_singleton]%elem_of_app; [by apply Hf|by subst; congruence].
    + split; simpl; [congruence|intros k; by rewrite Hr, He|intros H0 k; rewrite Hr; auto|done].
  - unfold on_handle. destruct (handles x !! i) as [a|] eqn:Hi; [|done]. unfold finalize.
    destruct (finalized a) eqn:Ha; [by rewrite list_insert_id; destruct x|].
    eapply end_handle_ok; [done|done|done|]. by destruct (slot_held a), (o_stored o).
  - unfold on_handle. destruct (handles x !! i) as [a|] eqn:Hi; [|done]. unfold abort.
    destruct (finalized a) eqn:Ha; [by rewrite list_insert_id; destruct x|].
    eapply end_handle_ok; [done|done|done|]. by destruct (slot_held a).
  - destruct I. by split.
Qed.

Lemma init_slots st d : slots_ok st (Sys (init st d) []).
Proof.
  split; simpl; [done|done| |set_solver].
  intros H k. unfold Limiter.held. simpl. rewrite lookup_empty. simpl. lia.
Qed.

Lemma steps_slots st d os : slots_ok st (steps st os (Sys (init st d) [])).
Proof.
  unfold steps. generalize (init_slots st d). generalize (Sys (init st d) []).
  induction os as [|o os IH]; simpl; intros y Hy; [done|]. by apply IH, step_slots.
Qed.

(** Concurrency slots are exact: after any history of authorizations (granted or
    refused on any path), finalizations and aborts, repeated ones included, with the
    tables changing underneath, the limiter's count of a key is the number of its live
    requests that hold a slot; so no error path leaks a slot, none is given back twice,
    and a key never has more than [max_concurrent_per_key] requests in flight. *)
Theorem slots_exact st d os k :
  let x := steps st os (Sys (init st d) []) in
  Limiter.held k (limiter (gw x)) = holding k (handles x) ∧
  (0 < max_concurrent_per_key st → holding k (handles x) <= max_concurrent_per_key st).
Proof.
  intros x. pose proof (steps_slots st d os : slots_ok st x) as I.
  split; [apply I|]. intros H. rewrite <- (so_exact st x I). by apply I.
Qed.

(** Once every request has been finalized or aborted, in whatever order, the limiter
    is idle for every key. *)
Theorem slots_drain st d os k :
  let x := steps st os (Sys (init st d) []) in
  Forall (fun a => finalized a = true) (handles x) → Limiter.held k (limiter (gw x)) = 0.
Proof.
  intros x Hall. pose proof (steps_slots st d os : slots_ok st x) as I.
  rewrite (so_exact st x I). unfold holding.
  destruct (List.filter _ _) as [|a l] eqn:E; [done|].
  assert (a ∈ List.filter (fun a => slot_held a && bool_decide (key_id a = k)) (handles x)) as Ha
    by (rewrite E; left).
  apply list_elem_of_In, filter_In in Ha as [Ha Hs].
  apply list_elem_of_In in Ha. rewrite Forall_forall in Hall.
  rewrite (so_final st x I a Ha (Hall a Ha)) in Hs. done.
Qed.

(** ** Ending a request *)

Inductive ending := EFinalize (o : outcome) | EAbort.
Definition end_call (st : Settings) (e : ending) (as_ : ApiAccess * state) : ApiAccess * state :=
  match e with
  | EFinalize o => finalize st o (fst as_) (snd as_)
  | EAbort => abort (fst as_) (snd as_)
  end.

Definition stored (e : ending) : nat :=
  match e with EFinalize o => if o_stored o then 1 else 0 | EAbort => 0 end.

(** A request is metered at most once: of any sequence of [finalize] and [abort] calls
    on its handle only the first has an effect; it adds one usage row exactly when it is a
    [finalize] whose write succeeds, carrying the handle's key and the actual compute
    units, and it frees the slot even when the write fails. *)
Theorem access_ends_once st e es a s :
  finalized a = false →
  let r1 := end_call st e (a, s) in
  fold_left (fun x e => end_call st e x) es r1 = r1 ∧
  length (usage_events (db (snd r1))) = (length (usage_events (db s)) + stored e)%nat ∧
  limiter (snd r1) = (if slot_held a then Limiter.release (key_id a) (limiter s) else limiter s) ∧
  slot_held (fst r1) = false ∧
  ∀ o, e = EFinalize o → o_stored o = true → ∀ since k,
    (UsageStore.sum_cu k since (db (snd r1)) ==
     UsageStore.sum_cu k since (db s) +
     (if bool_decide (key_id a = k) && bool_decide (since <= o_now o)%Q
      then ComputeModel.actual (compute st) (o_prompt o) (o_completion o) 1 else 0))%Q.
Proof.
  intros Ha r1.
  assert (finalized (fst r1) = true) as Hf.
  { unfold r1, end_call. destruct e; simpl; unfold finalize, abort; by rewrite Ha. }
  split_and!.
  - clearbody r1. induction es as [|e' es IH]; simpl; [done|].
    replace (end_call st e' r1) with r1; [done|]. destruct r1 as [a1 s1]. simpl in Hf.
    unfold end_call. destruct e'; simpl; unfold finalize, abort; by rewrite Hf.
  - unfold r1, end_call. destruct e as [o|]; simpl; unfold finalize, abort; rewrite Ha; simpl.
    + destruct (o_stored o), (slot_held a); simpl; unfold Sql.insert; rewrite ?length_app; simpl; lia.
    + destruct (slot_held a); simpl; lia.
  - unfold r1, end_call. destruct e as [o|]; simpl; unfold finalize, abort; rewrite Ha; simpl.
    + by destruct (o_stored o), (slot_held a).
    + by destruct (slot_held a).
  - unfold r1, end_call. destruct e; simpl; unfold finalize, abort; by rewrite Ha.
  - intros o -> Hs since k. unfold r1, end_call. simpl. unfold finalize. rewrite Ha, Hs. simpl.
    destruct (slot_held a); simpl; rewrite UsageStore.sum_cu_record; simpl; unfold Sql.sql_eq;
      (replace (bool_decide (Some (key_id a) = Some k)) with (bool_decide (key_id a = k))
         by (apply bool_decide_ext; naive_solver)); reflexivity.
Qed.

(** ** Authorization *)

Lemma would_exceed_false w x :
  UsageStore.would_exceed w x = false →
  (0 < UsageStore.limit w → UsageStore.used w + x <= UsageStore.limit w)%Q.
Proof.
  unfold UsageStore.would_exceed. case_bool_decide as H; [intros _ H'; lra|].
  case_bool_decide as H'; [done|]. intros _ _. by apply Qnot_lt_le.
Qed.

(** The row of a key that [token] is the secret of: stored under its hash, not revoked. *)
Definition live_row (t : string) (d : Db.t) (row : api_key) : Prop :=
  row ∈ api_keys d ∧ key_hash row = KeyStore.hash_token t ∧ Db.revoked_at row = None.

(** What billing grants the key of [row]: without billing, for a key no client owns and for
    a client without a plan, the engine's limits; otherwise those of the plan, which must
    list the model asked for if it lists models. *)
Definition granted (st : Settings) (b : billing_cfg) (m : option string) (row : api_key) (d : Db.t)
  (bd : bounds) : Prop :=
  let engine_wide := Bounds (quota_5h_cu st) (quota_weekly_cu st) None in
  match b with
  | None => bd = engine_wide
  | Some dflt =>
      k_status row ≠ "revoked" ∧ k_status row ≠ "suspended" ∧
      match k_client row with
      | None => bd = engine_wide
      | Some c =>
          (∀ cl, BillingStore.get_client c d = Some cl → c_status cl ≠ "suspended" ∧ c_status cl ≠ "canceled") ∧
          match BillingStore.entitlement_for_client dflt c d with
          | None => bd = engine_wide
          | Some e =>
              (∀ l x, BillingStore.allowed_models e = Some l → m = Some x → x ∈ l) ∧
              bd = Bounds (BillingStore.quota_5h_cu e) (BillingStore.quota_weekly_cu e)
                     (BillingStore.rate_limit_per_min e)
          end
      end
  end.

Lemma verify_row t n d d' r :
  KeyStore.verify t n d = (d', Some r) →
  ∃ row, live_row t d row ∧ KeyStore.id r = k_id row ∧
    d' = with_keys (Sql.update (fun k => bool_decide (k_id k = k_id row)) (KeyStore.touch n) (api_keys d)) d.
Proof.
  unfold KeyStore.verify, live_row. destruct (str_true t); simpl; [|done].
  destruct (Sql.fetchone _ _) as [row|] eqn:F; [|done]. apply Sql.fetchone_Some in F as [F ?%bool_decide_eq_true].
  destruct (Db.revoked_at row) eqn:R; [done|]. intros [= <- <-]. by exists row.
Qed.

Lemma verify_live t n d r :
  snd (KeyStore.verify t n d) = Some r → ∃ row, live_row t d row ∧ KeyStore.client_id r = k_client row.
Proof.
  unfold KeyStore.verify, live_row. destruct (str_true t); simpl; [|done].
  destruct (Sql.fetchone _ _) as [row|] eqn:F; [|done]. apply Sql.fetchone_Some in F as [F ?%bool_decide_eq_true].
  destruct (Db.revoked_at row) eqn:R; [done|]. intros [= <-]. by exists row.
Qed.

(** The row an authenticated key is billed by is the one its token is stored in. *)
Lemma entitled_granted st b m n row d bd :
  NoDup (map k_id (api_keys d)) → row ∈ api_keys d →
  entitled st b m (k_id row)
    (with_keys (Sql.update (fun k => bool_decide (k_id k = k_id row)) (KeyStore.touch n) (api_keys d)) d) = Ok bd →
  granted st b m row d bd.
Proof.
  intros Hn Hr. unfold entitled, granted. destruct b as [dflt|]; [|congruence].
  unfold BillingStore.key_access. cbn [api_keys with_keys].
  rewrite Sql.fetchone_update, Sql.fetchone_key by (try done; intros x; by case_bool_decide).
  cbn [fmap option_fmap option_map]. rewrite (bool_decide_true (k_id row = k_id row)) by done.
  cbn [KeyStore.touch k_status k_client].
  set (d' := with_keys _ d).
  assert (∀ c, BillingStore.get_client c d' = BillingStore.get_client c d ∧
    BillingStore.entitlement_for_client dflt c d' = BillingStore.entitlement_for_client dflt c d) as Hd by done.
  clearbody d'. destruct (bool_decide (k_status row = BillingStore.STATUS_REVOKED)) eqn:R; [done|].
  apply bool_decide_eq_false in R.
  destruct (bool_decide (k_status row = BillingStore.STATUS_SUSPENDED)) eqn:S; destruct (k_client row) as [c|];
    [by destruct (_ || _)|done| |].
  2: { apply bool_decide_eq_false in S. simpl. intros [= <-]. done. }
  destruct (Hd c) as [-> ->]. apply bool_decide_eq_false in S.
  destruct (_ || _) eqn:C; simpl; [done|]. apply orb_false_iff in C as [C1 C2].
  apply bool_decide_eq_false in C1, C2. intros H.
  split_and!; [done|done|clear H; intros cl Hcl; rewrite Hcl in C1, C2; simpl in C1, C2;
    split; intros E; [apply C1|apply C2]; by rewrite E|].
  destruct (BillingStore.entitlement_for_client dflt c d) as [e|]; [|congruence].
  destruct (BillingStore.allowed_models e) as [l|], m as [x|]; simpl in H; try (by split; [naive_solver|congruence]).
  destruct (bool_decide_reflect (x ∈ l)); simpl in H; [|done]. split; [naive_solver|congruence].
Qed.

(** C6. A request that passes the gateway is entitled to.  Either it is anonymous, where
    authentication is not required (or its key's id is the reserved one of anonymous use),
    and takes no concurrency slot; or its token is the secret of a stored, unrevoked key and:
    billing grants that key its limits (neither the key nor its client is suspended, revoked
    or canceled, and a plan that lists models lists the model asked for); where a rate limit
    applies, fewer requests of the key than the limit had passed in this minute and this one
    is counted; where a concurrency limit applies, the key held fewer slots than the limit,
    and now exactly one more, the other keys' counts unchanged; and the recorded usage plus
    the estimated cost stays within the limit of each window that has one. *)
Theorem authorize_sound st b q s s' a :
  NoDup (map k_id (api_keys (db s))) →
  authorize_token st b q s = (s', Ok a) →
  (key_id a = LOCAL_KEY_ID ∧ slot_held a = false ∧ limiter s' = limiter s ∧
     (effective_require_auth st = false ∨
      ∃ t row, token q = Some t ∧ live_row t (db s) row ∧ k_id row = LOCAL_KEY_ID)) ∨
  (slot_held a = true ∧
   ∃ t row bd, token q = Some t ∧ live_row t (db s) row ∧ k_id row = key_id a ∧
     granted st b (model q) row (db s) bd ∧
     (let rate := default (Limiter.rate_per_min (limiter s)) (b_rate bd) in
      0 < rate → Limiter.minute_count (key_id a) (now q) (limiter s) < rate ∧
                 Limiter.minute_count (key_id a) (now q) (limiter s') =
                 Limiter.minute_count (key_id a) (now q) (limiter s) + 1) ∧
     (0 < Limiter.max_concurrent (limiter s) →
      Limiter.held (key_id a) (limiter s) < Limiter.max_concurrent (limiter s)) ∧
     (∀ k, Limiter.held k (limiter s') =
           Limiter.held k (limiter s) + (if bool_decide (k = key_id a) then 1 else 0)) ∧
     let est := ComputeModel.estimate (compute st)
                  (ComputeModel.estimate_prompt_tokens (prompt_text q)) (max_tokens q) 1 in
     (0 < b_5h bd → UsageStore.sum_cu (key_id a) (Windows.rolling_5h_start (now q)) (db s) + est <= b_5h bd)%Q ∧
     (0 < b_week bd → UsageStore.sum_cu (key_id a) (Windows.week_start (now q)) (db s) + est <= b_week bd)%Q).
Proof.
  intros Hn H. apply authorize_inv in H as (s1 & ra & Ha & H).
  pose proof (authenticate_frame _ _ _ _ _ _ Ha) as [Hl Hu].
  destruct ra as [k|e]; [|by destruct H].
  destruct H as [(-> & -> & [= ->])|(Hk & [(e & _ & _ & ?)|(bd & He & H)])]; [|done|].
  { left. split_and!; [done..|]. apply authenticate_local in Ha as [?|(t & r & ? & V & Hr)]; [by left|right].
    destruct (KeyStore.verify t (now_iso q) (db s)) as [d' ?] eqn:V'. simpl in V. subst.
    apply verify_row in V' as (row & ? & ? & _). exists t, row. by split_and!; [..|congruence]. }
  right. destruct (Limiter.check_rate k (now q) (b_rate bd) (limiter s1)) as [l1 ok] eqn:C.
  destruct H as [(_ & _ & Hr)|[(_ & _ & _ & Hr)|(-> & l2 & A & Hq)]]; [by destruct Hr..|].
  unfold quota_check in Hq.
  destruct (UsageStore.would_exceed (UsageStore.usage_weekly _ _ _ _) _) eqn:W1; [done|].
  destruct (UsageStore.would_exceed (UsageStore.usage_5h _ _ _ _) _) eqn:W2; [done|].
  injection Hq as <- <-. simpl. split; [done|].
  unfold authenticate_token in Ha. destruct (token q) as [t|]; [|case_match; naive_solver].
  destruct (str_true t); [|case_match; naive_solver].
  destruct (KeyStore.verify t (now_iso q) (db s)) as [d1 [r|]] eqn:V; [|case_match; naive_solver].
  injection Ha as <- <-. simpl in *. apply verify_row in V as (row & Hlive & Hid & ->).
  pose proof (would_exceed_false _ _ W1) as B1. pose proof (would_exceed_false _ _ W2) as B2.
  pose proof (Limiter.held_check_rate (KeyStore.id r) (KeyStore.id r) (now q) (b_rate bd) (limiter s)) as Hh.
  pose proof (Limiter.max_check_rate (KeyStore.id r) (now q) (b_rate bd) (limiter s)) as Hm.
  exists t, row, bd. rewrite Hid in *. rewrite C in Hh, Hm. simpl in Hh, Hm. split_and!; try done.
  - destruct Hlive. by eapply entitled_granted.
  - intros Hpos. rewrite (Limiter.minute_count_acquire _ _ _ _ _ _ A). by eapply Limiter.check_rate_passed.
  - rewrite <- Hm, <- Hh. by apply (Limiter.held_acquire _ (k_id row) _ _ A).
  - intros k. rewrite (proj1 (Limiter.held_acquire _ k _ _ A)). f_equal.
    pose proof (Limiter.held_check_rate (k_id row) k (now q) (b_rate bd) (limiter s)) as Hk'. by rewrite C in Hk'.
Qed.

(** The operator gate: a request is allowed exactly when it carries the token of an
    unrevoked key that no billing client owns, or no token at all from a loopback address
    while authentication is off; a client-owned key is always refused with
    [FORBIDDEN_ROLE], and any other token with [UNAUTHENTICATED], from any address. *)
Theorem operator_gate st h tok n s :
  let a := fst (snd (operator_access st h tok n s)) in
  let keyless := tok = None ∨ tok = Some "" in
  let rec := t ← tok; if str_true t then snd (KeyStore.verify t n (db s)) else None in
  (a = ALLOWED ↔
     (∃ r, rec = Some r ∧ KeyStore.client_id r = None) ∨
     (keyless ∧ effective_require_auth st = false ∧ is_loopback_client h = true)) ∧
  (a = FORBIDDEN_ROLE ↔ ∃ r c, rec = Some r ∧ KeyStore.client_id r = Some c) ∧
  (a = ALLOWED → ∀ r, snd (snd (operator_access st h tok n s)) = Some r →
     Db.revoked_at <$> Sql.fetchone (fun k => bool_decide (key_hash k = KeyStore.hash_token (default "" tok)))
       (api_keys (db s)) = Some None).
Proof.
  intros a keyless rec. unfold a, keyless, rec, operator_access. clear a keyless rec.
  destruct tok as [t|]; simpl.
  2: { destruct (effective_require_auth st), (is_loopback_client h); simpl; naive_solver. }
  destruct (str_true t) eqn:Ht.
  - assert (t ≠ "") as Hne by (by intros ->).
    destruct (KeyStore.verify t n (db s)) as [d' [r|]] eqn:V; simpl.
    + assert (Db.revoked_at <$> Sql.fetchone (fun k => bool_decide (key_hash k = KeyStore.hash_token t))
        (api_keys (db s)) = Some None) as Hrev.
      { unfold KeyStore.verify in V. rewrite Ht in V. simpl in V.
        destruct (Sql.fetchone _ _) as [k|]; [|done]. simpl. by destruct (Db.revoked_at k). }
      unfold KeyStore.role. destruct (KeyStore.client_id r) as [c|] eqn:C; simpl;
        rewrite ?bool_decide_true by done; simpl; naive_solver.
    + naive_solver.
  - assert (t = "") as -> by (unfold str_true in Ht; by apply negb_false_iff, bool_decide_eq_true in Ht).
    destruct (effective_require_auth st), (is_loopback_client h); simpl; naive_solver.
Qed.

(** ** A concrete history *)

Definition demo_settings : Settings := MkSettings "0.0.0.0" None 1000 5000 1 1 60 2.
Definition demo_db : Db.t :=
  Eval vm_compute in fst (KeyStore.create "aaaa" "k1" "2024-01-02" None Db.empty).
Definition demo_request : request := Request (Some "sk-ie-aaaa") "hello" 16 "/v1/chat" None "n" 1000.
Definition demo_ops : list op :=
  [Authorize None demo_request; Authorize None demo_request; Authorize None demo_request;
   Finalize 0 (Outcome 1001 "r1" None 2 5 200 true); Abort 0; Abort 1].

Lemma slots_drain_witness :
  Limiter.held "k1" (limiter (gw (steps demo_settings demo_ops (Sys (init demo_settings demo_db) [])))) = 0.
Proof. apply slots_drain. vm_compute. repeat constructor. Defined.

Lemma access_ends_once_witness :
  let a := Handle "k1" "/v1/chat" [] true false in
  let s := State demo_db (Limiter.Mk 60 2 ∅ {["k1" := 1]}) in
  let o := Outcome 1001 "r1" None 2 5 200 true in
  length (usage_events (db (snd (end_call demo_settings (EFinalize o) (a, s))))) = 1%nat ∧
  fold_left (fun x e => end_call demo_settings e x) [EAbort] (end_call demo_settings (EFinalize o) (a, s)) =
  end_call demo_settings (EFinalize o) (a, s).
Proof.
  intros a s o.
  destruct (access_ends_once demo_settings (EFinalize o) [EAbort] a s eq_refl) as (H1 & H2 & _).
  split; [exact H2|exact H1].
Defined.

Lemma authorize_sound_witness :
  ∃ s' a, authorize_token demo_settings None demo_request (init demo_settings demo_db) = (s', Ok a) ∧
          slot_held a = true ∧ Limiter.held "k1" (limiter s') = 1.
Proof.
  do 2 eexists. split; [vm_compute; reflexivity|].
  match goal with |- slot_held ?a = true ∧ Limiter.held _ (limiter ?s') = 1 =>
    destruct (authorize_sound demo_settings None demo_request (init demo_settings demo_db) s' a
                ltac:(vm_compute; apply NoDup_singleton) ltac:(vm_compute; reflexivity))
      as [(Hk & _)|(H & _)] end.
  - discriminate Hk.
  - split; [exact H|vm_compute; reflexivity].
Defined.

End GatewaySystem.
