(* ===== verification/AuditChain.v ===== *)
(** * The audit log ([engine/audit/log.py])

    [Module AuditLog]: the hash-chained [audit_events] table.  [record] reads the last
    hash with one statement and inserts with another, each its own transaction, so it is
    split into [record_read] and [record_write]; [record] is the two in sequence.  The
    [detail] column is the text [json.dumps] writes, and [list] and [verify] read it with
    [json.loads] ([Module JsonText]); a text that is no JSON raises [ValueError]. *)

From S2P Require Import Prelude Crypto Text JsonText.

Open Scope Z_scope.

Module AuditLog.

Definition GENESIS_HASH : string := Eval vm_compute in Crypto.of_chars (replicate 64 (Crypto.char 48)).

(** [AuditEvent] *)
Record AuditEvent := Event {
  id : Z;
  ts : string;
  actor : string;
  action : string;
  target : option string;
  detail : Json.t;
  prev_hash : string;
  hash : string
}.
(** A row of [audit_events]; the columns are those of the event, [detail] is a text. *)
Record row := Row {
  r_id : Z;
  r_ts : string;
  r_actor : string;
  r_action : string;
  r_target : option string;
  r_detail : string;
  r_prev_hash : string;
  r_hash : string
}.

(** The table in the order of its ids, and its AUTOINCREMENT counter. *)
Record t := Mk { rows : list row; seq : Z }.
Definition empty : t := Mk [] 0.

(** [_canonical] *)
Definition canonical (ts actor action : string) (target : option string) (detail : Json.t) : string :=
  JsonText.dumps true "," ":" (Json.JObj
    [("ts", Json.JStr ts); ("actor", Json.JStr actor); ("action", Json.JStr action);
     ("target", match target with Some x => Json.JStr x | None => Json.JNull end);
     ("detail", detail)]).

(** [_row_hash] *)
Definition row_hash (prev canon : string) : string := Crypto.sha256_hex (prev +:+ canon).

(** [AuditLog._last_hash] *)
Definition last_hash (l : t) : string :=
  match last (rows l) with Some e => r_hash e | None => GENESIS_HASH end.

(** The arguments of [record] with its clock reading. *)
Record entry := Entry {
  e_ts : string; e_action : string; e_actor : string; e_target : option string;
  e_detail : option Json.t
}.

(** [detail or {}] *)
Definition detail_of (e : entry) : Json.t :=
  match e_detail e with
  | Some v => if Json.truthy v then v else Json.JObj []
  | None => Json.JObj []
  end.

(** The first half of [record]: the SELECT. *)
Definition record_read (l : t) : string := last_hash l.
(** The second half of [record]: the INSERT and the commit, with the hash read before. *)
Definition record_write (e : entry) (prev : string) (l : t) : t * AuditEvent :=
  let detail := detail_of e in
  let canon := canonical (e_ts e) (e_actor e) (e_action e) (e_target e) detail in
  let h := row_hash prev canon in
  let i := seq l + 1 in
  (Mk (rows l ++ [Row i (e_ts e) (e_actor e) (e_action e) (e_target e) (JsonText.dumps true ", " ": " detail) prev h]) i,
   Event i (e_ts e) (e_actor e) (e_action e) (e_target e) detail prev h).
(** [AuditLog.record] *)
Definition record (e : entry) (l : t) : t * AuditEvent := record_write e (record_read l) l.

(** [json.loads] of a column. *)
Definition loads (s : string) : result exn Json.t :=
  match JsonText.loads s with Some v => Ok v | None => Err ValueError end.
(** The comprehension of [list]. *)
Fixpoint events_of (rs : list row) : result exn (list AuditEvent) :=
  match rs with
  | [] => Ok []
  | r :: rs' =>
      match loads (r_detail r) with
      | Err e => Err e
      | Ok d =>
          match events_of rs' with
          | Err e => Err e
          | Ok es => Ok (Event (r_id r) (r_ts r) (r_actor r) (r_action r) (r_target r) d (r_prev_hash r) (r_hash r) :: es)
          end
      end
  end.
(** [AuditLog.list] *)
Definition list_events (limit : nat) (l : t) : result exn (list AuditEvent) := events_of (take limit (rev (rows l))).

(** [VerifyResult] *)
Record VerifyResult := Verified { ok : bool; count : Z; first_bad_id : option Z }.

(** The loop of [verify]. *)
Fixpoint verify_loop (prev : string) (n : Z) (rs : list row) : result exn VerifyResult :=
  match rs with
  | [] => Ok (Verified true n None)
  | r :: rs' =>
      match loads (r_detail r) with
      | Err e => Err e
      | Ok d =>
          let expected := row_hash prev (canonical (r_ts r) (r_actor r) (r_action r) (r_target r) d) in
          if negb (bool_decide (r_prev_hash r = prev)) || negb (bool_decide (r_hash r = expected))
          then Ok (Verified false (n + 1) (Some (r_id r)))
          else verify_loop (r_hash r) (n + 1) rs'
      end
  end.
(** [AuditLog.verify] *)
Definition verify (l : t) : result exn VerifyResult := verify_loop GENESIS_HASH 0 (rows l).

(** ** The chain *)

(** The record a row stands for, as the chain commits to it. *)
Definition canonical_row (r : row) : option string :=
  d ← JsonText.loads (r_detail r); Some (canonical (r_ts r) (r_actor r) (r_action r) (r_target r) d).
(** What [verify] checks, as a predicate. *)
Fixpoint chained (prev : string) (rs : list row) : Prop :=
  match rs with
  | [] => True
  | r :: rs' =>
      r_prev_hash r = prev ∧ (∃ c, canonical_row r = Some c ∧ r_hash r = row_hash prev c) ∧ chained (r_hash r) rs'
  end.
Fixpoint end_hash (prev : string) (rs : list row) : string :=
  match rs with [] => prev | r :: rs' => end_hash (r_hash r) rs' end.
Definition accepts (l : t) : Prop := ∃ n, verify l = Ok (Verified true n None).

Lemma verify_loop_app prev n rs rs' : chained prev rs →
  verify_loop prev n (rs ++ rs') = verify_loop (end_hash prev rs) (n + Z.of_nat (length rs)) rs'.
Proof.
  revert prev n. induction rs as [|r rs IH]; intros prev n; [intros _; cbn; by rewrite Z.add_0_r|].
  intros (Hp & (c & Ec & E) & H). cbn [app verify_loop end_hash length]. unfold canonical_row in Ec. unfold loads.
  destruct (JsonText.loads (r_detail r)) as [d|]; [|done]. cbn in Ec. simplify_eq.
  rewrite !bool_decide_true by done. cbn [negb orb]. rewrite IH by done. f_equal. lia.
Qed.
Lemma verify_loop_count prev n rs : chained prev rs → verify_loop prev n rs = Ok (Verified true (n + Z.of_nat (length rs)) None).
Proof. intros H. rewrite <- (app_nil_r rs) at 1. by rewrite verify_loop_app. Qed.
Lemma verify_loop_chained prev n m b rs : verify_loop prev n rs = Ok (Verified true m b) → chained prev rs.
Proof.
  revert prev n. induction rs as [|r rs IH]; intros prev n; [done|]. cbn [verify_loop chained]. unfold canonical_row, loads.
  destruct (JsonText.loads (r_detail r)) as [d|]; [|done].
  destruct (bool_decide (r_prev_hash r = prev)) eqn:E1; [apply bool_decide_eq_true in E1|done].
  destruct (bool_decide (r_hash r = _)) eqn:E2; [apply bool_decide_eq_true in E2|done]. cbn [negb orb].
  intros H. split; [done|]. split; [by eexists|]. by eapply IH.
Qed.
Lemma accepts_chained l : accepts l ↔ chained GENESIS_HASH (rows l).
Proof. split; [intros [n H]; by eapply verify_loop_chained|]. intros H. eexists. by apply verify_loop_count. Qed.

Lemma chained_app prev rs rs' :
  chained prev (rs ++ rs') ↔ chained prev rs ∧ chained (end_hash prev rs) rs'.
Proof.
  revert prev. induction rs as [|r rs IH]; intros prev; simpl; [naive_solver|].
  rewrite IH. naive_solver.
Qed.

Lemma end_hash_last prev rs : end_hash prev rs = match last rs with Some e => r_hash e | None => prev end.
Proof.
  revert prev. induction rs as [|r rs IH]; intros prev; [done|].
  simpl end_hash. rewrite IH. destruct rs as [|r' rs]; [done|]. rewrite last_cons_cons.
  destruct (last (r' :: rs)) eqn:E; [done|]. by apply last_None in E.
Qed.

(** The order of the keys of [detail] does not show in the canonical text. *)
Lemma canonical_normal ts actor action target d :
  canonical ts actor action target (JsonText.normal d) = canonical ts actor action target d.
Proof.
  unfold canonical, JsonText.dumps. f_equal. cbn [JsonText.print map fst snd]. by rewrite JsonText.print_normal.
Qed.

(** The dictionaries of an entry are Python's: their keys are distinct. *)
Definition entry_ok (e : entry) : bool := JsonText.dicts_ok (detail_of e).
Lemma written_row e prev l r : entry_ok e = true → last (rows (fst (record_write e prev l))) = Some r →
  r_prev_hash r = prev ∧ ∃ c, canonical_row r = Some c ∧ r_hash r = row_hash prev c.
Proof.
  intros He. unfold record_write. cbn [fst rows]. rewrite last_snoc. intros [= <-]. split; [done|].
  unfold canonical_row. cbn [r_detail r_ts r_actor r_action r_target r_hash]. rewrite JsonText.loads_dumps by done. cbn [mbind option_bind].
  eexists. split; [done|]. by rewrite canonical_normal.
Qed.
Lemma record_write_rows e prev l : ∃ r, rows (fst (record_write e prev l)) = rows l ++ [r] ∧ last (rows (fst (record_write e prev l))) = Some r.
Proof. eexists. split; [reflexivity|]. apply last_snoc. Qed.
Lemma record_chained e l : entry_ok e = true → chained GENESIS_HASH (rows l) → chained GENESIS_HASH (rows (fst (record e l))).
Proof.
  intros He H. destruct (record_write_rows e (record_read l) l) as (r & E & El).
  destruct (written_row e _ l r He El) as [Hp Hc]. unfold record. rewrite E. apply chained_app. split; [done|].
  unfold record_read, last_hash in Hp, Hc. rewrite <- end_hash_last in Hp, Hc. by repeat split.
Qed.

(** C39. Recording keeps the chain: after any sequence of [record] calls that do not
    overlap, whatever their details (dictionaries with text keys in any order, nested in any
    way, of texts, integers, truth values, null and lists), [verify], which reads the details
    back from the text the column holds, accepts the log and counts every event. *)
Theorem record_verifies es : Forall (fun e => entry_ok e = true) es →
  verify (fold_left (fun l e => fst (record e l)) es empty) = Ok (Verified true (Z.of_nat (length es)) None).
Proof.
  assert (∀ es l0, Forall (fun e => entry_ok e = true) es → chained GENESIS_HASH (rows l0) →
    let l := fold_left (fun l e => fst (record e l)) es l0 in
    chained GENESIS_HASH (rows l) ∧ length (rows l) = (length (rows l0) + length es)%nat) as H.
  { clear. intros es l0 H. revert l0. induction H as [|e es He _ IH]; cbn [fold_left length]; intros l0 Hl; [split; [done|lia]|].
    destruct (IH (fst (record e l0)) (record_chained e l0 He Hl)) as [H1 H2]. split; [done|].
    cbn zeta. rewrite H2. unfold record, record_write. cbn [fst rows]. rewrite length_app. cbn [length]. lia. }
  intros Hes. destruct (H es empty Hes I) as [H1 H2]. unfold verify.
  rewrite verify_loop_count by done. cbn [empty rows length] in H2. by rewrite H2.
Qed.

(** ** Tamper evidence *)

Definition collision (a b : string) : Prop := a ≠ b ∧ Crypto.sha256_hex a = Crypto.sha256_hex b.

Lemma append_inj_length a b c d :
  String.length a = String.length c → a +:+ b = c +:+ d → a = c ∧ b = d.
Proof.
  revert c. induction a as [|x a IH]; intros [|y c]; simpl; try done.
  intros [= Hl] [= -> H]. destruct (IH c Hl H) as [-> ->]. done.
Qed.

Lemma end_hash_length prev rs :
  String.length prev = 64%nat → chained prev rs → String.length (end_hash prev rs) = 64%nat.
Proof.
  revert prev. induction rs as [|r rs IH]; intros prev Hp; simpl; [done|].
  intros (_ & (c & _ & E) & H). apply IH; [|done]. rewrite E. apply Crypto.sha256_hex_length.
Qed.

Lemma chains_agree rs1 rs2 :
  length rs1 = length rs2 → chained GENESIS_HASH rs1 → chained GENESIS_HASH rs2 →
  end_hash GENESIS_HASH rs1 = end_hash GENESIS_HASH rs2 →
  map canonical_row rs1 = map canonical_row rs2 ∨ ∃ a b, collision a b.
Proof.
  revert rs2. induction rs1 as [|r1 rs1 IH] using rev_ind; intros rs2 Hlen.
  { destruct rs2; [by left|done]. }
  destruct rs2 as [|r2 rs2 _] using rev_ind; [rewrite length_app in Hlen; simpl in Hlen; lia|].
  rewrite !length_app in Hlen. simpl in Hlen. rewrite !chained_app.
  intros (C1 & P1 & (c1 & E1 & H1) & _) (C2 & P2 & (c2 & E2 & H2) & _) HE.
  rewrite !end_hash_last, !last_snoc in HE. rewrite H1, H2 in HE. unfold row_hash in HE.
  destruct (decide (end_hash GENESIS_HASH rs1 +:+ c1 = end_hash GENESIS_HASH rs2 +:+ c2)) as [E|Hne].
  - apply append_inj_length in E as [Ep Ec];
      [|rewrite !end_hash_length by done; done].
    destruct (IH rs2) as [Em|Hc]; [lia|done|done|done| |by right].
    left. rewrite !map_app. cbn [map]. by rewrite Em, E1, E2, Ec.
  - right. by exists (end_hash GENESIS_HASH rs1 +:+ c1), (end_hash GENESIS_HASH rs2 +:+ c2).
Qed.

(** Tamper evidence: if two logs both verify, with the same number of rows and the
    same last hash, then they hold the same records, row by row, or a SHA-256 collision
    has been found.  An operator who keeps the count and the last hash detects any edit,
    insertion or deletion in what came before. *)
Theorem tamper_evident l1 l2 n :
  verify l1 = Ok (Verified true n None) → verify l2 = Ok (Verified true n None) → last_hash l1 = last_hash l2 →
  map canonical_row (rows l1) = map canonical_row (rows l2) ∨ ∃ a b, collision a b.
Proof.
  intros V1 V2. assert (chained GENESIS_HASH (rows l1)) as C1 by (by eapply verify_loop_chained).
  assert (chained GENESIS_HASH (rows l2)) as C2 by (by eapply verify_loop_chained). unfold verify in V1, V2.
  rewrite verify_loop_count in V1, V2 by done. simplify_eq. intros Hl. apply chains_agree; [lia|done|done|].
  unfold last_hash in Hl. by rewrite !end_hash_last.
Qed.

(** [verify] alone does not notice that the newest events were deleted: every prefix
    of a verified log verifies. *)
Theorem tail_deletion_undetected l n : accepts l → accepts (Mk (take n (rows l)) (seq l)).
Proof.
  rewrite !accepts_chained. cbn [rows]. intros H. rewrite <- (take_drop n (rows l)) in H. by apply chained_app in H as [? _].
Qed.

(** ** Overlapping calls *)

(** Two overlapping [record] calls break the chain: when the second reads the last
    hash before the first has written, both rows commit to the same predecessor, and
    [verify] rejects the log at the second row, although nobody tampered with it (unless
    the first row's hash happens to be its own predecessor's). *)
Theorem overlapping_records_break_chain l e1 e2 :
  accepts l → entry_ok e1 = true → entry_ok e2 = true →
  let h1 := record_read l in
  let h2 := record_read l in
  let '(la, r1) := record_write e1 h1 l in
  let '(lb, r2) := record_write e2 h2 la in
  hash r1 ≠ prev_hash r1 →
  verify lb = Ok (Verified false (Z.of_nat (length (rows l)) + 2) (Some (id r2))).
Proof.
  rewrite accepts_chained. intros C H1 H2 h1 h2. unfold record_write. cbn [hash prev_hash id rows seq]. intros Hne.
  unfold verify. cbn [rows]. rewrite <- app_assoc, verify_loop_app by done. rewrite end_hash_last. fold (last_hash l).
  unfold h1, h2, record_read in *. cbn [app verify_loop r_detail r_prev_hash r_hash r_ts r_actor r_action r_target r_id].
  unfold loads. rewrite !JsonText.loads_dumps by done. rewrite canonical_normal, !bool_decide_true by done. cbn [negb orb].
  rewrite bool_decide_false by congruence. cbn [negb orb]. do 2 f_equal. lia.
Qed.

(** ** Examples *)

Definition demo_entry (a : string) : entry := Entry "2024-01-01T00:00:00+00:00" a "cli" (Some "k1") None.
(** A detail whose keys are not in their order. *)
Definition demo_detail : entry :=
  Entry "2024-01-02T00:00:00+00:00" "key.create" "k1" (Some "k2") (Some (Json.JObj [("label", Json.JNull); ("client_id", Json.JStr "c1")])).
Definition demo_log : t :=
  Eval vm_compute in fst (record (demo_entry "key.revoke") (fst (record (demo_entry "key.create") empty))).

Lemma record_verifies_witness :
  verify (fold_left (fun l e => fst (record e l)) [demo_entry "key.create"; demo_detail] empty) = Ok (Verified true 2 None) ∧
  map r_detail (rows (fst (record demo_detail empty))) ≠ [JsonText.dumps false ", " ": " (detail_of demo_detail)].
Proof.
  split; [apply (record_verifies [demo_entry "key.create"; demo_detail])|vm_compute; discriminate].
  repeat constructor.
Defined.

Lemma tamper_evident_witness :
  map canonical_row (rows demo_log) = map canonical_row (rows demo_log) ∨ ∃ a b, collision a b.
Proof. apply (tamper_evident demo_log demo_log 2); vm_compute; reflexivity. Defined.

Lemma tail_deletion_undetected_witness : accepts (Mk (take 1 (rows demo_log)) (seq demo_log)).
Proof. apply (tail_deletion_undetected demo_log 1). exists 2. vm_compute. reflexivity. Defined.

Lemma overlapping_records_break_chain_witness :
  let '(la, r1) := record_write (demo_entry "key.create") (record_read demo_log) demo_log in
  let '(lb, r2) := record_write (demo_entry "key.delete") (record_read demo_log) la in
  verify lb = Ok (Verified false 4 (Some 4)).
Proof.
  apply (overlapping_records_break_chain demo_log (demo_entry "key.create") (demo_entry "key.delete"));
    [exists 2; vm_compute; reflexivity|vm_compute; reflexivity|vm_compute; reflexivity|vm_compute; discriminate].
Defined.

End AuditLog.
