(* ===== verification/Webhooks.v ===== *)
(** * Outbound webhooks ([engine/billing/webhooks/])

    [Module Signing] is the Standard Webhooks signature, [Module WebhookStore] the
    endpoint, secret and delivery tables with the store's operations, [Module
    DeliveryWorker] one pass of the background worker (sign, post, record) and
    [Module WebhookDispatcher] the emitter.  The HTTP transport is the worker's
    injectable [Transport]: its answer is an argument.  Random ids and secrets and clock
    readings are arguments. *)

From S2P Require Import Prelude Crypto Text Sql.
From Stdlib Require Import Ascii.

Open Scope Z_scope.

Module Signing.

Definition SECRET_PREFIX : string := "whsec_".

(** [generate_secret]; [raw] is [secrets.token_bytes(24)]. *)
Definition generate_secret (raw : list Z) : string := SECRET_PREFIX +:+ Crypto.b64encode raw.

(** [_secret_bytes] *)
Definition secret_bytes (secret : string) : list Z :=
  let body := if Text.startswith SECRET_PREFIX secret
              then String.substring 6 (String.length secret - 6) secret else secret in
  match Crypto.b64decode body with
  | Some bs => bs
  | None => Crypto.utf8 body
  end.

(** [sign] *)
Definition sign (secret msg_id : string) (timestamp : Z) (body : string) : string :=
  let signed_content := Crypto.utf8 (msg_id +:+ "." +:+ Text.str_int timestamp +:+ "." +:+ body) in
  Crypto.b64encode (Crypto.hmac_sha256 (secret_bytes secret) signed_content).

(** [signature_header] *)
Definition signature_header (secrets : list string) (msg_id : string) (timestamp : Z) (body : string)
  : string :=
  Text.join " " (map (fun s => "v1," +:+ sign s msg_id timestamp body) secrets).

(** The loop of [verify]; [hmac.compare_digest] raises [TypeError] on non-ASCII text. *)
Fixpoint verify_loop (expected : string) (ok : bool) (tokens : list string) : result exn bool :=
  match tokens with
  | [] => Ok ok
  | token :: rest =>
      let '(version, value) := Text.partition "," token in
      if bool_decide (version = "v1") then
        if Text.isascii value && Text.isascii expected
        then verify_loop expected (if bool_decide (value = expected) then true else ok) rest
        else Err TypeError
      else verify_loop expected ok rest
  end.

(** [verify] *)
Definition verify (secret header msg_id : string) (timestamp : Z) (body : string) : result exn bool :=
  verify_loop (sign secret msg_id timestamp body) false (Text.split_ws header).

(** ** Facts *)

Lemma b64_plain c : Crypto.b64_alphabet c = true → Text.isspace c = false ∧ (Crypto.code c <? 128) = true.
Proof.
  unfold Crypto.b64_alphabet, Text.isspace. pose proof (Crypto.code_range c).
  generalize dependent (Crypto.code c). intros n Hn H.
  repeat (apply orb_prop in H as [H|H] || apply andb_true_iff in H as [? H]);
    repeat match goal with
    | H : (_ <=? _) = true |- _ => apply Z.leb_le in H
    | H : (_ =? _) = true |- _ => apply Z.eqb_eq in H
    end;
    (split; [|apply Z.ltb_lt; lia]);
    repeat match goal with |- context [?a <=? ?b] => destruct (Z.leb_spec a b); try lia end;
    repeat match goal with |- context [?a =? ?b] => destruct (Z.eqb_spec a b); try lia end; done.
Qed.

Lemma sign_alphabet s i t b c : c ∈ Crypto.chars (sign s i t b) → Crypto.b64_alphabet c = true.
Proof. intros H. eapply Crypto.b64encode_alphabet; [apply Crypto.sha256_byte|exact H]. Qed.

Lemma sign_ascii s i t b : Text.isascii (sign s i t b) = true.
Proof.
  unfold Text.isascii. apply forallb_forall. intros c Hc%list_elem_of_In.
  by apply b64_plain, (sign_alphabet s i t b).
Qed.

Lemma token_plain s i t b :
  "v1," +:+ sign s i t b ≠ "" ∧ Text.no_space ("v1," +:+ sign s i t b) = true.
Proof.
  split; [done|]. unfold Text.no_space. simpl. apply forallb_forall. intros c Hc%list_elem_of_In.
  apply negb_true_iff. by apply b64_plain, (sign_alphabet s i t b).
Qed.

Lemma verify_loop_header e ok secrets i t b :
  Text.isascii e = true →
  verify_loop e ok (map (fun s => "v1," +:+ sign s i t b) secrets) =
  Ok (ok || bool_decide (e ∈ map (fun s => sign s i t b) secrets)).
Proof.
  intros He. revert ok. induction secrets as [|s l IH]; intros ok.
  { simpl. by rewrite orb_false_r. }
  cbn [map verify_loop]. change ("v1," +:+ sign s i t b) with ("v1" +:+ String "," (sign s i t b)).
  rewrite Text.partition_app by done. rewrite bool_decide_true by done.
  rewrite sign_ascii, He. simpl. rewrite IH. f_equal.
  destruct (bool_decide (sign s i t b = e)) eqn:E.
  - apply bool_decide_eq_true in E. rewrite (bool_decide_true (e ∈ sign s i t b :: _)) by (subst; left).
    by rewrite orb_true_r.
  - apply bool_decide_eq_false in E. f_equal. apply bool_decide_ext. set_solver.
Qed.

Lemma verify_header s secrets i t b :
  verify s (signature_header secrets i t b) i t b =
  Ok (bool_decide (sign s i t b ∈ map (fun s => sign s i t b) secrets)).
Proof.
  unfold verify, signature_header. rewrite Text.split_ws_join.
  - by rewrite verify_loop_header by apply sign_ascii.
  - apply Forall_forall. intros x (s' & -> & _)%list_elem_of_fmap. apply token_plain.
Qed.

Lemma substring_prefix a b :
  String.substring (String.length a) (String.length (a +:+ b) - String.length a) (a +:+ b) = b.
Proof.
  induction a as [|c a IH]; simpl.
  - rewrite Nat.sub_0_r. change ("" +:+ b) with b.
    induction b as [|c b IHb]; simpl; [done|by rewrite IHb].
  - exact IH.
Qed.

(** The signature header works for every receiver: for any list of secrets, a receiver
    that holds one of them accepts the header, and the key bytes it uses are exactly the
    random bytes its secret was generated from. *)
Theorem signature_header_verifies secrets s i t b :
  s ∈ secrets → verify s (signature_header secrets i t b) i t b = Ok true ∧
  ∀ raw, Forall Crypto.byte raw → s = generate_secret raw → secret_bytes s = raw.
Proof.
  intros Hs. split.
  - rewrite verify_header, bool_decide_true; [done|]. apply list_elem_of_fmap. by exists s.
  - intros raw Hr ->. unfold secret_bytes, generate_secret. 
    replace (Text.startswith SECRET_PREFIX (SECRET_PREFIX +:+ Crypto.b64encode raw)) with true
      by reflexivity.
    change 6%nat with (String.length SECRET_PREFIX).
    rewrite substring_prefix. by rewrite Crypto.b64_roundtrip.
Qed.

Lemma signature_header_verifies_witness :
  verify "whsec_AQID" (signature_header ["whsec_BBBB"; "whsec_AQID"] "m" 7 "{}") "m" 7 "{}"
  = Ok true.
Proof. apply (signature_header_verifies ["whsec_BBBB"; "whsec_AQID"] "whsec_AQID" "m" 7 "{}"). set_solver. Defined.

End Signing.

Module WebhookStore.

(** [Endpoint], a row of [webhook_endpoints] *)
Record Endpoint := MkEndpoint {
  ep_id : string;
  ep_client : string;
  ep_url : string;
  ep_description : option string;
  ep_disabled : bool;
  ep_event_types : option (list string);
  ep_created_at : string
}.

(** A row of [webhook_secrets] *)
Record secret_row := Secret {
  se_id : string;
  se_endpoint : string;
  se_secret : string;
  se_created_at : string;
  se_expires_at : option Q
}.

Inductive status := PENDING | SUCCEEDED | FAILED | DEAD.
#[global] Instance status_eq_dec : EqDecision status.
Proof. solve_decision. Defined.

(** [Delivery], a row of [webhook_deliveries] *)
Record Delivery := MkDelivery {
  id : string;
  endpoint_id : string;
  event_id : string;
  event_type : string;
  payload : string;
  st : status;
  attempts : Z;
  next_attempt_at : Q;
  last_status_code : option Z;
  last_error : option string;
  created_at : Q;
  updated_at : Q
}.

(** The three tables, and the ids of the [clients] table they refer to. *)
Record t := Mk {
  client_ids : list string;
  endpoints : list Endpoint;
  secrets : list secret_row;
  deliveries : list Delivery
}.
Definition with_endpoints (x : list Endpoint) (w : t) : t := Mk (client_ids w) x (secrets w) (deliveries w).
Definition with_secrets (x : list secret_row) (w : t) : t := Mk (client_ids w) (endpoints w) x (deliveries w).
Definition with_deliveries (x : list Delivery) (w : t) : t := Mk (client_ids w) (endpoints w) (secrets w) x.

(** ** Endpoints *)

(** [create_endpoint]: both inserts in one transaction. *)
Definition create_endpoint (eid sid now_e now_s : string) (raw : list Z) (client_id url : string)
  (description : option string) (event_types : option (list string)) : stmt t (Endpoint * string) :=
  fun w =>
  let secret := Signing.generate_secret raw in
  let e := MkEndpoint eid client_id url description false event_types now_e in
  if existsb (fun x => bool_decide (ep_id x = eid)) (endpoints w)
     || existsb (fun x => bool_decide (se_id x = sid)) (secrets w)
     || negb (bool_decide (client_id ∈ client_ids w))
  then (w, Err IntegrityError)
  else (with_secrets (Sql.insert (Secret sid eid secret now_s None) (secrets w))
          (with_endpoints (Sql.insert e (endpoints w)) w), Ok (e, secret)).

(** [get_endpoint] *)
Definition get_endpoint (i : string) (w : t) : option Endpoint :=
  Sql.fetchone (fun e => bool_decide (ep_id e = i)) (endpoints w).

(** [list_endpoints] *)
Definition list_endpoints (client_id : option string) (w : t) : list Endpoint :=
  Sql.order_by (fun a b => str_leb (ep_created_at a) (ep_created_at b))
    (match client_id with
     | None => endpoints w
     | Some c => Sql.select (fun e => bool_decide (ep_client e = c)) (endpoints w)
     end).

(** [set_disabled] *)
Definition set_disabled (i : string) (b : bool) (w : t) : t * bool :=
  let p e := bool_decide (ep_id e = i) in
  (with_endpoints (Sql.update p (fun e => MkEndpoint (ep_id e) (ep_client e) (ep_url e)
      (ep_description e) b (ep_event_types e) (ep_created_at e)) (endpoints w)) w,
   Nat.ltb 0 (Sql.rowcount p (endpoints w))).

(** [delete_endpoint]: secrets and deliveries go with it ([ON DELETE CASCADE]). *)
Definition delete_endpoint (i : string) (w : t) : t * bool :=
  let p e := bool_decide (ep_id e = i) in
  (Mk (client_ids w) (Sql.delete p (endpoints w))
     (Sql.delete (fun s => bool_decide (se_endpoint s = i)) (secrets w))
     (Sql.delete (fun d => bool_decide (endpoint_id d = i)) (deliveries w)),
   Nat.ltb 0 (Sql.rowcount p (endpoints w))).

(** ** Secrets *)

Definition active (now : Q) (s : secret_row) : bool :=
  match se_expires_at s with None => true | Some x => bool_decide (now < x)%Q end.

(** [active_secrets] *)
Definition active_secrets (i : string) (now : Q) (w : t) : list string :=
  map se_secret
    (Sql.order_by (fun a b => str_leb (se_created_at b) (se_created_at a))
       (Sql.select (fun s => bool_decide (se_endpoint s = i) && active now s) (secrets w))).

(** [rotate_secret] *)
Definition rotate_secret (sid now_s : string) (raw : list Z) (i : string) (grace_s now : Q)
  : stmt t string := fun w =>
  let new_secret := Signing.generate_secret raw in
  let expired := Sql.update (fun s => bool_decide (se_endpoint s = i) && bool_decide (se_expires_at s = None))
                   (fun s => Secret (se_id s) (se_endpoint s) (se_secret s) (se_created_at s)
                               (Some (now + grace_s)%Q)) (secrets w) in
  if existsb (fun x => bool_decide (se_id x = sid)) (secrets w)
     || negb (existsb (fun e => bool_decide (ep_id e = i)) (endpoints w))
  then (w, Err IntegrityError)
  else (with_secrets (Sql.insert (Secret sid i new_secret now_s None) expired) w, Ok new_secret).

(** ** Deliveries *)

Definition subscribed (ty : string) (e : Endpoint) : bool :=
  match ep_event_types e with None => true | Some l => bool_decide (ty ∈ l) end.

(** The loop of [enqueue_event] over the endpoints; [uuid n] is the id drawn for the
    [n]-th insert. *)
Fixpoint enqueue_loop (uuid : nat → string) (eid ty body : string) (now : Q) (n : nat)
  (eps : list Endpoint) (rows : list Delivery) (created : nat) : list Delivery * nat :=
  match eps with
  | [] => (rows, created)
  | e :: rest =>
      if negb (subscribed ty e) then enqueue_loop uuid eid ty body now n rest rows created
      else
        let '(rows', c) :=
          Sql.insert_or_ignore
            (fun d => bool_decide (id d = uuid n)
                      || (bool_decide (endpoint_id d = ep_id e) && bool_decide (event_id d = eid)))
            (MkDelivery (uuid n) (ep_id e) eid ty body PENDING 0 now None None now now) rows in
        enqueue_loop uuid eid ty body now (S n) rest rows' (created + c)
  end.

(** [enqueue_event] *)
Definition enqueue_event (uuid : nat → string) (client_id eid ty body : string) (now : Q) (w : t)
  : t * nat :=
  let eps := Sql.select (fun e => bool_decide (ep_client e = client_id) && negb (ep_disabled e))
               (endpoints w) in
  let '(rows, n) := enqueue_loop uuid eid ty body now 0 eps (deliveries w) 0 in
  (with_deliveries rows w, n).

(** [claim_due] *)
Definition claim_due (now : Q) (limit : nat) (w : t) : list Delivery :=
  take limit (Sql.order_by (fun a b => bool_decide (next_attempt_at a <= next_attempt_at b)%Q)
    (Sql.select (fun d => bool_decide (st d = PENDING) && bool_decide (next_attempt_at d <= now)%Q)
       (deliveries w))).

(** [_update] *)
Definition update_row (s : status) (inc : bool) (code : option Z) (err : option string)
  (next : option Q) (now : Q) (d : Delivery) : Delivery :=
  MkDelivery (id d) (endpoint_id d) (event_id d) (event_type d) (payload d) s
    (attempts d + (if inc then 1 else 0)) (default (next_attempt_at d) next) code err
    (created_at d) now.
Definition update (i : string) (f : Delivery → Delivery) (w : t) : t :=
  with_deliveries (Sql.update (fun d => bool_decide (id d = i)) f (deliveries w)) w.

(** [mark_succeeded] *)
Definition mark_succeeded (i : string) (code : Z) (now : Q) (w : t) : t :=
  update i (update_row SUCCEEDED true (Some code) None None now) w.
(** [mark_retry] *)
Definition mark_retry (i : string) (next : Q) (code : option Z) (err : option string) (now : Q) (w : t) : t :=
  update i (update_row PENDING true code err (Some next) now) w.
(** [mark_dead] *)
Definition mark_dead (i : string) (code : option Z) (err : option string) (now : Q) (w : t) : t :=
  update i (update_row DEAD true code err None now) w.

(** [get_delivery] *)
Definition get_delivery (i : string) (w : t) : option Delivery :=
  Sql.fetchone (fun d => bool_decide (id d = i)) (deliveries w).
(** [count_by_status] *)
Definition count_by_status (s : status) (w : t) : nat :=
  Sql.rowcount (fun d => bool_decide (st d = s)) (deliveries w).
(** [list_deliveries] *)
Definition list_deliveries (ep : option string) (s : option status) (limit : nat) (w : t) : list Delivery :=
  take limit (Sql.order_by (fun a b => bool_decide (created_at b <= created_at a)%Q)
    (Sql.select (fun d => match ep with Some i => bool_decide (endpoint_id d = i) | None => true end
                       && match s with Some x => bool_decide (st d = x) | None => true end)
       (deliveries w))).
(** [replay] *)
Definition replay (i : string) (now : Q) (w : t) : t * bool :=
  let p d := bool_decide (id d = i) in
  (with_deliveries (Sql.update p (fun d => MkDelivery (id d) (endpoint_id d) (event_id d)
      (event_type d) (payload d) PENDING 0 now (last_status_code d) None (created_at d) now)
      (deliveries w)) w,
   Nat.ltb 0 (Sql.rowcount p (deliveries w))).

End WebhookStore.

Module DeliveryWorker.
Import WebhookStore.

(** How one POST of the injected [Transport] ends: a status, a [TransportError], or an
    exception that is none (the protocol does not promise there is no such one). *)
Inductive answer := Status (code : Z) | TransportError (msg : string) | Raises (e : exn).
(** The transport, and whether an URL's host is ASCII ([host_is_ascii]). *)
Record transport := Transport {
  post : string → string → list (string * string) → answer;
  host_is_ascii : string → bool
}.

(** [DeliveryWorker.__init__] *)
Record config := Config { max_attempts_arg : Z; schedule_arg : list Q; batch_limit : nat }.
Definition DEFAULT_BACKOFF_SCHEDULE_S : list Q := [30; 120; 600; 1800]%Q.
Definition max_attempts (c : config) : Z := Z.max 1 (max_attempts_arg c).
Definition schedule (c : config) : list Q :=
  match schedule_arg c with [] => DEFAULT_BACKOFF_SCHEDULE_S | l => l end.

(** [_next_delay] *)
Definition next_delay (attempts_after : Z) (sch : list Q) : Q :=
  let idx := Z.min (attempts_after - 1) (Z.of_nat (length sch) - 1) in
  nth (Z.to_nat idx) sch 0%Q.

(** [build_headers] *)
Definition build_headers (secs : list string) (msg_id : string) (timestamp : Z) (body : string)
  : list (string * string) :=
  [("content-type", "application/json"); ("webhook-id", msg_id);
   ("webhook-timestamp", Text.str_int timestamp);
   ("webhook-signature", Signing.signature_header secs msg_id timestamp body);
   ("user-agent", "inference-engine-webhooks/1")].

(** [int(now)] *)
Definition int_of (q : Q) : Z := Z.quot (Qnum q) (Zpos (Qden q)).

(** [_on_failure] *)
Definition on_failure (c : config) (d : Delivery) (attempts_after : Z) (code : option Z) (err : string)
  (now : Q) (w : t) : t :=
  if max_attempts c <=? attempts_after then mark_dead (id d) code (Some err) now w
  else mark_retry (id d) (now + next_delay attempts_after (schedule c))%Q code (Some err) now w.

Definition NON_ASCII_HOST_ERROR : string :=
  "endpoint host is not ASCII; re-register it in the xn-- (punycode) form".

(** [_attempt]; only [TransportError] is caught, any other exception of the transport leaves
    the method with nothing recorded. *)
Definition attempt (c : config) (tr : transport) (d : Delivery) (now : Q) (w : t) : t * result exn unit :=
  match get_endpoint (endpoint_id d) w with
  | None => (mark_dead (id d) None (Some "endpoint missing or disabled") now w, Ok ())
  | Some e =>
      if ep_disabled e then (mark_dead (id d) None (Some "endpoint missing or disabled") now w, Ok ())
      else if negb (host_is_ascii tr (ep_url e))
      then (mark_dead (id d) None (Some NON_ASCII_HOST_ERROR) now w, Ok ())
      else
        let secs := active_secrets (ep_id e) now w in
        let headers := build_headers secs (id d) (int_of now) (payload d) in
        let attempts_after := attempts d + 1 in
        match post tr (ep_url e) (payload d) headers with
        | Raises e => (w, Err e)
        | TransportError msg => (on_failure c d attempts_after None msg now w, Ok ())
        | Status code =>
            if (200 <=? code) && (code <? 300) then (mark_succeeded (id d) code now w, Ok ())
            else (on_failure c d attempts_after (Some code) ("HTTP " +:+ Text.str_int code) now w, Ok ())
        end
  end.

(** The loop of [run_once]; [stop n] is the reading of the stop flag before the [n]-th
    delivery, [tr n] the transport's behaviour during it. *)
Fixpoint run_loop (c : config) (tr : nat → transport) (stop : nat → bool) (now : Q) (n : nat)
  (due : list Delivery) (w : t) : t * result exn nat :=
  match due with
  | [] => (w, Ok n)
  | d :: rest => if stop n then (w, Ok n)
                 else match attempt c (tr n) d now w with
                      | (w, Err e) => (w, Err e)
                      | (w, Ok _) => run_loop c tr stop now (S n) rest w
                      end
  end.
(** [run_once]: the number of deliveries attempted, or the exception that ended the batch. *)
Definition run_once (c : config) (tr : nat → transport) (stop : nat → bool) (now : Q) (w : t)
  : t * result exn nat :=
  run_loop c tr stop now 0 (claim_due now (batch_limit c) w) w.

End DeliveryWorker.

Module WebhookDispatcher.

(** The envelope both channels send. *)
Definition envelope (eid ty timestamp : string) (data : Json.t) : string :=
  Json.dumps (Json.JObj [("id", Json.JStr eid); ("type", Json.JStr ty);
                         ("timestamp", Json.JStr timestamp); ("data", data)]).

(** [event_id or f"evt_{uuid4().hex}"] *)
Definition event_id_or (event_id : option string) (uuid : string) : string :=
  match event_id with
  | Some e => if str_true e then e else "evt_" +:+ uuid
  | None => "evt_" +:+ uuid
  end.

(** [WebhookDispatcher.emit]; what [enqueue_event] raises is swallowed. *)
Definition emit (enabled : bool) (uuid : string) (uuids : nat → string) (timestamp : string)
  (client_id ty : string) (data : Json.t) (event_id : option string) (now : Q) (w : WebhookStore.t)
  : WebhookStore.t * nat :=
  if negb enabled then (w, 0%nat)
  else
    let eid := event_id_or event_id uuid in
    WebhookStore.enqueue_event uuids client_id eid ty (envelope eid ty timestamp data) now w.

End WebhookDispatcher.

(** * What the webhook subsystem guarantees *)

Module WebhookSystem.
Import WebhookStore DeliveryWorker.

(** ** Fan-out is idempotent *)

Definition has_event (eid : string) (rows : list Delivery) (e : Endpoint) : Prop :=
  ∃ d, d ∈ rows ∧ endpoint_id d = ep_id e ∧ event_id d = eid.

Lemma insert_has_event eid e u rows d :
  endpoint_id d = ep_id e → event_id d = eid →
  let conflict x := bool_decide (id x = u)
                    || (bool_decide (endpoint_id x = ep_id e) && bool_decide (event_id x = eid)) in
  u ∉ map id rows →
  has_event eid (fst (Sql.insert_or_ignore conflict d rows)) e ∧
  rows ⊆ fst (Sql.insert_or_ignore conflict d rows).
Proof.
  intros H1 H2 conflict Hu. unfold Sql.insert_or_ignore. destruct (existsb conflict rows) eqn:E; simpl.
  - split; [|done]. apply existsb_exists in E as (x & Hx%list_elem_of_In & Hc). unfold conflict in Hc.
    apply orb_prop in Hc as [Hc|[Ha Hb]%andb_true_iff].
    + apply bool_decide_eq_true in Hc. destruct Hu. rewrite <- Hc. by apply list_elem_of_fmap_2.
    + apply bool_decide_eq_true in Ha, Hb. by exists x.
  - split; [|set_solver]. exists d. split_and!; [set_solver|done|done].
Qed.

(** The ids drawn are new and distinct (uuid4). *)
Definition fresh (uuid : nat → string) (rows : list Delivery) : Prop :=
  (∀ n, uuid n ∉ map id rows) ∧ ∀ m n, uuid m = uuid n → m = n.

Lemma enqueue_loop_covers uuid eid ty body now eps : ∀ n rows created,
  (∀ m, (n <= m)%nat → uuid m ∉ map id rows) → (∀ m k, uuid m = uuid k → m = k) →
  let rows' := fst (enqueue_loop uuid eid ty body now n eps rows created) in
  rows ⊆ rows' ∧ ∀ e, e ∈ eps → subscribed ty e = true → has_event eid rows' e.
Proof.
  induction eps as [|e eps IH]; intros n rows created Hf Hinj; cbn [enqueue_loop]; [set_solver|].
  destruct (subscribed ty e) eqn:Es; simpl negb; cbv iota.
  - destruct (Sql.insert_or_ignore _ _ rows) as [rows1 c] eqn:E.
    pose proof (insert_has_event eid e (uuid n) rows
      (MkDelivery (uuid n) (ep_id e) eid ty body PENDING 0 now None None now now)
      eq_refl eq_refl (Hf n ltac:(lia))) as [Hh Hsub]. rewrite E in Hh, Hsub. simpl in Hh, Hsub.
    destruct (IH (S n) rows1 (created + c)%nat) as [IH1 IH2]; [|done|].
    { intros m Hm Hin. unfold Sql.insert_or_ignore in E. destruct (existsb _ _); simplify_eq.
      - by apply (Hf m); [lia|].
      - rewrite map_app in Hin. apply elem_of_app in Hin as [Hin|Hin].
        + by apply (Hf m); [lia|].
        + simpl in Hin. apply list_elem_of_singleton in Hin. apply Hinj in Hin. lia. }
    split; [set_solver|]. intros e' [->|He']%elem_of_cons Hs; [|by apply IH2].
    destruct Hh as (d & Hd & ?). exists d. split; [set_solver|done].
  - destruct (IH n rows created) as [IH1 IH2]; [done|done|]. split; [done|].
    intros e' [->|He']%elem_of_cons Hs; [congruence|by apply IH2].
Qed.

Lemma enqueue_loop_noop uuid eid ty body now eps : ∀ n rows created,
  (∀ e, e ∈ eps → subscribed ty e = true → has_event eid rows e) →
  enqueue_loop uuid eid ty body now n eps rows created = (rows, created).
Proof.
  induction eps as [|e eps IH]; intros n rows created H; cbn [enqueue_loop]; [done|].
  destruct (subscribed ty e) eqn:Es; simpl negb; cbv iota; [|apply IH; set_solver].
  destruct (H e) as (d & Hd & H1 & H2); [by left|done|].
  unfold Sql.insert_or_ignore. replace (existsb _ rows) with true.
  - rewrite Nat.add_0_r. apply IH. set_solver.
  - symmetry. apply existsb_exists. exists d. split; [by apply list_elem_of_In|].
    rewrite (bool_decide_true (endpoint_id d = _)), (bool_decide_true (event_id d = _)) by done.
    by rewrite orb_true_r.
Qed.

(** Fan-out reaches every endpoint once: after an event is enqueued for a client each
    of its enabled, subscribed endpoints has a delivery of it, and enqueuing the event
    again (same id and type, whatever payload, time and new ids) creates nothing and
    leaves the tables as they were. *)
Theorem enqueue_idempotent uuid uuid' c eid ty body body' now now' w :
  fresh uuid (deliveries w) →
  let w1 := fst (enqueue_event uuid c eid ty body now w) in
  (∀ e, e ∈ endpoints w → ep_client e = c → ep_disabled e = false → subscribed ty e = true →
        has_event eid (deliveries w1) e) ∧
  enqueue_event uuid' c eid ty body' now' w1 = (w1, 0%nat).
Proof.
  intros [Hf Hinj] w1.
  set (eps := Sql.select (λ e, bool_decide (ep_client e = c) && negb (ep_disabled e)) (endpoints w)).
  pose proof (enqueue_loop_covers uuid eid ty body now eps 0 (deliveries w) 0
    (fun m _ => Hf m) Hinj) as [Hsub Hcov].
  unfold w1, enqueue_event. fold eps.
  destruct (enqueue_loop uuid eid ty body now 0 eps (deliveries w) 0) as [rows n] eqn:E.
  simpl in Hsub, Hcov |- *. split.
  - intros e He Hc Hd Hs. apply Hcov; [|done]. apply Sql.elem_of_select.
    split; [done|]. by rewrite bool_decide_true, Hd.
  - change (endpoints (with_deliveries rows w)) with (endpoints w). fold eps.
    change (deliveries (with_deliveries rows w)) with rows.
    by rewrite enqueue_loop_noop.
Qed.

(** ** Attempts *)

Definition delivery_ok (c : config) (d : Delivery) : Prop :=
  0 <= attempts d <= max_attempts c ∧ (st d = PENDING → attempts d < max_attempts c) ∧ st d ≠ FAILED.
Definition store_ok (c : config) (w : t) : Prop :=
  NoDup (map id (deliveries w)) ∧ ∀ d, d ∈ deliveries w → delivery_ok c d.

(** What one attempt does to the row it is about. *)
Definition outcome (c : config) (d d' : Delivery) (now : Q) : Prop :=
  id d' = id d ∧ attempts d' = attempts d + 1 ∧
  (st d' = SUCCEEDED ∨ st d' = DEAD ∨
   (st d' = PENDING ∧ attempts d' < max_attempts c ∧
    next_attempt_at d' = (now + next_delay (attempts d') (schedule c))%Q)).

Definition raises (tr : transport) : Prop := ∃ u b h e, post tr u b h = Raises e.

Lemma attempt_update c tr d now w :
  (∃ e, attempt c tr d now w = (w, Err e) ∧ raises tr) ∨
  ∃ f, attempt c tr d now w = (update (id d) f w, Ok ()) ∧ (∀ x, id (f x) = id x) ∧
       ∀ x, attempts x = attempts d → outcome c x (f x) now.
Proof.
  unfold attempt, mark_dead, mark_succeeded, on_failure, mark_retry.
  repeat case_match; try (left; eexists; split; [reflexivity|unfold raises; eauto]; fail);
    right; eexists; (split; [reflexivity|]); (split; [done|]); intros x Hx;
    (split_and!; [done|done|]); simpl; try (by right; left); try (by left).
  all: right; right; rewrite Hx; split_and!; [done|apply Z.leb_gt; assumption|done].
Qed.

Lemma update_ids i f w :
  (∀ x, id (f x) = id x) → map id (deliveries (update i f w)) = map id (deliveries w).
Proof. intros H. apply Sql.update_key. intros r _. apply H. Qed.

Lemma attempt_ids c tr d now w : map id (deliveries (fst (attempt c tr d now w))) = map id (deliveries w).
Proof. destruct (attempt_update c tr d now w) as [(e & -> & _)|(f & -> & Hi & _)]; [done|]. by apply update_ids. Qed.

(** A row other than the attempted one stays as it is. *)
Lemma attempt_other c tr d now w x :
  id x ≠ id d → x ∈ deliveries w → x ∈ deliveries (fst (attempt c tr d now w)).
Proof.
  intros Hne Hx. destruct (attempt_update c tr d now w) as [(e & -> & _)|(f & -> & _)]; [done|].
  apply Sql.elem_of_update. exists x. split; [done|]. by rewrite bool_decide_false.
Qed.

Lemma nodup_id_eq (l : list Delivery) x y : NoDup (map id l) → x ∈ l → y ∈ l → id x = id y → x = y.
Proof.
  induction l as [|z l IH]; simpl; [set_solver|]. intros [Hn Hd]%NoDup_cons Hx Hy E.
  apply elem_of_cons in Hx, Hy. destruct Hx as [->|Hx], Hy as [->|Hy]; [done|..|by apply IH];
    destruct Hn; apply list_elem_of_fmap; eauto.
Qed.

Lemma attempt_ok c tr d now w :
  store_ok c w → d ∈ deliveries w → st d = PENDING → store_ok c (fst (attempt c tr d now w)).
Proof.
  intros [ND Hok] Hd Hp. split; [by rewrite attempt_ids|].
  destruct (attempt_update c tr d now w) as [(e & -> & _)|(f & -> & _ & Hf)]; [done|].
  intros y (x & Hx & ->)%Sql.elem_of_update. destruct (bool_decide (id x = id d)) eqn:E; [|by apply Hok].
  apply bool_decide_eq_true in E. rewrite (nodup_id_eq _ x d ND Hx Hd E).
  destruct (Hok d Hd) as (H1 & H2 & _). specialize (H2 Hp). destruct (Hf d eq_refl) as (_ & Ha & Hs).
  unfold delivery_ok. rewrite Ha. split; [lia|].
  split; [intros Hy|]; destruct Hs as [Hs|[Hs|(Hs & Hlt & _)]]; try congruence; lia.
Qed.

Lemma run_loop_ok c tr stop now due : ∀ n w,
  store_ok c w → NoDup (map id due) → (∀ d, d ∈ due → d ∈ deliveries w ∧ st d = PENDING) →
  store_ok c (fst (run_loop c tr stop now n due w)).
Proof.
  induction due as [|d due IH]; intros n w Hok ND Hin; cbn [run_loop]; [done|].
  destruct (stop n); [done|]. simpl in ND. apply NoDup_cons in ND as [Hn ND].
  destruct (Hin d) as [Hd Hp]; [by left|]. pose proof (attempt_ok c (tr n) d now w Hok Hd Hp) as Hok'.
  pose proof (attempt_other c (tr n) d now w) as Ho.
  destruct (attempt c (tr n) d now w) as [w' [[]|e]]; simpl in *; [|done].
  apply IH; [done|done|]. intros x Hx. destruct (Hin x) as [Hx1 Hx2]; [by right|].
  split; [|done]. apply Ho; [|done]. intros E. destruct Hn. rewrite <- E.
  by apply list_elem_of_fmap_2.
Qed.

Lemma sublist_take_nodup {A} (l : list A) n : NoDup l → NoDup (take n l).
Proof. intros H. eapply sublist_NoDup; [exact H|]. apply sublist_take. Qed.

Lemma claim_due_nodup now n w : NoDup (map id (deliveries w)) → NoDup (map id (claim_due now n w)).
Proof.
  intros H. unfold claim_due. rewrite <- firstn_map. apply sublist_take_nodup.
  rewrite (fmap_Permutation id _ _ (Sql.order_by_perm _ _)).
  unfold Sql.select. induction (deliveries w) as [|d l IH]; simpl in *; [done|].
  apply NoDup_cons in H as [Hn Hd]. destruct (_ && _); [|by apply IH]. simpl.
  apply NoDup_cons. split; [|by apply IH]. intros (x & E & Hx)%list_elem_of_fmap. apply Hn.
  rewrite E. apply list_elem_of_fmap_2. by apply list_elem_of_In, filter_In, proj1, list_elem_of_In in Hx.
Qed.

Lemma claim_due_pending now n w d : d ∈ claim_due now n w → d ∈ deliveries w ∧ st d = PENDING ∧ (next_attempt_at d <= now)%Q.
Proof.
  intros H. unfold claim_due in H. apply elem_of_take in H as (i & H & _).
  apply list_elem_of_lookup_2 in H. rewrite Sql.order_by_perm in H.
  apply Sql.elem_of_select in H as [H1 [H2 H3]%andb_true_iff].
  apply bool_decide_eq_true in H2, H3. done.
Qed.

(** Everything that changes the webhook tables. *)
Inductive op :=
| OpCreate (eid sid ne ns : string) (raw : list Z) (c url : string) (desc : option string) (tys : option (list string))
| OpDisable (i : string) (b : bool)
| OpDelete (i : string)
| OpRotate (sid ns : string) (raw : list Z) (i : string) (grace now : Q)
| OpEnqueue (uuid : nat → string) (c eid ty body : string) (now : Q)
| OpRun (tr : nat → transport) (stop : nat → bool) (now : Q)
| OpReplay (i : string) (now : Q).

Definition exec (c : config) (o : op) (w : t) : t :=
  match o with
  | OpCreate eid sid ne ns raw cl url desc tys => fst (create_endpoint eid sid ne ns raw cl url desc tys w)
  | OpDisable i b => fst (set_disabled i b w)
  | OpDelete i => fst (delete_endpoint i w)
  | OpRotate sid ns raw i g n => fst (rotate_secret sid ns raw i g n w)
  | OpEnqueue uuid cl eid ty body n => fst (enqueue_event uuid cl eid ty body n w)
  | OpRun tr stop n => fst (run_once c tr stop n w)
  | OpReplay i n => fst (replay i n w)
  end.
Definition execs (c : config) (os : list op) (w : t) : t := fold_left (fun w o => exec c o w) os w.

Lemma enqueue_loop_ok c uuid eid ty body now eps : ∀ n rows created,
  NoDup (map id rows) → (∀ d, d ∈ rows → delivery_ok c d) →
  let rows' := fst (enqueue_loop uuid eid ty body now n eps rows created) in
  NoDup (map id rows') ∧ ∀ d, d ∈ rows' → delivery_ok c d.
Proof.
  induction eps as [|e eps IH]; intros n rows created ND Hok; cbn [enqueue_loop]; [done|].
  destruct (subscribed ty e); simpl negb; cbv iota; [|by apply IH].
  unfold Sql.insert_or_ignore. destruct (existsb _ rows) eqn:E; [by apply IH|]. apply IH.
  - apply (Sql.insert_key id); [done|]. intros (x & Ex & Hx)%list_elem_of_fmap.
    pose proof (Sql.existsb_false_elem _ _ _ E Hx) as [F _]%orb_false_iff.
    apply bool_decide_eq_false in F. by simpl in Ex.
  - apply (Sql.insert_forall (delivery_ok c)); [|done]. unfold delivery_ok, max_attempts. simpl. split_and!; [lia|lia|intros; lia|done].
Qed.

Lemma exec_ok c o w : store_ok c w → store_ok c (exec c o w).
Proof.
  intros [ND Hok]. destruct o; cbn [exec].
  - unfold create_endpoint. by destruct (_ || _).
  - done.
  - split; simpl; [by apply Sql.delete_key|]. by apply (Sql.delete_forall (delivery_ok c)).
  - unfold rotate_secret. by destruct (_ || _).
  - unfold enqueue_event.
    pose proof (enqueue_loop_ok c uuid eid ty body now
      (Sql.select (λ e, bool_decide (ep_client e = c0) && negb (ep_disabled e)) (endpoints w)) 0
      (deliveries w) 0 ND Hok) as H.
    by destruct (enqueue_loop _ _ _ _ _ _ _ _ _).
  - apply run_loop_ok; [done|by apply claim_due_nodup|].
    intros d Hd. apply claim_due_pending in Hd. naive_solver.
  - split; simpl; [by rewrite Sql.update_key|].
    apply (Sql.update_forall (delivery_ok c)); [|done].
    intros r _ _. unfold delivery_ok, max_attempts. simpl. split_and!; [lia|lia|intros; lia|done].
Qed.

Lemma execs_ok c os clients : store_ok c (execs c os (Mk clients [] [] [])).
Proof.
  unfold execs. assert (store_ok c (Mk clients [] [] [])) as H0 by (split; [constructor|set_solver]).
  revert H0. generalize (Mk clients [] [] []). induction os as [|o os IH]; simpl; intros w0 Hw; [done|].
  by apply IH, exec_ok.
Qed.

(** Retries are bounded: whatever endpoints come and go, secrets rotate, events are
    enqueued or replayed and the worker runs, with any answers from the receivers, every
    delivery has been attempted at most [max_attempts] times since it was last enqueued or
    replayed, a delivery still pending has an attempt left, and a delivery id names one
    row. *)
Theorem attempts_bounded c os clients d :
  let w := execs c os (Mk clients [] [] []) in
  NoDup (map id (deliveries w)) ∧
  (d ∈ deliveries w →
   0 <= attempts d <= max_attempts c ∧ (st d = PENDING → attempts d < max_attempts c) ∧ st d ≠ FAILED).
Proof.
  intros w. pose proof (execs_ok c os clients) as [H1 H2]. split; [done|apply H2].
Qed.

(** ** Every delivery settles *)

Lemma attempt_rows c tr d now w y :
  NoDup (map id (deliveries w)) → d ∈ deliveries w →
  ¬ raises tr → snd (attempt c tr d now w) = Ok () ∧
  (y ∈ deliveries (fst (attempt c tr d now w)) →
   (y ∈ deliveries w ∧ id y ≠ id d) ∨ outcome c d y now).
Proof.
  intros ND Hd Hr. destruct (attempt_update c tr d now w) as [(e & _ & ?)|(f & -> & _ & Hf)]; [done|]. split; [done|].
  intros (x & Hx & ->)%Sql.elem_of_update. destruct (bool_decide (id x = id d)) eqn:E.
  - apply bool_decide_eq_true in E. rewrite (nodup_id_eq _ x d ND Hx Hd E). right. by apply Hf.
  - apply bool_decide_eq_false in E. by left.
Qed.

Lemma run_loop_rows c tr now due : ∀ n w y,
  (∀ n, ¬ raises (tr n)) →
  NoDup (map id (deliveries w)) → NoDup (map id due) → (∀ d, d ∈ due → d ∈ deliveries w) →
  y ∈ deliveries (fst (run_loop c tr (fun _ => false) now n due w)) →
  (y ∈ deliveries w ∧ id y ∉ map id due) ∨ ∃ d, d ∈ due ∧ outcome c d y now.
Proof.
  induction due as [|d due IH]; intros n w y Hr ND NDd Hin Hy; cbn [run_loop] in Hy; [left; set_solver|].
  simpl in NDd. apply NoDup_cons in NDd as [Hn NDd].
  assert (d ∈ deliveries w) as Hd by (apply Hin; left).
  pose proof (attempt_rows c (tr n) d now w y ND Hd (Hr n)) as [Hok Hrows].
  pose proof (attempt_ids c (tr n) d now w) as Hids. pose proof (attempt_other c (tr n) d now w) as Hother.
  destruct (attempt c (tr n) d now w) as [w' r]. simpl in *. subst r.
  apply IH in Hy as [[Hy Hny]|(x & Hx & Ho)]; [| |done|by rewrite Hids|done|].
  - apply Hrows in Hy as [[Hy Hne]|Ho]; [|right; exists d; split; [left|done]].
    left. split; [done|]. rewrite elem_of_cons. naive_solver.
  - right. exists x. split; [by right|done].
  - intros x Hx. apply Hother; [|apply Hin; by right]. intros E. apply Hn. rewrite <- E.
    by apply list_elem_of_fmap_2.
Qed.

Definition pending_count (w : t) : nat :=
  length (List.filter (fun d => bool_decide (st d = PENDING)) (deliveries w)).

Lemma claim_due_all now n w d :
  (pending_count w <= n)%nat → d ∈ deliveries w → st d = PENDING → (next_attempt_at d <= now)%Q →
  d ∈ claim_due now n w.
Proof.
  intros Hn Hd Hs Ht. unfold claim_due. rewrite take_ge.
  - rewrite Sql.order_by_perm. apply Sql.elem_of_select. split; [done|].
    by rewrite !bool_decide_true.
  - rewrite (Permutation_length (Sql.order_by_perm _ _)). etrans; [|exact Hn]. unfold pending_count, Sql.select.
    clear. induction (deliveries w) as [|x l IH]; [done|]. simpl.
    destruct (bool_decide (st x = PENDING)), (bool_decide (next_attempt_at x <= now)%Q); simpl; lia.
Qed.

Lemma run_once_pending c tr now w y :
  (∀ n, ¬ raises (tr n)) →
  NoDup (map id (deliveries w)) → (pending_count w <= batch_limit c)%nat →
  (∀ d, d ∈ deliveries w → st d = PENDING → (next_attempt_at d <= now)%Q) →
  y ∈ deliveries (fst (run_once c tr (fun _ => false) now w)) → st y = PENDING →
  ∃ d, d ∈ deliveries w ∧ st d = PENDING ∧ attempts y = attempts d + 1.
Proof.
  intros Hr ND Hl Hdue Hy Hp. unfold run_once in Hy.
  apply run_loop_rows in Hy as [[Hy Hn]|(d & Hd & Ho)];
    [| |done|done|by apply claim_due_nodup|intros d Hd; by destruct (claim_due_pending _ _ _ _ Hd)].
  - destruct Hn. apply list_elem_of_fmap_2. apply claim_due_all; auto.
  - apply claim_due_pending in Hd as (? & ? & _). exists d. destruct Ho as (_ & ? & _). done.
Qed.

(** Worker passes in a row, each made when everything pending is due and fits a batch, over
    a transport that ends every POST in a status or in a [TransportError]. *)
Fixpoint passes (c : config) (rs : list ((nat → transport) * Q)) (w : t) : t :=
  match rs with
  | [] => w
  | (tr, now) :: rs' => passes c rs' (fst (run_once c tr (fun _ => false) now w))
  end.
Fixpoint all_due (c : config) (rs : list ((nat → transport) * Q)) (w : t) : Prop :=
  match rs with
  | [] => True
  | (tr, now) :: rs' =>
      (∀ d, d ∈ deliveries w → st d = PENDING → (next_attempt_at d <= now)%Q) ∧
      (pending_count w <= batch_limit c)%nat ∧ (∀ n, ¬ raises (tr n)) ∧
      all_due c rs' (fst (run_once c tr (fun _ => false) now w))
  end.

Lemma passes_pending c rs : ∀ w k,
  store_ok c w → all_due c rs w →
  (∀ d, d ∈ deliveries w → st d = PENDING → k <= attempts d) →
  store_ok c (passes c rs w) ∧
  ∀ d, d ∈ deliveries (passes c rs w) → st d = PENDING → k + Z.of_nat (length rs) <= attempts d.
Proof.
  induction rs as [|[tr now] rs IH]; intros w k Hok Hdue Hk; cbn [passes length].
  { split; [done|]. intros d Hd Hp. specialize (Hk d Hd Hp). simpl. lia. }
  destruct Hdue as (H1 & H2 & Hr & H3).
  destruct (IH (fst (run_once c tr (fun _ => false) now w)) (k + 1)) as [IH1 IH2].
  - exact (exec_ok c (OpRun tr (fun _ => false) now) w Hok).
  - done.
  - intros d Hd Hp. destruct (run_once_pending c tr now w d) as (x & Hx & Hxp & Ha); [done|apply Hok|done..|].
    specialize (Hk x Hx Hxp). lia.
  - split; [done|]. intros d Hd Hp. specialize (IH2 d Hd Hp). lia.
Qed.

(** C40. Deliveries settle.  Take the store after any history of endpoints, rotations, events,
    replays and worker runs, and [max_attempts] further passes of the worker with nothing
    enqueued or replayed in between, each made when all pending deliveries are due and fit
    one batch, and each POST ending in an HTTP status or in a [TransportError], whatever the
    status.  Then no delivery is pending any more: each was delivered or dead-lettered.  (A
    POST that ends in another exception is excluded: it ends the pass with nothing
    recorded.) *)
Theorem deliveries_settle c os clients rs d :
  let w := execs c os (Mk clients [] [] []) in
  all_due c rs w → max_attempts c <= Z.of_nat (length rs) →
  d ∈ deliveries (passes c rs w) → st d = SUCCEEDED ∨ st d = DEAD.
Proof.
  intros w Hdue Hn Hd.
  pose proof (execs_ok c os clients : store_ok c w) as Hok.
  destruct (passes_pending c rs w 0 Hok Hdue) as [Hok' H].
  - intros x Hx _. apply Hok in Hx. unfold delivery_ok in Hx. lia.
  - specialize (H d Hd). destruct Hok' as [_ Hok']. apply Hok' in Hd as (_ & Hd & Hf).
    destruct (st d) eqn:Hp; [|by left|done|by right]. specialize (H eq_refl). specialize (Hd eq_refl). lia.
Qed.

(** ** Secret rotation *)

Lemma elem_of_active s i now w :
  s ∈ active_secrets i now w ↔
  ∃ r, r ∈ secrets w ∧ se_secret r = s ∧ se_endpoint r = i ∧ active now r = true.
Proof.
  unfold active_secrets. rewrite list_elem_of_fmap. split.
  - intros (r & -> & Hr). rewrite Sql.order_by_perm in Hr.
    apply Sql.elem_of_select in Hr as [Hr [He Ha]%andb_true_iff]. apply bool_decide_eq_true in He. by exists r.
  - intros (r & Hr & <- & He & Ha). exists r. split; [done|]. rewrite Sql.order_by_perm.
    apply Sql.elem_of_select. split; [done|]. by rewrite bool_decide_true.
Qed.

(** Rotation is seamless and final: from the moment of a rotation until its grace
    period ends, deliveries are signed so that a receiver holding the new secret, or any
    secret that was current before, accepts them; once the grace period is over only
    secrets issued by the rotation or later, or still in an earlier grace period, are
    used, so that those replaced are not. *)
Theorem rotation_grace sid ns raw i grace now0 w w' new :
  rotate_secret sid ns raw i grace now0 w = (w', Ok new) →
  (∀ now, (now < now0 + grace)%Q →
     ∀ s r, s = new ∨ (r ∈ secrets w ∧ se_endpoint r = i ∧ se_expires_at r = None ∧ se_secret r = s) →
     s ∈ active_secrets i now w' ∧
     ∀ m ts body, Signing.verify s (Signing.signature_header (active_secrets i now w') m ts body) m ts body
                  = Ok true) ∧
  (∀ now, (now0 + grace <= now)%Q → ∀ s, s ∈ active_secrets i now w' →
     s = new ∨ ∃ r x, r ∈ secrets w ∧ se_secret r = s ∧ se_expires_at r = Some x ∧ (now < x)%Q).
Proof.
  unfold rotate_secret. destruct (_ || _); [done|]. intros [= <- <-]. split.
  - intros now Hnow s r Hs.
    assert (s ∈ active_secrets i now (with_secrets
      (Sql.insert (Secret sid i (Signing.generate_secret raw) ns None)
        (Sql.update (λ s, bool_decide (se_endpoint s = i) && bool_decide (se_expires_at s = None))
          (λ s, Secret (se_id s) (se_endpoint s) (se_secret s) (se_created_at s) (Some (now0 + grace)%Q))
          (secrets w))) w)) as Hin.
    { apply elem_of_active. destruct Hs as [->|(Hr & He & Hx & <-)].
      - eexists. split; [apply elem_of_app; right; by apply list_elem_of_singleton|]. done.
      - eexists. split.
        + apply elem_of_app. left. apply Sql.elem_of_update. exists r. split; [done|reflexivity].
        + rewrite He, Hx, !bool_decide_true by done. simpl. split_and!; [done|done|].
          unfold active. simpl. by rewrite bool_decide_true. }
    split; [done|]. intros m ts body. rewrite Signing.verify_header, bool_decide_true; [done|].
    apply list_elem_of_fmap. by exists s.
  - intros now Hnow s (r & Hr & <- & He & Ha)%elem_of_active. simpl in Hr.
    apply elem_of_app in Hr as [Hr|Hr%list_elem_of_singleton]; [|left; by subst].
    apply Sql.elem_of_update in Hr as (x & Hx & ->). right.
    destruct (bool_decide (se_endpoint x = i)) eqn:E1; simpl in *.
    + destruct (bool_decide (se_expires_at x = None)) eqn:E2; simpl in *.
      * unfold active in Ha. simpl in Ha. apply bool_decide_eq_true in Ha. by apply Qle_not_lt in Hnow.
      * apply bool_decide_eq_false in E2. unfold active in Ha.
        destruct (se_expires_at x) as [y|] eqn:Y; [|done]. apply bool_decide_eq_true in Ha. by exists x, y.
    + apply bool_decide_eq_false in E1. done.
Qed.

(** ** A concrete history *)

Definition demo_cfg : config := Config 2 [30%Q] 50.
Definition demo_uuid (n : nat) : string := "d" +:+ pretty (N.of_nat n).
Definition demo_ops : list op :=
  [OpCreate "ep1" "s1" "t0" "t0" [1; 2; 3] "c1" "https://example.com/hook" None None;
   OpEnqueue demo_uuid "c1" "evt1" "subscription.activated" "{}" 100].
Definition demo_store : t := Eval vm_compute in execs demo_cfg demo_ops (Mk ["c1"] [] [] []).
Definition demo_tr : nat → transport := fun _ => Transport (fun _ _ _ => Status 500) (fun _ => true).

Lemma enqueue_idempotent_witness :
  enqueue_event demo_uuid "c1" "evt2" "x" "{}" 5
    (fst (enqueue_event (fun n => "e" +:+ pretty (N.of_nat n)) "c1" "evt2" "x" "{}" 3 demo_store))
  = (fst (enqueue_event (fun n => "e" +:+ pretty (N.of_nat n)) "c1" "evt2" "x" "{}" 3 demo_store), 0%nat).
Proof.
  apply (enqueue_idempotent (fun n => "e" +:+ pretty (N.of_nat n)) demo_uuid "c1" "evt2" "x" "{}" "{}" 3 5 demo_store).
  split.
  - intros n. change (map id (deliveries demo_store)) with ["d0"]. rewrite list_elem_of_singleton. discriminate.
  - intros m n. simpl. intros [= H]. by apply Nat2N.inj, pretty_N_inj.
Defined.

Lemma deliveries_settle_witness :
  st (nth 0 (deliveries (passes demo_cfg [(demo_tr, 100%Q); (demo_tr, 200%Q)] demo_store))
        (MkDelivery "" "" "" "" "" PENDING 0 0 None None 0 0)) = DEAD.
Proof.
  assert (∀ n, ¬ raises (demo_tr n)) as Hr by (intros n (u & b & h & e & E); discriminate E).
  destruct (deliveries_settle demo_cfg demo_ops ["c1"] [(demo_tr, 100%Q); (demo_tr, 200%Q)]
    (nth 0 (deliveries (passes demo_cfg [(demo_tr, 100%Q); (demo_tr, 200%Q)] demo_store))
        (MkDelivery "" "" "" "" "" PENDING 0 0 None None 0 0))) as [H|H]; [..|vm_compute in H; discriminate H|exact H].
  - cbn [all_due]. split_and!; try exact Hr; try (vm_compute; lia);
      try (vm_compute; intros d Hd _; apply list_elem_of_singleton in Hd as ->; done); exact I.
  - vm_compute. congruence.
  - vm_compute. left.
Defined.

Lemma rotation_grace_witness :
  ∃ w' new, rotate_secret "s2" "t1" [4; 5; 6] "ep1" 60 100 demo_store = (w', Ok new) ∧
    new ∈ active_secrets "ep1" 120 w'.
Proof.
  do 2 eexists. split; [vm_compute; reflexivity|].
  eapply (rotation_grace "s2" "t1" [4; 5; 6] "ep1" 60 100 demo_store).
  - vm_compute. reflexivity.
  - done.
  - left. reflexivity.
  Unshelve. exact (Secret "" "" "" "" None).
Defined.

End WebhookSystem.
