(* ===== verification/ClientEvents.v ===== *)
(** * Client events ([engine/billing/client_events.py], the SSE loop of
    [engine/api/client_router.py])

    [Module ClientEventLog] is the durable per-client log, [Module ClientEventNotifier]
    the wakeups, [Module ClientEventEmitter] the fan-out to both channels, and
    [Module EventStream] a live SSE stream.  The stream's pass from the capture of the
    wakeup to the end of the query has no await, so it is one step; emissions run
    between passes.  [asyncio.Event] objects are numbered in the order of creation. *)

From S2P Require Import Prelude Text Sql Webhooks.

Open Scope Z_scope.

Module ClientEventLog.

(** [ClientEvent], a row of [client_events] *)
Record ClientEvent := Event {
  id : Z;
  client_id : string;
  event_id : string;
  type : string;
  payload : string;
  ts : Q
}.

(** The table in id order with its AUTOINCREMENT counter, the ids of [clients], and the
    retention settings of the constructor. *)
Record t := Mk {
  rows : list ClientEvent;
  seq : Z;
  client_ids : list string;
  max_age_s : Q;
  max_per_client : Z
}.
Definition with_rows (x : list ClientEvent) (l : t) : t :=
  Mk x (seq l) (client_ids l) (max_age_s l) (max_per_client l).

(** [ORDER BY id DESC LIMIT n] of one client's ids. *)
Definition newest (c : string) (n : Z) (rs : list ClientEvent) : list Z :=
  take (Z.to_nat n)
    (map id (Sql.order_by (fun a b => id b <=? id a) (Sql.select (fun e => bool_decide (client_id e = c)) rs))).

(** [_prune] *)
Definition prune (c : string) (now : Q) (l : t) : t :=
  let l := if bool_decide (0 < max_age_s l)%Q then
             with_rows (Sql.delete (fun e => bool_decide (client_id e = c) && bool_decide (ts e < now - max_age_s l)%Q)
                          (rows l)) l
           else l in
  if 0 <? max_per_client l then
    with_rows (Sql.delete (fun e => bool_decide (client_id e = c)
                                    && negb (bool_decide (id e ∈ newest c (max_per_client l) (rows l)))) (rows l)) l
  else l.

(** [append]: [INSERT OR IGNORE] does not ignore a missing client. *)
Definition append (c eid ty body : string) (now : Q) : stmt t (option Z) := fun l =>
  if existsb (fun e => bool_decide (client_id e = c) && bool_decide (event_id e = eid)) (rows l)
  then (l, Ok None)
  else if negb (bool_decide (c ∈ client_ids l)) then (l, Err IntegrityError)
  else
    let new_id := seq l + 1 in
    let l1 := Mk (Sql.insert (Event new_id c eid ty body now) (rows l)) new_id (client_ids l)
                (max_age_s l) (max_per_client l) in
    (prune c now l1, Ok (Some new_id)).

(** [list_since] *)
Definition list_since (c : string) (since : Z) (limit : nat) (l : t) : list ClientEvent :=
  take limit (Sql.order_by (fun a b => id a <=? id b)
    (Sql.select (fun e => bool_decide (client_id e = c) && (since <? id e)) (rows l))).

(** [recent_of_type] *)
Definition recent_of_type (ty : string) (since : Q) (limit : nat) (l : t) : list ClientEvent :=
  take limit (Sql.order_by (fun a b => id b <=? id a)
    (Sql.select (fun e => bool_decide (type e = ty) && bool_decide (since <= ts e)%Q) (rows l))).

(** [latest_id] *)
Definition latest_id (c : string) (l : t) : Z :=
  fold_right Z.max 0 (map id (Sql.select (fun e => bool_decide (client_id e = c)) (rows l))).

(** ** Facts *)

(** Ids ascend in the table and stay below the counter. *)
Definition ordered (l : t) : Prop :=
  StronglySorted (fun a b => id a < id b) (rows l) ∧ 0 <= seq l ∧ ∀ e, e ∈ rows l → 0 < id e <= seq l.

Lemma sorted_filter {A} (R : A → A → Prop) p l :
  StronglySorted R l → StronglySorted R (List.filter p l).
Proof.
  induction 1 as [|x l Hs IH Hf]; simpl; [constructor|]. destruct (p x); [|done].
  constructor; [done|]. rewrite Forall_forall in *. intros y Hy. apply Hf.
  by apply list_elem_of_In, filter_In, proj1, list_elem_of_In in Hy.
Qed.

Lemma prune_frame c now l :
  (∃ p, rows (prune c now l) = List.filter p (rows l)) ∧ seq (prune c now l) = seq l ∧
  client_ids (prune c now l) = client_ids l ∧ max_age_s (prune c now l) = max_age_s l ∧
  max_per_client (prune c now l) = max_per_client l.
Proof.
  unfold prune. split; [|by repeat case_match].
  assert (∀ (A : Type) (r : list A), ∃ p, r = List.filter p r) as Hid.
  { intros A r. exists (fun _ => true). induction r as [|x r IH]; simpl; congruence. }
  destruct (bool_decide (0 < max_age_s l)%Q); destruct (0 <? max_per_client _); simpl.
  - unfold Sql.delete. eexists. assert (∀ (A : Type) (f g : A → bool) r,
      List.filter f (List.filter g r) = List.filter (fun x => g x && f x) r) as ->; [|reflexivity].
    intros A f g r. induction r as [|x r IH]; simpl; [done|].
    destruct (g x); simpl; [destruct (f x); by rewrite IH|done].
  - by eexists.
  - by eexists.
  - apply Hid.
Qed.

Lemma sorted_snoc rs x :
  StronglySorted (fun a b => id a < id b) rs → (∀ e, e ∈ rs → id e < id x) →
  StronglySorted (fun a b => id a < id b) (rs ++ [x]).
Proof.
  induction rs as [|r rs IH]; simpl; intros Hs Hx; [repeat constructor|].
  inversion Hs as [|? ? Hs' Hf]; subst. constructor; [apply IH; [done|]; set_solver|].
  apply Forall_app. split; [done|]. constructor; [apply Hx; left|constructor].
Qed.

Lemma append_ordered c eid ty body now l : ordered l → ordered (fst (append c eid ty body now l)).
Proof.
  intros (Hs & H0 & Hb). unfold append. destruct (existsb _ _); [done|]. destruct (negb _); [done|]. cbn [fst].
  set (l1 := Mk _ _ _ _ _).
  assert (ordered l1) as (Hs1 & H1 & Hb1).
  { split_and!; simpl.
    - apply sorted_snoc; [done|]. intros e He. specialize (Hb e He). simpl. lia.
    - lia.
    - intros e [He|He%list_elem_of_singleton]%elem_of_app.
      + specialize (Hb e He). simpl. lia.
      + subst e. simpl. lia. }
  destruct (prune_frame c now l1) as ((p & Hp) & Hq & _). split_and!.
  - rewrite Hp. by apply sorted_filter.
  - by rewrite Hq.
  - rewrite Hp, Hq. intros e He. apply Hb1. by apply list_elem_of_In, filter_In, proj1, list_elem_of_In in He.
Qed.

Lemma sorted_le (l : list ClientEvent) :
  StronglySorted (fun a b => id a < id b) l → StronglySorted (fun a b => (id a <=? id b) = true) l.
Proof.
  induction 1 as [|x l Hs IH Hf]; constructor; [done|]. eapply Forall_impl; [exact Hf|].
  simpl. intros y Hy. apply Z.leb_le. lia.
Qed.

Lemma list_since_spec c since n l :
  ordered l →
  list_since c since n l =
  take n (List.filter (fun e => bool_decide (client_id e = c) && (since <? id e)) (rows l)).
Proof.
  intros (Hs & _). unfold list_since. rewrite Sql.order_by_id; [done|]. by apply sorted_le, sorted_filter.
Qed.

(** Retention switched off. *)
Definition keeps_all (l : t) : Prop := (max_age_s l <= 0)%Q ∧ max_per_client l <= 0.
Lemma prune_keeps c now l : keeps_all l → prune c now l = l.
Proof.
  intros [H1 H2]. unfold prune. rewrite bool_decide_false by (by apply Qle_not_lt).
  destruct (Z.ltb_spec 0 (max_per_client l)); [lia|done].
Qed.

Lemma ids_inj l e e' : ordered l → e ∈ rows l → e' ∈ rows l → id e = id e' → e = e'.
Proof.
  intros (Hs & _) He He' E. revert Hs He He'. induction (rows l) as [|r rs IH]; [set_solver|].
  intros Hs He He'. inversion Hs as [|? ? Hs' Hf]; subst. rewrite Forall_forall in Hf.
  apply elem_of_cons in He, He'. destruct He as [->|He], He' as [->|He']; [done|..|by apply IH].
  - specialize (Hf _ He'). lia.
  - specialize (Hf _ He). lia.
Qed.

Lemma sorted_take_drop {A} (R : A → A → Prop) n l x y :
  StronglySorted R l → x ∈ take n l → y ∈ drop n l → R x y.
Proof.
  revert n. induction l as [|z l IH]; intros [|n] Hs Hx Hy; simpl in *; try set_solver.
  inversion Hs as [|? ? Hs' Hf]; subst. rewrite Forall_forall in Hf.
  apply elem_of_cons in Hx as [->|Hx]; [|by eapply IH]. apply Hf.
  by apply (subseteq_drop n l).
Qed.

Lemma sorted_nodup (l : list ClientEvent) : StronglySorted (fun a b => id a < id b) l → NoDup l.
Proof.
  induction 1 as [|x l Hs IH Hf]; constructor; [|done]. intros Hx. rewrite Forall_forall in Hf.
  specialize (Hf x Hx). lia.
Qed.

(** The rows of a client, newest first. *)
Definition by_age (c : string) (rs : list ClientEvent) : list ClientEvent :=
  Sql.order_by (fun a b => id b <=? id a) (Sql.select (fun e => bool_decide (client_id e = c)) rs).

Lemma by_age_sorted c rs : StronglySorted (fun a b => id b <= id a) (by_age c rs).
Proof.
  assert (∀ l : list ClientEvent, StronglySorted (fun a b => (id b <=? id a) = true) l →
            StronglySorted (fun a b => id b <= id a) l) as H.
  { induction 1 as [|x l ? IH Hf]; constructor; [done|]. eapply Forall_impl; [exact Hf|].
    intros y Hy. by apply Z.leb_le. }
  apply H, Sql.order_by_sorted.
  - intros x y. destruct (Z.leb_spec (id y) (id x)); [by left|right; apply Z.leb_le; lia].
  - intros x y z Hx%Z.leb_le Hy%Z.leb_le. apply Z.leb_le. lia.
Qed.

Lemma elem_by_age c rs e : e ∈ by_age c rs ↔ e ∈ rs ∧ client_id e = c.
Proof. unfold by_age. by rewrite Sql.order_by_perm, Sql.elem_of_select, bool_decide_eq_true. Qed.

Lemma newest_spec c n rs : newest c n rs = map id (take (Z.to_nat n) (by_age c rs)).
Proof. unfold newest. by rewrite firstn_map. Qed.

Lemma prune_bound c now l :
  (max_age_s l <= 0)%Q → 0 < max_per_client l →
  prune c now l =
  with_rows (Sql.delete (fun e => bool_decide (client_id e = c)
     && negb (bool_decide (id e ∈ newest c (max_per_client l) (rows l)))) (rows l)) l.
Proof.
  intros Ha Hn. unfold prune. rewrite bool_decide_false by (by apply Qle_not_lt).
  destruct (Z.ltb_spec 0 (max_per_client l)); [done|lia].
Qed.

(** *** One client's rows after a bounded prune *)

Section Retained.
Context (c : string) (n : Z) (l : t) (x : ClientEvent).
Hypotheses (Ho : ordered l) (Hn : 0 < n) (Hx : id x = seq l + 1) (Hc : client_id x = c).

(** The table with the new row, and what is left of it. *)
Definition grown : list ClientEvent := Sql.insert x (rows l).
Definition retained : list ClientEvent :=
  Sql.delete (fun e => bool_decide (client_id e = c) && negb (bool_decide (id e ∈ newest c n grown))) grown.

Lemma grown_ordered : ordered (Mk grown (seq l + 1) (client_ids l) (max_age_s l) n).
Proof.
  destruct Ho as (Hs & H0 & Hb). split_and!; simpl; [|lia|].
  - apply sorted_snoc; [done|]. intros e He. specialize (Hb e He). simpl. lia.
  - intros e [He|He%list_elem_of_singleton]%elem_of_app; [specialize (Hb e He); lia|subst e; simpl; lia].
Qed.
Lemma elem_grown : x ∈ grown.
Proof. apply elem_of_app. right. by apply list_elem_of_singleton. Qed.
Lemma elem_retained e : e ∈ retained ↔ e ∈ grown ∧ (client_id e = c → e ∈ take (Z.to_nat n) (by_age c grown)).
Proof.
  unfold retained. rewrite Sql.elem_of_delete, newest_spec. split.
  - intros [He Hf]. split; [done|]. intros E. rewrite bool_decide_true in Hf by done.
    apply negb_false_iff, bool_decide_eq_true, list_elem_of_fmap in Hf as (e' & E' & He').
    assert (e' ∈ grown) as Hin by (by apply subseteq_take, elem_by_age in He' as [? _]).
    by rewrite (ids_inj _ e e' grown_ordered He Hin E').
  - intros [He Hk]. split; [done|]. case_bool_decide as Hec; [|done]. simpl.
    apply negb_false_iff, bool_decide_eq_true, list_elem_of_fmap_2. by apply Hk.
Qed.
Lemma retained_bound : (length (Sql.select (fun e => bool_decide (client_id e = c)) retained) <= Z.to_nat n)%nat.
Proof.
  etrans; [|apply (firstn_le_length (Z.to_nat n) (by_age c grown))]. apply submseteq_length, NoDup_submseteq.
  - apply sorted_nodup. unfold Sql.select, retained, Sql.delete. do 2 apply sorted_filter. apply grown_ordered.
  - intros e [He Hk%bool_decide_eq_true]%Sql.elem_of_select. by apply elem_retained in He as [_ He]; apply He.
Qed.
Lemma retained_new : x ∈ retained.
Proof.
  apply elem_retained. split; [apply elem_grown|]. intros _.
  assert (x ∈ by_age c grown) as Hb by (apply elem_by_age; split; [apply elem_grown|done]).
  pose proof (by_age_sorted c grown) as Hsrt. destruct (by_age c grown) as [|h t'] eqn:E; [set_solver|].
  destruct (Z.to_nat n) as [|m] eqn:Em; [lia|]. simpl.
  assert (h ∈ grown) as Hh by (by apply (elem_by_age c); rewrite E; left).
  assert (x = h) as ->; [|left]. apply elem_of_cons in Hb as [->|Hb]; [done|].
  inversion Hsrt as [|? ? _ Hf]; subst. rewrite Forall_forall in Hf. specialize (Hf _ Hb).
  apply (ids_inj _ x h grown_ordered elem_grown Hh). pose proof (proj2 (proj2 grown_ordered) h Hh). simpl in *. lia.
Qed.
Lemma retained_newer e e' : e ∈ retained → client_id e = c → e' ∈ rows l → client_id e' = c → e' ∉ retained → id e' < id e.
Proof.
  intros He Ec He' Ec' Hno. apply elem_retained in He as [Hin Ht]. specialize (Ht Ec).
  assert (e' ∈ grown) as Hg by (by apply elem_of_app; left).
  assert (e' ∈ drop (Z.to_nat n) (by_age c grown)) as Hd.
  { assert (e' ∈ by_age c grown) as Hb by (by apply elem_by_age).
    rewrite <- (take_drop (Z.to_nat n) (by_age c grown)) in Hb. apply elem_of_app in Hb as [Hb|?]; [|done].
    destruct Hno. by apply elem_retained. }
  pose proof (sorted_take_drop _ _ _ _ _ (by_age_sorted c grown) Ht Hd) as Hle. simpl in Hle.
  assert (id e' ≠ id e); [|lia]. intros E. apply Hno. rewrite (ids_inj _ e' e grown_ordered Hg Hin E). by apply elem_retained.
Qed.
End Retained.

(** Retention keeps the newest: after an append with a per-client bound [n], the client
    has at most [n] events in the log, the appended event is among them, every event it
    lost is older than every event it kept, and no other client's event is touched. *)
Theorem append_retention c eid ty body now l l' i :
  ordered l → (max_age_s l <= 0)%Q → 0 < max_per_client l →
  append c eid ty body now l = (l', Ok (Some i)) →
  let mine := Sql.select (fun e => bool_decide (client_id e = c)) in
  Z.of_nat (length (mine (rows l'))) <= max_per_client l ∧
  Event i c eid ty body now ∈ rows l' ∧
  (∀ e e', e ∈ mine (rows l') → e' ∈ mine (rows l) → e' ∉ rows l' → id e' < id e) ∧
  (∀ e, client_id e ≠ c → e ∈ rows l' ↔ e ∈ rows l).
Proof.
  intros Ho Ha Hn Happ. unfold append in Happ. destruct (existsb _ _); [done|]. destruct (negb _); [done|].
  injection Happ as <- <-. rewrite prune_bound by done. cbn [rows with_rows max_per_client]. set (x := Event (seq l + 1) c eid ty body now).
  fold (grown l x). fold (retained c (max_per_client l) l x). split_and!.
  - pose proof (retained_bound c (max_per_client l) l x Ho eq_refl). lia.
  - by apply retained_new.
  - intros e e' [He Hc%bool_decide_eq_true]%Sql.elem_of_select [He' Hc'%bool_decide_eq_true]%Sql.elem_of_select Hno.
    by apply (retained_newer c (max_per_client l) l x).
  - intros e Hc. rewrite elem_retained by done. split; [|intros He; split; [by apply elem_of_app; left|done]].
    intros [[He|He%list_elem_of_singleton]%elem_of_app _]; [done|]. destruct Hc. by rewrite He.
Qed.

Definition demo_bounded : t :=
  Mk [Event 1 "c1" "a" "t" "{}" 0; Event 2 "c1" "b" "t" "{}" 0; Event 3 "c2" "a" "t" "{}" 0] 3 ["c1"; "c2"] 0 2.

Lemma append_retention_witness :
  let l' := fst (append "c1" "c" "t" "{}" 5 demo_bounded) in
  Z.of_nat (length (Sql.select (fun e => bool_decide (client_id e = "c1")) (rows l'))) <= 2.
Proof.
  apply (append_retention "c1" "c" "t" "{}" 5 demo_bounded _ 4).
  - split_and!; [repeat constructor|done|].
    intros e He. simpl in He. repeat (apply elem_of_cons in He as [->|He]; [simpl; lia|]). set_solver.
  - done.
  - done.
  - vm_compute. reflexivity.
Defined.

End ClientEventLog.

Module ClientEventNotifier.

(** The wakeup of each client, the events that are set, and the next event's number. *)
Record t := Mk { events : gmap string nat; set_events : gset nat; next : nat }.
Definition init : t := Mk ∅ ∅ 0.

(** [event]: [setdefault] *)
Definition event (c : string) (n : t) : t * nat :=
  match events n !! c with
  | Some e => (n, e)
  | None => (Mk (<[c := next n]> (events n)) (set_events n) (S (next n)), next n)
  end.

(** [notify] *)
Definition notify (c : string) (n : t) : t :=
  let set' := match events n !! c with Some e => {[e]} ∪ set_events n | None => set_events n end in
  Mk (<[c := next n]> (events n)) set' (S (next n)).

End ClientEventNotifier.

Module ClientEventEmitter.

(** The two channels and the notifier; a channel that is off is [None]. *)
Record t := Mk {
  webhooks : option WebhookStore.t;
  log : option ClientEventLog.t;
  notifier : option ClientEventNotifier.t
}.

(** [ClientEventEmitter.emit]: what either channel raises is swallowed. *)
Definition emit (enabled : bool) (uuid uuid2 : string) (uuids : nat → string) (ts1 ts2 : string)
  (client_id ty : string) (data : Json.t) (event_id : option string) (now : Q) (s : t) : t :=
  let eid := WebhookDispatcher.event_id_or event_id uuid in
  let w := (fun w => fst (WebhookDispatcher.emit enabled uuid2 uuids ts1 client_id ty data (Some eid) now w))
           <$> webhooks s in
  match log s with
  | None => Mk w None (notifier s)
  | Some l =>
      match ClientEventLog.append client_id eid ty (WebhookDispatcher.envelope eid ty ts2 data) now l with
      | (l', Ok (Some _)) => Mk w (Some l') (ClientEventNotifier.notify client_id <$> notifier s)
      | (l', _) => Mk w (Some l') (notifier s)
      end
  end.

End ClientEventEmitter.

(** * A live stream *)

Module EventStream.
Import ClientEventLog.

(** The generator's locals: its cursor, the wakeup it waits on, and the frames sent. *)
Record sys := Sys {
  log : ClientEventLog.t;
  notifier : ClientEventNotifier.t;
  cursor : Z;
  waiter : option nat;
  full : bool;                  (* the last query returned 200 rows *)
  sent : list ClientEvent
}.

Definition BATCH : nat := 200.

(** One iteration of the loop of [sse_event_stream]: capture the wakeup, query, send. *)
Definition pass (c : string) (s : sys) : sys :=
  let '(n, w) := ClientEventNotifier.event c (notifier s) in
  let batch := list_since c (cursor s) BATCH (log s) in
  Sys (log s) n (match last batch with Some e => id e | None => cursor s end) (Some w)
    (Nat.eqb (length batch) BATCH) (sent s ++ batch).

(** An emission by any component, for any client. *)
Definition emit (c eid ty body : string) (now : Q) (s : sys) : sys :=
  match append c eid ty body now (log s) with
  | (l', Ok (Some _)) =>
      Sys l' (ClientEventNotifier.notify c (notifier s)) (cursor s) (waiter s) (full s) (sent s)
  | (l', _) => Sys l' (notifier s) (cursor s) (waiter s) (full s) (sent s)
  end.

Inductive op := Pass | Emit (c eid ty body : string) (now : Q).
Definition step (c : string) (o : op) (s : sys) : sys :=
  match o with Pass => pass c s | Emit c' eid ty body now => emit c' eid ty body now s end.
Definition steps (c : string) (os : list op) (s : sys) : sys := fold_left (fun s o => step c o s) os s.

Definition connect (l : ClientEventLog.t) (n : ClientEventNotifier.t) (cur : Z) : sys :=
  Sys l n cur None false [].

(** ** What the client sees *)

Definition between (c : string) (lo hi : Z) (e : ClientEvent) : bool :=
  bool_decide (client_id e = c) && (lo <? id e) && (id e <=? hi).

(** A split of the filter at the last id taken. *)
Lemma filter_take_between c lo mid n rs :
  StronglySorted (fun a b => id a < id b) rs → lo <= mid →
  let batch := take n (List.filter (fun e => bool_decide (client_id e = c) && (mid <? id e)) rs) in
  let hi := match last batch with Some e => id e | None => mid end in
  mid <= hi ∧
  List.filter (between c lo mid) rs ++ batch = List.filter (between c lo hi) rs ∧
  ((length batch < n)%nat → ∀ e, e ∈ rs → client_id e = c → id e <= hi).
Proof.
  intros Hs. revert mid n. induction Hs as [|r rs Hs IH Hf]; intros mid n Hlo; simpl.
  { rewrite take_nil. simpl. split_and!; [lia|done|set_solver]. }
  rewrite Forall_forall in Hf.
  assert (∀ q, between c lo q r = bool_decide (client_id r = c) && (lo <? id r) && (id r <=? q)) as Hb by done.
  rewrite !Hb.
  destruct (bool_decide (client_id r = c)) eqn:Ec; simpl.
  2: { apply bool_decide_eq_false in Ec. specialize (IH mid n Hlo). simpl in IH.
       destruct IH as (H1 & H2 & H3). split_and!; [done|done|]. intros Hn e [->|He]%elem_of_cons ?; [congruence|auto]. }
  apply bool_decide_eq_true in Ec. destruct (Z.ltb_spec mid (id r)) as [Hm|Hm].
  - assert (∀ x, x ∈ rs → id r < id x) as Hgt by (intros x Hx; by apply Hf).
    assert (∀ q, q <= id r → List.filter (between c lo q) rs = []) as Hnil.
    { intros q Hq. clear -Hgt Hq. induction rs as [|x rs IH]; simpl; [done|].
      assert (id r < id x) by (apply Hgt; left). unfold between.
      destruct (Z.leb_spec (id x) q); [lia|]. rewrite andb_false_r. apply IH. intros y Hy. apply Hgt. by right. }
    rewrite (Hnil mid) by lia. destruct (Z.leb_spec (id r) mid); [lia|]. rewrite andb_false_r. simpl.
    destruct n as [|n]; simpl.
    { destruct (Z.leb_spec (id r) mid); [lia|]. rewrite andb_false_r. rewrite Hnil by lia.
      split_and!; [lia|done|lia]. }
    assert (List.filter (fun e => bool_decide (client_id e = c) && (mid <? id e)) rs =
            List.filter (fun e => bool_decide (client_id e = c) && (id r <? id e)) rs) as ->.
    { apply filter_ext_in. intros x Hx%list_elem_of_In. specialize (Hgt x Hx).
      destruct (Z.ltb_spec mid (id x)), (Z.ltb_spec (id r) (id x)); try lia; done. }
    destruct (IH (id r) n) as (H1 & H2 & H3); [lia|]. rewrite Hnil in H2 by lia. simpl in H2.
    set (batch := take n _) in *.
    replace (match last (r :: batch) with Some e => id e | None => mid end)
      with (match last batch with Some e => id e | None => id r end)
      by (destruct batch as [|b bs]; [done|rewrite last_cons_cons; by destruct (last (b :: bs)) eqn:E; [|apply last_None in E]]).
    set (hi := match last batch with Some e => id e | None => id r end) in *.
    destruct (Z.ltb_spec lo (id r)); [|lia]. destruct (Z.leb_spec (id r) hi); [|lia]. simpl.
    split_and!; [lia|by rewrite H2|]. intros Hn e [->|He]%elem_of_cons Hc; [lia|]. apply H3; [lia|done|done].
  - specialize (IH mid n Hlo). simpl in IH. destruct IH as (H1 & H2 & H3).
    set (hi := match last _ with Some e => id e | None => mid end) in *.
    destruct (Z.leb_spec (id r) mid); [|lia]. destruct (Z.leb_spec (id r) hi); [|lia]. rewrite !andb_true_r.
    split_and!; [done| |].
    + destruct (lo <? id r); simpl; [by rewrite H2|done].
    + intros Hn e [->|He]%elem_of_cons Hc; [lia|]. by apply H3.
Qed.

Record stream_ok (c : string) (lo : Z) (s : sys) : Prop := {
  st_log : ordered (log s);
  st_keeps : keeps_all (log s);
  st_lo : lo <= cursor s;
  st_sent : sent s = List.filter (between c lo (cursor s)) (rows (log s));
  st_cursor : cursor s = lo ∨ cursor s <= seq (log s);
  st_next : ∀ c' e, ClientEventNotifier.events (notifier s) !! c' = Some e →
              (e < ClientEventNotifier.next (notifier s))%nat;
  st_wake : ∀ w, waiter s = Some w → full s = false →
     w ∈ ClientEventNotifier.set_events (notifier s) ∨
     (ClientEventNotifier.events (notifier s) !! c = Some w ∧
      ∀ e, e ∈ rows (log s) → client_id e = c → id e <= cursor s)
}.

Lemma pass_ok c lo s : stream_ok c lo s → stream_ok c lo (pass c s).
Proof.
  intros I. unfold pass.
  destruct (ClientEventNotifier.event c (notifier s)) as [n w] eqn:En.
  assert ((∀ c' e, ClientEventNotifier.events n !! c' = Some e → (e < ClientEventNotifier.next n)%nat) ∧
          ClientEventNotifier.events n !! c = Some w) as [Hn Hw].
  { unfold ClientEventNotifier.event in En. pose proof (st_next c lo s I) as Hnx.
    destruct (ClientEventNotifier.events (notifier s) !! c) as [e|] eqn:E; simplify_eq; [done|]. simpl.
    split; [|by rewrite lookup_insert_eq]. intros c' e. rewrite lookup_insert. case_decide.
    - intros [= <-]. lia.
    - intros Hl%Hnx. lia. }
  rewrite list_since_spec by apply I.
  destruct (filter_take_between c lo (cursor s) BATCH (rows (log s))) as (H1 & H2 & H3);
    [apply I|apply I|]. set (batch := take BATCH _) in *.
  set (hi := match last batch with Some e => id e | None => cursor s end) in *.
  split; simpl; [apply I|apply I| | | |done|].
  - pose proof (st_lo c lo s I). lia.
  - rewrite (st_sent c lo s I). exact H2.
  - unfold hi. destruct (last batch) as [e|] eqn:E; [|apply I]. right.
    apply last_Some_elem_of in E. unfold batch in E. apply subseteq_take in E.
    apply list_elem_of_In, filter_In, proj1, list_elem_of_In in E. by apply (st_log c lo s I).
  - intros w' [= <-] Hf. right. split; [done|]. apply H3.
    apply Nat.eqb_neq in Hf. pose proof (firstn_le_length BATCH
      (List.filter (λ e, bool_decide (client_id e = c) && (cursor s <? id e)) (rows (log s)))).
    unfold batch in *. lia.
Qed.

Lemma append_keeps c eid ty body now l l' r :
  keeps_all l → append c eid ty body now l = (l', r) →
  (l' = l ∧ (∀ i, r ≠ Ok (Some i))) ∨
  (r = Ok (Some (seq l + 1)) ∧ seq l' = seq l + 1 ∧ keeps_all l' ∧
   rows l' = rows l ++ [Event (seq l + 1) c eid ty body now]).
Proof.
  intros Hk. unfold append. destruct (existsb _ _); [intros [= <- <-]; by left|].
  destruct (negb _); [intros [= <- <-]; by left|]. rewrite prune_keeps by done.
  intros [= <- <-]. by right.
Qed.

Lemma emit_ok c lo c' eid ty body now s : stream_ok c lo s → stream_ok c lo (emit c' eid ty body now s).
Proof.
  intros I. unfold emit. destruct (append c' eid ty body now (log s)) as [l' r] eqn:A.
  pose proof (append_ordered c' eid ty body now (log s) (st_log c lo s I)) as Ho. rewrite A in Ho.
  destruct (append_keeps _ _ _ _ _ _ _ _ (st_keeps c lo s I) A) as [[-> Hr]|(-> & Hseq & Hk & Hrows)].
  { destruct r as [[i|]|e]; [by destruct (Hr i)|by destruct I..]. }
  pose proof (st_log c lo s I) as (_ & H0 & Hb).
  split; simpl; [done|done|apply I| | | |].
  - rewrite Hrows, List.filter_app, (st_sent c lo s I). simpl.
    replace (between c lo (cursor s) _) with false; [by rewrite app_nil_r|].
    unfold between. simpl. destruct (st_cursor c lo s I) as [Hc|Hc].
    + destruct (Z.ltb_spec lo (seq (log s) + 1)); [|by rewrite andb_false_r].
      destruct (Z.leb_spec (seq (log s) + 1) (cursor s)); [lia|by rewrite andb_false_r].
    + destruct (Z.leb_spec (seq (log s) + 1) (cursor s)); [lia|by rewrite andb_false_r].
  - destruct (st_cursor c lo s I); [by left|right]. lia.
  - intros c0 e. rewrite lookup_insert. case_decide; [intros [= <-]; lia|].
    intros Hl%(st_next c lo s I). lia.
  - intros w Hw Hf. destruct (st_wake c lo s I w Hw Hf) as [Hset|[Hev Hall]].
    + left. destruct (ClientEventNotifier.events (notifier s) !! c'); set_solver.
    + destruct (decide (c' = c)) as [->|Hne].
      * left. rewrite Hev. set_solver.
      * right. split; [by rewrite lookup_insert_ne|]. intros e. rewrite Hrows.
        intros [He|He%list_elem_of_singleton]%elem_of_app Hc; [by apply Hall|]. by subst e.
Qed.

Lemma steps_ok c lo os s : stream_ok c lo s → stream_ok c lo (steps c os s).
Proof.
  unfold steps. revert s. induction os as [|o os IH]; intros s I; simpl; [done|]. apply IH.
  destruct o; [by apply pass_ok|by apply emit_ok].
Qed.

Lemma connect_ok c l n lo :
  ordered l → keeps_all l →
  (∀ c' e, ClientEventNotifier.events n !! c' = Some e → (e < ClientEventNotifier.next n)%nat) →
  stream_ok c lo (connect l n lo).
Proof.
  intros Ho Hk Hn. split; simpl; try done; [|by left].
  induction (rows l) as [|r rs IH]; simpl; [done|]. unfold between at 1.
  destruct (Z.ltb_spec lo (id r)), (Z.leb_spec (id r) lo); try lia; rewrite ?andb_false_r; exact IH.
Qed.

(** C27. Exactly once and in order: with retention off, a client that connects with cursor
    [lo] has at every moment received exactly the events recorded for it with
    [lo < id <= cursor], each once and in the order of the log, however emissions (for any
    clients) interleave with the stream. *)
Theorem stream_exactly_once c l n lo os :
  ordered l → keeps_all l →
  (∀ c' e, ClientEventNotifier.events n !! c' = Some e → (e < ClientEventNotifier.next n)%nat) →
  let s := steps c os (connect l n lo) in
  sent s = List.filter (between c lo (cursor s)) (rows (log s)) ∧
  StronglySorted (fun a b => id a < id b) (sent s).
Proof.
  intros Ho Hk Hn s. pose proof (steps_ok c lo os _ (connect_ok c l n lo Ho Hk Hn)) as I. fold s in I.
  split; [apply I|]. rewrite (st_sent c lo s I). apply sorted_filter, I.
Qed.

(** No wakeup is lost: whenever the stream waits after a query that came back with
    fewer rows than its limit, and an event it has not sent is in the log, then the wakeup
    it waits on is set, also if the event was emitted between the capture of the wakeup and
    the wait. *)
Theorem no_lost_wakeup c l n lo os e w :
  ordered l → keeps_all l →
  (∀ c' e, ClientEventNotifier.events n !! c' = Some e → (e < ClientEventNotifier.next n)%nat) →
  let s := steps c os (connect l n lo) in
  waiter s = Some w → full s = false →
  e ∈ rows (log s) → client_id e = c → cursor s < id e →
  w ∈ ClientEventNotifier.set_events (notifier s).
Proof.
  intros Ho Hk Hn s Hw Hf He Hc Hid.
  pose proof (steps_ok c lo os _ (connect_ok c l n lo Ho Hk Hn)) as I. fold s in I.
  destruct (st_wake c lo s I w Hw Hf) as [?|[_ Hall]]; [done|]. specialize (Hall e He Hc). lia.
Qed.

(** ** A backlog larger than one batch *)

Definition backlog (n : nat) : list ClientEvent :=
  map (fun i => Event (Z.of_nat i) "c1" (pretty (N.of_nat i)) "t" "{}" 0) (List.seq 1 n).
Definition backlog_log (n : nat) : ClientEventLog.t :=
  Mk (backlog n) (Z.of_nat n) ["c1"] 0 0.

(** A backlog of more than 200 events is not drained: after the first pass the stream
    waits on a wakeup that is not set although newer events are in the log, so that they
    are sent only after a heartbeat timeout or the next emission. *)
Theorem backlog_stalls :
  let s := pass "c1" (connect (backlog_log 201) ClientEventNotifier.init 0) in
  length (sent s) = 200%nat ∧ cursor s = 200 ∧
  (∃ e, e ∈ rows (log s) ∧ client_id e = "c1" ∧ cursor s < id e) ∧
  ∃ w, waiter s = Some w ∧ w ∉ ClientEventNotifier.set_events (notifier s).
Proof.
  intros s. split_and!; [vm_compute; reflexivity|vm_compute; reflexivity| |].
  - exists (Event 201 "c1" "201" "t" "{}" 0). split_and!; [|done|vm_compute; reflexivity].
    apply list_elem_of_lookup. exists 200%nat. vm_compute. reflexivity.
  - exists 0%nat. split; [vm_compute; reflexivity|]. change (0%nat ∉ (∅ : gset nat)). set_solver.
Qed.

Definition demo_log : ClientEventLog.t := Mk (backlog 3) 3 ["c1"; "c2"] 0 0.
Lemma demo_ordered : ordered demo_log.
Proof.
  split_and!; [|done|].
  - repeat constructor; vm_compute; reflexivity.
  - intros e He. unfold demo_log, backlog in He. simpl in He.
    repeat (apply elem_of_cons in He as [->|He]; [simpl; lia|]). set_solver.
Qed.

Definition demo_ops : list op := [Pass; Emit "c1" "x" "t" "{}" 5; Emit "c2" "y" "t" "{}" 6].

Lemma stream_exactly_once_witness :
  let s := steps "c1" demo_ops (connect demo_log ClientEventNotifier.init 1) in
  sent s = List.filter (between "c1" 1 (cursor s)) (rows (log s)) ∧ length (sent s) = 2%nat.
Proof.
  split; [|vm_compute; reflexivity].
  apply (stream_exactly_once "c1" demo_log ClientEventNotifier.init 1 demo_ops demo_ordered).
  - by split.
  - intros c' e H. simpl in H. by rewrite lookup_empty in H.
Defined.

Lemma no_lost_wakeup_witness :
  0%nat ∈ ClientEventNotifier.set_events
            (notifier (steps "c1" demo_ops (connect demo_log ClientEventNotifier.init 1))).
Proof.
  apply (no_lost_wakeup "c1" demo_log ClientEventNotifier.init 1 demo_ops (Event 4 "c1" "x" "t" "{}" 5));
    [exact demo_ordered|by split|intros c' e H; simpl in H; by rewrite lookup_empty in H| | | | |].
  - vm_compute. reflexivity.
  - vm_compute. reflexivity.
  - apply list_elem_of_lookup. exists 3%nat. vm_compute. reflexivity.
  - reflexivity.
  - vm_compute. reflexivity.
Defined.

End EventStream.
