(* ===== verification/Telemetry.v ===== *)
(** * Request counters, route metrics and error categories ([engine/telemetry/])

    [Module Counters] are the engine-wide counters, [Module RouteMetrics] the per-route
    accumulator, [Module Taxonomy] the error classification.  The counters' lock makes
    their methods atomic; the route metrics are only touched from the event loop. *)

From S2P Require Import Prelude Placement.

Open Scope Z_scope.

Module Counters.

(** The fields of [Counters.__init__] *)
Record t := Mk {
  started_at : Q;
  requests_total : Z;
  requests_active : Z;
  requests_errors : Z;
  prompt_tokens : Z;
  completion_tokens : Z;
  recent_starts : list Q
}.
Definition init (now : Q) : t := Mk now 0 0 0 0 0 [].

(** [_trim] *)
Fixpoint trim_loop (cutoff : Q) (l : list Q) : list Q :=
  match l with
  | [] => []
  | x :: l' => if bool_decide (x < cutoff)%Q then trim_loop cutoff l' else l
  end.
Definition trim (now : Q) (l : list Q) : list Q := trim_loop (now - 60)%Q l.

(** [request_started] *)
Definition request_started (ts : Q) (c : t) : t :=
  Mk (started_at c) (requests_total c + 1) (requests_active c + 1) (requests_errors c)
     (prompt_tokens c) (completion_tokens c) (trim ts (recent_starts c ++ [ts])).

(** [request_finished] *)
Definition request_finished (prompt completion : Z) (error : bool) (c : t) : t :=
  Mk (started_at c) (requests_total c)
     (if 0 <? requests_active c then requests_active c - 1 else requests_active c)
     (requests_errors c + (if error then 1 else 0))
     (prompt_tokens c + Z.max 0 prompt) (completion_tokens c + Z.max 0 completion)
     (recent_starts c).

(** [CountersSnapshot] and [snapshot] *)
Record CountersSnapshot := Snapshot {
  s_total : Z; s_active : Z; s_errors : Z; s_prompt : Z; s_completion : Z; s_per_min : Z; s_uptime : Q
}.
Definition snapshot (ts : Q) (c : t) : t * CountersSnapshot :=
  let c := Mk (started_at c) (requests_total c) (requests_active c) (requests_errors c)
             (prompt_tokens c) (completion_tokens c) (trim ts (recent_starts c)) in
  (c, Snapshot (requests_total c) (requests_active c) (requests_errors c) (prompt_tokens c)
        (completion_tokens c) (Z.of_nat (length (recent_starts c))) (qmax 0 (ts - started_at c))).

(** The starts kept are those of the last minute, for a clock that does not go back. *)
Lemma trim_spec now l :
  StronglySorted Qle l → trim now l = List.filter (fun x => negb (bool_decide (x < now - 60)%Q)) l.
Proof.
  unfold trim. induction 1 as [|x l Hs IH Hf]; simpl; [done|].
  destruct (bool_decide (x < now - 60)%Q) eqn:E; simpl; [done|]. f_equal.
  apply bool_decide_eq_false in E. clear IH Hs. induction l as [|y l IHl]; simpl; [done|].
  apply Forall_cons in Hf as [Hy Hf]. rewrite bool_decide_false by lra. simpl. by rewrite <- IHl.
Qed.

End Counters.

Module RouteMetrics.
Import BackendRegistry.

#[global] Instance Reason_eq_dec : EqDecision Reason.
Proof. solve_decision. Defined.
#[global] Instance Tier_eq_dec : EqDecision Tier.
Proof. solve_decision. Defined.
#[global] Instance Fallback_eq_dec : EqDecision Fallback.
Proof. solve_decision. Defined.
#[global] Instance Policy_eq_dec : EqDecision Policy.
Proof. solve_decision. Defined.

(** [output_tps_sample] *)
Definition output_tps_sample (completion : Z) (total_ms : option Q) (error cancelled : bool) : option Q :=
  match total_ms with
  | None => None
  | Some ms => if error || cancelled || (completion <=? 0) || bool_decide (ms <= 0)%Q then None
               else Some (inject_Z completion / (ms / 1000))%Q
  end.

(** [RouteStat] *)
Record RouteStat := Stat {
  requests : Z;
  errors : Z;
  cancelled : Z;
  prompt_tokens : Z;
  completion_tokens : Z;
  cost : Q;
  upstream_attempts : Z;
  tier : option Tier;
  total_ms : Q * Z;         (* sum and number of samples *)
  ttft_ms : Q * Z;
  queue_ms : Q * Z;
  output_tps : Q * Z;
  reasons : list (Reason * Z);
  fallbacks : list (Fallback * Z);
  policies : list (Policy * Z);
  workload_rules : list (string * Z)
}.
Definition stat0 : RouteStat :=
  Stat 0 0 0 0 0 0%Q 0 None (0%Q, 0) (0%Q, 0) (0%Q, 0) (0%Q, 0) [] [] [] [].

(** [d[k] = d.get(k, 0) + 1] *)
Definition incr {K} `{EqDecision K} (k : K) (d : list (K * Z)) : list (K * Z) :=
  dict_set k (default 0 (dict_get k d) + 1) d.
Definition incr_opt {K} `{EqDecision K} (k : option K) (d : list (K * Z)) : list (K * Z) :=
  match k with Some k => incr k d | None => d end.

(** A sample added to a running sum. *)
Definition sample (x : option Q) (s : Q * Z) : Q * Z :=
  match x with Some v => ((fst s + v)%Q, snd s + 1) | None => s end.
(** The averages: [None] without samples. *)
Definition average (s : Q * Z) : option Q :=
  if snd s =? 0 then None else Some (fst s / inject_Z (snd s))%Q.

(** [RouteStat.success_rate] *)
Definition success_rate (s : RouteStat) : option Q :=
  if requests s =? 0 then None
  else Some (inject_Z (requests s - errors s) / inject_Z (requests s))%Q.

(** The arguments of [record]. *)
Record entry := Rec {
  r_prompt : Z; r_completion : Z; r_cost : Q; r_total : option Q; r_ttft : option Q;
  r_error : bool; r_cancelled : bool; r_reason : option Reason; r_fallbacks : list Fallback;
  r_policy : option Policy; r_tier : option Tier; r_queue : option Q; r_attempts : Z;
  r_rule : option string
}.

(** [record] on the route's statistics. *)
Definition record_stat (e : entry) (s : RouteStat) : RouteStat :=
  let ok := negb (r_error e) && negb (r_cancelled e) in
  Stat (requests s + 1)
       (errors s + (if r_error e then 1 else 0))
       (cancelled s + (if r_cancelled e then 1 else 0))
       (prompt_tokens s + r_prompt e) (completion_tokens s + r_completion e) (cost s + r_cost e)%Q
       (upstream_attempts s + r_attempts e)
       (match r_tier e with Some t => Some t | None => tier s end)
       (if ok then sample (r_total e) (total_ms s) else total_ms s)
       (if ok then sample (r_ttft e) (ttft_ms s) else ttft_ms s)
       (sample (r_queue e) (queue_ms s))
       (sample (output_tps_sample (r_completion e) (r_total e) (r_error e) (r_cancelled e)) (output_tps s))
       (incr_opt (r_reason e) (reasons s))
       (fold_left (fun d f => incr f d) (r_fallbacks e) (fallbacks s))
       (incr_opt (r_policy e) (policies s))
       (incr_opt (r_rule e) (workload_rules s)).

(** The routes by (model, backend) and the sheds by model. *)
Record t := Mk { routes : list ((string * string) * RouteStat); sheds : list (string * Z) }.
Definition init : t := Mk [] [].

(** [RouteMetrics.record] *)
Definition record (model backend : string) (e : entry) (m : t) : t :=
  let stat := default stat0 (dict_get (model, backend) (routes m)) in
  Mk (dict_set (model, backend) (record_stat e stat) (routes m)) (sheds m).

(** [RouteMetrics.record_shed] *)
Definition record_shed (model : string) (m : t) : t := Mk (routes m) (incr model (sheds m)).

(** The [totals] of [snapshot]: requests, errors, cancelled, sheds. *)
Definition total (f : RouteStat → Z) (m : t) : Z := fold_right (fun p a => f (snd p) + a) 0 (routes m).
Definition total_sheds (m : t) : Z := fold_right (fun p a => snd p + a) 0 (sheds m).

Lemma total_dict_set (f : RouteStat → Z) (k : string * string) s l :
  fold_right (fun p a => f (snd p) + a) 0 (dict_set k s l) =
  fold_right (fun p a => f (snd p) + a) 0 l + f s
    - match dict_get k l with Some s' => f s' | None => 0 end.
Proof.
  induction l as [|[k' s'] l IH]; simpl; [lia|]. unfold dict_get in *. simpl.
  destruct (bool_decide (k' = k)) eqn:E; simpl; [lia|]. rewrite IH. lia.
Qed.

(** The snapshot counts every routed request once. *)
Lemma total_record f model backend e m :
  f stat0 = 0 →
  total f (record model backend e m) =
  total f m + f (record_stat e (default stat0 (dict_get (model, backend) (routes m))))
            - f (default stat0 (dict_get (model, backend) (routes m))).
Proof.
  intros H0. unfold total, record. simpl. rewrite total_dict_set.
  destruct (dict_get (model, backend) (routes m)); simpl; [lia|]. rewrite H0. lia.
Qed.

Definition one (b : bool) : Z := if b then 1 else 0.
Section Totals.
Context (model backend : string) (e : entry) (m : t).
Lemma total_requests : total requests (record model backend e m) = total requests m + 1.
Proof. rewrite total_record by done. simpl. lia. Qed.
Lemma total_errors : total errors (record model backend e m) = total errors m + one (r_error e).
Proof. rewrite total_record by done. simpl. unfold one. lia. Qed.
Lemma total_cancelled : total cancelled (record model backend e m) = total cancelled m + one (r_cancelled e).
Proof. rewrite total_record by done. simpl. unfold one. lia. Qed.
End Totals.

End RouteMetrics.

Module Taxonomy.

Inductive ErrorCategory := VALIDATION | AUTH | LIMIT | MODEL | BACKEND | CANCELLATION | INTERNAL.

(** The exception types [classify] looks at. *)
Inductive exception :=
| KeyboardInterrupt | SystemExit | BackendNotReadyError | ModelLoadError | BackendBusyError
| GenerationFailedError | CancelledError | OtherException.

Definition status_category (s : Z) : option ErrorCategory :=
  dict_get s [(400, VALIDATION); (401, AUTH); (403, AUTH); (404, MODEL); (413, LIMIT); (429, LIMIT);
              (503, MODEL)].
Definition code_category (c : string) : option ErrorCategory :=
  dict_get c [("missing_api_key", AUTH); ("invalid_api_key", AUTH); ("payload_too_large", LIMIT);
              ("rate_limit_exceeded", LIMIT); ("concurrency_limit_exceeded", LIMIT);
              ("quota_exceeded", LIMIT); ("model_not_found", MODEL); ("model_not_loaded", MODEL);
              ("model_busy", BACKEND)].

Definition type_category (e : exception) : option ErrorCategory :=
  match e with
  | KeyboardInterrupt | SystemExit => Some INTERNAL
  | BackendNotReadyError | ModelLoadError => Some MODEL
  | BackendBusyError | GenerationFailedError => Some BACKEND
  | CancelledError => Some CANCELLATION
  | OtherException => None
  end.

(** [classify] *)
Definition classify (exc : option exception) (status_code : option Z) (code : option string)
  : ErrorCategory :=
  let by_code := c ← code; if str_true c then code_category c else None in
  match by_code with
  | Some k => k
  | None =>
      match exc ≫= type_category with
      | Some k => k
      | None => match status_code ≫= status_category with
                | Some k => k
                | None => INTERNAL (* a 5xx status, or nothing known *)
                end
      end
  end.

End Taxonomy.
