(* ===== verification/Serving.v ===== *)
(** * The serving lifecycle ([engine/api/serving.py])

    [Module Serving] composes the gateway, the admission scheduler, the router and the
    counters the way [start_generation_core] and [finish_generation] do.
    [start_generation_core] suspends only in [await scheduler.admit()], so it is
    [start_begin] (to the suspension or the end) and [start_resume] (from there on); both
    continue with [place], the rest of the function.  [finish_generation] has no await.
    [Module ServingSystem] runs requests in any interleaving and accounts for every
    resource they hold. *)

From S2P Require Import Prelude Asyncio Admission Placement Routing Store Quota Gateway Telemetry.

Open Scope Z_scope.

Module Serving.
Import BackendRegistry.

(** The shared state of the application that serving touches. *)
Record App := MkApp {
  gateway : Gateway.state;
  scheduler : Scheduler.t;
  registry : list BackendEntry;
  counters : Counters.t;
  route_metrics : RouteMetrics.t
}.
Definition with_gateway (x : Gateway.state) (a : App) : App :=
  MkApp x (scheduler a) (registry a) (counters a) (route_metrics a).
Definition with_scheduler (x : Scheduler.t) (a : App) : App :=
  MkApp (gateway a) x (registry a) (counters a) (route_metrics a).
Definition with_registry (x : list BackendEntry) (a : App) : App :=
  MkApp (gateway a) (scheduler a) x (counters a) (route_metrics a).
Definition with_counters (x : Counters.t) (a : App) : App :=
  MkApp (gateway a) (scheduler a) (registry a) x (route_metrics a).
Definition with_metrics (x : RouteMetrics.t) (a : App) : App :=
  MkApp (gateway a) (scheduler a) (registry a) (counters a) x.

(** Settings and collaborators that do not change while serving. *)
Record env := Env {
  settings : Gateway.Settings;
  billing : Gateway.billing_cfg;
  router : Router.t;
  prefix_affinity_chars : Z
}.

(** The arguments of [start_generation_core], with the clock readings it makes and
    whether the backend's [generate] returns a stream. *)
Record params := Params {
  p_request : Gateway.request;
  p_model_id : string;
  p_route_model : string;
  p_features : list feature;
  p_now_admit : Q;
  p_now_start : Q;
  p_generates : bool
}.

(** [Served]; the stream is the result it ends with, an argument of [finish_generation]. *)
Record Served := MkServed {
  access : Gateway.ApiAccess;
  lease : Scheduler.lease;
  registry_lease : RegistryLease;
  model_id : string
}.

Inductive outcome :=
| Refused (e : Gateway.OpenAIError)
| Saturated (retry_after_s : Z)
| FeatureError
| NotReady
| GenerateRaised
| Cancelled
| Waiting (acc : Gateway.ApiAccess)
| Running (s : Served).

(** What a finished stream reports: whether it was cancelled, its token counts and
    timings; [None] when it was cut off before a terminal result. *)
Record GenerationResult := Result {
  g_cancelled : bool; g_prompt : Z; g_completion : Z; g_total_ms : option Q; g_ttft_ms : option Q
}.

Inductive route_outcome := RouteOk | RouteError | RouteCancelled.

(** [_record_route_outcome], without the log line. *)
Definition record_route_outcome (d : option RouteDecision) (model backend : string)
  (queue_wait_ms : option Q) (prompt completion : Z) (cost : Q) (total ttft : option Q)
  (attempts : Z) (o : route_outcome) (m : RouteMetrics.t) : RouteMetrics.t :=
  RouteMetrics.record model backend
    (RouteMetrics.Rec prompt completion cost total ttft
       (match o with RouteError => true | _ => false end)
       (match o with RouteCancelled => true | _ => false end)
       (d_reason <$> d) (match d with Some x => d_fallbacks x | None => [] end)
       (d_policy <$> d) (d_tier <$> d) queue_wait_ms attempts (d ≫= d_workload_rule)) m.

Definition entry_name (i : nat) (reg : list BackendEntry) : string :=
  match reg !! i with Some e => name e | None => "" end.

(** [prompt_text[:affinity_chars] if affinity_chars > 0 else None] *)
Definition prefix_key (v : env) (p : params) : option string :=
  if 0 <? prefix_affinity_chars v
  then Some (String.substring 0 (Z.to_nat (prefix_affinity_chars v)) (Gateway.prompt_text (p_request p)))
  else None.

Definition abort_access (acc : Gateway.ApiAccess) (a : App) : App :=
  with_gateway (snd (Gateway.abort acc (gateway a))) a.
Definition release_lease (canc : bool) (l : Scheduler.lease) (a : App) : App :=
  with_scheduler (snd (Scheduler.lease_release canc l (scheduler a))) a.
Definition release_registry (l : RegistryLease) (a : App) : App :=
  with_registry (snd (lease_release l (registry a))) a.
Definition shed (p : params) (a : App) : App :=
  with_metrics (RouteMetrics.record_shed (p_route_model p) (route_metrics a)) a.

(** The failure path of [backend.generate]. *)
Definition generate_failed (p : params) (acc : Gateway.ApiAccess) (l : Scheduler.lease)
  (rl : RegistryLease) (a : App) : App :=
  let a := with_metrics (record_route_outcome (decision rl) (p_model_id p) (entry_name (entry rl) (registry a))
             (Some (Scheduler.waited_s l * 1000)%Q) 0 0 0 None None 0 RouteError (route_metrics a)) a in
  let a := release_registry rl a in
  let a := release_lease false l a in
  let a := abort_access acc a in
  with_counters (Counters.request_finished 0 0 true (counters a)) a.

(** [start_generation_core] after the admission lease was obtained. *)
Definition place (v : env) (p : params) (acc : Gateway.ApiAccess) (l : Scheduler.lease) (a : App)
  : App * outcome :=
  match Router.acquire (router v) (p_route_model p) (prefix_key v p) (p_features p) (registry a) with
  | Err (FeatureUnsupported _ _) => (abort_access acc (release_lease false l a), FeatureError)
  | Err NoBackendBusy => (shed p (abort_access acc (release_lease false l a)), Saturated 1)
  | Err NoBackendUnloaded => (shed p (abort_access acc (release_lease false l a)), NotReady)
  | Ok (rl, reg') =>
      let a := with_registry reg' a in
      let a := with_counters (Counters.request_started (p_now_start p) (counters a)) a in
      if p_generates p then (a, Running (MkServed acc l rl (p_model_id p)))
      else (generate_failed p acc l rl a, GenerateRaised)
  end.

(** What happens after [scheduler.admit()] returned or raised: only [SchedulerSaturated]
    is caught. *)
Definition after_admit (v : env) (p : params) (acc : Gateway.ApiAccess) (o : Scheduler.outcome) (a : App)
  : App * outcome :=
  match o with
  | Scheduler.Leased waited => place v p acc (Scheduler.Lease waited false) a
  | Scheduler.Raised e => (shed p (abort_access acc a), Saturated (Scheduler.retry_after_s e))
  | Scheduler.RaisedCancelled => (a, Cancelled)
  | Scheduler.Suspended => (a, Waiting acc)
  end.

(** [start_generation_core] up to its suspension or end; [i] names the call. *)
Definition start_begin (v : env) (i : nat) (p : params) (a : App) : App * outcome :=
  match Gateway.authorize_token (settings v) (billing v) (p_request p) (gateway a) with
  | (g, Err e) => (with_gateway g a, Refused e)
  | (g, Ok acc) =>
      let a := with_gateway g a in
      let '(s, o) := Scheduler.admit_begin i (p_now_admit p) (scheduler a) in
      after_admit v p acc o (with_scheduler s a)
  end.

(** [start_generation_core] from the resumption in [admit]. *)
Definition start_resume (v : env) (i : nat) (p : params) (acc : Gateway.ApiAccess) (now : Q) (a : App)
  : option (App * outcome) :=
  w ← System.find_waiter i (scheduler a);
  '(s, o) ← Scheduler.admit_resume w now (scheduler a);
  Some (after_admit v p acc o (with_scheduler s a)).

(** The arguments of [finish_generation]: the error, the stream's result, its
    backpressure and upstream counts, and the usage write. *)
Record finishing := Finishing {
  f_error : bool;
  f_result : option GenerationResult;
  f_backpressure : Z;
  f_attempts : Z;
  f_request_id : string;
  f_now : Q;
  f_stored : bool
}.

(** [finish_generation]; [false] when the usage write's exception leaves it. *)
Definition finish_generation (v : env) (f : finishing) (s : Served) (a : App) : App * bool :=
  let res := f_result f in
  let canc := negb (f_error f) && match res with None => true | Some r => g_cancelled r end in
  let a := if negb (f_backpressure f =? 0)
           then with_scheduler (Scheduler.note_slow_consumer (f_backpressure f) (scheduler a)) a else a in
  let a := release_lease canc (lease s) a in
  let a := release_registry (registry_lease s) a in
  let prompt := match res with Some r => g_prompt r | None => 0 end in
  let completion := match res with Some r => g_completion r | None => 0 end in
  let cost := match registry a !! entry (registry_lease s) with
              | Some e => (inject_Z prompt / 1000 * cost_per_1k_input e
                           + inject_Z completion / 1000 * cost_per_1k_output e)%Q
              | None => 0%Q
              end in
  let a := with_metrics (record_route_outcome (decision (registry_lease s)) (model_id s)
             (entry_name (entry (registry_lease s)) (registry a))
             (Some (Scheduler.waited_s (lease s) * 1000)%Q) prompt completion cost
             (res ≫= g_total_ms) (res ≫= g_ttft_ms) (f_attempts f)
             (if canc then RouteCancelled else if f_error f then RouteError else RouteOk) (route_metrics a)) a in
  let a := with_gateway (snd (Gateway.finalize (settings v)
             (Gateway.Outcome (f_now f) (f_request_id f) (Some (model_id s)) prompt completion
                (if f_error f then 500 else 200) (f_stored f)) (access s) (gateway a))) a in
  if f_stored f then
    (with_counters (Counters.request_finished prompt completion (f_error f) (counters a)) a, true)
  else (a, false).

End Serving.

Module ServingSystem.
Import BackendRegistry Serving.

(** A request: queued for admission, being served, or over; a request that is over may
    have left its gateway slot (a key) or the active gauge behind. *)
Inductive phase :=
| Queued (p : params) (acc : Gateway.ApiAccess)
| InService (s : Served)
| Over (slot : option string) (gauge : bool).

Record sys := Sys { app : App; requests : list phase }.

Inductive op :=
| Start (p : params)
| TimerFires (i : nat)
| OuterCancel (i : nat)
| Resume (i : nat) (now : Q)
| Finish (i : nat) (f : finishing)
| Drain
| BackendChange (j : nat) (b : option backend)
| Health (j : nat) (check : option bool)
| Tables (d : Db.t).

(** The key whose slot a handle holds. *)
Definition slot_of (acc : Gateway.ApiAccess) : option string :=
  if Gateway.slot_held acc then Some (Gateway.key_id acc) else None.

Definition settle (p : params) (acc : option Gateway.ApiAccess) (o : outcome) : phase :=
  match o with
  | Waiting acc => Queued p acc
  | Running s => InService s
  | Cancelled => Over (acc ≫= slot_of) false
  | _ => Over None false
  end.

Definition step (v : env) (o : op) (x : sys) : sys :=
  let a := app x in
  match o with
  | Start p =>
      let '(a', out) := start_begin v (length (requests x)) p a in
      Sys a' (requests x ++ [settle p None out])
  | TimerFires i => Sys (with_scheduler (Scheduler.cancel_waiter i Scheduler.Timer (scheduler a)) a) (requests x)
  | OuterCancel i => Sys (with_scheduler (Scheduler.cancel_waiter i Scheduler.Outer (scheduler a)) a) (requests x)
  | Resume i now =>
      match requests x !! i with
      | Some (Queued p acc) =>
          match start_resume v i p acc now a with
          | Some (a', out) => Sys a' (<[i := settle p (Some acc) out]> (requests x))
          | None => x
          end
      | _ => x
      end
  | Finish i f =>
      match requests x !! i with
      | Some (InService s) =>
          let '(a', ok) := finish_generation v f s a in
          Sys a' (<[i := Over None (negb ok)]> (requests x))
      | _ => x
      end
  | Drain => Sys (with_scheduler (Scheduler.begin_drain (scheduler a)) a) (requests x)
  | BackendChange j b => Sys (with_registry (alter (with_provider b) j (registry a)) a) (requests x)
  | Health j c => Sys (with_registry (alter (refresh_health c) j (registry a)) a) (requests x)
  | Tables d => Sys (with_gateway (Gateway.with_db d (gateway a)) a) (requests x)
  end.
Definition steps (v : env) (os : list op) (x : sys) : sys := fold_left (fun x o => step v o x) os x.

(** ** Counting *)

Definition count (f : phase → bool) (l : list phase) : Z := Z.of_nat (length (List.filter f l)).

Lemma count_snoc f l x : count f (l ++ [x]) = count f l + (if f x then 1 else 0).
Proof. unfold count. rewrite List.filter_app, length_app. simpl. destruct (f x); simpl; lia. Qed.
Lemma count_insert f l i x y :
  l !! i = Some x → count f (<[i := y]> l) = count f l - (if f x then 1 else 0) + (if f y then 1 else 0).
Proof.
  unfold count. revert i. induction l as [|z l IH]; intros [|i] H; simpl in *; simplify_eq.
  - destruct (f x), (f y); simpl; lia.
  - specialize (IH i H). destruct (f z); simpl; lia.
Qed.
Lemma count_pos f l i x : l !! i = Some x → f x = true → 0 < count f l.
Proof.
  intros Hi Hf. unfold count. assert (x ∈ List.filter f l) as Hx.
  { apply list_elem_of_In, filter_In. split; [apply list_elem_of_In; by eapply list_elem_of_lookup_2|done]. }
  destruct (List.filter f l); [set_solver|simpl; lia].
Qed.
Lemma count_nonneg f l : 0 <= count f l.
Proof. unfold count. lia. Qed.

Definition serving (x : phase) : bool := match x with InService _ => true | _ => false end.
Definition serving_on (j : nat) (x : phase) : bool :=
  match x with InService s => bool_decide (entry (registry_lease s) = j) | _ => false end.
Definition leaked_gauge (x : phase) : bool := match x with Over _ g => g | _ => false end.
Definition slot_in (k : string) (o : option string) : bool := bool_decide (o = Some k).
Definition holds_slot (k : string) (x : phase) : bool :=
  match x with
  | Queued _ acc => slot_in k (slot_of acc)
  | InService s => slot_in k (slot_of (access s))
  | Over o _ => slot_in k o
  end.
Definition leaked_slot (k : string) (x : phase) : bool :=
  match x with Over o _ => slot_in k o | _ => false end.

Definition fresh_phase (x : phase) : Prop :=
  match x with
  | Queued _ acc => Gateway.finalized acc = false
  | InService s => Gateway.finalized (access s) = false ∧ Scheduler.released (lease s) = false ∧
                   released (registry_lease s) = false
  | Over _ _ => True
  end.

(** Every resource is held by exactly the requests that should hold it. *)
Record accounted (x : sys) : Prop := Accounted {
  ac_use : Scheduler.in_use (scheduler (app x)) = count serving (requests x);
  ac_slots : ∀ k, Limiter.held k (Gateway.limiter (gateway (app x))) = count (holds_slot k) (requests x);
  ac_flight : ∀ j e, registry (app x) !! j = Some e → in_flight e = count (serving_on j) (requests x);
  ac_active : Counters.requests_active (counters (app x)) =
              count serving (requests x) + count leaked_gauge (requests x);
  ac_fresh : ∀ p, p ∈ requests x → fresh_phase p
}.

(** ** What each component's operation does to its gauge *)

Lemma admit_begin_use i now s s' o :
  Scheduler.admit_begin i now s = (s', o) →
  Scheduler.in_use s' = Scheduler.in_use s + (match o with Scheduler.Leased _ => 1 | _ => 0 end).
Proof.
  unfold Scheduler.admit_begin. destruct (Scheduler.draining s); [intros [= <- <-]; simpl; lia|].
  destruct (_ && _); [intros [= <- <-]; simpl; lia|].
  destruct (Semaphore.locked _).
  - destruct (Semaphore.acquire_begin _ _ _) as [s1 []]; intros [= <- <-]; simpl; lia.
  - destruct (Semaphore.acquire_begin _ _ _) as [s1 b]; intros [= <- <-]; simpl; lia.
Qed.

Lemma admit_resume_use w now s s' o :
  Scheduler.admit_resume w now s = Some (s', o) →
  Scheduler.in_use s' = Scheduler.in_use s + (match o with Scheduler.Leased _ => 1 | _ => 0 end) ∧
  o ≠ Scheduler.Suspended.
Proof.
  unfold Scheduler.admit_resume. destruct (Semaphore.acquire_resume _ _) as [[s1 got]|]; [|done]. simpl.
  destruct got; [intros [= <- <-]; simpl; split; [lia|done]|].
  destruct (Scheduler.why _); intros [= <- <-]; simpl; split; (lia || done).
Qed.

Lemma lease_release_use canc l s :
  Scheduler.released l = false → 0 < Scheduler.in_use s →
  Scheduler.in_use (snd (Scheduler.lease_release canc l s)) = Scheduler.in_use s - 1.
Proof.
  intros Hl Hs. unfold Scheduler.lease_release. rewrite Hl. unfold Scheduler.release. simpl.
  destruct (Z.ltb_spec 0 (Scheduler.in_use s)); [|lia]. destruct canc; simpl; by case_match.
Qed.

Lemma slow_consumer_use n s : Scheduler.in_use (Scheduler.note_slow_consumer n s) = Scheduler.in_use s.
Proof. unfold Scheduler.note_slow_consumer. by case_match. Qed.

Lemma registry_acquire_bump pk sc m fs reg l reg' :
  BackendRegistry.acquire pk sc m fs reg = Ok (l, reg') → released l = false ∧ reg' = bump 1 (entry l) reg.
Proof.
  unfold BackendRegistry.acquire. destruct (select_detailed _ _ _ _ _) as [[[[e r] t] n]|].
  - by intros [= <- <-].
  - repeat case_match; done.
Qed.

Lemma with_policy_frame pol st esc l :
  released (Router.with_policy pol st esc l) = released l ∧ entry (Router.with_policy pol st esc l) = entry l.
Proof. unfold Router.with_policy. by case_match. Qed.
Lemma with_rule_frame n l :
  released (Router.with_workload_rule n l) = released l ∧ entry (Router.with_workload_rule n l) = entry l.
Proof. unfold Router.with_workload_rule. by case_match. Qed.

Lemma cascade_bump nm pk fs pol i st sb sf reg l reg' :
  Router.cascade_loop nm pk fs pol i st sb sf reg = Ok (l, reg') →
  released l = false ∧ reg' = bump 1 (entry l) reg.
Proof.
  revert i sb sf. induction st as [|sc st IH]; intros i sb sf; simpl; [repeat case_match; done|].
  destruct (BackendRegistry.acquire _ _ _ _ _) as [[l0 r0]|[]] eqn:E; [|by eauto..].
  intros [= <- <-]. destruct (with_policy_frame pol (Some i) (Nat.ltb 0 i) l0) as [-> ->].
  by eapply registry_acquire_bump.
Qed.

(** A placement counts the request on the entry its lease names, and nowhere else. *)
Lemma router_acquire_bump r nm pk fs reg l reg' :
  Router.acquire r nm pk fs reg = Ok (l, reg') → released l = false ∧ reg' = bump 1 (entry l) reg.
Proof.
  assert (Router.acquire_baseline r nm pk fs reg = Ok (l, reg') →
          released l = false ∧ reg' = bump 1 (entry l) reg) as Hb.
  { unfold Router.acquire_baseline. destruct (negb _); [|apply cascade_bump].
    destruct (BackendRegistry.acquire _ _ _ _ _) as [[l0 r0]|] eqn:E; [|done]. simpl. intros [= <- <-].
    destruct (with_policy_frame base None false l0) as [-> ->]. by eapply registry_acquire_bump. }
  unfold Router.acquire. destruct (Router.matching_workload_rule _ _ _) as [ru|]; [|done].
  destruct (BackendRegistry.acquire _ _ _ _ _) as [[l0 r0]|] eqn:E; [|done].
  intros [= <- <-].
  destruct (with_rule_frame (Router.rule_name ru) (Router.with_policy base None false l0)) as [-> ->].
  destruct (with_policy_frame base None false l0) as [-> ->]. by eapply registry_acquire_bump.
Qed.

Lemma lookup_bump d i reg j e :
  bump d i reg !! j = Some e → ∃ e0, reg !! j = Some e0 ∧
    in_flight e = in_flight e0 + (if bool_decide (i = j) then d else 0).
Proof.
  unfold bump. rewrite list_lookup_alter. case_decide as H; subst.
  - intros (e0 & E & ->)%fmap_Some. exists e0. split; [done|]. by rewrite bool_decide_true.
  - intros E. exists e. split; [done|]. rewrite bool_decide_false by done. lia.
Qed.

Lemma lookup_release l reg j e :
  released l = false → (∀ e0, reg !! entry l = Some e0 → 0 < in_flight e0) →
  snd (lease_release l reg) !! j = Some e → ∃ e0, reg !! j = Some e0 ∧
    in_flight e = in_flight e0 - (if bool_decide (entry l = j) then 1 else 0).
Proof.
  intros Hl Hpos. unfold lease_release, release_entry. rewrite Hl. simpl. rewrite list_lookup_alter.
  case_decide as H; subst.
  - intros (e0 & E & ->)%fmap_Some. exists e0. split; [done|]. rewrite bool_decide_true by done.
    specialize (Hpos e0 E). destruct (Z.ltb_spec 0 (in_flight e0)); [done|lia].
  - intros E. exists e. split; [done|]. rewrite bool_decide_false by done. lia.
Qed.

(** Ending a handle frees its slot. *)
Lemma abort_slots acc g k :
  Gateway.finalized acc = false →
  (∀ k', slot_of acc = Some k' → 0 < Limiter.held k' (Gateway.limiter g)) →
  Limiter.held k (Gateway.limiter (snd (Gateway.abort acc g))) =
  Limiter.held k (Gateway.limiter g) - (if slot_in k (slot_of acc) then 1 else 0).
Proof.
  intros Hf Hp. unfold Gateway.abort, slot_of, slot_in in *. rewrite Hf. simpl.
  destruct (Gateway.slot_held acc); simpl; [|lia].
  destruct (Limiter.held_release (Gateway.key_id acc) k (Gateway.limiter g)) as [-> _]; [by apply Hp|].
  f_equal. destruct (decide (k = Gateway.key_id acc)) as [->|];
    [rewrite !bool_decide_true|rewrite !bool_decide_false by congruence]; done.
Qed.

Lemma finalize_slots st o acc g k :
  Gateway.finalized acc = false →
  (∀ k', slot_of acc = Some k' → 0 < Limiter.held k' (Gateway.limiter g)) →
  Limiter.held k (Gateway.limiter (snd (Gateway.finalize st o acc g))) =
  Limiter.held k (Gateway.limiter g) - (if slot_in k (slot_of acc) then 1 else 0).
Proof.
  intros Hf Hp. rewrite <- (abort_slots acc g k Hf Hp). unfold Gateway.finalize, Gateway.abort.
  rewrite Hf. simpl. by destruct (Gateway.o_stored o), (Gateway.slot_held acc).
Qed.

(** ** The balance of a start *)

Definition one (b : bool) : Z := if b then 1 else 0.

(** From a state where the handle's slot and [lease] units of [in_use] are counted, the
    gauges of [a'] are those of [a] with the request in phase [ph]. *)
Record balanced (a a' : App) (acc : Gateway.ApiAccess) (lease : Z) (ph : phase) : Prop := {
  ba_use : Scheduler.in_use (scheduler a') = Scheduler.in_use (scheduler a) - lease + one (serving ph);
  ba_slots : ∀ k, Limiter.held k (Gateway.limiter (gateway a')) =
    Limiter.held k (Gateway.limiter (gateway a)) - one (slot_in k (slot_of acc)) + one (holds_slot k ph);
  ba_flight : ∀ j e, registry a' !! j = Some e → ∃ e0, registry a !! j = Some e0 ∧
    in_flight e = in_flight e0 + one (serving_on j ph);
  ba_active : Counters.requests_active (counters a') = Counters.requests_active (counters a) + one (serving ph);
  ba_gauge : leaked_gauge ph = false;
  ba_fresh : fresh_phase ph
}.

Lemma flight_id (reg : list BackendEntry) (j : nat) e :
  reg !! j = Some e → ∃ e0, reg !! j = Some e0 ∧ in_flight e = in_flight e0 + 0.
Proof. intros H. exists e. split; [done|lia]. Qed.

Section Start.
Context (v : env) (p : params) (acc : Gateway.ApiAccess).
Hypothesis acc_fresh : Gateway.finalized acc = false.

Lemma after_abort a :
  (∀ k, slot_of acc = Some k → 0 < Limiter.held k (Gateway.limiter (gateway a))) →
  balanced a (abort_access acc a) acc 0 (Over None false).
Proof using acc_fresh.
  intros Hp. split; simpl; try done; try lia.
  - intros k. rewrite abort_slots by done. unfold one, slot_in. simpl. lia.
  - apply flight_id.
Qed.

Lemma place_balanced waited a a' out :
  (∀ k, slot_of acc = Some k → 0 < Limiter.held k (Gateway.limiter (gateway a))) →
  0 < Scheduler.in_use (scheduler a) → 0 <= Counters.requests_active (counters a) →
  (∀ j e, registry a !! j = Some e → 0 <= in_flight e) →
  place v p acc (Scheduler.Lease waited false) a = (a', out) →
  balanced a a' acc 1 (settle p (Some acc) out).
Proof using acc_fresh.
  intros Hp Hu Ha Hfl. unfold place.
  assert (balanced a (abort_access acc (release_lease false (Scheduler.Lease waited false) a)) acc 1 (Over None false)) as Hab.
  { pose proof (after_abort (release_lease false (Scheduler.Lease waited false) a) Hp) as [B1 B2 B3 B4 _ _].
    split; [|exact B2|exact B3|exact B4|done|done].
    rewrite B1. change (scheduler (release_lease ?c ?l a)) with (snd (Scheduler.lease_release c l (scheduler a))).
    rewrite lease_release_use by done. simpl. lia. }
  destruct (Router.acquire _ _ _ _ _) as [[rl reg']|[]] eqn:E.
  2-4: intros [= <- <-]; simpl; destruct Hab; by split.
  apply router_acquire_bump in E as [Hrl ->]. destruct (p_generates p).
  - intros [= <- <-]. split; simpl; try done; try lia.
    + intros j e (e0 & E0 & He)%lookup_bump. exists e0. split; [done|]. rewrite He. unfold one. by case_bool_decide.
  - intros [= <- <-]. split; try done.
    + change (scheduler (generate_failed ?p ?c ?l ?rl ?b)) with (snd (Scheduler.lease_release false l (scheduler b))).
      rewrite lease_release_use by done. simpl. lia.
    + intros k. simpl. rewrite abort_slots by done. unfold one, slot_in. simpl. lia.
    + intros j e He. simpl in He. apply lookup_release in He as (e1 & E1 & He1); [|done|].
      * apply lookup_bump in E1 as (e0 & E0 & He0). exists e0. split; [done|]. simpl. rewrite He1, He0.
        case_bool_decide; lia.
      * intros e2 (e0 & E0 & He0)%lookup_bump. rewrite He0, bool_decide_true by done.
        specialize (Hfl _ _ E0). lia.
    + simpl. destruct (Z.ltb_spec 0 (Counters.requests_active (counters a) + 1)); lia.
Qed.

Lemma after_admit_balanced o a a' out :
  (∀ k, slot_of acc = Some k → 0 < Limiter.held k (Gateway.limiter (gateway a))) →
  (match o with Scheduler.Leased _ => 0 < Scheduler.in_use (scheduler a) | _ => True end) →
  0 <= Counters.requests_active (counters a) →
  (∀ j e, registry a !! j = Some e → 0 <= in_flight e) →
  after_admit v p acc o a = (a', out) →
  balanced a a' acc (match o with Scheduler.Leased _ => 1 | _ => 0 end) (settle p (Some acc) out).
Proof using acc_fresh.
  intros Hp Hu Ha Hfl. destruct o as [waited| |e|]; simpl.
  - by apply place_balanced.
  - intros [= <- <-]. split; simpl; try done; [lia|intros k; lia|apply flight_id|lia].
  - intros [= <- <-]. destruct (after_abort a Hp). by split.
  - intros [= <- <-]. split; simpl; try done; [lia|intros k; lia|apply flight_id|lia].
Qed.
End Start.

Lemma slot_one acc k :
  (if Gateway.slot_held acc && bool_decide (Gateway.key_id acc = k) then 1 else 0) = one (slot_in k (slot_of acc)).
Proof.
  unfold slot_of, slot_in, one. destruct (Gateway.slot_held acc); simpl; [|done].
  destruct (decide (Gateway.key_id acc = k)) as [->|];
    [rewrite !bool_decide_true|rewrite !bool_decide_false by congruence]; done.
Qed.

Lemma place_not_cancelled v p acc l a : snd (place v p acc l a) ≠ Cancelled.
Proof. unfold place. repeat case_match; done. Qed.

Lemma admit_begin_outcome i now s : snd (Scheduler.admit_begin i now s) ≠ Scheduler.RaisedCancelled.
Proof.
  unfold Scheduler.admit_begin. destruct (Scheduler.draining s); [done|]. destruct (_ && _); [done|].
  destruct (Semaphore.locked _); destruct (Semaphore.acquire_begin _ _ _) as [? []]; done.
Qed.

(** Adding a request, or moving one to another phase, keeps the accounts. *)
Lemma accounted_snoc x a' ph :
  accounted x →
  Scheduler.in_use (scheduler a') = Scheduler.in_use (scheduler (app x)) + one (serving ph) →
  (∀ k, Limiter.held k (Gateway.limiter (gateway a')) =
        Limiter.held k (Gateway.limiter (gateway (app x))) + one (holds_slot k ph)) →
  (∀ j e, registry a' !! j = Some e → ∃ e0, registry (app x) !! j = Some e0 ∧
     in_flight e = in_flight e0 + one (serving_on j ph)) →
  Counters.requests_active (counters a') = Counters.requests_active (counters (app x)) + one (serving ph) →
  leaked_gauge ph = false → fresh_phase ph →
  accounted (Sys a' (requests x ++ [ph])).
Proof.
  intros [I1 I2 I3 I4 I5] H1 H2 H3 H4 H5 H6. split; simpl.
  - rewrite count_snoc, H1, I1. done.
  - intros k. rewrite count_snoc, H2, I2. done.
  - intros j e (e0 & E0 & He)%H3. rewrite count_snoc, He, (I3 j e0 E0). done.
  - rewrite !count_snoc, H4, I4, H5. unfold one. lia.
  - intros q [Hq|Hq%list_elem_of_singleton]%elem_of_app; [by apply I5|by subst].
Qed.

Lemma accounted_move x a' i ph0 ph :
  accounted x → requests x !! i = Some ph0 → leaked_gauge ph0 = false →
  Scheduler.in_use (scheduler a') = Scheduler.in_use (scheduler (app x)) - one (serving ph0) + one (serving ph) →
  (∀ k, Limiter.held k (Gateway.limiter (gateway a')) =
        Limiter.held k (Gateway.limiter (gateway (app x))) - one (holds_slot k ph0) + one (holds_slot k ph)) →
  (∀ j e, registry a' !! j = Some e → ∃ e0, registry (app x) !! j = Some e0 ∧
     in_flight e = in_flight e0 - one (serving_on j ph0) + one (serving_on j ph)) →
  Counters.requests_active (counters a') =
    Counters.requests_active (counters (app x)) - one (serving ph0) + one (serving ph) + one (leaked_gauge ph) →
  fresh_phase ph →
  accounted (Sys a' (<[i := ph]> (requests x))).
Proof.
  intros [I1 I2 I3 I4 I5] Hi H0 H1 H2 H3 H4 H5. split; simpl.
  - rewrite (count_insert _ _ _ _ _ Hi), H1, I1. done.
  - intros k. rewrite (count_insert _ _ _ _ _ Hi), H2, I2. done.
  - intros j e (e0 & E0 & He)%H3. rewrite (count_insert _ _ _ _ _ Hi), He, (I3 j e0 E0). done.
  - rewrite !(count_insert _ _ _ _ _ Hi), H4, I4, H0. unfold one. lia.
  - intros q [j Hj]%list_elem_of_lookup. destruct (decide (i = j)) as [<-|Hne].
    + rewrite list_lookup_insert_eq in Hj by (by eapply lookup_lt_Some). by simplify_eq.
    + rewrite list_lookup_insert_ne in Hj by done. by apply I5, (list_elem_of_lookup_2 _ j).
Qed.

Lemma flight_nonneg x j e : accounted x → registry (app x) !! j = Some e → 0 <= in_flight e.
Proof. intros I H. rewrite (ac_flight x I j e H). apply count_nonneg. Qed.
Lemma active_nonneg x : accounted x → 0 <= Counters.requests_active (counters (app x)).
Proof.
  intros I. rewrite (ac_active x I). pose proof (count_nonneg serving (requests x)).
  pose proof (count_nonneg leaked_gauge (requests x)). lia.
Qed.

Lemma start_ok v p x :
  accounted x → accounted (step v (Start p) x).
Proof.
  intros I. simpl. unfold start_begin.
  destruct (Gateway.authorize_token _ _ _ _) as [g r] eqn:A.
  apply GatewaySystem.authorize_slots in A as (_ & _ & Hr);
    [|intros k; rewrite (ac_slots x I); apply count_nonneg].
  destruct r as [acc|e].
  2: { apply accounted_snoc; simpl; try done; try lia.
       - intros k. rewrite Hr. unfold one, slot_in. simpl. lia.
       - apply flight_id. }
  destruct Hr as (Hfin & Hh & _).
  destruct (Scheduler.admit_begin _ _ _) as [s o] eqn:S. simpl.
  pose proof (admit_begin_use _ _ _ _ _ S) as Hu.
  pose proof (admit_begin_outcome (length (requests x)) (p_now_admit p) (scheduler (app x))) as Ho.
  simpl in S. rewrite S in Ho. simpl in Ho.
  destruct (after_admit _ _ _ _ _) as [a' out] eqn:F.
  assert (settle p None out = settle p (Some acc) out) as ->.
  { destruct out; try done. exfalso. destruct o; simpl in F; try done.
    eapply place_not_cancelled. by rewrite F. }
  apply after_admit_balanced in F as [B1 B2 B3 B4 B5 B6]; [|done|..]; simpl in *.
  - apply accounted_snoc; [done|..|done|done].
    + rewrite B1, Hu. lia.
    + intros k. rewrite B2, Hh, slot_one. lia.
    + done.
    + done.
  - intros k Hk. rewrite Hh, slot_one, Hk. unfold slot_in, one. rewrite bool_decide_true by done.
    rewrite (ac_slots x I). pose proof (count_nonneg (holds_slot k) (requests x)). lia.
  - destruct o; try done. rewrite Hu, (ac_use x I). pose proof (count_nonneg serving (requests x)). lia.
  - by apply active_nonneg.
  - intros j e. by apply flight_nonneg.
Qed.

Lemma resume_ok v i now x : accounted x → accounted (step v (Resume i now) x).
Proof.
  intros I. simpl. destruct (requests x !! i) as [[p acc| |]|] eqn:Hi; try done.
  unfold start_resume. destruct (System.find_waiter _ _) as [w|]; [|done]. simpl.
  destruct (Scheduler.admit_resume _ _ _) as [[s o]|] eqn:S; [|done]. simpl.
  destruct (after_admit _ _ _ _ _) as [a' out] eqn:F.
  apply admit_resume_use in S as [Hu _].
  pose proof (ac_fresh x I _ (list_elem_of_lookup_2 _ _ _ Hi)) as Hfr. simpl in Hfr.
  apply after_admit_balanced in F as [B1 B2 B3 B4 B5 B6]; [|done|..]; simpl in *.
  - eapply accounted_move; [done|exact Hi|done|..|done]; simpl.
    + rewrite B1, Hu. lia.
    + done.
    + intros j e (e0 & E0 & He)%B3. exists e0. split; [done|]. rewrite He. unfold one. lia.
    + rewrite B4, B5. simpl. lia.
  - intros k Hk. rewrite (ac_slots x I). eapply count_pos; [exact Hi|]. simpl. rewrite Hk.
    unfold slot_in. by rewrite bool_decide_true.
  - destruct o; try done. rewrite Hu, (ac_use x I). pose proof (count_nonneg serving (requests x)). lia.
  - by apply active_nonneg.
  - intros j e. by apply flight_nonneg.
Qed.

(** What [finish_generation] does to the gauges. *)
Lemma finish_gauges v f s a a' ok :
  finish_generation v f s a = (a', ok) →
  Gateway.finalized (access s) = false → Scheduler.released (lease s) = false →
  0 < Scheduler.in_use (scheduler a) → 0 < Counters.requests_active (counters a) →
  (∀ k, slot_of (access s) = Some k → 0 < Limiter.held k (Gateway.limiter (gateway a))) →
  Scheduler.in_use (scheduler a') = Scheduler.in_use (scheduler a) - 1 ∧
  (∀ k, Limiter.held k (Gateway.limiter (gateway a')) =
        Limiter.held k (Gateway.limiter (gateway a)) - one (slot_in k (slot_of (access s)))) ∧
  registry a' = snd (lease_release (registry_lease s) (registry a)) ∧
  Counters.requests_active (counters a') = Counters.requests_active (counters a) - one ok.
Proof.
  unfold finish_generation. intros F Hf Hl Hu Hc Hp.
  destruct (f_stored f) eqn:St; injection F as <- <-; destruct (negb (f_backpressure f =? 0)); simpl;
    (split; [|split; [intros k; by apply finalize_slots|split; [done|]]]);
    try (destruct (Z.ltb_spec 0 (Counters.requests_active (counters a))); lia);
    try (rewrite <- (slow_consumer_use (f_backpressure f) (scheduler a)); apply lease_release_use; [done|];
         by rewrite slow_consumer_use);
    try lia; by apply lease_release_use.
Qed.

Lemma finish_ok v i f x : accounted x → accounted (step v (Finish i f) x).
Proof.
  intros I. simpl. destruct (requests x !! i) as [[|s|]|] eqn:Hi; try done.
  destruct (ac_fresh x I _ (list_elem_of_lookup_2 _ _ _ Hi)) as (Hf1 & Hf2 & Hf3).
  destruct (finish_generation v f s (app x)) as [a' ok] eqn:F.
  apply finish_gauges in F as (Hu & Hs & Hr & Hc); [|done|done|..].
  - eapply accounted_move; [done|exact Hi|done|..]; simpl.
    + rewrite Hu. lia.
    + intros k. rewrite Hs. unfold one, slot_in. simpl. lia.
    + intros j e. rewrite Hr. intros (e0 & E0 & He)%lookup_release; [|done|].
      * exists e0. split; [done|]. rewrite He. unfold one. by case_bool_decide; lia.
      * intros e0 E0. rewrite (ac_flight x I _ _ E0). eapply count_pos; [exact Hi|]. simpl.
        by rewrite bool_decide_true.
    + rewrite Hc. destruct ok; simpl; lia.
    + done.
  - rewrite (ac_use x I). by eapply count_pos.
  - rewrite (ac_active x I). pose proof (count_pos serving _ _ _ Hi eq_refl).
    pose proof (count_nonneg leaked_gauge (requests x)). lia.
  - intros k Hk. rewrite (ac_slots x I). eapply count_pos; [exact Hi|]. simpl. rewrite Hk.
    unfold slot_in. by rewrite bool_decide_true.
Qed.

Lemma alter_flight (f : BackendEntry → BackendEntry) (j : nat) (reg : list BackendEntry) (j' : nat) e :
  (∀ e, in_flight (f e) = in_flight e) → alter f j reg !! j' = Some e →
  ∃ e0, reg !! j' = Some e0 ∧ in_flight e = in_flight e0.
Proof.
  intros Hf. rewrite list_lookup_alter. case_decide; [subst|by eauto].
  intros (e0 & E & ->)%fmap_Some. exists e0. by split.
Qed.

Lemma step_ok v o x : accounted x → accounted (step v o x).
Proof.
  intros I. destruct o as [p|i|i|i now|i f| |j b|j c|d].
  - by apply start_ok.
  - destruct I. by split.
  - destruct I. by split.
  - by apply resume_ok.
  - by apply finish_ok.
  - destruct I. by split.
  - destruct I as [I1 I2 I3 I4 I5]. split; [done|done| |done|done]. simpl.
    intros j' e (e0 & E0 & ->)%alter_flight; [by apply I3|done].
  - destruct I as [I1 I2 I3 I4 I5]. split; [done|done| |done|done]. simpl.
    intros j' e (e0 & E0 & ->)%alter_flight; [by apply I3|]. intros e'. unfold refresh_health. by repeat case_match.
  - destruct I. by split.
Qed.

Lemma steps_snoc v os o x : steps v (os ++ [o]) x = step v o (steps v os x).
Proof. unfold steps. by rewrite fold_left_app. Qed.

Lemma steps_ind v (Inv : sys → Prop) (ok : op → Prop) os x :
  (∀ o y, ok o → Inv y → Inv (step v o y)) → Forall ok os → Inv x → Inv (steps v os x).
Proof.
  intros Hs Ho Hx. induction os as [|o os IH] using rev_ind; [done|].
  apply Forall_app in Ho as [Ho [Ho1 _]%Forall_cons]. rewrite steps_snoc. auto.
Qed.

(** The application as [main.py] builds it: a new scheduler, an empty limiter, no
    request in flight. *)
Definition boot (v : env) (s : Scheduler.t) (d : Db.t) (entries : list BackendEntry) (now : Q) : sys :=
  Sys (MkApp (Gateway.init (settings v) d) s (init entries) (Counters.init now) RouteMetrics.init) [].

Lemma boot_ok v mc md qt s d entries now :
  Scheduler.init mc md qt = Some s → Forall (fun e => in_flight e = 0) entries →
  accounted (boot v s d entries now).
Proof.
  intros Hs He. split; simpl; try done.
  - unfold Scheduler.init in Hs. repeat case_match; by simplify_eq.
  - intros j e Hj. unfold init in Hj. rewrite list_lookup_imap in Hj.
    apply fmap_Some in Hj as (e0 & E0 & ->). by apply (Forall_lookup_1 _ _ _ _ He E0).
  - intros p Hp. set_solver.
Qed.

Lemma booted_ok v mc md qt s d entries now os :
  Scheduler.init mc md qt = Some s → Forall (fun e => in_flight e = 0) entries →
  accounted (steps v os (boot v s d entries now)).
Proof.
  intros Hs He. apply (steps_ind v accounted (fun _ => True)); [|by apply Forall_true|by eapply boot_ok].
  intros o y _. apply step_ok.
Qed.

(** C1. Every resource is accounted for.  In every interleaving of requests starting,
    queueing, timing out, being cancelled, failing and finishing, with backends coming and
    going and the tables edited under them: the scheduler's [in_use] is the number of
    requests being served, each backend's [in_flight] is the number of requests being
    served on it, a key's concurrency slots are held by exactly its requests that are
    queued, being served or were cancelled in the queue, and the active gauge counts the
    requests being served and those whose usage write failed. *)
Theorem resources_exact v mc md qt s d entries now os :
  Scheduler.init mc md qt = Some s → Forall (fun e => in_flight e = 0) entries →
  let x := steps v os (boot v s d entries now) in
  Scheduler.in_use (scheduler (app x)) = count serving (requests x) ∧
  (∀ j e, registry (app x) !! j = Some e → in_flight e = count (serving_on j) (requests x)) ∧
  (∀ k, Limiter.held k (Gateway.limiter (gateway (app x))) = count (holds_slot k) (requests x)) ∧
  Counters.requests_active (counters (app x)) =
    count serving (requests x) + count leaked_gauge (requests x).
Proof.
  intros Hs He x. destruct (booted_ok v mc md qt s d entries now os Hs He). by split_and!.
Qed.

(** ** Runs without an abandoned wait *)

Definition queue_of (s : Scheduler.t) := Semaphore.waiters (Scheduler.sem s).
(** A queued request whose wait ended in a cancellation was cancelled by its timer. *)
Definition timed (w : Semaphore.waiter Scheduler.frame) : Prop :=
  Scheduler.why (Semaphore.w_data w) ≠ Scheduler.Outer ∧
  match Semaphore.w_fut w with
  | Semaphore.Pending | Semaphore.Granted => True
  | _ => Scheduler.why (Semaphore.w_data w) = Scheduler.Timer
  end.
Definition clean_phase (ph : phase) : Prop :=
  match ph with Over o g => o = None ∧ g = false | _ => True end.
Record clean (x : sys) : Prop := Clean {
  cl_waiters : Forall timed (queue_of (scheduler (app x)));
  cl_phases : Forall clean_phase (requests x)
}.
(** Nobody cancels a queued request and the usage table accepts every write. *)
Definition clean_op (o : op) : Prop :=
  match o with OuterCancel _ => False | Finish _ f => f_stored f = true | _ => True end.

Lemma timed_granting w : timed w → timed (Semaphore.set_fut Semaphore.Granted w).
Proof. intros [H _]. by split. Qed.

Lemma admit_begin_timed i now s :
  Forall timed (queue_of s) → Forall timed (queue_of (fst (Scheduler.admit_begin i now s))).
Proof.
  intros H. unfold Scheduler.admit_begin. destruct (Scheduler.draining s); [done|].
  destruct (_ && _); [done|]. unfold Semaphore.acquire_begin.
  destruct (Semaphore.locked _) eqn:L; simpl; rewrite ?L; simpl; [|done].
  apply Forall_app. split; [done|]. by repeat constructor.
Qed.

Lemma admit_resume_timed i w now s s' o :
  System.find_waiter i s = Some w → Scheduler.admit_resume w now s = Some (s', o) →
  Forall timed (queue_of s) → Forall timed (queue_of s') ∧ o ≠ Scheduler.RaisedCancelled.
Proof.
  intros Hw. unfold Scheduler.admit_resume.
  destruct (Semaphore.acquire_resume w _) as [[q got]|] eqn:E; [|done]. simpl. intros Hs H.
  apply System.find_waiter_elem in Hw.
  pose proof (Semaphore.acquire_resume_Forall timed timed_granting _ _ _ _ E H) as Hq.
  rewrite Forall_forall in H. destruct (H w Hw) as [H1 H2].
  destruct got; [by simplify_eq|].
  unfold Semaphore.acquire_resume in E. destruct (Semaphore.w_fut w); simplify_eq; rewrite H2 in Hs; by simplify_eq.
Qed.

Lemma lease_release_timed c l s :
  Forall timed (queue_of s) → Forall timed (queue_of (snd (Scheduler.lease_release c l s))).
Proof.
  intros H. unfold Scheduler.lease_release. destruct (Scheduler.released l); [done|].
  apply (Semaphore.wake_up_next_Forall timed timed_granting). simpl. by repeat case_match.
Qed.

Lemma timer_timed i s :
  Forall timed (queue_of s) → Forall timed (queue_of (Scheduler.cancel_waiter i Scheduler.Timer s)).
Proof.
  intros H. simpl. unfold Semaphore.cancel_waiter. apply Forall_map. eapply Forall_impl; [exact H|].
  intros w [H1 H2]. simpl. case_decide; [|by split]. unfold timed, Scheduler.note_cause. simpl.
  destruct (Scheduler.why (Semaphore.w_data w)); try done; (split; [done|]);
    by destruct (Semaphore.w_fut w).
Qed.

Lemma after_admit_clean v p acc acc' o a a' out :
  Forall timed (queue_of (scheduler a)) → o ≠ Scheduler.RaisedCancelled →
  after_admit v p acc o a = (a', out) →
  Forall timed (queue_of (scheduler a')) ∧ clean_phase (settle p acc' out).
Proof.
  intros H Ho. destruct o as [w| |e|]; simpl; [|by intros [= <- <-]|by intros [= <- <-]|done].
  pose proof (lease_release_timed false (Scheduler.Lease w false) (scheduler a) H) as Hr.
  unfold place. destruct (Router.acquire _ _ _ _ _) as [[rl reg']|[]].
  - by destruct (p_generates p); intros [= <- <-].
  - by intros [= <- <-].
  - by intros [= <- <-].
  - by intros [= <- <-].
Qed.

Lemma clean_step v o x : clean_op o → clean x → clean (step v o x).
Proof.
  intros Ho [H1 H2]. destruct o as [p|i|i|i now|i f| |j b|j c|d]; simpl in Ho; try done; simpl.
  - unfold start_begin. destruct (Gateway.authorize_token _ _ _ _) as [g [acc|e]]; simpl.
    2: { split; [done|]. apply Forall_app. by repeat constructor. }
    pose proof (admit_begin_timed (length (requests x)) (p_now_admit p) (scheduler (app x)) H1) as Hq.
    pose proof (admit_begin_outcome (length (requests x)) (p_now_admit p) (scheduler (app x))) as Hn.
    destruct (Scheduler.admit_begin _ _ _) as [s o]. simpl in *.
    destruct (after_admit _ _ _ _ _) as [a' out] eqn:F.
    apply (after_admit_clean _ _ _ None) in F as [F1 F2]; [|done..]. split; [done|].
    apply Forall_app. by repeat constructor.
  - split; [by apply timer_timed|done].
  - destruct (requests x !! i) as [[p acc| |]|]; try by split.
    unfold start_resume. destruct (System.find_waiter i _) as [w|] eqn:W; [|by split]. simpl.
    destruct (Scheduler.admit_resume _ _ _) as [[s o]|] eqn:R; [|by split]. simpl.
    apply (admit_resume_timed i) in R as [R1 R2]; [|done..].
    destruct (after_admit _ _ _ _ _) as [a' out] eqn:F.
    apply (after_admit_clean _ _ _ (Some acc)) in F as [F1 F2]; [|done..]. split; [done|].
    by apply Forall_insert.
  - destruct (requests x !! i) as [[|s|]|]; try by split.
    destruct (finish_generation v f s (app x)) as [a' ok] eqn:F.
    unfold finish_generation in F. rewrite Ho in F. injection F as <- <-.
    split; [|by apply Forall_insert]. simpl.
    apply lease_release_timed. destruct (negb _); [|done].
    unfold queue_of, Scheduler.note_slow_consumer. simpl. by case_match.
Qed.

(** A run that starts from boot without an abandoned wait is clean. *)
Lemma booted_clean v mc md qt s d entries now os :
  Scheduler.init mc md qt = Some s → Forall clean_op os → clean (steps v os (boot v s d entries now)).
Proof.
  intros Hs Ho. apply (steps_ind v clean clean_op); [apply clean_step|done|].
  unfold Scheduler.init in Hs. repeat case_match; simplify_eq. by repeat constructor.
Qed.

Lemma count_none f l : Forall (fun ph => f ph = false) l → count f l = 0.
Proof. unfold count. induction 1 as [|ph l H _ IH]; simpl; [done|]. by rewrite H. Qed.

Definition over (ph : phase) : bool := match ph with Over _ _ => true | _ => false end.

(** C2. Nothing leaks: once every request is over, and provided none was cancelled from
    outside while it queued and no usage write failed, every slot of the scheduler, of the
    backends and of every key is free again and the active gauge reads zero, whatever mix
    of refusals, timeouts, placement errors, backend failures, disconnects and completions
    the requests went through. *)
Theorem nothing_leaks v mc md qt s d entries now os :
  Scheduler.init mc md qt = Some s → Forall (fun e => in_flight e = 0) entries → Forall clean_op os →
  let x := steps v os (boot v s d entries now) in
  Forall (fun ph => over ph = true) (requests x) →
  Scheduler.in_use (scheduler (app x)) = 0 ∧
  (∀ j e, registry (app x) !! j = Some e → in_flight e = 0) ∧
  (∀ k, Limiter.held k (Gateway.limiter (gateway (app x))) = 0) ∧
  Counters.requests_active (counters (app x)) = 0.
Proof.
  intros Hs He Ho x Hx. destruct (booted_ok v mc md qt s d entries now os Hs He) as [I1 I2 I3 I4 _].
  destruct (booted_clean v mc md qt s d entries now os Hs Ho) as [_ Hc]. fold x in I1, I2, I3, I4, Hc.
  assert (Forall (fun ph => ph = Over None false) (requests x)) as Hall.
  { eapply Forall_impl; [exact (proj2 (Forall_and _ _) (conj Hx Hc))|]. intros [| |o g] [H1 H2]; simpl in *; try done.
    by destruct H2 as [-> ->]. }
  assert (∀ f, f (Over None false) = false → count f (requests x) = 0) as Hz.
  { intros f Hf. apply count_none. eapply Forall_impl; [exact Hall|]. by intros ? ->. }
  split_and!.
  - by rewrite I1, Hz.
  - intros j e Hj. by rewrite (I3 j e Hj), Hz.
  - intros k. by rewrite I2, Hz.
  - by rewrite I4, !Hz.
Qed.

(** ** Route outcomes *)

Definition n_requests (a : App) : Z := RouteMetrics.total RouteMetrics.requests (route_metrics a).
Definition n_errors (a : App) : Z := RouteMetrics.total RouteMetrics.errors (route_metrics a).
Definition n_cancelled (a : App) : Z := RouteMetrics.total RouteMetrics.cancelled (route_metrics a).

(** Every routed request is in service or recorded, once, with one outcome. *)
Record recorded (x : sys) : Prop := Recorded {
  re_once : Counters.requests_total (counters (app x)) = n_requests (app x) + count serving (requests x);
  re_outcomes : n_errors (app x) + n_cancelled (app x) <= n_requests (app x)
}.

(** [a'] is [a] after [r] routes were recorded, at most one outcome each, and [n] more
    requests were started. *)
Definition records (r n : Z) (a a' : App) : Prop :=
  n_requests a' = n_requests a + r ∧
  n_errors a' + n_cancelled a' <= n_errors a + n_cancelled a + r ∧
  Counters.requests_total (counters a') = Counters.requests_total (counters a) + n.

Lemma records_none a a' :
  route_metrics a' = route_metrics a ∨ (∃ m, route_metrics a' = RouteMetrics.record_shed m (route_metrics a)) →
  counters a' = counters a → records 0 0 a a'.
Proof. intros Hm Hc. unfold records, n_requests, n_errors, n_cancelled. destruct Hm as [->|[m ->]]; rewrite Hc; unfold RouteMetrics.total; simpl; lia. Qed.

Lemma records_one d m b q pt ct cost tm ft k o n a a' :
  route_metrics a' = record_route_outcome d m b q pt ct cost tm ft k o (route_metrics a) →
  Counters.requests_total (counters a') = Counters.requests_total (counters a) + n →
  records 1 n a a'.
Proof.
  intros Hm Hc. unfold records, n_requests, n_errors, n_cancelled. rewrite Hm, Hc. unfold record_route_outcome.
  rewrite RouteMetrics.total_requests, RouteMetrics.total_errors, RouteMetrics.total_cancelled.
  destruct o; simpl; lia.
Qed.

Lemma after_admit_recorded v p acc acc' o a a' out :
  after_admit v p acc o a = (a', out) →
  ∃ r, records r (r + one (serving (settle p acc' out))) a a'.
Proof.
  destruct o as [w| |e|]; simpl; try (intros [= <- <-]; exists 0; apply records_none; by eauto).
  unfold place. destruct (Router.acquire _ _ _ _ _) as [[rl reg']|[]];
    try (intros [= <- <-]; exists 0; apply records_none; by eauto).
  destruct (p_generates p); intros [= <- <-].
  - exists 0. unfold records. simpl. unfold n_requests, n_errors, n_cancelled. simpl. lia.
  - exists 1. eapply records_one; [reflexivity|]. simpl. lia.
Qed.

Lemma finish_records v f s a : records 1 0 a (fst (finish_generation v f s a)).
Proof.
  unfold finish_generation. destruct (f_stored f); simpl;
    (eapply records_one; [simpl; by destruct (negb _)|]); simpl; destruct (negb _); simpl; lia.
Qed.

Lemma recorded_move x a' l r :
  recorded x → records r (r + (count serving l - count serving (requests x))) (app x) a' →
  recorded (Sys a' l).
Proof. intros [R1 R2] (H1 & H2 & H3). split; simpl; lia. Qed.

Lemma step_recorded v o x : recorded x → recorded (step v o x).
Proof.
  intros R. destruct o as [p|i|i|i now|i f| |j b|j c|d]; try (destruct R; by split).
  - simpl. unfold start_begin. destruct (Gateway.authorize_token _ _ _ _) as [g [acc|e]]; simpl.
    2: { apply (recorded_move x _ _ 0 R). rewrite count_snoc. simpl.
         replace (0 + _) with 0 by lia. apply records_none; eauto. }
    destruct (Scheduler.admit_begin _ _ _) as [s o]. simpl.
    destruct (after_admit _ _ _ _ _) as [a' out] eqn:F.
    apply (after_admit_recorded _ _ _ None) in F as [r F].
    apply (recorded_move x _ _ r R). rewrite count_snoc.
    replace (_ - _) with (one (serving (settle p None out))) by (unfold one; lia). exact F.
  - simpl. destruct (requests x !! i) as [[p acc| |]|] eqn:Hi; try done.
    unfold start_resume. destruct (System.find_waiter i _) as [w|]; [|done]. simpl.
    destruct (Scheduler.admit_resume _ _ _) as [[s o]|]; [|done]. simpl.
    destruct (after_admit _ _ _ _ _) as [a' out] eqn:F.
    apply (after_admit_recorded _ _ _ (Some acc)) in F as [r F].
    apply (recorded_move x _ _ r R). rewrite (count_insert _ _ _ _ _ Hi).
    replace (_ - count serving (requests x)) with (one (serving (settle p (Some acc) out)))
      by (unfold one; simpl; lia). exact F.
  - simpl. destruct (requests x !! i) as [[|s|]|] eqn:Hi; try done.
    pose proof (finish_records v f s (app x)) as F.
    destruct (finish_generation v f s (app x)) as [a' ok]. simpl in F.
    apply (recorded_move x _ _ 1 R). rewrite (count_insert _ _ _ _ _ Hi). simpl.
    replace (1 + _) with 0 by lia. exact F.
Qed.

(** Every routed request is accounted for exactly once: the number of requests ever
    started is the number recorded in the route metrics plus those still being served, and
    no record counts both as an error and as a cancellation. *)
Theorem routed_once v mc md qt s d entries now os :
  Scheduler.init mc md qt = Some s →
  let x := steps v os (boot v s d entries now) in
  Counters.requests_total (counters (app x)) =
    RouteMetrics.total RouteMetrics.requests (route_metrics (app x)) + count serving (requests x) ∧
  RouteMetrics.total RouteMetrics.errors (route_metrics (app x)) +
    RouteMetrics.total RouteMetrics.cancelled (route_metrics (app x))
  <= RouteMetrics.total RouteMetrics.requests (route_metrics (app x)).
Proof.
  intros Hs x. assert (recorded x) as [R1 R2]; [|done].
  apply (steps_ind v recorded (fun _ => True)); [|by apply Forall_true|by split].
  intros o y _. apply step_recorded.
Qed.

(** *** A slot that is never returned *)

(** One admission slot, one concurrent request per key; keyless requests allowed. *)
Definition demo_env : env :=
  Env (Gateway.MkSettings "127.0.0.1" None 1000 5000 1 1 60 1) None (Router.init [] [] false) 0.
Definition demo_sched : Scheduler.t := default (System.sched System.empty_sys) (Scheduler.init 1 4 30).
Definition demo_sys : sys :=
  boot demo_env demo_sched GatewaySystem.demo_db [demo_entry "local" "llamacpp" "llama" 1 false true false] 0.
Definition demo_params (tok : option string) (generates : bool) : params :=
  Params (Gateway.Request tok "hello" 16 "/v1/chat" None "n" 1000) "llama" "llama" [] 1000 1000 generates.
Definition with_key : params := demo_params (Some "sk-ie-aaaa") true.
Definition keyless : params := demo_params None true.
Definition finished (stored : bool) : finishing :=
  Finishing false (Some (Result false 2 5 None None)) 0 0 "r1" 1001 stored.

(** A request cancelled while it queues keeps its key's slot: [start_generation_core]
    only catches [SchedulerSaturated] around [scheduler.admit()], so after the cancellation
    nothing is running or queued, and yet the key's next request is refused with
    [concurrency_limit_exceeded]. *)
Theorem cancelled_wait_leaks_slot :
  let x := steps demo_env [Start keyless; Start with_key; OuterCancel 1; Resume 1 1001; Finish 0 (finished true)]
             demo_sys in
  requests x = [Over None false; Over (Some "k1") false] ∧
  Scheduler.in_use (scheduler (app x)) = 0 ∧ queue_of (scheduler (app x)) = [] ∧
  snd (start_begin demo_env 2 with_key (app x)) =
    Refused (Gateway.Error 429 "concurrency_limit_exceeded" [("retry-after", "5")]).
Proof. vm_compute. by split_and!. Qed.

(** A failed usage write leaves the active gauge raised: [finish_generation] reaches
    [counters.request_finished] only after [access.finalize] returned. *)
Theorem failed_usage_write_leaks_gauge :
  let x := steps demo_env [Start with_key; Finish 0 (finished false)] demo_sys in
  requests x = [Over None true] ∧ Scheduler.in_use (scheduler (app x)) = 0 ∧
  Limiter.held "k1" (Gateway.limiter (gateway (app x))) = 0 ∧
  Counters.requests_active (counters (app x)) = 1.
Proof. vm_compute. by split_and!. Qed.

Definition demo_run : list op :=
  [Start keyless; Start with_key; Start (demo_params (Some "bad") false); Health 0 (Some true); Finish 0 (finished true);
   Resume 1 1001; Start (demo_params None false); TimerFires 3; Resume 3 1005].

Lemma resources_exact_witness :
  Scheduler.in_use (scheduler (app (steps demo_env demo_run demo_sys))) = 1.
Proof.
  destruct (resources_exact demo_env 1 4 30 demo_sched GatewaySystem.demo_db
              [demo_entry "local" "llamacpp" "llama" 1 false true false] 0 demo_run) as [H _];
    [reflexivity|by repeat constructor|].
  refine (eq_trans H _). vm_compute. reflexivity.
Defined.

Lemma nothing_leaks_witness :
  Limiter.held "k1" (Gateway.limiter (gateway (app (steps demo_env (demo_run ++ [Finish 1 (finished true); Resume 2 1006]) demo_sys)))) = 0.
Proof.
  destruct (nothing_leaks demo_env 1 4 30 demo_sched GatewaySystem.demo_db
              [demo_entry "local" "llamacpp" "llama" 1 false true false] 0 (demo_run ++ [Finish 1 (finished true); Resume 2 1006]))
    as (_ & _ & H & _); [reflexivity|by repeat constructor|by repeat constructor|vm_compute; by repeat constructor|].
  exact (H "k1").
Defined.

Lemma routed_once_witness :
  Counters.requests_total (counters (app (steps demo_env demo_run demo_sys))) = 2.
Proof.
  destruct (routed_once demo_env 1 4 30 demo_sched GatewaySystem.demo_db
              [demo_entry "local" "llamacpp" "llama" 1 false true false] 0 demo_run eq_refl) as [H _].
  refine (eq_trans H _). vm_compute. reflexivity.
Defined.

End ServingSystem.
