(* ===== verification/Stream.v ===== *)
(** * The token bridge ([engine/inference/stream.py])

    [Module QueueGenerationStream] translates the class of the same name: a worker thread
    runs the blocking token producer and hands tokens to the event loop through
    [call_soon_threadsafe] and a bounded [asyncio.Queue]; a [threading.Semaphore] makes the
    worker wait when the consumer falls behind.  The worker's program counter names the
    shared-memory access it is about to make, so a run is any interleaving of worker steps,
    loop callbacks and consumer calls.  What the producer does at each call is a label of
    the step: the theorems hold for every producer. *)

From S2P Require Import Prelude.

Open Scope Z_scope.

Module QueueGenerationStream.

(** [FinishReason] *)
Inductive FinishReason := STOP | LENGTH | CANCELLED | ERROR.

(** [_Token] and [_Terminal]; an exception is its text. *)
Inductive item := Token (text : string) | Terminal (finish : FinishReason) (error : option string).
(** What [call_soon_threadsafe] was given. *)
Inductive callback := Put (i : item) | FireOnDone.

(** The access [_run] makes next; from [Check] to [OfferToken] it holds a queue slot. *)
Inductive pc :=
| Start | Top | TryAcquire | Blocked | Check | Next | OfferToken (t : string)
| OfferTerminal (f : FinishReason) (e : option string) | OfferDone | Dead.

(** What a call into the producer (or its [close]) did. *)
Inductive reply := Yields (t : string) | Returns (f : option FinishReason) | Raises (e : string).

(** [GenerationResult]; its timings are the stream's own object. *)
Record GenerationResult := Result {
  text : string; finish_reason : FinishReason; r_prompt_tokens : Z; completion_tokens : Z
}.
(** [GenerationTimings] *)
Record GenerationTimings := Timings { started_at : Q; first_token_at : option Q; finished_at : option Q }.
Definition ttft_ms (x : GenerationTimings) : option Q := (fun f => (f - started_at x) * 1000)%Q <$> first_token_at x.
Definition total_ms (x : GenerationTimings) : option Q := (fun f => (f - started_at x) * 1000)%Q <$> finished_at x.

(** What the worker and the loop share.  [lost] are the items offered to a closed loop and
    [rejected] those [put_nowait] refused with [QueueFull]. *)
Record channel := Channel {
  queue : list item;
  callbacks : list callback;
  capacity : Z;
  cancel : bool;
  loop_open : bool;
  lost : list item;
  rejected : list item
}.
(** The worker thread; [made] are the tokens it offered. *)
Record worker := Worker { at_ : pc; backpressure_waits : Z; made : list string }.
(** The consumer's side; [getting] and [closing] are its suspended calls of [__anext__]
    and [aclose], [calls] counts the invocations of [on_done] and [out] are the chunks
    returned. *)
Record consumer := Consumer {
  index : Z;
  parts : list string;
  timings : GenerationTimings;
  result : option GenerationResult;
  exhausted : bool;
  closed : bool;
  on_done_fired : bool;
  getting : bool;
  closing : bool;
  calls : Z;
  out : list (string * Z)
}.
Record t := Mk { maxsize : Z; prompt_tokens : Z; chan : channel; thread : worker; view : consumer }.

(** [__init__] *)
Definition init (maxsize prompt_tokens : Z) (now : Q) : t :=
  Mk maxsize prompt_tokens (Channel [] [] maxsize false true [] []) (Worker Start 0 [])
     (Consumer 0 [] (Timings now None None) None false false false false false 0 []).

Definition with_capacity (n : Z) (c : channel) : channel :=
  Channel (queue c) (callbacks c) n (cancel c) (loop_open c) (lost c) (rejected c).
Definition with_cancel (c : channel) : channel :=
  Channel (queue c) (callbacks c) (capacity c) true (loop_open c) (lost c) (rejected c).
Definition with_queue (q : list item) (c : channel) : channel :=
  Channel q (callbacks c) (capacity c) (cancel c) (loop_open c) (lost c) (rejected c).
(** [call_soon_threadsafe] *)
Definition call_soon (b : callback) (c : channel) : channel :=
  Channel (queue c) (callbacks c ++ [b]) (capacity c) (cancel c) (loop_open c) (lost c) (rejected c).

(** [_offer] *)
Definition offer (i : item) (c : channel) : channel :=
  if loop_open c then call_soon (Put i) c
  else Channel (queue c) (callbacks c) (capacity c) true false (lost c ++ [i]) (rejected c).

(** ** The worker *)

Definition goto (p : pc) (w : worker) : worker := Worker p (backpressure_waits w) (made w).
(** [gen.close()] on the way to a cancelled end. *)
Definition closing_gen (r : reply) : pc :=
  match r with Raises e => OfferTerminal ERROR (Some e) | _ => OfferTerminal CANCELLED None end.

(** One step of [_run]; [None] when the thread is blocked or has ended. *)
Definition run_step (r : reply) (c : channel) (w : worker) : option (channel * worker) :=
  match at_ w with
  | Start => Some (c, goto (match r with Raises e => OfferTerminal ERROR (Some e) | _ => Top end) w)
  | Top => Some (c, goto (if cancel c then closing_gen r else TryAcquire) w)
  | TryAcquire =>
      if 0 <? capacity c then Some (with_capacity (capacity c - 1) c, goto Check w)
      else Some (c, Worker Blocked (backpressure_waits w + 1) (made w))
  | Blocked =>
      if 0 <? capacity c then Some (with_capacity (capacity c - 1) c, goto Check w) else None
  | Check =>
      if cancel c then Some (with_capacity (capacity c + 1) c, goto (closing_gen r) w)
      else Some (c, goto Next w)
  | Next =>
      match r with
      | Yields t => Some (c, goto (OfferToken t) w)
      | Returns f => Some (with_capacity (capacity c + 1) c, goto (OfferTerminal (default STOP f) None) w)
      | Raises e => Some (with_capacity (capacity c + 1) c, goto (OfferTerminal ERROR (Some e)) w)
      end
  | OfferToken t => Some (offer (Token t) c, Worker Top (backpressure_waits w) (made w ++ [t]))
  | OfferTerminal f e => Some (offer (Terminal f e) c, goto OfferDone w)
  | OfferDone => Some (if loop_open c then call_soon FireOnDone c else c, goto Dead w)
  | Dead => None
  end.

(** ** The event loop *)

(** [_fire_on_done] *)
Definition fire_on_done (v : consumer) : consumer :=
  if on_done_fired v then v
  else Consumer (index v) (parts v) (timings v) (result v) (exhausted v) (closed v) true (getting v) (closing v)
         (calls v + 1) (out v).

(** The first pending callback runs; [put_nowait] raises [QueueFull] on a full queue. *)
Definition run_callback (x : t) : option t :=
  let c := chan x in
  match callbacks c with
  | [] => None
  | b :: bs =>
      let c := Channel (queue c) bs (capacity c) (cancel c) (loop_open c) (lost c) (rejected c) in
      match b with
      | Put i =>
          Some (Mk (maxsize x) (prompt_tokens x)
                  (if maxsize x <=? Z.of_nat (length (queue c))
                   then Channel (queue c) bs (capacity c) (cancel c) (loop_open c) (lost c) (rejected c ++ [i])
                   else with_queue (queue c ++ [i]) c)
                  (thread x) (view x))
      | FireOnDone => Some (Mk (maxsize x) (prompt_tokens x) c (thread x) (fire_on_done (view x)))
      end
  end.

(** [self._result] is set once. *)
Definition set_result (f : FinishReason) (now : Q) (x : t) : t :=
  let v := view x in
  match result v with
  | Some _ => x
  | None =>
      Mk (maxsize x) (prompt_tokens x) (chan x) (thread x)
         (Consumer (index v) (parts v)
            (Timings (started_at (timings v)) (first_token_at (timings v)) (Some now))
            (Some (Result (String.concat "" (parts v)) f (prompt_tokens x) (index v)))
            (exhausted v) (closed v) (on_done_fired v) (getting v) (closing v) (calls v) (out v))
  end.
Definition set_exhausted (x : t) : t :=
  let v := view x in
  Mk (maxsize x) (prompt_tokens x) (chan x) (thread x)
     (Consumer (index v) (parts v) (timings v) (result v) true (closed v) (on_done_fired v) (getting v)
        (closing v) (calls v) (out v)).

(** [_join] on the loop thread: the worker needs nobody to make its last step. *)
Definition join (x : t) : t :=
  match at_ (thread x) with
  | OfferDone =>
      Mk (maxsize x) (prompt_tokens x) (if loop_open (chan x) then call_soon FireOnDone (chan x) else chan x)
         (goto Dead (thread x)) (view x)
  | _ => x
  end.
Definition fire (x : t) : t := Mk (maxsize x) (prompt_tokens x) (chan x) (thread x) (fire_on_done (view x)).

(** [_finish] *)
Definition finish (f : FinishReason) (now : Q) (x : t) : t :=
  fire (join (set_exhausted (set_result f now x))).

Definition with_getting (b : bool) (x : t) : t :=
  let v := view x in
  Mk (maxsize x) (prompt_tokens x) (chan x) (thread x)
     (Consumer (index v) (parts v) (timings v) (result v) (exhausted v) (closed v) (on_done_fired v) b
        (closing v) (calls v) (out v)).

(** [__anext__] with the item it took from the queue. *)
Definition got (i : item) (now : Q) (x : t) : t :=
  match i with
  | Terminal f _ => finish f now x
  | Token s =>
      let v := view x in
      let tm := timings v in
      Mk (maxsize x) (prompt_tokens x) (with_capacity (capacity (chan x) + 1) (chan x)) (thread x)
         (Consumer (index v + 1) (parts v ++ [s])
            (Timings (started_at tm) (Some (default now (first_token_at tm))) (finished_at tm))
            (result v) (exhausted v) (closed v) (on_done_fired v) (getting v) (closing v) (calls v)
            (out v ++ [(s, index v)]))
  end.

(** [await self._queue.get()] and what follows, or the suspension. *)
Definition get (now : Q) (x : t) : t :=
  match queue (chan x) with
  | [] => with_getting true x
  | i :: q => got i now (with_getting false
                (Mk (maxsize x) (prompt_tokens x) (with_queue q (chan x)) (thread x) (view x)))
  end.

(** [aclose] up to its await. *)
Definition aclose_begin (x : t) : t :=
  let v := view x in
  if closed v then x
  else Mk (maxsize x) (prompt_tokens x) (with_capacity (capacity (chan x) + 1) (with_cancel (chan x))) (thread x)
          (Consumer (index v) (parts v) (timings v) (result v) (exhausted v) true (on_done_fired v) (getting v)
             true (calls v) (out v)).
Definition with_closing (b : bool) (x : t) : t :=
  let v := view x in
  Mk (maxsize x) (prompt_tokens x) (chan x) (thread x)
     (Consumer (index v) (parts v) (timings v) (result v) (exhausted v) (closed v) (on_done_fired v) (getting v)
        b (calls v) (out v)).
(** [aclose] after the join. *)
Definition aclose_resume (now : Q) (x : t) : t :=
  with_closing false (fire (set_exhausted (set_result CANCELLED now x))).

(** ** Interleavings *)

Inductive label :=
| Thread (r : reply)
| RunCallback
| Anext (now : Q)
| GetResume (now : Q)
| GetCancelled
| Aclose
| AcloseResume (now : Q) (timed_out : bool)
| AcloseCancelled
| LoopCloses.

Definition dead (x : t) : bool := match at_ (thread x) with Dead => true | _ => false end.

Definition exec (l : label) (x : t) : option t :=
  let c := chan x in
  match l with
  | Thread r => '(c', w') ← run_step r c (thread x); Some (Mk (maxsize x) (prompt_tokens x) c' w' (view x))
  | LoopCloses =>
      Some (Mk (maxsize x) (prompt_tokens x)
              (Channel (queue c) (callbacks c) (capacity c) (cancel c) false (lost c) (rejected c)) (thread x) (view x))
  | _ =>
      if negb (loop_open c) then None
      else match l with
           | RunCallback => run_callback x
           | Anext now =>
               if getting (view x) then None else if exhausted (view x) then Some x else Some (get now x)
           | GetResume now =>
               if getting (view x) then match queue c with [] => None | _ => Some (get now x) end else None
           | GetCancelled => if getting (view x) then Some (with_getting false x) else None
           | Aclose => Some (aclose_begin x)
           | AcloseResume now timed_out =>
               if closing (view x) && (dead x || timed_out) then Some (aclose_resume now x) else None
           | AcloseCancelled => if closing (view x) then Some (with_closing false x) else None
           | _ => None
           end
  end.

Inductive reachable (m p : Z) (now : Q) : t → Prop :=
| reach_init : reachable m p now (init m p now)
| reach_step l x x' : reachable m p now x → exec l x = Some x' → reachable m p now x'.

Fixpoint run (ls : list label) (x : t) : option t :=
  match ls with [] => Some x | l :: ls => exec l x ≫= run ls end.
Lemma stream_run_reachable m p now ls x x' : reachable m p now x → run ls x = Some x' → reachable m p now x'.
Proof.
  revert x. induction ls as [|l ls IH]; intros x Hx; simpl; [by intros [= <-]|].
  destruct (exec l x) eqn:E; [|done]. simpl. apply IH. by eapply reach_step.
Qed.

(** ** The invariant *)

Definition tokens (l : list item) : list string :=
  omap (fun i => match i with Token s => Some s | Terminal _ _ => None end) l.
Definition puts (l : list callback) : list item :=
  omap (fun b => match b with Put i => Some i | FireOnDone => None end) l.
(** Everything offered and not yet taken, oldest first. *)
Definition items (c : channel) : list item := queue c ++ puts (callbacks c) ++ lost c.
Definition buffered (c : channel) : Z := Z.of_nat (length (tokens (items c))).

(** The queue slot the worker holds, and whether it will fill it. *)
Definition held (p : pc) : Z := match p with Check | Next | OfferToken _ => 1 | _ => 0 end.
Definition filling (p : pc) : Z := match p with Next | OfferToken _ => 1 | _ => 0 end.
Definition ended (p : pc) : bool := match p with OfferDone | Dead => true | _ => false end.
Definition ending (p : pc) : bool := match p with OfferTerminal _ _ | OfferDone | Dead => true | _ => false end.
Definition b2z (b : bool) : Z := if b then 1 else 0.

(** The items are tokens, and a terminal after them once the worker has ended. *)
Definition shaped (last : bool) (l : list item) : Prop :=
  ∃ ts tl, l = map Token ts ++ tl ∧ (tl = [] ∨ last = true ∧ ∃ f e, tl = [Terminal f e]).

Record inv (m : Z) (x : t) : Prop := Inv {
  i_max : maxsize x = m;
  i_made : made (thread x) = parts (view x) ++ tokens (items (chan x));
  i_slots : capacity (chan x) + buffered (chan x) + held (at_ (thread x)) = m + b2z (closed (view x));
  i_capacity : 0 <= capacity (chan x);
  i_fits : buffered (chan x) + filling (at_ (thread x)) <= m;
  i_cancel : closed (view x) = true → cancel (chan x) = true;
  i_cancelled : cancel (chan x) = true → closed (view x) = true ∨ loop_open (chan x) = false;
  i_lost : loop_open (chan x) = true → lost (chan x) = [];
  i_start : at_ (thread x) = Start → items (chan x) = [];
  i_shape : shaped (ended (at_ (thread x))) (items (chan x));
  i_room : ending (at_ (thread x)) = true → closed (view x) = false → loop_open (chan x) = true →
           buffered (chan x) < m;
  i_terminal : ended (at_ (thread x)) = true →
               (∃ f e, Terminal f e ∈ items (chan x)) ∨ exhausted (view x) = true ∨ rejected (chan x) ≠ [];
  i_rejected : closed (view x) = false → rejected (chan x) = [];
  i_calls : calls (view x) = b2z (on_done_fired (view x));
  i_done : at_ (thread x) = Dead → loop_open (chan x) = true →
           FireOnDone ∈ callbacks (chan x) ∨ on_done_fired (view x) = true;
  i_index : index (view x) = Z.of_nat (length (parts (view x)));
  i_out : out (view x) = imap (fun n s => (s, Z.of_nat n)) (parts (view x));
  i_closing : closing (view x) = true → closed (view x) = true;
  i_getting : getting (view x) = true → closed (view x) = false → exhausted (view x) = false;
  i_result : closed (view x) = false →
    match result (view x) with
    | None => exhausted (view x) = false
    | Some r => exhausted (view x) = true ∧ ended (at_ (thread x)) = true ∧
                made (thread x) = parts (view x) ∧ text r = String.concat "" (parts (view x)) ∧
                completion_tokens r = Z.of_nat (length (parts (view x)))
    end
}.

Lemma tokens_app l1 l2 : tokens (l1 ++ l2) = tokens l1 ++ tokens l2.
Proof. unfold tokens. by rewrite omap_app. Qed.
Lemma puts_app l1 l2 : puts (l1 ++ l2) = puts l1 ++ puts l2.
Proof. unfold puts. by rewrite omap_app. Qed.

Lemma items_offer i c : (loop_open c = true → lost c = []) → items (offer i c) = items c ++ [i].
Proof.
  intros H. unfold offer, items. destruct (loop_open c); simpl.
  - rewrite H, puts_app by done. simpl. by rewrite !app_nil_r, app_assoc.
  - by rewrite !app_assoc.
Qed.
Lemma offer_frame i c :
  capacity (offer i c) = capacity c ∧ loop_open (offer i c) = loop_open c ∧
  rejected (offer i c) = rejected c ∧ (loop_open c = true → cancel (offer i c) = cancel c) ∧
  (cancel c = true → cancel (offer i c) = true) ∧
  (loop_open (offer i c) = true → (loop_open c = true → lost c = []) → lost (offer i c) = []) ∧
  (∀ b, b ∈ callbacks c → b ∈ callbacks (offer i c)).
Proof. unfold offer. destruct (loop_open c) eqn:E; simpl; rewrite ?E; set_solver. Qed.

Lemma shaped_nil b : shaped b [].
Proof. exists [], []. auto. Qed.
Lemma shaped_weaken b l : shaped false l → shaped b l.
Proof. intros (ts & tl & -> & [->|[? _]]); [|done]. exists ts, []. auto. Qed.
Lemma shaped_token b s l : shaped false l → shaped b (l ++ [Token s]).
Proof.
  intros (ts & tl & -> & [->|[? _]]); [|done]. exists (ts ++ [s]), []. rewrite map_app, !app_nil_r. auto.
Qed.
Lemma shaped_terminal f e l : shaped false l → shaped true (l ++ [Terminal f e]).
Proof.
  intros (ts & tl & -> & [->|[? _]]); [|done]. exists ts, [Terminal f e]. rewrite app_nil_r. split; [done|right; eauto].
Qed.
Lemma shaped_tail b s l : shaped b (Token s :: l) → shaped b l.
Proof.
  intros (ts & tl & H & Htl). destruct ts as [|s' ts]; simpl in H.
  - destruct Htl as [->|(_ & f & e & ->)]; done.
  - injection H as -> ->. by exists ts, tl.
Qed.
Lemma shaped_last b f e l : shaped b (Terminal f e :: l) → b = true ∧ l = [].
Proof.
  intros (ts & tl & H & Htl). destruct ts as [|s' ts]; simpl in H; [|done].
  destruct Htl as [->|(? & f' & e' & ->)]; [done|]. by injection H as -> -> ->.
Qed.
Lemma shaped_length b l : shaped b l → Z.of_nat (length l) <= Z.of_nat (length (tokens l)) + 1.
Proof.
  intros (ts & tl & -> & Htl). rewrite tokens_app, !length_app, length_map.
  assert (tokens (map Token ts) = ts) as -> by (induction ts; simpl; congruence).
  destruct Htl as [->|(_ & f & e & ->)]; simpl; lia.
Qed.

Lemma stream_inv_init m p now : 0 < m → inv m (init m p now).
Proof. intros Hm. split; simpl; try done; try (unfold buffered; simpl; lia); [apply shaped_nil]. Qed.

(** ** Preservation *)

Lemma items_capacity n c : items (with_capacity n c) = items c.
Proof. done. Qed.
Lemma items_call_done c : items (call_soon FireOnDone c) = items c.
Proof. unfold items. simpl. rewrite puts_app. simpl. by rewrite app_nil_r. Qed.

(** Closes the fields of the invariant a step does not touch. *)
Ltac inv_solve :=
  split; unfold buffered in *; simpl in *;
  rewrite ?items_capacity, ?items_call_done, ?tokens_app, ?length_app in *; simpl in *;
  try done; try lia; auto.

Lemma result_running m x :
  inv m x → closed (view x) = false → ended (at_ (thread x)) = false →
  result (view x) = None ∧ exhausted (view x) = false.
Proof.
  intros I Hc Hp. pose proof (i_result m x I Hc) as H. destruct (result (view x)); [|done].
  destruct H as (_ & Hp' & _). congruence.
Qed.

Lemma inv_local m r x c' w' :
  0 < m → inv m x → ending (at_ (thread x)) = false → (∀ t, at_ (thread x) ≠ OfferToken t) →
  run_step r (chan x) (thread x) = Some (c', w') →
  inv m (Mk (maxsize x) (prompt_tokens x) c' w' (view x)).
Proof.
  intros Hm I He Ho. destruct x as [mm p c [pc bp md] v].
  pose proof (result_running m _ I) as i_result'. destruct I. simpl in *.
  assert (∀ pc' c1 n, c1 = with_capacity n c → ended pc = false → ended pc' = false → pc' ≠ Start →
    n + buffered c + held pc' = m + b2z (closed v) → 0 <= n → buffered c + filling pc' <= m →
    (ending pc' = true → closed v = false → loop_open c = true → buffered c < m) →
    ∀ bp', inv m (Mk mm p c1 (Worker pc' bp' md) v)) as Hgo.
  { intros pc' c1 n -> Hp Hp' Hs H1 H2 H3 H4 bp'. destruct (decide (closed v = false)) as [Hc|Hc].
    - destruct (i_result' Hc Hp) as [Hr Hx]. inv_solve; try congruence; try (by intros ->).
      intros _. by rewrite Hr.
    - inv_solve; try congruence; try (by intros ->). }
  unfold run_step. destruct pc; simpl in *; try done.
  - intros [= <- <-]. destruct r; (eapply (Hgo _ _ (capacity c)); [by destruct c|simpl; try done; try lia..]);
      unfold buffered; rewrite i_start0 by done; simpl; lia.
  - intros [= <- <-]. destruct (cancel c) eqn:Ec.
    + destruct r; (eapply (Hgo _ _ (capacity c)); [by destruct c|simpl; try done; try lia..]); simpl; intros _ H1 H2;
        destruct (i_cancelled0 eq_refl); congruence.
    + eapply (Hgo _ _ (capacity c)); [by destruct c|simpl; try done; try lia..].
  - destruct (Z.ltb_spec 0 (capacity c)); intros [= <- <-].
    + eapply Hgo; [done|simpl; try done; try lia..].
    + eapply (Hgo _ _ (capacity c)); [by destruct c|simpl; try done; try lia..].
  - destruct (Z.ltb_spec 0 (capacity c)); [|done]. intros [= <- <-]. eapply Hgo; [done|simpl; try done; try lia..].
  - destruct (cancel c) eqn:Ec; intros [= <- <-].
    + destruct r; (eapply Hgo; [done|simpl; try done; try lia..]); intros _ H1 H2;
        destruct (i_cancelled0 eq_refl); congruence.
    + eapply (Hgo _ _ (capacity c)); [by destruct c|simpl; try done; try lia..].
      destruct (closed v) eqn:Ev; [by specialize (i_cancel0 eq_refl)|]. simpl in i_slots0. lia.
  - destruct r; intros [= <- <-].
    + eapply (Hgo _ _ (capacity c)); [by destruct c|simpl; try done; try lia..].
    + eapply Hgo; [done|simpl; try done; try lia..].
    + eapply Hgo; [done|simpl; try done; try lia..].
  - by specialize (Ho t0).
Qed.

Lemma inv_offer_token m x t :
  inv m x → at_ (thread x) = OfferToken t →
  inv m (Mk (maxsize x) (prompt_tokens x) (offer (Token t) (chan x))
           (Worker Top (backpressure_waits (thread x)) (made (thread x) ++ [t])) (view x)).
Proof.
  intros I Hp. pose proof (result_running m x I) as Hrun. destruct x as [mm p c [pc bp md] v]. simpl in *. subst pc.
  destruct I. simpl in *. pose proof (items_offer (Token t) c i_lost0) as Hit.
  destruct (offer_frame (Token t) c) as (F1 & F2 & F3 & F4 & F5 & F6 & F7).
  inv_solve; rewrite ?Hit, ?F1, ?F2, ?F3 in *; rewrite ?tokens_app, ?length_app in *; simpl in *; try done; try lia; auto.
  - by rewrite i_made0, app_assoc.
  - intros Hc. destruct (loop_open c) eqn:El; [|by right]. rewrite F4 in Hc by done. by apply i_cancelled0.
  - by apply shaped_token.
  - intros Hc. destruct (Hrun Hc eq_refl) as [-> Hx]. done.
Qed.

Lemma inv_offer_terminal m x f e :
  inv m x → at_ (thread x) = OfferTerminal f e →
  inv m (Mk (maxsize x) (prompt_tokens x) (offer (Terminal f e) (chan x)) (goto OfferDone (thread x)) (view x)).
Proof.
  intros I Hp. pose proof (result_running m x I) as Hrun. destruct x as [mm p c [pc bp md] v]. simpl in *. subst pc.
  destruct I. simpl in *. pose proof (items_offer (Terminal f e) c i_lost0) as Hit.
  destruct (offer_frame (Terminal f e) c) as (F1 & F2 & F3 & F4 & F5 & F6 & F7).
  inv_solve; rewrite ?Hit, ?F1, ?F2, ?F3 in *; rewrite ?tokens_app, ?length_app in *; simpl in *;
    rewrite ?app_nil_r in *; try done; try lia; auto.
  - intros Hc. destruct (loop_open c) eqn:El; [|by right]. rewrite F4 in Hc by done. by apply i_cancelled0.
  - by apply shaped_terminal.
  - intros H1 H2 H3. specialize (i_room0 eq_refl H2 H3). lia.
  - intros _. left. exists f, e. set_solver.
  - intros Hc. destruct (Hrun Hc eq_refl) as [-> Hx]. done.
Qed.

Lemma inv_last_step m x :
  inv m x → at_ (thread x) = OfferDone →
  inv m (Mk (maxsize x) (prompt_tokens x) (if loop_open (chan x) then call_soon FireOnDone (chan x) else chan x)
           (goto Dead (thread x)) (view x)).
Proof.
  intros I Hp. destruct x as [mm p c [pc bp md] v]. simpl in *. subst pc. destruct I. simpl in *.
  destruct (loop_open c) eqn:El; inv_solve; rewrite ?El in *; auto; try done.
  intros _ _. left. set_solver.
Qed.

Lemma inv_thread m r x x' : 0 < m → inv m x → exec (Thread r) x = Some x' → inv m x'.
Proof.
  intros Hm I. simpl. destruct (run_step r (chan x) (thread x)) as [[c' w']|] eqn:E; [|done]. simpl. intros [= <-].
  destruct (ending (at_ (thread x))) eqn:He.
  - unfold run_step in E. destruct (at_ (thread x)) eqn:Ep; try done; injection E as <- <-;
      [by eapply inv_offer_terminal|by apply inv_last_step].
  - destruct (at_ (thread x)) eqn:Ep; try (eapply inv_local; by rewrite ?Ep).
    unfold run_step in E. rewrite Ep in E. injection E as <- <-. by apply inv_offer_token.
Qed.

Lemma shaped_mid b q i l :
  shaped b (q ++ i :: l) → length (tokens q) = length q ∧ shaped b (i :: l).
Proof.
  induction q as [|j q IH]; simpl; [done|]. destruct j as [s|f e].
  - intros H%shaped_tail. destruct (IH H) as [H1 H2]. unfold tokens in *. simpl. by rewrite H1.
  - intros [_ H]%shaped_last. by destruct q.
Qed.

Lemma fire_on_done_calls v :
  calls v = b2z (on_done_fired v) →
  calls (fire_on_done v) = b2z (on_done_fired (fire_on_done v)) ∧ on_done_fired (fire_on_done v) = true.
Proof. intros H. unfold fire_on_done. destruct (on_done_fired v) eqn:E; simpl; rewrite ?E, ?H; done. Qed.
Lemma fire_on_done_frame v :
  let v' := fire_on_done v in
  index v' = index v ∧ parts v' = parts v ∧ result v' = result v ∧ exhausted v' = exhausted v ∧
  closed v' = closed v ∧ getting v' = getting v ∧ out v' = out v ∧ closing v' = closing v.
Proof. unfold fire_on_done. by destruct (on_done_fired v). Qed.

Lemma inv_fire m x : inv m x → inv m (fire x).
Proof.
  intros I. destruct x as [mm p c w v]. destruct I. unfold fire. simpl in *.
  destruct (fire_on_done_calls v i_calls0) as [Hc Hf].
  destruct (fire_on_done_frame v) as (E1 & E2 & E3 & E4 & E5 & E6 & E7 & E8).
  inv_solve; rewrite ?E1, ?E2, ?E3, ?E4, ?E5, ?E6, ?E7, ?E8; auto.
Qed.

Lemma inv_callback m x x' : inv m x → loop_open (chan x) = true → run_callback x = Some x' → inv m x'.
Proof.
  intros I Hl. unfold run_callback. destruct (callbacks (chan x)) as [|b bs] eqn:Ecb; [done|].
  destruct b as [i|]; intros [= <-].
  2: { assert (inv m (fire x)) as J by (by apply inv_fire). destruct x as [mm p c w v]. destruct J. simpl in *.
       assert (items c = items (Channel (queue c) bs (capacity c) (cancel c) (loop_open c) (lost c) (rejected c))) as Hit.
       { unfold items. rewrite Ecb. done. }
       unfold buffered in *. rewrite Hit in *. inv_solve. intros H1 H2. right. by apply fire_on_done_calls, (i_calls _ _ I). }
  destruct x as [mm p c w v]. destruct I. simpl in *. rewrite (i_lost0 Hl) in *.
  assert (items c = queue c ++ i :: puts bs) as Hit.
  { unfold items. rewrite Ecb, i_lost0 by done. simpl. by rewrite app_nil_r. }
  destruct (Z.leb_spec mm (Z.of_nat (length (queue c)))) as [Hfull|Hroom].
  2: { assert (items (Channel (queue c ++ [i]) bs (capacity c) (cancel c) (loop_open c) [] (rejected c)) = items c) as Hit'.
       { rewrite Hit. unfold items. simpl. by rewrite app_nil_r, <- app_assoc. }
       unfold with_queue. inv_solve; rewrite ?Hit'; auto.
       intros H1 H2. destruct (i_done0 H1 H2) as [Hd|Hd]; [|by right]. left. rewrite Ecb in Hd. set_solver. }
  unfold buffered in *. rewrite Hit in *. destruct (shaped_mid _ _ _ _ i_shape0) as [Hq Hs].
  rewrite tokens_app, length_app in *. destruct i as [s|f e].
  { simpl in *. destruct w as [pc0 bp md]. simpl in *. destruct pc0; simpl in *; lia. }
  destruct (shaped_last _ _ _ _ Hs) as [He Hb].
  assert (closed v = true) as Hc.
  { destruct (closed v) eqn:Ec; [done|]. assert (ending (at_ w) = true) as Hw by (by destruct (at_ w)).
    specialize (i_room0 Hw eq_refl Hl). simpl in *. lia. }
  assert (items (Channel (queue c) bs (capacity c) (cancel c) (loop_open c) [] (rejected c ++ [Terminal f e])) = queue c) as Hit'.
  { unfold items. simpl. by rewrite Hb, app_nil_r. }
  rewrite Hb in *. simpl in *. rewrite Nat.add_0_r, ?app_nil_r in *.
  split; unfold buffered; simpl; rewrite ?Hit'; auto; try congruence.
  - intros H1. rewrite H1 in He. done.
  - destruct i_shape0 as (ts & tl & H & [->|(_ & f' & e' & ->)]).
    + exfalso. rewrite app_nil_r in H. apply (f_equal (@length item)) in H as Hlen.
      assert (Terminal f e ∈ map Token ts) as Hin by (rewrite <- H; set_solver).
      apply list_elem_of_fmap in Hin as (? & ? & _). done.
    + apply app_inj_tail in H as [-> _]. exists ts, []. rewrite app_nil_r. auto.
  - intros _. right. right. by destruct (rejected c).
  - intros H1 H2. destruct (i_done0 H1 H2) as [Hd|Hd]; [|by right]. left. rewrite Ecb in Hd. set_solver.
Qed.

Lemma inv_join m x : inv m x → inv m (join x).
Proof. intros I. unfold join. destruct (at_ (thread x)) eqn:Ep; try done. by apply inv_last_step. Qed.

Lemma inv_got m now x i q :
  inv m x → queue (chan x) = i :: q →
  inv m (got i now (with_getting false (Mk (maxsize x) (prompt_tokens x) (with_queue q (chan x)) (thread x) (view x)))).
Proof.
  intros I Hq. assert (items (chan x) = i :: items (with_queue q (chan x))) as Hit by (unfold items; by rewrite Hq).
  destruct i as [s|f e].
  - destruct x as [mm p c w v]. destruct I. simpl in *. unfold buffered in *. rewrite Hit in *. simpl in *.
    inv_solve.
    + by rewrite i_made0, <- app_assoc.
    + intros H. by specialize (i_start0 H).
    + by eapply shaped_tail.
    + intros H1 H2 H3. specialize (i_room0 H1 H2 H3). lia.
    + intros H. destruct (i_terminal0 H) as [(f & e & [?|Ht]%elem_of_cons)|?]; [done|eauto|auto].
    + rewrite i_out0, imap_app, i_index0. simpl. by rewrite Nat.add_0_r.
    + intros Hc. specialize (i_result0 Hc). destruct (result v); [|done].
      destruct i_result0 as (_ & _ & Hm & _). rewrite Hm in i_made0.
      apply (f_equal length) in i_made0. rewrite length_app in i_made0. simpl in i_made0. lia.
  - assert (inv m x) as J by done. destruct x as [mm p c w v]. destruct I. simpl in *.
    unfold buffered in *. rewrite Hit in *. simpl in *. destruct (shaped_last _ _ _ _ i_shape0) as [He Hnil].
    assert (items c = [Terminal f e]) as Hc by congruence.
    set (x1 := set_exhausted (set_result f now (with_getting false (Mk mm p (with_queue q c) w v)))).
    assert (inv m x1) as J1.
    { assert (made w = parts v) as Hm by (rewrite i_made0, Hnil; apply app_nil_r).
      unfold x1, set_result. simpl. destruct (result v) as [r|] eqn:Er;
      inv_solve; unfold items in Hnil |- *; rewrite ?Hnil; try done; simpl; try lia; auto.
      + apply shaped_nil.
      + intros Hcl. specialize (i_result0 Hcl). rewrite Er. destruct i_result0 as [_ ?]. by split.
      + apply shaped_nil. }
    apply inv_fire, inv_join, J1.
Qed.

Lemma inv_get m now x : inv m x → exhausted (view x) = false ∨ getting (view x) = true → inv m (get now x).
Proof.
  intros I H. unfold get. destruct (queue (chan x)) as [|i q] eqn:Hq; [|by apply inv_got].
  destruct I. split; simpl; auto. intros _ Hc. destruct H; auto.
Qed.

Lemma inv_aclose m x : inv m x → inv m (aclose_begin x).
Proof.
  intros I. unfold aclose_begin. destruct (closed (view x)) eqn:Ec; [done|].
  destruct x as [mm p c w v]. destruct I. simpl in *. rewrite Ec in *. simpl in *.
  assert (items (with_capacity (capacity c + 1) (with_cancel c)) = items c) as Hit by done.
  split; unfold buffered in *; simpl; rewrite ?Hit; auto; try lia; done.
Qed.

Lemma inv_aclose_resume m now x : inv m x → closing (view x) = true → closed (view x) = true → inv m (aclose_resume now x).
Proof.
  intros I Hcl Hc.
  assert (inv m (set_exhausted (set_result CANCELLED now x))) as J.
  { destruct x as [mm p c w v]. destruct I. unfold set_result. simpl in *.
    destruct (result v) eqn:Er; split; simpl; rewrite ?Hc; auto; try done; congruence. }
  apply inv_fire in J. unfold aclose_resume. destruct J. by split.
Qed.

Lemma stream_inv_exec m l x x' : 0 < m → inv m x → exec l x = Some x' → inv m x'.
Proof.
  intros Hm I. destruct l as [r| |now|now| | |now b| |]; [by apply inv_thread|..]; simpl.
  8: { intros [= <-]. destruct I. inv_solve. }
  all: destruct (loop_open (chan x)) eqn:Hl; simpl; [|done].
  - by apply inv_callback.
  - destruct (getting (view x)); [done|]. destruct (exhausted (view x)) eqn:Ee; intros [= <-]; [done|].
    apply inv_get; auto.
  - destruct (getting (view x)) eqn:Eg; [|done]. destruct (queue (chan x)); [done|]. intros [= <-].
    apply inv_get; auto.
  - destruct (getting (view x)); [|done]. intros [= <-]. destruct I. by split.
  - intros [= <-]. by apply inv_aclose.
  - destruct (closing (view x)) eqn:Ec; [|done]. destruct (_ || _); [|done]. intros [= <-].
    apply inv_aclose_resume; [done..|]. by apply (i_closing _ _ I).
  - destruct (closing (view x)); [|done]. intros [= <-]. destruct I. by split.
Qed.

Lemma stream_inv_reachable m p now x : 0 < m → reachable m p now x → inv m x.
Proof. intros Hm. induction 1; [by apply stream_inv_init|by eapply stream_inv_exec]. Qed.

(** ** What the stream guarantees *)

Definition numbered (l : list string) : list (string * Z) := imap (fun n s => (s, Z.of_nat n)) l.

(** C10. Nothing is lost, repeated or reordered between the worker and the client.  In every
    interleaving, the chunks the client received are the first tokens the producer made,
    numbered from zero, and the rest is waiting in order; and when the stream ends by
    itself the client has received every token, and the result's text and token count are
    those of all of them. *)
Theorem stream_faithful m p now x :
  0 < m → reachable m p now x →
  out (view x) = numbered (parts (view x)) ∧
  made (thread x) = parts (view x) ++ tokens (items (chan x)) ∧
  (closed (view x) = false → ∀ r, result (view x) = Some r →
     out (view x) = numbered (made (thread x)) ∧ text r = String.concat "" (made (thread x)) ∧
     completion_tokens r = Z.of_nat (length (made (thread x)))).
Proof.
  intros Hm Hx. pose proof (stream_inv_reachable m p now x Hm Hx) as I. split_and!; [apply I|apply I|].
  intros Hc r Hr. pose proof (i_result m x I Hc) as H. rewrite Hr in H.
  destruct H as (_ & _ & -> & -> & ->). split_and!; [apply I|done|done].
Qed.

(** The buffer is bounded and never overflows: at most [maxsize] tokens are between the
    worker and the client at any time, and until the client closes the stream no
    [put_nowait] raises [QueueFull], so the terminal item is delivered too. *)
Theorem stream_bounded m p now x :
  0 < m → reachable m p now x →
  0 <= buffered (chan x) <= m ∧ (closed (view x) = false → rejected (chan x) = []).
Proof.
  intros Hm Hx. pose proof (stream_inv_reachable m p now x Hm Hx) as I. split; [|apply I].
  pose proof (i_fits m x I). assert (0 <= filling (at_ (thread x))) by (destruct (at_ (thread x)); simpl; lia).
  unfold buffered in *. lia.
Qed.

(** The backend is released exactly once: [on_done] is never called twice, and it has
    been called when the worker has ended and the loop has run its callbacks, whether or
    not the client read the stream to the end or closed it. *)
Theorem on_done_once m p now x :
  0 < m → reachable m p now x →
  calls (view x) <= 1 ∧
  (dead x = true → loop_open (chan x) = true → callbacks (chan x) = [] → calls (view x) = 1).
Proof.
  intros Hm Hx. pose proof (stream_inv_reachable m p now x Hm Hx) as I. rewrite (i_calls m x I). split.
  - destruct (on_done_fired (view x)); simpl; lia.
  - intros Hd Hl Hcb. assert (at_ (thread x) = Dead) as Hp by (unfold dead in Hd; by destruct (at_ (thread x))).
    destruct (i_done m x I Hp Hl) as [H|H]; [|by rewrite H]. rewrite Hcb in H. set_solver.
Qed.

(** The worker alone, for a list of producer replies. *)
Definition worker_run (rs : list reply) (x : t) : t :=
  fold_left (fun x r => default x (exec (Thread r) x)) rs x.
Definition rank (p : pc) : nat :=
  match p with
  | Dead => 0 | OfferDone => 1 | OfferTerminal _ _ => 2 | Check | Top => 3
  | TryAcquire | Blocked | OfferToken _ | Start => 4 | Next => 5
  end.

Lemma closed_step m r x :
  0 < m → inv m x → closed (view x) = true → at_ (thread x) ≠ Dead →
  ∃ x', exec (Thread r) x = Some x' ∧ (rank (at_ (thread x')) < rank (at_ (thread x)))%nat ∧ closed (view x') = true.
Proof.
  intros Hm I Hc Hp. pose proof (i_cancel m x I Hc) as Hcan. pose proof (i_slots m x I) as Hs.
  pose proof (i_fits m x I) as Hf. rewrite Hc in Hs. simpl in Hs. simpl. unfold run_step.
  destruct (at_ (thread x)); simpl in *; try done; rewrite ?Hcan;
    try (destruct (Z.ltb_spec 0 (capacity (chan x))); [|lia]); simpl;
    try (eexists; split; [done|]; simpl; split; [|done]; try destruct r; simpl; lia);
    destruct r; simpl; eexists; (split; [done|]); simpl; (split; [lia|done]).
Qed.

(** C11. Closing the stream stops the worker: once [aclose] was called, and whatever the
    producer answers, the worker ends within five of its own steps, and waits for nobody but
    the producer, even if it was blocked on a full queue. *)
Theorem close_stops_worker m p now x rs :
  0 < m → reachable m p now x → closed (view x) = true → (5 <= length rs)%nat →
  dead (worker_run rs x) = true.
Proof.
  intros Hm Hx Hc Hn. apply (stream_inv_reachable m p now x Hm) in Hx as I.
  assert (rank (at_ (thread x)) <= length rs)%nat as Hr by (destruct (at_ (thread x)); simpl; lia).
  clear Hn Hx. revert x Hc I Hr. induction rs as [|r rs IH]; intros x Hc I Hr; simpl in *.
  { unfold dead. destruct (at_ (thread x)); simpl in Hr; lia || done. }
  assert (at_ (thread x) = Dead ∨ at_ (thread x) ≠ Dead) as [Hd|Hd] by (destruct (at_ (thread x)); auto).
  - unfold run_step. rewrite Hd. simpl. apply IH; [done|done|]. rewrite Hd. simpl. lia.
  - destruct (closed_step m r x Hm I Hc Hd) as (x' & E & Hlt & Hc'). simpl in E. rewrite E. simpl.
    apply IH; [done| |lia]. by eapply (stream_inv_exec m (Thread r)).
Qed.

(** A waiting client is always served: while a client that has not closed the stream
    waits for a chunk, the worker can run, a callback is due, or an item is there for it,
    so the two sides never wait for each other. *)
Theorem waiting_client_served m p now x r t' :
  0 < m → reachable m p now x → getting (view x) = true → closed (view x) = false →
  loop_open (chan x) = true →
  is_Some (exec (Thread r) x) ∨ is_Some (exec RunCallback x) ∨ is_Some (exec (GetResume t') x).
Proof.
  intros Hm Hx Hg Hc Hl. apply (stream_inv_reachable m p now x Hm) in Hx as I. simpl. rewrite Hl, Hg. simpl.
  destruct (queue (chan x)) as [|i q] eqn:Hq; [|by right; right].
  unfold run_callback. destruct (callbacks (chan x)) as [|b bs] eqn:Hb; [|by right; left; destruct b].
  assert (items (chan x) = []) as Hi by (unfold items; by rewrite Hq, Hb, (i_lost m x I Hl)).
  left. unfold run_step. pose proof (i_slots m x I) as Hs. rewrite Hc in Hs. unfold buffered in Hs. rewrite Hi in Hs.
  destruct (at_ (thread x)) eqn:Ep; simpl in *; try by eexists.
  - destruct (Z.ltb_spec 0 (capacity (chan x))); by eexists.
  - destruct (Z.ltb_spec 0 (capacity (chan x))); [by eexists|lia].
  - destruct (cancel (chan x)); by eexists.
  - destruct r; by eexists.
  - exfalso. destruct (i_terminal m x I) as [(f & e & H)|[H|H]]; [by rewrite Ep|rewrite Hi in H; set_solver|..].
    + rewrite (i_getting m x I) in H by done. done.
    + by apply H, (i_rejected m x I).
Qed.

(** *** Witnesses *)

(** A queue of one: the worker makes two tokens and blocks on the second slot until the
    client reads. *)
Definition demo_labels : list label :=
  map Thread [Yields ""; Yields ""; Yields ""; Yields ""; Yields "a"; Yields ""; Yields ""; Yields ""] ++
  [RunCallback; Anext 1] ++
  map Thread [Yields ""; Yields ""; Yields "b"; Yields ""] ++
  [Anext 2; RunCallback; GetResume 2] ++
  map Thread [Yields ""; Yields ""; Yields ""; Returns (Some LENGTH); Yields ""] ++ [RunCallback].
Definition demo_end : t := default (init 1 3 0) (run (demo_labels ++ [Anext 3; RunCallback]) (init 1 3 0)).
Lemma demo_end_reachable : reachable 1 3 0 demo_end.
Proof. eapply (stream_run_reachable 1 3 0 (demo_labels ++ [Anext 3; RunCallback])); [apply reach_init|]. vm_compute. reflexivity. Qed.

Lemma stream_faithful_witness :
  result (view demo_end) = Some (Result "ab" LENGTH 3 2) ∧ out (view demo_end) = [("a", 0); ("b", 1)].
Proof.
  split; [vm_compute; reflexivity|].
  destruct (stream_faithful 1 3 0 demo_end ltac:(lia) demo_end_reachable) as [H _].
  refine (eq_trans H _). vm_compute. reflexivity.
Defined.
Lemma stream_bounded_witness : rejected (chan demo_end) = [].
Proof. apply (stream_bounded 1 3 0 demo_end ltac:(lia) demo_end_reachable). vm_compute. reflexivity. Defined.
Lemma on_done_once_witness : calls (view demo_end) = 1.
Proof.
  apply (on_done_once 1 3 0 demo_end ltac:(lia) demo_end_reachable); vm_compute; reflexivity.
Defined.

(** The client leaves while the worker is blocked on the full queue. *)
Definition demo_close : list label :=
  map Thread [Yields ""; Yields ""; Yields ""; Yields ""; Yields "a"; Yields ""; Yields ""; Yields ""] ++ [Aclose].
Definition demo_closed : t := default (init 1 3 0) (run demo_close (init 1 3 0)).
Lemma demo_closed_reachable : reachable 1 3 0 demo_closed.
Proof. eapply (stream_run_reachable 1 3 0 demo_close); [apply reach_init|]. vm_compute. reflexivity. Qed.
Lemma close_stops_worker_witness :
  at_ (thread demo_closed) = Blocked ∧ dead (worker_run (replicate 5 (Yields "z")) demo_closed) = true.
Proof.
  split; [vm_compute; reflexivity|].
  apply (close_stops_worker 1 3 0 demo_closed _ ltac:(lia) demo_closed_reachable); vm_compute; [reflexivity|].
  repeat constructor.
Defined.

Definition demo_waiting : t := default (init 1 3 0) (run [Anext 0] (init 1 3 0)).
Lemma demo_waiting_reachable : reachable 1 3 0 demo_waiting.
Proof. eapply (stream_run_reachable 1 3 0 [Anext 0]); [apply reach_init|]. vm_compute. reflexivity. Qed.
Lemma waiting_client_served_witness :
  is_Some (exec (Thread (Yields "a")) demo_waiting) ∨ is_Some (exec RunCallback demo_waiting) ∨
  is_Some (exec (GetResume 1) demo_waiting).
Proof.
  apply (waiting_client_served 1 3 0 demo_waiting _ _ ltac:(lia) demo_waiting_reachable); vm_compute; reflexivity.
Defined.

(** ** The worker behind a released backend *)

(** [on_done] has only been called, or scheduled, for a worker that has ended. *)
Definition quiet (x : t) : Prop :=
  (on_done_fired (view x) = true → ended (at_ (thread x)) = true) ∧
  (FireOnDone ∈ callbacks (chan x) → ended (at_ (thread x)) = true).

(** The calls of [aclose] whose join gave up. *)
Definition gave_up (l : label) : bool := match l with AcloseResume _ true => true | _ => false end.

Lemma ended_step r c w c' w' :
  run_step r c w = Some (c', w') →
  (ended (at_ w) = true → ended (at_ w') = true) ∧
  (FireOnDone ∈ callbacks c' → FireOnDone ∈ callbacks c ∨ ended (at_ w') = true).
Proof.
  unfold run_step, offer. intros H.
  destruct (at_ w); simpl in *; repeat case_match; simplify_eq; simpl; split; try done; auto;
    intros [?|?]%elem_of_app; set_solver.
Qed.

Lemma quiet_get m now x : inv m x → quiet x → quiet (get now x).
Proof.
  intros I [Q1 Q2]. unfold get. destruct (queue (chan x)) as [|i q] eqn:Hq; [by split|].
  destruct i as [s|f e]; [by split|].
  assert (ended (at_ (thread x)) = true) as He.
  { pose proof (i_shape m x I) as H. unfold items in H. rewrite Hq in H. by apply shaped_last in H as [-> _]. }
  assert (ended (at_ (thread (finish f now (with_getting false
     (Mk (maxsize x) (prompt_tokens x) (with_queue q (chan x)) (thread x) (view x)))))) = true) as Hf; [|by split].
  unfold finish, join, set_result. simpl. destruct (result _); simpl; destruct (at_ (thread x)) eqn:Ep; simpl; congruence.
Qed.

Lemma quiet_exec m l x x' : inv m x → quiet x → gave_up l = false → exec l x = Some x' → quiet x'.
Proof.
  intros I [Q1 Q2] Hg. destruct l as [r| |now|now| | |now b| |]; simpl.
  - destruct (run_step r (chan x) (thread x)) as [[c' w']|] eqn:E; [|done]. simpl. intros [= <-].
    apply ended_step in E as [E1 E2]. split; simpl; [auto|]. intros H. destruct (E2 H); auto.
  - destruct (negb _); [done|]. unfold run_callback. destruct (callbacks (chan x)) as [|b bs] eqn:E; [done|].
    assert (FireOnDone ∈ bs → ended (at_ (thread x)) = true) as Q3 by (intros; apply Q2; set_solver).
    destruct b; intros [= <-]; split; simpl; auto.
    + destruct (_ <=? _); simpl; auto.
    + intros _. apply Q2. set_solver.
  - destruct (negb _); [done|]. destruct (getting _); [done|]. destruct (exhausted _); intros [= <-]; [by split|].
    by apply (quiet_get m).
  - destruct (negb _); [done|]. destruct (getting _); [|done]. destruct (queue _); [done|]. intros [= <-].
    by apply (quiet_get m).
  - destruct (negb _); [done|]. destruct (getting _); [|done]. intros [= <-]. by split.
  - destruct (negb _); [done|]. intros [= <-]. unfold aclose_begin. destruct (closed _); by split.
  - destruct (negb _); [done|]. destruct b; [done|]. rewrite orb_false_r.
    destruct (closing _); [|done]. simpl. unfold dead. destruct (at_ (thread x)) eqn:Ep; try done. intros [= <-].
    unfold quiet, aclose_resume, set_result. simpl. destruct (result _); simpl; by rewrite Ep.
  - destruct (negb _); [done|]. destruct (closing _); [|done]. intros [= <-]. by split.
  - intros [= <-]. by split.
Qed.

End QueueGenerationStream.
