(* ===== verification/Backend.v ===== *)
(** * Backends that generate in a worker thread ([engine/inference/threaded.py])

    [Module ThreadedBackend] is the lifecycle of a local backend: load, unload, generate
    and the callback that ends a generation, over the streams of [Stream.v].  [load] and
    [unload] await an executor, so their calls are pending entries of the state and every
    other operation may run between their halves. *)

From S2P Require Import Prelude Placement Stream.

Open Scope Z_scope.

Module ThreadedBackend.
Import BackendRegistry.

#[global] Instance BackendState_eq_dec : EqDecision BackendState.
Proof. solve_decision. Defined.

(** A suspended call: [load] in [run_in_executor(_load)], [unload] in the [aclose] of
    stream [i], [unload] in [run_in_executor(_unload)]. *)
Inductive call := LoadWait | CloseWait (i : nat) | UnloadWait | Returned.

(** [_active] is the index of a stream; [streams] are all streams ever started. *)
Record t := Mk {
  state : BackendState;
  active : option nat;
  streams : list QueueGenerationStream.t;
  pending : list call
}.
(** [__init__] *)
Definition init : t := Mk UNLOADED None [] [].

Inductive error := BackendBusyError | BackendNotReadyError | ModelLoadError | CountError.

Definition with_state (s : BackendState) (b : t) : t := Mk s (active b) (streams b) (pending b).
Definition with_active (a : option nat) (b : t) : t := Mk (state b) a (streams b) (pending b).
Definition with_stream (i : nat) (x : QueueGenerationStream.t) (b : t) : t := Mk (state b) (active b) (<[i := x]> (streams b)) (pending b).
Definition await (c : call) (b : t) : t := Mk (state b) (active b) (streams b) (pending b ++ [c]).
Definition become (k : nat) (c : call) (b : t) : t := Mk (state b) (active b) (streams b) (<[k := c]> (pending b)).

(** [load] up to its await. *)
Definition load_begin (b : t) : t * result error unit :=
  match state b with
  | READY | GENERATING => (b, Ok ())
  | LOADING => (b, Err BackendBusyError)
  | _ => (await LoadWait (with_state LOADING b), Ok ())
  end.
(** [load] after [_load] returned or raised an [Exception]. *)
Definition load_end (ok : bool) (b : t) : t * result error unit :=
  if ok then (with_state READY b, Ok ()) else (with_state UNLOADED b, Err ModelLoadError).

(** [unload] from the test of the state to its await. *)
Definition unload_rest (b : t) : t * call :=
  if bool_decide (state b = UNLOADED) then (b, Returned) else (b, UnloadWait).
(** [unload] up to its first await: [aclose] of a stream that is closed already returns at once. *)
Definition unload_begin (b : t) : t * call :=
  match active b with
  | None => unload_rest b
  | Some i =>
      match streams b !! i with
      | Some x => if QueueGenerationStream.closed (QueueGenerationStream.view x) then unload_rest (with_active None b)
                  else (with_stream i (QueueGenerationStream.aclose_begin x) b, CloseWait i)
      | None => unload_rest (with_active None b)
      end
  end.

(** [_on_generation_done] *)
Definition on_generation_done (b : t) : t :=
  let b := with_active None b in
  if bool_decide (state b = GENERATING) then with_state READY b else b.

(** [generate]; [prompt_tokens] is what [_count_prompt_tokens] returned, [None] when it raised. *)
Definition generate (prompt_tokens : option Z) (now : Q) (b : t) : t * result error nat :=
  match state b with
  | GENERATING => (b, Err BackendBusyError)
  | READY =>
      match prompt_tokens with
      | None => (b, Err CountError)
      | Some n =>
          let i := length (streams b) in
          (Mk GENERATING (Some i) (streams b ++ [QueueGenerationStream.init 64 n now]) (pending b), Ok i)
      end
  | _ => (b, Err BackendNotReadyError)
  end.

Inductive label :=
| Load
| LoadEnds (k : nat) (ok : bool)
| LoadCancelled (k : nat)
| Unload
| CloseEnds (k : nat)
| UnloadEnds (k : nat)
| Generate (prompt_tokens : option Z) (now : Q)
| Stream (i : nat) (l : QueueGenerationStream.label).

Definition exec (l : label) (b : t) : option t :=
  match l with
  | Load => Some (fst (load_begin b))
  | LoadEnds k ok =>
      match pending b !! k with
      | Some LoadWait => Some (become k Returned (fst (load_end ok b)))
      | _ => None
      end
  | LoadCancelled k => (* [CancelledError] is not an [Exception]: nothing is reset *)
      match pending b !! k with
      | Some LoadWait => Some (become k Returned b)
      | _ => None
      end
  | Unload => let '(b, c) := unload_begin b in Some (await c b)
  | CloseEnds k =>
      match pending b !! k with
      | Some (CloseWait i) =>
          x ← streams b !! i;
          if QueueGenerationStream.closing (QueueGenerationStream.view x) then None
          else let '(b, c) := unload_rest (with_active None b) in Some (become k c b)
      | _ => None
      end
  | UnloadEnds k =>
      match pending b !! k with
      | Some UnloadWait => Some (become k Returned (with_state UNLOADED b))
      | _ => None
      end
  | Generate n now => Some (fst (generate n now b))
  | Stream i l =>
      x ← streams b !! i;
      x' ← QueueGenerationStream.exec l x;
      let b := with_stream i x' b in
      Some (if QueueGenerationStream.calls (QueueGenerationStream.view x) <? QueueGenerationStream.calls (QueueGenerationStream.view x') then on_generation_done b else b)
  end.
Fixpoint run (ls : list label) (b : t) : option t :=
  match ls with [] => Some b | l :: ls => exec l b ≫= run ls end.

(** A stream whose worker may still be inside the model. *)
Definition running (x : QueueGenerationStream.t) : bool := negb (QueueGenerationStream.ended (QueueGenerationStream.at_ (QueueGenerationStream.thread x))).
(** A stream that has not given the backend back. *)
Definition unreleased (x : QueueGenerationStream.t) : bool := negb (QueueGenerationStream.on_done_fired (QueueGenerationStream.view x)).

(** A run without [unload] in which no join gives up. *)
Definition orderly (l : label) : Prop :=
  match l with Unload => False | Stream _ l => QueueGenerationStream.gave_up l = false | _ => True end.

Record single (b : t) : Prop := Single {
  s_inv : Forall (fun x => QueueGenerationStream.inv 64 x ∧ QueueGenerationStream.quiet x) (streams b);
  s_busy : state b = GENERATING →
           ∃ i, (∀ x, streams b !! i = Some x → unreleased x = true) ∧ (i < length (streams b))%nat ∧
                ∀ j x, streams b !! j = Some x → unreleased x = true → j = i;
  s_idle : state b ≠ GENERATING → ∀ j x, streams b !! j = Some x → unreleased x = false;
  s_loading : LoadWait ∈ pending b → state b = LOADING;
  s_one : ∀ k1 k2, pending b !! k1 = Some LoadWait → pending b !! k2 = Some LoadWait → k1 = k2;
  s_calls : ∀ c, c ∈ pending b → c = LoadWait ∨ c = Returned
}.

Lemma pending_become k b d j :
  pending (become k Returned b) !! j = Some d → (j = k ∧ d = Returned) ∨ (j ≠ k ∧ pending b !! j = Some d).
Proof.
  simpl. destruct (decide (k = j)) as [->|Hne].
  - intros H. left. split; [done|]. pose proof (lookup_lt_Some _ _ _ H) as Hl. rewrite length_insert in Hl.
    rewrite list_lookup_insert_eq in H by done. congruence.
  - rewrite list_lookup_insert_ne by done. auto.
Qed.

(** A load ends, or is abandoned. *)
Lemma single_load_over k s b :
  single b → pending b !! k = Some LoadWait → s ≠ GENERATING → single (become k Returned (with_state s b)).
Proof.
  intros [I1 I2 I3 I4 I5 I6] Hk Hs.
  assert (state b = LOADING) as Hl by (by eapply I4, list_elem_of_lookup_2).
  split.
  - done.
  - done.
  - intros _ j x Hj. eapply I3; [by rewrite Hl|done].
  - intros [j Hj]%list_elem_of_lookup. apply pending_become in Hj as [[_ ?]|[Hne Hj]]; [done|].
    by destruct Hne, (I5 j k).
  - intros k1 k2 [[_ ?]|[_ H1]]%pending_become [[_ ?]|[_ H2]]%pending_become; try done. by apply I5.
  - intros c [j Hj]%list_elem_of_lookup. apply pending_become in Hj as [[_ ->]|[_ Hj]]; [auto|].
    by eapply I6, list_elem_of_lookup_2.
Qed.

(** [on_done] is not taken back. *)
Lemma fired_stays l x x' :
  QueueGenerationStream.exec l x = Some x' → QueueGenerationStream.on_done_fired (QueueGenerationStream.view x) = true → QueueGenerationStream.on_done_fired (QueueGenerationStream.view x') = true.
Proof.
  assert (∀ v, QueueGenerationStream.on_done_fired (QueueGenerationStream.fire_on_done v) = true) as Hf.
  { intros v. unfold QueueGenerationStream.fire_on_done. by destruct (QueueGenerationStream.on_done_fired v) eqn:E. }
  assert (∀ now y, QueueGenerationStream.on_done_fired (QueueGenerationStream.view y) = true → QueueGenerationStream.on_done_fired (QueueGenerationStream.view (QueueGenerationStream.get now y)) = true) as Hget.
  { intros now y H. unfold QueueGenerationStream.get. destruct (QueueGenerationStream.queue (QueueGenerationStream.chan y)) as [|[s|f e] q]; [done..|].
    unfold QueueGenerationStream.got, QueueGenerationStream.finish, QueueGenerationStream.fire. simpl. apply Hf. }
  intros E H. destruct l; simpl in E.
  - destruct (QueueGenerationStream.run_step _ _ _) as [[]|]; simpl in E; by simplify_eq.
  - destruct (negb _); [done|]. unfold QueueGenerationStream.run_callback in E. repeat case_match; simplify_eq; simpl; auto.
  - destruct (negb _); [done|]. repeat case_match; simplify_eq; auto.
  - destruct (negb _); [done|]. repeat case_match; simplify_eq; auto.
  - destruct (negb _); [done|]. repeat case_match; simplify_eq; auto.
  - destruct (negb _); [done|]. simplify_eq. unfold QueueGenerationStream.aclose_begin. by case_match.
  - destruct (negb _); [done|]. case_match; simplify_eq. simpl. apply Hf.
  - destruct (negb _); [done|]. case_match; by simplify_eq.
  - by simplify_eq.
Qed.

Lemma fired_calls l x x' :
  QueueGenerationStream.inv 64 x → QueueGenerationStream.inv 64 x' → QueueGenerationStream.exec l x = Some x' →
  (if QueueGenerationStream.calls (QueueGenerationStream.view x) <? QueueGenerationStream.calls (QueueGenerationStream.view x') then unreleased x = true ∧ unreleased x' = false
   else unreleased x' = unreleased x).
Proof.
  intros I I' E. pose proof (fired_stays l x x' E) as Hm. rewrite (QueueGenerationStream.i_calls _ _ I), (QueueGenerationStream.i_calls _ _ I'). unfold unreleased.
  destruct (QueueGenerationStream.on_done_fired (QueueGenerationStream.view x)), (QueueGenerationStream.on_done_fired (QueueGenerationStream.view x')); try done. by specialize (Hm eq_refl).
Qed.

Lemma single_stream i l b b' :
  single b → QueueGenerationStream.gave_up l = false → exec (Stream i l) b = Some b' → single b'.
Proof.
  intros [I1 I2 I3 I4 I5 I6] Hg. simpl. destruct (streams b !! i) as [x|] eqn:Hi; [|done]. simpl.
  destruct (QueueGenerationStream.exec l x) as [x'|] eqn:E; [|done]. simpl. intros [= <-].
  destruct (Forall_lookup_1 _ _ _ _ I1 Hi) as [J Qx].
  assert (QueueGenerationStream.inv 64 x') as J' by (eapply QueueGenerationStream.stream_inv_exec; [lia|exact J|done]).
  pose proof (QueueGenerationStream.quiet_exec 64 l x x' J Qx Hg E) as Qx'.
  assert (Forall (fun x => QueueGenerationStream.inv 64 x ∧ QueueGenerationStream.quiet x) (<[i := x']> (streams b))) as F by (by apply Forall_insert).
  pose proof (fired_calls l x x' J J' E) as Hf.
  assert (∀ j y, <[i := x']> (streams b) !! j = Some y → j = i ∧ y = x' ∨ j ≠ i ∧ streams b !! j = Some y) as Hlook.
  { intros j y. destruct (decide (i = j)) as [->|Hne].
    - rewrite list_lookup_insert_eq by (by eapply lookup_lt_Some). intros [= ->]. auto.
    - rewrite list_lookup_insert_ne by done. auto. }
  destruct (QueueGenerationStream.calls (QueueGenerationStream.view x) <? QueueGenerationStream.calls (QueueGenerationStream.view x')).
  - destruct Hf as [Hx Hx'].
    assert (state b = GENERATING) as Hb.
    { destruct (decide (state b = GENERATING)) as [|Hn]; [done|]. specialize (I3 Hn i x Hi). congruence. }
    destruct (I2 Hb) as (i0 & _ & _ & Huniq). assert (i = i0) as <- by (by eapply Huniq).
    unfold on_generation_done. simpl. rewrite bool_decide_true by done.
    split; simpl; try done.
    + intros _ j y Hj. destruct (Hlook j y Hj) as [[-> ->]|[Hne Hy]]; [done|].
      destruct (unreleased y) eqn:Ey; [|done]. by destruct Hne, (Huniq j y).
    + intros H. specialize (I4 H). congruence.
  - split; simpl; try done.
    + intros Hb. destruct (I2 Hb) as (i0 & H1 & H2 & H3). exists i0. rewrite length_insert. split_and!; [|done|].
      * intros y Hy. destruct (Hlook i0 y Hy) as [[-> ->]|[_ Hy']]; [|by apply H1]. rewrite Hf. by apply H1.
      * intros j y Hj Hu. destruct (Hlook j y Hj) as [[-> ->]|[_ Hy]]; [|by eapply H3]. eapply H3; [exact Hi|congruence].
    + intros Hn j y Hj. destruct (Hlook j y Hj) as [[-> ->]|[_ Hy]]; [|by eapply I3].
      rewrite Hf. by eapply I3.
Qed.

Lemma single_load b :
  single b → state b ≠ LOADING → state b ≠ GENERATING → single (await LoadWait (with_state LOADING b)).
Proof.
  intros [I1 I2 I3 I4 I5 I6] H1 H2. assert (LoadWait ∉ pending b) as Hn by (intros H; by apply I4 in H).
  split; simpl; try done.
  - intros _. by apply I3.
  - assert (∀ k, (pending b ++ [LoadWait]) !! k = Some LoadWait → k = length (pending b)) as Hk.
    { intros k [Hk|[Hle Hk]]%lookup_app_Some; [by apply list_elem_of_lookup_2 in Hk|].
      apply list_lookup_singleton_Some in Hk as [Hk _]. lia. }
    intros k1 k2 ->%Hk ->%Hk. done.
  - intros c [Hc|Hc%list_elem_of_singleton]%elem_of_app; [by apply I6|auto].
Qed.

Lemma single_exec l b b' : single b → orderly l → exec l b = Some b' → single b'.
Proof.
  intros I Ho. destruct l as [|k ok|k| |k|k|n now|i l]; try done; simpl.
  - intros [= <-]. unfold load_begin. destruct (state b) eqn:Es; try done; apply single_load; by rewrite ?Es.
  - destruct (pending b !! k) as [[]|] eqn:Hk; try done. intros [= <-].
    unfold load_end. destruct ok; by apply single_load_over.
  - destruct (pending b !! k) as [[]|] eqn:Hk; try done. intros [= <-].
    assert (state b = LOADING) as Hl by (by eapply (s_loading b I), list_elem_of_lookup_2).
    destruct b as [st a ss pd]. simpl in Hl. subst st. by apply (single_load_over k LOADING (Mk LOADING a ss pd)).
  - destruct (pending b !! k) as [c|] eqn:Hk; [|done]. apply list_elem_of_lookup_2 in Hk.
    by destruct (s_calls b I c Hk) as [->| ->].
  - destruct (pending b !! k) as [c|] eqn:Hk; [|done]. apply list_elem_of_lookup_2 in Hk.
    by destruct (s_calls b I c Hk) as [->| ->].
  - intros [= <-]. unfold generate. destruct (state b) eqn:Es; try done. destruct n as [n|]; [|done]. simpl.
    destruct I as [I1 I2 I3 I4 I5 I6]. split; simpl; try done.
    + apply Forall_app. split; [done|]. constructor; [|done]. split; [by apply QueueGenerationStream.stream_inv_init|].
      split; simpl; [done|set_solver].
    + intros _. exists (length (streams b)). rewrite length_app. simpl. split_and!; [|lia|].
      * intros x. rewrite lookup_app_r, Nat.sub_diag by lia. simpl. by intros [= <-].
      * intros j x Hj Hu. apply lookup_app_Some in Hj as [Hj|[Hle Hj]].
        -- rewrite (I3 ltac:(by rewrite Es) j x Hj) in Hu. done.
        -- apply list_lookup_singleton_Some in Hj as [Hj _]. lia.
    + intros H. specialize (I4 H). congruence.
  - by apply single_stream.
Qed.

Lemma single_run ls b b' : single b → Forall orderly ls → run ls b = Some b' → single b'.
Proof.
  intros I H. revert b I. induction H as [|l ls Hl _ IH]; intros b I; simpl; [by intros [= <-]|].
  destruct (exec l b) as [b1|] eqn:E; [|done]. simpl. apply IH. by eapply single_exec.
Qed.
Lemma single_init : single init.
Proof. split; simpl; try done; set_solver. Qed.

(** C12. One generation at a time: without a concurrent [unload], and as long as no join
    gives up, at most one worker is ever inside the model; while one is, the backend is
    [GENERATING] and refuses another with [BackendBusyError]; and as soon as every stream
    has been released the backend is not busy any more. *)
Theorem single_generation ls b :
  Forall orderly ls → run ls init = Some b →
  (∀ i j x y, streams b !! i = Some x → streams b !! j = Some y → running x = true → running y = true → i = j) ∧
  (∀ i x n now, streams b !! i = Some x → running x = true → generate n now b = (b, Err BackendBusyError)) ∧
  (Forall (fun x => unreleased x = false) (streams b) → state b ≠ GENERATING).
Proof.
  intros Hl Hr. pose proof (single_run ls init b single_init Hl Hr) as [I1 I2 I3 I4 I5 I6].
  assert (∀ i x, streams b !! i = Some x → running x = true → unreleased x = true) as Hru.
  { intros i x Hi. destruct (Forall_lookup_1 _ _ _ _ I1 Hi) as [_ [H _]]. unfold running, unreleased.
    destruct (QueueGenerationStream.on_done_fired (QueueGenerationStream.view x)); [|done]. by rewrite H. }
  assert (∀ i x, streams b !! i = Some x → running x = true → state b = GENERATING) as Hgen.
  { intros i x Hi Hx. destruct (decide (state b = GENERATING)) as [|Hn]; [done|].
    specialize (I3 Hn i x Hi). rewrite (Hru i x Hi Hx) in I3. done. }
  split_and!.
  - intros i j x y Hi Hj Hx Hy. destruct (I2 (Hgen i x Hi Hx)) as (i0 & _ & _ & Hu).
    rewrite (Hu i x Hi (Hru i x Hi Hx)), (Hu j y Hj (Hru j y Hj Hy)). done.
  - intros i x n now Hi Hx. unfold generate. by rewrite (Hgen i x Hi Hx).
  - intros HF Hs. destruct (I2 Hs) as (i & H1 & Hlen & _).
    destruct (lookup_lt_is_Some_2 (streams b) i Hlen) as [x Hx].
    specialize (H1 x Hx). rewrite (Forall_lookup_1 _ _ _ _ HF Hx) in H1. done.
Qed.

Definition loaded : list label := [Load; LoadEnds 0 true].

Lemma single_generation_witness :
  ∃ b, run (loaded ++ [Generate (Some 3) 0; Stream 0 (QueueGenerationStream.Thread (QueueGenerationStream.Yields "a"))]) init = Some b ∧
       generate (Some 4) 1 b = (b, Err BackendBusyError).
Proof.
  eexists. split; [vm_compute; reflexivity|].
  eapply (proj1 (proj2 (single_generation
    (loaded ++ [Generate (Some 3) 0; Stream 0 (QueueGenerationStream.Thread (QueueGenerationStream.Yields "a"))]) _ _ _)) 0%nat).
  - reflexivity.
  - reflexivity.
  Unshelve.
  + repeat constructor.
  + vm_compute. reflexivity.
Defined.

(** ** Where the guarantee ends *)

(** [unload] does not keep generations out: it leaves the state [READY] while
    [_unload] runs in the executor, so a request that arrives meanwhile starts a worker on
    the model being freed, and still runs when the backend has become [UNLOADED]. *)
Theorem generate_during_unload :
  ∃ b b', run (loaded ++ [Unload; Generate (Some 3) 0]) init = Some b ∧
    pending b = [Returned; UnloadWait] ∧ state b = GENERATING ∧
    run [UnloadEnds 1; Stream 0 (QueueGenerationStream.Thread (QueueGenerationStream.Yields "a"))] b = Some b' ∧
    state b' = UNLOADED ∧ existsb running (streams b') = true.
Proof. do 2 eexists. split; [vm_compute; reflexivity|]. split; [done|]. split; [done|]. split; [vm_compute; reflexivity|]. by split. Qed.

(** A join that gives up after five seconds releases the backend all the same: the
    client closes while the worker is inside a long call of the model, the backend becomes
    [READY], and the next request puts a second worker into the same model. *)
Theorem join_timeout_overlaps :
  ∃ b, run (loaded ++ [Generate (Some 3) 0] ++
            map (fun r => Stream 0 (QueueGenerationStream.Thread r)) (replicate 4 (QueueGenerationStream.Yields "a")) ++
            [Stream 0 QueueGenerationStream.Aclose; Stream 0 (QueueGenerationStream.AcloseResume 5 true); Generate (Some 3) 6]) init = Some b ∧
    map running (streams b) = [true; true].
Proof. eexists. split; [vm_compute; reflexivity|]. by vm_compute. Qed.

(** A [load] whose task is cancelled leaves the backend [LOADING]: later loads are refused
    as busy although none is in progress. *)
Lemma cancelled_load_sticks :
  ∃ b, run [Load; LoadCancelled 0] init = Some b ∧ pending b = [Returned] ∧
       load_begin b = (b, Err BackendBusyError).
Proof. eexists. split; [vm_compute; reflexivity|]. by split. Qed.

End ThreadedBackend.
