(* ===== verification/Requests.v ===== *)
(** * Generation requests: the internal type and the two dialects

    [Module GenerationRequest] is the request of [engine/inference/types.py] with its
    validators; [Module OpenAISchema] and [Module AnthropicSchema] are the request bodies of
    [engine/api/schemas/openai.py] and [schemas/anthropic.py] with their field constraints
    and validators, and the translation of [api/openai_router.py] and
    [api/anthropic_router.py] onto the internal request.  A body is what pydantic's parser
    hands to the validators: typed fields, with JSON values where the schema says [Any]. *)

From S2P Require Import Prelude Crypto Text.

Open Scope Z_scope.

(** [Field(ge=..., le=...)] *)
Definition between (lo hi q : Q) : bool := bool_decide (lo <= q)%Q && bool_decide (q <= hi)%Q.
Lemma between_weaken a b c d q : (c <= a)%Q → (b <= d)%Q → between a b q = true → between c d q = true.
Proof.
  intros H1 H2 [H3%bool_decide_eq_true H4%bool_decide_eq_true]%andb_true_iff. unfold between.
  rewrite (bool_decide_true (c <= q)%Q), (bool_decide_true (q <= d)%Q) by lra. done.
Qed.
Definition between_Z (lo hi z : Z) : bool := (lo <=? z) && (z <=? hi).
Definition opt_all {A} (p : A → bool) (o : option A) : bool := match o with Some a => p a | None => true end.

Module GenerationRequest.

(** The roles of [Message]. *)
Inductive Role := system | user | assistant.
#[export] Instance Role_eq_dec : EqDecision Role.
Proof. solve_decision. Defined.
Definition role_str (r : Role) : string :=
  match r with system => "system" | user => "user" | assistant => "assistant" end.
Record Message := Msg { role : Role; content : string }.

Record t := Req {
  prompt : option string;
  messages : option (list Message);
  request_id : string;
  max_tokens : option Z;
  temperature : Q;
  top_p : Q;
  top_k : Z;
  seed : option Z;
  stop : list string;
  min_p : Q;
  repeat_penalty : Q;
  presence_penalty : Q;
  frequency_penalty : Q;
  mirostat_mode : Z;
  mirostat_tau : Q;
  mirostat_eta : Q;
  grammar : option string;
  json_schema : option Json.t;
  json_object : bool
}.

(** The constraints of the fields; [json_schema] must be an object. *)
Definition fields_ok (r : t) : bool :=
  opt_all (between_Z 1 32768) (max_tokens r)
  && between 0 2 (temperature r) && between 0 1 (top_p r) && (0 <=? top_k r)
  && between 0 1 (min_p r) && between 0 2 (repeat_penalty r)
  && between (-2) 2 (presence_penalty r) && between (-2) 2 (frequency_penalty r)
  && between_Z 0 2 (mirostat_mode r) && bool_decide (0 <= mirostat_tau r)%Q && bool_decide (0 <= mirostat_eta r)%Q
  && opt_all (fun j => match j with Json.JObj _ => true | _ => false end) (json_schema r).
(** [_exactly_one_input] *)
Definition exactly_one_input (r : t) : bool :=
  let has_prompt := bool_decide (is_Some (prompt r)) in
  let has_messages := match messages r with Some (_ :: _) => true | _ => false end in
  negb (Bool.eqb has_prompt has_messages).
(** [_one_structured_mode] *)
Definition one_structured_mode (r : t) : bool :=
  let n (b : bool) := if b then 1 else 0 in
  n (bool_decide (is_Some (grammar r))) + n (bool_decide (is_Some (json_schema r))) + n (json_object r) <=? 1.

(** The constructor: [None] is pydantic's [ValidationError]. *)
Definition validate (r : t) : option t :=
  if fields_ok r && exactly_one_input r && one_structured_mode r then Some r else None.

Definition wants_structured_output (r : t) : bool :=
  bool_decide (is_Some (grammar r)) || bool_decide (is_Some (json_schema r)) || json_object r.
Definition is_chat (r : t) : bool := bool_decide (is_Some (messages r)).
Definition newline : string := String (Crypto.char 10) "".
Definition prompt_text (r : t) : string :=
  match prompt r with
  | Some p => p
  | None => Text.join newline (map content (default [] (messages r)))
  end.

End GenerationRequest.

Module OpenAISchema.
Import GenerationRequest.

(** [stop]: a text or a list of texts. *)
Inductive stops := StopText (s : string) | StopList (l : list string).

Record ChatCompletionRequest := Chat {
  model : string;
  c_messages : list Message;
  stream : bool;
  c_max_tokens : option Z;
  max_completion_tokens : option Z;
  c_temperature : Q;
  c_top_p : Q;
  c_frequency_penalty : Q;
  c_presence_penalty : Q;
  c_stop : option stops;
  c_seed : option Z;
  n : Z;
  tools : option (list Json.t);
  functions : option (list Json.t);
  response_format : option Json.t        (* an object *)
}.

(** [v.get("type")] is one of the supported types, or missing, or null. *)
Definition format_type (v : Json.t) : option (option Json.t) := Json.get "type" v.
Definition supported_type (v : option Json.t) : bool :=
  match v with
  | None | Some Json.JNull => true
  | Some (Json.JStr s) => bool_decide (s ∈ ["text"; "json_object"; "json_schema"])
  | Some _ => false
  end.
Definition validate_response_format (v : option Json.t) : bool :=
  match v with
  | None => true
  | Some v => match format_type v with Some ty => supported_type ty | None => false end
  end.
Definition reject_tools (v : option (list Json.t)) : bool :=
  match v with Some (_ :: _) => false | _ => true end.

(** The field constraints and validators; [false] is a 400. *)
Definition valid (b : ChatCompletionRequest) : bool :=
  negb (bool_decide (c_messages b = []%list))
  && opt_all (between_Z 1 32768) (c_max_tokens b) && opt_all (between_Z 1 32768) (max_completion_tokens b)
  && between 0 2 (c_temperature b) && between 0 1 (c_top_p b)
  && between (-2) 2 (c_frequency_penalty b) && between (-2) 2 (c_presence_penalty b)
  && (1 <=? n b) && (n b =? 1) && reject_tools (tools b) && reject_tools (functions b)
  && validate_response_format (response_format b).

(** [max_completion_tokens or max_tokens] *)
Definition effective_max_tokens (b : ChatCompletionRequest) : option Z :=
  match max_completion_tokens b with
  | Some z => if z =? 0 then c_max_tokens b else Some z
  | None => c_max_tokens b
  end.
(** [_normalize_stop], then [stop_list] *)
Definition stop_list (b : ChatCompletionRequest) : list string :=
  match c_stop b with
  | None => []
  | Some (StopText s) => [s]
  | Some (StopList l) => l
  end.

Inductive mode := none | json_object_mode | json_schema_mode.
#[export] Instance mode_eq_dec : EqDecision mode.
Proof. solve_decision. Defined.
(** [structured_output] *)
Definition structured_output (b : ChatCompletionRequest) : mode * option Json.t :=
  match response_format b with
  | None => (none, None)
  | Some rf =>
      if negb (Json.truthy rf) then (none, None)
      else match default None (Json.get "type" rf) with
           | None | Some Json.JNull => (none, None)
           | Some ty =>
               if Json.eq_str ty "text" then (none, None)
               else if Json.eq_str ty "json_object" then (json_object_mode, None)
               else
                 match default None (Json.get "json_schema" rf) with
                 | Some nested =>
                     if Json.truthy nested then (json_schema_mode, default None (Json.get "schema" nested))
                     else (json_schema_mode, None)
                 | None => (json_schema_mode, None)
                 end
           end
  end.

(** [dict.get] answers [None] for a null. *)
Definition not_null (v : option Json.t) : option Json.t := match v with Some Json.JNull => None | v => v end.
Definition schema_true (v : option Json.t) : bool := match v with Some j => Json.truthy j | None => false end.

(** The errors [chat_completions] raises before it builds the request, and the escape of a
    [ValidationError] from the internal constructor. *)
Inductive refusal := ModelNotFound | StructuredOutputDisabled | EmptySchema | InternalValidationError.

(** [chat_completions] up to [start_generation]: the internal request. *)
Definition translate (known_model : string → bool) (allow_structured_output : bool) (request_id : string)
    (b : ChatCompletionRequest) : result refusal t :=
  if negb (known_model (model b)) then Err ModelNotFound
  else
    let '(m, schema) := structured_output b in
    if negb (bool_decide (m = none)) && negb allow_structured_output then Err StructuredOutputDisabled
    else if bool_decide (m = json_schema_mode) && negb (schema_true schema) then Err EmptySchema
    else
      match validate (Req None (Some (c_messages b)) request_id (effective_max_tokens b) (c_temperature b)
              (c_top_p b) 40 (c_seed b) (stop_list b) 0 1 (c_presence_penalty b) (c_frequency_penalty b)
              0 5 (1 # 10) None (if bool_decide (m = json_schema_mode) then not_null schema else None)
              (bool_decide (m = json_object_mode))) with
      | Some r => Ok r
      | None => Err InternalValidationError
      end.
Definition prompt_text (b : ChatCompletionRequest) : string := Text.join newline (map content (c_messages b)).

(** Splits a conjunction of tests. *)
Ltac split_tests H :=
  repeat match type of H with _ && _ = true => let H' := fresh "T" in apply andb_true_iff in H as [H H'] end.

Lemma effective_ok b : valid b = true → opt_all (between_Z 1 32768) (effective_max_tokens b) = true.
Proof.
  intros H. unfold valid in H. split_tests H. unfold effective_max_tokens.
  destruct (max_completion_tokens b) as [z|]; [|done]. by destruct (z =? 0).
Qed.

(** A limit of zero is refused, so the first limit given is the one that counts. *)
Lemma effective_kept b :
  valid b = true →
  effective_max_tokens b = match max_completion_tokens b with Some z => Some z | None => c_max_tokens b end.
Proof.
  intros H. unfold valid in H. split_tests H. unfold effective_max_tokens.
  destruct (max_completion_tokens b) as [z|]; [|done]. destruct (Z.eqb_spec z 0) as [->|]; done.
Qed.

(** The body asks for the output format [ty], and for the schema [sch]. *)
Definition asks (ty : string) (b : ChatCompletionRequest) : Prop :=
  ∃ rf, response_format b = Some rf ∧ Json.get "type" rf = Some (Some (Json.JStr ty)).
Definition asks_schema (sch : Json.t) (b : ChatCompletionRequest) : Prop :=
  ∃ rf nested, response_format b = Some rf ∧ Json.get "type" rf = Some (Some (Json.JStr "json_schema")) ∧
    Json.get "json_schema" rf = Some (Some nested) ∧ Json.get "schema" nested = Some (Some sch).

Lemma get_truthy k v j : Json.get k v = Some (Some j) → Json.truthy v = true.
Proof. destruct v as [| | | | |[|]]; done. Qed.

(** What [structured_output] answers, read off the body. *)
Lemma structured_output_asks b m sc :
  valid b = true → structured_output b = (m, sc) →
  (m = json_object_mode ↔ asks "json_object" b) ∧ (m = json_schema_mode ↔ asks "json_schema" b) ∧
  (∀ sch, m = json_schema_mode → sc = Some sch ↔ asks_schema sch b).
Proof.
  intros H. unfold valid in H. split_tests H. unfold structured_output, asks, asks_schema.
  destruct (response_format b) as [rf|]; [|intros [= <- <-]; naive_solver].
  match goal with T : validate_response_format _ = true |- _ => unfold validate_response_format, format_type in T end.
  match goal with T : match Json.get _ _ with Some _ => _ | None => _ end = true |- _ => clear -T; rename T into Hv end.
  destruct (Json.get "type" rf) as [ty|] eqn:Et; [|done]. cbn [default from_option id].
  destruct (Json.truthy rf) eqn:Er; cbn [negb].
  2: { destruct ty as [j|]; [apply get_truthy in Et; congruence|]. intros [= <- <-]. naive_solver. }
  destruct ty as [[| | |s| |]|]; try done; try (intros [= <- <-]; naive_solver). cbn [Json.eq_str].
  destruct (bool_decide_reflect (s = "text")) as [->|Ht]; [intros [= <- <-]; naive_solver|].
  destruct (bool_decide_reflect (s = "json_object")) as [->|Ho]; [intros [= <- <-]; naive_solver|].
  assert (s = "json_schema") as -> by (apply bool_decide_eq_true in Hv; set_solver). clear Hv Ht Ho.
  destruct (Json.get "json_schema" rf) as [[nested|]|] eqn:En; cbn [default from_option id];
    [|intros [= <- <-]; naive_solver..].
  assert (∀ sch, (∃ rf' n, Some rf = Some rf' ∧ Json.get "type" rf' = Some (Some (Json.JStr "json_schema")) ∧
    Json.get "json_schema" rf' = Some (Some n) ∧ Json.get "schema" n = Some (Some sch)) ↔
    Json.get "schema" nested = Some (Some sch)) as Hsch.
  { intros sch. split; [|by exists rf, nested]. intros (rf' & n & [= <-] & _ & Hn & ?). congruence. }
  destruct (Json.truthy nested) eqn:Ht; intros [= <- <-]; (split_and!; [naive_solver|naive_solver|]); intros sch _;
    rewrite Hsch.
  - destruct (Json.get "schema" nested) as [[j|]|]; cbn [default from_option id]; split; congruence.
  - split; [done|]. intros Hn%get_truthy. congruence.
Qed.


End OpenAISchema.

Module AnthropicSchema.
Import GenerationRequest.

(** [content] and [system]: a text or a list of objects. *)
Inductive value := VText (s : string) | VBlocks (l : list Json.t).

(** The text of one block; [None] is the [ValueError] of a block that is no text. *)
Definition block_text (b : Json.t) : option string :=
  match b with
  | Json.JObj _ =>
      match default None (Json.get "type" b) with
      | Some ty => if Json.eq_str ty "text" then
                     Some (match default None (Json.get "text" b) with Some v => Json.str v | None => "" end)
                   else None
      | None => None
      end
  | _ => None
  end.
Fixpoint blocks_text (l : list Json.t) : option string :=
  match l with
  | [] => Some ""
  | b :: l' => t ← block_text b; r ← blocks_text l'; Some (t +:+ r)
  end.
(** [_extract_text] *)
Definition extract_text (v : value) : option string :=
  match v with VText s => Some s | VBlocks l => blocks_text l end.

(** The role is user or assistant. *)
Record AnthropicMessage := AMsg { from_user : bool; a_content : value }.

Record MessagesRequest := Msgs {
  model : string;
  a_messages : list AnthropicMessage;
  a_system : option value;
  a_max_tokens : Z;
  a_temperature : Q;
  a_top_p : Q;
  a_top_k : Z;
  stop_sequences : list string;
  stream : bool;
  tools : option (list Json.t);
  tool_choice : option Json.t           (* an object *)
}.

Definition valid (b : MessagesRequest) : bool :=
  negb (bool_decide (length (a_messages b) = 0%nat))
  && forallb (fun m => bool_decide (is_Some (extract_text (a_content m)))) (a_messages b)
  && opt_all (fun v => bool_decide (is_Some (extract_text v))) (a_system b)
  && between_Z 1 32768 (a_max_tokens b) && between 0 1 (a_temperature b) && between 0 1 (a_top_p b)
  && (0 <=? a_top_k b)
  && OpenAISchema.reject_tools (tools b) && opt_all (fun v => negb (Json.truthy v)) (tool_choice b).

(** [to_internal_messages]; [None] when [_extract_text] raises. *)
Fixpoint internal_messages (l : list AnthropicMessage) : option (list Message) :=
  match l with
  | [] => Some []
  | m :: l' => t ← extract_text (a_content m);
               r ← internal_messages l';
               Some (Msg (if from_user m then user else assistant) t :: r)
  end.
Definition to_internal_messages (b : MessagesRequest) : option (list Message) :=
  sys ← match a_system b with None => Some None | Some v => t ← extract_text v; Some (Some t) end;
  ms ← internal_messages (a_messages b);
  Some (match sys with Some t => if str_true t then Msg system t :: ms else ms | None => ms end).
Definition prompt_text (b : MessagesRequest) : option string :=
  ms ← to_internal_messages b; Some (Text.join newline (map content ms)).

Inductive refusal := ModelNotFound | InternalError.
(** [messages] up to [start_generation]. *)
Definition translate (known_model : string → bool) (request_id : string) (b : MessagesRequest) :
    result refusal t :=
  if negb (known_model (model b)) then Err ModelNotFound
  else match to_internal_messages b with
       | None => Err InternalError
       | Some ms =>
           match validate (Req None (Some ms) request_id (Some (a_max_tokens b)) (a_temperature b) (a_top_p b)
                   (a_top_k b) None (stop_sequences b) 0 1 0 0 0 5 (1 # 10) None None false) with
           | Some r => Ok r
           | None => Err InternalError
           end
       end.

Lemma internal_messages_ok l :
  forallb (fun m => bool_decide (is_Some (extract_text (a_content m)))) l = true →
  ∃ ms, internal_messages l = Some ms ∧ length ms = length l ∧
    Forall2 (fun m x => extract_text (a_content m) = Some (content x) ∧
                        role x = if from_user m then user else assistant) l ms.
Proof.
  induction l as [|m l IH]; simpl; [intros _; by exists []|].
  intros [[t Ht]%bool_decide_eq_true Hl]%andb_true_iff. destruct (IH Hl) as (ms & E & Hn & Hf).
  rewrite Ht, E. simpl. eexists. split; [done|]. split; [simpl; lia|]. by constructor.
Qed.

(** Every accepted Anthropic body becomes a well-formed internal request: nothing it may
    contain makes the translation fail after validation.  The messages are the caller's, in
    order, behind the system prompt when there is a non-empty one. *)
Theorem anthropic_translation_typed known rid b :
  valid b = true → known (model b) = true →
  ∃ r ms pre, translate known rid b = Ok r ∧ validate r = Some r ∧ is_chat r = true ∧
    messages r = Some (pre ++ ms) ∧
    Forall2 (fun m x => extract_text (a_content m) = Some (content x) ∧
                        role x = if from_user m then user else assistant) (a_messages b) ms ∧
    (pre = [] ∨ ∃ v t, a_system b = Some v ∧ extract_text v = Some t ∧ t ≠ "" ∧ pre = [Msg system t]) ∧
    max_tokens r = Some (a_max_tokens b) ∧ stop r = stop_sequences b ∧ wants_structured_output r = false.
Proof.
  intros H Hk. unfold translate. rewrite Hk. cbn [negb]. unfold valid in H. OpenAISchema.split_tests H.
  destruct (internal_messages_ok (a_messages b)) as (ms & Em & Hn & Hf); [done|].
  assert (∃ pre, to_internal_messages b = Some (pre ++ ms) ∧
    (pre = [] ∨ ∃ v t, a_system b = Some v ∧ extract_text v = Some t ∧ t ≠ "" ∧ pre = [Msg system t])) as (pre & E & Hpre).
  { unfold to_internal_messages. rewrite Em. destruct (a_system b) as [v|]; simpl; [|exists []; auto].
    match goal with T : opt_all _ (Some v) = true |- _ => simpl in T; apply bool_decide_eq_true in T as [t Ht] end.
    rewrite Ht. simpl. destruct (str_true t) eqn:Et; [|exists []; auto]. exists [Msg system t]. split; [done|].
    right. exists v, t. split_and!; try done. intros ->. done. }
  rewrite E. set (r := Req _ _ _ _ _ _ _ _ _ _ _ _ _ _ _ _ _ _ _).
  assert (validate r = Some r) as Hr.
  { unfold validate, fields_ok, exactly_one_input, one_structured_mode.
    assert (opt_all (between_Z 1 32768) (max_tokens r) = true) as -> by done.
    cbn [r temperature top_p top_k min_p repeat_penalty presence_penalty frequency_penalty mirostat_mode mirostat_tau
      mirostat_eta json_schema opt_all prompt messages grammar json_object].
    assert (between 0 2 (a_temperature b) = true) as -> by (by apply (between_weaken 0 1 0 2)).
    repeat match goal with T : ?x = true |- context [?x] => rewrite T end.
    apply negb_true_iff, bool_decide_eq_false in H.
    by destruct pre, ms. }
  rewrite Hr. exists r, ms, pre. by split_and!.
Qed.

End AnthropicSchema.

(** ** Witnesses *)

Definition demo_chat (rf : option Json.t) : OpenAISchema.ChatCompletionRequest :=
  OpenAISchema.Chat "m" [GenerationRequest.Msg GenerationRequest.user "hi"] true (Some 16) None 1 1 0 0
    (Some (OpenAISchema.StopText "x")) None 1 None None rf.

Definition demo_messages : AnthropicSchema.MessagesRequest :=
  AnthropicSchema.Msgs "m" [AnthropicSchema.AMsg true (AnthropicSchema.VText "hi")]
    (Some (AnthropicSchema.VBlocks [Json.JObj [("type", Json.JStr "text"); ("text", Json.JStr "be brief")]]))
    64 1 1 0 [] false None None.
Lemma anthropic_translation_typed_witness :
  AnthropicSchema.valid demo_messages = true ∧
  ∃ r, AnthropicSchema.translate (fun _ => true) "id" demo_messages = Ok r ∧ GenerationRequest.is_chat r = true.
Proof.
  split; [vm_compute; reflexivity|].
  destruct (AnthropicSchema.anthropic_translation_typed (fun _ => true) "id" demo_messages) as (r & ms & pre & E & _ & Hc & _);
    [vm_compute; reflexivity|reflexivity|]. by exists r.
Defined.

(** A schema that is a text passes validation and makes the internal constructor raise. *)
Definition text_schema : Json.t :=
  Json.JObj [("type", Json.JStr "json_schema");
             ("json_schema", Json.JObj [("schema", Json.JStr "{}")])].
Lemma schema_not_object_escapes :
  OpenAISchema.valid (demo_chat (Some text_schema)) = true ∧
  OpenAISchema.translate (fun _ => true) true "id" (demo_chat (Some text_schema)) = Err OpenAISchema.InternalValidationError.
Proof. split; vm_compute; reflexivity. Qed.
