(* ===== verification/Contract.v ===== *)
(** * The stream contract ([engine/inference/base.py])

    [GenerationStream] is the abstract class of the same name: what an edge may rely on
    when it iterates a generation, whichever backend made it.  The class has the
    observations of a stream object, the laws its promises.  The queue-backed stream of
    [Stream.v] is the first instance; the remote stream is another.  [collect] and
    iteration are proved against the interface only. *)

From S2P Require Import Prelude Stream.

Open Scope Z_scope.

Module Contract.
Import QueueGenerationStream.

(** [fresh]: as [generate] returns it.  [evolves]: one step of the object: of its producer,
    of a call of [__anext__] or of a call of [aclose], where no [__anext__] is waiting for a
    chunk at the moment [aclose] ends (one task reads and closes).  [returned]: text and index
    of every chunk that [__anext__] returned.  [final]: text, finish reason and completion
    tokens of [result]. *)
Class GenerationStream (S : Type) := {
  fresh : S → Prop;
  evolves : S → S → Prop;
  returned : S → list (string * Z);
  final : S → option (string * FinishReason * Z)
}.

Inductive lives {S} `{GenerationStream S} : S → Prop :=
| lives_fresh s : fresh s → lives s
| lives_step s s' : lives s → evolves s s' → lives s'.

Class GenerationStreamLaws (S : Type) `{GenerationStream S} := {
  fresh_empty (s : S) : fresh s → returned s = [] ∧ final s = None;
  returned_indices (s : S) : lives s → map snd (returned s) = map Z.of_nat (seq 0 (length (returned s)));
  evolves_grows (s s' : S) : lives s → evolves s s' →
    returned s' = returned s ∨ (∃ c, returned s' = returned s ++ [c] ∧ final s' = None);
  final_text (s : S) t f n : lives s → final s = Some (t, f, n) →
    t = String.concat "" (map fst (returned s));
  final_stable (s s' : S) r : lives s → evolves s s' → final s = Some r →
    final s' = Some r ∧ returned s' = returned s
}.

(** ** Facts about any stream *)

Section Any.
Context {S : Type} `{GenerationStreamLaws S}.

Inductive evolves_to : S → S → Prop :=
| evolves_refl s : evolves_to s s
| evolves_more s s1 s2 : evolves s s1 → evolves_to s1 s2 → evolves_to s s2.

Lemma lives_to s s' : lives s → evolves_to s s' → lives s'.
Proof. intros Hs H'. induction H' as [|s s1 s2 E _ IH]; [done|]. apply IH. by eapply lives_step. Qed.

(** What was returned stays returned. *)
Lemma returned_prefix s s' : lives s → evolves_to s s' → returned s `prefix_of` returned s'.
Proof.
  intros Hs H'. induction H' as [|s s1 s2 E _ IH]; [done|]. specialize (IH (lives_step _ _ Hs E)).
  destruct (evolves_grows _ _ Hs E) as [<-|(c & Hc & _)]; [done|].
  etrans; [|exact IH]. rewrite Hc. by apply prefix_app_r.
Qed.

(** After the result nothing changes any more. *)
Lemma final_forever s s' r : lives s → evolves_to s s' → final s = Some r →
  final s' = Some r ∧ returned s' = returned s.
Proof.
  intros Hs H'. revert r. induction H' as [|s s1 s2 E _ IH]; intros r Hf; [done|].
  destruct (final_stable _ _ _ Hs E Hf) as [Hf1 Hr1].
  destruct (IH (lives_step _ _ Hs E) _ Hf1) as [-> ->]. done.
Qed.
End Any.

(** ** The abstract stream

    What the docstring of [GenerationStream] describes: chunks numbered from zero, then one
    terminal result whose text is the chunks' text, then nothing. *)

Record spec := Spec { said : list (string * Z); told : option (string * FinishReason * Z) }.
Definition spec_init : spec := Spec [] None.
Inductive spec_step : spec → spec → Prop :=
| spec_chunk l t : spec_step (Spec l None) (Spec (l ++ [(t, Z.of_nat (length l))]) None)
| spec_end l f n : spec_step (Spec l None) (Spec l (Some (String.concat "" (map fst l), f, n)))
| spec_stutter x : spec_step x x.

Section Refinement.
Context {S : Type} `{GenerationStreamLaws S}.
Definition abstract (s : S) : spec := Spec (returned s) (final s).

Lemma fresh_refines s : fresh s → abstract s = spec_init.
Proof. intros [E1 E2]%fresh_empty. unfold abstract. by rewrite E1, E2. Qed.

(** The last chunk's number is the number of chunks before it. *)
Lemma chunk_number s l t i : lives s → returned s = l ++ [(t, i)] → i = Z.of_nat (length l).
Proof.
  intros Hs E. pose proof (returned_indices s Hs) as Hn. rewrite E in Hn.
  rewrite length_app, map_app in Hn. cbn [length map snd] in Hn. rewrite Nat.add_1_r, seq_S, map_app in Hn.
  cbn [map] in Hn. by apply app_inj_tail in Hn as [_ ->].
Qed.

Lemma step_refines s s' : lives s → evolves s s' → spec_step (abstract s) (abstract s').
Proof.
  intros Hs E. pose proof (lives_step _ _ Hs E) as Hs'. unfold abstract.
  destruct (final s) as [r|] eqn:Ef.
  { destruct (final_stable _ _ _ Hs E Ef) as [-> ->]. constructor. }
  destruct (evolves_grows _ _ Hs E) as [Er|([t i] & Er & Ef')].
  - rewrite Er. destruct (final s') as [[[t f] n]|] eqn:Ef'; [|constructor].
    rewrite (final_text s' t f n Hs' Ef'), Er. constructor.
  - rewrite Ef', Er, (chunk_number s' _ t i Hs' Er). constructor.
Qed.
End Refinement.

(** ** The queue-backed stream *)

#[global] Instance queue_stream : GenerationStream QueueGenerationStream.t := {
  fresh x := ∃ m p now, 0 < m ∧ x = init m p now;
  evolves x x' := ∃ l, exec l x = Some x' ∧
    match l with AcloseResume _ _ => getting (view x) = false | _ => True end;
  returned x := out (view x);
  final x := (fun r => (text r, finish_reason r, completion_tokens r)) <$> result (view x)
}.

(** What a step shows: nothing, a chunk, or the result, which is set once. *)
Definition shows (x x' : QueueGenerationStream.t) : Prop :=
  (out (view x') = out (view x) ∧ (is_Some (result (view x)) → result (view x') = result (view x))) ∨
  (∃ c, out (view x') = out (view x) ++ [c] ∧ result (view x) = None ∧ result (view x') = None).
(** A stream with a result is exhausted, nobody waits for a chunk, and the text is that of the chunks. *)
Definition settled (x : QueueGenerationStream.t) : Prop :=
  ∀ r, result (view x) = Some r →
    exhausted (view x) = true ∧ getting (view x) = false ∧ text r = String.concat "" (parts (view x)).

Lemma settled_frame x x' : settled x → result (view x') = result (view x) → exhausted (view x') = exhausted (view x) →
  getting (view x') = getting (view x) → parts (view x') = parts (view x) → settled x'.
Proof. intros H E1 E2 E3 E4 r. rewrite E1, E2, E3, E4. apply H. Qed.
Lemma settled_none x : result (view x) = None → settled x.
Proof. intros E r. by rewrite E. Qed.
(** The result as [set_result] makes it, and the callback after it. *)
Lemma view_set_result f now x : let x' := set_result f now x in
  out (view x') = out (view x) ∧ parts (view x') = parts (view x) ∧ getting (view x') = getting (view x) ∧
  (is_Some (result (view x)) → result (view x') = result (view x)) ∧
  ∃ r, result (view x') = Some r ∧ (result (view x) = Some r ∨ result (view x) = None ∧ text r = String.concat "" (parts (view x))).
Proof. unfold set_result. destruct (result (view x)) as [r|] eqn:E; cbn; rewrite ?E; split_and!; try done; eauto 7. Qed.
Lemma view_fire x : let x' := fire x in
  out (view x') = out (view x) ∧ result (view x') = result (view x) ∧ exhausted (view x') = exhausted (view x) ∧
  getting (view x') = getting (view x) ∧ parts (view x') = parts (view x).
Proof. pose proof (fire_on_done_frame (view x)). cbn in *. naive_solver. Qed.
Lemma view_join x : view (join x) = view x.
Proof. unfold join. by case_match. Qed.

(** The end of a stream, by its terminal item or by [aclose]. *)
Lemma ends_settled f now x x' : settled x → getting (view x) = false →
  x' = fire (join (set_exhausted (set_result f now x))) ∨ x' = with_closing false (fire (set_exhausted (set_result f now x))) →
  settled x' ∧ shows x x'.
Proof.
  intros Hs Hg Hx. destruct (view_set_result f now x) as (S1 & S2 & S3 & S4 & r & S5 & S6). cbn zeta in *.
  assert (out (view x') = out (view x) ∧ result (view x') = Some r ∧ exhausted (view x') = true ∧
          getting (view x') = false ∧ parts (view x') = parts (view x)) as (E1 & E2 & E3 & E4 & E5).
  { destruct Hx as [->| ->]; [destruct (view_fire (join (set_exhausted (set_result f now x)))) as (F1 & F2 & F3 & F4 & F5)
      |destruct (view_fire (set_exhausted (set_result f now x))) as (F1 & F2 & F3 & F4 & F5)];
    cbn zeta in *; rewrite ?view_join in *; cbn [view out result exhausted getting parts set_exhausted with_closing] in *;
    rewrite ?F1, ?F2, ?F3, ?F4, ?F5, ?S3; done. }
  split.
  - intros r'. rewrite E2, E3, E4, E5. intros [= <-]. split_and!; [done..|]. destruct S6 as [H|[_ H]]; [by apply Hs|done].
  - left. split; [done|]. intros H. rewrite E2. by rewrite <- (S4 H).
Qed.

Lemma get_settled now x : settled x → result (view x) = None → settled (get now x) ∧ shows x (get now x).
Proof.
  intros Hs Hr. unfold get. destruct (queue (chan x)) as [|[s|f e] q].
  - split; [by apply settled_none|left; split; [done|]]. by intros [? ?]; congruence.
  - split; [by apply settled_none|right; by eexists].
  - set (x1 := with_getting false _). assert (settled x1) as H1 by (by apply settled_none).
    exact (ends_settled f now x1 (got (Terminal f e) now x1) H1 eq_refl (or_introl eq_refl)).
Qed.

Lemma evolves_settled x x' : settled x → evolves x x' → settled x' ∧ shows x x'.
Proof.
  intros Hs (l & E & Hl). destruct l; simpl in E.
  - destruct (run_step _ _ _) as [[c' w']|]; simpl in E; [|done]. simplify_eq. split; [done|by left].
  - destruct (negb _); [done|]. unfold run_callback in E. destruct (callbacks _) as [|[i|] bs]; simplify_eq.
    + split; [done|by left].
    + pose proof (fire_on_done_frame (view x)) as (F1 & F2 & F3 & F4 & F5 & F6 & F7 & F8).
      split; [by eapply settled_frame|left; by split].
  - destruct (negb _); [done|]. destruct (getting _) eqn:Eg; [done|]. destruct (exhausted _) eqn:Ex; simplify_eq; [split; [done|by left]|].
    apply get_settled; [done|]. destruct (result (view x)) as [r|] eqn:Er; [|done]. destruct (Hs r Er) as [? _]. congruence.
  - destruct (negb _); [done|]. destruct (getting _) eqn:Eg; [|done]. destruct (queue _) eqn:Eq; [done|]. simplify_eq.
    apply get_settled; [done|]. destruct (result (view x)) as [r|] eqn:Er; [|done]. destruct (Hs r Er) as (_ & ? & _). congruence.
  - destruct (negb _); [done|]. destruct (getting _) eqn:Eg; simplify_eq. split; [|by left].
    apply settled_none. cbn. destruct (result (view x)) as [r|] eqn:Er; [|done]. destruct (Hs r Er) as (_ & ? & _). congruence.
  - destruct (negb _); [done|]. simplify_eq. unfold aclose_begin. destruct (closed _); (split; [done|by left]).
  - destruct (negb _); [done|]. destruct (closing (view x) && _); [|done]. simplify_eq. eapply ends_settled; [done|done|by right].
  - destruct (negb _); [done|]. destruct (closing _); simplify_eq. split; [done|by left].
  - simplify_eq. split; [done|by left].
Qed.

Lemma queue_inv x : lives x → settled x ∧ ∃ m, inv m x.
Proof.
  intros H. assert (settled x ∧ ∃ m p now, 0 < m ∧ reachable m p now x) as (Hs & m & p & now & Hm & Hr).
  - induction H as [x (m & p & now & Hm & ->)|x x' _ (Hs & m & p & now & Hm & Hr) Hev].
    + split; [done|]. exists m, p, now. by split; [|constructor].
    + split; [by eapply evolves_settled|]. destruct Hev as (l & E & _). exists m, p, now. split; [done|]. by eapply reach_step.
  - split; [done|]. exists m. by eapply stream_inv_reachable.
Qed.

(** A stream with a result does not move. *)
Lemma queue_stable x x' : lives x → evolves x x' → is_Some (result (view x)) →
  result (view x') = result (view x) ∧ out (view x') = out (view x).
Proof.
  intros [Hs _]%queue_inv Hev Hr. destruct (evolves_settled x x' Hs Hev) as [_ [[E1 E2]|(c & _ & E & _)]]; [by auto|].
  rewrite E in Hr. by destruct Hr.
Qed.

Lemma imap_texts (l : list string) : map fst (imap (fun n s => (s, Z.of_nat n)) l) = l.
Proof.
  apply list_eq. intros i. etrans; [apply list_lookup_fmap|]. rewrite list_lookup_imap. by destruct (l !! i).
Qed.
Lemma imap_numbers (l : list string) : map snd (imap (fun n s => (s, Z.of_nat n)) l) = map Z.of_nat (seq 0 (length l)).
Proof.
  apply list_eq. intros i. etrans; [apply list_lookup_fmap|]. etrans; [|symmetry; apply list_lookup_fmap].
  rewrite list_lookup_imap. destruct (l !! i) as [x|] eqn:E; simpl.
  - rewrite lookup_seq_lt; [done|by eapply lookup_lt_Some].
  - rewrite lookup_seq_ge; [done|by apply lookup_ge_None].
Qed.

#[global] Instance queue_stream_laws : GenerationStreamLaws QueueGenerationStream.t.
Proof.
  split.
  - intros x (m & p & now & _ & ->). done.
  - intros x [_ [m I]]%queue_inv. simpl. rewrite (i_out _ _ I), imap_numbers, length_imap. done.
  - intros x x' [Hs _]%queue_inv Hev. destruct (evolves_settled _ _ Hs Hev) as [_ [[E _]|(c & E & _ & En)]]; [by left|].
    right. exists c. split; [done|]. simpl. by rewrite En.
  - intros x t f n [Hs [m I]]%queue_inv Hf. simpl in Hf. destruct (result (view x)) as [r|] eqn:Er; [|done].
    simpl in Hf. simplify_eq. destruct (Hs r Er) as (_ & _ & ->). simpl. by rewrite (i_out _ _ I), imap_texts.
  - intros x x' r Hx Hev Hf. simpl in *. destruct (queue_stable x x' Hx Hev) as [-> ->]; [|done].
    by destruct (result (view x)).
Qed.

End Contract.
