(* ===== verification/Remote.v ===== *)
(** * Remote backends that speak the OpenAI API ([engine/inference/remote/openai_compat.py])

    [Module Sse] is the line parser of the upstream stream, [Module StreamTokens] the token
    generator with its bounded retry, [Module RemoteGenerationStream] the stream object over
    it (an instance of the contract), [Module RemoteBackend] the lifecycle and the request
    body, [Module CacheMetrics] the parser of the metrics text.

    What the server does is an argument: for each POST, whether the connection succeeds, the
    status, the lines of the body and how the body ends.  [json_loads] is the JSON parser, a
    parameter; [float_of] is [float(s)], a parameter. *)

From S2P Require Import Prelude Crypto Text Stream Contract Placement.
From Stdlib Require Import Ascii.

Open Scope Z_scope.

Module Sse.
Import QueueGenerationStream.

(** [_Outcome] *)
Record Outcome := Out {
  o_finish : FinishReason;
  o_prompt_tokens : Z;
  o_completion_tokens : Z;
  usage_seen : bool;
  upstream_attempts : Z
}.
Definition outcome0 : Outcome := Out STOP 0 0 false 0.
Definition with_finish (f : FinishReason) (o : Outcome) : Outcome :=
  Out f (o_prompt_tokens o) (o_completion_tokens o) (usage_seen o) (upstream_attempts o).
Definition with_usage (p c : Z) (o : Outcome) : Outcome :=
  Out (o_finish o) p c true (upstream_attempts o).
Definition with_prompt (p : Z) (o : Outcome) : Outcome :=
  Out (o_finish o) p (o_completion_tokens o) (usage_seen o) (upstream_attempts o).

(** A token text (any true JSON value can stand where the text is expected) or [_DONE]. *)
Inductive item := Tok (text : Json.t) | DONE.

(** [v.get(key)] as a statement. *)
Definition get (key : string) (v : Json.t) : stmt Outcome (option Json.t) :=
  match Json.get key v with Some r => mret r | None => raise AttributeError end.
(** [x or y] on an optional value. *)
Definition true_value (v : option Json.t) : option Json.t :=
  match v with Some x => if Json.truthy x then Some x else None | None => None end.
(** [int(usage.get(key, 0) or 0)] *)
Definition count (key : string) (usage : Json.t) : stmt Outcome Z :=
  v ← get key usage;
  match true_value v with
  | None => mret 0
  | Some (Json.JInt z) => mret z
  | Some (Json.JBool b) => mret (if b then 1 else 0)
  | Some (Json.JStr s) => match Text.int s with Some z => mret z | None => raise ValueError end
  | Some _ => raise TypeError
  end.
(** [choices[0]] of a true value. *)
Definition first (choices : Json.t) : stmt Outcome Json.t :=
  match choices with
  | Json.JArr (c :: _) => mret c
  | Json.JStr (String a _) => mret (Json.JStr (String a ""))
  | Json.JObj _ => raise KeyError
  | _ => raise TypeError
  end.
Definition is_object (v : option Json.t) : option Json.t :=
  match v with Some (Json.JObj l) => Some (Json.JObj l) | _ => None end.

Section Parse.
Context (json_loads : string → option Json.t).

(** The text of the first choice. *)
Definition choice_text (is_chat : bool) (choice : Json.t) : stmt Outcome (option Json.t) :=
  if is_chat then
    d ← get "delta" choice;
    match true_value d with
    | None => mret None
    | Some delta => c ← get "content" delta; mret (true_value c)
    end
  else t ← get "text" choice; mret (true_value t).

Definition parse_object (is_chat : bool) (obj : Json.t) : stmt Outcome (list item) :=
  usage ← get "usage" obj;
  _ ← match is_object usage with
      | Some u =>
          p ← count "prompt_tokens" u;
          _ ← Prelude.run (fun o => (with_prompt p o, tt));
          c ← count "completion_tokens" u;
          Prelude.run (fun o => (with_usage p c o, tt))
      | None => mret tt
      end;
  choices ← get "choices" obj;
  match true_value choices with
  | None => mret []
  | Some choices =>
      choice ← first choices;
      reason ← get "finish_reason" choice;
      _ ← match reason with
          | Some r =>
              if Json.eq_str r "length" then Prelude.run (fun o => (with_finish LENGTH o, tt))
              else if Json.eq_str r "stop" || Json.eq_str r "eos_token" then
                Prelude.run (fun o => (with_finish STOP o, tt))
              else mret tt
          | None => mret tt
          end;
      text ← choice_text is_chat choice;
      mret (match text with Some t => [Tok t] | None => [] end)
  end.

(** [_parse_sse_line] *)
Definition parse_sse_line (is_chat : bool) (line : string) : stmt Outcome (list item) :=
  let line := Text.strip line in
  if negb (str_true line) || Text.startswith ":" line || negb (Text.startswith "data:" line) then mret []
  else
    let data := Text.strip (Crypto.of_chars (drop 5 (Crypto.chars line))) in
    if bool_decide (data = "[DONE]") then mret [DONE]
    else match json_loads data with
         | None => mret []
         | Some obj => parse_object is_chat obj
         end.

(** What a line means does not depend on the lines before it, and only the attempt counts
    the attempts. *)
Definition benign {A} (c : stmt Outcome A) : Prop :=
  ∀ o o', snd (c o) = snd (c o') ∧ upstream_attempts (fst (c o)) = upstream_attempts o.
Lemma benign_ret {A} (a : A) : benign (mret a).
Proof. done. Qed.
Lemma benign_raise {A} e : benign (raise (A:=A) e).
Proof. done. Qed.
Lemma benign_run {A} (f : Outcome → Outcome * A) :
  (∀ o o', snd (f o) = snd (f o') ∧ upstream_attempts (fst (f o)) = upstream_attempts o) → benign (Prelude.run f).
Proof.
  intros H o o'. destruct (H o o') as [H1 H2]. unfold Prelude.run.
  destruct (f o), (f o'). simpl in *. by subst.
Qed.
Lemma benign_bind {A B} (c : stmt Outcome A) (k : A → stmt Outcome B) :
  benign c → (∀ a, benign (k a)) → benign (c ≫= k).
Proof.
  intros Hc Hk o o'. destruct (Hc o o') as [H1 H2]. pose proof (Hc o' o) as [_ H2']. unfold mbind, stmt_bind.
  destruct (c o) as [o1 [a|e]], (c o') as [o2 [a'|e']]; simpl in *; simplify_eq; [|done].
  destruct (Hk a' o1 o2) as [H3 H4]. split; [done|congruence].
Qed.
Ltac benign :=
  repeat first [ apply benign_ret | apply benign_raise | apply benign_bind; [|intros ?]
               | apply benign_run; by intros
               | match goal with |- benign (match ?x with _ => _ end) => destruct x end ].
Lemma benign_get key v : benign (get key v).
Proof. unfold get. benign. Qed.
Lemma benign_count key v : benign (count key v).
Proof. unfold count. apply benign_bind; [apply benign_get|intros r]. benign. Qed.
Lemma benign_line is_chat line : benign (parse_sse_line is_chat line).
Proof.
  unfold parse_sse_line, parse_object, choice_text, first.
  repeat first [apply benign_get|apply benign_count|progress benign].
Qed.

End Parse.
End Sse.

Module StreamTokens.
Import Sse.

(** What the server does with one POST. *)
Inductive body_end := Eof | Broken.
Inductive answer := NoConnection | Responds (status : Z) (lines : list string) (e : body_end).

(** The exceptions that leave an attempt: [httpx.TransportError], [_RemoteError], another. *)
Inductive failure := Transport | RemoteError (status : Z) | Unexpected (e : exn).
Inductive ending := Returned | Raised (f : failure).

Definition RETRIABLE_STATUS : list Z := [429; 500; 502; 503; 504].
Definition retriable (f : failure) : bool :=
  match f with
  | Transport => true
  | RemoteError s => bool_decide (s ∈ RETRIABLE_STATUS)
  | Unexpected _ => false
  end.

(** What the generator yields, with the shared outcome at that moment. *)
Definition yields := list (Json.t * Outcome).

Section Generator.
Context (json_loads : string → option Json.t) (is_chat : bool) (max_prestream_retries : Z).

(** [async for line in resp.aiter_lines()] *)
Fixpoint read_lines (lines : list string) (e : body_end) (o : Outcome) : yields * ending * Outcome :=
  match lines with
  | [] => ([], match e with Eof => Returned | Broken => Raised Transport end, o)
  | l :: ls =>
      match parse_sse_line json_loads is_chat l o with
      | (o', Err x) => ([], Raised (Unexpected x), o')
      | (o', Ok (DONE :: _)) => ([], Returned, o')
      | (o', Ok (Tok t :: _)) => let '(ys, en, o2) := read_lines ls e o' in ((t, o') :: ys, en, o2)
      | (o', Ok []) => read_lines ls e o'
      end
  end.

(** The body of the [try]. *)
Definition attempt (a : answer) (o : Outcome) : yields * ending * Outcome :=
  let o := Out (o_finish o) (o_prompt_tokens o) (o_completion_tokens o) (usage_seen o) (upstream_attempts o + 1) in
  match a with
  | NoConnection => ([], Raised Transport, o)
  | Responds status lines e =>
      if negb (status =? 200) then
        ([], Raised (match e with Broken => Transport | Eof => RemoteError status end), o)
      else read_lines lines e o
  end.

(** [_stream_tokens] against a server whose answers to the successive POSTs are [script];
    [None] when it makes more POSTs than that. *)
Fixpoint stream_tokens (script : list answer) (attempts : Z) (o : Outcome) : option (yields * ending * Outcome) :=
  match script with
  | [] => None
  | a :: rest =>
      let '(ys, en, o') := attempt a o in
      match en with
      | Raised (Transport as f) | Raised (RemoteError _ as f) =>
          if negb (bool_decide (ys = [])) || negb (retriable f) || (max_prestream_retries <=? attempts)
          then Some (ys, en, o')
          else stream_tokens rest (attempts + 1) o'
      | _ => Some (ys, en, o')
      end
  end.

(** ** One attempt, bounded retries *)

(** The texts of an attempt, without the outcome. *)
Definition texts (a : answer) : list Json.t := map fst (fst (fst (attempt a outcome0))).
Definition ends (a : answer) : ending := snd (fst (attempt a outcome0)).

Lemma read_lines_texts lines e o o' :
  map fst (fst (fst (read_lines lines e o))) = map fst (fst (fst (read_lines lines e o'))) ∧
  snd (fst (read_lines lines e o)) = snd (fst (read_lines lines e o')) ∧
  upstream_attempts (snd (read_lines lines e o)) = upstream_attempts o.
Proof.
  revert o o'. induction lines as [|l ls IH]; intros o o'; cbn [read_lines]; [done|].
  destruct (benign_line json_loads is_chat l o o') as [H1 H2].
  destruct (parse_sse_line json_loads is_chat l o) as [o1 r1], (parse_sse_line json_loads is_chat l o') as [o2 r2].
  simpl in H1, H2. subst r2. destruct r1 as [[|[t|] ?]|x]; try done.
  - destruct (IH o1 o2) as (A & B & C). split_and!; [done|done|congruence].
  - destruct (IH o1 o2) as (A & B & C). pose proof (IH o2 o1) as (_ & _ & _).
    destruct (read_lines ls e o1) as [[ys en] o3], (read_lines ls e o2) as [[ys' en'] o4]. simpl in *.
    split_and!; [by f_equal|done|congruence].
Qed.

Lemma attempt_spec a o :
  map fst (fst (fst (attempt a o))) = texts a ∧ snd (fst (attempt a o)) = ends a ∧
  upstream_attempts (snd (attempt a o)) = upstream_attempts o + 1.
Proof.
  unfold texts, ends, attempt. destruct a as [|status lines e]; [done|]. destruct (negb _); [done|].
  split_and!; [apply (read_lines_texts lines e)..|].
  match goal with |- context [read_lines lines e ?x] => destruct (read_lines_texts lines e x x) as (_ & _ & ->) end. done.
Qed.

(** An attempt that may be repeated: no token, and a transient failure. *)
Definition transient (a : answer) : bool :=
  bool_decide (texts a = []) && match ends a with Raised f => retriable f | Returned => false end.

Lemma stream_tokens_spec script n o :
  0 <= n →
  match stream_tokens script n o with
  | Some (ys, en, o') =>
      ∃ k a, script !! k = Some a ∧ (∀ j b, (j < k)%nat → script !! j = Some b → transient b = true) ∧
        (k = 0%nat ∨ n + Z.of_nat k <= max_prestream_retries) ∧
        (transient a = true → max_prestream_retries <= n + Z.of_nat k) ∧
        map fst ys = texts a ∧ en = ends a ∧
        upstream_attempts o' = upstream_attempts o + Z.of_nat k + 1
  | None => Z.of_nat (length script) <= Z.max 0 (max_prestream_retries - n)
  end.
Proof.
  revert n o. induction script as [|a rest IH]; intros n o Hn; cbn [stream_tokens]; [simpl; lia|].
  destruct (attempt_spec a o) as (A & B & C). destruct (attempt a o) as [[ys en] o1]. cbn [fst snd] in *. subst en.
  assert (∀ x : Prop, (transient a = true → max_prestream_retries <= n) → ∃ k b, (a :: rest) !! k = Some b ∧
    (∀ j c, (j < k)%nat → (a :: rest) !! j = Some c → transient c = true) ∧
    (k = 0%nat ∨ n + Z.of_nat k <= max_prestream_retries) ∧
    (transient b = true → max_prestream_retries <= n + Z.of_nat k) ∧
    map fst ys = texts b ∧ ends a = ends b ∧
    upstream_attempts o1 = upstream_attempts o + Z.of_nat k + 1) as Hstop.
  { intros _ Ht. exists 0%nat, a. split_and!; [done|lia|by left| |done|done|lia]. intros H. specialize (Ht H). lia. }
  assert (ys = [] ↔ texts a = []) as Hys by (rewrite <- A; by destruct ys).
  destruct (ends a) as [|f] eqn:Ef.
  { apply (Hstop True). unfold transient. by rewrite Ef, andb_false_r. }
  destruct (negb (bool_decide (ys = [])) || negb (retriable f) || (max_prestream_retries <=? n)) eqn:Eg.
  - assert (transient a = true → max_prestream_retries <= n) as Ht.
    { unfold transient. rewrite Ef. intros [H1%bool_decide_eq_true H2]%andb_true_iff.
      rewrite H2, bool_decide_true in Eg by (by apply Hys). by apply Z.leb_le in Eg. }
    destruct f; (by apply (Hstop True)).
  - apply orb_false_iff in Eg as [[E1%negb_false_iff E2%negb_false_iff]%orb_false_iff E3%Z.leb_gt].
    apply bool_decide_eq_true, Hys in E1.
    assert (transient a = true) as Ht by (unfold transient; rewrite Ef, E2, bool_decide_true by done; done).
    assert (match f with Unexpected _ => False | _ => True end) as Hf by (by destruct f).
    specialize (IH (n + 1) o1 ltac:(lia)).
    assert (match stream_tokens rest (n + 1) o1 with
      | Some (ys0, en, o') => ∃ k b, (a :: rest) !! k = Some b ∧
          (∀ j c, (j < k)%nat → (a :: rest) !! j = Some c → transient c = true) ∧
          (k = 0%nat ∨ n + Z.of_nat k <= max_prestream_retries) ∧
          (transient b = true → max_prestream_retries <= n + Z.of_nat k) ∧
          map fst ys0 = texts b ∧ en = ends b ∧ upstream_attempts o' = upstream_attempts o + Z.of_nat k + 1
      | None => Z.of_nat (length (a :: rest)) <= Z.max 0 (max_prestream_retries - n) end) as Hgo.
    { destruct (stream_tokens rest (n + 1) o1) as [[[ys' en'] o2]|]; [|simpl length; lia].
      destruct IH as (k & b & Hk & Hj & Hn' & Hb & H1 & H2 & H3). exists (S k), b.
      split_and!; [done| |lia|intros H; specialize (Hb H); lia|done|done|lia].
      intros [|j] c Hjk Hc; [by simplify_eq/=|]. apply (Hj j c); [lia|done]. }
    destruct f; [exact Hgo|exact Hgo|done].
Qed.

(** Retry only before the first token: whatever the server does, the generator ends after at
    most [max_prestream_retries + 1] POSTs; every token it yields comes from one and the same
    POST, the last one; the POSTs before it yielded nothing and failed transiently; and the
    count of upstream attempts is the number of POSTs made. *)
Theorem remote_single_attempt script :
  0 <= max_prestream_retries → max_prestream_retries < Z.of_nat (length script) →
  ∃ ys en o k a, stream_tokens script 0 outcome0 = Some (ys, en, o) ∧
    script !! k = Some a ∧ Z.of_nat k <= max_prestream_retries ∧
    (∀ j b, (j < k)%nat → script !! j = Some b → texts b = [] ∧ ∃ f, ends b = Raised f ∧ retriable f = true) ∧
    map fst ys = texts a ∧ en = ends a ∧ upstream_attempts o = Z.of_nat k + 1.
Proof.
  intros Hm Hs. pose proof (stream_tokens_spec script 0 outcome0 (Z.le_refl 0)) as H.
  destruct (stream_tokens script 0 outcome0) as [[[ys en] o]|]; [|lia].
  destruct H as (k & a & Hk & Hj & Hn & _ & H1 & H2 & H3). exists ys, en, o, k, a.
  split_and!; try done; [lia|]. intros j b Hjk Hb. specialize (Hj j b Hjk Hb). unfold transient in Hj.
  apply andb_true_iff in Hj as [E1%bool_decide_eq_true E2]. split; [done|].
  destruct (ends b) as [|f]; [done|]. by exists f.
Qed.

End Generator.

Definition demo_json (s : string) : option Json.t :=
  if bool_decide (s = "{}") then Some (Json.JObj [])
  else Some (Json.JObj [("choices", Json.JArr [Json.JObj [("text", Json.JStr s)]])]).

Lemma remote_single_attempt_witness :
  ∃ o, stream_tokens demo_json false 1 [Responds 503 [] Eof; Responds 200 ["data: hello"; "data: [DONE]"] Eof] 0 outcome0
       = Some ([(Json.JStr "hello", o)], Returned, o) ∧ upstream_attempts o = 2.
Proof.
  destruct (remote_single_attempt demo_json false 1
    [Responds 503 [] Eof; Responds 200 ["data: hello"; "data: [DONE]"] Eof]) as (ys & en & o & k & a & E & H);
    [lia|simpl; lia|].
  vm_compute in E. injection E as <- <- <-. eexists. split; [vm_compute; reflexivity|reflexivity].
Defined.

(** A body that simply ends, without [\[DONE\]] or a finish reason, is a normal end, and the
    result says "stop". *)
Lemma truncated_body_is_stop :
  ∃ ys o, stream_tokens demo_json false 1 [Responds 200 ["data: hel"] Eof] 0 outcome0 = Some (ys, Returned, o)
       ∧ o_finish o = QueueGenerationStream.STOP.
Proof. do 2 eexists. split; [vm_compute; reflexivity|reflexivity]. Qed.

End StreamTokens.

(** ** The stream object *)

Module RemoteGenerationStream.
Import QueueGenerationStream Sse StreamTokens.

(** The token generator as the stream sees it: what it will still yield, how it ends, and
    the outcome it shares with the stream. *)
Record producer := Producer { todo : yields; at_end : ending * Outcome; shared : Outcome }.

Record t := Mk {
  tokens : producer;
  index : Z;
  parts : list Json.t;
  timings : GenerationTimings;
  result : option GenerationResult;
  exhausted : bool;
  closed : bool;
  out : list (Json.t * Z)            (* the chunks returned *)
}.
Definition init (p : producer) (now : Q) : t := Mk p 0 [] (Timings now None None) None false false [].

(** ["".join(self._parts)]; [None] is the [TypeError] of a part that is no text. *)
Fixpoint join (l : list Json.t) : option string :=
  match l with
  | [] => Some ""
  | Json.JStr s :: l' => (fun r => s +:+ r) <$> join l'
  | _ :: _ => None
  end.

(** [_build_result]; [false] when it raises. *)
Definition build_result (f : FinishReason) (now : Q) (x : t) : t * bool :=
  match result x with
  | Some _ => (x, true)
  | None =>
      let o := shared (tokens x) in
      let tm := Timings (started_at (timings x)) (first_token_at (timings x)) (Some now) in
      match join (parts x) with
      | None => (Mk (tokens x) (index x) (parts x) tm None (exhausted x) (closed x) (out x), false)
      | Some text =>
          (Mk (tokens x) (index x) (parts x) tm
              (Some (Result text f (if usage_seen o then o_prompt_tokens o else 0)
                            (if usage_seen o then o_completion_tokens o else index x)))
              true (closed x) (out x), true)
      end
  end.

(** How a call of [__anext__] ends. *)
Inductive answer := Chunk (text : Json.t) (index : Z) | StopAsyncIteration | GenerationFailedError | TypeErrorRaised.

Definition with_tokens (p : producer) (x : t) : t :=
  Mk p (index x) (parts x) (timings x) (result x) (exhausted x) (closed x) (out x).
Definition finish (f : FinishReason) (a : answer) (now : Q) (x : t) : t * answer :=
  let '(x', ok) := build_result f now x in (x', if ok then a else TypeErrorRaised).

(** [__anext__]; [cancelled] when the awaiting task is cancelled at the await, which ends the
    generator too. *)
Definition anext (now : Q) (cancelled : bool) (x : t) : t * answer :=
  if exhausted x then (x, StopAsyncIteration)
  else if cancelled then
    finish ERROR GenerationFailedError now (with_tokens (Producer [] (Returned, shared (tokens x)) (shared (tokens x))) x)
  else match todo (tokens x) with
       | [] =>
           let '(e, o) := at_end (tokens x) in
           let x := with_tokens (Producer [] (Returned, o) o) x in
           match e with
           | Returned => finish (o_finish o) StopAsyncIteration now x
           | Raised _ => finish ERROR GenerationFailedError now x
           end
       | (text, o) :: rest =>
           (Mk (Producer rest (at_end (tokens x)) o) (index x + 1) (parts x ++ [text])
               (Timings (started_at (timings x)) (Some (default now (first_token_at (timings x)))) (finished_at (timings x)))
               (result x) (exhausted x) (closed x) (out x ++ [(text, index x)]),
            Chunk text (index x))
       end.

(** [aclose]; [false] when building the result raises. *)
Definition aclose (now : Q) (x : t) : t * bool :=
  if closed x then (x, true)
  else
    let p := Producer [] (Returned, shared (tokens x)) (shared (tokens x)) in
    let x := Mk p (index x) (parts x) (timings x) (result x) (exhausted x) true (out x) in
    match build_result CANCELLED now x with
    | (x, false) => (x, false)
    | (x, true) => (Mk (tokens x) (index x) (parts x) (timings x) (result x) true (closed x) (out x), true)
    end.

Definition prompt_tokens (x : t) : Z := if usage_seen (shared (tokens x)) then o_prompt_tokens (shared (tokens x)) else 0.
Definition attempts (x : t) : Z := upstream_attempts (shared (tokens x)).

(** ** It keeps the contract *)

Definition text_of (v : Json.t) : string := match v with Json.JStr s => s | _ => "" end.

#[global] Instance remote_stream : Contract.GenerationStream t := {
  fresh x := ∃ p now, x = init p now;
  evolves x x' := ∃ now, (∃ cancelled, x' = fst (anext now cancelled x)) ∨ x' = fst (aclose now x);
  returned x := map (fun c => (text_of (fst c), snd c)) (out x);
  final x := (fun r => (text r, finish_reason r, completion_tokens r)) <$> result x
}.

Record inv (x : t) : Prop := Inv {
  v_parts : map fst (out x) = parts x;
  v_numbers : map snd (out x) = map Z.of_nat (seq 0 (length (out x)));
  v_index : index x = Z.of_nat (length (out x));
  v_result : result x = None ∨ (exhausted x = true ∧ ∃ r s, result x = Some r ∧ join (parts x) = Some s ∧ text r = s)
}.

Lemma join_concat l s : join l = Some s → s = String.concat "" (map text_of l).
Proof.
  revert s. induction l as [|v l IH]; intros s; simpl; [by intros [= <-]|].
  destruct v; try done. destruct (join l) as [r|]; [|done]. intros [= <-]. rewrite (IH r eq_refl).
  destruct l; simpl; [apply Text.append_nil|done].
Qed.

(** What a call shows. *)
Definition shows (x x' : t) : Prop :=
  (out x' = out x ∧ parts x' = parts x ∧ index x' = index x ∧
   (result x' = result x ∧ (exhausted x' = exhausted x ∨ exhausted x' = true) ∨
    exhausted x' = true ∧ ∃ r s, result x = None ∧ result x' = Some r ∧ join (parts x) = Some s ∧ text r = s)) ∨
  (exhausted x = false ∧ ∃ v, out x' = out x ++ [(v, index x)] ∧ parts x' = parts x ++ [v] ∧ index x' = index x + 1 ∧
   result x' = result x ∧ exhausted x' = exhausted x).
Lemma finish_shows f a now x p : shows x (fst (finish f a now (with_tokens p x))).
Proof.
  left. unfold finish, build_result. simpl. destruct (result x) as [r|] eqn:Er; [simpl; by auto 9|].
  destruct (join (parts x)) as [s|] eqn:Ej; simpl; rewrite ?Er; split_and!; try done; [|by auto].
  right. split; [done|]. do 2 eexists. by split_and!.
Qed.
Lemma anext_shows now c x : shows x (fst (anext now c x)).
Proof.
  unfold anext. destruct (exhausted x) eqn:Ex; [left; by auto 9|]. destruct c; [apply finish_shows|].
  destruct (todo (tokens x)) as [|[v o] rest].
  - destruct (at_end (tokens x)) as [[|f] o]; apply finish_shows.
  - right. split; [done|]. exists v. simpl. by rewrite Ex.
Qed.

Lemma aclose_shows now x : shows x (fst (aclose now x)).
Proof.
  left. unfold aclose, build_result. destruct (closed x); [by auto 9|]. cbn. destruct (result x) as [r|] eqn:Er; [cbn; by auto 9|].
  destruct (join (parts x)) as [s|] eqn:Ej; cbn; rewrite ?Er; split_and!; try done; [|by auto].
  right. split; [done|]. do 2 eexists. by split_and!.
Qed.
Lemma evolves_shows x x' : Contract.evolves x x' → shows x x'.
Proof. intros (now & [(c & ->)| ->]); [apply anext_shows|apply aclose_shows]. Qed.

Lemma remote_inv_step x x' : inv x → shows x x' → inv x'.
Proof.
  intros [V1 V2 V3 V4] [(E1 & E2 & E3 & H)|(Hx & v & E1 & E2 & E3 & E4 & E5)].
  - split; rewrite ?E1, ?E2, ?E3; try done. destruct H as [[-> Hex]|(-> & r & s & _ & -> & Hj & Ht)].
    { destruct V4 as [H|[H1 H2]]; [by left|right]. split; [destruct Hex; congruence|done]. }
    right. split; [done|]. by exists r, s.
  - split; rewrite ?E1, ?E2, ?E3, ?E4, ?E5.
    + rewrite map_app, V1. done.
    + rewrite map_app, V2, length_app. simpl. rewrite Nat.add_1_r, seq_S, map_app. simpl. by rewrite V3.
    + rewrite length_app. simpl. lia.
    + destruct V4 as [->|[Hex _]]; [by left|congruence].
Qed.
Lemma remote_inv (x : t) : Contract.lives x → inv x.
Proof.
  induction 1 as [x (p & now & ->)|x x' _ IH Hev]; [by split; try left|].
  eapply remote_inv_step; [done|by apply evolves_shows].
Qed.

#[global] Instance remote_stream_laws : Contract.GenerationStreamLaws t.
Proof.
  split.
  - by intros x (p & now & ->).
  - intros x [V1 V2 _ _]%remote_inv. simpl. rewrite map_map, length_map. simpl. by rewrite <- V2.
  - intros x x' Hx Hev. simpl. pose proof (remote_inv x Hx) as [_ _ _ V4].
    destruct (evolves_shows x x' Hev) as [(E & _)|(Hx' & v & E & _ & _ & Er & _)]; [left; by rewrite E|].
    right. exists (text_of v, index x). rewrite E, map_app, Er. split; [done|].
    destruct V4 as [->|[Hex _]]; [done|congruence].
  - intros x tt f n Hx Hf. pose proof (remote_inv x Hx) as [V1 _ _ V4]. simpl in Hf.
    destruct V4 as [E|(_ & r & s & E & Hj & Ht)]; rewrite E in Hf; [done|]. simpl in Hf. simplify_eq.
    rewrite (join_concat _ _ Hj), <- V1. simpl. by rewrite !map_map.
  - intros x x' r Hx Hev Hf. pose proof (remote_inv x Hx) as [_ _ _ V4]. simpl in *.
    destruct V4 as [E|(Hex & _)]; [by rewrite E in Hf|].
    destruct (evolves_shows x x' Hev) as [(-> & _ & _ & [[-> _]|(_ & r' & s & E & _)])|(Hx' & _)]; [done| |congruence].
    by rewrite E in Hf.
Qed.

(** Cancelling the task that waits for a token gives it [GenerationFailedError]. *)
Lemma cancellation_becomes_failure x now :
  exhausted x = false → is_Some (join (parts x)) → result x = None → snd (anext now true x) = GenerationFailedError.
Proof. intros E [s Hs] Hr. unfold anext, finish, build_result. rewrite E. simpl. by rewrite Hr, Hs. Qed.

(** ** Both streams implement the contract *)

(** C30. Every step of the queue-backed stream (of its worker thread, the event loop, a call of
    [__anext__] or a call of [aclose], where nobody waits in [__anext__] at the moment [aclose]
    ends) and of the remote stream (a call of [__anext__], cancelled or not, whatever the server
    does, or a whole call of [aclose]) is a step of the abstract stream: a chunk with the next
    number, or the single terminal result whose text is the concatenation of the chunks, or
    nothing; and both start as the empty stream. *)
Theorem streams_refine_contract :
  (∀ x : QueueGenerationStream.t, Contract.fresh x → Contract.abstract x = Contract.spec_init) ∧
  (∀ x x' : QueueGenerationStream.t, Contract.lives x → Contract.evolves x x' →
     Contract.spec_step (Contract.abstract x) (Contract.abstract x')) ∧
  (∀ x : t, Contract.fresh x → Contract.abstract x = Contract.spec_init) ∧
  (∀ x x' : t, Contract.lives x → Contract.evolves x x' →
     Contract.spec_step (Contract.abstract x) (Contract.abstract x')).
Proof.
  split_and!; intros; first [by apply Contract.fresh_refines|by apply Contract.step_refines].
Qed.

(** A chunk, and a close that ends the generation, for both streams. *)
Definition two_chunks : producer :=
  Producer [(Json.JStr "a", outcome0); (Json.JStr "b", outcome0)] (Returned, outcome0) outcome0.
Definition read_remote : t := fst (anext 1 false (init two_chunks 0)).
Definition closed_remote : t := fst (aclose 2 read_remote).
Definition queue_start : QueueGenerationStream.t := QueueGenerationStream.init 2 0 0.
Definition queue_labels : list label :=
  map Thread [Yields ""; Yields ""; Yields ""; Yields ""; Yields "a"; Yields ""] ++ [RunCallback; Anext 1; Aclose].
Definition read_queue : QueueGenerationStream.t := default queue_start (run queue_labels queue_start).
Definition closed_queue : QueueGenerationStream.t := default queue_start (exec (AcloseResume 2 true) read_queue).
Lemma run_lives ls (x x' : QueueGenerationStream.t) : Contract.lives x → run ls x = Some x' →
  forallb (fun l => match l with AcloseResume _ _ => false | _ => true end) ls = true → Contract.lives x'.
Proof.
  revert x. induction ls as [|l ls IH]; intros x Hx; cbn [run forallb]; [by intros [= <-]|].
  destruct (exec l x) as [x1|] eqn:E; [|done]. cbn [mbind option_bind]. intros Hr [Hl Hls]%andb_true_iff. apply (IH x1); [|done..].
  eapply Contract.lives_step; [exact Hx|]. exists l. split; [done|]. by destruct l.
Qed.

Lemma streams_refine_contract_witness :
  Contract.spec_step (Contract.abstract read_queue) (Contract.abstract closed_queue) ∧
  Contract.told (Contract.abstract closed_queue) = Some ("a", CANCELLED, 1) ∧
  Contract.spec_step (Contract.abstract read_remote) (Contract.abstract closed_remote) ∧
  Contract.told (Contract.abstract closed_remote) = Some ("a", CANCELLED, 1).
Proof.
  destruct streams_refine_contract as (_ & Hq & _ & Hr). split_and!; [apply Hq|vm_compute; reflexivity|apply Hr|vm_compute; reflexivity].
  - apply (run_lives queue_labels queue_start); [apply Contract.lives_fresh; by exists 2, 0, 0%Q|vm_compute; reflexivity|reflexivity].
  - exists (AcloseResume 2 true). split; vm_compute; reflexivity.
  - eapply Contract.lives_step; [apply Contract.lives_fresh; by exists two_chunks, 0%Q|]. exists 1%Q. left. by exists false.
  - exists 2%Q. by right.
Defined.

(** ** A whole generation *)

Fixpoint pulls (n : nat) (now : Q) (x : t) : t * list answer :=
  match n with
  | O => (x, [])
  | S n' => let '(x', a) := anext now false x in let '(x2, l) := pulls n' now x' in (x2, a :: l)
  end.

Lemma pulls_chunks ys e o x now :
  tokens x = Producer ys (e, o) (shared (tokens x)) → exhausted x = false → result x = None →
  let '(x', l) := pulls (length ys) now x in
  l = imap (fun n y => Chunk (fst y) (index x + Z.of_nat n)) ys ∧
  parts x' = parts x ++ map fst ys ∧ index x' = index x + Z.of_nat (length ys) ∧
  todo (tokens x') = [] ∧ at_end (tokens x') = (e, o) ∧ exhausted x' = false ∧ result x' = None.
Proof.
  revert x. induction ys as [|[v o1] ys IH]; intros x Ht He Hr; cbn [length pulls].
  - rewrite Ht. simpl. split_and!; try done; [by rewrite app_nil_r|lia].
  - unfold anext. rewrite He, Ht. cbn [todo].
    match goal with |- context [pulls (length ys) now ?x1] => specialize (IH x1 ltac:(done) ltac:(done) ltac:(done));
      destruct (pulls (length ys) now x1) as [x2 l] end.
    cbn [index parts] in IH. destruct IH as (-> & Hp & Hi & H1). split_and!; try apply H1.
    + rewrite imap_cons. simpl. f_equal; [f_equal; lia|]. apply imap_ext. intros n y _. simpl. f_equal. lia.
    + rewrite Hp, <- app_assoc. done.
    + rewrite Hi. simpl length. lia.
Qed.

(** A client that reads a remote generation to its end gets every text the server sent on
    the attempt that counted, in order and numbered from zero; then the end of the stream if
    that attempt ended normally, with the finish reason the server gave, and a
    [GenerationFailedError] otherwise, with finish reason "error"; in both cases the result
    has all the text that was delivered. *)
Theorem remote_generation_faithful ys e o now :
  let x := init (Producer ys (e, o) outcome0) now in
  let '(x1, l) := pulls (length ys) now x in
  let '(x2, a) := anext now false x1 in
  l = imap (fun n y => Chunk (fst y) (Z.of_nat n)) ys ∧
  (∀ text, join (map fst ys) = Some text →
     a = (match e with Returned => StopAsyncIteration | Raised _ => GenerationFailedError end) ∧
     exhausted x2 = true ∧
     ∃ r, result x2 = Some r ∧ QueueGenerationStream.text r = text ∧
       finish_reason r = (match e with Returned => o_finish o | Raised _ => ERROR end) ∧
       completion_tokens r = (if usage_seen o then o_completion_tokens o else Z.of_nat (length ys))).
Proof.
  intros x. pose proof (pulls_chunks ys e o x now eq_refl eq_refl eq_refl) as H.
  destruct (pulls (length ys) now x) as [x1 l]. destruct H as (Hl & Hp & Hi & Ht & Ha & He & Hr).
  destruct (anext now false x1) as [x2 a] eqn:E. split; [exact Hl|]. intros text Hj.
  unfold anext in E. rewrite He, Ht, Ha in E. simpl in Hp, Hi.
  assert (∀ f b, finish f b now (with_tokens (Producer [] (Returned, o) o) x1)
    = (Mk (Producer [] (Returned, o) o) (index x1) (parts x1)
         (Timings (started_at (timings x1)) (first_token_at (timings x1)) (Some now))
         (Some (Result text f (if usage_seen o then o_prompt_tokens o else 0)
                  (if usage_seen o then o_completion_tokens o else index x1))) true (closed x1) (out x1), b)) as Hf.
  { intros f b. unfold finish, build_result. simpl. by rewrite Hr, Hp, Hj. }
  destruct e; rewrite Hf in E; injection E as <- <-; simpl; (split_and!; [done|done|]); eexists;
    (split_and!; [done|done|done|by rewrite Hi]).
Qed.

End RemoteGenerationStream.
