(* ===== verification/Backends.v ===== *)
(** * Concrete backends ([engine/inference/remote/], [llamacpp.py], [factory.py])

    [Module RemoteBackend] is the lifecycle of [OpenAICompatibleRemoteBackend] and the body
    it sends; a coroutine is split at its awaits and the server's answers are arguments.
    [Module CacheMetrics] parses the metrics text, [Module LlamaCpp] has the token producers
    of the local backend, [Module Factory] picks the backend the settings name.  The llama.cpp
    binding itself is a parameter: the list of the items its stream yields. *)

From S2P Require Import Prelude Crypto Text Placement Requests Stream Contract Remote.
From Stdlib Require Import Ascii.

Open Scope Z_scope.

Module RemoteBackend.
Import BackendRegistry.

(** The fields of [RemoteBackendConfig] that decide something. *)
Record config := Config {
  base_url : string;
  remote_model : string;
  cfg_model_id : string;
  api_key : option string;
  max_prestream_retries : Z;
  cfg_context_length : option Z;
  cfg_prefix_cache : bool;
  kv_metrics : bool
}.

Fixpoint lstrip_slash (s : string) : string :=
  match s with String c s' => if bool_decide (c = "/"%char) then lstrip_slash s' else s | EmptyString => "" end.
(** [s.rstrip("/")] *)
Definition rstrip_slash (s : string) : string := Text.rev_string (lstrip_slash (Text.rev_string s)).
(** [_normalize_base_url] *)
Definition normalize_base_url (u : string) : string :=
  let base := rstrip_slash u in
  if Text.endswith "/v1" base then Crypto.of_chars (take (length (Crypto.chars base) - 3) (Crypto.chars base)) else base.

(** An [httpx.AsyncClient] is known by the order of its creation; [headers] is what it sends
    with every request. *)
Record client := Client { c_id : nat; c_url : string; headers : list (string * string) }.

(** A call of [load] that waits for the model listing, or of [unload] that waits for
    [client.aclose()]. *)
Inductive pending := Verifying (c : client) | Closing.

Record t := Mk {
  cfg : config;
  st : BackendState;
  the_client : option client;
  ctx : Z;                         (* [_context_length] *)
  calls : gmap nat pending;
  created : nat
}.
(** [__init__] *)
Definition init (c : config) : t :=
  Mk c UNLOADED None (match cfg_context_length c with Some n => if n =? 0 then 4096 else n | None => 4096 end) ∅ 0.

Inductive error := ModelLoadError | BackendNotReadyError.

(** [load] up to the await of [_verify_model]; [k] names the call. *)
Definition load_begin (k : nat) (b : t) : t :=
  if readyish (st b) then b
  else
    let hs := match api_key (cfg b) with
              | Some key => if str_true key then [("Authorization", "Bearer " +:+ key)] else []
              | None => [] end in
    let c := Client (created b) (normalize_base_url (base_url (cfg b))) hs in
    Mk (cfg b) LOADING (the_client b) (ctx b) (<[k := Verifying c]> (calls b)) (S (created b)).

(** The answer to [GET /v1/models]: an exception, a status without or with a JSON payload. *)
Inductive listing := Unreachable | Listing (status : Z) (payload : option Json.t).

(** The entries of [payload.get("data", [])] with their ids; [None] for every exception. *)
Fixpoint entry_ids (l : list Json.t) : option (list Json.t) :=
  match l with
  | [] => Some []
  | e :: l' =>
      match Json.get "id" e with
      | None => None
      | Some i => if Json.hashable (default Json.JNull i) then r ← entry_ids l'; Some (default Json.JNull i :: r)
                  else None
      end
  end.
Definition data_of (payload : Json.t) : option (list Json.t) :=
  match Json.get "data" payload with
  | None => None
  | Some None => Some []
  | Some (Some (Json.JArr l)) => Some l
  | Some (Some (Json.JStr "")) | Some (Some (Json.JObj [])) => Some []
  | Some (Some _) => None
  end.
(** [isinstance(v, int)] *)
Definition as_int (v : option Json.t) : option Z :=
  match v with Some (Json.JInt z) => Some z | Some (Json.JBool b) => Some (if b then 1 else 0) | _ => None end.

(** [_verify_model]: the new context length, or [None] for any exception. *)
Definition verify_model (a : listing) (c : config) (old : Z) : option Z :=
  match a with
  | Unreachable => None
  | Listing status payload =>
      if negb (status =? 200) then None
      else
        p ← payload;
        l ← data_of p;
        ids ← entry_ids l;
        if negb (existsb (fun i => Json.eq_str i (remote_model c)) ids) then None
        else
          e ← find (fun e => match Json.get "id" e with
                             | Some (Some i) => Json.eq_str i (remote_model c)
                             | _ => false end) l;
          Some (match cfg_context_length c, as_int (default None (Json.get "max_model_len" e)) with
                | None, Some n => n
                | _, _ => old
                end)
  end.

(** The rest of [load]. *)
Definition load_end (k : nat) (a : listing) (b : t) : option (t * result error unit) :=
  match calls b !! k with
  | Some (Verifying c) =>
      match verify_model a (cfg b) (ctx b) with
      | None => Some (Mk (cfg b) UNLOADED (the_client b) (ctx b) (delete k (calls b)) (created b), Err ModelLoadError)
      | Some n => Some (Mk (cfg b) READY (Some c) n (delete k (calls b)) (created b), Ok tt)
      end
  | _ => None
  end.

(** [unload] up to its await (or to its end), and the rest. *)
Definition unload_begin (k : nat) (b : t) : t :=
  match the_client b with
  | Some _ => Mk (cfg b) (st b) None (ctx b) (<[k := Closing]> (calls b)) (created b)
  | None => Mk (cfg b) UNLOADED None (ctx b) (calls b) (created b)
  end.
Definition unload_end (k : nat) (b : t) : option t :=
  match calls b !! k with
  | Some Closing => Some (Mk (cfg b) UNLOADED (the_client b) (ctx b) (delete k (calls b)) (created b))
  | _ => None
  end.

Definition capabilities (b : t) : result error Capabilities :=
  if readyish (st b) then Ok (Caps (cfg_model_id (cfg b)) (ctx b) false (kv_metrics (cfg b)))
  else Err BackendNotReadyError.

(** [check_health]; [status] is the answer of the server, [None] for an exception. *)
Definition check_health (status : option Z) (b : t) : bool :=
  match the_client b with
  | None => false
  | Some _ => readyish (st b) && match status with Some s => s =? 200 | None => false end
  end.

(** [health] *)
Definition health (name : string) (b : t) : list (string * string) :=
  let state_value := match st b with
    | UNLOADED => "unloaded" | LOADING => "loading" | READY => "ready" | GENERATING => "generating" | FAILED => "failed" end in
  [("backend", name); ("state", state_value); ("base_url", base_url (cfg b)); ("remote_model", remote_model (cfg b))]
  ++ (if readyish (st b) then [("model_id", cfg_model_id (cfg b)); ("context_length", Text.str_int (ctx b))] else []).

(** ** The request body *)

Inductive bval :=
| BNull | BBool (b : bool) | BInt (z : Z) | BFloat (q : Q) | BStr (s : string)
| BList (l : list bval) | BObj (l : list (string * bval)).
Definition opt_int (o : option Z) : bval := match o with Some z => BInt z | None => BNull end.

Definition remote_backend : Type := t.
Import GenerationRequest.

(** [_request_body]: the path and the body. *)
Definition request_body (c : config) (r : GenerationRequest.t) : string * list (string * bval) :=
  let body :=
    [("model", BStr (remote_model c)); ("stream", BBool true);
     ("stream_options", BObj [("include_usage", BBool true)]);
     ("max_tokens", opt_int (max_tokens r)); ("temperature", BFloat (temperature r)); ("top_p", BFloat (top_p r));
     ("presence_penalty", BFloat (presence_penalty r)); ("frequency_penalty", BFloat (frequency_penalty r))]
    ++ (if top_k r =? 0 then [] else [("top_k", BInt (top_k r))])
    ++ (if Qeq_bool (min_p r) 0 then [] else [("min_p", BFloat (min_p r))])
    ++ (if Qeq_bool (repeat_penalty r) 1 then [] else [("repetition_penalty", BFloat (repeat_penalty r))])
    ++ (match seed r with Some s => [("seed", BInt s)] | None => [] end)
    ++ (match stop r with [] => [] | l => [("stop", BList (map BStr l))] end) in
  match messages r with
  | Some ms => ("/v1/chat/completions",
                body ++ [("messages", BList (map (fun m => BObj [("role", BStr (role_str (role m))); ("content", BStr (content m))]) ms))])
  | None => ("/v1/completions", body ++ [("prompt", match prompt r with Some p => BStr p | None => BNull end)])
  end.

(** [generate]: the stream over the token generator; [script] is what the server will do. *)
Definition generate (json_loads : string → option Json.t) (script : list StreamTokens.answer) (now : Q)
    (r : GenerationRequest.t) (b : remote_backend) : option (result error RemoteGenerationStream.t) :=
  if negb (match st b with READY => true | _ => false end) then Some (Err BackendNotReadyError)
  else
    '(ys, en, o) ← StreamTokens.stream_tokens json_loads (is_chat r) (max_prestream_retries (cfg b)) script 0 Sse.outcome0;
    Some (Ok (RemoteGenerationStream.init (RemoteGenerationStream.Producer ys (en, o) Sse.outcome0) now)).

(** ** What the backend guarantees *)

(** Ready means verified: [load] ends well only when the server answered its model listing
    with 200 and a list that has the configured model; every other answer is a
    [ModelLoadError] and leaves the backend unloaded. *)
Lemma load_verified k a b b' r :
  load_end k a b = Some (b', r) →
  match r with
  | Ok _ => st b' = READY ∧ (∃ c, the_client b' = Some c) ∧
            ∃ p l e, a = Listing 200 (Some p) ∧ data_of p = Some l ∧ e ∈ l ∧
                     ∃ i, Json.get "id" e = Some (Some i) ∧ Json.eq_str i (remote_model (cfg b)) = true
  | Err e => e = ModelLoadError ∧ st b' = UNLOADED ∧ the_client b' = the_client b
  end.
Proof.
  unfold load_end. destruct (calls b !! k) as [[c|]|]; [|done..].
  destruct (verify_model a (cfg b) (ctx b)) as [n|] eqn:Ev; intros [= <- <-]; [|done].
  split; [done|]. split; [by exists c|]. unfold verify_model in Ev.
  destruct a as [|status payload]; [done|]. destruct (Z.eqb_spec status 200) as [->|]; [|done].
  destruct payload as [p|]; [|done]. simpl in Ev. destruct (data_of p) as [l|] eqn:El; [|done]. simpl in Ev.
  destruct (entry_ids l) as [ids|]; [|done]. simpl in Ev. destruct (negb _); [done|].
  destruct (find _ l) as [e|] eqn:Ef; [|done]. apply find_ext_some in Ef as [He Hi].
  exists p, l, e. split_and!; try done. destruct (Json.get "id" e) as [[i|]|]; try done. by exists i.
Qed.

(** [generate] while [unload] waits for the old client: the state is still ready, but there
    is no client any more. *)
Lemma generate_during_remote_unload :
  ∃ b, let b1 := unload_begin 1 b in st b = READY ∧ is_Some (the_client b) ∧
    the_client b1 = None ∧
    ∃ x, generate (fun _ => None) [StreamTokens.NoConnection; StreamTokens.NoConnection] 0
           (Req (Some "p") None "" None 1 1 0 None [] 0 1 0 0 0 5 0 None None false) b1 = Some (Ok x).
Proof.
  exists (Mk (Config "http://h" "m" "m" None 1 None true true) READY (Some (Client 0 "http://h" [])) 4096 ∅ 1).
  simpl. split_and!; [done|by eexists|done|]. eexists. vm_compute. reflexivity.
Qed.

End RemoteBackend.

Module CacheMetrics.

(** [s.splitlines()]: line boundaries among the code points up to 255. *)
Definition is_break (c : ascii) : bool :=
  let n := Crypto.code c in
  ((10 <=? n) && (n <=? 13)) || ((28 <=? n) && (n <=? 30)) || (n =? 133).
Fixpoint split_lines (l : list ascii) (cur : list ascii) : list (list ascii) :=
  match l with
  | [] => match cur with [] => [] | _ => [rev cur] end
  | c :: l' =>
      if is_break c then
        rev cur :: match l' with
                   | d :: l2 => if (Crypto.code c =? 13) && (Crypto.code d =? 10) then split_lines l2 []
                                else split_lines l' []
                   | [] => []
                   end
      else split_lines l' (c :: cur)
  end.
Definition splitlines (s : string) : list string := map Crypto.of_chars (split_lines (Crypto.chars s) []).
(** [s.rpartition(" ")]: what is left and right of the last blank. *)
Definition rpartition (s : string) : string * string :=
  let '(a, b) := Text.partition " "%char (Text.rev_string s) in
  if Text.mem " "%char s then (Text.rev_string b, Text.rev_string a) else ("", s).

Section Metrics.
Context (float_of : string → option Q).

(** The samples of the text: [values], in insertion order. *)
Definition add_value (name : string) (x : Q) (d : list (string * list Q)) : list (string * list Q) :=
  dict_set name (default [] (dict_get name d) ++ [x]) d.
Definition sample (raw : string) (d : list (string * list Q)) : list (string * list Q) :=
  let line := Text.strip raw in
  if negb (str_true line) || Text.startswith "#" line then d
  else
    let '(lhs, val) := rpartition line in
    if negb (str_true lhs) then d
    else match float_of val with
         | None => d
         | Some x => add_value (Text.strip (fst (Text.partition "{"%char lhs))) x d
         end.
Definition samples (text : string) : list (string * list Q) :=
  fold_left (fun d l => sample l d) (splitlines text) [].
(** The local function [first]. *)
Fixpoint first (names : list string) (d : list (string * list Q)) : option (list Q) :=
  match names with
  | [] => None
  | n :: ns => match dict_get n d with Some (x :: l) => Some (x :: l) | _ => first ns d end
  end.
Definition qsum (l : list Q) : Q := fold_left Qplus l 0%Q.

(** [_parse_cache_metrics]: utilization and hit rate, [None] for an empty result. *)
Definition parse_cache_metrics (text : string) : option (option Q * option Q) :=
  let d := samples text in
  let kv := l ← first ["vllm:gpu_cache_usage_perc"; "sglang:token_usage"; "sglang:kv_cache_usage"] d; head l in
  let hit :=
    match first ["vllm:prefix_cache_hit_rate"; "sglang:cache_hit_rate"] d with
    | Some l => head l
    | None =>
        match first ["vllm:prefix_cache_hits_total"] d, first ["vllm:prefix_cache_queries_total"] d with
        | Some hits, Some queries =>
            let total := qsum queries in
            if bool_decide (0 < total)%Q then Some (qsum hits / total)%Q else None
        | _, _ => None
        end
    end in
  match kv, hit with None, None => None | _, _ => Some (kv, hit) end.

(** [cache_stats]; [answer] is the status and text of [GET /metrics], [None] for an exception. *)
Definition cache_stats (answer : option (Z * string)) (b : RemoteBackend.t) : option (option Q * option Q) :=
  if negb (RemoteBackend.kv_metrics (RemoteBackend.cfg b)) then None
  else match RemoteBackend.the_client b with
       | None => None
       | Some _ =>
           if negb (BackendRegistry.readyish (RemoteBackend.st b)) then None
           else match answer with
                | Some (status, text) => if status =? 200 then parse_cache_metrics text else None
                | None => None
                end
       end.
End Metrics.

Example metrics_example :
  let f s := if bool_decide (s = "0.5") then Some (1 # 2)%Q else if bool_decide (s = "3") then Some 3%Q
             else if bool_decide (s = "4") then Some 4%Q else None in
  let nl := String (Crypto.char 10) "" in
  parse_cache_metrics f
    ("# HELP x" +:+ nl +:+ "vllm:gpu_cache_usage_perc{model=m} 0.5" +:+ nl +:+
     "vllm:prefix_cache_hits_total 3" +:+ nl +:+ "vllm:prefix_cache_queries_total 4" +:+ nl)
  = Some (Some (1 # 2)%Q, Some (3 / 4)%Q).
Proof. vm_compute. reflexivity. Qed.

End CacheMetrics.

(** ** The local backend *)

Module LlamaCpp.
Import GenerationRequest RemoteBackend QueueGenerationStream.

(** [_sampler_kwargs] *)
Definition sampler_kwargs (r : GenerationRequest.t) : list (string * bval) :=
  [("max_tokens", opt_int (max_tokens r)); ("temperature", BFloat (temperature r)); ("top_p", BFloat (top_p r));
   ("top_k", BInt (top_k r)); ("min_p", BFloat (min_p r)); ("repeat_penalty", BFloat (repeat_penalty r));
   ("presence_penalty", BFloat (presence_penalty r)); ("frequency_penalty", BFloat (frequency_penalty r));
   ("seed", opt_int (seed r)); ("stop", match stop r with [] => BNull | l => BList (map BStr l) end)]
  ++ (if mirostat_mode r =? 0 then []
      else [("mirostat_mode", BInt (mirostat_mode r)); ("mirostat_tau", BFloat (mirostat_tau r));
            ("mirostat_eta", BFloat (mirostat_eta r))]).

(** [_structured_kwargs]; the compiled grammar is its text. *)
Inductive structured := Unconstrained | Grammar (g : string) | Schema (s : Json.t) | AnyJson.
Definition structured_kwargs (r : GenerationRequest.t) : structured :=
  match grammar r, json_schema r with
  | Some g, _ => Grammar g
  | None, Some s => Schema s
  | None, None => if json_object r then AnyJson else Unconstrained
  end.

(** [item["choices"][0]]; [None] for any exception. *)
Definition first_choice (item : Json.t) : option Json.t :=
  match default None (Json.get "choices" item) with
  | Some (Json.JArr (c :: _)) => Some c
  | _ => None
  end.
(** The text of an item: [choice.get("text", "")], or the content of the delta. *)
Definition item_text (chat : bool) (choice : Json.t) : option Json.t :=
  if chat then
    d ← Json.get "delta" choice;
    c ← Json.get "content" (default (Json.JObj []) d);
    Some (match c with Some v => if Json.truthy v then v else Json.JStr "" | None => Json.JStr "" end)
  else t ← Json.get "text" choice; Some (default (Json.JStr "") t).

(** How a producer ends. *)
Inductive produced := Finished (f : FinishReason) | Failed.

(** [_completion_producer] and [_chat_producer] on the items of the binding's stream; the
    flag says whether [cancel.is_set()] when the item arrives. *)
Fixpoint produce (chat : bool) (items : list (Json.t * bool)) (finish : FinishReason) : list Json.t * produced :=
  match items with
  | [] => ([], Finished finish)
  | (item, cancelled) :: rest =>
      if cancelled then ([], Finished CANCELLED)
      else match first_choice item with
           | None => ([], Failed)
           | Some choice =>
               match item_text chat choice with
               | None => ([], Failed)
               | Some text =>
                   match Json.get "finish_reason" choice with
                   | None => ([], Failed)
                   | Some reason =>
                       let finish := if match reason with Some v => Json.eq_str v "length" | None => false end
                                     then LENGTH else finish in
                       let '(ys, e) := produce chat rest finish in
                       (if Json.truthy text then text :: ys else ys, e)
                   end
               end
           end
  end.

(** A cancelled producer yields nothing more, and its end says so. *)
Lemma produce_cancelled chat items item rest finish :
  Forall (fun p => snd p = false) items → snd (produce chat items finish) ≠ Failed →
  produce chat (items ++ (item, true) :: rest) finish = (fst (produce chat items finish), Finished CANCELLED).
Proof.
  intros Hi. revert finish. induction items as [|[it c] items IH]; intros finish Hf; [done|].
  inversion Hi as [|? ? Hc Hi']; subst. simpl in Hc. subst c. simpl in *.
  destruct (first_choice it) as [ch|]; [|done]. destruct (item_text chat ch) as [t|]; [|done].
  destruct (Json.get "finish_reason" ch) as [reason|]; [|done].
  specialize (IH Hi' (if match reason with Some v => Json.eq_str v "length" | None => false end then LENGTH else finish)).
  destruct (produce chat items _) as [ys e]. simpl in *. rewrite IH by done. done.
Qed.

End LlamaCpp.

(** ** Choosing a backend *)

Module Factory.

(** The settings [build_backend] reads. *)
Record settings := Settings {
  backend_kind : string;
  model_path : option string;
  allow_remote_backends : bool;
  remote_base_url : option string;
  s_remote_model : option string
}.
Inductive choice := Local (path : string) | RemoteVLLM | RemoteSGLang.
Inductive failure := ModelLoadError | KeyError.

Definition build_remote (s : settings) : result failure choice :=
  if negb (allow_remote_backends s) then Err ModelLoadError
  else if negb (ostr_true (remote_base_url s)) || negb (ostr_true (s_remote_model s)) then Err ModelLoadError
  else if bool_decide (backend_kind s = "remote_vllm") then Ok RemoteVLLM
  else if bool_decide (backend_kind s = "remote_sglang") then Ok RemoteSGLang
  else Err KeyError.
Definition build_backend (s : settings) : result failure choice :=
  if Text.startswith "remote_" (backend_kind s) then build_remote s
  else match model_path s with None => Err ModelLoadError | Some p => Ok (Local p) end.

(** No backend leaves the host unless the operator allowed it. *)
Lemma build_backend_egress s c :
  build_backend s = Ok c → c = RemoteVLLM ∨ c = RemoteSGLang → allow_remote_backends s = true.
Proof.
  unfold build_backend, build_remote. intros H Hc.
  destruct (Text.startswith _ _); [|destruct (model_path s); [injection H as <-; by destruct Hc|done]].
  by destruct (allow_remote_backends s).
Qed.

End Factory.
