(* ===== verification/Edges.v ===== *)
(** * The HTTP edges ([engine/api/errors.py], [openai_router.py], [anthropic_router.py], [deps.py])

    [Module ApiErrors] are the exception handlers, [Module SseEdge] the generator [_sse] that
    both dialects have (it is written once, over the frames of a dialect and over any stream
    that keeps the contract), [Module OpenAIEdge] and [Module AnthropicEdge] the frames and
    the non-streaming responses of the two routers.  A frame is its event; its JSON text is
    not modelled. *)

From S2P Require Import Prelude Crypto Text Stream Contract Requests Gateway Remote.

Open Scope Z_scope.

Module ApiErrors.

Definition headers := list (string * string).

(** One entry of [RequestValidationError.errors()]: [loc] as text, and [msg]. *)
Record validation_error := Bad { loc : list string; msg : option string }.

Inductive api_exn :=
| AnthropicError (message : string) (status : Z) (type : string) (h : option headers)
| OpenAIError (message : string) (status : Z) (type : string) (param code : option string) (h : option headers)
| RequestValidationError (errors : list validation_error)
| BackendNotReadyError (text : string)
| FeatureUnsupportedError (features : list string)      (* sorted *)
| BackendBusyError (text : string)
| GenerationFailedError (text : string).

Inductive envelope :=
| OpenAIEnvelope (message type : string) (param code : option string)
| AnthropicEnvelope (type message : string).
Record response := Response { status_code : Z; body : envelope; response_headers : option headers }.

Record request := Request { path : string; request_id : option string }.

(** [_with_request_id] *)
Definition with_request_id (r : request) (h : option headers) : option headers :=
  match request_id r with
  | None => h
  | Some i =>
      let merged := default [] h in
      Some (if bool_decide (is_Some (dict_get "x-request-id" merged)) then merged
            else dict_set "x-request-id" i merged)
  end.
Definition error_response (message : string) (status : Z) (type : string) (param code : option string)
    (h : option headers) : response := Response status (OpenAIEnvelope message type param code) h.
Definition anthropic_error_response (message : string) (status : Z) (type : string) (h : option headers) : response :=
  Response status (AnthropicEnvelope type message) h.

Definition anthropic_path (r : request) : bool := Text.startswith "/v1/messages" (path r).
(** [s or d] *)
Definition or_default (s d : string) : string := if str_true s then s else d.

(** The two shapes of the shared handlers. *)
Definition in_dialect (r : request) (detail : string) (status : Z) (anthropic_type openai_type : string)
    (param code : option string) : response :=
  if anthropic_path r then anthropic_error_response detail status anthropic_type (with_request_id r None)
  else error_response detail status openai_type param code (with_request_id r None).

(** [register_exception_handlers]: the response to an exception. *)
Definition handle (r : request) (e : api_exn) : response :=
  match e with
  | AnthropicError m s t h => anthropic_error_response m s t (with_request_id r h)
  | OpenAIError m s t p c h => error_response m s t p c (with_request_id r h)
  | RequestValidationError errors =>
      let '(loc, msg) := match errors with
                         | e :: _ => (loc e, default "invalid request" (msg e))
                         | [] => ([], "invalid request") end in
      let joined := Text.join "." (drop 1 loc) in
      let param := if str_true joined then Some joined else None in
      let detail := match param with Some p => p +:+ ": " +:+ msg | None => msg end in
      in_dialect r detail 400 "invalid_request_error" "invalid_request_error" param None
  | BackendNotReadyError t =>
      in_dialect r (or_default t "no model is loaded") 503 "api_error" "service_unavailable" None (Some "model_not_loaded")
  | FeatureUnsupportedError fs =>
      let structured := bool_decide ("structured_output" ∈ fs) in
      let detail := if structured
        then "structured output (response_format json) is not supported by any engine serving this model"
        else "required feature(s) " +:+ Text.join ", " fs +:+ " not supported by any engine serving this model" in
      in_dialect r detail 400 "invalid_request_error" "invalid_request_error"
        (if structured then Some "response_format" else None)
        (Some (if structured then "structured_output_unsupported" else "feature_unsupported"))
  | BackendBusyError t =>
      in_dialect r (or_default t "the model is busy") 503 "api_error" "service_unavailable" None (Some "model_busy")
  | GenerationFailedError t =>
      in_dialect r (or_default t "generation failed") 500 "api_error" "server_error" None None
  end.

Definition is_anthropic (v : envelope) : bool := match v with AnthropicEnvelope _ _ => true | _ => false end.
(** The exceptions an edge raises in its own dialect. *)
Definition own_dialect (e : api_exn) : option bool :=
  match e with AnthropicError _ _ _ _ => Some true | OpenAIError _ _ _ _ _ _ => Some false | _ => None end.

Definition own_headers (e : api_exn) : option headers :=
  match e with AnthropicError _ _ _ h | OpenAIError _ _ _ _ _ h => h | _ => None end.

(** [setdefault]: the request's id, unless the headers already name one. *)
Lemma request_id_present r h i :
  request_id r = Some i →
  ∃ hs, with_request_id r h = Some hs ∧
    dict_get "x-request-id" hs = Some (default i (dict_get "x-request-id" (default [] h))).
Proof.
  intros E. unfold with_request_id. rewrite E. eexists. split; [done|]. case_bool_decide as Hd.
  - by destruct Hd as [v ->].
  - rewrite dict_get_set_eq. apply eq_None_not_Some in Hd. by rewrite Hd.
Qed.

(** The envelope of a response is Anthropic's exactly on the Anthropic path, except that an
    error class of one dialect is answered in that dialect on any path; the status is the
    one the exception carries, or that of its class; and a request that was assigned a
    correlation id gets it back, unless the exception's own headers name another. *)
Lemma errors_in_dialect r e :
  let out := handle r e in
  is_anthropic (body out) = default (anthropic_path r) (own_dialect e) ∧
  status_code out = match e with
                    | AnthropicError _ s _ _ | OpenAIError _ s _ _ _ _ => s
                    | RequestValidationError _ | FeatureUnsupportedError _ => 400
                    | BackendNotReadyError _ | BackendBusyError _ => 503
                    | GenerationFailedError _ => 500
                    end ∧
  (∀ i, request_id r = Some i → ∃ hs, response_headers out = Some hs ∧
     dict_get "x-request-id" hs = Some (default i (dict_get "x-request-id" (default [] (own_headers e))))).
Proof.
  assert (∀ d s a o p c, is_anthropic (body (in_dialect r d s a o p c)) = anthropic_path r ∧
    status_code (in_dialect r d s a o p c) = s ∧
    response_headers (in_dialect r d s a o p c) = with_request_id r None) as H
    by (intros; unfold in_dialect; by destruct (anthropic_path r)).
  destruct e as [m s t h|m s t p c h|errors|t|fs|t|t]; unfold handle, own_headers.
  - split_and!; [done|done|intros i; apply request_id_present].
  - split_and!; [done|done|intros i; apply request_id_present].
  - destruct (match errors with [] => _ | _ :: _ => _ end) as [lc ms]. cbv zeta.
    edestruct H as (-> & -> & ->). split_and!; [done|done|intros i; apply request_id_present].
  - edestruct H as (-> & -> & ->). split_and!; [done|done|intros i; apply request_id_present].
  - cbv zeta. edestruct H as (-> & -> & ->). split_and!; [done|done|intros i; apply request_id_present].
  - edestruct H as (-> & -> & ->). split_and!; [done|done|intros i; apply request_id_present].
  - edestruct H as (-> & -> & ->). split_and!; [done|done|intros i; apply request_id_present].
Qed.

(** What the gateway raises, as the handlers see it (its message is not modelled there). *)
Definition of_gateway (message type : string) (e : Gateway.OpenAIError) : api_exn :=
  OpenAIError message (Gateway.status_code e) type None (Some (Gateway.code e)) (Some (Gateway.err_headers e)).

(** The gateway raises [OpenAIError] on both paths, so a client of the Anthropic path gets
    its refusals (authentication, rates, quotas) in the OpenAI envelope. *)
Lemma gateway_error_wrong_dialect m ty e rid :
  anthropic_path (Request "/v1/messages" rid) = true ∧
  is_anthropic (body (handle (Request "/v1/messages" rid) (of_gateway m ty e))) = false.
Proof. done. Qed.

End ApiErrors.

(** ** The streaming generator of both routers *)

Module SseEdge.
Import QueueGenerationStream.

Definition res : Type := string * FinishReason * Z.     (* text, finish reason, completion tokens *)

(** The frames of a dialect: before the first token, for a token, at the end (with the stream's
    result, if it has one, and the number of tokens emitted), and after a failure. *)
Record dialect (F : Type) := Dialect {
  opening : list F;
  delta : string → F;
  ending : option res → nat → list F;
  failing : list F
}.
Arguments Dialect {F}.
Arguments opening {F}.
Arguments delta {F}.
Arguments ending {F}.
Arguments failing {F}.

(** Where [_sse] is: yielding frames it has decided on, in its [async for], or in [finally]. *)
Inductive phase F := Opening (todo : list F) | Iterating | Ending (todo : list F) | Failing (todo : list F)
                   | Closing | Finished.
Arguments Opening {F}.
Arguments Iterating {F}.
Arguments Ending {F}.
Arguments Failing {F}.
Arguments Closing {F}.
Arguments Finished {F}.

Section Edge.
Context {F : Type} (d : dialect F) {S : Type} `{Contract.GenerationStreamLaws S}.

(** [frames]: what was yielded.  [accounted]: the calls of [finish_generation]; [error]: the
    error it is given. *)
Record edge := Edge { stream : S; at_ : phase F; frames : list F; accounted : nat; error : bool }.
Definition start (s : S) : edge := Edge s (Opening (opening d)) [] 0 false.
Definition goto (p : phase F) (e : edge) : edge := Edge (stream e) p (frames e) (accounted e) (error e).
Definition emit (f : F) (p : phase F) (e : edge) : edge := Edge (stream e) p (frames e ++ [f]) (accounted e) (error e).

Definition open_phase (p : phase F) : Prop := match p with Closing | Finished => False | _ => True end.

(** One step.  The consumer resumes the generator after each frame, or abandons it: a client
    that disconnects raises [GeneratorExit] or [CancelledError] at a yield or an await, which
    no [except Exception] catches. *)
Inductive step : edge → edge → Prop :=
| s_open f fs e : at_ e = Opening (f :: fs) → step e (emit f (Opening fs) e)
| s_opened e : at_ e = Opening [] → step e (goto Iterating e)
| s_background e s' : open_phase (at_ e) → Contract.evolves (stream e) s' →
    Contract.returned s' = Contract.returned (stream e) →
    step e (Edge s' (at_ e) (frames e) (accounted e) (error e))
| s_token e s' t i : at_ e = Iterating → Contract.evolves (stream e) s' →
    Contract.returned s' = Contract.returned (stream e) ++ [(t, i)] →
    step e (Edge s' Iterating (frames e ++ [delta d t]) (accounted e) (error e))
| s_end e r : at_ e = Iterating → Contract.final (stream e) = Some r →
    step e (goto (Ending (ending d (Some r) (length (Contract.returned (stream e))))) e)
| s_fail e : at_ e = Iterating →
    step e (Edge (stream e) (Failing (failing d)) (frames e) (accounted e) true)
| s_ending f fs e : at_ e = Ending (f :: fs) → step e (emit f (Ending fs) e)
| s_failing f fs e : at_ e = Failing (f :: fs) → step e (emit f (Failing fs) e)
| s_close e : at_ e = Ending [] ∨ at_ e = Failing [] → step e (goto Closing e)
| s_disconnect e : open_phase (at_ e) → step e (goto Closing e)
| s_finish e : at_ e = Closing →                    (* [aclose] returned, raised or was interrupted *)
    step e (Edge (stream e) Finished (frames e) (Datatypes.S (accounted e)) (error e)).

Inductive reachable (s : S) : edge → Prop :=
| reach_start : reachable s (start s)
| reach_step e e' : reachable s e → step e e' → reachable s e'.

Definition deltas (s : S) : list F := map (fun c => delta d (fst c)) (Contract.returned s).
(** The frames a whole run would have. *)
Definition script (s : S) (tail : list F) : list F := opening d ++ deltas s ++ tail.
Definition tail_ok (s : S) (tail : list F) : Prop :=
  tail = [] ∨ tail = failing d ∨
  ∃ r, Contract.final s = Some r ∧ tail = ending d (Some r) (length (Contract.returned s)).

Record inv (e : edge) : Prop := Inv {
  v_lives : Contract.lives (stream e);
  v_frames : match at_ e with
    | Opening todo => frames e ++ todo = opening d ∧ Contract.returned (stream e) = []
    | Iterating => frames e = script (stream e) []
    | Ending todo => ∃ r, Contract.final (stream e) = Some r ∧
        frames e ++ todo = script (stream e) (ending d (Some r) (length (Contract.returned (stream e))))
    | Failing todo => frames e ++ todo = script (stream e) (failing d)
    | Closing | Finished => ∃ tail rest, tail_ok (stream e) tail ∧ frames e ++ rest = script (stream e) tail
    end;
  v_accounted : accounted e = match at_ e with Finished => 1%nat | _ => 0%nat end
}.

Lemma inv_closed e : inv e → open_phase (at_ e) →
  ∃ tail rest, tail_ok (stream e) tail ∧ frames e ++ rest = script (stream e) tail.
Proof.
  intros [_ V _] Ho. destruct (at_ e) as [todo| |todo|todo| |]; try done.
  - destruct V as [V1 V2]. exists [], todo. split; [by left|]. unfold script, deltas. rewrite V2. simpl.
    by rewrite app_nil_r.
  - exists [], []. split; [by left|]. by rewrite app_nil_r.
  - destruct V as (r & V1 & V2). exists (ending d (Some r) (length (Contract.returned (stream e)))), todo.
    split; [right; right; eauto|done].
  - exists (failing d), todo. split; [right; by left|done].
Qed.

Lemma edge_inv_step e e' : inv e → step e e' → inv e'.
Proof.
  intros I St. pose proof I as [V1 V2 V3]. destruct St as
    [f fs e E|e E|e s' Ho Hev Hr|e s' t i E Hev Hr|e r E Hf|e E|f fs e E|f fs e E|e E|e Ho|e E];
    try rewrite E in V2, V3.
  - split; simpl; [done| |done]. destruct V2 as [V2 V2']. by rewrite <- app_assoc.
  - split; simpl; [done| |done]. destruct V2 as [V2 V2']. unfold script, deltas. rewrite V2'. simpl. by rewrite <- V2, !app_nil_r.
  - split; simpl; [by eapply Contract.lives_step| |done].
    assert (∀ tl, script s' tl = script (stream e) tl) as Es by (intros; unfold script, deltas; by rewrite Hr).
    destruct (at_ e) as [todo| |todo|todo| |]; try done; rewrite ?Es, ?Hr; try done.
    destruct V2 as (r & Hf & V2). exists r. split; [|by rewrite Es, ?Hr].
    by apply (Contract.final_stable (stream e) s' r).
  - split; simpl; [by eapply Contract.lives_step| |done]. rewrite V2. unfold script, deltas. rewrite Hr, map_app.
    simpl. by rewrite !app_nil_r, !app_assoc.
  - split; simpl; [done| |done]. exists r. split; [done|]. rewrite V2. unfold script. by rewrite app_nil_r, app_assoc.
  - split; simpl; [done| |done]. rewrite V2. unfold script. by rewrite app_nil_r, app_assoc.
  - split; simpl; [done| |done]. destruct V2 as (r & Hf & V2). exists r. by rewrite <- app_assoc.
  - split; simpl; [done| |done]. by rewrite <- app_assoc.
  - split; simpl; [done| |destruct E as [E|E]; by rewrite E in V3].
    apply inv_closed; [done|]. by destruct E as [->| ->].
  - split; simpl; [done| |by destruct (at_ e)]. by apply inv_closed.
  - split; simpl; [done|done|by rewrite V3].
Qed.

Lemma edge_inv s e : Contract.fresh s → reachable s e → inv e.
Proof.
  intros Hs. induction 1 as [|e e' _ IH St]; [|by eapply edge_inv_step].
  split; simpl; [by apply Contract.lives_fresh| |done]. split; [done|]. by apply Contract.fresh_empty.
Qed.

(** *** What the client has read *)

(** The text of a frame, and the frames that announce the normal end. *)
Context (content : F → string) (announces : F → bool).
Hypothesis content_delta : ∀ t, content (delta d t) = t.
Hypothesis quiet : ∀ f r n, f ∈ opening d ∨ f ∈ failing d ∨ f ∈ ending d (Some r) n → content f = "".
Hypothesis announced : ∀ f, announces f = true → (f ∉ opening d) ∧ (f ∉ failing d) ∧ ∀ t, f ≠ delta d t.

Lemma concat_app l l' : String.concat "" (l ++ l') = String.concat "" l +:+ String.concat "" l'.
Proof.
  induction l as [|a l IH]; [done|]. cbn [app]. destruct l as [|b l].
  - destruct l'; simpl; [by rewrite Text.append_nil|done].
  - change (String.concat "" (a :: (b :: l) ++ l')) with (a +:+ String.concat "" ((b :: l) ++ l')).
    change (String.concat "" (a :: b :: l)) with (a +:+ String.concat "" (b :: l)).
    rewrite IH. apply Text.append_assoc.
Qed.
Lemma concat_quiet l : (∀ f, f ∈ l → content f = "") → String.concat "" (map content l) = "".
Proof.
  induction l as [|f l IH]; intros Hq; [done|]. change (map content (f :: l)) with ([content f] ++ map content l).
  rewrite concat_app, IH by (intros; apply Hq; by right). rewrite (Hq f) by left. done.
Qed.
Lemma concat_deltas s : String.concat "" (map content (deltas s)) = String.concat "" (map fst (Contract.returned s)).
Proof. unfold deltas. rewrite map_map. f_equal. apply map_ext. intros c. apply content_delta. Qed.

Lemma prefix_past {A} (l a b : list A) x : l `prefix_of` a ++ b → x ∈ l → x ∉ a → ∃ m, l = a ++ m ∧ m `prefix_of` b.
Proof.
  intros [k Hk] Hx Ha. symmetry in Hk. apply app_eq_app in Hk as (m & [[-> ->]|[-> _]]).
  - exists m. split; [done|]. by exists k.
  - exfalso. apply Ha. apply elem_of_app. by left.
Qed.

(** When a frame announces the normal end, the client has read the whole text. *)
Lemma announced_text s e f : Contract.fresh s → reachable s e → f ∈ frames e → announces f = true →
  ∃ t fr n, Contract.final (stream e) = Some (t, fr, n) ∧
    f ∈ ending d (Some (t, fr, n)) (length (Contract.returned (stream e))) ∧
    String.concat "" (map content (frames e)) = t.
Proof.
  intros Hs He Hf Ha. pose proof (edge_inv s e Hs He) as I.
  destruct (announced f Ha) as (A1 & A2 & A3).
  assert (f ∉ deltas (stream e)) as A4.
  { intros (c & E & _)%list_elem_of_fmap. by apply (A3 (fst c)). }
  assert (∃ tail rest, tail_ok (stream e) tail ∧ frames e ++ rest = script (stream e) tail) as (tail & rest & Ht & E).
  { destruct (at_ e) eqn:Ea; try (apply inv_closed; [done|by rewrite Ea]);
      destruct I as [_ V _]; by rewrite Ea in V. }
  unfold script in E. rewrite app_assoc in E.
  destruct (prefix_past (frames e) (opening d ++ deltas (stream e)) tail f) as (m & Em & Hm);
    [rewrite <- E; by apply prefix_app_r|done|rewrite elem_of_app; tauto|].
  assert (f ∈ tail) as Hft.
  { destruct Hm as [k ->]. rewrite Em, !elem_of_app in Hf. rewrite elem_of_app. tauto. }
  destruct Ht as [->|[->|(r & Hr & ->)]]; [by apply not_elem_of_nil in Hft|done|].
  destruct r as [[t fr] n]. exists t, fr, n. split_and!; [done|done|].
  rewrite Em, !map_app, !concat_app, concat_deltas.
  rewrite (concat_quiet (opening d)) by (intros g Hg; by apply (quiet g (t, fr, n) 0); left).
  rewrite (concat_quiet m).
  - rewrite Text.append_nil. simpl. symmetry. by apply (Contract.final_text (stream e) t fr n (v_lives _ I)).
  - intros g Hg. apply (quiet g (t, fr, n) (length (Contract.returned (stream e)))). right. right.
    by eapply elem_of_prefix.
Qed.

End Edge.
Arguments edge F S : clear implicits.
End SseEdge.

Module OpenAIEdge.
Import QueueGenerationStream SseEdge.

(** [_finish_reason] *)
Definition finish_reason (f : FinishReason) : string := match f with LENGTH => "length" | _ => "stop" end.

(** The chunks and markers of [_sse]. *)
Inductive frame := RoleChunk | ContentChunk (t : string) | FinishChunk (reason : string) | ErrorChunk | DoneMarker.
Definition sse : dialect frame :=
  Dialect [RoleChunk] ContentChunk (fun r _ => [FinishChunk (match r with Some (_, f, _) => finish_reason f | None => "stop" end); DoneMarker])
          [ErrorChunk; DoneMarker].
Definition content (f : frame) : string := match f with ContentChunk t => t | _ => "" end.

(** The non-streaming response: [ChatCompletion]. *)
Record ChatCompletion := Completion {
  text : string; finish : string; prompt_tokens : Z; completion_tokens : Z; total_tokens : Z }.
Definition completion (r : GenerationResult) : ChatCompletion :=
  Completion (QueueGenerationStream.text r) (finish_reason (QueueGenerationStream.finish_reason r))
    (r_prompt_tokens r) (QueueGenerationStream.completion_tokens r)
    (r_prompt_tokens r + QueueGenerationStream.completion_tokens r).

(** [_saturated] *)
Definition saturated (retry_after : Z) : ApiErrors.api_exn :=
  ApiErrors.OpenAIError "the engine is at capacity; please retry shortly" 429 "rate_limit_error" None
    (Some "engine_saturated") (Some [("retry-after", Text.str_int retry_after)]).

End OpenAIEdge.

Module AnthropicEdge.
Import QueueGenerationStream SseEdge.

(** [_stop_reason] *)
Definition stop_reason (f : FinishReason) : string := match f with LENGTH => "max_tokens" | _ => "end_turn" end.

Inductive frame :=
| MessageStart (input_tokens : Z) | ContentBlockStart | Ping | ContentBlockDelta (t : string)
| ContentBlockStop | MessageDelta (stop : string) (output_tokens : Z) | MessageStop | ErrorEvent.
Definition sse (input_tokens : Z) : dialect frame :=
  Dialect [MessageStart input_tokens; ContentBlockStart; Ping] ContentBlockDelta
          (fun r emitted => [ContentBlockStop;
             match r with
             | Some (_, f, n) => MessageDelta (stop_reason f) n
             | None => MessageDelta "end_turn" (Z.of_nat emitted)
             end; MessageStop])
          [ErrorEvent].
Definition content (f : frame) : string := match f with ContentBlockDelta t => t | _ => "" end.

(** The non-streaming response: [MessagesResponse]. *)
Record MessagesResponse := Message { text : string; stop : string; input_tokens : Z; output_tokens : Z }.
Definition response (r : GenerationResult) : MessagesResponse :=
  Message (QueueGenerationStream.text r) (stop_reason (QueueGenerationStream.finish_reason r))
    (r_prompt_tokens r) (QueueGenerationStream.completion_tokens r).

Definition saturated (retry_after : Z) : ApiErrors.api_exn :=
  ApiErrors.AnthropicError "the engine is at capacity; please retry shortly" 529 "overloaded_error"
    (Some [("retry-after", Text.str_int retry_after)]).

End AnthropicEdge.

(** ** What a streaming client sees *)

Module StreamingClient.
Import QueueGenerationStream SseEdge.

Lemma openai_quiet f r n : f ∈ opening OpenAIEdge.sse ∨ f ∈ failing OpenAIEdge.sse ∨ f ∈ ending OpenAIEdge.sse r n →
  OpenAIEdge.content f = "".
Proof. simpl. destruct r as [[[? ?] ?]|]; set_solver. Qed.
Lemma anthropic_quiet p f r n :
  f ∈ opening (AnthropicEdge.sse p) ∨ f ∈ failing (AnthropicEdge.sse p) ∨ f ∈ ending (AnthropicEdge.sse p) r n →
  AnthropicEdge.content f = "".
Proof. simpl. destruct r as [[[? ?] ?]|]; set_solver. Qed.

Definition is_finish (f : OpenAIEdge.frame) : bool := match f with OpenAIEdge.FinishChunk _ => true | _ => false end.
Definition is_message_delta (f : AnthropicEdge.frame) : bool :=
  match f with AnthropicEdge.MessageDelta _ _ => true | _ => false end.

Section Any.
Context {S : Type} `{Contract.GenerationStreamLaws S}.


(** The Anthropic stream over any backend: message start, block start and ping, one delta per
    token, and block stop, message delta and message stop, or an error event; a message delta
    means that the deltas before it add up to the text of the result, and carries its stop
    reason and its token count; the request is accounted for exactly once. *)
Theorem anthropic_stream_wellformed (s : S) p e :
  Contract.fresh s → reachable (AnthropicEdge.sse p) s e →
  (∃ tail, frames e `prefix_of`
     [AnthropicEdge.MessageStart p; AnthropicEdge.ContentBlockStart; AnthropicEdge.Ping]
     ++ map (fun c => AnthropicEdge.ContentBlockDelta (fst c)) (Contract.returned (stream e)) ++ tail ∧
     (tail = [] ∨ tail = [AnthropicEdge.ErrorEvent] ∨
      ∃ r n, tail = [AnthropicEdge.ContentBlockStop; AnthropicEdge.MessageDelta r n; AnthropicEdge.MessageStop])) ∧
  (∀ r k, AnthropicEdge.MessageDelta r k ∈ frames e →
     ∃ t f, Contract.final (stream e) = Some (t, f, k) ∧ r = AnthropicEdge.stop_reason f ∧
       String.concat "" (map AnthropicEdge.content (frames e)) = t) ∧
  accounted e = match at_ e with Finished => 1%nat | _ => 0%nat end.
Proof.
  intros Hs He. pose proof (edge_inv _ s e Hs He) as I. split_and!.
  - assert (∃ tail rest, tail_ok (AnthropicEdge.sse p) (stream e) tail ∧
      frames e ++ rest = script (AnthropicEdge.sse p) (stream e) tail) as (tail & rest & Ht & E).
    { destruct (at_ e) eqn:Ea; try (apply inv_closed; [done|by rewrite Ea]);
        destruct I as [_ V _]; by rewrite Ea in V. }
    exists tail. split; [exists rest; by rewrite E|].
    destruct Ht as [->|[->|(r & _ & ->)]]; [by left|right; by left|right; right; destruct r as [[? ?] ?]; by do 2 eexists].
  - intros r k Hr. destruct (announced_text (AnthropicEdge.sse p) AnthropicEdge.content is_message_delta) with (s := s) (e := e)
      (f := AnthropicEdge.MessageDelta r k) as (t & f & n & Hf & Hin & Hc); try done.
    + intros g r0 n0. apply anthropic_quiet.
    + intros g Hg. destruct g; try done. simpl. split_and!; [set_solver|set_solver|done].
    + simpl in Hin. assert (r = AnthropicEdge.stop_reason f ∧ k = n) as [-> ->] by set_solver. by exists t, f.
  - apply (v_accounted _ _ I).
Qed.

End Any.
End StreamingClient.

(** ** A run over the remote stream *)

Module EdgeRun.
Import QueueGenerationStream SseEdge.

(** A server that sends one token and stops. *)
Definition s0 : RemoteGenerationStream.t :=
  RemoteGenerationStream.init (RemoteGenerationStream.Producer [(Json.JStr "hi", Sse.outcome0)] (StreamTokens.Returned, Sse.outcome0)
            Sse.outcome0) 0%Q.
Lemma s0_fresh : Contract.fresh s0.
Proof. unfold s0. simpl. eauto. Qed.
Definition s1 : RemoteGenerationStream.t := fst (RemoteGenerationStream.anext 1%Q false s0).
Definition s2 : RemoteGenerationStream.t := fst (RemoteGenerationStream.anext 2%Q false s1).

Section Run.
Context {F : Type} (d : dialect F).
Definition run1 : edge F RemoteGenerationStream.t := Edge s2 Iterating (opening d ++ [delta d "hi"]) 0 false.
Definition run2 (done : list F) (p : phase F) (n : nat) : edge F RemoteGenerationStream.t :=
  Edge s2 p (opening d ++ [delta d "hi"] ++ done) n false.

Lemma reach_opening todo done : opening d = done ++ todo →
  reachable d s0 (Edge s0 (Opening todo) done 0 false).
Proof.
  revert todo. induction done as [|f done IH] using rev_ind; intros todo E.
  - rewrite <- (app_nil_l todo), <- E at 1. constructor.
  - rewrite <- app_assoc in E. apply reach_step with (Edge s0 (Opening (f :: todo)) done 0 false); [by apply IH|].
    by apply (s_open d f todo (Edge s0 (Opening (f :: todo)) done 0 false)).
Qed.

Lemma reach_run1 : reachable d s0 run1.
Proof.
  pose (a := Edge (F := F) s0 (Opening []) (opening d) 0 false).
  assert (reachable d s0 a) as Ha by (apply reach_opening; by rewrite app_nil_r).
  pose proof (reach_step d s0 _ _ Ha (s_opened d a eq_refl)) as Hb.
  assert (reachable d s0 (Edge s1 Iterating (opening d ++ [delta d "hi"]) 0 false)) as Hc.
  { refine (reach_step d s0 _ _ Hb (s_token d (goto Iterating a) s1 "hi" 0 eq_refl _ _)); [|done].
    exists 1%Q. left. by exists false. }
  refine (reach_step d s0 _ _ Hc (s_background d _ s2 _ _ _)); [done| |done]. exists 2%Q. left. by exists false.
Qed.

Lemma reach_run2 done todo :
  ending d (Some ("hi", STOP, 1)) 1 = done ++ todo → reachable d s0 (run2 done (Ending todo) 0).
Proof.
  revert todo. induction done as [|f done IH] using rev_ind; intros todo E.
  - unfold run2. rewrite app_nil_r. simpl in E. subst todo.
    by refine (reach_step d s0 _ _ reach_run1 (s_end d run1 ("hi", STOP, 1) eq_refl _)).
  - rewrite <- app_assoc in E. specialize (IH _ E).
    pose proof (reach_step d s0 _ _ IH (s_ending d f todo (run2 done (Ending (f :: todo)) 0) eq_refl)) as H.
    unfold emit, run2 in *. simpl in H. by rewrite <- app_assoc in H.
Qed.

Lemma reach_run3 : reachable d s0 (run2 (ending d (Some ("hi", STOP, 1)) 1) Finished 1).
Proof.
  assert (reachable d s0 (run2 (ending d (Some ("hi", STOP, 1)) 1) (Ending []) 0)) as H
    by (apply reach_run2; by rewrite app_nil_r).
  refine (reach_step d s0 _ _ (reach_step d s0 _ _ H (s_close d (run2 _ (Ending []) 0) (or_introl eq_refl)))
            (s_finish d (run2 _ Closing 0) eq_refl)).
Qed.
End Run.

End EdgeRun.


Lemma anthropic_stream_wellformed_witness :
  ∃ e, SseEdge.reachable (AnthropicEdge.sse 3) EdgeRun.s0 e ∧ SseEdge.accounted e = 1%nat ∧
    AnthropicEdge.MessageDelta "end_turn" 1 ∈ SseEdge.frames e ∧
    ∃ t f, Contract.final (SseEdge.stream e) = Some (t, f, 1) ∧
      String.concat "" (map AnthropicEdge.content (SseEdge.frames e)) = t.
Proof.
  pose proof (EdgeRun.reach_run3 (AnthropicEdge.sse 3)) as He. eexists. split; [exact He|].
  destruct (StreamingClient.anthropic_stream_wellformed EdgeRun.s0 3 _ EdgeRun.s0_fresh He) as (_ & Hc & Ha).
  assert (AnthropicEdge.MessageDelta "end_turn" 1 ∈
    SseEdge.frames (EdgeRun.run2 (AnthropicEdge.sse 3)
      (SseEdge.ending (AnthropicEdge.sse 3) (Some ("hi", QueueGenerationStream.STOP, 1)) 1)
      SseEdge.Finished 1)) as Hf by (simpl; set_solver).
  split; [exact Ha|]. split; [exact Hf|].
  destruct (Hc _ _ Hf) as (t & f & H1 & _ & H2). by exists t, f.
Defined.
