(* ===== verification/Net.v ===== *)
(** * Addresses, hosts and HTTP middleware

    [Module Ip] models what [engine/main.py] and [engine/config.py] use of the standard
    library's [ipaddress] ([ip_address], [ip_network(.., strict=False)], membership);
    [Module Url] the host name [urlparse] finds in a URL, with [_url_host] and
    [_host_allowed] of [config.py]; [Module Middleware] the four HTTP middleware functions
    of [create_app] and the order they wrap the application in.

    An address is a number of 32 or 128 bits; membership is a mask and a comparison, and
    [contains_spec] says what that means bit by bit. *)

From S2P Require Import Prelude Crypto Text.
From Stdlib Require Import Ascii.

Open Scope Z_scope.

Module Ip.

Inductive version := V4 | V6.
#[export] Instance version_eq_dec : EqDecision version.
Proof. solve_decision. Defined.
Definition max_prefixlen (v : version) : Z := match v with V4 => 32 | V6 => 128 end.
Definition all_ones (v : version) : Z := Z.ones (max_prefixlen v).

Record address := Address { ver : version; ip : Z }.
Record network := Network { net_ver : version; network_address : Z; netmask : Z; prefixlen : Z }.

(** ** Parsing *)

Definition is_digit (c : ascii) : bool := (48 <=? Crypto.code c) && (Crypto.code c <=? 57).
(** [s.isascii() and s.isdigit()] *)
Definition all_digits (s : string) : bool := str_true s && forallb is_digit (Crypto.chars s).
Definition decimal (s : string) : Z := fold_left (fun a c => 10 * a + (Crypto.code c - 48)) (Crypto.chars s) 0.

(** [IPv4Address._parse_octet] *)
Definition parse_octet (s : string) : option Z :=
  if negb (all_digits s) || (3 <? Z.of_nat (String.length s)) then None
  else if negb (bool_decide (s = "0")) && Text.startswith "0" s then None
  else if 255 <? decimal s then None else Some (decimal s).

(** [IPv4Address._ip_int_from_string] *)
Definition v4_int (s : string) : option Z :=
  match Text.split "." s with
  | [a; b; c; d] =>
      a ← parse_octet a; b ← parse_octet b; c ← parse_octet c; d ← parse_octet d;
      Some (((a * 256 + b) * 256 + c) * 256 + d)
  | _ => None
  end.
(** [IPv4Address(s)] *)
Definition v4_address (s : string) : option Z := if Text.mem "/" s then None else v4_int s.

Definition hex_digit (c : ascii) : option Z :=
  let n := Crypto.code c in
  if (48 <=? n) && (n <=? 57) then Some (n - 48)
  else if (97 <=? n) && (n <=? 102) then Some (n - 87)
  else if (65 <=? n) && (n <=? 70) then Some (n - 55) else None.
Fixpoint hexadecimal (acc : Z) (l : list ascii) : option Z :=
  match l with
  | [] => Some acc
  | c :: l' => d ← hex_digit c; hexadecimal (16 * acc + d) l'
  end.
(** [IPv6Address._parse_hextet] *)
Definition parse_hextet (s : string) : option Z :=
  if negb (str_true s) || (4 <? Z.of_nat (String.length s)) then None else hexadecimal 0 (Crypto.chars s).

(** A part of an IPv6 address: text, or a group that came from an embedded IPv4 address. *)
Inductive part := Text_ (s : string) | Group (n : Z).
Definition part_empty (p : part) : bool := match p with Text_ s => negb (str_true s) | Group _ => false end.
Definition part_value (p : part) : option Z := match p with Text_ s => parse_hextet s | Group n => Some n end.
Definition groups (l : list part) (acc : Z) : option Z :=
  fold_left (fun o p => a ← o; h ← part_value p; Some (Z.lor (Z.shiftl a 16) h)) l (Some acc).

(** The parts between colons, a dotted last part replaced by its two groups. *)
Definition v6_parts (s : string) : option (list part) :=
  let parts := Text.split ":" s in
  if (length parts <? 3)%nat then None
  else
    let front := map Text_ (removelast parts) in
    let tail := List.last parts "" in
    if Text.mem "." tail then
      n ← v4_address tail;
      Some (front ++ [Group (Z.land (Z.shiftr n 16) 65535); Group (Z.land n 65535)])
    else Some (front ++ [Text_ tail]).

(** [IPv6Address._ip_int_from_string] *)
Definition v6_int (s : string) : option Z :=
  parts ← v6_parts s;
  let n := length parts in
  if (9 <? n)%nat then None
  else
    let empty_at i := match parts !! i with Some p => part_empty p | None => false end in
    match List.filter empty_at (seq 1 (n - 2)) with
    | _ :: _ :: _ => None
    | [skip] =>
        let hi := if empty_at 0%nat then (skip - 1)%nat else skip in
        let lo := if empty_at (n - 1)%nat then (n - skip - 2)%nat else (n - skip - 1)%nat in
        if (empty_at 0%nat && negb (hi =? 0)%nat) || (empty_at (n - 1)%nat && negb (lo =? 0)%nat) then None
        else if (8 <=? hi + lo)%nat then None
        else
          a ← groups (take hi parts) 0;
          groups (drop (n - lo) parts) (Z.shiftl a (16 * Z.of_nat (8 - (hi + lo))))
    | [] =>
        if negb (n =? 8)%nat || empty_at 0%nat || empty_at (n - 1)%nat then None
        else groups parts 0
    end.
(** [IPv6Address(s)]; a scope id is accepted and plays no part in membership. *)
Definition v6_address (s : string) : option Z :=
  if Text.mem "/" s then None
  else if Text.mem "%" s then
    let '(a, scope) := Text.partition "%" s in
    if negb (str_true scope) || Text.mem "%" scope then None else v6_int a
  else v6_int s.

(** [ipaddress.ip_address(s)]; [None] is its [ValueError]. *)
Definition ip_address (s : string) : option address :=
  match v4_address s with
  | Some n => Some (Address V4 n)
  | None => Address V6 <$> v6_address s
  end.

(** [_prefix_from_prefix_string] *)
Definition prefix_of_string (v : version) (s : string) : option Z :=
  if all_digits s && (decimal s <=? max_prefixlen v) then Some (decimal s) else None.

Definition bit_length (n : Z) : Z := if n =? 0 then 0 else Z.log2 n + 1.
(** [_prefix_from_ip_int] *)
Definition prefix_of_int (v : version) (n : Z) : option Z :=
  let w := max_prefixlen v in
  let zeros := if n =? 0 then w else Z.min w (bit_length (Z.land (Z.lnot n) (n - 1))) in
  if Z.shiftr n zeros =? Z.ones (w - zeros) then Some (w - zeros) else None.
(** [_prefix_from_ip_string]: a netmask or a host mask. *)
Definition prefix_of_mask (v : version) (s : string) : option Z :=
  n ← v4_int s;
  match prefix_of_int v n with
  | Some p => Some p
  | None => prefix_of_int v (Z.lxor n (all_ones v))
  end.
Definition mask_of (v : version) (p : Z) : Z := Z.lxor (all_ones v) (Z.shiftr (all_ones v) p).

(** [_make_netmask] *)
Definition prefix (v : version) (mask : option string) : option Z :=
  match mask, v with
  | None, _ => Some (max_prefixlen v)
  | Some m, V4 => match prefix_of_string V4 m with Some p => Some p | None => prefix_of_mask V4 m end
  | Some m, V6 => prefix_of_string V6 m
  end.

Definition parse_address (v : version) (s : string) : option Z :=
  match v with V4 => v4_address s | V6 => v6_address s end.
(** [IPv4Network(s, strict=False)], [IPv6Network(s, strict=False)] *)
Definition make_network (v : version) (s : string) : option network :=
  match Text.split "/" s with
  | a :: rest =>
      match rest with
      | _ :: _ :: _ => None
      | _ =>
          n ← parse_address v a;
          p ← prefix v (head rest);
          Some (Network v (Z.land n (mask_of v p)) (mask_of v p) p)
      end
  | [] => None
  end.
(** [ipaddress.ip_network(s, strict=False)] *)
Definition ip_network (s : string) : option network :=
  match make_network V4 s with Some n => Some n | None => make_network V6 s end.

(** [addr in net] *)
Definition contains (n : network) (a : address) : bool :=
  bool_decide (ver a = net_ver n) && (Z.land (ip a) (netmask n) =? network_address n).

(** ** What membership means *)

Lemma width_pos v : 0 < max_prefixlen v.
Proof. by destruct v. Qed.
Lemma ones_bit v i : 0 <= i → Z.testbit (all_ones v) i = (i <? max_prefixlen v).
Proof.
  intros Hi. unfold all_ones. destruct (Z.ltb_spec i (max_prefixlen v)) as [H|H].
  - by apply Z.ones_spec_low.
  - apply Z.ones_spec_high. pose proof (width_pos v). lia.
Qed.
(** The mask has ones exactly in the leading [p] bits. *)
Lemma mask_bit v p i : 0 <= p <= max_prefixlen v → 0 <= i →
  Z.testbit (mask_of v p) i = (max_prefixlen v - p <=? i) && (i <? max_prefixlen v).
Proof.
  intros Hp Hi. unfold mask_of. rewrite Z.lxor_spec, Z.shiftr_spec, !ones_bit by lia.
  destruct (Z.ltb_spec i (max_prefixlen v)), (Z.ltb_spec (i + p) (max_prefixlen v)),
    (Z.leb_spec (max_prefixlen v - p) i); simpl; try done; lia.
Qed.

Lemma decimal_nonneg s : all_digits s = true → 0 <= decimal s.
Proof.
  unfold all_digits, decimal. intros [_ H]%andb_true_iff.
  assert (∀ l a, forallb is_digit l = true → 0 <= a → 0 <= fold_left (fun a c => 10 * a + (Crypto.code c - 48)) l a) as G.
  { induction l as [|c l IH]; intros a Hl Ha; [done|]. simpl in *. apply andb_true_iff in Hl as [Hc Hl].
    apply IH; [done|]. unfold is_digit in Hc. lia. }
  by apply G.
Qed.
Lemma prefix_of_int_range v n p : prefix_of_int v n = Some p → 0 <= p <= max_prefixlen v.
Proof.
  unfold prefix_of_int. pose proof (width_pos v) as Hw.
  set (z := if n =? 0 then _ else _). intros E. case_match; simplify_eq.
  assert (0 <= z <= max_prefixlen v) as H1; [|lia]. subst z. destruct (n =? 0); [lia|].
  assert (0 <= bit_length (Z.land (Z.lnot n) (n - 1))); [|lia].
  unfold bit_length. case_match; [lia|]. pose proof (Z.log2_nonneg (Z.land (Z.lnot n) (n - 1))). lia.
Qed.
Lemma prefix_range v m p : prefix v m = Some p → 0 <= p <= max_prefixlen v.
Proof.
  assert (∀ v s p, prefix_of_string v s = Some p → 0 <= p <= max_prefixlen v) as Hs.
  { intros w s q E. unfold prefix_of_string in E. destruct (all_digits s) eqn:Ed; [|done].
    destruct (Z.leb_spec (decimal s) (max_prefixlen w)); simplify_eq/=. split; [by apply decimal_nonneg|done]. }
  unfold prefix. pose proof (width_pos v). intros E. destruct m as [m|]; [|simplify_eq; lia].
  destruct v; [|by eauto]. destruct (prefix_of_string V4 m) eqn:E1; [simplify_eq; by eauto|].
  unfold prefix_of_mask in E. destruct (v4_int m) as [n|]; [|done]. cbn [mbind option_bind] in E.
  destruct (prefix_of_int V4 n) eqn:E2; simplify_eq; by eapply prefix_of_int_range.
Qed.

(** A network and a parsed address: membership is agreement of the leading bits. *)
Lemma contains_spec s net : ip_network s = Some net →
  (0 <= prefixlen net <= max_prefixlen (net_ver net)) ∧
  ∀ a, contains net a = true ↔
    ver a = net_ver net ∧
    ∀ i, max_prefixlen (net_ver net) - prefixlen net <= i < max_prefixlen (net_ver net) →
      Z.testbit (ip a) i = Z.testbit (network_address net) i.
Proof.
  intros E. assert (∃ v n p, net = Network v (Z.land n (mask_of v p)) (mask_of v p) p ∧ 0 <= p <= max_prefixlen v)
    as (v & n & p & -> & Hp).
  { assert (∀ v, make_network v s = Some net →
      ∃ v n p, net = Network v (Z.land n (mask_of v p)) (mask_of v p) p ∧ 0 <= p <= max_prefixlen v) as H.
    { intros v Ev. unfold make_network in Ev. destruct (Text.split "/" s) as [|a rest]; [done|].
      assert (∃ n p, parse_address v a = Some n ∧ prefix v (head rest) = Some p ∧
        net = Network v (Z.land n (mask_of v p)) (mask_of v p) p) as (n & p & _ & Hp & ->).
      { destruct rest as [|? [|? ?]]; try done; destruct (parse_address v a) as [n|]; try done;
          cbn [mbind option_bind] in Ev; destruct (prefix v _) as [p|]; try done; exists n, p; by simplify_eq/=. }
      exists v, n, p. split; [done|]. by eapply prefix_range. }
    unfold ip_network in E. destruct (make_network V4 s) eqn:E4; [simplify_eq; by eauto|by eauto]. }
  simpl. split; [done|]. intros a. unfold contains. simpl.
  rewrite andb_true_iff, bool_decide_eq_true, Z.eqb_eq. apply and_iff_compat_l. split.
  - intros H i Hi. pose proof (f_equal (fun z => Z.testbit z i) H) as Hb. simpl in Hb.
    rewrite Z.land_spec, mask_bit in Hb by lia.
    rewrite <- H, Z.land_spec, mask_bit by lia.
    rewrite (proj2 (Z.leb_le _ _)), (proj2 (Z.ltb_lt _ _)) by lia. by rewrite andb_true_r.
  - intros H. apply Z.bits_inj'. intros i Hi. rewrite !Z.land_spec, mask_bit by lia.
    destruct (Z.leb_spec (max_prefixlen v - p) i), (Z.ltb_spec i (max_prefixlen v)); simpl; rewrite ?andb_false_r; try done.
    rewrite !andb_true_r. rewrite (H i) by lia.
    rewrite Z.land_spec, mask_bit by lia. rewrite (proj2 (Z.leb_le _ _)), (proj2 (Z.ltb_lt _ _)) by lia.
    by rewrite andb_true_r.
Qed.

Example parse_v4 : ip_address "10.1.2.3" = Some (Address V4 167838211).
Proof. vm_compute. reflexivity. Qed.
Example parse_v4_leading_zero : ip_address "010.1.2.3" = None.
Proof. vm_compute. reflexivity. Qed.
Example parse_v6 : ip_address "fe80::1%eth0" = Some (Address V6 (65152 * 2 ^ 112 + 1)).
Proof. vm_compute. reflexivity. Qed.
Example parse_v6_mapped : ip_address "::ffff:10.1.2.3" = Some (Address V6 (65535 * 2 ^ 32 + 167838211)).
Proof. vm_compute. reflexivity. Qed.
Example parse_v6_bad : ip_address "1::2::3" = None ∧ ip_address ":1:2:3:4:5:6:7" = None ∧ ip_address "::" = Some (Address V6 0).
Proof. vm_compute. auto. Qed.
Example parse_network : ip_network "10.1.2.3/255.255.0.0" = Some (Network V4 167837696 4294901760 16)
  ∧ ip_network "10.1.2.3/0.0.255.255" = Some (Network V4 167837696 4294901760 16)
  ∧ ip_network "10.0.0.0/33" = None.
Proof. vm_compute. auto. Qed.

End Ip.

(** ** Hosts *)

Module Url.

Fixpoint lstrip_c0 (s : string) : string :=
  match s with
  | EmptyString => ""
  | String c s' => if Crypto.code c <=? 32 then lstrip_c0 s' else s
  end.
Definition remove_unsafe (s : string) : string :=
  Crypto.of_chars (List.filter (fun c => negb (bool_decide (Crypto.code c ∈ [9; 10; 13]))) (Crypto.chars s)).
Definition is_alpha (c : ascii) : bool :=
  let n := Crypto.code c in ((65 <=? n) && (n <=? 90)) || ((97 <=? n) && (n <=? 122)).
Definition scheme_char (c : ascii) : bool := is_alpha c || Ip.is_digit c || bool_decide (c ∈ ["+"%char; "-"%char; "."%char]).

(** [urlsplit]: the URL without its scheme. *)
Definition after_scheme (s : string) : string :=
  if Text.mem ":" s then
    let '(scheme, rest) := Text.partition ":" s in
    match Crypto.chars scheme with
    | c :: cs => if is_alpha c && forallb scheme_char cs then rest else s
    | [] => s
    end
  else s.
(** [urlsplit(url).scheme] *)
Definition scheme_of (url : string) : string :=
  let s := remove_unsafe (lstrip_c0 url) in
  if Text.mem ":" s then
    match Crypto.chars (fst (Text.partition ":" s)) with
    | c :: cs => if is_alpha c && forallb scheme_char cs then Text.lower (fst (Text.partition ":" s)) else ""
    | [] => ""
    end
  else "".
Fixpoint until (stop : list ascii) (s : string) : string :=
  match s with
  | EmptyString => ""
  | String c s' => if bool_decide (c ∈ stop) then "" else String c (until stop s')
  end.
(** [_splitnetloc] *)
Definition netloc (s : string) : string :=
  match after_scheme (remove_unsafe (lstrip_c0 s)) with
  | String "/" (String "/" rest) => until ["/"%char; "?"%char; "#"%char] rest
  | _ => ""
  end.

Section Hostname.
(** What [urlsplit] checks of a network location that is not ASCII (its NFKC form) or has
    brackets (an IPv6 literal): library code that differs between Python releases. *)
Context (netloc_ok : string → bool).

(** [s.rpartition("@")[2]] *)
Definition after_at (s : string) : string := List.last (Text.split "@" s) "".

(** [urlparse(url)] returns; otherwise it raises [ValueError]. *)
Definition splits (url : string) : bool :=
  let n := netloc url in
  negb ((negb (Text.isascii n) || Text.mem "[" n || Text.mem "]" n)
        && (xorb (Text.mem "[" n) (Text.mem "]" n) || negb (netloc_ok n))).
(** [urlparse(url).hostname]; [None] for no host and for [ValueError]. *)
Definition hostname (url : string) : option string :=
  if negb (splits url) then None
  else
    let info := after_at (netloc url) in
    let host := if Text.mem "[" info then fst (Text.partition "]" (snd (Text.partition "[" info)))
                else fst (Text.partition ":" info) in
    if str_true host then
      let '(h, zone) := Text.partition "%" host in
      Some (if Text.mem "%" host then Text.lower h +:+ "%" +:+ zone else Text.lower h)
    else None.

(** [_url_host] *)
Definition url_host (url : string) : option string := hostname url.
End Hostname.

Fixpoint lstrip_dot (s : string) : string :=
  match s with String "." s' => lstrip_dot s' | _ => s end.
(** [_host_allowed] *)
Definition host_allowed (host : string) (allowlist : list string) : bool :=
  let host := Text.lower host in
  existsb (fun raw => let entry := lstrip_dot (Text.lower raw) in
             bool_decide (host = entry) || Text.endswith ("." +:+ entry) host) allowlist.

Example hostname_port : hostname (fun _ => true) "HTTPS://user:pw@API.Example.com:8443/v1" = Some "api.example.com".
Proof. vm_compute. reflexivity. Qed.
Example hostname_v6 : hostname (fun _ => true) "https://[::1]:8443/v1" = Some "::1".
Proof. vm_compute. reflexivity. Qed.
Example suffix_is_not_domain : host_allowed "evilexample.com" ["example.com"] = false
  ∧ host_allowed "a.EXAMPLE.com" [".example.com"] = true.
Proof. vm_compute. auto. Qed.

End Url.

(** ** The HTTP middleware of [create_app] *)

Module Middleware.

(** What the middleware reads of the settings. *)
Record settings := Settings {
  max_request_bytes : Z;
  client_cors_origins : list string;
  ip_allowlist : list string;
  trust_forwarded_for : bool
}.
(** A request, with the header names in lower case; [request_id] is [request.state.request_id]. *)
Record request := Request {
  method : string;
  path : string;
  headers : list (string * string);
  client : option string;
  request_id : option string
}.
Record response := Response { status : Z; code : option string; response_headers : list (string * string) }.
Definition app : Type := request → result exn response.

Definition header (name : string) (r : request) : option string := dict_get name (headers r).
Definition set_request_id (i : string) (r : request) : request :=
  Request (method r) (path r) (headers r) (client r) (Some i).

(** [_client_ip] *)
Definition client_ip (cfg : settings) (r : request) : option string :=
  match (if trust_forwarded_for cfg then header "x-forwarded-for" r else None) with
  | Some xff => if str_true xff then Some (Text.strip (default "" (head (Text.split "," xff)))) else client r
  | None => client r
  end.
(** [_ip_permitted] *)
Definition ip_permitted (ip : string) (networks : list Ip.network) : bool :=
  match Ip.ip_address ip with
  | None => false
  | Some a => existsb (fun n => Ip.contains n a) networks
  end.
(** [allow_networks]; an entry that does not parse was refused by the settings' validator. *)
Definition allow_networks (cfg : settings) : list Ip.network := omap Ip.ip_network (ip_allowlist cfg).

(** [_assign_request_id]; [fresh] is the [uuid4] hex digits. *)
Definition assign_request_id (fresh : string) (next : app) : app := fun r =>
  next (set_request_id (match header "x-request-id" r with
                        | Some i => if str_true i then i else "req-" +:+ fresh
                        | None => "req-" +:+ fresh end) r).

(** [str.isdigit] on code points up to 255, which accepts superscripts that [int] refuses. *)
Definition isdigit (s : string) : bool :=
  str_true s && forallb (fun c => Ip.is_digit c || bool_decide (Crypto.code c ∈ [178; 179; 185])) (Crypto.chars s).
(** [_limit_body_size] *)
Definition limit_body_size (cfg : settings) (next : app) : app := fun r =>
  if 0 <? max_request_bytes cfg then
    match header "content-length" r with
    | Some length =>
        if isdigit length then
          match Text.int length with
          | Some n => if max_request_bytes cfg <? n then Ok (Response 413 (Some "payload_too_large") []) else next r
          | None => Err ValueError
          end
        else next r
    | None => next r
    end
  else next r.

(** [_client_cors_headers] *)
Definition client_cors_headers (origin : string) : list (string * string) :=
  [("access-control-allow-origin", origin); ("access-control-allow-credentials", "true");
   ("access-control-allow-methods", "GET, POST, OPTIONS");
   ("access-control-allow-headers", "authorization, x-api-key, last-event-id, content-type");
   ("access-control-expose-headers", "last-event-id"); ("vary", "Origin")].
Definition is_client_path (p : string) : bool := bool_decide (p = "/client") || Text.startswith "/client/" p.
(** [origin in settings.client_cors_origins], for an origin that is not empty *)
Definition allowed_origin (cfg : settings) (r : request) : option string :=
  match header "origin" r with
  | Some o => if str_true o && bool_decide (o ∈ client_cors_origins cfg) then Some o else None
  | None => None
  end.
Definition update_headers (hs : list (string * string)) (x : response) : response :=
  Response (status x) (code x) (fold_left (fun d kv => dict_set (fst kv) (snd kv) d) hs (response_headers x)).
(** [_client_cors] *)
Definition client_cors (cfg : settings) (next : app) : app := fun r =>
  match (if is_client_path (path r) then allowed_origin cfg r else None) with
  | Some o =>
      if bool_decide (method r = "OPTIONS") then Ok (Response 204 None (client_cors_headers o))
      else match next r with
           | Ok x => Ok (update_headers (client_cors_headers o) x)
           | Err e => Err e
           end
  | None => next r
  end.

(** [_ip_allowlist] *)
Definition ip_allowlist_check (cfg : settings) (next : app) : app := fun r =>
  match allow_networks cfg with
  | [] => next r
  | nets =>
      if match client_ip cfg r with Some ip => ip_permitted ip nets | None => false end then next r
      else Ok (Response 403 (Some "ip_not_allowed") [])
  end.

(** The middleware that was added last is outermost. *)
Definition wrap (cfg : settings) (fresh : string) (endpoint : app) : app :=
  ip_allowlist_check cfg (client_cors cfg (limit_body_size cfg (assign_request_id fresh endpoint))).

(** [@app.middleware("http")] wraps HTTP requests only: a WebSocket handshake goes to its
    endpoint directly. *)
Inductive scope := Http | Websocket.
Definition dispatch (cfg : settings) (fresh : string) (endpoint : app) (k : scope) : app :=
  match k with Http => wrap cfg fresh endpoint | Websocket => endpoint end.

(** ** What the endpoints can rely on *)

(** A client the allowlist covers: its address agrees with an entry in the leading bits. *)
Definition covered (cfg : settings) (r : request) : Prop :=
  ∃ ip a entry net, client_ip cfg r = Some ip ∧ Ip.ip_address ip = Some a ∧
    entry ∈ ip_allowlist cfg ∧ Ip.ip_network entry = Some net ∧ Ip.ver a = Ip.net_ver net ∧
    ∀ i, Ip.max_prefixlen (Ip.net_ver net) - Ip.prefixlen net <= i < Ip.max_prefixlen (Ip.net_ver net) →
      Z.testbit (Ip.ip a) i = Z.testbit (Ip.network_address net) i.

Lemma permitted_covered cfg r ip : client_ip cfg r = Some ip →
  ip_permitted ip (allow_networks cfg) = true ↔ covered cfg r.
Proof.
  intros Hip. unfold ip_permitted. split.
  - destruct (Ip.ip_address ip) as [a|] eqn:Ea; [|done]. intros (net & Hn & Hc)%existsb_exists.
    apply list_elem_of_In, list_elem_of_omap in Hn as (entry & He & En).
    destruct (Ip.contains_spec _ _ En) as [_ Hs]. apply Hs in Hc as [Hv Hb].
    by exists ip, a, entry, net.
  - intros (ip' & a & entry & net & Hip' & Ha & He & En & Hv & Hb). rewrite Hip in Hip'. simplify_eq.
    rewrite Ha. apply existsb_exists. exists net. split.
    + apply list_elem_of_In, list_elem_of_omap. eauto.
    + destruct (Ip.contains_spec _ _ En) as [_ Hs]. by apply Hs.
Qed.

(** The trusted-network policy: once an allowlist is configured, an HTTP request reaches the
    application only if the caller's address lies in one of its networks (the leading bits
    agree); every other caller gets the same 403, whatever the application and the inner
    middleware would do; and without [trust_forwarded_for] no header has any influence on
    the decision. *)
Theorem allowlist_guards cfg fresh r :
  allow_networks cfg ≠ [] →
  (covered cfg r → ∀ endpoint, wrap cfg fresh endpoint r = client_cors cfg (limit_body_size cfg (assign_request_id fresh endpoint)) r) ∧
  (¬ covered cfg r → ∀ endpoint, wrap cfg fresh endpoint r = Ok (Response 403 (Some "ip_not_allowed") [])) ∧
  (trust_forwarded_for cfg = false → ∀ hs, covered cfg r ↔ covered cfg (Request (method r) (path r) hs (client r) (request_id r))).
Proof.
  intros Hn. assert (∀ endpoint, wrap cfg fresh endpoint r =
    if match client_ip cfg r with Some ip => ip_permitted ip (allow_networks cfg) | None => false end
    then client_cors cfg (limit_body_size cfg (assign_request_id fresh endpoint)) r
    else Ok (Response 403 (Some "ip_not_allowed") [])) as E.
  { intros endpoint. unfold wrap, ip_allowlist_check. by destruct (allow_networks cfg). }
  split_and!.
  - intros Hc endpoint. rewrite E. destruct (client_ip cfg r) as [ip|] eqn:Ei.
    + by rewrite (proj2 (permitted_covered cfg r ip Ei)).
    + destruct Hc as (? & ? & ? & ? & Hc & _). congruence.
  - intros Hc endpoint. rewrite E. destruct (client_ip cfg r) as [ip|] eqn:Ei; [|done].
    destruct (ip_permitted ip _) eqn:Ep; [|done]. destruct Hc. by apply (permitted_covered cfg r ip Ei).
  - intros Ht hs. unfold covered, client_ip. rewrite Ht. done.
Qed.

Lemma allowlist_guards_witness :
  let cfg := Settings 0 [] ["10.0.0.0/8"] false in
  let r := Request "GET" "/metrics" [("x-forwarded-for", "10.1.2.3")] (Some "192.0.2.7") None in
  allow_networks cfg ≠ [] ∧ wrap cfg "0" (fun _ => Ok (Response 200 None [])) r = Ok (Response 403 (Some "ip_not_allowed") []).
Proof.
  intros cfg r. assert (allow_networks cfg ≠ []) as Hn by (vm_compute; discriminate). split; [exact Hn|].
  destruct (allowlist_guards cfg "0" r Hn) as (_ & H & _). apply H.
  intros Hc. apply (permitted_covered cfg r "192.0.2.7" eq_refl) in Hc. vm_compute in Hc. discriminate.
Defined.

(** The WebSocket streams are outside that policy. *)
Lemma websocket_bypasses_allowlist :
  let cfg := Settings 0 [] ["10.0.0.0/8"] false in
  let r := Request "GET" "/ws/feed" [] (Some "192.0.2.7") None in
  ∀ endpoint, dispatch cfg "0" endpoint Websocket r = endpoint r ∧
    dispatch cfg "0" endpoint Http r = Ok (Response 403 (Some "ip_not_allowed") []).
Proof. done. Qed.

End Middleware.
