(* ===== verification/Downloads.v ===== *)
(** * Model downloads ([engine/models/downloader.py])

    [Module CancelEvent] is the cancel flag with its commit point.  [Module Downloader] is
    the function [download], one step per call that can block or per test of the flag, so
    that a cancel request of another thread can arrive between any two of them; what the
    server answers is a label of the step.  Errors of the file system are not modelled. *)

From S2P Require Import Prelude Crypto Text.

Open Scope Z_scope.

Module CancelEvent.

Record t := Mk { flag : bool; committed : bool }.
Definition init : t := Mk false false.
(** [request]; [set] is the same without the answer. *)
Definition request (e : t) : t * bool :=
  if committed e then (e, false) else (Mk true (committed e), true).
(** [commit], given that [promote] does not raise: whether it ran. *)
Definition commit (e : t) : t * bool :=
  if flag e then (e, false) else (Mk (flag e) true, true).

End CancelEvent.

Module Downloader.

Definition bytes := list Z.

(** [part] and [dest]: the contents of the two files, [None] when there is none. *)
Record files := Files { part : option bytes; dest : option bytes }.
Definition with_part (p : option bytes) (f : files) : files := Files p (dest f).
(** [part.replace(dest)] *)
Definition promote (f : files) : files := match part f with Some b => Files None (Some b) | None => f end.

Inductive failure :=
| DownloadCancelled
| ChecksumMismatch (digest : string)
| InvalidUrl | HttpError (code : Z) | NetworkError | ReadError
| TooLarge
| ValueError. (* [int] of a header that [isdigit] accepts *)
Inductive outcome := Returned (digest : string) | Raised (e : failure).

(** The arguments of [download] that do not change. *)
Record job := Job { expected_sha256 : option string; chunk_bytes : Z; max_bytes : Z }.

(** Where [download] is. *)
Inductive pc :=
| Begin
| Opening (resume_from : Z)
| Opened (resume_from status : Z) (content_length : option string)
| Loop (total : option Z) (downloaded : Z)
| Reading (total : option Z) (downloaded : Z)
| Read (total : option Z) (downloaded : Z) (chunk : bytes)
| Written (total : option Z) (downloaded : Z)
| Closed
| Hashing (hashed rest : bytes)
| Promoting (digest : string)
| Done (o : outcome).

(** What the network did. *)
Inductive answer :=
| Opens (status : Z) (content_length : option string)
| Refused (code : Z)         (* [HTTPError] *)
| BadUrl | Unreachable
| Reads (chunk : bytes)      (* empty at the end of the body *)
| ReadFails.

(** [progress] are the calls of [progress_cb]. *)
Record t := Mk { what : job; cancel : CancelEvent.t; fs : files; at_ : pc; progress : list (Z * option Z) }.

Definition goto (p : pc) (x : t) : t := Mk (what x) (cancel x) (fs x) p (progress x).
Definition with_fs (f : files) (x : t) : t := Mk (what x) (cancel x) f (at_ x) (progress x).
Definition raise (e : failure) (x : t) : t := goto (Done (Raised e)) x.
(** [_check(cancel)], then the rest. *)
Definition check (k : t → t) (x : t) : t := if CancelEvent.flag (cancel x) then raise DownloadCancelled x else k x.

(** [str.isdigit] on Latin-1, which also holds of the superscripts one, two and three. *)
Definition isdigit (s : string) : bool :=
  negb (Nat.eqb (String.length s) 0) &&
  forallb (fun c => let n := Crypto.code c in
             (48 <=? n) && (n <=? 57) || bool_decide (n ∈ [178; 179; 185])) (Crypto.chars s).
Definition size (b : option bytes) : Z := match b with Some b => Z.of_nat (length b) | None => 0 end.
Definition digest_of (b : bytes) : string := Crypto.hex (Crypto.sha256 b).

(** The body of [download] between the response and the read loop. *)
Definition opened (resume_from status : Z) (content_length : option string) (x : t) : t :=
  let partial := status =? 206 in
  let restart := negb (resume_from =? 0) && negb partial in
  let x := if restart then with_fs (with_part None (fs x)) x else x in
  let resume_from := if restart then 0 else resume_from in
  let total :=
    match content_length with
    | Some l => if isdigit l then
                  match Text.int l with
                  | Some n => Ok (Some (n + (if partial then resume_from else 0)))
                  | None => Err ValueError
                  end
                else Ok None
    | None => Ok None
    end in
  match total with
  | Err e => raise e x
  | Ok total =>
      if negb (max_bytes (what x) =? 0) && match total with Some n => max_bytes (what x) <? n | None => false end
      then raise TooLarge x
      else
        let x := if negb (resume_from =? 0) && partial then x else with_fs (with_part (Some []) (fs x)) x in
        goto (Loop total resume_from) x
  end.

(** A chunk was read and the flag tested: it is written. *)
Definition write (total : option Z) (downloaded : Z) (chunk : bytes) (x : t) : t :=
  match chunk with
  | [] => goto Closed x
  | _ =>
      let x := with_fs (with_part (Some (default [] (part (fs x)) ++ chunk)) (fs x)) x in
      let downloaded := downloaded + Z.of_nat (length chunk) in
      if negb (max_bytes (what x) =? 0) && (max_bytes (what x) <? downloaded) then raise TooLarge x
      else goto (Written total downloaded) x
  end.

(** [fh.read(n)] on what is left of a file: the chunk and the rest. *)
Definition read (n : Z) (rest : bytes) : bytes * bytes :=
  if n <? 0 then (rest, []) else (take (Z.to_nat n) rest, drop (Z.to_nat n) rest).

(** The comparison after [sha256_file]. *)
Definition compare (digest : string) (x : t) : t :=
  let ok := match expected_sha256 (what x) with
            | Some e => negb (str_true e) || bool_decide (Text.lower digest = Text.lower e)
            | None => true
            end in
  if ok then goto (Promoting digest) x else raise (ChecksumMismatch digest) x.

(** One step of [download]; [None] when it is over or the answer does not fit the call. *)
Definition step (a : option answer) (x : t) : option t :=
  match at_ x, a with
  | Begin, None => let r := size (part (fs x)) in Some (check (goto (Opening r)) x)
  | Opening r, Some (Opens status len) => Some (goto (Opened r status len) x)
  | Opening r, Some (Refused code) =>
      if negb (r =? 0) && (code =? 416) then Some (goto Begin (with_fs (with_part None (fs x)) x))
      else Some (raise (HttpError code) x)
  | Opening _, Some BadUrl => Some (raise InvalidUrl x)
  | Opening _, Some Unreachable => Some (raise NetworkError x)
  | Opened r status len, None => Some (check (opened r status len) x)
  | Loop total n, None => Some (check (goto (Reading total n)) x)
  | Reading total n, Some (Reads chunk) => Some (goto (Read total n chunk) x)
  | Reading _ _, Some ReadFails => Some (raise ReadError x)
  | Read total n chunk, None => Some (check (write total n chunk) x)
  | Written total n, None =>
      Some (check (fun x => Mk (what x) (cancel x) (fs x) (Loop total n) (progress x ++ [(n, total)])) x)
  | Closed, None => Some (check (goto (Hashing [] (default [] (part (fs x))))) x)
  | Hashing hashed rest, None =>
      Some (check (fun x =>
        match read (chunk_bytes (what x)) rest with
        | ([], _) => compare (digest_of hashed) x
        | (chunk, rest) => goto (Hashing (hashed ++ chunk) rest) x
        end) x)
  | Promoting digest, None =>
      let '(e, ok) := CancelEvent.commit (cancel x) in
      Some (if ok then Mk (what x) e (promote (fs x)) (Done (Returned digest)) (progress x)
            else raise DownloadCancelled x)
  | _, _ => None
  end.

Inductive label := Step (a : option answer) | Request.
(** A run with the answers of the cancel requests made so far. *)
Record sys := Sys { run_ : t; answers : list bool }.
Definition exec (l : label) (s : sys) : option sys :=
  match l with
  | Step a => x ← step a (run_ s); Some (Sys x (answers s))
  | Request =>
      let '(e, b) := CancelEvent.request (cancel (run_ s)) in
      Some (Sys (Mk (what (run_ s)) e (fs (run_ s)) (at_ (run_ s)) (progress (run_ s))) (answers s ++ [b]))
  end.

(** [download] called with a new cancel event. *)
Definition start (j : job) (f : files) : sys := Sys (Mk j CancelEvent.init f Begin []) [].

Inductive reachable (j : job) (f : files) (ok : label → t → Prop) : sys → Prop :=
| reach_start : reachable j f ok (start j f)
| reach_exec l s s' : reachable j f ok s → ok l (run_ s) → exec l s = Some s' → reachable j f ok s'.
(** Any server. *)
Definition any (l : label) (x : t) : Prop := True.

Fixpoint runs (ls : list label) (s : sys) : option sys :=
  match ls with [] => Some s | l :: ls => exec l s ≫= runs ls end.

(** ** The invariant *)

(** The expected checksum, when one was given, is the digest's. *)
Definition checked (j : job) (d : string) : Prop :=
  ∀ e, expected_sha256 j = Some e → str_true e = true → Text.lower d = Text.lower e.

(** What [download] knows of its files at each point. *)
Definition knows (j : job) (f : files) (p : pc) : Prop :=
  match p with
  | Opening r | Opened r _ _ => r = size (part f)
  | Loop _ n | Reading _ n | Read _ n _ | Written _ n => ∃ b, part f = Some b ∧ n = Z.of_nat (length b)
  | Closed => ∃ b, part f = Some b
  | Hashing h r => part f = Some (h ++ r)
  | Promoting d => ∃ b, part f = Some b ∧ d = digest_of b ∧ checked j d
  | Done (Returned d) => ∃ b, dest f = Some b ∧ d = digest_of b ∧ checked j d
  | _ => True
  end.
Definition returned (p : pc) : bool := match p with Done (Returned _) => true | _ => false end.

Record inv (j : job) (d0 : option bytes) (s : sys) : Prop := Inv {
  v_job : what (run_ s) = j;
  v_knows : knows j (fs (run_ s)) (at_ (run_ s));
  v_dest : CancelEvent.committed (cancel (run_ s)) = false → dest (fs (run_ s)) = d0;
  v_returned : returned (at_ (run_ s)) = CancelEvent.committed (cancel (run_ s));
  v_flag : CancelEvent.flag (cancel (run_ s)) = true → CancelEvent.committed (cancel (run_ s)) = false;
  v_answers : true ∈ answers s → CancelEvent.flag (cancel (run_ s)) = true
}.

Lemma read_spec n rest : n ≠ 0 → read n rest = ([], snd (read n rest)) → rest = [].
Proof.
  intros Hn. unfold read. destruct (Z.ltb_spec n 0); simpl; intros [= E0]; [done|].
  destruct rest as [|b rest]; [done|]. by destruct (Z.to_nat n) eqn:E; [lia|].
Qed.
Lemma read_app n rest c r : read n rest = (c, r) → rest = c ++ r.
Proof.
  unfold read. destruct (n <? 0); intros [= <- <-]; [by rewrite app_nil_r|by rewrite take_drop].
Qed.

Lemma size_nil b : size (Some b) = 0 → b = [].
Proof. destruct b; simpl; [done|lia]. Qed.

(** Steps that leave the cancel event and the destination alone. *)
Lemma inv_goto j d0 s x :
  inv j d0 s → what x = j → cancel x = cancel (run_ s) → dest (fs x) = dest (fs (run_ s)) →
  returned (at_ (run_ s)) = false → returned (at_ x) = false → knows j (fs x) (at_ x) →
  inv j d0 (Sys x (answers s)).
Proof.
  intros [V1 V2 V3 V4 V5 V6] H1 H2 H3 H4 H5 H6. split; simpl; rewrite ?H2, ?H3; try done. by rewrite H5, <- V4, H4.
Qed.

Lemma opened_spec r st len x :
  let y := opened r st len x in
  what y = what x ∧ cancel y = cancel x ∧ dest (fs y) = dest (fs x) ∧
  ((∃ e, at_ y = Done (Raised e)) ∨
   ∃ tot, (at_ y = Loop tot r ∧ r ≠ 0 ∧ st = 206 ∧ part (fs y) = part (fs x)) ∨
          (at_ y = Loop tot 0 ∧ part (fs y) = Some [])).
Proof.
  unfold opened. destruct (Z.eqb_spec r 0) as [->|Hr], (Z.eqb_spec st 206) as [->|Hs]; simpl;
    (destruct (match len with Some l => _ | None => Ok None end) as [tot|e] eqn:Et; [|simpl; by eauto 6]);
    (destruct (negb (max_bytes (what x) =? 0) && _); [simpl; by eauto 6|]); simpl;
    try (rewrite (proj2 (Z.eqb_neq r 0) Hr); simpl); split_and!; eauto 8.
Qed.

Lemma write_spec tot n c x :
  let y := write tot n c x in
  what y = what x ∧ cancel y = cancel x ∧ dest (fs y) = dest (fs x) ∧
  ((c = [] ∧ y = goto Closed x) ∨
   (c ≠ [] ∧ part (fs y) = Some (default [] (part (fs x)) ++ c) ∧
    (at_ y = Done (Raised TooLarge) ∨ at_ y = Written tot (n + Z.of_nat (length c))))).
Proof.
  unfold write. destruct c as [|b c]; [by eauto 6|]. simpl.
  destruct (negb _ && _); simpl; split_and!; auto 6.
Qed.

(** The end of the checksum loop, or one more chunk. *)
Lemma inv_hash j d0 s hashed rest :
  chunk_bytes j ≠ 0 → inv j d0 s → at_ (run_ s) = Hashing hashed rest →
  inv j d0 (Sys (match read (chunk_bytes (what (run_ s))) rest with
                 | ([], _) => compare (digest_of hashed) (run_ s)
                 | (chunk, rest) => goto (Hashing (hashed ++ chunk) rest) (run_ s)
                 end) (answers s)).
Proof.
  intros Hcb I Ep. pose proof I as [V1 V2 V3 V4 V5 V6]. rewrite Ep in V2. simpl in V2.
  destruct (read (chunk_bytes (what (run_ s))) rest) as [c r] eqn:Er. destruct c as [|b c].
  - assert (rest = []) as -> by (eapply read_spec; [rewrite V1 in Er; exact Hcb|]; rewrite V1 in Er; by rewrite Er).
    rewrite app_nil_r in V2. unfold compare.
    destruct (match expected_sha256 _ with Some _ => _ | None => true end) eqn:Ek;
      apply inv_goto; simpl; rewrite ?Ep; try done.
    exists hashed. split_and!; [done|done|]. intros e He Hs. rewrite V1, He, Hs in Ek. simpl in Ek.
    by apply bool_decide_eq_true in Ek.
  - apply read_app in Er. apply inv_goto; simpl; rewrite ?Ep; try done. by rewrite V2, Er, <- app_assoc.
Qed.

Lemma inv_step j d0 a s x :
  chunk_bytes j ≠ 0 → inv j d0 s → step a (run_ s) = Some x → inv j d0 (Sys x (answers s)).
Proof.
  intros Hcb I Hst. pose proof I as [V1 V2 V3 V4 V5 V6].
  assert (returned (at_ (run_ s)) = false) as Hnr.
  { destruct (at_ (run_ s)) as [| | | | | | | | | |[]] eqn:Ep; try done. unfold step in Hst. by rewrite Ep in Hst. }
  unfold step in Hst. destruct (at_ (run_ s)) eqn:Ep; try done; destruct a as [a|]; try done.
  all: try (destruct a; try done).
  all: unfold check in Hst; try (destruct (CancelEvent.flag (cancel (run_ s))) eqn:Ef;
    [injection Hst as <-; apply inv_goto; simpl; rewrite ?Ep; done|]).
  - injection Hst as <-. apply inv_goto; simpl; rewrite ?Ep; done.
  - injection Hst as <-. apply inv_goto; simpl; rewrite ?Ep; done.
  - destruct (_ && _); injection Hst as <-; apply inv_goto; simpl; rewrite ?Ep; done.
  - injection Hst as <-. apply inv_goto; simpl; rewrite ?Ep; done.
  - injection Hst as <-. apply inv_goto; simpl; rewrite ?Ep; done.
  - injection Hst as <-. destruct (opened_spec resume_from status content_length (run_ s)) as (O1 & O2 & O3 & O4).
    apply inv_goto; rewrite ?Ep; try done; [congruence|..].
    + destruct O4 as [[e ->]|(tot & [(-> & _)|(-> & _)])]; done.
    + simpl in V2. destruct O4 as [[e ->]|(tot & [(-> & Hr & _ & Hp)|(-> & Hp)])]; simpl; [done| |by eauto].
      rewrite Hp. rewrite V2 in Hr |- *. destruct (part (fs (run_ s))); [by eauto|done].
  - injection Hst as <-. apply inv_goto; simpl; rewrite ?Ep; done.
  - injection Hst as <-. apply inv_goto; simpl; rewrite ?Ep; done.
  - injection Hst as <-. apply inv_goto; simpl; rewrite ?Ep; done.
  - injection Hst as <-. simpl in V2. destruct V2 as (b & Hb & Hn).
    destruct (write_spec total downloaded chunk (run_ s)) as (W1 & W2 & W3 & W4).
    apply inv_goto; rewrite ?Ep; try done; [congruence|..].
    + destruct W4 as [[_ ->]|(_ & _ & [->| ->])]; done.
    + destruct W4 as [[_ ->]|(_ & Hp & [->| ->])]; simpl; [by eauto|done|].
      rewrite Hp, Hb. simpl. eexists. split; [done|]. rewrite length_app. lia.
  - injection Hst as <-. apply inv_goto; simpl; rewrite ?Ep; done.
  - injection Hst as <-. simpl in V2. destruct V2 as [b Hb]. apply inv_goto; simpl; rewrite ?Ep, ?Hb; done.
  - injection Hst as <-. by apply inv_hash.
  - unfold CancelEvent.commit in Hst. simpl in V2. destruct V2 as (b & Hb & Hd & Hk).
    destruct (CancelEvent.flag (cancel (run_ s))) eqn:Ef; injection Hst as <-.
    + apply inv_goto; simpl; rewrite ?Ep; done.
    + split; simpl; try done. unfold promote. rewrite Hb. simpl. by eauto.
Qed.

Lemma download_inv_reachable j f ok s : chunk_bytes j ≠ 0 → reachable j f ok s → inv j (dest f) s.
Proof.
  intros Hcb. induction 1 as [|l s s' _ IH _ E]; [by split; simpl; try done; set_solver|].
  destruct l as [a|]; simpl in E.
  - destruct (step a (run_ s)) as [x|] eqn:Es; [|done]. simpl in E. injection E as <-. by eapply inv_step.
  - unfold CancelEvent.request in E. destruct IH as [V1 V2 V3 V4 V5 V6].
    destruct (CancelEvent.committed (cancel (run_ s))) eqn:Ec; injection E as <-; split; simpl; rewrite ?Ec; try done.
    intros [H|H%list_elem_of_singleton]%elem_of_app; [auto|done].
Qed.

(** ** What a download guarantees *)

(** C14. Only verified files are installed.  Whatever the server sends and whenever a
    cancellation arrives, the destination is as it was until [download] returns; and when it
    returns, the destination holds exactly the bytes whose SHA-256 it returned, which is the
    expected one if one was given. *)
Theorem download_verified j f s :
  chunk_bytes j ≠ 0 → reachable j f any s →
  (∀ d, at_ (run_ s) = Done (Returned d) →
     ∃ b, dest (fs (run_ s)) = Some b ∧ d = digest_of b ∧ checked j d) ∧
  (returned (at_ (run_ s)) = false → dest (fs (run_ s)) = dest f).
Proof.
  intros Hcb Hs. destruct (download_inv_reachable j f any s Hcb Hs) as [V1 V2 V3 V4 V5 V6]. split.
  - intros d Hd. by rewrite Hd in V2.
  - intros Hr. apply V3. congruence.
Qed.

(** A cancellation is either accepted or too late, never both: if any request was
    answered with [True] the download does not return and the destination is untouched;
    once the download has returned every request is answered with [False]. *)
Theorem cancel_or_commit j f s :
  chunk_bytes j ≠ 0 → reachable j f any s →
  (true ∈ answers s → returned (at_ (run_ s)) = false ∧ dest (fs (run_ s)) = dest f) ∧
  (returned (at_ (run_ s)) = true → snd (CancelEvent.request (cancel (run_ s))) = false).
Proof.
  intros Hcb Hs. destruct (download_inv_reachable j f any s Hcb Hs) as [V1 V2 V3 V4 V5 V6]. split.
  - intros Ha. specialize (V5 (V6 Ha)). split; [congruence|auto].
  - intros Hr. unfold CancelEvent.request. by rewrite <- V4, Hr.
Qed.

(** ** Resuming *)

(** A server that has the file [F]: a read returns the bytes at the position it is at, and
    the end of the body is the end of the file. *)
Definition honest (F : bytes) (l : label) (x : t) : Prop :=
  match l, at_ x with
  | Step (Some (Reads c)), Reading _ n =>
      c `prefix_of` drop (Z.to_nat n) F ∧ (c = [] → Z.to_nat n = length F)
  | _, _ => True
  end.

Definition follows (F : bytes) (x : t) : Prop :=
  (∀ b, part (fs x) = Some b → b `prefix_of` F) ∧
  match at_ x with
  | Read _ n c => c `prefix_of` drop (Z.to_nat n) F ∧ (c = [] → Z.to_nat n = length F)
  | Closed | Hashing _ _ | Promoting _ => part (fs x) = Some F
  | Done (Returned _) => dest (fs x) = Some F
  | _ => True
  end.

Lemma prefix_extend (F b c : bytes) : b `prefix_of` F → c `prefix_of` drop (length b) F → b ++ c `prefix_of` F.
Proof. intros [k ->]. rewrite drop_app_length. by apply prefix_app. Qed.
Lemma prefix_full (F b : bytes) : b `prefix_of` F → length b = length F → b = F.
Proof. intros [k ->]. rewrite length_app. intros H. destruct k; [by rewrite app_nil_r|simpl in H; lia]. Qed.

Lemma follows_step F j a x x' :
  knows j (fs x) (at_ x) → honest F (Step a) x → follows F x → step a x = Some x' → follows F x'.
Proof.
  intros Hk Hh [H1 H2] Hst. unfold step in Hst. unfold honest in Hh.
  destruct (at_ x) eqn:Ep; try done; destruct a as [a|]; try done; try (destruct a; try done).
  all: unfold check in Hst; try (destruct (CancelEvent.flag (cancel x)) eqn:Ef; [injection Hst as <-; by split|]).
  - injection Hst as <-. by split.
  - injection Hst as <-. by split.
  - destruct (_ && _); injection Hst as <-; by split.
  - injection Hst as <-. by split.
  - injection Hst as <-. by split.
  - injection Hst as <-. destruct (opened_spec resume_from status content_length x) as (_ & _ & _ & [[e Hat]|(tot & [(Hat & _ & _ & Hp)|(Hat & Hp)])]).
    + split; [|by rewrite Hat]. intros b. unfold opened. clear -H1. repeat case_match; simpl; auto; try done.
      all: intros [= <-]; apply prefix_nil.
    + split; [by rewrite Hp|by rewrite Hat].
    + split; [|by rewrite Hat]. rewrite Hp. intros b [= <-]. apply prefix_nil.
  - injection Hst as <-. by split.
  - injection Hst as <-. by split.
  - injection Hst as <-. by split.
  - injection Hst as <-. simpl in Hk. destruct Hk as (b & Hb & Hn). destruct H2 as [H2 H3].
    rewrite Hn, Nat2Z.id in H2, H3.
    destruct (write_spec total downloaded chunk x) as (_ & _ & _ & [[Hc ->]|(_ & Hp & Hat)]).
    + split; simpl; [done|]. rewrite Hb. f_equal. apply prefix_full; auto.
    + split; [|by destruct Hat as [Hat|Hat]; rewrite Hat]. rewrite Hp, Hb. intros b' [= <-]. simpl. apply prefix_extend; auto.
  - injection Hst as <-. by split.
  - injection Hst as <-. by split.
  - injection Hst as <-. destruct (read _ rest) as [[|b c] r]; [|by split].
    unfold compare. by destruct (match expected_sha256 _ with Some _ => _ | None => true end).
  - unfold CancelEvent.commit in Hst. destruct (CancelEvent.flag (cancel x)); injection Hst as <-; [by split|].
    unfold promote. rewrite H2. by split.
Qed.

Lemma follows_reachable F j f s :
  chunk_bytes j ≠ 0 → (∀ b, part f = Some b → b `prefix_of` F) →
  reachable j f (honest F) s → follows F (run_ s).
Proof.
  intros Hcb Hp. induction 1 as [|l s s' Hs IH Ho E]; [by split|].
  destruct l as [a|]; simpl in E.
  - destruct (step a (run_ s)) as [x|] eqn:Es; [|done]. simpl in E. injection E as <-.
    eapply follows_step; [apply (download_inv_reachable _ _ _ _ Hcb Hs)|done..].
  - destruct (CancelEvent.request _) as [e b]. by injection E as <-.
Qed.

(** A resumed download installs the server's file: with a server that has the file [F],
    the partial file is always a beginning of [F], across range requests the server honours
    or ignores and restarts after 416, and a download that returns has installed all of [F],
    wherever the previous attempt stopped. *)
Theorem download_resumes F j f s :
  chunk_bytes j ≠ 0 → (∀ b, part f = Some b → b `prefix_of` F) → reachable j f (honest F) s →
  (∀ b, part (fs (run_ s)) = Some b → b `prefix_of` F) ∧
  (returned (at_ (run_ s)) = true → dest (fs (run_ s)) = Some F).
Proof.
  intros Hcb Hp Hs. destruct (follows_reachable F j f s Hcb Hp Hs) as [H1 H2]. split; [done|].
  destruct (at_ (run_ s)) as [| | | | | | | | | |[]]; done.
Qed.

(** A cut-off transfer without an expected checksum is installed as complete: the body
    ends after two of the four bytes the server announced, and [download], which never
    compares the bytes received with [Content-Length], returns. *)
Theorem truncated_download_installed :
  ∃ s d, runs (map Step [None; Some (Opens 200 (Some "4")); None; None; Some (Reads [71; 71]); None; None;
                         None; Some (Reads []); None; None; None; None; None])
           (start (Job None 8192 0) (Files None None)) = Some s ∧
    at_ (run_ s) = Done (Returned d) ∧ progress (run_ s) = [(2, Some 4)] ∧
    dest (fs (run_ s)) = Some [71; 71].
Proof. do 2 eexists. split; [vm_compute; reflexivity|]. by split_and!. Qed.

(** *** Witnesses *)

Lemma runs_reachable j f ls s s' :
  reachable j f any s → runs ls s = Some s' → reachable j f any s'.
Proof.
  revert s. induction ls as [|l ls IH]; intros s Hs; simpl; [by intros [= <-]|].
  destruct (exec l s) as [s1|] eqn:E; [|done]. simpl. apply IH. by eapply reach_exec.
Qed.

(** A resumed download of the bytes 1, 2, 3. *)
Definition demo_job : job := Job (Some "039058C6F2C0CB492C533B0A4D14EF77CC0F78ABCCCED5287D84A1A2011CFB81") 8192 0.
Definition demo_files : files := Files (Some [1]) None.
Definition demo_labels : list label :=
  map Step [None; Some (Opens 206 (Some "2")); None; None; Some (Reads [2; 3]); None; None;
            None; Some (Reads []); None; None; None; None; None].
Definition demo_sys : sys := default (start demo_job demo_files) (runs demo_labels (start demo_job demo_files)).
Lemma demo_download_reachable : reachable demo_job demo_files any demo_sys.
Proof. eapply (runs_reachable _ _ demo_labels); [apply reach_start|]. vm_compute. reflexivity. Qed.

Lemma download_verified_witness :
  ∃ b, dest (fs (run_ demo_sys)) = Some b ∧
       "039058c6f2c0cb492c533b0a4d14ef77cc0f78abccced5287d84a1a2011cfb81" = digest_of b ∧
       checked demo_job "039058c6f2c0cb492c533b0a4d14ef77cc0f78abccced5287d84a1a2011cfb81".
Proof. apply (download_verified demo_job demo_files demo_sys ltac:(done) demo_download_reachable). vm_compute. reflexivity. Defined.

Lemma cancel_or_commit_witness : snd (CancelEvent.request (cancel (run_ demo_sys))) = false.
Proof. apply (cancel_or_commit demo_job demo_files demo_sys ltac:(done) demo_download_reachable). vm_compute. reflexivity. Defined.

Lemma demo_honest : reachable demo_job demo_files (honest [1; 2; 3]) demo_sys.
Proof.
  assert (∀ ls s s', reachable demo_job demo_files (honest [1; 2; 3]) s → runs ls s = Some s' →
    (∀ a b s1, ls = a ++ b → runs a s = Some s1 → match b with l :: _ => honest [1; 2; 3] l (run_ s1) | [] => True end) →
    reachable demo_job demo_files (honest [1; 2; 3]) s') as Hgen.
  { induction ls as [|l ls IH]; intros s s' Hs E Ho; simpl in E; [by injection E as <-|].
    destruct (exec l s) as [s1|] eqn:E1; [|done]. simpl in E. eapply IH; [|exact E|].
    - eapply reach_exec; [done| |done]. by apply (Ho [] (l :: ls) s).
    - intros a b s2 -> Hr. apply (Ho (l :: a) b s2); [done|]. simpl. by rewrite E1. }
  eapply (Hgen demo_labels); [apply reach_start|vm_compute; reflexivity|].
  intros a b s1 Hab Hr. destruct b as [|l b]; [done|].
  assert (∃ n, a = take n demo_labels ∧ nth_error demo_labels n = Some l ∧ (n < 14)%nat) as (n & -> & Hl & Hn).
  { exists (length a). rewrite Hab. split; [by rewrite take_app_length|]. split.
    - rewrite nth_error_app2, Nat.sub_diag by lia. done.
    - apply (f_equal length) in Hab. rewrite length_app in Hab. simpl in Hab. lia. }
  do 14 (destruct n as [|n]; [vm_compute in Hl, Hr; injection Hl as <-; injection Hr as <-; simpl; try done;
    try (split; [by exists []|done])|]). lia.
Qed.

Lemma download_resumes_witness : dest (fs (run_ demo_sys)) = Some [1; 2; 3].
Proof.
  apply (download_resumes [1; 2; 3] demo_job demo_files demo_sys ltac:(done)); [|apply demo_honest|vm_compute; reflexivity].
  intros b [= <-]. by exists [2; 3].
Defined.

End Downloader.
