(* ===== verification/Gguf.v ===== *)
(** * The GGUF header reader ([engine/models/gguf.py])

    [Module Utf8] is [bytes.decode("utf-8", errors="replace")] of CPython: an ill-formed
    sequence becomes U+FFFD for each of its maximal valid prefixes.  [Module Gguf] is the
    reader: the file is its bytes, the file object a position that [seek] can move past the
    end, and the metadata read so far the dictionary [wanted].  Text read from the file is a
    list of code points.  [Module GgufFile] is a reference encoder of GGUF headers with the
    round trip, and the bounds of a header that is accepted.

    Parameters: [str_float], the text of an unpacked float, and [seek_max], the largest
    offset the file system lets a file be positioned at. *)

From S2P Require Import Prelude Crypto Text.
From Stdlib Require Import Ascii.

Open Scope Z_scope.

Module Utf8.

Definition FFFD : Z := 65533.
Definition in_range (lo hi b : Z) : bool := (lo <=? b) && (b <=? hi).
Definition is_cont (b : Z) : bool := in_range 128 191 b.

(** The second bytes that may follow a lead byte of a longer sequence. *)
Definition second_ok (lead b : Z) : bool :=
  in_range (if lead =? 224 then 160 else if lead =? 240 then 144 else 128)
           (if lead =? 237 then 159 else if lead =? 244 then 143 else 191) b.

(** [bs.decode("utf-8", errors="replace")] *)
Fixpoint decode (bs : list Z) : list Z :=
  match bs with
  | [] => []
  | b :: l1 =>
      if b <? 128 then b :: decode l1
      else if in_range 194 223 b then
        match l1 with
        | [] => [FFFD]
        | c :: l2 => if is_cont c then ((b - 192) * 64 + (c - 128)) :: decode l2
                     else FFFD :: decode l1
        end
      else if in_range 224 239 b then
        match l1 with
        | [] => [FFFD]
        | c :: l2 =>
            if second_ok b c then
              match l2 with
              | [] => [FFFD]
              | d :: l3 =>
                  if is_cont d then ((b - 224) * 4096 + (c - 128) * 64 + (d - 128)) :: decode l3
                  else FFFD :: decode l2
              end
            else FFFD :: decode l1
        end
      else if in_range 240 244 b then
        match l1 with
        | [] => [FFFD]
        | c :: l2 =>
            if second_ok b c then
              match l2 with
              | [] => [FFFD]
              | d :: l3 =>
                  if is_cont d then
                    match l3 with
                    | [] => [FFFD]
                    | e :: l4 =>
                        if is_cont e then
                          ((b - 240) * 262144 + (c - 128) * 4096 + (d - 128) * 64 + (e - 128)) :: decode l4
                        else FFFD :: decode l3
                    end
                  else FFFD :: decode l2
              end
            else FFFD :: decode l1
        end
      else FFFD :: decode l1
  end.

(** The encoder of RFC 3629, on Unicode scalar values. *)
Definition encode_char (n : Z) : list Z :=
  if n <? 128 then [n]
  else if n <? 2048 then [192 + n / 64; 128 + n mod 64]
  else if n <? 65536 then [224 + n / 4096; 128 + n / 64 mod 64; 128 + n mod 64]
  else [240 + n / 262144; 128 + n / 4096 mod 64; 128 + n / 64 mod 64; 128 + n mod 64].
Definition encode (s : list Z) : list Z := flat_map encode_char s.
Definition is_scalar (n : Z) : bool := in_range 0 55295 n || in_range 57344 1114111 n.

(** The code points of a [string]. *)
Definition points (s : string) : list Z := map Crypto.code (Crypto.chars s).

Ltac range_cases :=
  unfold is_cont, second_ok, is_scalar, in_range in *;
  repeat match goal with
  | H : _ && _ = true |- _ => apply andb_true_iff in H as [? ?]
  | H : _ || _ = true |- _ => apply orb_true_iff in H as [?|?]
  | H : (_ <=? _) = true |- _ => apply Z.leb_le in H
  | H : (_ <? _) = true |- _ => apply Z.ltb_lt in H
  | H : (_ <? _) = false |- _ => apply Z.ltb_ge in H
  end.
(** Decides a comparison by arithmetic on quotients and remainders. *)
Ltac cmp :=
  match goal with
  | |- context [?a <? ?b] => first [rewrite (proj2 (Z.ltb_lt a b)) by (Z.to_euclidean_division_equations; lia)
                                   |rewrite (proj2 (Z.ltb_ge a b)) by (Z.to_euclidean_division_equations; lia)]
  | |- context [?a <=? ?b] => first [rewrite (proj2 (Z.leb_le a b)) by (Z.to_euclidean_division_equations; lia)
                                    |rewrite (proj2 (Z.leb_gt a b)) by (Z.to_euclidean_division_equations; lia)]
  | |- context [?a =? ?b] => destruct (Z.eqb_spec a b)
  end; cbn [andb].

Lemma decode_encode_char n rest :
  is_scalar n = true → decode (encode_char n ++ rest) = n :: decode rest.
Proof.
  intros H. unfold encode_char.
  destruct (n <? 128) eqn:E1; [cbn; by rewrite E1|].
  destruct (n <? 2048) eqn:E2; [|destruct (n <? 65536) eqn:E3];
    cbn [app decode]; range_cases; repeat cmp; f_equal; Z.to_euclidean_division_equations; lia.
Qed.

Lemma decode_encode s : forallb is_scalar s = true → decode (encode s) = s.
Proof.
  induction s as [|n s IH]; simpl; [done|]. intros [H1 H2]%andb_true_iff.
  by rewrite decode_encode_char, IH.
Qed.

Example decode_malformed :
  decode [97; 226; 130; 172; 255; 226; 130] = [97; 8364; FFFD; FFFD] ∧
  decode [237; 160; 128] = [FFFD; FFFD; FFFD] ∧ decode [240; 159; 65] = [FFFD; 65].
Proof. by vm_compute. Qed.

End Utf8.

Module Gguf.

Definition bytes := list Z.
(** Text as code points. *)
Definition text := list Z.

(** ** The tables of the module *)

Definition GGUF_MAGIC : bytes := [71; 71; 85; 70].
Definition STRING : Z := 8.
Definition ARRAY : Z := 9.

(** The format characters of [struct]. *)
Inductive format := FB | Fb | FH | Fh | FI | Fi | Ff | Fbool | FQ | Fq | Fd.
Definition calcsize (f : format) : Z :=
  match f with
  | FB | Fb | Fbool => 1
  | FH | Fh => 2
  | FI | Fi | Ff => 4
  | FQ | Fq | Fd => 8
  end.

(** [_SCALAR] *)
Definition SCALAR (vtype : Z) : option (format * Z) :=
  match vtype with
  | 0 => Some (FB, 1) | 1 => Some (Fb, 1) | 2 => Some (FH, 2) | 3 => Some (Fh, 2)
  | 4 => Some (FI, 4) | 5 => Some (Fi, 4) | 6 => Some (Ff, 4) | 7 => Some (Fbool, 1)
  | 10 => Some (FQ, 8) | 11 => Some (Fq, 8) | 12 => Some (Fd, 8)
  | _ => None
  end.

(** [_FTYPE_QUANT] *)
Definition FTYPE_QUANT : list (Z * string) :=
  [(0, "F32"); (1, "F16"); (2, "Q4_0"); (3, "Q4_1"); (7, "Q8_0"); (8, "Q5_0"); (9, "Q5_1");
   (10, "Q2_K"); (11, "Q3_K_S"); (12, "Q3_K_M"); (13, "Q3_K_L"); (14, "Q4_K_S"); (15, "Q4_K_M");
   (16, "Q5_K_S"); (17, "Q5_K_M"); (18, "Q6_K"); (19, "IQ2_XXS"); (20, "IQ2_XS"); (23, "IQ3_XXS")].

(** ** The quantisation label in a file name

    [match_at] is the regular expression at one position, [findall] its leftmost
    non-overlapping matches. *)

Definition is_digit (c : ascii) : bool := Utf8.in_range 48 57 (Crypto.code c).
Definition is_alnum (c : ascii) : bool :=
  is_digit c || Utf8.in_range 65 90 (Crypto.code c) || Utf8.in_range 97 122 (Crypto.code c).
(** [re.IGNORECASE] on an ASCII letter or digit of the pattern, given in lower case. *)
Definition same_char (p c : ascii) : bool := bool_decide (Text.lower_char c = p).

Fixpoint literal (p : list ascii) (l : list ascii) : option (list ascii * list ascii) :=
  match p, l with
  | [], _ => Some ([], l)
  | a :: p', c :: l' => if same_char a c then
                          match literal p' l' with
                          | Some (m, r) => Some (c :: m, r)
                          | None => None
                          end
                        else None
  | _ :: _, [] => None
  end.
(** [\d*], greedy *)
Fixpoint digit_run (l : list ascii) : list ascii * list ascii :=
  match l with
  | c :: l' => if is_digit c then let '(m, r) := digit_run l' in (c :: m, r) else ([], l)
  | [] => ([], [])
  end.
(** [(?:_[0-9A-Za-z]+)*], greedy; [inside] when at least one character of a group was taken. *)
Fixpoint groups (inside : bool) (l : list ascii) : list ascii :=
  match l with
  | [] => []
  | c :: l' =>
      if inside && is_alnum c then c :: groups true l'
      else if bool_decide (c = "_"%char) && match l' with d :: _ => is_alnum d | [] => false end then
        c :: groups true l'
      else []
  end.
(** A prefix, [\d+] and the groups. *)
Definition quant_label (p : string) (l : list ascii) : option (list ascii) :=
  '(m, r) ← literal (Crypto.chars p) l;
  match digit_run r with
  | ([], _) => None
  | (ds, r') => Some (m ++ ds ++ groups false r')
  end.
Definition match_at (l : list ascii) : option (list ascii) :=
  match quant_label "iq" l with
  | Some m => Some m
  | None =>
      match quant_label "q" l with
      | Some m => Some m
      | None =>
          match literal (Crypto.chars "bf16") l, literal (Crypto.chars "f16") l, literal (Crypto.chars "f32") l with
          | Some (m, _), _, _ | None, Some (m, _), _ | None, None, Some (m, _) => Some m
          | None, None, None => None
          end
      end
  end.
Fixpoint findall (skip : nat) (l : list ascii) : list (list ascii) :=
  match l with
  | [] => []
  | _ :: l' =>
      match skip with
      | S k => findall k l'
      | O => match match_at l with
             | Some m => m :: findall (length m - 1) l'
             | None => findall 0 l'
             end
      end
  end.

Definition upper_char (c : ascii) : ascii :=
  if Utf8.in_range 97 122 (Crypto.code c) then Crypto.char (Crypto.code c - 32) else c.

Definition quant_from_filename (filename : string) : option string :=
  m ← last (findall 0 (Crypto.chars filename)); Some (Crypto.of_chars (map upper_char m)).

Example quant_examples :
  quant_from_filename "model-7b.q4_k_m.gguf" = Some "Q4_K_M" ∧
  quant_from_filename "llama_IQ3_XXS-00001.gguf" = Some "IQ3_XXS" ∧
  quant_from_filename "qwen2.5-7b-BF16.gguf" = Some "BF16" ∧
  quant_from_filename "tiny.gguf" = None.
Proof. by vm_compute. Qed.

(** ** The file object *)

Inductive value := VInt (z : Z) | VBool (b : bool) | VFloat (raw : bytes) | VStr (s : text).

(** What [_read] and [seek] change, and the local dictionary [wanted]. *)
Record state := State { pos : Z; wanted : list (text * value) }.
Definition with_pos (p : Z) (s : state) : state := State p (wanted s).

(** Little-endian integers. *)
Fixpoint le_int (bs : bytes) : Z := match bs with [] => 0 | b :: bs' => b + 256 * le_int bs' end.
Definition signed (size u : Z) : Z := if u <? 2 ^ (8 * size - 1) then u else u - 2 ^ (8 * size).

(** [struct.unpack("<" + fmt, data)[0]] *)
Definition unpack (f : format) (data : bytes) : stmt state value :=
  if Z.of_nat (length data) =? calcsize f then
    mret (match f with
          | FB | FH | FI | FQ => VInt (le_int data)
          | Fb | Fh | Fi | Fq => VInt (signed (calcsize f) (le_int data))
          | Fbool => VBool (negb (le_int data =? 0))
          | Ff | Fd => VFloat data
          end)
  else raise StructError.
(** The unsigned cases, as the integers they are. *)
Definition unpack_uint (f : format) (data : bytes) : stmt state Z :=
  if Z.of_nat (length data) =? calcsize f then mret (le_int data) else raise StructError.

(** [for _ in range(n): body] *)
Fixpoint for_pos {S} (p : positive) (body : stmt S unit) : stmt S unit :=
  match p with
  | xH => body
  | xO q => _ ← for_pos q body; for_pos q body
  | xI q => _ ← body; _ ← for_pos q body; for_pos q body
  end.
Definition for_range {S} (n : Z) (body : stmt S unit) : stmt S unit :=
  match n with Zpos p => for_pos p body | _ => mret tt end.

Section File.
Context (str_float : bytes → text) (seek_max : Z) (data : bytes).

(** [fh.read(n)] *)
Definition fh_read (n : Z) : stmt state bytes := fun s =>
  let len := Z.of_nat (length data) in
  let chunk := if len <=? pos s then []
               else take (Z.to_nat (Z.min n (len - pos s))) (drop (Z.to_nat (pos s)) data) in
  (with_pos (pos s + Z.of_nat (length chunk)) s, Ok chunk).
(** [fh.seek(offset, 1)]; an offset that does not fit 64 bits is a [ValueError], a position the
    file system refuses an [OSError]. *)
Definition fh_seek (offset : Z) : stmt state unit := fun s =>
  if 2 ^ 63 <=? offset then (s, Err ValueError)
  else if seek_max <? pos s + offset then (s, Err OSError)
  else (with_pos (pos s + offset) s, Ok tt).

Definition read (n : Z) : stmt state bytes :=
  d ← fh_read n;
  if Z.of_nat (length d) =? n then mret d else raise EOFError.

Definition read_scalar (vtype : Z) : stmt state value :=
  match SCALAR vtype with
  | None => raise KeyError
  | Some (fmt, size) => d ← read size; unpack fmt d
  end.

Definition read_string : stmt state text :=
  d ← read 8;
  length ← unpack_uint FQ d;
  if 64 * 1024 * 1024 <? length then raise ValueError
  else d ← read length; mret (Utf8.decode d).

Definition skip_string : stmt state unit :=
  d ← read 8;
  length ← unpack_uint FQ d;
  fh_seek length.

Definition skip_array : stmt state unit :=
  d ← read 4;
  elem_type ← unpack_uint FI d;
  d ← read 8;
  count ← unpack_uint FQ d;
  match SCALAR elem_type with
  | Some (_, size) => fh_seek (size * count)
  | None => if elem_type =? STRING then for_range count skip_string
            else raise ValueError
  end.

Definition skip_value (vtype : Z) : stmt state unit :=
  match SCALAR vtype with
  | Some (_, size) => fh_seek size
  | None => if vtype =? STRING then skip_string
            else if vtype =? ARRAY then skip_array
            else raise ValueError
  end.

Definition read_scalar_value (vtype : Z) : stmt state (option value) :=
  if bool_decide (is_Some (SCALAR vtype)) then v ← read_scalar vtype; mret (Some v)
  else if vtype =? STRING then t ← read_string; mret (Some (VStr t))
  else _ ← skip_value vtype; mret None.

(** ** [probe] *)

Record GgufInfo := Info {
  valid : bool;
  arch : option text;
  name : option text;
  quant : option string;
  context_length : option Z;
}.
Definition invalid : GgufInfo := Info false None None None None.

Definition key_architecture : text := Utf8.points "general.architecture".
Definition key_name : text := Utf8.points "general.name".
Definition key_file_type : text := Utf8.points "general.file_type".
Definition keys_of_interest : list text := [key_architecture; key_name; key_file_type].
Definition context_suffix : text := Utf8.points ".context_length".
Definition endswith (suffix key : text) : bool :=
  bool_decide (drop (length key - length suffix) key = suffix).

Definition store (key : text) (v : option value) : stmt state unit := run (fun s =>
  (match v with Some v => State (pos s) (dict_set key v (wanted s)) | None => s end, tt)).

(** One turn of the loop over the metadata. *)
Definition read_kv : stmt state unit :=
  key ← read_string;
  d ← read 4;
  vtype ← unpack_uint FI d;
  if bool_decide (key ∈ keys_of_interest) || endswith context_suffix key then
    v ← read_scalar_value vtype; store key v
  else skip_value vtype.

(** [str(v)] *)
Definition str_value (v : value) : text :=
  match v with
  | VInt z => Utf8.points (Text.str_int z)
  | VBool b => Utf8.points (if b then "True" else "False")
  | VFloat raw => str_float raw
  | VStr s => s
  end.
(** [int(v) if isinstance(v, int) else None] *)
Definition as_int (v : value) : option Z :=
  match v with VInt z => Some z | VBool b => Some (if b then 1 else 0) | _ => None end.

(** From the end of the loop to the [return]. *)
Definition summarise (filename : string) (d : list (text * value)) : GgufInfo :=
  let arch_str := str_value <$> dict_get key_architecture d in
  let ctx_key := match arch_str with
                 | Some a => if bool_decide (a = []) then None else Some (a ++ context_suffix)
                 | None => None end in
  let ctx := match ctx_key with Some k => dict_get k d | None => None end in
  let ctx := match ctx with
             | Some v => Some v
             | None => snd <$> find (fun p => endswith context_suffix (fst p)) d end in
  let file_type := dict_get key_file_type d in
  let quant := n ← (v ← file_type; as_int v); dict_get n FTYPE_QUANT in
  let quant := match quant with Some q => Some q | None => quant_from_filename filename end in
  Info true arch_str (str_value <$> dict_get key_name d) quant (v ← ctx; as_int v).

Definition probe_body (filename : string) : stmt state GgufInfo :=
  magic ← read 4;
  if negb (bool_decide (magic = GGUF_MAGIC)) then mret invalid
  else
    d ← read 4;
    _version ← unpack_uint FI d;
    d ← read 8;
    _tensor_count ← unpack_uint FQ d;
    d ← read 8;
    kv_count ← unpack_uint FQ d;
    _ ← for_range kv_count read_kv;
    query (fun s => summarise filename (wanted s)).

End File.

(** The classes of the [except] clause of [probe]. *)
Definition caught (e : exn) : bool :=
  bool_decide (e ∈ [OSError; EOFError; ValueError; StructError]).

(** [probe(path)]: [opened] is what [open(path, "rb")] did, with the bytes of the file, and
    [filename] is [Path(path).name]. *)
Definition probe (str_float : bytes → text) (seek_max : Z) (opened : result exn bytes)
    (filename : string) : result exn GgufInfo :=
  let r := match opened with
           | Err e => Err e
           | Ok data => snd (probe_body str_float seek_max data filename (State 0 []))
           end in
  match r with
  | Ok info => Ok info
  | Err e => if caught e then Ok invalid else Err e
  end.

End Gguf.

(** ** A reference encoder and the round trip *)

Module GgufFile.
Import Gguf.

Inductive gvalue :=
| GInt (vtype : Z) (z : Z)
| GBool (b : bool)
| GFloat32 (raw : bytes)
| GFloat64 (raw : bytes)
| GString (s : text)
| GArray (vtype : Z) (items : list bytes)
| GStrings (items : list bytes).
Definition kv : Type := text * gvalue.

Fixpoint le_bytes (n : nat) (z : Z) : bytes :=
  match n with O => [] | S n' => z mod 256 :: le_bytes n' (z / 256) end.
Definition size_of (vtype : Z) : Z := match SCALAR vtype with Some (_, n) => n | None => 0 end.

Definition encode_string (s : bytes) : bytes := le_bytes 8 (Z.of_nat (length s)) ++ s.
Definition type_code (g : gvalue) : Z :=
  match g with
  | GInt vt _ => vt | GBool _ => 7 | GFloat32 _ => 6 | GFloat64 _ => 12
  | GString _ => STRING | GArray _ _ | GStrings _ => ARRAY
  end.
Definition encode_value (g : gvalue) : bytes :=
  match g with
  | GInt vt z => le_bytes (Z.to_nat (size_of vt)) z
  | GBool b => [if b then 1 else 0]
  | GFloat32 raw | GFloat64 raw => raw
  | GString s => encode_string (Utf8.encode s)
  | GArray vt items => le_bytes 4 vt ++ le_bytes 8 (Z.of_nat (length items)) ++ concat items
  | GStrings items => le_bytes 4 STRING ++ le_bytes 8 (Z.of_nat (length items))
                        ++ concat (map encode_string items)
  end.
Definition encode_kv (p : kv) : bytes :=
  encode_string (Utf8.encode (fst p)) ++ le_bytes 4 (type_code (snd p)) ++ encode_value (snd p).
Definition encode_header (version tensor_count : Z) (kvs : list kv) : bytes :=
  GGUF_MAGIC ++ le_bytes 4 version ++ le_bytes 8 tensor_count
    ++ le_bytes 8 (Z.of_nat (length kvs)) ++ concat (map encode_kv kvs).

(** Values a GGUF writer can produce. *)
Definition int_range (f : format) (z : Z) : bool :=
  match f with
  | FB | FH | FI | FQ => (0 <=? z) && (z <? 2 ^ (8 * calcsize f))
  | Fb | Fh | Fi | Fq => (- 2 ^ (8 * calcsize f - 1) <=? z) && (z <? 2 ^ (8 * calcsize f - 1))
  | _ => false
  end.
Definition text_ok (s : text) : bool :=
  forallb Utf8.is_scalar s && (Z.of_nat (length (Utf8.encode s)) <=? 64 * 1024 * 1024).
Definition value_ok (g : gvalue) : bool :=
  match g with
  | GInt vt z => match SCALAR vt with Some (f, _) => int_range f z | None => false end
  | GBool _ => true
  | GFloat32 raw => Nat.eqb (length raw) 4
  | GFloat64 raw => Nat.eqb (length raw) 8
  | GString s => text_ok s
  | GArray vt items => bool_decide (is_Some (SCALAR vt))
      && forallb (fun i => Z.of_nat (length i) =? size_of vt) items
  | GStrings items => true
  end.
Definition kv_ok (p : kv) : bool := text_ok (fst p) && value_ok (snd p).

(** What the reader is to see of a value: nothing of an array. *)
Definition value_of (g : gvalue) : option value :=
  match g with
  | GInt _ z => Some (VInt z)
  | GBool b => Some (VBool b)
  | GFloat32 raw | GFloat64 raw => Some (VFloat raw)
  | GString s => Some (VStr s)
  | GArray _ _ | GStrings _ => None
  end.
(** The value of a key: the last one that is no array. *)
Fixpoint metadata (k : text) (kvs : list kv) : option value :=
  match kvs with
  | [] => None
  | p :: kvs' => match metadata k kvs' with
                 | Some v => Some v
                 | None => if bool_decide (fst p = k) then value_of (snd p) else None
                 end
  end.

(** *** Little-endian integers *)

Lemma le_bytes_length n z : length (le_bytes n z) = n.
Proof. revert z. induction n as [|n IH]; intros z; simpl; [done|by rewrite IH]. Qed.

Lemma le_int_bytes n z : le_int (le_bytes n z) = z mod 256 ^ Z.of_nat n.
Proof.
  revert z. induction n as [|n IH]; intros z; [by rewrite Z.mod_1_r|].
  cbn [le_bytes le_int]. rewrite IH, Nat2Z.inj_succ, Z.pow_succ_r by lia.
  rewrite Z.rem_mul_r by lia. lia.
Qed.

Lemma le_int_unsigned n z : 0 <= z < 256 ^ Z.of_nat n → le_int (le_bytes n z) = z.
Proof. intros H. by rewrite le_int_bytes, Z.mod_small. Qed.

Lemma le_int_pos bs : Forall Crypto.byte bs → 0 <= le_int bs.
Proof. induction 1 as [|b bs Hb _ IH]; simpl; [done|]. unfold Crypto.byte in Hb. lia. Qed.

Lemma signed_bytes (n : nat) z : (0 < n)%nat →
  - 2 ^ (8 * Z.of_nat n - 1) <= z < 2 ^ (8 * Z.of_nat n - 1) →
  signed (Z.of_nat n) (le_int (le_bytes n z)) = z.
Proof.
  intros Hn H. unfold signed. rewrite le_int_bytes.
  replace (256 ^ Z.of_nat n) with (2 ^ (8 * Z.of_nat n)) by (rewrite Z.pow_mul_r by lia; done).
  assert (2 ^ (8 * Z.of_nat n) = 2 * 2 ^ (8 * Z.of_nat n - 1)) as E
    by (rewrite <- Z.pow_succ_r by lia; f_equal; lia).
  set (h := 2 ^ (8 * Z.of_nat n - 1)) in *. rewrite E in *.
  destruct (Z.lt_ge_cases z 0).
  - rewrite <- (Z.mod_unique z (2 * h) (-1) (z + 2 * h)) by lia.
    destruct (Z.ltb_spec (z + 2 * h) h); lia.
  - rewrite Z.mod_small by lia. destruct (Z.ltb_spec z h); lia.
Qed.

(** *** Reading what was encoded

    [reads c bs v f]: wherever the bytes [bs] stand in the file, [c] positioned before them
    returns [v] positioned behind them, and changes [wanted] by [f]; with [reads_w] the
    returned value may depend on [wanted]. *)

Section Reads.
Context (seek_max : Z) (Hseek : seek_max < 2 ^ 63).

Definition reads_w {A} (c : bytes → stmt state A) (bs : bytes) (v : list (text * value) → A)
    (f : list (text * value) → list (text * value)) : Prop :=
  ∀ pre post w, Z.of_nat (length (pre ++ bs ++ post)) <= seek_max →
    c (pre ++ bs ++ post) (State (Z.of_nat (length pre)) w)
    = (State (Z.of_nat (length pre) + Z.of_nat (length bs)) (f w), Ok (v w)).
Definition reads {A} (c : bytes → stmt state A) (bs : bytes) (v : A)
    (f : list (text * value) → list (text * value)) : Prop := reads_w c bs (fun _ => v) f.

Lemma reads_ret {A} (v : A) : reads (fun _ => mret v) [] v id.
Proof. intros pre post w _. cbn. by rewrite Z.add_0_r. Qed.

(** What is read is in the file, so its length is bounded. *)
Lemma reads_bounded {A} (c : bytes → stmt state A) bs v f :
  (Z.of_nat (length bs) <= seek_max → reads c bs v f) → reads c bs v f.
Proof. intros H pre post w Hl. apply H; [|done]. rewrite !length_app in Hl. lia. Qed.

Lemma reads_ext {A} (c : bytes → stmt state A) bs v f g :
  (∀ w, f w = g w) → reads c bs v g → reads c bs v f.
Proof. intros E H pre post w Hl. by rewrite E, H. Qed.

Lemma reads_w_bind {A B} (c : bytes → stmt state A) (k : bytes → A → stmt state B) b1 b2 a v f g :
  reads c b1 a f → reads_w (fun d => k d a) b2 v g →
  reads_w (fun d => c d ≫= k d) (b1 ++ b2) (v ∘ f) (g ∘ f).
Proof.
  intros H1 H2 pre post w Hl. specialize (H1 pre (b2 ++ post) w).
  specialize (H2 (pre ++ b1) post (f w)). rewrite <- !app_assoc in *.
  unfold mbind, stmt_bind. rewrite H1 by done. rewrite (length_app pre b1), Nat2Z.inj_add in H2.
  rewrite H2 by (rewrite !length_app in Hl |- *; lia).
  rewrite length_app, Nat2Z.inj_add, Z.add_assoc. done.
Qed.
Lemma reads_bind {A B} (c : bytes → stmt state A) (k : bytes → A → stmt state B) b1 b2 a v f g :
  reads c b1 a f → reads (fun d => k d a) b2 v g →
  reads (fun d => c d ≫= k d) (b1 ++ b2) v (g ∘ f).
Proof. apply reads_w_bind. Qed.

(** The same where the second part reads nothing. *)
Lemma reads_then {A B} (c : bytes → stmt state A) (k : bytes → A → stmt state B) b a v f g :
  reads c b a f → reads (fun d => k d a) [] v g → reads (fun d => c d ≫= k d) b v (g ∘ f).
Proof. intros H1 H2. rewrite <- (app_nil_r b). by eapply reads_bind. Qed.

Lemma reads_read n bs : Z.of_nat (length bs) = n → reads (fun d => read d n) bs bs id.
Proof.
  intros <- pre post w _. unfold read, fh_read, mbind, stmt_bind. cbn [pos with_pos].
  rewrite !length_app, !Nat2Z.inj_add, Nat2Z.id, drop_app_length.
  destruct (Z.leb_spec (Z.of_nat (length pre) + (Z.of_nat (length bs) + Z.of_nat (length post)))
              (Z.of_nat (length pre))) as [Hle|_].
  - destruct bs; simpl in *; [|lia]. by rewrite Z.add_0_r.
  - rewrite Z.min_l by lia. rewrite Nat2Z.id, take_app_length, Z.eqb_refl. done.
Qed.

Lemma reads_seek bs n : Z.of_nat (length bs) = n → reads (fun _ => fh_seek seek_max n) bs tt id.
Proof.
  intros <- pre post w Hl. unfold fh_seek. rewrite !length_app in Hl. cbn [pos].
  rewrite (proj2 (Z.leb_gt _ _)) by lia. rewrite (proj2 (Z.ltb_ge _ _)) by lia. done.
Qed.

(** An unsigned field. *)
Lemma reads_w_uint f n z {A} (k : bytes → Z → stmt state A) b v g :
  calcsize f = Z.of_nat n → 0 <= z < 256 ^ Z.of_nat n → reads_w (fun d => k d z) b v g →
  reads_w (fun d => x ← read d (calcsize f); u ← unpack_uint f x; k d u) (le_bytes n z ++ b) v g.
Proof.
  intros Hn Hz Hk. apply (reads_w_bind _ (fun d x => u ← unpack_uint f x; k d u) _ _ (le_bytes n z) _ id g).
  - apply reads_read. by rewrite le_bytes_length.
  - intros pre post w Hl. unfold unpack_uint. rewrite le_bytes_length, Hn, Z.eqb_refl.
    unfold mbind, stmt_bind, mret, stmt_ret. rewrite le_int_unsigned by done. by apply Hk.
Qed.
Lemma reads_uint f n z {A} (k : bytes → Z → stmt state A) b v g :
  calcsize f = Z.of_nat n → 0 <= z < 256 ^ Z.of_nat n → reads (fun d => k d z) b v g →
  reads (fun d => x ← read d (calcsize f); u ← unpack_uint f x; k d u) (le_bytes n z ++ b) v g.
Proof. apply reads_w_uint. Qed.

Lemma encode_string_length s : Z.of_nat (length (encode_string s)) = 8 + Z.of_nat (length s).
Proof. unfold encode_string. rewrite length_app, le_bytes_length. lia. Qed.

Lemma reads_string s : text_ok s = true →
  reads read_string (encode_string (Utf8.encode s)) s id.
Proof.
  intros [Hs Hl%Z.leb_le]%andb_true_iff.
  apply (reads_uint FQ 8); [done|lia|]. rewrite (proj2 (Z.ltb_ge _ _)) by lia.
  apply (reads_then _ (fun _ x => mret (Utf8.decode x)) _ (Utf8.encode s) s id id);
    [by apply reads_read|]. rewrite Utf8.decode_encode by done. apply reads_ret.
Qed.

(** A skipped string: its length is bounded because the file fits the file system. *)
Lemma reads_skip_string s : reads (skip_string seek_max) (encode_string s) tt id.
Proof.
  apply reads_bounded. intros Hl. rewrite encode_string_length in Hl.
  apply (reads_uint FQ 8 (Z.of_nat (length s)) (fun _ => fh_seek seek_max)); [done|lia|by apply reads_seek].
Qed.

(** Loops: [l] has the bytes of each turn and what it does to [wanted]. *)
Definition apply_all (l : list (bytes * (list (text * value) → list (text * value)))) w :=
  fold_left (fun w p => snd p w) l w.
Lemma reads_for c l : Forall (fun p => reads c (fst p) tt (snd p)) l →
  reads (fun d => for_range (Z.of_nat (length l)) (c d)) (concat (map fst l)) tt (apply_all l).
Proof.
  intros Hl. destruct l as [|x l0] eqn:El; [apply reads_ret|]. rewrite <- El in *.
  assert (∃ p, Z.of_nat (length l) = Zpos p ∧ Pos.to_nat p = length l) as (p & -> & Hp).
  { exists (Pos.of_nat (length l)). rewrite El. simpl length. split; lia. }
  clear El x l0. unfold for_range. revert l Hp Hl. induction p as [p IH|p IH|]; intros l Hp Hl.
  - destruct l as [|b l]; [simpl in Hp; lia|]. inversion Hl as [|? ? Hb Hl']; subst. simpl in Hp.
    rewrite <- (take_drop (Pos.to_nat p) l) in Hl' |- *. apply Forall_app in Hl' as [H1 H2].
    apply reads_ext with (g := (apply_all (drop (Pos.to_nat p) l) ∘ apply_all (take (Pos.to_nat p) l)) ∘ snd b);
      [intros w; unfold apply_all; simpl; by rewrite fold_left_app|].
    cbn [map concat]. rewrite map_app, concat_app. eapply reads_bind; [done|].
    eapply reads_bind; apply IH; try done; rewrite ?length_take, ?length_drop; lia.
  - rewrite <- (take_drop (Pos.to_nat p) l) in Hl |- *. apply Forall_app in Hl as [H1 H2].
    apply reads_ext with (g := apply_all (drop (Pos.to_nat p) l) ∘ apply_all (take (Pos.to_nat p) l));
      [intros w; unfold apply_all; simpl; by rewrite fold_left_app|].
    rewrite map_app, concat_app. eapply reads_bind; apply IH; try done;
      rewrite ?length_take, ?length_drop; lia.
  - destruct l as [|b [|b' l]]; [simpl in Hp; lia| |simpl in Hp; lia].
    inversion Hl; subst. simpl. by rewrite app_nil_r.
Qed.

Lemma SCALAR_size vt f n : SCALAR vt = Some (f, n) → n = calcsize f ∧ 0 < n.
Proof. intros E. unfold SCALAR in E. repeat case_match; simplify_eq; done. Qed.

(** The array header, then the items. *)
Lemma reads_skip_array_items vt (items : list bytes) :
  is_Some (SCALAR vt) → Forall (fun i => Z.of_nat (length i) = size_of vt) items →
  reads (skip_array seek_max) (encode_value (GArray vt items)) tt id.
Proof.
  intros [[f n] E] Hi. apply reads_bounded. intros Hl.
  destruct (SCALAR_size _ _ _ E) as [-> Hn].
  assert (Z.of_nat (length (concat items)) = calcsize f * Z.of_nat (length items)) as Hlen.
  { unfold size_of in Hi. rewrite E in Hi. clear Hl.
    induction Hi as [|i items Hi0 _ IH]; simpl; [lia|]. rewrite length_app. lia. }
  assert (0 <= vt < 256 ^ Z.of_nat 4) as Hvt
    by (unfold SCALAR in E; repeat case_match; simplify_eq; lia).
  cbn [encode_value] in Hl. rewrite !length_app in Hl.
  apply (reads_uint FI 4); [done|done|].
  apply (reads_uint FQ 8); [done|nia|]. rewrite E. by apply reads_seek.
Qed.

Lemma reads_skip_array_strings (items : list bytes) :
  reads (skip_array seek_max) (encode_value (GStrings items)) tt id.
Proof.
  apply reads_bounded. intros Hl.
  assert (Z.of_nat (length items) <= Z.of_nat (length (concat (map encode_string items)))) as Hlen.
  { clear Hl. induction items as [|i items IH]; simpl; [lia|]. rewrite length_app.
    pose proof (encode_string_length i). lia. }
  cbn [encode_value] in Hl. rewrite !length_app in Hl.
  apply (reads_uint FI 4); [done|done|].
  apply (reads_uint FQ 8); [done|lia|]. cbn [SCALAR STRING Z.eqb Pos.eqb].
  pose (l := map (fun i => (encode_string i, @id (list (text * value)))) items).
  replace (map encode_string items) with (map fst l) by (unfold l; by rewrite map_map).
  rewrite <- (length_map (fun i => (encode_string i, @id (list (text * value)))) items).
  apply reads_ext with (g := apply_all l).
  - intros w'. unfold l, apply_all. clear. induction items; simpl; done.
  - apply reads_for. unfold l. apply Forall_map, Forall_forall. intros i _. apply reads_skip_string.
Qed.

Lemma reads_unpack f n bs v : n = calcsize f → Z.of_nat (length bs) = n →
  (∀ s, unpack f bs s = (s, Ok v)) → reads (fun d => x ← read d n; unpack f x) bs v id.
Proof.
  intros -> Hb Hu. apply (reads_then _ (fun _ x => unpack f x) _ bs v id id); [by apply reads_read|].
  intros pre post w _. rewrite Hu. cbn. by rewrite Z.add_0_r.
Qed.

Lemma unpack_int f z s : int_range f z = true →
  unpack f (le_bytes (Z.to_nat (calcsize f)) z) s = (s, Ok (VInt z)).
Proof.
  intros H. unfold unpack. rewrite le_bytes_length, Z2Nat.id by (by destruct f).
  rewrite Z.eqb_refl. unfold mret, stmt_ret. do 3 f_equal.
  assert (∀ a b : Z, z < a → (a <=? b) = true → z < b) as Hlt by (intros a b ? ?%Z.leb_le; lia).
  destruct f; try done; apply andb_true_iff in H as [H1%Z.leb_le H2%Z.ltb_lt]; cbn [calcsize] in *; f_equal.
  all: first [ apply le_int_unsigned; split; [done|by eapply Hlt]
             | match goal with |- context [Z.to_nat ?n] => apply (signed_bytes (Z.to_nat n)) end;
               [lia|by split; [|eapply Hlt]] ].
Qed.

(** A value that is wanted. *)
Lemma reads_scalar_value g : value_ok g = true →
  reads (fun d => read_scalar_value seek_max d (type_code g)) (encode_value g) (value_of g) id.
Proof.
  intros Hg. assert (∀ vt f n bs v, SCALAR vt = Some (f, n) → Z.of_nat (length bs) = n →
    (∀ s, unpack f bs s = (s, Ok v)) → reads (fun d => read_scalar_value seek_max d vt) bs (Some v) id) as Hs.
  { intros vt f n bs v E Hl Hu. destruct (SCALAR_size _ _ _ E) as [En _].
    unfold read_scalar_value, read_scalar. rewrite E. rewrite bool_decide_true by eauto.
    eapply (reads_then _ (fun _ x => mret (Some x)) _ v _ id id); [by eapply reads_unpack|apply reads_ret]. }
  destruct g as [vt z|b|raw|raw|s|vt items|items]; cbn [type_code encode_value value_of value_ok] in *.
  - destruct (SCALAR vt) as [[f n]|] eqn:E; [|done]. destruct (SCALAR_size _ _ _ E) as [-> Hn].
    unfold size_of. rewrite E. eapply Hs; [done| |intros st; by apply unpack_int].
    rewrite le_bytes_length. lia.
  - by eapply Hs; [done..|destruct b].
  - apply Nat.eqb_eq in Hg. eapply Hs; [done|lia|]. intros st. unfold unpack. by rewrite Hg.
  - apply Nat.eqb_eq in Hg. eapply Hs; [done|lia|]. intros st. unfold unpack. by rewrite Hg.
  - eapply (reads_then _ (fun _ x => mret (Some (VStr x))) _ s _ id id); [by apply reads_string|apply reads_ret].
  - apply andb_true_iff in Hg as [H1%bool_decide_eq_true H2]. rewrite forallb_forall in H2.
    eapply (reads_then _ (fun _ x => mret None) _ tt _ id id); [|apply reads_ret].
    apply reads_skip_array_items; [done|]. apply Forall_forall. intros i Hi.
    by apply Z.eqb_eq, H2, list_elem_of_In.
  - eapply (reads_then _ (fun _ x => mret None) _ tt _ id id); [|apply reads_ret].
    apply reads_skip_array_strings.
Qed.

(** A value that is skipped. *)
Lemma reads_skip_value g : value_ok g = true →
  reads (fun d => skip_value seek_max d (type_code g)) (encode_value g) tt id.
Proof.
  intros Hg. assert (∀ vt f n bs, SCALAR vt = Some (f, n) → Z.of_nat (length bs) = n →
    reads (fun d => skip_value seek_max d vt) bs tt id) as Hs.
  { intros vt f n bs E Hl. unfold skip_value. rewrite E. by apply reads_seek. }
  destruct g as [vt z|b|raw|raw|s|vt items|items]; cbn [type_code encode_value value_ok] in *.
  - destruct (SCALAR vt) as [[f n]|] eqn:E; [|done]. destruct (SCALAR_size _ _ _ E) as [-> Hn].
    unfold size_of. rewrite E. eapply Hs; [done|]. rewrite le_bytes_length. lia.
  - by eapply Hs.
  - apply Nat.eqb_eq in Hg. eapply Hs; [done|lia].
  - apply Nat.eqb_eq in Hg. eapply Hs; [done|lia].
  - apply reads_skip_string.
  - apply andb_true_iff in Hg as [H1%bool_decide_eq_true H2]. rewrite forallb_forall in H2.
    apply reads_skip_array_items; [done|]. apply Forall_forall. intros i Hi.
    by apply Z.eqb_eq, H2, list_elem_of_In.
  - apply reads_skip_array_strings.
Qed.

(** What one entry does to [wanted]. *)
Definition is_wanted (k : text) : bool := bool_decide (k ∈ keys_of_interest) || endswith context_suffix k.
Definition note (p : kv) (w : list (text * value)) : list (text * value) :=
  if is_wanted (fst p) then
    match value_of (snd p) with Some v => dict_set (fst p) v w | None => w end
  else w.

Lemma type_code_range g : value_ok g = true → 0 <= type_code g < 256 ^ Z.of_nat 4.
Proof.
  destruct g as [vt z| | | | | |]; cbn [type_code value_ok]; unfold STRING, ARRAY; intros H; try lia.
  unfold SCALAR in H. repeat case_match; simplify_eq; lia.
Qed.

Lemma reads_kv p : kv_ok p = true → reads (read_kv seek_max) (encode_kv p) tt (note p).
Proof.
  intros [Hk Hv]%andb_true_iff. unfold encode_kv, note, read_kv.
  apply reads_bind with (f := id) (g := note p) (a := fst p); [by apply reads_string|].
  apply (reads_uint FI 4); [done|by apply type_code_range|]. unfold note.
  fold (is_wanted (fst p)). destruct (is_wanted (fst p)).
  - eapply (reads_then _ (fun _ v => store (fst p) v) _ (value_of (snd p)) tt id); [by apply reads_scalar_value|].
    intros pre post w _. unfold store, run. cbn. rewrite Z.add_0_r. by destruct (value_of (snd p)).
  - by apply reads_skip_value.
Qed.

(** The whole loop. *)
Lemma reads_kvs kvs : forallb kv_ok kvs = true →
  reads (fun d => for_range (Z.of_nat (length kvs)) (read_kv seek_max d)) (concat (map encode_kv kvs)) tt
    (fun w => fold_left (fun w p => note p w) kvs w).
Proof.
  intros H. pose (l := map (fun p => (encode_kv p, note p)) kvs).
  replace (map encode_kv kvs) with (map fst l) by (unfold l; by rewrite map_map).
  replace (length kvs) with (length l) by (unfold l; by rewrite length_map).
  apply reads_ext with (g := apply_all l).
  - unfold apply_all, l. clear. induction kvs as [|p kvs IH]; intros w; simpl; [done|apply IH].
  - apply reads_for. unfold l. apply Forall_map, Forall_forall. intros p Hp. simpl.
    rewrite forallb_forall in H. by apply reads_kv, H, list_elem_of_In.
Qed.

End Reads.

Lemma note_metadata k kvs w : is_wanted k = true →
  dict_get k (fold_left (fun w p => note p w) kvs w)
  = match metadata k kvs with Some v => Some v | None => dict_get k w end.
Proof.
  intros Hk. revert w. induction kvs as [|[k' g] kvs IH]; intros w; simpl; [done|].
  rewrite IH. destruct (metadata k kvs); [done|]. unfold note. simpl.
  case_bool_decide as E; subst.
  - rewrite Hk. destruct (value_of g); [by rewrite dict_get_set_eq|done].
  - destruct (is_wanted k'); [|done]. destruct (value_of g); [by rewrite dict_get_set_ne|done].
Qed.

Lemma context_wanted a : is_wanted (a ++ context_suffix) = true.
Proof.
  unfold is_wanted, endswith. apply orb_true_iff. right. apply bool_decide_eq_true.
  rewrite length_app, Nat.add_sub. by apply drop_app_length.
Qed.

Lemma encode_kvs_length kvs : (length kvs <= length (concat (map encode_kv kvs)))%nat.
Proof.
  induction kvs as [|p kvs IH]; simpl; [lia|]. rewrite length_app.
  assert (1 <= length (encode_kv p))%nat; [|lia]. unfold encode_kv. rewrite length_app.
  pose proof (encode_string_length (Utf8.encode (fst p))). lia.
Qed.

(** The result on a file a writer produced, before it is summarised. *)
Lemma probe_encoded str_float seek_max version tensors kvs rest filename :
  let file := encode_header version tensors kvs ++ rest in
  0 <= version < 2 ^ 32 → 0 <= tensors < 2 ^ 64 → forallb kv_ok kvs = true →
  Z.of_nat (length file) <= seek_max < 2 ^ 63 →
  probe str_float seek_max (Ok file) filename
  = Ok (summarise str_float filename (fold_left (fun w p => note p w) kvs [])).
Proof.
  intros file Hv Ht Hk [Hl Hs]. unfold probe.
  pose (fold := fun w => fold_left (fun w p => note p w) kvs w).
  assert (Z.of_nat (length kvs) <= Z.of_nat (length file)) as Hn.
  { pose proof (encode_kvs_length kvs). unfold file, encode_header. rewrite !length_app. lia. }
  enough (reads_w seek_max (fun d => probe_body str_float seek_max d filename)
            (encode_header version tensors kvs)
            (fun w => summarise str_float filename (fold w)) fold) as H.
  { specialize (H [] rest [] Hl). rewrite !app_nil_l in H. change (Z.of_nat (length [])) with 0 in H.
    unfold file. by rewrite H. }
  unfold encode_header. apply (reads_w_bind seek_max (fun d => read d 4) _ _ _ GGUF_MAGIC
    (fun w => summarise str_float filename (fold w)) id fold); [by apply reads_read|].
  cbn [bool_decide negb]. rewrite bool_decide_true by done. cbn [negb].
  apply (reads_w_uint _ FI 4); [done|done|]. apply (reads_w_uint _ FQ 8); [done|done|].
  apply (reads_w_uint _ FQ 8); [done|lia|].
  rewrite <- (app_nil_r (concat _)).
  apply (reads_w_bind seek_max _ _ _ _ tt (summarise str_float filename) fold id); [by apply reads_kvs|].
  intros pre post w _. unfold query. cbn. by rewrite Z.add_0_r.
Qed.

(** The context length is found under the key of the architecture. *)
Lemma summarise_context str_float filename d a v :
  str_value str_float <$> dict_get key_architecture d = Some a → a ≠ [] →
  dict_get (a ++ context_suffix) d = Some v →
  context_length (summarise str_float filename d) = as_int v.
Proof.
  intros Ha Hne Hv. unfold summarise. cbn [context_length]. rewrite Ha, bool_decide_false, Hv by done.
  done.
Qed.

Lemma summarise_quant str_float filename d v n q :
  dict_get key_file_type d = Some v → as_int v = Some n → dict_get n FTYPE_QUANT = Some q →
  quant (summarise str_float filename d) = Some q.
Proof. intros Hv Hn Hq. unfold summarise. cbn [quant]. rewrite Hv. simpl. rewrite Hn. simpl. by rewrite Hq. Qed.

(** C34. The header of a file a GGUF writer produced is read back: architecture, name, context
    length and quantisation are the values its metadata give for the keys, whatever other
    entries, arrays and tensor data the file has. *)
Theorem probe_roundtrip str_float seek_max version tensors kvs rest filename :
  let file := encode_header version tensors kvs ++ rest in
  0 <= version < 2 ^ 32 → 0 <= tensors < 2 ^ 64 → forallb kv_ok kvs = true →
  Z.of_nat (length file) <= seek_max < 2 ^ 63 →
  ∃ info, probe str_float seek_max (Ok file) filename = Ok info ∧ valid info = true ∧
    arch info = str_value str_float <$> metadata key_architecture kvs ∧
    name info = str_value str_float <$> metadata key_name kvs ∧
    (∀ a v, arch info = Some a → a ≠ [] → metadata (a ++ context_suffix) kvs = Some v →
       context_length info = as_int v) ∧
    (∀ v n q, metadata key_file_type kvs = Some v → as_int v = Some n →
       dict_get n FTYPE_QUANT = Some q → quant info = Some q).
Proof.
  intros file Hv Ht Hk Hl. eexists. split; [by apply probe_encoded|].
  assert (∀ k, is_wanted k = true →
    dict_get k (fold_left (fun w p => note p w) kvs []) = metadata k kvs) as Hm.
  { intros k Hw. rewrite note_metadata by done. by destruct (metadata k kvs). }
  assert (arch (summarise str_float filename (fold_left (fun w p => note p w) kvs []))
          = str_value str_float <$> metadata key_architecture kvs) as Ha
    by (unfold summarise; cbn [arch]; by rewrite Hm).
  split_and!; [done|done|unfold summarise; cbn [name]; by rewrite Hm| |].
  - intros a v Hav Hne Hc. eapply summarise_context; [by rewrite Hm, <- Ha|done|].
    by rewrite Hm by apply context_wanted.
  - intros v n q Hf Hi Hq. eapply summarise_quant; [by rewrite Hm|done..].
Qed.

Lemma probe_roundtrip_witness :
  let kvs := [(Utf8.points "general.architecture", GString (Utf8.points "llama"));
              (Utf8.points "tokens", GStrings [[97; 98]; []; [99]]);
              (Utf8.points "llama.context_length", GInt 4 4096);
              (Utf8.points "general.file_type", GInt 4 15)] in
  ∃ info, probe (fun _ => []) (2 ^ 40) (Ok (encode_header 3 0 kvs ++ [1; 2; 3])) "m.gguf" = Ok info
    ∧ arch info = Some (Utf8.points "llama") ∧ context_length info = Some 4096 ∧ quant info = Some "Q4_K_M".
Proof.
  intros kvs.
  destruct (probe_roundtrip (fun _ => []) (2 ^ 40) 3 0 kvs [1; 2; 3] "m.gguf")
    as (info & E & _ & Ha & _ & Hc & Hq); [done|done|by vm_compute|by vm_compute|].
  exists info. split_and!; [done|by rewrite Ha|..].
  - by rewrite (Hc (Utf8.points "llama") (VInt 4096)).
  - by rewrite (Hq (VInt 15) 15 "Q4_K_M").
Defined.

(** *** Every input is answered *)

Definition safe {A} (c : stmt state A) : Prop := ∀ s s' e, c s = (s', Err e) → caught e = true.

Lemma safe_ret {A} (a : A) : safe (mret a).
Proof. by intros s s' e. Qed.
Lemma safe_raise {A} e : caught e = true → safe (raise (A:=A) e).
Proof. intros He s s' e'. unfold raise. naive_solver. Qed.
Lemma safe_query {A} (f : state → A) : safe (query f).
Proof. by intros s s' e. Qed.
Lemma safe_bind {A B} (c : stmt state A) (k : A → stmt state B) :
  safe c → (∀ a, safe (k a)) → safe (c ≫= k).
Proof.
  intros Hc Hk s s' e. unfold mbind, stmt_bind. destruct (c s) as [s1 [a|e1]] eqn:E; [apply Hk|].
  intros [=]; subst. by eapply Hc.
Qed.
Lemma safe_for n (body : stmt state unit) : safe body → safe (for_range n body).
Proof.
  intros Hb. destruct n as [|p|]; [apply safe_ret| |apply safe_ret]. simpl.
  induction p as [p IH|p IH|]; simpl; [| |done]; repeat (apply safe_bind; [done|intros _]); done.
Qed.
Create HintDb safe.
#[local] Hint Resolve safe_ret safe_query : safe.
Ltac safe_auto :=
  repeat first [ solve [eauto with safe] | apply safe_raise; reflexivity
               | apply safe_bind; [|intros ?] | apply safe_for
               | match goal with |- safe (if ?b then _ else _) => destruct b
                               | |- safe (match ?x with _ => _ end) => destruct x eqn:? end ].

Section Safe.
Context (str_float : bytes → text) (seek_max : Z) (data : bytes).
Lemma safe_read n : safe (read data n).
Proof. unfold read. apply safe_bind; [by intros s s' e|intros d; safe_auto]. Qed.
Lemma safe_seek n : safe (fh_seek seek_max n).
Proof. intros s s' e. unfold fh_seek. repeat case_match; naive_solver. Qed.
Lemma safe_uint f d : safe (unpack_uint f d).
Proof. unfold unpack_uint. safe_auto. Qed.
Lemma safe_unpack f d : safe (unpack f d).
Proof. unfold unpack. safe_auto. Qed.
#[local] Hint Resolve safe_read safe_seek safe_uint safe_unpack : safe.
Lemma safe_read_string : safe (read_string data).
Proof. unfold read_string. safe_auto. Qed.
Lemma safe_skip_string : safe (skip_string seek_max data).
Proof. unfold skip_string. safe_auto. Qed.
#[local] Hint Resolve safe_read_string safe_skip_string : safe.
Lemma safe_skip_value vt : safe (skip_value seek_max data vt).
Proof. unfold skip_value, skip_array. safe_auto. Qed.
#[local] Hint Resolve safe_skip_value : safe.
(** The lookup in the table of scalars cannot fail: its caller has tested the key. *)
Lemma safe_scalar_value vt : safe (read_scalar_value seek_max data vt).
Proof.
  unfold read_scalar_value, read_scalar. case_bool_decide as E; [destruct E as [[f n] ->]|]; safe_auto.
Qed.
#[local] Hint Resolve safe_scalar_value : safe.
Lemma safe_store k v : safe (store k v).
Proof. intros s s' e. done. Qed.
#[local] Hint Resolve safe_store : safe.
Lemma safe_kv : safe (read_kv seek_max data).
Proof. unfold read_kv. safe_auto. Qed.
#[local] Hint Resolve safe_kv : safe.
Lemma safe_probe_body filename : safe (probe_body str_float seek_max data filename).
Proof. unfold probe_body. safe_auto. Qed.
End Safe.

(** *** What an accepted header has *)

Section Progress.
Context (seek_max : Z) (data : bytes).
Let len := Z.of_nat (length data).

Lemma read_Ok n s s' d : 0 <= pos s → 0 <= n → read data n s = (s', Ok d) →
  pos s' = pos s + n ∧ (0 < n → pos s + n <= len ∧ d = take (Z.to_nat n) (drop (Z.to_nat (pos s)) data)).
Proof.
  intros Hp Hn E. unfold read, fh_read, mbind, stmt_bind in E. cbn [pos with_pos] in E.
  destruct (Z.leb_spec (Z.of_nat (length data)) (pos s)) as [Hle|Hlt].
  - cbn [length] in E. destruct (Z.eqb_spec (Z.of_nat 0) n); [|done]. unfold mret, stmt_ret in E.
    simplify_eq. simpl. split; [lia|lia].
  - destruct (Z.eqb_spec (Z.of_nat (length (take (Z.to_nat (n `min` (Z.of_nat (length data) - pos s)))
      (drop (Z.to_nat (pos s)) data)))) n) as [Hl|]; [|done]. unfold mret, stmt_ret in E. simplify_eq.
    simpl. rewrite length_take, length_drop in Hl. unfold len. split; [rewrite length_take, length_drop; lia|].
    intros _. split; [lia|]. f_equal. lia.
Qed.

(** [advances n c]: a normal return of [c] is at least [n] bytes further on, and the first [n]
    bytes were there. *)
Definition advances {A} (n : Z) (c : stmt state A) : Prop :=
  ∀ s s' a, 0 <= pos s → c s = (s', Ok a) → pos s + n <= pos s' ∧ (0 < n → pos s + n <= len).

Lemma advances_bind {A B} n m (c : stmt state A) (k : A → stmt state B) :
  0 <= n → 0 <= m → advances n c → (∀ a, advances m (k a)) → advances (n + m) (c ≫= k).
Proof.
  intros Hn Hm Hc Hk s s' b Hp (s1 & a & E1 & E2)%stmt_bind_Ok.
  destruct (Hc _ _ _ Hp E1) as [H1 H2]. destruct (Hk a s1 s' b ltac:(lia) E2) as [H3 H4].
  split; [lia|]. intros H. destruct (decide (0 < m)); [|destruct (decide (0 < n))]; lia.
Qed.
Lemma advances_0 {A} n (c : stmt state A) : advances n c → 0 <= n → advances 0 c.
Proof. intros H Hn s s' a Hp E. destruct (H _ _ _ Hp E). lia. Qed.
Lemma advances_read n : 0 <= n → advances n (read data n).
Proof. intros Hn s s' d Hp E. destruct (read_Ok _ _ _ _ Hp Hn E) as [-> H]. naive_solver lia. Qed.
Lemma advances_for n m body : 0 <= n → 0 <= m → advances m body → advances (n * m) (for_range n body).
Proof.
  intros Hn Hm Hb. destruct n as [|p|]; [|cbn [for_range]|lia].
  - intros s s' a Hp [= <- _]. lia.
  - clear Hn. induction p as [p IH|p IH|].
    + replace (Zpos p~1 * m) with (m + (Zpos p * m + Zpos p * m)) by lia.
      apply advances_bind; [lia|lia|done|intros _]. by apply advances_bind; [lia|lia| |intros _].
    + replace (Zpos p~0 * m) with (Zpos p * m + Zpos p * m) by lia.
      by apply advances_bind; [lia|lia| |intros _].
    + by replace (1 * m) with m by lia.
Qed.
Lemma advances_ret {A} (a : A) : advances 0 (mret a).
Proof. intros s s' b Hp [= <- _]. lia. Qed.
Lemma advances_raise {A} e : advances 0 (raise (A:=A) e).
Proof. intros s s' a Hp [=]. Qed.
Lemma advances_run {A} (f : state → state * A) : (∀ s, pos (fst (f s)) = pos s) → advances 0 (run f).
Proof. intros H s s' a Hp E%run_Ok. specialize (H s). rewrite E in H. simpl in H. lia. Qed.
Lemma advances_seek n : 0 <= n → advances 0 (fh_seek seek_max n).
Proof. intros Hn s s' a Hp E. unfold fh_seek in E. repeat case_match; simplify_eq; simpl; lia. Qed.
Lemma advances_unpack f d : advances 0 (unpack f d).
Proof. unfold unpack. destruct (_ =? _); [apply advances_ret|apply advances_raise]. Qed.

Hypothesis Hbytes : Forall Crypto.byte data.

(** A length field followed by code that depends on it. *)
Lemma advances_uint {A} f n m (k : Z → stmt state A) : 0 < n → 0 <= m →
  (∀ u, 0 <= u → advances m (k u)) →
  advances (n + m) (x ← read data n; u ← unpack_uint f x; k u).
Proof.
  intros Hn Hm Hk s s' a Hp (s1 & d & E1 & E2)%stmt_bind_Ok.
  destruct (read_Ok n _ _ _ Hp ltac:(lia) E1) as [H1 H2]. destruct H2 as [H2 Hd]; [done|].
  unfold unpack_uint, mbind, stmt_bind in E2. destruct (_ =? _); [|done]. cbn in E2.
  assert (0 <= le_int d) as Hu by (apply le_int_pos; subst d; by apply Forall_take, Forall_drop).
  destruct (Hk _ Hu s1 s' a ltac:(lia) E2) as [H3 H4]. split; [lia|].
  intros _. destruct (decide (0 < m)); lia.
Qed.

Lemma advances_skip_string : advances 8 (skip_string seek_max data).
Proof. apply (advances_uint FQ 8 0); [done|done|]. intros u Hu. by apply advances_seek. Qed.
Lemma advances_read_string : advances 8 (read_string data).
Proof.
  apply (advances_uint FQ 8 0); [done|done|]. intros u Hu. case_match; [apply advances_raise|].
  apply (advances_bind 0 0); [done|done| |intros d; apply advances_ret].
  by eapply advances_0; [apply advances_read|].
Qed.
Lemma advances_skip_array : advances 0 (skip_array seek_max data).
Proof.
  eapply advances_0; [|shelve]. apply (advances_uint FI 4 8); [done|done|]. intros t Ht.
  apply (advances_uint FQ 8 0); [done|done|]. intros n Hn.
  destruct (SCALAR t) as [[f sz]|] eqn:E.
  - destruct (SCALAR_size _ _ _ E) as [_ Hsz]. apply advances_seek. nia.
  - case_match; [|apply advances_raise].
    eapply advances_0; [apply advances_for; [done| |apply advances_skip_string]|]; lia.
  Unshelve. lia.
Qed.
Lemma advances_skip_value vt : advances 0 (skip_value seek_max data vt).
Proof.
  unfold skip_value. destruct (SCALAR vt) as [[f sz]|] eqn:E.
  - destruct (SCALAR_size _ _ _ E) as [_ Hsz]. apply advances_seek. lia.
  - repeat case_match; [|apply advances_skip_array|apply advances_raise].
    by eapply advances_0; [apply advances_skip_string|].
Qed.
Lemma advances_scalar_value vt : advances 0 (read_scalar_value seek_max data vt).
Proof.
  unfold read_scalar_value, read_scalar. case_match.
  - apply (advances_bind 0 0); [done|done| |intros ?; apply advances_ret].
    destruct (SCALAR vt) as [[f n]|] eqn:E; [|apply advances_raise].
    destruct (SCALAR_size _ _ _ E) as [_ Hn].
    apply (advances_bind 0 0 (read data n)); [done|done| |intros ?; apply advances_unpack].
    eapply advances_0; [apply advances_read|]; lia.
  - case_match; apply (advances_bind 0 0); try done; try (intros ?; apply advances_ret).
    + by eapply advances_0; [apply advances_read_string|].
    + apply advances_skip_value.
Qed.

(** An entry takes at least twelve bytes: the length of its key and its type. *)
Lemma advances_kv : advances 12 (read_kv seek_max data).
Proof.
  apply (advances_bind 8 4 (read_string data)); [done|done|apply advances_read_string|]. intros key.
  apply (advances_uint FI 4 0); [done|done|]. intros vt _. case_match; [|apply advances_skip_value].
  apply (advances_bind 0 0); [done|done|apply advances_scalar_value|]. intros v.
  apply advances_run. intros s. by destruct v.
Qed.

End Progress.

(** The number of entries a header declares. *)
Definition declared_kv_count (data : bytes) : Z := le_int (take 8 (drop 16 data)).

Lemma field_Ok data {A} f n (k : Z → stmt state A) s s' a :
  0 <= pos s → 0 < n → (x ← read data n; u ← unpack_uint f x; k u) s = (s', Ok a) →
  ∃ s1, pos s1 = pos s + n ∧ pos s + n <= Z.of_nat (length data) ∧ wanted s1 = wanted s ∧
    k (le_int (take (Z.to_nat n) (drop (Z.to_nat (pos s)) data))) s1 = (s', Ok a).
Proof.
  intros Hp Hn (s1 & d & E1 & E2)%stmt_bind_Ok.
  destruct (read_Ok _ n _ _ _ Hp ltac:(lia) E1) as [H1 H2]. destruct H2 as [H2 ->]; [done|].
  exists s1. unfold unpack_uint, mbind, stmt_bind in E2. destruct (_ =? _); [|done].
  split_and!; [done|done| |done]. unfold read, fh_read, mbind, stmt_bind in E1.
  destruct (_ =? _); [|done]. unfold mret, stmt_ret in E1. by simplify_eq.
Qed.

Lemma probe_body_valid str_float seek_max data filename s info :
  Forall Crypto.byte data →
  probe_body str_float seek_max data filename (State 0 []) = (s, Ok info) → valid info = true →
  take 4 data = GGUF_MAGIC ∧ 24 + 12 * declared_kv_count data <= Z.of_nat (length data).
Proof.
  intros Hb E Hv. apply stmt_bind_Ok in E as (s1 & m & E1 & E).
  destruct (read_Ok _ 4 (State 0 []) _ _ (Z.le_refl 0) ltac:(lia) E1) as [H1 H2].
  destruct H2 as [H2 Hm]; [done|]. simpl in H1, Hm. rewrite drop_0 in Hm.
  case_bool_decide as Em; cbn [negb] in E; [|unfold mret, stmt_ret in E; by simplify_eq].
  apply field_Ok in E as (s2 & P2 & _ & _ & E); [|lia|done].
  apply field_Ok in E as (s3 & P3 & _ & _ & E); [|lia|done].
  apply field_Ok in E as (s4 & P4 & L4 & _ & E); [|lia|done].
  rewrite H1 in *. rewrite P2 in *. rewrite P3 in *. change (drop (Z.to_nat (4 + 4 + 8)) data) with (drop 16 data) in E.
  fold (declared_kv_count data) in E.
  assert (0 <= declared_kv_count data) as Hc by (apply le_int_pos; by apply Forall_take, Forall_drop).
  apply stmt_bind_Ok in E as (s5 & [] & E5 & _).
  destruct (advances_for data _ 12 _ Hc ltac:(lia) (advances_kv seek_max data Hb) s4 s5 tt ltac:(lia) E5).
  split; [by subst m|]. destruct (decide (0 < declared_kv_count data * 12)); lia.
Qed.

Lemma probe_body_invalid str_float seek_max data filename s s' info :
  probe_body str_float seek_max data filename s = (s', Ok info) → valid info = false → info = invalid.
Proof.
  intros E Hv. apply stmt_bind_Ok in E as (s1 & m & _ & E).
  destruct (negb _); [unfold mret, stmt_ret in E; by simplify_eq|].
  do 7 (apply stmt_bind_Ok in E as (? & ? & _ & E)). unfold query in E. by simplify_eq.
Qed.

(** [probe] answers every input: no exception leaves it, whether the file cannot be opened or
    holds arbitrary bytes, and the answer says "valid" only of a file that starts with the
    magic and has room for the number of entries it declares, so that the loop over them
    takes at most a twelfth of the file's length in turns. *)
Theorem probe_answers str_float seek_max opened filename :
  (∀ e, opened = Err e → e = OSError ∨ e = ValueError) →
  (∀ data, opened = Ok data → Forall Crypto.byte data) →
  ∃ info, probe str_float seek_max opened filename = Ok info ∧
    (valid info = false → info = invalid) ∧
    (valid info = true → ∃ data, opened = Ok data ∧ take 4 data = GGUF_MAGIC ∧
       24 + 12 * declared_kv_count data <= Z.of_nat (length data)).
Proof.
  intros He Hb. unfold probe. destruct opened as [data|e].
  - destruct (probe_body str_float seek_max data filename (State 0 [])) as [s [info|e]] eqn:E; simpl.
    + exists info. split_and!; [done| |].
      * by eapply probe_body_invalid.
      * intros Hv. exists data. split; [done|]. eapply probe_body_valid; eauto.
    + rewrite (safe_probe_body _ _ _ _ _ _ _ E). by exists invalid.
  - destruct (He e eq_refl) as [->| ->]; by exists invalid.
Qed.

Lemma probe_answers_witness :
  probe (fun _ => []) (2 ^ 40) (Ok [71; 71; 85; 70; 3; 0; 0]) "x.gguf" = Ok invalid.
Proof.
  destruct (probe_answers (fun _ => []) (2 ^ 40) (Ok [71; 71; 85; 70; 3; 0; 0]) "x.gguf")
    as (info & E & Hi & _); [done| |].
  - intros data [= <-]. repeat constructor; lia.
  - rewrite E. f_equal. apply Hi. vm_compute in E. by simplify_eq.
Defined.

(** A file cut off inside its last value is accepted: [seek] moves past the end. *)
Lemma truncated_header_valid :
  let file := encode_header 3 0 [(Utf8.points "n", GInt 10 7)] in
  let cut := take (length file - 8) file in
  probe (fun _ => []) (2 ^ 40) (Ok cut) "x.gguf" = Ok (Info true None None None None).
Proof. vm_compute. reflexivity. Qed.

End GgufFile.
