(* ===== verification/Models.v ===== *)
(** * The model registry and the model service ([engine/models/])

    [Module ModelRegistry] is the table of [registry.py], [Module Paths] what the service
    does with file names, [Module Compat] is [compat.py] and [Module ModelService] is
    [service.py].  The service's dictionaries ([_tasks], [_cancels], [_download_paths],
    [_operations], [_import_paths]) are fields of its state; beside them stand what they
    describe: the coroutines [_run_download] with their worker threads ([runs]), their
    cancel events ([events]), the imports and loads that wait at an await, and the files on
    disk.  A coroutine is split at its awaits.

    A path is the text of a [Path]; different texts are different files.  [path_key] is
    [Path.resolve] with its fallback, a parameter.  Log lines are not modelled, except that
    a state that could not be recorded is remembered in [unrecorded]. *)

From S2P Require Import Prelude Crypto Text Sql Downloads Gguf.
From Stdlib Require Import Ascii.

Open Scope Z_scope.

Module ModelRegistry.

Inductive ModelStatus := DOWNLOADING | VERIFYING | READY | ERROR | CANCELLED.
#[export] Instance ModelStatus_eq_dec : EqDecision ModelStatus.
Proof. solve_decision. Defined.

Record ModelRecord := Model {
  id : string;
  name : Gguf.text;
  filename : string;
  path : string;
  source_type : string;
  source_ref : option string;
  sha256 : option string;
  expected_sha256 : option string;
  size_bytes : option Z;
  downloaded_bytes : Z;
  quant : option string;
  arch : option Gguf.text;
  context_length : option Z;
  status : ModelStatus;
  error : option string;
  active : bool;
  added_at : string;
  updated_at : option string;
}.
Definition table := list ModelRecord.

(** The property [progress]. *)
Definition progress (r : ModelRecord) : option Q :=
  match size_bytes r with
  | None => None
  | Some n => if n =? 0 then None
              else Some (let q := (inject_Z (downloaded_bytes r) / inject_Z n)%Q in
                         if bool_decide (q < 1)%Q then q else 1%Q)
  end.

(** The keyword arguments of [update]. *)
Inductive field :=
| FStatus (s : ModelStatus) | FError (e : option string) | FSha256 (s : option string)
| FSize (n : option Z) | FDownloaded (n : Z) | FQuant (q : option string)
| FArch (a : option Gguf.text) | FContext (n : option Z) | FUpdated (t : string).
Definition set_field (r : ModelRecord) (f : field) : ModelRecord :=
  match r, f with
  | Model i n fn p st sr sh ex sz dl q a c s e ac ad u, f =>
      match f with
      | FStatus s => Model i n fn p st sr sh ex sz dl q a c s e ac ad u
      | FError e => Model i n fn p st sr sh ex sz dl q a c s e ac ad u
      | FSha256 sh => Model i n fn p st sr sh ex sz dl q a c s e ac ad u
      | FSize sz => Model i n fn p st sr sh ex sz dl q a c s e ac ad u
      | FDownloaded dl => Model i n fn p st sr sh ex sz dl q a c s e ac ad u
      | FQuant q => Model i n fn p st sr sh ex sz dl q a c s e ac ad u
      | FArch a => Model i n fn p st sr sh ex sz dl q a c s e ac ad u
      | FContext c => Model i n fn p st sr sh ex sz dl q a c s e ac ad u
      | FUpdated u => Model i n fn p st sr sh ex sz dl q a c s e ac ad (Some u)
      end
  end.
Definition set_active_column (b : bool) (r : ModelRecord) : ModelRecord :=
  match r with
  | Model i n fn p st sr sh ex sz dl q a c s e _ ad u =>
      Model i n fn p st sr sh ex sz dl q a c s e b ad u
  end.

Definition has_id (model_id : string) (r : ModelRecord) : bool := bool_decide (id r = model_id).

(** [create]: [model_id] is the new uuid; a row that is there already violates the primary
    key. *)
Definition create (model_id now : string) (name : Gguf.text) (filename path source_type : string)
    (source_ref : option string) (status : ModelStatus) (expected_sha256 sha256 : option string)
    (size_bytes : option Z) (quant : option string) (arch : option Gguf.text)
    (context_length : option Z) : stmt table ModelRecord := fun t =>
  if existsb (has_id model_id) t then (t, Err IntegrityError)
  else
    let r := Model model_id name filename path source_type source_ref sha256 expected_sha256
               size_bytes 0 quant arch context_length status None false now (Some now) in
    (Sql.insert r t, Ok r).

Definition update (now model_id : string) (fields : list field) (t : table) : table :=
  match fields with
  | [] => t
  | _ => Sql.update (has_id model_id) (fun r => fold_left set_field (fields ++ [FUpdated now]) r) t
  end.
Definition add_progress (now model_id : string) (downloaded_bytes : Z) (t : table) : table :=
  Sql.update (has_id model_id)
    (fun r => set_field (set_field r (FDownloaded downloaded_bytes)) (FUpdated now)) t.
Definition get (model_id : string) (t : table) : option ModelRecord := Sql.fetchone (has_id model_id) t.
Definition list_ (t : table) : list ModelRecord :=
  Sql.order_by (fun a b => str_leb (added_at a) (added_at b)) t.
Definition get_active (t : table) : option ModelRecord := Sql.fetchone active t.
Definition find_by_path (p : string) (t : table) : option ModelRecord :=
  Sql.fetchone (fun r => bool_decide (path r = p)) t.
Definition clear_active (t : table) : table := Sql.update active (set_active_column false) t.
(** The unique index over [active = 1] refuses a second active row and rolls the
    transaction back. *)
Definition one_active (t : table) : bool := (length (Sql.select active t) <=? 1)%nat.
Definition set_active (now model_id : string) : stmt table unit := fun t =>
  let t' := Sql.update (has_id model_id)
              (fun r => set_field (set_active_column true r) (FUpdated now)) (clear_active t) in
  if one_active t' then (t', Ok tt) else (t, Err IntegrityError).
Definition delete (model_id : string) (t : table) : table * bool :=
  (Sql.delete (has_id model_id) t, (0 <? Sql.rowcount (has_id model_id) t)%nat).
Definition mark_interrupted (now model_id : string) (from_statuses : list ModelStatus) (error : string)
    (t : table) : table * bool :=
  let p r := has_id model_id r && bool_decide (status r ∈ from_statuses) in
  (Sql.update p (fun r => fold_left set_field [FStatus ERROR; FError (Some error); FUpdated now] r) t,
   (0 <? Sql.rowcount p t)%nat).

(** ** Facts *)

Lemma set_field_keys r f :
  id (set_field r f) = id r ∧ path (set_field r f) = path r ∧ active (set_field r f) = active r.
Proof. by destruct r, f. Qed.
Lemma set_fields_keys fs r :
  id (fold_left set_field fs r) = id r ∧ path (fold_left set_field fs r) = path r
  ∧ active (fold_left set_field fs r) = active r.
Proof.
  revert r. induction fs as [|f fs IH]; intros r; simpl; [done|].
  destruct (IH (set_field r f)) as (-> & -> & ->). apply set_field_keys.
Qed.
Lemma set_active_keys b r : id (set_active_column b r) = id r ∧ path (set_active_column b r) = path r
  ∧ active (set_active_column b r) = b ∧ status (set_active_column b r) = status r.
Proof. by destruct r. Qed.

End ModelRegistry.

(** ** File names *)

Module Paths.

(** [Path(s).name]: empty and [.] components are dropped. *)
Definition name (s : string) : string :=
  default "" (last (List.filter (fun c => negb (bool_decide (c = "" ∨ c = "."))) (Text.split "/"%char s))).
(** [Path(name).stem] of a single component. *)
Fixpoint rfind_dot (l : list ascii) (i : nat) (found : option nat) : option nat :=
  match l with
  | [] => found
  | c :: l' => rfind_dot l' (S i) (if bool_decide (c = "."%char) then Some i else found)
  end.
Definition stem (s : string) : string :=
  match rfind_dot (Crypto.chars s) 0 None with
  | Some i => if (0 <? i)%nat && (i <? String.length s - 1)%nat then
                Crypto.of_chars (take i (Crypto.chars s)) else s
  | None => s
  end.
(** [str(Path(dir) / base)] *)
Definition join (dir base : string) : string :=
  if bool_decide (dir = ".") then base
  else if Text.endswith "/" dir then dir +:+ base else dir +:+ "/" +:+ base.
(** [path.with_suffix(path.suffix + ".part")] *)
Definition part (p : string) : string := p +:+ ".part".
(** [child.relative_to(dir)] does not raise. *)
Definition relative_to (dir child : string) : bool :=
  bool_decide (child = dir) || Text.startswith (if Text.endswith "/" dir then dir else dir +:+ "/") child.

(** [_safe_filename] *)
Definition safe_filename (s : string) : string :=
  let base := name s in if str_true base then base else "model.gguf".

(** [[A-Za-z0-9][A-Za-z0-9._-]{0,127}] *)
Definition operator_filename (s : string) : bool :=
  match Crypto.chars s with
  | [] => false
  | c :: l => Gguf.is_alnum c && (length l <=? 127)%nat
              && forallb (fun c => Gguf.is_alnum c || bool_decide (c ∈ ["."; "_"; "-"]%char)) l
  end.

End Paths.

(** ** Can this host run the model? ([compat.py]) *)

Module Compat.

Inductive Compat := OK | NEEDS_BACKEND | TOO_LARGE | UNKNOWN.
#[export] Instance Compat_eq_dec : EqDecision Compat.
Proof. solve_decision. Defined.

(** What the function finds out about the host: whether [llama_cpp] can be found, the SIMD
    flags, and [memory_total] when it is an [int]. *)
Record host := Host { llama_available : bool; simd_flags : list string; memory_total : option Z }.

(** [int(total_ram * 0.9)]; the product of the floats is exact here. *)
Definition ram_limit (total : Z) : Z := (total * 9) / 10.

Definition assess (h : host) (size_bytes : option Z) (valid_gguf : bool) : Compat :=
  let size := default 0 size_bytes in
  if negb valid_gguf then UNKNOWN
  else if negb (llama_available h) then NEEDS_BACKEND
  else if negb (bool_decide (simd_flags h = []))
          && negb (bool_decide ("avx2" ∈ simd_flags h)) && negb (bool_decide ("avx512f" ∈ simd_flags h))
  then NEEDS_BACKEND
  else if negb (size =? 0)
          && match memory_total h with Some m => (0 <? m) && (ram_limit m <? size) | None => false end
  then TOO_LARGE
  else if size =? 0 then UNKNOWN
  else OK.

End Compat.

(** ** The service *)

Module ModelService.
Import ModelRegistry.

Inductive service_error :=
| ModelServiceError (message : string)
| ModelBusyError
| ModelDeleteError
| Propagates (e : exn).
#[export] Instance service_error_eq_dec : EqDecision service_error.
Proof. solve_decision. Defined.

Definition URL_SOURCE_DESCRIPTOR : string := "address not stored".
Definition INTERRUPTED : string :=
  "download interrupted: the engine stopped before it finished. Delete this model (which removes any file it kept) and download it again.".
Definition WITHHELD : string := "error details withheld (they could not be redacted safely)".

(** The settings the service reads. *)
Record config := Config { models_dir : string; hf_endpoint : string }.

(** Where a coroutine [_run_download] is: created but not started, waiting for the thread
    that downloads, or for the one that probes the promoted file. *)
Inductive stage := Pending | Download | Finalize (digest : string).
(** A live [_run_download], with the variables of its closure. *)
Record run := Run {
  dest : string;
  at_ : stage;
  interrupted : bool;
  last : Q;
  seen_total : bool;
}.
(** An [import_local] that waits for the digest. *)
Record import_call := Import { i_key : string; i_path : string; i_name : option Gguf.text; i_info : Gguf.GgufInfo }.

Record t := Mk {
  models : table;                        (* [registry] *)
  tasks : gset string;                   (* keys of [_tasks] *)
  cancels : gset string;                 (* keys of [_cancels] *)
  download_paths : gmap string string;   (* [_download_paths] *)
  operations : gset string;              (* [_operations] *)
  import_paths : gset string;            (* [_import_paths] *)
  runs : gmap string run;                (* the coroutines that have not ended *)
  events : gmap string CancelEvent.t;    (* the cancel event of each download *)
  imports : gmap nat import_call;        (* the imports that wait *)
  disk : gset string;                    (* the files *)
  unrecorded : gset string;              (* downloads whose end is not in the registry *)
}.

Definition with_models (m : table) (s : t) : t :=
  Mk m (tasks s) (cancels s) (download_paths s) (operations s) (import_paths s) (runs s) (events s)
     (imports s) (disk s) (unrecorded s).
Definition with_operations (o : gset string) (s : t) : t :=
  Mk (models s) (tasks s) (cancels s) (download_paths s) o (import_paths s) (runs s) (events s)
     (imports s) (disk s) (unrecorded s).
Definition with_imports (p : gset string) (i : gmap nat import_call) (s : t) : t :=
  Mk (models s) (tasks s) (cancels s) (download_paths s) (operations s) p (runs s) (events s)
     i (disk s) (unrecorded s).
Definition with_runs (r : gmap string run) (s : t) : t :=
  Mk (models s) (tasks s) (cancels s) (download_paths s) (operations s) (import_paths s) r (events s)
     (imports s) (disk s) (unrecorded s).
Definition with_events (e : gmap string CancelEvent.t) (s : t) : t :=
  Mk (models s) (tasks s) (cancels s) (download_paths s) (operations s) (import_paths s) (runs s) e
     (imports s) (disk s) (unrecorded s).
Definition with_disk (d : gset string) (s : t) : t :=
  Mk (models s) (tasks s) (cancels s) (download_paths s) (operations s) (import_paths s) (runs s) (events s)
     (imports s) d (unrecorded s).
Definition with_unrecorded (u : gset string) (s : t) : t :=
  Mk (models s) (tasks s) (cancels s) (download_paths s) (operations s) (import_paths s) (runs s) (events s)
     (imports s) (disk s) u.

(** [_url_download_filename]: [generated] is the first twelve digits of a new uuid. *)
Definition url_download_filename (generated : string) (filename : option string) : result service_error string :=
  match filename with
  | Some f => if negb (str_true f) then Ok ("download-" +:+ generated +:+ ".gguf")
              else if negb (Paths.operator_filename f) then
                Err (ModelServiceError "filename may contain only letters, digits, '.', '_' and '-' (at most 128)")
              else Ok f
  | None => Ok ("download-" +:+ generated +:+ ".gguf")
  end.

(** [hf_url] *)
Definition rstrip_slash (s : string) : string :=
  Text.rev_string ((fix go (s : string) : string :=
    match s with String c s' => if bool_decide (c = "/"%char) then go s' else s | EmptyString => "" end)
      (Text.rev_string s)).
Definition hf_url (endpoint repo filename revision : string) : string :=
  rstrip_slash endpoint +:+ "/" +:+ repo +:+ "/resolve/" +:+ revision +:+ "/" +:+ filename.

(** The arguments of [start_download]. *)
Record request := Request {
  r_source_type : string;
  r_name : option Gguf.text;
  r_repo : option string;
  r_filename : option string;
  r_revision : string;
  r_url : option string;
  r_expected_sha256 : option string;
}.

(** The URL that is fetched, the source that is recorded, and the base name. *)
Definition resolve_source (cfg : config) (generated : string) (r : request) :
    result service_error (string * string * string) :=
  if bool_decide (r_source_type r = "huggingface") then
    if negb (ostr_true (r_repo r)) || negb (ostr_true (r_filename r)) then
      Err (ModelServiceError "huggingface downloads require 'repo' and 'filename'")
    else
      let repo := default "" (r_repo r) in
      let filename := default "" (r_filename r) in
      Ok (hf_url (hf_endpoint cfg) repo filename (r_revision r),
          repo +:+ "/" +:+ filename +:+ "@" +:+ r_revision r, Paths.safe_filename filename)
  else if bool_decide (r_source_type r = "url") then
    if negb (ostr_true (r_url r)) then Err (ModelServiceError "url downloads require 'url'")
    else
      base ← url_download_filename generated (r_filename r);
      Ok (default "" (r_url r), URL_SOURCE_DESCRIPTOR, base)
  else Err (ModelServiceError ("unknown source_type: " +:+ Json.repr_str (r_source_type r))).

Definition with_extension (base : string) : string :=
  if Text.endswith ".gguf" base then base else base +:+ ".gguf".

Section Service.
Context (cfg : config) (resolve : string → option string) (absolute : string → string).

(** [_path_key]; [resolve] is [None] when it raises [OSError]. *)
Definition path_key (p : string) : string :=
  match resolve p with Some k => k | None => absolute p end.

(** [_within_models_dir] *)
Definition within_models_dir (p : string) : bool :=
  match resolve p, resolve (models_dir cfg) with
  | Some k, Some d => Paths.relative_to d k
  | _, _ => false
  end.

Definition owns_work (s : t) : bool := negb (bool_decide (tasks s = ∅)).
Definition is_busy (r : ModelRecord) (s : t) : bool :=
  bool_decide (id r ∈ tasks s) || bool_decide (id r ∈ operations s)
  || bool_decide (path_key (path r) ∈ import_paths s).

(** *** Imports, split at the await of the digest *)

(** [call] names the call; [info] is what [gguf.probe] answers for the file. *)
Definition import_begin (call : nat) (p : string) (name : option Gguf.text) (info : Gguf.GgufInfo)
    (s : t) : t * result service_error unit :=
  let key := path_key p in
  if bool_decide (key ∈ import_paths s)
     || bool_decide (key ∈ (map_to_list (download_paths s)).*2) then (s, Err ModelBusyError)
  else if negb (bool_decide (p ∈ disk s)) then (s, Err (ModelServiceError ("file not found: " +:+ p)))
  else if negb (Gguf.valid info) then (s, Err (ModelServiceError ("not a valid GGUF file: " +:+ p)))
  else (with_imports (import_paths s ∪ {[key]}) (<[call := Import key p name info]> (imports s)) s, Ok tt).

(** [name or info.name or path.stem] *)
Definition model_name (name : option Gguf.text) (info : Gguf.GgufInfo) (p : string) : Gguf.text :=
  match name with
  | Some (_ :: _ as n) => n
  | _ => match Gguf.name info with
         | Some (_ :: _ as n) => n
         | _ => Utf8.points (Paths.stem (Paths.name p))
         end
  end.

(** The rest, with the digest and the size, or an exception of the thread or of [stat]. *)
Definition import_resume (call : nat) (outcome : result exn (string * Z)) (model_id now : string)
    (s : t) : t * result service_error ModelRecord :=
  match imports s !! call with
  | None => (s, Err (Propagates KeyError))
  | Some (Import key p name info) =>
      let s' := with_imports (import_paths s ∖ {[key]}) (base.delete call (imports s)) s in
      match outcome with
      | Err e => (s', Err (Propagates e))
      | Ok (digest, size) =>
          match create model_id now (model_name name info p) (Paths.name p) p "import" (Some p) READY
                  None (Some digest) (Some size) (Gguf.quant info) (Gguf.arch info)
                  (Gguf.context_length info) (models s') with
          | (m, Ok r) => (with_models m s', Ok r)
          | (m, Err e) => (with_models m s', Err (Propagates e))
          end
      end
  end.

(** *** Downloads *)

Definition start_download (r : request) (generated model_id now : string) (s : t) :
    t * result service_error ModelRecord :=
  match resolve_source cfg generated r with
  | Err e => (s, Err e)
  | Ok (fetch_url, source_ref, base) =>
      let base := with_extension base in
      let dest := Paths.join (models_dir cfg) base in
      if bool_decide (path_key dest ∈ import_paths s) then (s, Err ModelBusyError)
      else if bool_decide (dest ∈ disk s) || bool_decide (is_Some (find_by_path dest (models s))) then
        (s, Err (ModelServiceError ("a model file named " +:+ Json.repr_str base +:+ " already exists")))
      else
        let name := match r_name r with
                    | Some (_ :: _ as n) => n
                    | _ => Utf8.points (Paths.stem base) end in
        match create model_id now name base dest (r_source_type r) (Some source_ref) DOWNLOADING
                (r_expected_sha256 r) None None None None None (models s) with
        | (m, Err e) => (s, Err (Propagates e))
        | (m, Ok record) =>
            (Mk m (tasks s ∪ {[model_id]}) (cancels s ∪ {[model_id]})
                (<[model_id := path_key dest]> (download_paths s)) (operations s) (import_paths s)
                (<[model_id := Run dest Pending false 0 false]> (runs s))
                (<[model_id := CancelEvent.init]> (events s)) (imports s) (disk s) (unrecorded s),
             Ok record)
        end
  end.

(** [_release] *)
Definition release (model_id : string) (s : t) : t :=
  Mk (models s) (tasks s ∖ {[model_id]}) (cancels s ∖ {[model_id]}) (base.delete model_id (download_paths s))
     (operations s) (import_paths s) (runs s) (events s) (imports s) (disk s) (unrecorded s).

(** [_persist_terminal]; [db] tells whether the store takes the write. *)
Definition persist_terminal (db : bool) (now model_id : string) (st : ModelStatus) (fields : list field)
    (s : t) : t :=
  if db then with_models (update now model_id (FStatus st :: fields) (models s)) s
  else with_unrecorded (unrecorded s ∪ {[model_id]}) s.

(** How the thread of a download ended, other than by returning. *)
Inductive failure :=
| DownloadCancelled
| SafeError (message : string)      (* a [DownloadError], all of which are safe *)
| OtherError (type_name : string).

Definition stage_name (st : stage) : string := match st with Finalize _ => "finalize" | _ => "download" end.
(** [_record_cancelled] and [_record_failure] *)
Definition record_end (db : bool) (now model_id : string) (st : stage) (e : failure) (s : t) : t :=
  match e with
  | DownloadCancelled => persist_terminal db now model_id CANCELLED [] s
  | SafeError m => persist_terminal db now model_id ERROR [FError (Some m)] s
  | OtherError ty =>
      persist_terminal db now model_id ERROR
        [FError (Some ("download failed during " +:+ stage_name st +:+ " (" +:+ ty +:+ ")"))] s
  end.

(** The coroutine ends: the [finally] clause, and it is no longer there. *)
Definition end_run (model_id : string) (s : t) : t :=
  with_runs (base.delete model_id (runs s)) (release model_id s).

(** The body of [progress], on the worker's thread; [clock] is [time.monotonic()]. *)
Definition report (now model_id : string) (done : Z) (total : option Z) (clock : Q) (s : t) : t :=
  match runs s !! model_id, events s !! model_id with
  | Some r, Some e =>
      if CancelEvent.flag e then s
      else
        let fresh := bool_decide (is_Some total) && negb (seen_total r) in
        let m := if fresh then update now model_id [FSize total] (models s) else models s in
        let write := bool_decide (1 # 2 <= clock - last r)%Q in
        let m := if write then add_progress now model_id done m else m in
        with_runs (<[model_id := Run (dest r) (at_ r) (interrupted r) (if write then clock else last r)
                                     (seen_total r || fresh)]> (runs s)) (with_models m s)
  | _, _ => s
  end.

(** [cancel] *)
Definition cancel (model_id : string) (s : t) : t * bool :=
  if bool_decide (model_id ∈ cancels s) then
    match events s !! model_id with
    | Some e => let '(e', b) := CancelEvent.request e in (with_events (<[model_id := e']> (events s)) s, b)
    | None => (s, false)
    end
  else (s, false).

(** *** Recovery, deletion, shutdown *)

Definition running : list ModelStatus := [DOWNLOADING; VERIFYING].
Definition reconcile_one (now : string) (acc : t * nat) (r : ModelRecord) : t * nat :=
  let '(s, changed) := acc in
  if negb (bool_decide (status r ∈ running)) || bool_decide (id r ∈ tasks s) then (s, changed)
  else
    let '(m, hit) := mark_interrupted now (id r) running INTERRUPTED (models s) in
    (with_models m s, if hit then S changed else changed).
Definition reconcile_interrupted (now : string) (s : t) : t * nat :=
  fold_left (reconcile_one now) (list_ (models s)) (s, 0%nat).

(** [operation]: entering and leaving the block. *)
Definition operation_enter (r : ModelRecord) (s : t) : t * result service_error unit :=
  if is_busy r s then (s, Err ModelBusyError)
  else (with_operations (operations s ∪ {[id r]}) s, Ok tt).
Definition operation_exit (r : ModelRecord) (s : t) : t := with_operations (operations s ∖ {[id r]}) s.

(** [delete_files]; [unlinks] tells which of the two [unlink] calls succeed. *)
Definition delete_files (r : ModelRecord) (unlinks : bool * bool) (s : t) : t * bool :=
  if negb (bool_decide (source_type r = "import")) || within_models_dir (path r) then
    if negb (fst unlinks) then (s, false)
    else
      let s := with_disk (disk s ∖ {[path r]}) s in
      if negb (snd unlinks) then (s, false)
      else (with_disk (disk s ∖ {[Paths.part (path r)]}) s, true)
  else (s, true).
Definition delete_model (r : ModelRecord) (unlinks : bool * bool) (db : bool) (s : t) :
    t * result service_error unit :=
  if is_busy r s then (s, Err ModelBusyError)
  else match delete_files r unlinks s with
       | (s', false) => (s', Err ModelDeleteError)
       | (s', true) => if db then (with_models (fst (ModelRegistry.delete (id r) (models s'))) s', Ok tt)
                       else (s', Err ModelDeleteError)
       end.

(** [shutdown]: what happens before and after the wait of one turn of its loop. *)
Definition signal_all (s : t) : t :=
  with_events (map_imap (fun i e => Some (if bool_decide (i ∈ cancels s) then fst (CancelEvent.request e) else e))
                 (events s)) s.
Definition release_done (s : t) : t :=
  foldr (fun i s => if bool_decide (is_Some (runs s !! i)) then s else release i s) s (elements (tasks s)).

(** [register_configured], at startup. *)
Definition register_configured (p : string) (name : Gguf.text) (info : Gguf.GgufInfo) (size : Z)
    (model_id now : string) (s : t) : t * result service_error (option ModelRecord) :=
  if negb (bool_decide (p ∈ disk s)) then (s, Ok None)
  else match find_by_path p (models s) with
       | Some r => (s, Ok (Some r))
       | None =>
           match create model_id now name (Paths.name p) p "import" (Some p) READY None None (Some size)
                   (Gguf.quant info) (Gguf.arch info) (Gguf.context_length info) (models s) with
           | (m, Err e) => (s, Err (Propagates e))
           | (m, Ok r) =>
               match set_active now (id r) m with
               | (m', Ok _) => (with_models m' s, Ok (Some r))
               | (m', Err e) => (with_models m' s, Err (Propagates e))
               end
           end
       end.

End Service.
End ModelService.
