(* ===== verification/ModelLifecycle.v ===== *)
(** * The life of a model: the admin routes and every interleaving

    [Module ModelsRouter] has the handlers of [engine/api/models_router.py] that change
    state, with their HTTP errors; handlers that await are split there.  [Module
    ModelSystem] runs them together with the download coroutines, their worker threads,
    cancellations, the shutdown and changes of the disk by others, in any order, and proves
    who owns a model's file. *)

From S2P Require Import Prelude Crypto Text Sql Downloads Gguf Models.

Open Scope Z_scope.

Module ModelsRouter.
Import ModelRegistry ModelService.

(** An inference backend object, as far as the routes look at it: its identity, the
    [model_id] of its capabilities, and whether its state is READY or GENERATING. *)
Record backend := Backend { b_obj : nat; b_model : Gguf.text; b_loaded : bool }.
#[export] Instance backend_eq_dec : EqDecision backend.
Proof. solve_decision. Defined.

(** A [load_model] at one of its awaits, and an [unload_model] at its await. *)
Inductive load_stage := Loading | Unloading_previous.
Record load_call := Load { l_record : ModelRecord; l_obj : nat; l_stage : load_stage }.

(** [app.state] as the routes use it. *)
Record app := App {
  service : ModelService.t;
  state_backend : option backend;
  loads : gmap nat load_call;
  unloads : gset nat;
  allow_model_management : bool;
  allow_network_downloads : bool;
  virtual_model_names : list Gguf.text;
}.
Definition with_service (s : ModelService.t) (a : app) : app :=
  App s (state_backend a) (loads a) (unloads a) (allow_model_management a) (allow_network_downloads a)
      (virtual_model_names a).
Definition with_backend (b : option backend) (a : app) : app :=
  App (service a) b (loads a) (unloads a) (allow_model_management a) (allow_network_downloads a)
      (virtual_model_names a).
Definition with_loads (l : gmap nat load_call) (a : app) : app :=
  App (service a) (state_backend a) l (unloads a) (allow_model_management a) (allow_network_downloads a)
      (virtual_model_names a).
Definition with_unloads (u : gset nat) (a : app) : app :=
  App (service a) (state_backend a) (loads a) u (allow_model_management a) (allow_network_downloads a)
      (virtual_model_names a).

(** [OpenAIError]: its status and code; or another exception. *)
Inductive http_error := Http (status : Z) (code : string) | Unhandled (e : exn) | CancelledError.

Definition require_management (a : app) : result http_error unit :=
  if allow_model_management a then Ok tt else Err (Http 403 "model_management_disabled").
Definition require_downloads (a : app) : result http_error unit :=
  if allow_network_downloads a then Ok tt else Err (Http 403 "downloads_disabled").
(** [_require] *)
Definition require (a : app) (model_id : string) : result http_error ModelRecord :=
  match get model_id (models (service a)) with
  | Some r => Ok r
  | None => Err (Http 404 "model_not_found")
  end.
Definition is_loaded (a : app) (r : ModelRecord) : bool :=
  active r && match state_backend a with
              | Some b => b_loaded b && bool_decide (b_model b = name r)
              | None => false
              end.

(** The [except] clauses of the routes; [failed] is the code for a [ModelServiceError]. *)
Definition http_of (failed : Z * string) (e : service_error) : http_error :=
  match e with
  | ModelBusyError => Http 409 "model_busy"
  | ModelServiceError _ | ModelDeleteError => Http (fst failed) (snd failed)
  | Propagates e => Unhandled e
  end.
(** Runs a call of the service. *)
Definition call {A} (failed : Z * string) (f : ModelService.t → ModelService.t * result service_error A)
    (a : app) : app * result http_error A :=
  match f (service a) with
  | (s, Ok x) => (with_service s a, Ok x)
  | (s, Err e) => (with_service s a, Err (http_of failed e))
  end.

Section Routes.
Context (cfg : config) (resolve : string → option string) (absolute : string → string).

Definition import_model_begin (c : nat) (p : string) (name : option Gguf.text) (info : Gguf.GgufInfo)
    (a : app) : app * result http_error unit :=
  match require_management a with
  | Err e => (a, Err e)
  | Ok _ => call (400, "model_import_failed") (import_begin resolve absolute c p name info) a
  end.

Definition download_model (r : request) (generated model_id now : string) (a : app) :
    app * result http_error ModelRecord :=
  match (_ ← require_management a; require_downloads a) with
  | Err e => (a, Err e)
  | Ok _ => call (400, "model_download_failed") (start_download cfg resolve absolute r generated model_id now) a
  end.

Definition cancel_download (model_id : string) (a : app) : app * result http_error unit :=
  match require a model_id with
  | Err e => (a, Err e)
  | Ok r =>
      if negb (bool_decide (status r = DOWNLOADING)) then (a, Err (Http 409 "not_downloading"))
      else let '(s, ok) := cancel model_id (service a) in
           (with_service s a, if ok then Ok tt else Err (Http 409 "model_cancel_not_accepted"))
  end.

(** [load_model] up to [await backend.load()]; [obj] is the new backend object. *)
Definition load_model_begin (c : nat) (obj : nat) (model_id : string) (a : app) :
    app * result http_error unit :=
  match (_ ← require_management a; require a model_id) with
  | Err e => (a, Err e)
  | Ok r =>
      if negb (bool_decide (status r = READY)) then (a, Err (Http 409 "model_not_ready"))
      else if bool_decide (name r ∈ virtual_model_names a) then (a, Err (Http 409 "model_name_conflict"))
      else match call (500, "") (operation_enter resolve absolute r) a with
           | (a', Err e) => (a', Err e)
           | (a', Ok _) => (with_loads (<[c := Load r obj Loading]> (loads a')) a', Ok tt)
           end
  end.

Definition leave (c : nat) (r : ModelRecord) (a : app) : app :=
  with_loads (base.delete c (loads a)) (with_service (operation_exit r (service a)) a).

(** After [backend.load()]: it returned, raised a [BackendError], or was cancelled. *)
Inductive load_outcome := Loaded | Failed | Cancelled.
Definition load_model_loaded (c : nat) (o : load_outcome) (now : string) (a : app) :
    option (app * result http_error unit) :=
  match loads a !! c with
  | Some (Load r obj Loading) =>
      match o with
      | Failed => Some (leave c r a, Err (Http 503 "model_load_failed"))
      | Cancelled => Some (leave c r a, Err CancelledError)
      | Loaded =>
          let previous := state_backend a in
          let a := with_backend (Some (Backend obj (name r) true)) a in
          match set_active now (id r) (models (service a)) with
          | (m, Err e) => Some (leave c r (with_service (with_models m (service a)) a), Err (Unhandled e))
          | (m, Ok _) =>
              let a := with_service (with_models m (service a)) a in
              match previous with
              | None => Some (leave c r a, Ok tt)
              | Some _ => Some (with_loads (<[c := Load r obj Unloading_previous]> (loads a)) a, Ok tt)
              end
          end
      end
  | _ => None
  end.
(** After [previous.unload()], however it ended. *)
Definition load_model_end (c : nat) (a : app) : option app :=
  match loads a !! c with
  | Some (Load r _ Unloading_previous) => Some (leave c r a)
  | _ => None
  end.

(** [unload_model] up to its await, or to its end when nothing is loaded. *)
Definition unload_model_begin (c : nat) (model_id : string) (a : app) : app * result http_error unit :=
  match (_ ← require_management a; require a model_id) with
  | Err e => (a, Err e)
  | Ok r =>
      if is_loaded a r then (with_unloads (unloads a ∪ {[c]}) a, Ok tt)
      else (with_service (with_models (clear_active (models (service a))) (service a)) a, Ok tt)
  end.
Definition unload_model_end (c : nat) (a : app) : option app :=
  if bool_decide (c ∈ unloads a) then
    let a := with_unloads (unloads a ∖ {[c]}) (with_backend None a) in
    Some (with_service (with_models (clear_active (models (service a))) (service a)) a)
  else None.

Definition delete_model (model_id : string) (unlinks : bool * bool) (db : bool) (a : app) :
    app * result http_error unit :=
  match (_ ← require_management a; require a model_id) with
  | Err e => (a, Err e)
  | Ok r =>
      if is_loaded a r then (a, Err (Http 409 "model_loaded"))
      else call (500, "model_delete_failed")
             (ModelService.delete_model cfg resolve absolute r unlinks db) a
  end.

End Routes.
End ModelsRouter.

Module ModelSystem.
Import ModelRegistry ModelService ModelsRouter.

Inductive label :=
(* handlers *)
| DownloadModel (r : request) (generated model_id now : string)
| CancelDownload (model_id : string)
| ImportBegin (c : nat) (p : string) (name : option Gguf.text) (info : Gguf.GgufInfo)
| ImportResume (c : nat) (outcome : result exn (string * Z)) (model_id now : string)
| LoadBegin (c obj : nat) (model_id : string)
| LoadLoaded (c : nat) (o : load_outcome) (now : string)
| LoadEnd (c : nat)
| UnloadBegin (c : nat) (model_id : string)
| UnloadEnd (c : nat)
| DeleteModel (model_id : string) (unlinks : bool * bool) (db : bool)
(* the coroutines [_run_download] and their threads *)
| Begins (model_id : string)
| PartFile (model_id : string) (present : bool)
| Reports (model_id now : string) (done : Z) (total : option Z) (clock : Q)
| Commits (model_id digest : string)
| Fails (model_id now : string) (e : failure) (db : bool)
| Finalizes (model_id now : string) (info : Gguf.GgufInfo) (size : Z)
| TaskCancelled (model_id : string)
(* shutdown, and the environment *)
| ShutdownSignals
| ShutdownReleases
| BackendState (loaded : bool)
| Disk (p : string) (present : bool).

Definition set_disk (p : string) (present : bool) (s : ModelService.t) : ModelService.t :=
  with_disk (if present then disk s ∪ {[p]} else disk s ∖ {[p]}) s.

(** The thread of [downloader.download] promotes the file, if the cancel event lets it. *)
Definition commits (i digest : string) (s : ModelService.t) : option ModelService.t :=
  r ← runs s !! i;
  e ← events s !! i;
  match at_ r, CancelEvent.commit e with
  | Download, (e', true) =>
      Some (set_disk (dest r) true (set_disk (Paths.part (dest r)) false
        (with_events (<[i := e']> (events s))
          (with_runs (<[i := Run (dest r) (Finalize digest) (interrupted r) (last r) (seen_total r)]> (runs s)) s))))
  | _, _ => None
  end.

(** The coroutine sees an exception: [DownloadCancelled] only when the event is set. *)
Definition fails (i now : string) (x : failure) (db : bool) (s : ModelService.t) : option ModelService.t :=
  r ← runs s !! i;
  e ← events s !! i;
  match at_ r, x with
  | Pending, _ => None
  | Finalize _, DownloadCancelled => None
  | Download, DownloadCancelled =>
      if CancelEvent.flag e then Some (end_run i (record_end db now i (at_ r) x s)) else None
  | _, _ => Some (end_run i (record_end db now i (at_ r) x s))
  end.

(** The last statement of the [try] block succeeds. *)
Definition finalizes (i now : string) (info : Gguf.GgufInfo) (size : Z) (s : ModelService.t) :
    option ModelService.t :=
  r ← runs s !! i;
  match at_ r with
  | Finalize digest =>
      Some (end_run i (with_models
        (update now i [FStatus READY; FSha256 (Some digest); FSize (Some size); FDownloaded size;
                       FQuant (Gguf.quant info); FArch (Gguf.arch info); FContext (Gguf.context_length info);
                       FError None] (models s)) s))
  | _ => None
  end.

(** [task.cancel()]: a coroutine that has not started never runs; one that waits for its
    thread sets the event and goes on waiting. *)
Definition task_cancelled (i : string) (s : ModelService.t) : option ModelService.t :=
  r ← runs s !! i;
  e ← events s !! i;
  match at_ r with
  | Pending => Some (with_unrecorded (unrecorded s ∪ {[i]}) (with_runs (base.delete i (runs s)) s))
  | _ => Some (with_events (<[i := fst (CancelEvent.request e)]> (events s))
                 (with_runs (<[i := Run (dest r) (at_ r) true (last r) (seen_total r)]> (runs s)) s))
  end.

Section System.
Context (cfg : config) (resolve : string → option string) (absolute : string → string).

Definition lift (f : ModelService.t → option ModelService.t) (a : app) : option app :=
  s ← f (service a); Some (with_service s a).
Definition fresh {A} (m : gmap nat A) (c : nat) (k : option app) : option app :=
  match m !! c with Some _ => None | None => k end.

Definition exec (l : label) (a : app) : option app :=
  match l with
  | DownloadModel r g i now => Some (fst (download_model cfg resolve absolute r g i now a))
  | CancelDownload i => Some (fst (cancel_download i a))
  | ImportBegin c p n info => fresh (imports (service a)) c (Some (fst (import_model_begin resolve absolute c p n info a)))
  | ImportResume c o i now => lift (fun s => Some (fst (import_resume c o i now s))) a
  | LoadBegin c obj i => fresh (loads a) c (Some (fst (load_model_begin resolve absolute c obj i a)))
  | LoadLoaded c o now => fst <$> load_model_loaded c o now a
  | LoadEnd c => load_model_end c a
  | UnloadBegin c i => Some (fst (unload_model_begin c i a))
  | UnloadEnd c => unload_model_end c a
  | DeleteModel i u db => Some (fst (delete_model cfg resolve absolute i u db a))
  | Begins i => lift (fun s => r ← runs s !! i;
      match at_ r with
      | Pending => Some (with_runs (<[i := Run (dest r) Download (interrupted r) (last r) (seen_total r)]> (runs s)) s)
      | _ => None
      end) a
  | PartFile i present => lift (fun s => r ← runs s !! i;
      match at_ r with Download => Some (set_disk (Paths.part (dest r)) present s) | _ => None end) a
  | Reports i now done total clock => lift (fun s => r ← runs s !! i;
      match at_ r with Download => Some (report now i done total clock s) | _ => None end) a
  | Commits i d => lift (commits i d) a
  | Fails i now x db => lift (fails i now x db) a
  | Finalizes i now info size => lift (finalizes i now info size) a
  | TaskCancelled i => lift (task_cancelled i) a
  | ShutdownSignals => lift (fun s => Some (signal_all s)) a
  | ShutdownReleases => lift (fun s => Some (release_done s)) a
  | BackendState b =>
      Some (with_backend ((fun x => Backend (b_obj x) (b_model x) b) <$> state_backend a) a)
  | Disk p present => lift (fun s => Some (set_disk p present s)) a
  end.

(** Startup: the rows a previous process left, reconciled; then the configured model. *)
Definition empty_service (m : table) (d : gset string) : ModelService.t :=
  Mk m ∅ ∅ ∅ ∅ ∅ ∅ ∅ ∅ d ∅.
Definition boot (m : table) (d : gset string) (now : string) : ModelService.t :=
  fst (reconcile_interrupted now (empty_service m d)).

Inductive reachable (a0 : app) : app → Prop :=
| reach_init : reachable a0 a0
| reach_step l a a' : reachable a0 a → exec l a = Some a' → reachable a0 a'.

(** ** Who owns a file

    The invariant reads a row as its id, path and status. *)

Definition row : Type := string * string * ModelStatus.
Definition key_of (r : ModelRecord) : row := (id r, path r, status r).
Definition keys (m : table) : list row := map key_of m.
Definition row_id (k : row) : string := fst (fst k).
Let pkey := path_key resolve absolute.

Record own (s : ModelService.t) : Prop := Own {
  o_ids : NoDup (map row_id (keys (models s)));
  o_cancels : cancels s = tasks s;
  o_paths : ∀ i, is_Some (download_paths s !! i) → i ∈ tasks s;
  o_runs : ∀ i r, runs s !! i = Some r → i ∈ tasks s;
  o_gguf : ∀ i r, runs s !! i = Some r → Text.endswith ".gguf" (dest r) = true;
  (* a download's row is there, says so, and is the only one with its file *)
  o_task : ∀ i, i ∈ tasks s → ∃ p, (i, p, DOWNLOADING) ∈ keys (models s) ∧
    download_paths s !! i = Some (pkey p) ∧ (∀ r, runs s !! i = Some r → dest r = p) ∧
    (∀ j st, (j, p, st) ∈ keys (models s) → j = i);
  o_event : ∀ i r, runs s !! i = Some r → ∃ e, events s !! i = Some e ∧
    (CancelEvent.flag e = true → CancelEvent.committed e = false) ∧
    (CancelEvent.committed e = true ↔ ∃ d, at_ r = Finalize d);
  o_dead : ∀ i, i ∈ tasks s → runs s !! i = None → i ∈ unrecorded s;
  (* an import has its file to itself *)
  o_import : ∀ i k, download_paths s !! i = Some k → k ∉ import_paths s;
  o_call : ∀ c x, imports s !! c = Some x → i_key x = pkey (i_path x) ∧ i_key x ∈ import_paths s;
  o_call_inj : ∀ c c' x x', imports s !! c = Some x → imports s !! c' = Some x' → i_key x = i_key x' → c = c';
  o_call_all : ∀ k, k ∈ import_paths s → ∃ c x, imports s !! c = Some x ∧ i_key x = k;
  (* a row says that it downloads only while the service owns the download *)
  o_tracked : ∀ i p st, (i, p, st) ∈ keys (models s) → st ∈ running → i ∈ tasks s ∪ unrecorded s;
}.

(** Steps that touch neither the rows' keys nor the dictionaries. *)
Lemma own_ext s s' :
  own s → keys (models s') = keys (models s) → tasks s' = tasks s → cancels s' = cancels s →
  download_paths s' = download_paths s → import_paths s' = import_paths s → imports s' = imports s →
  runs s' = runs s → events s' = events s → unrecorded s ⊆ unrecorded s' → own s'.
Proof.
  intros [] E1 E2 E3 E4 E5 E6 E7 E8 E9.
  split; rewrite ?E1, ?E2, ?E3, ?E4, ?E5, ?E6, ?E7, ?E8; try done; set_solver.
Qed.

Lemma update_keys p f m : (∀ r, key_of (f r) = key_of r) → keys (Sql.update p f m) = keys m.
Proof. intros H. unfold keys. apply Sql.update_key. intros r _. apply H. Qed.

Lemma clear_active_keys m : keys (clear_active m) = keys m.
Proof. apply update_keys. by intros []. Qed.
Lemma set_active_row_keys now i m : keys (fst (set_active now i m)) = keys m.
Proof.
  unfold set_active. destruct (one_active _); [|done]. cbn [fst]. rewrite update_keys by (by intros []).
  apply clear_active_keys.
Qed.

Lemma create_keys i now n f p st sr status ex sh sz q a c m m' r :
  create i now n f p st sr status ex sh sz q a c m = (m', Ok r) →
  keys m' = keys m ++ [(i, p, status)] ∧ (i ∉ map row_id (keys m)) ∧ id r = i ∧ path r = p.
Proof.
  unfold create. destruct (existsb _ m) eqn:E; intros [= <- <-]. split_and!; [|..|done|done].
  - unfold keys, Sql.insert. by rewrite map_app.
  - intros (k & -> & (r & -> & Hr)%list_elem_of_fmap)%list_elem_of_fmap.
    assert (has_id (row_id (key_of r)) r = true) as Hi by (by apply bool_decide_eq_true).
    pose proof (Sql.existsb_false_elem _ _ _ E Hr). congruence.
Qed.

Lemma get_keys i m r : get i m = Some r → r ∈ m ∧ id r = i ∧ key_of r ∈ keys m.
Proof.
  intros [Hr Hi%bool_decide_eq_true]%Sql.fetchone_Some. split_and!; [done|done|].
  by apply list_elem_of_fmap_2.
Qed.

Lemma find_by_path_None p m i st : find_by_path p m = None → (i, p, st) ∉ keys m.
Proof.
  intros H (r & E & Hr)%list_elem_of_fmap. pose proof (Sql.fetchone_None _ _ _ H Hr) as Hp.
  apply bool_decide_eq_false in Hp. unfold key_of in E. congruence.
Qed.

(** *** The invariant holds at startup *)

(** What [mark_interrupted] makes of a row. *)
Definition mark (now : string) (r : ModelRecord) : ModelRecord :=
  fold_left set_field [FStatus ERROR; FError (Some INTERRUPTED); FUpdated now] r.
Definition orphan (T : gset string) (r : ModelRecord) : bool :=
  bool_decide (status r ∈ running) && negb (bool_decide (id r ∈ T)).

Lemma mark_keys now r : key_of (mark now r) = (id r, path r, ERROR).
Proof. by destruct r. Qed.

Lemma update_update {R} (p q : R → bool) f t :
  (∀ r, p r = true → q (f r) = false) →
  Sql.update q f (Sql.update p f t) = Sql.update (fun r => p r || q r) f t.
Proof.
  intros H. unfold Sql.update. rewrite map_map. apply map_ext. intros r.
  destruct (p r) eqn:E; simpl; [by rewrite H|done].
Qed.

Lemma reconcile_fold now l s n :
  let '(s', n') := fold_left (reconcile_one now) l (s, n) in
  s' = with_models (Sql.update (fun r => bool_decide (status r ∈ running) &&
         existsb (fun x => has_id (id x) r && orphan (tasks s) x) l) (mark now) (models s)) s ∧
  (forallb (fun x => negb (orphan (tasks s) x)) l = true → s' = s ∧ n' = n).
Proof.
  revert s n. induction l as [|x l IH]; intros s n; cbn [fold_left existsb forallb].
  - split; [|done]. destruct s; unfold with_models, Sql.update; simpl. f_equal.
    rewrite <- map_id at 1. apply map_ext. intros r. by rewrite andb_false_r.
  - unfold reconcile_one at 2. destruct (orphan (tasks s) x) eqn:Eo; cycle 1.
    + assert (negb (bool_decide (status x ∈ running)) || bool_decide (id x ∈ tasks s) = true) as ->
        by (unfold orphan in Eo; by destruct (bool_decide (status x ∈ running)), (bool_decide (id x ∈ tasks s))).
      specialize (IH s n). destruct (fold_left _ l _) as [s' n']. destruct IH as [-> IH2].
      split; [|done]. f_equal. unfold Sql.update. apply map_ext. intros r. by rewrite andb_false_r.
    + assert (negb (bool_decide (status x ∈ running)) || bool_decide (id x ∈ tasks s) = false) as ->
        by (unfold orphan in Eo; by destruct (bool_decide (status x ∈ running)), (bool_decide (id x ∈ tasks s))).
      unfold mark_interrupted. fold (mark now).
      match goal with |- context [fold_left _ l (?s1, ?n1)] => specialize (IH s1 n1) end.
      destruct (fold_left _ l _) as [s' n']. destruct IH as [-> IH2]. split; [|done].
      unfold with_models. simpl. f_equal. rewrite update_update.
      * unfold Sql.update. apply map_ext. intros r. rewrite andb_true_r.
        by destruct (has_id (id x) r), (bool_decide (status r ∈ running)).
      * intros r _. assert (status (mark now r) = ERROR) as -> by (by destruct r). done.
Qed.

Lemma list_elem r m : r ∈ list_ m ↔ r ∈ m.
Proof. unfold list_. by rewrite Sql.order_by_perm. Qed.

Lemma reconcile_spec now s :
  let s' := fst (reconcile_interrupted now s) in
  s' = with_models (map (fun r => if orphan (tasks s) r then mark now r else r) (models s)) s ∧
  (∀ now', reconcile_interrupted now' s' = (s', 0%nat)).
Proof.
  intros s'. subst s'. unfold reconcile_interrupted.
  pose proof (reconcile_fold now (list_ (models s)) s 0) as H. destruct (fold_left _ _ _) as [s' n']. destruct H as [Hs _]. cbn [fst].
  assert (s' = with_models (map (fun r => if orphan (tasks s) r then mark now r else r) (models s)) s) as E.
  { rewrite Hs. f_equal. unfold Sql.update. apply map_ext_in. intros r Hr%list_elem_of_In.
    destruct (orphan (tasks s) r) eqn:Eo.
    - assert (existsb (fun x => has_id (id x) r && orphan (tasks s) x) (list_ (models s)) = true) as ->.
      { apply existsb_exists. exists r. split; [apply list_elem_of_In; by apply list_elem|].
        rewrite Eo, andb_true_r. by apply bool_decide_eq_true. }
      unfold orphan in Eo. apply andb_true_iff in Eo as [-> _]. done.
    - destruct (bool_decide (status r ∈ running)) eqn:Er; [|done]. cbn [andb].
      destruct (existsb _ _) eqn:Ex; [|done]. apply existsb_exists in Ex as (x & _ & Hx).
      apply andb_true_iff in Hx as [Hi%bool_decide_eq_true Ho].
      unfold orphan in Eo, Ho. apply andb_true_iff in Ho. rewrite Er, Hi in Eo. destruct Ho as [_ Ho]. by rewrite Ho in Eo. }
  split; [done|]. intros now'. pose proof (reconcile_fold now' (list_ (models s')) s' 0) as H.
  destruct (fold_left _ _ _) as [s2 n2]. destruct H as [_ H]. destruct H as [-> ->]; [|done].
  apply forallb_forall. intros x Hx%list_elem_of_In. rewrite list_elem, E in Hx. rewrite E.
  cbn [models with_models tasks] in *. apply list_elem_of_fmap in Hx as (r & -> & _).
  destruct (orphan (tasks s) r) eqn:Eo; [|by rewrite Eo].
  unfold orphan. assert (status (mark now r) = ERROR) as -> by (by destruct r). done.
Qed.

Lemma keys_in m i p st : (i, p, st) ∈ keys m → i ∈ map row_id (keys m).
Proof. intros H. by apply (list_elem_of_fmap_2 row_id) in H. Qed.
Lemma keys_functional m i p p' st st' :
  NoDup (map row_id (keys m)) → (i, p, st) ∈ keys m → (i, p', st') ∈ keys m → p = p' ∧ st = st'.
Proof.
  intros Hn [x Hx]%list_elem_of_lookup [y Hy]%list_elem_of_lookup.
  assert (map row_id (keys m) !! x = Some i) as H1 
    by (rewrite (list_lookup_fmap row_id (keys m)); exact (f_equal (fmap row_id) Hx)).
  assert (map row_id (keys m) !! y = Some i) as H2 
    by (rewrite (list_lookup_fmap row_id (keys m)); exact (f_equal (fmap row_id) Hy)).
  pose proof (NoDup_lookup _ _ _ _ Hn H1 H2) as ->. rewrite Hx in Hy. by simplify_eq.
Qed.

Lemma own_boot m d now : NoDup (map id m) → own (boot m d now).
Proof.
  intros Hn. unfold boot. destruct (reconcile_spec now (empty_service m d)) as [-> _].
  assert (map row_id (keys (map (fun r => if orphan ∅ r then mark now r else r) m)) = map id m) as E.
  { unfold keys. rewrite !map_map. apply map_ext. intros r. destruct (orphan ∅ r); [|done].
    rewrite mark_keys. done. }
  split; simpl; try (intros; set_solver); try (by intros ? ? ?%lookup_empty_Some);
    try (by intros ? ? ? ? ?%lookup_empty_Some).
  - by rewrite E.
  - intros i H. by rewrite lookup_empty in H; destruct H.
  - intros i p st Hk Hst. exfalso. apply list_elem_of_fmap in Hk as (r' & E' & Hr').
    apply list_elem_of_fmap in Hr' as (r & -> & _). destruct (orphan ∅ r) eqn:Eo.
    + rewrite mark_keys in E'. simplify_eq. by apply (bool_decide_eq_true (ERROR ∈ running)) in Hst.
    + unfold orphan in Eo. unfold key_of in E'. simplify_eq.
      rewrite (bool_decide_true (status r ∈ running)) in Eo by done. done.
Qed.

(** *** ... and is kept by every operation *)

Lemma own_run s i r r' e' :
  own s → runs s !! i = Some r → dest r' = dest r →
  (CancelEvent.flag e' = true → CancelEvent.committed e' = false) →
  (CancelEvent.committed e' = true ↔ ∃ d, at_ r' = Finalize d) →
  own (with_events (<[i := e']> (events s)) (with_runs (<[i := r']> (runs s)) s)).
Proof.
  intros H Hr Hd He1 He2. pose proof H as []. split; simpl; try done.
  - intros j x [[<- _]|[_ Hj]]%lookup_insert_Some; eauto.
  - intros j x [[<- <-]|[_ Hj]]%lookup_insert_Some; [rewrite Hd|]; eauto.
  - intros j Hj. destruct (o_task0 j Hj) as (p & A & B & C & D). exists p. split_and!; [done|done| |done].
    intros x [[<- <-]|[_ Hx]]%lookup_insert_Some; [|by apply C]. rewrite Hd. by apply C.
  - intros j x [[<- <-]|[Hne Hx]]%lookup_insert_Some; [|rewrite lookup_insert_ne by done; by apply o_event0].
    rewrite lookup_insert_eq. eauto.
  - intros j Hj [Hn _]%lookup_insert_None. by apply o_dead0.
Qed.
(** The event stays as it is. *)
Lemma own_run_same s i r r' :
  own s → runs s !! i = Some r → dest r' = dest r →
  ((∃ d, at_ r' = Finalize d) ↔ ∃ d, at_ r = Finalize d) →
  own (with_runs (<[i := r']> (runs s)) s).
Proof.
  intros H Hr Hd Ha. destruct (o_event _ H _ _ Hr) as (e & He & H1 & H2).
  pose proof (own_run s i r r' e H Hr Hd H1) as Hw. rewrite Ha in Hw.
  eapply own_ext; [by apply Hw|done..| |done]. simpl. by rewrite insert_id.
Qed.

Lemma own_models s m : own s → keys m = keys (models s) → own (with_models m s).
Proof. intros H E. by eapply own_ext. Qed.

(** The end of a download. *)
Lemma own_end s i m u :
  own s → map row_id (keys m) = map row_id (keys (models s)) →
  (∀ j p st, j ≠ i → (j, p, st) ∈ keys m ↔ (j, p, st) ∈ keys (models s)) →
  (∀ p st, (i, p, st) ∈ keys m → ∃ st', (i, p, st') ∈ keys (models s)) →
  (∀ p st, (i, p, st) ∈ keys m → st ∈ running → i ∈ u) → unrecorded s ⊆ u →
  own (end_run i (with_unrecorded u (with_models m s))).
Proof.
  intros H Hids Hk Hi Hu Hsub. pose proof H as []. split; simpl; try done.
  - by rewrite Hids.
  - by rewrite o_cancels0.
  - intros j [Hne Hj]%lookup_delete_is_Some. set_solver.
  - intros j x [Hne Hj]%lookup_delete_Some. specialize (o_runs0 _ _ Hj). set_solver.
  - intros j x [_ Hj]%lookup_delete_Some. eauto.
  - intros j Hj. destruct (o_task0 j ltac:(set_solver)) as (p & A & B & C & D).
    exists p. assert (j ≠ i) as Hne by set_solver. split_and!.
    + by apply Hk.
    + by rewrite lookup_delete_ne.
    + intros x [_ Hx]%lookup_delete_Some. auto.
    + intros k st Hks. destruct (decide (k = i)) as [->|Hki]; [|eapply D; by apply Hk].
      destruct (Hi _ _ Hks) as [st' Hst]. by eapply D.
  - intros j x [Hne Hx]%lookup_delete_Some. eauto.
  - intros j Hj [Hn|Hn]%lookup_delete_None; [set_solver|]. apply Hsub, o_dead0; [set_solver|done].
  - intros j k [_ Hj]%lookup_delete_Some. eauto.
  - intros j p st Hj Hst. destruct (decide (j = i)) as [->|Hne]; [set_solver|].
    apply Hk in Hj; [|done]. specialize (o_tracked0 _ _ _ Hj Hst). set_solver.
Qed.

Lemma ended_running st : st = READY ∨ st = ERROR ∨ st = CANCELLED → st ∉ running.
Proof. intros [->|[->| ->]] H; by apply (bool_decide_eq_true (_ ∈ running)) in H. Qed.

(** An update that sets the status of one row, and no other key. *)
Lemma update_status now i fields st m :
  fields ≠ [] → (∀ r, key_of (fold_left set_field (fields ++ [FUpdated now]) r) = (id r, path r, st)) →
  let m' := update now i fields m in
  map row_id (keys m') = map row_id (keys m) ∧
  (∀ j p s0, j ≠ i → (j, p, s0) ∈ keys m' ↔ (j, p, s0) ∈ keys m) ∧
  (∀ p s0, (i, p, s0) ∈ keys m' → s0 = st ∧ ∃ s1, (i, p, s1) ∈ keys m).
Proof.
  intros Hf Hs m'. assert (m' = Sql.update (has_id i) (fold_left set_field (fields ++ [FUpdated now])) m) as ->
    by (unfold m', update; by destruct fields).
  set (g := fold_left set_field (fields ++ [FUpdated now])) in *.
  assert (∀ r, id (g r) = id r) as Hid by (intros r; specialize (Hs r); by injection Hs).
  split_and!.
  - unfold keys. rewrite !map_map. apply (Sql.update_key (fun r => row_id (key_of r))). intros r _. apply Hid.
  - intros j p s0 Hne. unfold keys. split.
    + intros (r' & E & (r & Hr & ->)%Sql.elem_of_update)%list_elem_of_fmap.
      destruct (has_id i r) eqn:Ei; [|rewrite E; by apply list_elem_of_fmap_2].
      apply bool_decide_eq_true in Ei. rewrite Hs in E. simplify_eq.
    + intros (r & E & Hr)%list_elem_of_fmap. apply list_elem_of_fmap. exists r. split; [done|].
      apply Sql.elem_of_update. exists r. split; [done|].
      assert (has_id i r = false) as -> by (apply bool_decide_eq_false; unfold key_of in E; congruence). done.
  - intros p s0 (r' & E & (r & Hr & ->)%Sql.elem_of_update)%list_elem_of_fmap.
    destruct (has_id i r) eqn:Ei.
    + rewrite Hs in E. simplify_eq. split; [done|]. exists (status r).
      by apply (list_elem_of_fmap_2 key_of).
    + apply bool_decide_eq_false in Ei. unfold key_of in E. congruence.
Qed.

Lemma own_persist s i db now st fields :
  own s → st ∉ running →
  (∀ r, key_of (fold_left set_field ((FStatus st :: fields) ++ [FUpdated now]) r) = (id r, path r, st)) →
  own (end_run i (persist_terminal db now i st fields s)).
Proof.
  intros H Hst Hf. unfold persist_terminal. destruct db.
  - destruct (update_status now i (FStatus st :: fields) st (models s)) as (A & B & C); [done|done|].
    assert (∀ m, with_models m s = with_unrecorded (unrecorded s) (with_models m s)) as -> by done.
    apply own_end; try done.
    + intros p s0 Hp. by apply C in Hp as [_ ?].
    + intros p s0 Hp Hr. apply C in Hp as [-> _]. done.
  - assert (s = with_models (models s) s) as E by (by destruct s). rewrite E at 2.
    change (with_unrecorded ?u (with_models ?m s)) with (with_unrecorded u (with_models m s)).
    apply own_end; try done; [eauto|set_solver..].
Qed.

Lemma own_finalizes s s' i now info size : own s → finalizes i now info size s = Some s' → own s'.
Proof.
  intros H E. unfold finalizes in E. destruct (runs s !! i) as [r|]; [|done]. cbn [mbind option_bind] in E.
  destruct (at_ r) as [| |d]; [done..|]. apply (inj Some) in E. rewrite <- E. clear E.
  match goal with |- own (end_run i (with_models (update now i ?fs _) s)) =>
    destruct (update_status now i fs READY (models s)) as (A & B & C); [done|by intros []|] end.
  match goal with |- own (end_run i (with_models ?m s)) =>
    change (with_models m s) with (with_unrecorded (unrecorded s) (with_models m s)) end.
  apply own_end; try done.
  - intros p s0 Hp. by apply C in Hp as [_ ?].
  - intros p s0 Hp Hr. apply C in Hp as [-> _]. exfalso. revert Hr. by apply ended_running; auto.
Qed.

Lemma own_fails s s' i now x db : own s → fails i now x db s = Some s' → own s'.
Proof.
  intros H E. unfold fails in E. destruct (runs s !! i) as [r|]; [|done].
  destruct (events s !! i) as [e|]; [|done]. simpl in E.
  assert (∃ st, s' = end_run i (record_end db now i st x s)) as [st ->].
  { destruct (at_ r), x; try done; simplify_eq; try (destruct (CancelEvent.flag e); [|done]; simplify_eq); eauto. }
  unfold record_end. destruct x; apply own_persist; try (by intros []); try (by apply ended_running; auto); done.
Qed.

Lemma own_commits s s' i d : own s → commits i d s = Some s' → own s'.
Proof.
  intros H E. unfold commits in E. destruct (runs s !! i) as [r|] eqn:Er; [|done].
  destruct (events s !! i) as [e|] eqn:Ee; [|done]. simpl in E.
  destruct (at_ r) eqn:Ea; [done| |done]. unfold CancelEvent.commit in E.
  destruct (CancelEvent.flag e) eqn:Ef; [done|]. simplify_eq.
  eapply own_ext; [apply (own_run s i r (Run (dest r) (Finalize d) (interrupted r) (last r) (seen_total r))
    (CancelEvent.Mk false true) H Er eq_refl)|done..]; simpl; [done|]. split; eauto.
Qed.

Lemma request_ok e : (CancelEvent.flag e = true → CancelEvent.committed e = false) →
  let e' := fst (CancelEvent.request e) in
  (CancelEvent.flag e' = true → CancelEvent.committed e' = false) ∧
  CancelEvent.committed e' = CancelEvent.committed e.
Proof. intros H. unfold CancelEvent.request. by destruct e as [f []]; simpl in *; auto. Qed.

Lemma own_task_cancelled s s' i : own s → task_cancelled i s = Some s' → own s'.
Proof.
  intros H E. unfold task_cancelled in E. destruct (runs s !! i) as [r|] eqn:Er; [|done].
  destruct (o_event _ H _ _ Er) as (e & Ee & H1 & H2). rewrite Ee in E. simpl in E.
  destruct (request_ok e H1) as [H3 H4].
  destruct (at_ r) eqn:Ea; simplify_eq.
  - pose proof H as []. split; simpl; try done.
    + intros j x [_ Hj]%lookup_delete_Some. eauto.
    + intros j x [_ Hj]%lookup_delete_Some. eauto.
    + intros j Hj. destruct (o_task0 j Hj) as (p & A & B & C & D). exists p. split_and!; try done.
      intros x [_ Hx]%lookup_delete_Some. auto.
    + intros j x [_ Hj]%lookup_delete_Some. eauto.
    + intros j Hj [->|Hn]%lookup_delete_None; [set_solver|]. apply elem_of_union. left. auto.
    + intros j p st Hj Hst. specialize (o_tracked0 _ _ _ Hj Hst). set_solver.
  - eapply own_run; [done|done|done|done|]. rewrite H4, H2, ?Ea. done.
  - eapply own_run; [done|done|done|done|]. rewrite H4, H2, ?Ea. done.
Qed.

Lemma own_report s i now done total clock : own s → own (report now i done total clock s).
Proof.
  intros H. unfold report. destruct (runs s !! i) as [r|] eqn:Er; [|exact H].
  destruct (events s !! i) as [e|]; [|exact H]. destruct (CancelEvent.flag e); [exact H|].
  cbv zeta. match goal with |- own (with_runs _ (with_models ?m s)) =>
    apply (own_run_same (with_models m s) i r); [apply own_models; [exact H|]|exact Er|reflexivity|reflexivity] end.
  unfold update, add_progress. repeat case_match; rewrite ?update_keys; try reflexivity; intros []; reflexivity.
Qed.

Lemma dest_gguf base : Text.endswith ".gguf" (Paths.join (models_dir cfg) (with_extension base)) = true.
Proof.
  assert (Text.endswith ".gguf" (with_extension base) = true) as H
    by (unfold with_extension; destruct (Text.endswith ".gguf" base) eqn:E; [done|apply Text.endswith_self]).
  unfold Paths.join. destruct (bool_decide _); [done|].
  destruct (Text.endswith "/" (models_dir cfg)); repeat apply Text.endswith_app; done.
Qed.
Lemma part_not_gguf p : Text.endswith ".gguf" (Paths.part p) = false.
Proof. unfold Text.endswith, Paths.part. rewrite Text.rev_string_app. done. Qed.

Lemma own_start s r g i now : own s → own (fst (start_download cfg resolve absolute r g i now s)).
Proof.
  intros H. unfold start_download. destruct (resolve_source cfg g r) as [[[url src] base]|e]; [|done].
  set (d := Paths.join (models_dir cfg) (with_extension base)).
  destruct (bool_decide (path_key resolve absolute d ∈ import_paths s)) eqn:Ei; [done|].
  apply bool_decide_eq_false in Ei.
  destruct (bool_decide (d ∈ disk s) || _) eqn:Ex; [done|].
  apply orb_false_iff in Ex as [_ Ex%bool_decide_eq_false]. apply eq_None_not_Some in Ex.
  destruct (create _ _ _ _ _ _ _ _ _ _ _ _ _ _ (models s)) as [m [rec|e]] eqn:Ec; [|done].
  apply create_keys in Ec as (Ek & Hfresh & _ & _). pose proof H as [].
  assert (∀ j, j ∈ tasks s → j ≠ i) as Hne.
  { intros j Hj ->. destruct (o_task0 i Hj) as (p & A & _). by apply keys_in in A. }
  assert (i ∉ tasks s) as Hi by (intros Hi; by apply (Hne i)).
  split; simpl; rewrite ?Ek.
  - rewrite map_app. apply NoDup_app. split_and!; [done|set_solver|apply NoDup_singleton].
  - by rewrite o_cancels0.
  - intros j Hj. destruct (decide (i = j)) as [->|Hn]; [set_solver|].
    rewrite lookup_insert_ne in Hj by done. specialize (o_paths0 _ Hj). set_solver.
  - intros j x [[<- _]|[_ Hx]]%lookup_insert_Some; [set_solver|]. specialize (o_runs0 _ _ Hx). set_solver.
  - intros j x [[<- <-]|[_ Hx]]%lookup_insert_Some; [apply dest_gguf|eauto].
  - intros j Hj. destruct (decide (i = j)) as [<-|Hn].
    + exists d. rewrite !lookup_insert_eq. split_and!; [set_solver|done|naive_solver|].
      intros k st [Hk|Hk%list_elem_of_singleton]%elem_of_app; [|by simplify_eq].
      by destruct (find_by_path_None _ _ _ _ Ex Hk).
    + destruct (o_task0 j ltac:(set_solver)) as (p & A & B & C & D). exists p.
      rewrite !lookup_insert_ne by done. split_and!; [set_solver|done|done|].
      intros k st [Hk|Hk%list_elem_of_singleton]%elem_of_app; [eauto|]. simplify_eq.
      by destruct (find_by_path_None _ _ _ _ Ex A).
  - intros j x [[<- <-]|[Hn Hx]]%lookup_insert_Some; [|rewrite lookup_insert_ne by done; by apply o_event0].
    rewrite lookup_insert_eq. eexists. split_and!; [done|done|]. simpl. split; [done|by intros [? ?]].
  - intros j Hj [Hn Hne']%lookup_insert_None. apply o_dead0; [set_solver|done].
  - intros j k [[<- <-]|[_ Hk]]%lookup_insert_Some; [done|eauto].
  - done.
  - done.
  - done.
  - intros j p st [Hk|Hk%list_elem_of_singleton]%elem_of_app Hst; [|simplify_eq; set_solver].
    specialize (o_tracked0 _ _ _ Hk Hst). set_solver.
Qed.

Lemma own_import_begin s c p n info : own s → imports s !! c = None →
  own (fst (import_begin resolve absolute c p n info s)).
Proof.
  intros H Hc. unfold import_begin. fold pkey. destruct (bool_decide (pkey p ∈ import_paths s) || _) eqn:E; [done|].
  apply orb_false_iff in E as [E1%bool_decide_eq_false E2%bool_decide_eq_false].
  destruct (negb _); [done|]. destruct (negb _); [done|]. pose proof H as []. split; simpl; try done.
  - intros i k Hk. apply not_elem_of_union. split; [eauto|]. intros ->%elem_of_singleton. apply E2.
    apply list_elem_of_fmap. exists (i, pkey p). split; [done|]. by apply elem_of_map_to_list.
  - intros c' x [[<- <-]|[_ Hx]]%lookup_insert_Some; [set_solver|]. destruct (o_call0 _ _ Hx). set_solver.
  - intros c1 c2 x1 x2 [[<- <-]|[N1 H1]]%lookup_insert_Some [[<- <-]|[N2 H2]]%lookup_insert_Some; simpl; try done.
    + intros Ek. destruct (o_call0 _ _ H2) as [_ Hin]. by rewrite <- Ek in Hin.
    + intros Ek. destruct (o_call0 _ _ H1) as [_ Hin]. by rewrite Ek in Hin.
    + eauto.
  - intros k [Hk|Hk%elem_of_singleton]%elem_of_union; [|subst k].
    + destruct (o_call_all0 _ Hk) as (c' & x & Hx & <-). exists c', x. split; [|done].
      rewrite lookup_insert_ne; [done|]. intros ->. congruence.
    + exists c. rewrite lookup_insert_eq. eauto.
Qed.

(** An import ends: its path is free again. *)
Lemma own_import_done s c x : own s → imports s !! c = Some x →
  own (with_imports (import_paths s ∖ {[i_key x]}) (base.delete c (imports s)) s).
Proof.
  intros H Hc. pose proof H as []. split; simpl; try done.
  - intros i k Hk. specialize (o_import0 _ _ Hk). set_solver.
  - intros c' y [Hn Hy]%lookup_delete_Some. destruct (o_call0 _ _ Hy) as [A B]. split; [done|].
    apply elem_of_difference. split; [done|]. intros E%elem_of_singleton. apply Hn. by eapply o_call_inj0.
  - intros c1 c2 x1 x2 [_ H1]%lookup_delete_Some [_ H2]%lookup_delete_Some. by eapply o_call_inj0.
  - intros k [Hk Hn]%elem_of_difference. destruct (o_call_all0 _ Hk) as (c' & y & Hy & E). exists c', y.
    split; [|done]. apply lookup_delete_Some. split; [|done]. intros ->. set_solver.
Qed.

(** A row for a file that no download has. *)
Lemma own_new_row s m i p st : own s → keys m = keys (models s) ++ [(i, p, st)] →
  i ∉ map row_id (keys (models s)) → st ∉ running →
  (∀ j k, download_paths s !! j = Some k → k ≠ pkey p) → own (with_models m s).
Proof.
  intros H Ek Hi Hst Hp. pose proof H as []. split; simpl; rewrite ?Ek; try done.
  - rewrite map_app. apply NoDup_app. split_and!; [done|set_solver|apply NoDup_singleton].
  - intros j Hj. destruct (o_task0 j Hj) as (q & A & B & C & D). exists q. split_and!; [set_solver|done|done|].
    intros k s0 [Hk|Hk%list_elem_of_singleton]%elem_of_app; [eauto|]. simplify_eq. by destruct (Hp _ _ B).
  - intros j q s0 [Hk|Hk%list_elem_of_singleton]%elem_of_app Hr; [eauto|]. by simplify_eq.
Qed.

Lemma own_import_resume s c o i now : own s → own (fst (import_resume c o i now s)).
Proof.
  intros H. unfold import_resume. destruct (imports s !! c) as [[key p n info]|] eqn:Ec; [|done].
  pose proof (own_import_done _ _ _ H Ec) as Hd. simpl in Hd. destruct o as [[digest size]|e]; [|done].
  destruct (create _ _ _ _ _ _ _ _ _ _ _ _ _ _ _) as [m [r|e]] eqn:Em.
  - apply create_keys in Em as (Ek & Hf & _). eapply own_new_row; [done|done|done|by apply ended_running; auto|].
    intros j k Hk ->. destruct (o_call _ H _ _ Ec) as [E1 E2]. simpl in E1, E2. subst key.
    by eapply (o_import _ H).
  - unfold create in Em. destruct (existsb _ _); [|done]. simplify_eq. by apply own_models.
Qed.

Lemma delete_keys i m k : k ∈ keys (fst (ModelRegistry.delete i m)) ↔ k ∈ keys m ∧ row_id k ≠ i.
Proof.
  unfold keys, ModelRegistry.delete. cbn [fst]. rewrite !list_elem_of_fmap. split.
  - intros (r & -> & [Hr Hn%bool_decide_eq_false]%Sql.elem_of_delete). eauto.
  - intros [(r & -> & Hr) Hn]. exists r. split; [done|]. apply Sql.elem_of_delete.
    split; [done|]. by apply bool_decide_eq_false.
Qed.

Lemma own_delete s i : own s → i ∉ tasks s →
  own (with_models (fst (ModelRegistry.delete i (models s))) s).
Proof.
  intros H Hi. pose proof H as []. split; simpl; try done.
  - unfold keys in *. rewrite map_map in *. by apply Sql.delete_key.
  - intros j Hj. destruct (o_task0 j Hj) as (p & A & B & C & D). exists p. split_and!; [|done|done|].
    + apply delete_keys. split; [done|]. change (j ≠ i). by intros ->.
    + intros k st [Hk _]%delete_keys. eauto.
  - intros j p st [Hk _]%delete_keys. eauto.
Qed.

Lemma own_delete_model s r u db : own s → own (fst (ModelService.delete_model cfg resolve absolute r u db s)).
Proof.
  intros H. unfold ModelService.delete_model. destruct (is_busy resolve absolute r s) eqn:Eb; [done|].
  destruct (delete_files cfg resolve r u s) as [s' ok] eqn:Ef.
  assert (∃ d, s' = with_disk d s) as [d ->].
  { unfold delete_files in Ef. exists (disk s'). repeat case_match; simplify_eq; try done;
      match goal with |- ?x = _ => by destruct x end. }
  assert (own (with_disk d s)) as Hd by (by eapply own_ext).
  destruct ok; [|done]. destruct db; [|done]. cbn [fst]. apply own_delete; [done|].
  unfold is_busy in Eb. simpl. apply orb_false_iff in Eb as [Eb _]. apply orb_false_iff in Eb as [Eb _].
  by apply bool_decide_eq_false in Eb.
Qed.

Lemma own_cancel s i : own s → own (fst (cancel i s)).
Proof.
  intros H. unfold cancel. destruct (bool_decide _) eqn:Ei; [|done].
  destruct (events s !! i) as [e|] eqn:Ee; [|done]. destruct (CancelEvent.request e) as [e' b] eqn:Er. cbn [fst].
  pose proof H as []. split; simpl; try done.
  intros j r Hr. destruct (o_event0 j r Hr) as (e0 & E0 & H1 & H2). destruct (decide (i = j)) as [->|Hn].
  - rewrite lookup_insert_eq. assert (e0 = e) as -> by congruence.
    destruct (request_ok e H1) as [H3 H4]. rewrite Er in H3, H4. simpl in H3, H4. exists e'.
    split_and!; [done|done|by rewrite H4].
  - rewrite lookup_insert_ne by done. eauto.
Qed.

Lemma own_signal s : own s → own (signal_all s).
Proof.
  intros H. pose proof H as []. split; simpl; try done.
  intros j r Hr. destruct (o_event0 j r Hr) as (e0 & E0 & H1 & H2). rewrite map_lookup_imap, E0. simpl.
  eexists. split; [done|]. destruct (request_ok e0 H1) as [H3 H4].
  case_bool_decide; split; try done. by rewrite H4.
Qed.

Lemma own_release s i : own s → runs s !! i = None → own (release i s).
Proof.
  intros H Hr.
  assert (release i s = end_run i (with_unrecorded (unrecorded s) (with_models (models s) s))) as ->
    by (unfold end_run, release, with_runs; simpl; by rewrite (delete_id (runs s)) by done).
  apply own_end; try done; [eauto|]. intros p st Hk Hst.
  pose proof (o_tracked _ H _ _ _ Hk Hst) as [Ht|Hu]%elem_of_union; [|done].
  by apply (o_dead _ H).
Qed.
Lemma own_release_done s : own s → own (release_done s).
Proof.
  intros H. unfold release_done. generalize (elements (tasks s)) as l. intros l. induction l as [|i l IH]; simpl; [done|].
  case_bool_decide as E; [done|]. apply own_release; [done|]. by apply eq_None_not_Some.
Qed.

(** The whole application: the service's invariant, one active model, and a held model for
    each load that is under way. *)
Record inv (a : app) : Prop := Inv {
  v_own : own (service a);
  v_active : one_active (models (service a)) = true;
  v_operations : ∀ i, i ∈ operations (service a) ↔ ∃ c l, loads a !! c = Some l ∧ id (l_record l) = i;
  v_load_row : ∀ c l, loads a !! c = Some l → id (l_record l) ∈ map id (models (service a));
  v_load_inj : ∀ c c' l l', loads a !! c = Some l → loads a !! c' = Some l' →
    id (l_record l) = id (l_record l') → c = c';
}.

Lemma select_update_active p f m :
  (∀ r, active (f r) = active r) → length (Sql.select active (Sql.update p f m)) = length (Sql.select active m).
Proof.
  intros H. unfold Sql.select, Sql.update. induction m as [|r m IH]; simpl; [done|].
  assert (active (if p r then f r else r) = active r) as -> by (by destruct (p r)).
  destruct (active r); simpl; by rewrite IH.
Qed.
Lemma one_active_update p f m : (∀ r, active (f r) = active r) →
  one_active (Sql.update p f m) = one_active m.
Proof. intros H. unfold one_active. by rewrite select_update_active. Qed.
Lemma one_active_clear m : one_active (clear_active m) = true.
Proof.
  unfold one_active. apply Nat.leb_le. unfold clear_active, Sql.select, Sql.update.
  assert (List.filter active (map (fun r => if active r then set_active_column false r else r) m) = []) as ->; [|simpl; lia].
  induction m as [|r m IH]; simpl; [done|]. destruct (active r) eqn:E; simpl; [by destruct r|by rewrite E].
Qed.
Lemma one_active_set now i m : one_active m = true → one_active (fst (set_active now i m)) = true.
Proof. unfold set_active. by destruct (one_active (Sql.update _ _ _)) eqn:E. Qed.
Lemma one_active_insert r m : active r = false → one_active (Sql.insert r m) = one_active m.
Proof.
  intros H. unfold one_active, Sql.insert, Sql.select. rewrite List.filter_app. simpl. by rewrite H, app_nil_r.
Qed.
Lemma one_active_delete p m : one_active m = true → one_active (Sql.delete p m) = true.
Proof.
  unfold one_active. rewrite !Nat.leb_le. intros H. etrans; [|exact H]. clear H.
  unfold Sql.select, Sql.delete. induction m as [|r m IH]; simpl; [done|].
  destruct (p r); simpl; destruct (active r); simpl; lia.
Qed.
Lemma one_active_fields now i fs m : one_active (update now i fs m) = one_active m.
Proof.
  unfold update. destruct fs; [done|]. apply one_active_update. intros r. apply set_fields_keys.
Qed.

(** Steps of the service that leave loads and operations alone: what they have to keep. *)
Record keeps (s s' : ModelService.t) : Prop := Keeps {
  k_own : own s → own s';
  k_active : one_active (models s) = true → one_active (models s') = true;
  k_operations : operations s' = operations s;
  k_rows : ∀ i, i ∈ operations s → i ∈ map id (models s) → i ∈ map id (models s');
}.
Lemma keeps_inv a s' : inv a → keeps (service a) s' → inv (with_service s' a).
Proof.
  intros [] []. split; simpl; eauto.
  - by rewrite k_operations0.
  - intros c l Hl. apply k_rows0; [|eauto]. apply v_operations0. eauto.
Qed.
Lemma keeps_refl s : keeps s s.
Proof. by split. Qed.

(** Same models, same operations. *)
Lemma keeps_same s s' : (own s → own s') → models s' = models s → operations s' = operations s → keeps s s'.
Proof. intros H Em Eo. split; rewrite ?Em; auto. Qed.

Lemma update_row_ids (p : ModelRecord → bool) f m : (∀ r, id (f r) = id r) → map id (Sql.update p f m) = map id m.
Proof. intros H. apply Sql.update_key. auto. Qed.
Lemma update_fields_ids now i fs m : map id (update now i fs m) = map id m.
Proof. unfold update. destruct fs; [done|]. apply update_row_ids. intros r. apply set_fields_keys. Qed.
Lemma create_models i now n f p st sr status ex sh sz q a c m :
  let m' := fst (create i now n f p st sr status ex sh sz q a c m) in
  one_active m' = one_active m ∧ ∀ j, j ∈ map id m → j ∈ map id m'.
Proof.
  unfold create. destruct (existsb _ m); cbn [fst]; [done|]. split; [by apply one_active_insert|].
  intros j Hj. unfold Sql.insert. rewrite map_app. set_solver.
Qed.

Lemma keeps_start s r g i now : keeps s (fst (start_download cfg resolve absolute r g i now s)).
Proof.
  split; [apply own_start|..]; unfold start_download;
    (destruct (resolve_source cfg g r) as [[[url src] base]|e]; [|done]);
    (destruct (bool_decide _); [done|]); (destruct (_ || _); [done|]); cbv zeta.
  all: match goal with |- context [create ?a ?b ?c ?d ?e ?f ?g ?h ?i ?j ?k ?l ?m ?n ?t] =>
    pose proof (create_models a b c d e f g h i j k l m n t) as [E1 E2];
    destruct (create a b c d e f g h i j k l m n t) as [m' [rec|e']] end; simpl in *; try done.
  - by rewrite E1.
  - auto.
Qed.
Lemma keeps_import_begin s c p n info : imports s !! c = None →
  keeps s (fst (import_begin resolve absolute c p n info s)).
Proof.
  intros Hc. apply keeps_same; [intros H; by apply own_import_begin|..];
    unfold import_begin; repeat case_match; done.
Qed.
Lemma keeps_import_resume s c o i now : keeps s (fst (import_resume c o i now s)).
Proof.
  split; [apply own_import_resume|..]; unfold import_resume;
    (destruct (imports s !! c) as [[key p n info]|]; [|done]); (destruct o as [[dg sz]|e]; [|done]); cbv zeta.
  all: match goal with |- context [create ?a ?b ?c ?d ?e ?f ?g ?h ?i ?j ?k ?l ?m ?n ?t] =>
    pose proof (create_models a b c d e f g h i j k l m n t) as [E1 E2];
    destruct (create a b c d e f g h i j k l m n t) as [m' [rec|e']] end; simpl in *; rewrite ?E1; auto.
Qed.
Lemma keeps_delete s r u db : keeps s (fst (ModelService.delete_model cfg resolve absolute r u db s)).
Proof.
  split; [apply own_delete_model|..]; unfold ModelService.delete_model;
    (destruct (is_busy resolve absolute r s) eqn:Eb; [done|]);
    destruct (delete_files cfg resolve r u s) as [s' ok] eqn:Ef;
    (assert (models s' = models s ∧ operations s' = operations s) as [Em Eo]
      by (unfold delete_files in Ef; repeat case_match; simplify_eq; done));
    destruct ok, db; simpl; rewrite ?Em, ?Eo; try done.
  - by apply one_active_delete.
  - intros i Hi (x & -> & Hx)%list_elem_of_fmap. apply list_elem_of_fmap_2. apply Sql.elem_of_delete.
    split; [done|]. apply bool_decide_eq_false. intros E. unfold is_busy in Eb.
    apply orb_false_iff in Eb as [[_ Eb%bool_decide_eq_false]%orb_false_iff _]. congruence.
Qed.
Lemma keeps_persist s i db now st fields (H : own s → own (end_run i (persist_terminal db now i st fields s))) :
  keeps s (end_run i (persist_terminal db now i st fields s)).
Proof.
  unfold persist_terminal in *. destruct db; [|by apply keeps_same].
  split; cbn [models end_run release with_runs with_models operations]; [done| |done|].
  - by rewrite one_active_fields.
  - intros j _. by rewrite update_fields_ids.
Qed.
Lemma keeps_fails s s' i now x db : fails i now x db s = Some s' → keeps s s'.
Proof.
  intros E. pose proof (fun H => own_fails s s' i now x db H E) as Ho. unfold fails in E.
  destruct (runs s !! i) as [r|]; [|done]. destruct (events s !! i) as [e|]; [|done]. cbn [mbind option_bind] in E.
  assert (∃ st, s' = end_run i (record_end db now i st x s)) as [st ->].
  { destruct (at_ r), x; try done; try (destruct (CancelEvent.flag e); [|done]); apply (inj Some) in E; eauto. }
  unfold record_end in *. destruct x; by apply keeps_persist.
Qed.
Lemma keeps_finalizes s s' i now info size : finalizes i now info size s = Some s' → keeps s s'.
Proof.
  intros E. pose proof (fun H => own_finalizes s s' i now info size H E) as Ho. unfold finalizes in E.
  destruct (runs s !! i) as [r|]; [|done]. cbn [mbind option_bind] in E. destruct (at_ r); [done..|].
  apply (inj Some) in E. subst s'. split; cbn [models end_run release with_runs with_models operations]; [done| |done|].
  - by rewrite one_active_fields.
  - intros j _. by rewrite update_fields_ids.
Qed.
Lemma keeps_report s i now dn total clock : keeps s (report now i dn total clock s).
Proof.
  split; [by apply own_report|..]; unfold report; (destruct (runs s !! i) as [r|]; [|done]);
    (destruct (events s !! i) as [e|]; [|done]); (destruct (CancelEvent.flag e); [done|]); cbv zeta;
    cbn [models with_runs with_models operations]; try done; unfold add_progress.
  - destruct (bool_decide _), (_ && _); rewrite ?one_active_update, ?one_active_fields; try done; intros []; done.
  - intros j _. destruct (bool_decide _), (_ && _); rewrite ?update_row_ids, ?update_fields_ids; try done; intros []; done.
Qed.

(** *** Loads *)

Lemma require_row a i r : require a i = Ok r → id r = i ∧ i ∈ map id (models (service a)).
Proof.
  unfold require. destruct (get i _) as [x|] eqn:E; intros [= <-]. apply get_keys in E as (A & B & _).
  split; [done|]. rewrite <- B. by apply list_elem_of_fmap_2.
Qed.

Lemma inv_load_begin a c obj i : inv a → loads a !! c = None →
  inv (fst (load_model_begin resolve absolute c obj i a)).
Proof.
  intros H Hc. unfold load_model_begin. destruct (allow_model_management a) eqn:Em;
    [|unfold require_management; by rewrite Em].
  unfold require_management. rewrite Em. cbn [mbind result_bind].
  destruct (require a i) as [r|e] eqn:Er; [|done]. apply require_row in Er as [<- Hrow].
  destruct (negb _); [done|]. destruct (bool_decide _); [done|].
  unfold call, operation_enter. destruct (is_busy resolve absolute r (service a)) eqn:Eb; cbn [fst].
  - destruct a; exact H.
  - unfold is_busy in Eb. apply orb_false_iff in Eb as [[_ Eb%bool_decide_eq_false]%orb_false_iff _].
    pose proof H as []. split; simpl; [by eapply own_ext|done|..].
    + intros j. rewrite elem_of_union, elem_of_singleton, v_operations0. split.
      * intros [(c' & l & Hl & E)| ->].
        -- exists c', l. rewrite lookup_insert_ne; [done|]. intros ->. congruence.
        -- exists c. rewrite lookup_insert_eq. eauto.
      * intros (c' & l & [[<- <-]|[_ Hl]]%lookup_insert_Some & E); [by right|left; eauto].
    + intros c' l [[<- <-]|[_ Hl]]%lookup_insert_Some; [done|eauto].
    + intros c1 c2 l1 l2 [[<- <-]|[N1 H1]]%lookup_insert_Some [[<- <-]|[N2 H2]]%lookup_insert_Some; simpl; try done.
      * intros E. destruct Eb. apply v_operations0. eauto.
      * intros E. destruct Eb. apply v_operations0. eauto.
      * eauto.
Qed.

Lemma inv_leave a c r obj st : inv a → loads a !! c = Some (Load r obj st) → inv (leave c r a).
Proof.
  intros H Hc. pose proof H as []. unfold leave. split; simpl; [by eapply own_ext|done|..].
  - intros j. rewrite elem_of_difference, elem_of_singleton, v_operations0. split.
    + intros [(c' & l & Hl & E) Hn]. exists c', l. split; [|done]. apply lookup_delete_Some.
      split; [|done]. intros ->. rewrite Hc in Hl. simplify_eq.
    + intros (c' & l & [Hn Hl]%lookup_delete_Some & E). split; [eauto|]. intros ->.
      apply Hn. by eapply v_load_inj0.
  - intros c' l [_ Hl]%lookup_delete_Some. eauto.
  - intros c1 c2 l1 l2 [_ H1]%lookup_delete_Some [_ H2]%lookup_delete_Some. eauto.
Qed.

(** The new stage of a load, and the other parts of [app.state]. *)
Lemma inv_backend a b : inv a → inv (with_backend b a).
Proof. intros []. by split. Qed.
Lemma inv_unloads a u : inv a → inv (with_unloads u a).
Proof. intros []. by split. Qed.
Lemma inv_stage a c r obj st st' : inv a → loads a !! c = Some (Load r obj st) →
  inv (with_loads (<[c := Load r obj st']> (loads a)) a).
Proof.
  intros [] Hc. split; simpl; [done|done|..].
  - intros i. rewrite v_operations0. split.
    + intros (c' & l & Hl & E). destruct (decide (c = c')) as [<-|Hn].
      * exists c. rewrite lookup_insert_eq. rewrite Hc in Hl. simplify_eq. eauto.
      * exists c', l. by rewrite lookup_insert_ne.
    + intros (c' & l & [[<- <-]|[_ Hl]]%lookup_insert_Some & E); eauto.
  - intros c' l [[<- <-]|[_ Hl]]%lookup_insert_Some; [apply (v_load_row0 _ _ Hc)|eauto].
  - intros c1 c2 l1 l2 [[<- <-]|[N1 H1]]%lookup_insert_Some [[<- <-]|[N2 H2]]%lookup_insert_Some; simpl; try done.
    + intros E. exact (v_load_inj0 _ _ _ _ Hc H2 E).
    + intros E. exact (v_load_inj0 _ _ _ _ H1 Hc E).
    + eauto.
Qed.

Lemma keeps_models s m : keys m = keys (models s) →
  (one_active (models s) = true → one_active m = true) → keeps s (with_models m s).
Proof.
  intros E Ha. split; simpl; [intros H; by apply own_models|done|done|]. intros i _.
  assert (∀ t, map id t = map row_id (keys t)) as Hk by (intros t; unfold keys; by rewrite map_map).
  by rewrite !Hk, E.
Qed.

Lemma inv_load_loaded a c o now x : inv a → load_model_loaded c o now a = Some x → inv (fst x).
Proof.
  intros H E. unfold load_model_loaded in E. destruct (loads a !! c) as [[r obj []]|] eqn:Ec; try done.
  destruct o; [|simplify_eq; by eapply inv_leave..].
  pose proof (set_active_row_keys now (id r) (models (service a))) as Ek.
  pose proof (one_active_set now (id r) (models (service a))) as Ea.
  cbv zeta in E. cbn [service with_backend] in E.
  destruct (set_active now (id r) (models (service a))) as [m res]. simpl in Ek, Ea.
  set (a1 := with_backend (Some (Backend obj (name r) true)) a) in *.
  set (a2 := with_service (with_models m (service a)) a1) in *.
  assert (inv a2) as H2 by (apply (keeps_inv a1); [by apply inv_backend|by apply keeps_models]).
  assert (loads a2 !! c = Some (Load r obj Loading)) as Hc2 by done.
  destruct res; [destruct (state_backend a)|]; simplify_eq; cbn [fst].
  - by eapply inv_stage.
  - by eapply inv_leave.
  - by eapply inv_leave.
Qed.

Lemma call_fst {A} failed (f : ModelService.t → ModelService.t * result service_error A) a :
  fst (call failed f a) = with_service (fst (f (service a))) a.
Proof. unfold call. by destruct (f (service a)) as [s [x|e]]. Qed.
Lemma with_service_id a : with_service (service a) a = a.
Proof. by destruct a. Qed.

Lemma inv_lift f a a' : inv a → (∀ s', f (service a) = Some s' → keeps (service a) s') →
  lift f a = Some a' → inv a'.
Proof.
  intros H Hk E. unfold lift in E. destruct (f (service a)) as [s'|]; [|done]. cbn in E. simplify_eq.
  by apply keeps_inv; [|apply Hk].
Qed.
Lemma inv_clear a : inv a → inv (with_service (with_models (clear_active (models (service a))) (service a)) a).
Proof.
  intros H. apply keeps_inv; [done|]. apply keeps_models; [apply clear_active_keys|].
  intros _. apply one_active_clear.
Qed.

(** The steps of a download's worker and of its task, on the service. *)
Lemma keeps_begins s s' i :
  (r ← runs s !! i; match at_ r with
     | Pending => Some (with_runs (<[i := Run (dest r) Download (interrupted r) (last r) (seen_total r)]> (runs s)) s)
     | _ => None end) = Some s' → keeps s s'.
Proof.
  intros Es. destruct (runs s !! i) as [r|] eqn:Er; [|done]. cbn [mbind option_bind] in Es.
  destruct (at_ r) eqn:Ea; try done. simplify_eq. apply keeps_same; [|done..]. intros Ho.
  eapply own_run_same; [done|done|done|]. rewrite Ea. simpl. split; intros [? ?]; done.
Qed.
Lemma keeps_commits s s' i d : commits i d s = Some s' → keeps s s'.
Proof.
  intros Es. apply keeps_same; [intros Ho; by eapply own_commits|..]; unfold commits in Es; destruct (runs s !! i); try done;
    destruct (events s !! i); try done; cbn [mbind option_bind] in Es; repeat case_match; by simplify_eq.
Qed.
Lemma keeps_task_cancelled s s' i : task_cancelled i s = Some s' → keeps s s'.
Proof.
  intros Es. apply keeps_same; [intros Ho; by eapply own_task_cancelled|..]; unfold task_cancelled in Es; destruct (runs s !! i); try done;
    destruct (events s !! i); try done; cbn [mbind option_bind] in Es; repeat case_match; by simplify_eq.
Qed.
Lemma keeps_release_done s : keeps s (release_done s).
Proof.
  apply keeps_same; [apply own_release_done|..]; unfold release_done; generalize (elements (tasks s)) as l; intros l;
    induction l as [|x l IH]; simpl; try done; by case_bool_decide.
Qed.

(** Every step of the system keeps the invariant. *)
Lemma models_inv_exec l a a' : inv a → exec l a = Some a' → inv a'.
Proof.
  intros H E. destruct l; simpl in E.
  - simplify_eq. unfold download_model. destruct (_ ≫= _); [|done]. rewrite call_fst.
    apply keeps_inv; [done|apply keeps_start].
  - simplify_eq. unfold cancel_download. destruct (require a model_id) as [r|]; [|done].
    destruct (negb _); [done|]. pose proof (own_cancel (service a) model_id) as Hc.
    destruct (cancel model_id (service a)) as [s b] eqn:Ec. apply keeps_inv; [done|].
    apply keeps_same; [done|..]; unfold cancel in Ec; repeat case_match; by simplify_eq.
  - unfold fresh in E. destruct (imports _ !! c) eqn:Ei; [done|]. simplify_eq. unfold import_model_begin.
    destruct (require_management a); [|done]. rewrite call_fst. by apply keeps_inv; [|apply keeps_import_begin].
  - eapply inv_lift; [done| |done]. intros s' [= <-]. apply keeps_import_resume.
  - unfold fresh in E. destruct (loads a !! c) eqn:El; [done|]. simplify_eq. by apply inv_load_begin.
  - destruct (load_model_loaded c o now a) as [x|] eqn:Ex; [|done].
    apply (inj Some) in E. subst a'. by eapply inv_load_loaded.
  - unfold load_model_end in E. destruct (loads a !! c) as [[r obj []]|] eqn:El; try done. simplify_eq.
    by eapply inv_leave.
  - simplify_eq. unfold unload_model_begin. destruct (_ ≫= _) as [r|]; [|done].
    destruct (is_loaded a r); [by apply inv_unloads|by apply inv_clear].
  - unfold unload_model_end in E. destruct (bool_decide _); [|done]. simplify_eq.
    apply (inv_clear (with_unloads _ (with_backend None a))). by apply inv_unloads, inv_backend.
  - simplify_eq. unfold delete_model. destruct (_ ≫= _) as [r|]; [|done]. destruct (is_loaded a r); [done|].
    rewrite call_fst. apply keeps_inv; [done|apply keeps_delete].
  - eapply inv_lift; [done| |done]. intros s' Es. exact (keeps_begins _ _ _ Es).
  - eapply inv_lift; [done| |done]. intros s' Es. cbv beta in Es.
    destruct (runs (service a) !! model_id) as [r|] eqn:Er; [|done]. cbn [mbind option_bind] in Es.
    destruct (at_ r); try done. simplify_eq. apply keeps_same; [|done..]. intros Ho. by eapply own_ext.
  - eapply inv_lift; [done| |done]. intros s' Es. cbv beta in Es.
    destruct (runs (service a) !! model_id) as [r|] eqn:Er; [|done]. cbn [mbind option_bind] in Es.
    destruct (at_ r); try done. simplify_eq. apply keeps_report.
  - eapply inv_lift; [done| |done]. intros s' Es. by eapply keeps_commits.
  - eapply inv_lift; [done| |done]. intros s' Es. by eapply keeps_fails.
  - eapply inv_lift; [done| |done]. intros s' Es. by eapply keeps_finalizes.
  - eapply inv_lift; [done| |done]. intros s' Es. by eapply keeps_task_cancelled.
  - eapply inv_lift; [done| |done]. intros s' [= <-]. apply keeps_same; [apply own_signal|done..].
  - eapply inv_lift; [done| |done]. intros s' [= <-]. apply keeps_release_done.
  - simplify_eq. by apply inv_backend.
  - eapply inv_lift; [done| |done]. intros s' [= <-]. apply keeps_same; [|done..]. intros Ho. by eapply own_ext.
Qed.

(** The engine at startup: recovery, then the configured model, if there is one. *)
Record configured := Configured {
  c_path : string; c_name : Gguf.text; c_info : Gguf.GgufInfo; c_size : Z; c_id : string; c_now : string }.
Definition startup (m : table) (d : gset string) (now : string) (x : option configured) : ModelService.t :=
  match x with
  | None => boot m d now
  | Some x => fst (register_configured (c_path x) (c_name x) (c_info x) (c_size x) (c_id x) (c_now x) (boot m d now))
  end.
Definition started (a : app) : Prop := ∃ m d now x,
  NoDup (map id m) ∧ one_active m = true ∧ service a = startup m d now x ∧ loads a = ∅ ∧ unloads a = ∅.

Lemma boot_active m d now : one_active m = true → one_active (models (boot m d now)) = true.
Proof.
  intros H. unfold boot. destruct (reconcile_spec now (empty_service m d)) as [-> _]. simpl.
  change (one_active (Sql.update (orphan ∅) (mark now) m) = true). rewrite one_active_update; [done|]. by intros [].
Qed.
Lemma keeps_register s p n info sz i now : download_paths s = ∅ →
  keeps s (fst (register_configured p n info sz i now s)).
Proof.
  intros Hd. unfold register_configured. destruct (negb _); [apply keeps_refl|].
  destruct (find_by_path p (models s)); [apply keeps_refl|].
  destruct (create _ _ _ _ _ _ _ _ _ _ _ _ _ _ (models s)) as [m [r|e]] eqn:Ec; [|apply keeps_refl].
  match type of Ec with create ?a ?b ?c ?d ?e ?f ?g ?h ?i ?j ?k ?l ?m ?n ?t = _ =>
    pose proof (create_models a b c d e f g h i j k l m n t) as [E1 E2] end.
  rewrite Ec in E1, E2. cbn [fst] in E1, E2. apply create_keys in Ec as (Ek & Hf & Hid & _). subst i.
  assert (keeps s (with_models m s)) as K1.
  { split; simpl; [intros H|by rewrite E1|done|auto].
    eapply own_new_row; [done|done|done|by apply ended_running; auto|]. by rewrite Hd. }
  pose proof (set_active_row_keys now (id r) m) as Ka. pose proof (one_active_set now (id r) m) as Kb.
  assert (keeps s (with_models (fst (set_active now (id r) m)) s)) as K2.
  { pose proof (keeps_models (with_models m s) (fst (set_active now (id r) m)) Ka Kb) as [].
    destruct K1. split; simpl in *; eauto. }
  by destruct (set_active now (id r) m) as [m' [u|e]].
Qed.
Lemma inv_started a : started a → inv a.
Proof.
  intros (m & d & now & x & Hn & Ha & Es & El & Eu).
  assert (own (service a) ∧ one_active (models (service a)) = true ∧ operations (service a) = ∅) as (H1 & H2 & H3).
  { pose proof (own_boot m d now Hn) as Ho. pose proof (boot_active m d now Ha) as Hb.
    assert (operations (boot m d now) = ∅ ∧ download_paths (boot m d now) = ∅) as [Hop Hdp]
      by (unfold boot; by destruct (reconcile_spec now (empty_service m d)) as [-> _]).
    rewrite Es. unfold startup. destruct x as [x|]; [|done].
    destruct (keeps_register (boot m d now) (c_path x) (c_name x) (c_info x) (c_size x) (c_id x) (c_now x) Hdp) as [].
    split_and!; [auto|auto|by rewrite k_operations0]. }
  split; rewrite ?El, ?H3; try done.
  intros i. split; [set_solver|]. by intros (c & l & ?%lookup_empty_Some & _).
Qed.
Lemma models_inv_reachable a0 a : started a0 → reachable a0 a → inv a.
Proof. intros H0. induction 1 as [|l a a' _ IH E]; [by apply inv_started|]. by eapply models_inv_exec. Qed.

(** *** What the service promises *)

(** Recovery after a crash: exactly the rows that were left in a running state and that the
    service does not own become errors with the fixed message; every other row and everything
    else is untouched; and a second recovery changes nothing. *)
Theorem reconcile_exact now s :
  let s' := fst (reconcile_interrupted now s) in
  s' = with_models (map (fun r => if orphan (tasks s) r then mark now r else r) (models s)) s ∧
  (∀ now', reconcile_interrupted now' s' = (s', 0%nat)).
Proof. apply reconcile_spec. Qed.

(** The files a delete can remove. *)
Lemma delete_disk s r u db q :
  q ∈ disk s → q ∉ disk (fst (ModelService.delete_model cfg resolve absolute r u db s)) →
  is_busy resolve absolute r s = false ∧ (q = path r ∨ q = Paths.part (path r)).
Proof.
  intros Hq. unfold ModelService.delete_model. destruct (is_busy _ _ _ _); [done|]. intros Hn. split; [done|].
  destruct (delete_files cfg resolve r u s) as [s' ok] eqn:Ef. unfold delete_files in Ef.
  destruct (decide (q = path r)) as [|H1]; [by left|]. destruct (decide (q = Paths.part (path r))) as [|H2]; [by right|].
  exfalso. apply Hn. destruct ok, db; simpl; repeat case_match; simplify_eq; simpl; set_solver.
Qed.

Lemma part_inj p q : Paths.part p = Paths.part q → p = q.
Proof.
  unfold Paths.part. revert q. induction p as [|c p IH]; intros q; destruct q as [|c' q]; try done.
  - destruct q as [|? [|? [|? [|? [|? ?]]]]]; discriminate.
  - destruct p as [|? [|? [|? [|? [|? ?]]]]]; discriminate.
  - intros [= -> E]. by rewrite (IH q E).
Qed.


(** C18. The registry tells the truth: a row says "downloading" or "verifying" only while the
    service owns that download, unless the store refused the write of its end or its task
    was cancelled before it ran; at most one model is active; a model is held exactly while
    a load of it is under way, and its row cannot go away meanwhile.  When the shutdown's
    loop ends (nothing is tracked) no coroutine is left that could touch a file. *)
Theorem registry_truthful a0 a :
  started a0 → reachable a0 a →
  let s := service a in
  (∀ row, row ∈ models s → status row ∈ running → id row ∈ tasks s ∨ id row ∈ unrecorded s) ∧
  (length (Sql.select active (models s)) <= 1)%nat ∧
  (∀ i, i ∈ operations s ↔ ∃ c l, loads a !! c = Some l ∧ id (l_record l) = i) ∧
  (∀ i, i ∈ operations s → is_Some (get i (models s))) ∧
  (owns_work s = false → runs s = ∅).
Proof.
  intros H0 Hr s. pose proof (models_inv_reachable _ _ H0 Hr) as [Ho Ha Hop Hrow _]. fold s in Ho, Ha, Hop, Hrow.
  split_and!.
  - intros row Hin Hst. apply elem_of_union. eapply (o_tracked _ Ho); [|done].
    by apply (list_elem_of_fmap_2 key_of).
  - by apply Nat.leb_le in Ha.
  - done.
  - intros i (c & l & Hl & <-)%Hop. apply Hrow in Hl. apply list_elem_of_fmap in Hl as (x & E & Hx).
    destruct (get (id (l_record l)) (models s)) eqn:Eg; [done|].
    pose proof (Sql.fetchone_None _ _ _ Eg Hx) as Hf. apply bool_decide_eq_false in Hf. congruence.
  - intros Hw. unfold owns_work in Hw. apply negb_false_iff, bool_decide_eq_true in Hw.
    apply map_empty. intros i. destruct (runs s !! i) as [r|] eqn:E; [|done].
    apply (o_runs _ Ho) in E. set_solver.
Qed.

End System.

(** ** Histories *)

Definition demo_cfg : config := Config "/m" "https://hub".
Definition demo_exec : label → app → option app := exec demo_cfg Some Datatypes.id.
Fixpoint demo_run (ls : list label) (a : app) : option app :=
  match ls with [] => Some a | l :: ls => demo_exec l a ≫= demo_run ls end.
Definition demo_app (d : gset string) : app := App (boot [] d "t0") None ∅ ∅ true true [].
Definition demo_info : Gguf.GgufInfo := Gguf.Info true None None None None.
Definition demo_request (f : string) : request :=
  Request "url" None None (Some f) "main" (Some "https://h/x") None.

Lemma demo_started d : started (demo_app d).
Proof. exists [], d, "t0", None. split_and!; try done. constructor. Qed.
Lemma demo_models_reachable ls d a : demo_run ls (demo_app d) = Some a → reachable demo_cfg Some Datatypes.id (demo_app d) a.
Proof.
  intros E. assert (∀ a1, reachable demo_cfg Some Datatypes.id (demo_app d) a1 → demo_run ls a1 = Some a →
    reachable demo_cfg Some Datatypes.id (demo_app d) a) as H.
  { clear E. induction ls as [|l ls IH]; intros a1 H1 E; simpl in E; [by simplify_eq|].
    destruct (demo_exec l a1) as [a2|] eqn:E2; [|done]. eapply IH; [|done]. by eapply reach_step. }
  eapply H; [constructor|done].
Qed.

Definition demo_downloading : app := Eval vm_compute in
  default (demo_app ∅) (demo_run [DownloadModel (demo_request "a") "u" "1" "t1"; Begins "1"; PartFile "1" true] (demo_app ∅)).
Lemma demo_downloading_reachable : reachable demo_cfg Some Datatypes.id (demo_app ∅) demo_downloading.
Proof.
  apply (demo_models_reachable [DownloadModel (demo_request "a") "u" "1" "t1"; Begins "1"; PartFile "1" true]).
  vm_compute. reflexivity.
Qed.


Lemma registry_truthful_witness :
  ∃ row, get "1" (models (service demo_downloading)) = Some row ∧
    (id row ∈ tasks (service demo_downloading) ∨ id row ∈ unrecorded (service demo_downloading)).
Proof.
  destruct (registry_truthful demo_cfg Some Datatypes.id (demo_app ∅) demo_downloading) as [H _].
  - apply demo_started.
  - apply demo_downloading_reachable.
  - eexists. split; [vm_compute; reflexivity|]. apply H; vm_compute; left.
Defined.

(** A second row for the same file: deleting it removes the file while the first model is
    being loaded. *)
Lemma alias_delete_during_load :
  ∃ a, demo_run
    [ImportBegin 0 "/m/x.gguf" None demo_info; ImportResume 0 (Ok ("d", 5)) "1" "t1";
     ImportBegin 1 "/m/x.gguf" None demo_info; ImportResume 1 (Ok ("d", 5)) "2" "t2";
     LoadBegin 0 7 "1"; DeleteModel "2" (true, true) true] (demo_app {["/m/x.gguf"]}) = Some a
  ∧ (∃ l, loads a !! 0%nat = Some l ∧ path (l_record l) = "/m/x.gguf" ∧ l_stage l = Loading)
  ∧ "/m/x.gguf" ∉ disk (service a).
Proof.
  eexists. split_and!; [vm_compute; reflexivity|eexists; split_and!; vm_compute; reflexivity|].
  apply (bool_decide_unpack _). vm_compute. exact I.
Qed.

(** The partial file of a running download can be imported, and deleting that import takes it
    away from the download. *)
Lemma part_import_breaks_download :
  ∃ a, demo_run
    [DownloadModel (demo_request "a") "u" "1" "t1"; Begins "1"; PartFile "1" true;
     ImportBegin 0 "/m/a.gguf.part" None demo_info; ImportResume 0 (Ok ("d", 5)) "2" "t2";
     DeleteModel "2" (true, true) true] (demo_app ∅) = Some a
  ∧ is_Some (runs (service a) !! "1") ∧ "/m/a.gguf.part" ∉ disk (service a).
Proof.
  eexists. split_and!; [vm_compute; reflexivity|vm_compute; eexists; reflexivity|].
  apply (bool_decide_unpack _). vm_compute. exact I.
Qed.

(** An unload that waits while another model is loaded: when it resumes it drops the new
    backend, although the load has answered that the model is loaded. *)
Lemma unload_drops_new_backend :
  ∃ a a', demo_run
    [ImportBegin 0 "/m/x.gguf" None demo_info; ImportResume 0 (Ok ("d", 5)) "1" "t1";
     ImportBegin 1 "/m/y.gguf" None demo_info; ImportResume 1 (Ok ("e", 5)) "2" "t2";
     LoadBegin 0 7 "1"; LoadLoaded 0 Loaded "t3"; UnloadBegin 0 "1";
     LoadBegin 1 8 "2"; LoadLoaded 1 Loaded "t4"; LoadEnd 1] (demo_app {["/m/x.gguf"; "/m/y.gguf"]}) = Some a
  ∧ b_obj <$> state_backend a = Some 8%nat
  ∧ demo_exec (UnloadEnd 0) a = Some a' ∧ state_backend a' = None ∧ get_active (models (service a')) = None.
Proof. do 2 eexists. split_and!; vm_compute; reflexivity. Qed.

End ModelSystem.
