(* ===== verification/Config.v ===== *)
(** * Settings and the pool they describe ([engine/config.py], pool of [engine/main.py])

    [Module Config] has the settings as pydantic validates them: the specifications of
    remote workers, virtual models and workload rules, the fields with their defaults and
    bounds, the validators in the order they run, and [load_config] with its layers.
    [Module Startup] builds the backend pool and the router from accepted settings, the way
    [create_app] does, and shows what acceptance guarantees about every later placement.
    Error messages are kept as constructors. *)

From S2P Require Import Prelude Crypto Text Placement Routing Store Keys Gateway Backends Net Models.

Open Scope Z_scope.

Module Config.

(** ** Specifications *)

Inductive worker_kind := remote_vllm | remote_sglang.
Definition worker_kind_str (k : worker_kind) : string :=
  match k with remote_vllm => "remote_vllm" | remote_sglang => "remote_sglang" end.

Record RemoteWorkerSpec := Worker {
  w_name : string;
  w_kind : worker_kind;
  w_base_url : string;
  w_model : string;
  w_model_id : option string;
  w_api_key : option string;
  w_connect_timeout_s : Q;
  w_read_timeout_s : Q;
  w_max_prestream_retries : Z;
  w_context_length : option Z;
  w_tls_verify : bool;
  w_max_in_flight : Z;
  w_prefix_cache : bool;
  w_kv_metrics : bool;
  w_cost_per_1k_input : Q;
  w_cost_per_1k_output : Q
}.
Definition betweenQ (lo hi x : Q) : bool := Qle_bool lo x && Qle_bool x hi.
Definition betweenZ (lo hi x : Z) : bool := (lo <=? x) && (x <=? hi).
Definition opt_ok {A} (p : A → bool) (o : option A) : bool := match o with Some x => p x | None => true end.
Definition worker_ok (w : RemoteWorkerSpec) : bool :=
  betweenQ (1#10) 600 (w_connect_timeout_s w) && betweenQ (1#10) 3600 (w_read_timeout_s w)
  && betweenZ 0 10 (w_max_prestream_retries w) && opt_ok (betweenZ 8 1048576) (w_context_length w)
  && betweenZ 1 4096 (w_max_in_flight w)
  && Qle_bool 0 (w_cost_per_1k_input w) && Qle_bool 0 (w_cost_per_1k_output w).
(** [effective_model_id] *)
Definition effective_model_id (w : RemoteWorkerSpec) : string :=
  match w_model_id w with Some m => if str_true m then m else "local-model" | None => "local-model" end.

Inductive policy := route | cascade.
Record VirtualModelSpec := Virtual {
  v_name : string;
  v_policy : policy;
  v_backends : list string;
  v_steps : list (list string)
}.
(** [_check_policy]; [false] when it raises. *)
Definition is_nil {A} (l : list A) : bool := match l with [] => true | _ => false end.
Definition check_policy (v : VirtualModelSpec) : bool :=
  match v_policy v with
  | route => negb (is_nil (v_backends v)) && is_nil (v_steps v)
  | cascade => negb (is_nil (v_steps v)) && forallb (fun g => negb (is_nil g)) (v_steps v) && is_nil (v_backends v)
  end.
Definition normalized_steps (v : VirtualModelSpec) : list (list string) :=
  match v_policy v with route => [v_backends v] | cascade => v_steps v end.

Record WorkloadRoutingRuleSpec := Rule {
  r_name : string;
  r_kind : string;
  r_model : string;
  r_preferred_backends : list string;
  r_enabled : bool
}.
(** [_validate_shape] *)
Definition blank (s : string) : bool := negb (str_true (Text.strip s)).
Definition validate_shape (r : WorkloadRoutingRuleSpec) : bool :=
  negb (blank (r_name r)) && negb (blank (r_model r))
  && negb (is_nil (r_preferred_backends r)) && forallb (fun n => negb (blank n)) (r_preferred_backends r)
  && bool_decide (NoDup (r_preferred_backends r))
  && bool_decide (r_kind r = "structured_output_preference").

(** ** Settings *)

Inductive backend_kind_t := llamacpp | primary_vllm | primary_sglang.
Definition kind_str (k : backend_kind_t) : string :=
  match k with llamacpp => "llamacpp" | primary_vllm => "remote_vllm" | primary_sglang => "remote_sglang" end.
Inductive log_level_t := CRITICAL | ERROR | WARNING | INFO | DEBUG.

Record Settings := Mk {
  host : string; port : Z; allow_network_bind : bool; allow_insecure_bind : bool;
  grpc_enabled : bool; grpc_host : string; grpc_port : Z;
  grpc_tls_cert : option string; grpc_tls_key : option string;
  require_auth : option bool;
  max_request_bytes : Z; rate_limit_per_min : Z; max_concurrent_per_key : Z;
  max_concurrency : Z; max_concurrency_queue : Z; concurrency_queue_timeout_s : Q;
  require_model_ready : bool; drain_timeout_s : Q;
  ip_allowlist : list string; trust_forwarded_for : bool;
  allow_network_downloads : bool; allow_model_management : bool;
  allow_structured_output : bool; diagnostics_enabled : bool;
  quota_5h_cu : Q; quota_weekly_cu : Q; cu_prompt_weight : Q; cu_completion_weight : Q;
  billing_provider : option string; stripe_webhook_secret : option string;
  stripe_signature_tolerance_s : Z; default_plan : option string;
  webhooks_enabled : bool; webhook_max_attempts : Z; webhook_backoff_schedule_s : list Q;
  webhook_poll_interval_s : Q; webhook_delivery_timeout_s : Q;
  webhook_signing_rotation_grace_s : Q; webhook_usage_threshold_pct : Q;
  client_events_enabled : bool; client_sse_heartbeat_s : Q;
  client_events_retention_max_age_s : Q; client_events_retention_max_per_client : Z;
  client_cors_origins : list string;
  log_level : log_level_t;
  metrics_interval_s : Q; event_history_size : Z; event_subscriber_queue : Z;
  log_ring_size : Z; log_events_max_rows : Z;
  backend_kind : backend_kind_t; allow_remote_backends : bool;
  remote_base_url : option string; remote_model : option string; remote_api_key : option string;
  remote_connect_timeout_s : Q; remote_read_timeout_s : Q; remote_max_prestream_retries : Z;
  remote_context_length : option Z; remote_tls_verify : bool;
  remote_prefix_cache : bool; remote_kv_metrics : bool;
  remote_workers : list RemoteWorkerSpec;
  virtual_models : list VirtualModelSpec;
  workload_routing_enabled : bool; workload_routing_rules : list WorkloadRoutingRuleSpec;
  allow_external_providers : bool; egress_allowlist : list string;
  external_providers : list RemoteWorkerSpec;
  primary_max_in_flight : Z; backend_health_interval_s : Q; prefix_affinity_chars : Z;
  primary_cost_per_1k_input : Q; primary_cost_per_1k_output : Q;
  model_path : option string; model_id : string;
  n_ctx : Z; n_threads : option Z; n_gpu_layers : Z;
  models_dir : option string; hf_endpoint : string; download_chunk_bytes : Z; max_model_bytes : Z;
  data_dir : string; db_path : option string; log_dir : option string; config_file : option string
}.

(** The defaults; [user_data] is [default_data_dir()]. *)
Definition defaults (user_data : string) : Settings := {|
  host := "127.0.0.1"; port := 8000; allow_network_bind := false; allow_insecure_bind := false;
  grpc_enabled := false; grpc_host := "127.0.0.1"; grpc_port := 50051;
  grpc_tls_cert := None; grpc_tls_key := None;
  require_auth := None;
  max_request_bytes := 2000000; rate_limit_per_min := 120; max_concurrent_per_key := 8;
  max_concurrency := 1; max_concurrency_queue := 32; concurrency_queue_timeout_s := 30;
  require_model_ready := false; drain_timeout_s := 30;
  ip_allowlist := []; trust_forwarded_for := false;
  allow_network_downloads := true; allow_model_management := true;
  allow_structured_output := true; diagnostics_enabled := true;
  quota_5h_cu := 1000000; quota_weekly_cu := 5000000; cu_prompt_weight := 1; cu_completion_weight := 1;
  billing_provider := None; stripe_webhook_secret := None;
  stripe_signature_tolerance_s := 300; default_plan := None;
  webhooks_enabled := false; webhook_max_attempts := 5; webhook_backoff_schedule_s := [30; 120; 600; 1800]%Q;
  webhook_poll_interval_s := 5; webhook_delivery_timeout_s := 10;
  webhook_signing_rotation_grace_s := 86400; webhook_usage_threshold_pct := 0;
  client_events_enabled := false; client_sse_heartbeat_s := 15;
  client_events_retention_max_age_s := 2592000; client_events_retention_max_per_client := 1000;
  client_cors_origins := [];
  log_level := INFO;
  metrics_interval_s := 1; event_history_size := 200; event_subscriber_queue := 500;
  log_ring_size := 500; log_events_max_rows := 2000;
  backend_kind := llamacpp; allow_remote_backends := true;
  remote_base_url := None; remote_model := None; remote_api_key := None;
  remote_connect_timeout_s := 10; remote_read_timeout_s := 60; remote_max_prestream_retries := 1;
  remote_context_length := None; remote_tls_verify := true;
  remote_prefix_cache := true; remote_kv_metrics := true;
  remote_workers := []; virtual_models := [];
  workload_routing_enabled := false; workload_routing_rules := [];
  allow_external_providers := false; egress_allowlist := []; external_providers := [];
  primary_max_in_flight := 1; backend_health_interval_s := 10; prefix_affinity_chars := 0;
  primary_cost_per_1k_input := 0; primary_cost_per_1k_output := 0;
  model_path := None; model_id := "local-model";
  n_ctx := 4096; n_threads := None; n_gpu_layers := 0;
  models_dir := None; hf_endpoint := "https://huggingface.co"; download_chunk_bytes := 1048576; max_model_bytes := 0;
  data_dir := user_data; db_path := None; log_dir := None; config_file := None
|}.

(** The bounds of the fields ([Field(ge=.., le=..)]) and the validators of the lists' items. *)
Definition fields_ok (s : Settings) : bool :=
  betweenZ 1 65535 (port s) && betweenZ 0 65535 (grpc_port s)
  && (0 <=? max_request_bytes s) && (0 <=? rate_limit_per_min s) && (0 <=? max_concurrent_per_key s)
  && betweenZ 1 1024 (max_concurrency s) && betweenZ 0 100000 (max_concurrency_queue s)
  && betweenQ 0 3600 (concurrency_queue_timeout_s s) && betweenQ 0 600 (drain_timeout_s s)
  && Qle_bool 0 (quota_5h_cu s) && Qle_bool 0 (quota_weekly_cu s)
  && Qle_bool 0 (cu_prompt_weight s) && Qle_bool 0 (cu_completion_weight s)
  && betweenZ 0 86400 (stripe_signature_tolerance_s s)
  && betweenZ 1 20 (webhook_max_attempts s) && betweenQ (1#10) 3600 (webhook_poll_interval_s s)
  && betweenQ (1#10) 300 (webhook_delivery_timeout_s s) && betweenQ 0 2592000 (webhook_signing_rotation_grace_s s)
  && betweenQ 0 1 (webhook_usage_threshold_pct s)
  && betweenQ 1 300 (client_sse_heartbeat_s s) && Qle_bool 0 (client_events_retention_max_age_s s)
  && (0 <=? client_events_retention_max_per_client s)
  && betweenQ 0 60 (metrics_interval_s s) && betweenZ 0 10000 (event_history_size s)
  && betweenZ 1 100000 (event_subscriber_queue s) && betweenZ 0 100000 (log_ring_size s)
  && betweenZ 0 1000000 (log_events_max_rows s)
  && betweenQ (1#10) 600 (remote_connect_timeout_s s) && betweenQ (1#10) 3600 (remote_read_timeout_s s)
  && betweenZ 0 10 (remote_max_prestream_retries s) && opt_ok (betweenZ 8 1048576) (remote_context_length s)
  && forallb worker_ok (remote_workers s) && forallb worker_ok (external_providers s)
  && forallb check_policy (virtual_models s) && forallb validate_shape (workload_routing_rules s)
  && betweenZ 1 4096 (primary_max_in_flight s) && betweenQ 0 3600 (backend_health_interval_s s)
  && betweenZ 0 100000 (prefix_affinity_chars s)
  && Qle_bool 0 (primary_cost_per_1k_input s) && Qle_bool 0 (primary_cost_per_1k_output s)
  && betweenZ 8 1048576 (n_ctx s) && opt_ok (Z.leb 1) (n_threads s) && (0 <=? n_gpu_layers s)
  && (8192 <=? download_chunk_bytes s) && (0 <=? max_model_bytes s).

(** The assignments to the path fields. *)
Definition with_paths (db log models cfg : option string) (s : Settings) : Settings := {|
  host := host s; port := port s; allow_network_bind := allow_network_bind s;
  allow_insecure_bind := allow_insecure_bind s; grpc_enabled := grpc_enabled s; grpc_host := grpc_host s;
  grpc_port := grpc_port s; grpc_tls_cert := grpc_tls_cert s; grpc_tls_key := grpc_tls_key s;
  require_auth := require_auth s; max_request_bytes := max_request_bytes s;
  rate_limit_per_min := rate_limit_per_min s; max_concurrent_per_key := max_concurrent_per_key s;
  max_concurrency := max_concurrency s; max_concurrency_queue := max_concurrency_queue s;
  concurrency_queue_timeout_s := concurrency_queue_timeout_s s; require_model_ready := require_model_ready s;
  drain_timeout_s := drain_timeout_s s; ip_allowlist := ip_allowlist s;
  trust_forwarded_for := trust_forwarded_for s; allow_network_downloads := allow_network_downloads s;
  allow_model_management := allow_model_management s; allow_structured_output := allow_structured_output s;
  diagnostics_enabled := diagnostics_enabled s; quota_5h_cu := quota_5h_cu s;
  quota_weekly_cu := quota_weekly_cu s; cu_prompt_weight := cu_prompt_weight s;
  cu_completion_weight := cu_completion_weight s; billing_provider := billing_provider s;
  stripe_webhook_secret := stripe_webhook_secret s;
  stripe_signature_tolerance_s := stripe_signature_tolerance_s s; default_plan := default_plan s;
  webhooks_enabled := webhooks_enabled s; webhook_max_attempts := webhook_max_attempts s;
  webhook_backoff_schedule_s := webhook_backoff_schedule_s s;
  webhook_poll_interval_s := webhook_poll_interval_s s;
  webhook_delivery_timeout_s := webhook_delivery_timeout_s s;
  webhook_signing_rotation_grace_s := webhook_signing_rotation_grace_s s;
  webhook_usage_threshold_pct := webhook_usage_threshold_pct s;
  client_events_enabled := client_events_enabled s; client_sse_heartbeat_s := client_sse_heartbeat_s s;
  client_events_retention_max_age_s := client_events_retention_max_age_s s;
  client_events_retention_max_per_client := client_events_retention_max_per_client s;
  client_cors_origins := client_cors_origins s; log_level := log_level s;
  metrics_interval_s := metrics_interval_s s; event_history_size := event_history_size s;
  event_subscriber_queue := event_subscriber_queue s; log_ring_size := log_ring_size s;
  log_events_max_rows := log_events_max_rows s; backend_kind := backend_kind s;
  allow_remote_backends := allow_remote_backends s; remote_base_url := remote_base_url s;
  remote_model := remote_model s; remote_api_key := remote_api_key s;
  remote_connect_timeout_s := remote_connect_timeout_s s; remote_read_timeout_s := remote_read_timeout_s s;
  remote_max_prestream_retries := remote_max_prestream_retries s;
  remote_context_length := remote_context_length s; remote_tls_verify := remote_tls_verify s;
  remote_prefix_cache := remote_prefix_cache s; remote_kv_metrics := remote_kv_metrics s;
  remote_workers := remote_workers s; virtual_models := virtual_models s;
  workload_routing_enabled := workload_routing_enabled s; workload_routing_rules := workload_routing_rules s;
  allow_external_providers := allow_external_providers s; egress_allowlist := egress_allowlist s;
  external_providers := external_providers s; primary_max_in_flight := primary_max_in_flight s;
  backend_health_interval_s := backend_health_interval_s s; prefix_affinity_chars := prefix_affinity_chars s;
  primary_cost_per_1k_input := primary_cost_per_1k_input s;
  primary_cost_per_1k_output := primary_cost_per_1k_output s; model_path := model_path s;
  model_id := model_id s; n_ctx := n_ctx s; n_threads := n_threads s; n_gpu_layers := n_gpu_layers s;
  models_dir := models; hf_endpoint := hf_endpoint s; download_chunk_bytes := download_chunk_bytes s;
  max_model_bytes := max_model_bytes s; data_dir := data_dir s; db_path := db; log_dir := log;
  config_file := cfg
|}.

(** ** Validators *)

(** Why settings are refused; the messages are not modelled. *)
Inductive config_error :=
| Field_bounds
| Invalid_allowlist_entry (cidr : string)
| Bind_without_choice | Bind_without_auth
| Remote_missing (names : list string)
| External_not_allowed | Egress_allowlist_empty | Egress_not_listed (name : string) (host : option string)
| Duplicate_backends (names : list string) | Virtual_shadows (names : list string)
| Duplicate_rules (names : list string) | Rule_model (name : string) | Rule_backends (name : string) (unknown : list string)
| Grpc_tls_pair | Grpc_bind
| Config_file_missing (path : string)
| Unknown_virtual_backends (name : string) (unknown : list string).

Definition loopback : list string := ["127.0.0.1"; "::1"; "localhost"].
Definition is_loopback_host (s : Settings) : bool := bool_decide (host s ∈ loopback).
Definition effective_require_auth (s : Settings) : bool :=
  match require_auth s with Some b => b | None => negb (is_loopback_host s) end.

(** [_validate_ip_allowlist] *)
Definition validate_ip_allowlist (s : Settings) : result config_error Settings :=
  match find (fun c => negb (bool_decide (is_Some (Ip.ip_network c)))) (ip_allowlist s) with
  | Some c => Err (Invalid_allowlist_entry c)
  | None => Ok s
  end.
(** [_derive_paths] *)
Definition derive_paths (s : Settings) : Settings :=
  with_paths (Some (default (Paths.join (data_dir s) "inference_engine.db") (db_path s)))
             (Some (default (Paths.join (data_dir s) "logs") (log_dir s)))
             (Some (default (Paths.join (data_dir s) "models") (models_dir s))) (config_file s) s.
(** [_validate_binding] *)
Definition validate_binding (s : Settings) : result config_error Settings :=
  if is_loopback_host s then Ok s
  else if negb (allow_network_bind s) then Err Bind_without_choice
  else if negb (effective_require_auth s) && negb (allow_insecure_bind s) then Err Bind_without_auth
  else Ok s.
(** [_validate_remote_backend] *)
Definition validate_remote_backend (s : Settings) : result config_error Settings :=
  if Text.startswith "remote_" (kind_str (backend_kind s)) then
    let missing := map fst (List.filter (fun nv => negb (ostr_true (snd nv)))
                     [("remote_base_url", remote_base_url s); ("remote_model", remote_model s)]) in
    match missing with [] => Ok s | _ => Err (Remote_missing missing) end
  else Ok s.

Section Validators.
Context (netloc_ok : string → bool).

(** [_validate_external_providers] *)
Definition egress_ok (allowlist : list string) (w : RemoteWorkerSpec) : bool :=
  match Url.url_host netloc_ok (w_base_url w) with
  | Some h => Url.host_allowed h allowlist
  | None => false
  end.
Definition validate_external_providers (s : Settings) : result config_error Settings :=
  match external_providers s with
  | [] => Ok s
  | provs =>
      if negb (allow_external_providers s) then Err External_not_allowed
      else match egress_allowlist s with
           | [] => Err Egress_allowlist_empty
           | allowlist =>
               match find (fun w => negb (egress_ok allowlist w)) provs with
               | Some w => Err (Egress_not_listed (w_name w) (Url.url_host netloc_ok (w_base_url w)))
               | None => Ok s
               end
           end
  end.

(** [sorted({n for n in names if names.count(n) > 1})] *)
Definition duplicates (names : list string) : list string :=
  sort_str (remove_dups (List.filter (fun n => (1 <? length (List.filter (fun m => bool_decide (m = n)) names))%nat) names)).
Definition backend_names (s : Settings) : list string :=
  "primary" :: map w_name (remote_workers s) ++ map w_name (external_providers s).
Definition physical_models (s : Settings) : list string :=
  model_id s :: map effective_model_id (remote_workers s) ++ map effective_model_id (external_providers s).
(** [_validate_pool_names] *)
Definition validate_pool_names (s : Settings) : result config_error Settings :=
  match duplicates (backend_names s) with
  | _ :: _ as d => Err (Duplicate_backends d)
  | [] =>
      match sort_str (List.filter (fun n => bool_decide (n ∈ physical_models s)) (map v_name (virtual_models s))) with
      | _ :: _ as c => Err (Virtual_shadows c)
      | [] => Ok s
      end
  end.

(** [_validate_workload_routing_rules] *)
Definition primary_backends (s : Settings) : list string := "primary" :: map w_name (remote_workers s).
Definition unknown_backends (known names : list string) : list string :=
  sort_str (remove_dups (List.filter (fun n => negb (bool_decide (n ∈ known))) names)).
Fixpoint check_rules (s : Settings) (rules : list WorkloadRoutingRuleSpec) : result config_error Settings :=
  match rules with
  | [] => Ok s
  | r :: rest =>
      if negb (r_enabled r) then check_rules s rest
      else if bool_decide (r_model r ∈ map v_name (virtual_models s))
              || negb (bool_decide (r_model r ∈ physical_models s)) then Err (Rule_model (r_name r))
      else match unknown_backends (primary_backends s) (r_preferred_backends r) with
           | _ :: _ as u => Err (Rule_backends (r_name r) u)
           | [] => check_rules s rest
           end
  end.
Definition validate_workload_routing_rules (s : Settings) : result config_error Settings :=
  match duplicates (map r_name (workload_routing_rules s)) with
  | _ :: _ as d => Err (Duplicate_rules d)
  | [] => check_rules s (workload_routing_rules s)
  end.

(** [_validate_grpc] *)
Definition validate_grpc (s : Settings) : result config_error Settings :=
  if negb (grpc_enabled s) then Ok s
  else if xorb (bool_decide (grpc_tls_cert s = None)) (bool_decide (grpc_tls_key s = None)) then Err Grpc_tls_pair
  else if negb (bool_decide (grpc_host s ∈ loopback)) && negb (allow_network_bind s) then Err Grpc_bind
  else Ok s.

(** [Settings(..)]: the fields, then the model validators in the order they are defined. *)
Definition validate (s : Settings) : result config_error Settings :=
  if negb (fields_ok s) then Err Field_bounds
  else
    s ← validate_ip_allowlist s;
    s ← validate_binding (derive_paths s);
    s ← validate_remote_backend s;
    s ← validate_external_providers s;
    s ← validate_pool_names s;
    s ← validate_workload_routing_rules s;
    validate_grpc s.

(** *** What acceptance means *)

Lemma duplicates_nil names : duplicates names = [] → NoDup names.
Proof.
  intros H. apply NoDup_alt. intros i j x Hi Hj. destruct (decide (i = j)) as [|Hne]; [done|exfalso].
  assert (x ∈ duplicates names) as Hx; [|by rewrite H in Hx; apply not_elem_of_nil in Hx].
  unfold duplicates. rewrite sort_str_perm. apply elem_of_remove_dups, list_elem_of_In, filter_In.
  split; [apply list_elem_of_In; by eapply list_elem_of_lookup_2|]. apply Nat.ltb_lt.
  clear H. revert i j Hi Hj Hne. induction names as [|n names IH]; intros [|i] [|j] Hi Hj Hne; try done; simpl in *.
  - simplify_eq. rewrite bool_decide_true by done. apply list_elem_of_lookup_2, list_elem_of_In in Hj.
    assert (x ∈ List.filter (fun m => bool_decide (m = x)) names) as Hf.
    { apply list_elem_of_In, filter_In. split; [done|]. by apply bool_decide_eq_true. }
    destruct (List.filter _ names); [by apply not_elem_of_nil in Hf|simpl; lia].
  - simplify_eq. rewrite bool_decide_true by done. apply list_elem_of_lookup_2, list_elem_of_In in Hi.
    assert (x ∈ List.filter (fun m => bool_decide (m = x)) names) as Hf.
    { apply list_elem_of_In, filter_In. split; [done|]. by apply bool_decide_eq_true. }
    destruct (List.filter _ names); [by apply not_elem_of_nil in Hf|simpl; lia].
  - specialize (IH i j Hi Hj ltac:(lia)). case_bool_decide; simpl; lia.
Qed.
Lemma sort_str_nil l : sort_str l = [] → l = [].
Proof. intros H. apply Permutation_nil. pose proof (sort_str_perm l) as Hp. by rewrite H in Hp. Qed.
Lemma unknown_nil known names : unknown_backends known names = [] → ∀ n, n ∈ names → n ∈ known.
Proof.
  intros H%sort_str_nil n Hn. destruct (decide (n ∈ known)) as [|Hk]; [done|exfalso].
  assert (n ∈ remove_dups (List.filter (fun n => negb (bool_decide (n ∈ known))) names)) as Hx.
  { apply elem_of_remove_dups, list_elem_of_In, filter_In. split; [by apply list_elem_of_In|].
    by rewrite bool_decide_false. }
  rewrite H in Hx. by apply not_elem_of_nil in Hx.
Qed.
Lemma find_none {A} (p : A → bool) l : find (fun x => negb (p x)) l = None → ∀ x, x ∈ l → p x = true.
Proof.
  intros H x Hx%list_elem_of_In. pose proof (find_none _ _ H x Hx) as Hp. by apply negb_false_iff in Hp.
Qed.
Lemma check_rules_ok s rules s' : check_rules s rules = Ok s' → s' = s ∧
  ∀ r, r ∈ rules → r_enabled r = true →
    (r_model r ∉ map v_name (virtual_models s)) ∧ r_model r ∈ physical_models s ∧
    ∀ b, b ∈ r_preferred_backends r → b ∈ primary_backends s.
Proof.
  induction rules as [|r rules IH]; simpl; intros E; [split; [congruence|set_solver]|].
  destruct (r_enabled r) eqn:Er; simpl in E.
  - destruct (bool_decide (r_model r ∈ map v_name (virtual_models s))) eqn:E1; [done|].
    destruct (bool_decide (r_model r ∈ physical_models s)) eqn:E2; [|done]. simpl in E.
    destruct (unknown_backends _ _) eqn:Eu; [|done]. destruct (IH E) as [-> H]. split; [done|].
    intros x [->|Hx]%elem_of_cons Hen; [|by apply H].
    apply bool_decide_eq_false in E1. apply bool_decide_eq_true in E2. split_and!; [done|done|by apply unknown_nil].
  - destruct (IH E) as [-> H]. split; [done|]. intros x [->|Hx]%elem_of_cons Hen; [congruence|by apply H].
Qed.

(** What the validators establish of the settings they return. *)
Record accepted (s : Settings) : Prop := Accepted {
  a_fields : fields_ok s = true;
  a_paths : is_Some (db_path s) ∧ is_Some (log_dir s) ∧ is_Some (models_dir s);
  a_allowlist : ∀ c, c ∈ ip_allowlist s → is_Some (Ip.ip_network c);
  a_bind : host s ∉ loopback → allow_network_bind s = true ∧
    (effective_require_auth s = true ∨ allow_insecure_bind s = true);
  a_remote : backend_kind s ≠ llamacpp → ostr_true (remote_base_url s) = true ∧ ostr_true (remote_model s) = true;
  a_external : ∀ w, w ∈ external_providers s → allow_external_providers s = true ∧ egress_ok (egress_allowlist s) w = true;
  a_names : NoDup (backend_names s);
  a_shadow : ∀ v, v ∈ virtual_models s → v_name v ∉ physical_models s;
  a_rules : NoDup (map r_name (workload_routing_rules s)) ∧
    ∀ r, r ∈ workload_routing_rules s → r_enabled r = true →
      r_model r ∈ physical_models s ∧ ∀ b, b ∈ r_preferred_backends r → b ∈ primary_backends s;
  a_grpc : grpc_enabled s = true → (grpc_tls_cert s = None ↔ grpc_tls_key s = None) ∧
    (grpc_host s ∉ loopback → allow_network_bind s = true)
}.

Lemma validate_ip_allowlist_ok s s' : validate_ip_allowlist s = Ok s' → s' = s ∧
  ∀ c, c ∈ ip_allowlist s → is_Some (Ip.ip_network c).
Proof.
  unfold validate_ip_allowlist. destruct (find _ _) eqn:E; [done|]. intros [= <-]. split; [done|].
  intros c Hc. by apply (bool_decide_eq_true _), (find_none (fun c => bool_decide (is_Some (Ip.ip_network c))) _ E).
Qed.
Lemma validate_binding_ok s s' : validate_binding s = Ok s' → s' = s ∧
  (host s ∉ loopback → allow_network_bind s = true ∧ (effective_require_auth s = true ∨ allow_insecure_bind s = true)).
Proof.
  unfold validate_binding, is_loopback_host. case_bool_decide; [intros [= <-]; by split|].
  destruct (allow_network_bind s), (effective_require_auth s), (allow_insecure_bind s); simpl; try done;
    intros [= <-]; auto.
Qed.
Lemma validate_remote_backend_ok s s' : validate_remote_backend s = Ok s' → s' = s ∧
  (backend_kind s ≠ llamacpp → ostr_true (remote_base_url s) = true ∧ ostr_true (remote_model s) = true).
Proof.
  unfold validate_remote_backend. simpl.
  destruct (backend_kind s); simpl; destruct (ostr_true (remote_base_url s)), (ostr_true (remote_model s)); simpl;
    try done; intros [= <-]; auto.
Qed.
Lemma validate_external_providers_ok s s' : validate_external_providers s = Ok s' → s' = s ∧
  ∀ w, w ∈ external_providers s → allow_external_providers s = true ∧ egress_ok (egress_allowlist s) w = true.
Proof.
  unfold validate_external_providers. destruct (external_providers s) as [|w0 ws] eqn:Ep;
    [intros [= <-]; split; [done|set_solver]|].
  destruct (allow_external_providers s); [|done]. cbn [negb].
  destruct (egress_allowlist s) as [|a al] eqn:Ea; [done|].
  destruct (find (fun w => negb (egress_ok (a :: al) w)) (w0 :: ws)) eqn:E; [done|].
  intros [= <-]. split; [done|]. intros w Hw. split; [done|]. by apply (find_none _ (w0 :: ws) E).
Qed.
Lemma validate_pool_names_ok s s' : validate_pool_names s = Ok s' → s' = s ∧
  NoDup (backend_names s) ∧ ∀ v, v ∈ virtual_models s → v_name v ∉ physical_models s.
Proof.
  unfold validate_pool_names. destruct (duplicates _) eqn:Ed; [|done].
  destruct (sort_str _) eqn:Es; [|done]. intros [= <-]. split; [done|]. split; [by apply duplicates_nil|].
  intros v Hv Hp. apply sort_str_nil in Es.
  assert (v_name v ∈ List.filter (fun n => bool_decide (n ∈ physical_models s)) (map v_name (virtual_models s))) as Hx.
  { apply list_elem_of_In, filter_In. split; [apply list_elem_of_In; by apply list_elem_of_fmap_2|].
    by apply bool_decide_eq_true. }
  rewrite Es in Hx. by apply not_elem_of_nil in Hx.
Qed.
Lemma validate_rules_ok s s' : validate_workload_routing_rules s = Ok s' → s' = s ∧
  NoDup (map r_name (workload_routing_rules s)) ∧
  ∀ r, r ∈ workload_routing_rules s → r_enabled r = true →
    r_model r ∈ physical_models s ∧ ∀ b, b ∈ r_preferred_backends r → b ∈ primary_backends s.
Proof.
  unfold validate_workload_routing_rules. destruct (duplicates _) eqn:Ed; [|done].
  intros [-> H]%check_rules_ok. split; [done|]. split; [by apply duplicates_nil|].
  intros r Hr He. by destruct (H r Hr He) as (_ & ? & ?).
Qed.
Lemma validate_grpc_ok s s' : validate_grpc s = Ok s' → s' = s ∧
  (grpc_enabled s = true → (grpc_tls_cert s = None ↔ grpc_tls_key s = None) ∧
    (grpc_host s ∉ loopback → allow_network_bind s = true)).
Proof.
  unfold validate_grpc. destruct (grpc_enabled s); [|intros [= <-]; by split]. simpl.
  do 3 case_bool_decide; simpl; try done; destruct (allow_network_bind s); simpl; try done;
    intros [= <-]; (split; [done|intros _; split; [tauto|done]]).
Qed.

Lemma validate_ok s s' : validate s = Ok s' → s' = derive_paths s ∧ accepted s'.
Proof.
  unfold validate. destruct (fields_ok s) eqn:Ef; [|done]. simpl.
  destruct (validate_ip_allowlist s) as [s0|] eqn:E0; [|done]. cbn [mbind result_bind].
  apply validate_ip_allowlist_ok in E0 as [-> H0].
  assert (is_Some (db_path (derive_paths s)) ∧ is_Some (log_dir (derive_paths s)) ∧ is_Some (models_dir (derive_paths s)))
    as Hd by (split_and!; by eexists).
  change (fields_ok (derive_paths s) = true) in Ef. change (ip_allowlist s) with (ip_allowlist (derive_paths s)) in H0.
  generalize dependent (derive_paths s). clear s. intros s Ef H0 Hd E.
  destruct (validate_binding s) as [s1|] eqn:E1; [|done]. apply validate_binding_ok in E1 as [-> H1]. cbn [mbind result_bind] in E.
  destruct (validate_remote_backend s) as [s2|] eqn:E2; [|done]. apply validate_remote_backend_ok in E2 as [-> H2]. cbn [mbind result_bind] in E.
  destruct (validate_external_providers s) as [s3|] eqn:E3; [|done]. apply validate_external_providers_ok in E3 as [-> H3]. cbn [mbind result_bind] in E.
  destruct (validate_pool_names s) as [s4|] eqn:E4; [|done]. apply validate_pool_names_ok in E4 as (-> & H4 & H4'). cbn [mbind result_bind] in E.
  destruct (validate_workload_routing_rules s) as [s5|] eqn:E5; [|done]. apply validate_rules_ok in E5 as [-> H5]. cbn [mbind result_bind] in E.
  apply validate_grpc_ok in E as [-> H6]. split; [done|]. by split.
Qed.
End Validators.

(** ** Layers *)

Section Load.
(** The environment and the file system as [load_config] reads them, and the library's
    construction of the settings from the value it finds for each field. *)
Context {V : Type}.
Record world := World {
  is_file : string → bool;
  expanduser : string → string;
  default_config_file : string;
  env_config_file : option string;
  env_values : string → option V;
  toml_values : string → string → option V
}.
Context (construct : (string → option V) → result config_error Settings).

Definition resolve_toml (w : world) (file : option string) : result config_error (option string) :=
  let explicit := match file with
                  | Some f => Some f
                  | None => match env_config_file w with
                            | Some e => if str_true e then Some e else None
                            | None => None
                            end
                  end in
  match explicit with
  | Some f => let f := expanduser w f in if is_file w f then Ok (Some f) else Err (Config_file_missing f)
  | None => Ok (if is_file w (default_config_file w) then Some (default_config_file w) else None)
  end.
(** The sources of [settings_customise_sources], in order of precedence. *)
Definition layered (w : world) (overrides : string → option V) (toml : option string) (key : string) : option V :=
  match overrides key with
  | Some v => Some v
  | None => match env_values w key with
            | Some v => Some v
            | None => f ← toml; toml_values w f key
            end
  end.
(** [load_config]; an override of [None] is no override. *)
Definition load_config (w : world) (overrides : string → option V) (file : option string) :
    result config_error Settings :=
  toml ← resolve_toml w file;
  s ← construct (layered w overrides toml);
  Ok (match toml, config_file s with
      | Some f, None => with_paths (db_path s) (log_dir s) (models_dir s) (Some f) s
      | _, _ => s
      end).

(** An explicitly requested file that does not exist is fatal, whatever the other layers say. *)
Lemma missing_file_fatal w overrides f : is_file w (expanduser w f) = false →
  load_config w overrides (Some f) = Err (Config_file_missing (expanduser w f)).
Proof. intros H. unfold load_config, resolve_toml. by rewrite H. Qed.
End Load.

End Config.

(** ** The pool and the router of [create_app] *)

Module Startup.
Import BackendRegistry Config.

(** [build_remote_worker] *)
Definition build_remote_worker (w : RemoteWorkerSpec) : RemoteBackend.t :=
  RemoteBackend.init (RemoteBackend.Config (w_base_url w) (w_model w) (effective_model_id w) (w_api_key w)
    (w_max_prestream_retries w) (w_context_length w) (w_prefix_cache w) (w_kv_metrics w)).
(** A backend object as the registry sees it. *)
Definition view (b : RemoteBackend.t) : backend :=
  Backend (RemoteBackend.st b)
    (Caps (RemoteBackend.cfg_model_id (RemoteBackend.cfg b)) (RemoteBackend.ctx b) false
          (RemoteBackend.kv_metrics (RemoteBackend.cfg b))).

Definition primary_entry (s : Settings) (b : option backend) : BackendEntry :=
  let local := bool_decide (kind_str (backend_kind s) = "llamacpp") in
  Entry "primary" (kind_str (backend_kind s)) local b (primary_max_in_flight s)
        (negb local && remote_prefix_cache s) 0 0 true
        (primary_cost_per_1k_input s) (primary_cost_per_1k_output s) false false (Some (model_id s)).
Definition worker_entry (extern : bool) (w : RemoteWorkerSpec) : BackendEntry :=
  Entry (w_name w) (worker_kind_str (w_kind w)) false (Some (view (build_remote_worker w))) (w_max_in_flight w)
        (w_prefix_cache w) 0 0 true (w_cost_per_1k_input w) (w_cost_per_1k_output w) extern extern
        (Some (effective_model_id w)).
Definition pool_entries (s : Settings) (b : option backend) : list BackendEntry :=
  primary_entry s b :: map (worker_entry false) (remote_workers s) ++ map (worker_entry true) (external_providers s).

Definition router_policy (p : Config.policy) : Policy :=
  match p with Config.route => BackendRegistry.route | Config.cascade => BackendRegistry.cascade end.
(** The loop over [settings.virtual_models]. *)
Fixpoint build_virtual (pool : list string) (l : list VirtualModelSpec) : result config_error (list Router.VirtualModel) :=
  match l with
  | [] => Ok []
  | v :: rest =>
      match unknown_backends pool (concat (normalized_steps v)) with
      | _ :: _ as u => Err (Unknown_virtual_backends (v_name v) u)
      | [] => vs ← build_virtual pool rest;
              Ok (Router.VModel (v_name v) (router_policy (v_policy v)) (normalized_steps v) :: vs)
      end
  end.
Definition build_rule (r : WorkloadRoutingRuleSpec) : Router.WorkloadRoutingRule :=
  Router.Rule (r_name r) (r_kind r) (r_model r) (r_preferred_backends r) (r_enabled r).
(** The part of [create_app] that builds the registry's entries and the router. *)
Definition create_pool (s : Settings) (b : option backend) : result config_error (list BackendEntry * Router.t) :=
  vs ← build_virtual (backend_names s) (virtual_models s);
  Ok (pool_entries s b,
      Router.init vs (map build_rule (workload_routing_rules s)) (workload_routing_enabled s)).

(** *** What the pool keeps *)

(** The fields no operation of the registry assigns. *)
Definition static (e : BackendEntry) : string * bool * bool := (name e, spillover e, external e).

Lemma static_alter f i reg : (∀ e, static (f e) = static e) → map static (alter f i reg) = map static reg.
Proof.
  intros Hf. apply list_eq. intros j. rewrite !(list_lookup_fmap static), list_lookup_alter.
  case_decide; [|done]. subst. destruct (reg !! j); simpl; [by rewrite Hf|done].
Qed.
Lemma static_exec l p : map static (reg (pool_exec l p)) = map static (reg p).
Proof.
  destruct l as [pk al m fs|i|i b|i c]; simpl.
  - unfold acquire. destruct (select_detailed pk al m fs (reg p)) as [[[[e r] t] n]|]; simpl.
    + by apply static_alter.
    + by repeat case_match.
  - destruct (leases p !! i) as [l|]; [|done]. unfold lease_release. destruct (released l); [done|]. simpl.
    apply static_alter. intros e. by case_match.
  - by apply static_alter.
  - apply static_alter. intros e. unfold refresh_health. by repeat case_match.
Qed.
Lemma static_run entries ls : map static (reg (pool_run entries ls)) = map static entries.
Proof.
  unfold pool_run. assert (∀ p, map static (reg (fold_left (fun p l => pool_exec l p) ls p)) = map static (reg p)) as H.
  { induction ls as [|l ls IH]; intros p; [done|]. simpl. by rewrite IH, static_exec. }
  rewrite H. simpl. unfold init. apply list_eq. intros j.
  rewrite !(list_lookup_fmap static), list_lookup_imap. by destruct (entries !! j).
Qed.

Lemma pool_names s b : map name (pool_entries s b) = backend_names s.
Proof. unfold pool_entries, backend_names. simpl. by rewrite map_app, !map_map. Qed.
(** An entry of the running pool has the name and the flags of one that was configured. *)
Lemma run_entry entries ls e : e ∈ reg (pool_run entries ls) → ∃ e0, e0 ∈ entries ∧ static e = static e0.
Proof.
  intros H. assert (static e ∈ map static (reg (pool_run entries ls))) as Hs by by apply list_elem_of_fmap_2.
  rewrite static_run in Hs. apply list_elem_of_fmap in Hs as (e0 & ? & ?). eauto.
Qed.
Lemma run_entry_back entries ls e0 : e0 ∈ entries → ∃ e, e ∈ reg (pool_run entries ls) ∧ static e = static e0.
Proof.
  intros H. assert (static e0 ∈ map static entries) as Hs by by apply list_elem_of_fmap_2.
  rewrite <- (static_run entries ls) in Hs. apply list_elem_of_fmap in Hs as (e & ? & ?). eauto.
Qed.

Lemma build_virtual_ok pool l vs : build_virtual pool l = Ok vs →
  map Router.vm_name vs = map v_name l ∧
  ∀ vm, vm ∈ vs → ∃ v, v ∈ l ∧ Router.vm_steps vm = normalized_steps v ∧
    ∀ step n, step ∈ Router.vm_steps vm → n ∈ step → n ∈ pool.
Proof.
  revert vs. induction l as [|v l IH]; simpl; intros vs E; [simplify_eq; split; [done|set_solver]|].
  destruct (unknown_backends _ _) eqn:Eu; [|done].
  destruct (build_virtual pool l) as [vs'|] eqn:E'; [|done]. cbn [mbind result_bind] in E. simplify_eq.
  destruct (IH _ eq_refl) as [Hn Hv]. split; [simpl; by rewrite Hn|].
  intros vm [->|Hvm]%elem_of_cons.
  - exists v. split_and!; [left|done|]. intros step n Hs Hin. apply (unknown_nil _ _ Eu).
    apply list_elem_of_In, in_concat. exists step. split; by apply list_elem_of_In.
  - destruct (Hv vm Hvm) as (x & ? & ? & ?). exists x. split_and!; [by right|done|done].
Qed.

Lemma steps_nonempty v step : check_policy v = true → step ∈ normalized_steps v → step ≠ [].
Proof.
  unfold check_policy, normalized_steps. destruct (v_policy v).
  - intros [H _]%andb_true_iff Hs. assert (step = v_backends v) as -> by set_solver. by destruct (v_backends v).
  - intros [[_ H]%andb_true_iff _]%andb_true_iff Hs. rewrite forallb_forall in H.
    specialize (H step). rewrite <- list_elem_of_In in H. specialize (H Hs). by destruct step.
Qed.

(** C21. Accepted settings give a well-formed pool, and it stays so: after any sequence of
    placements, releases, reloads and health probes the backend names are distinct; an
    external backend is a spillover backend of the settings, external providers are allowed
    and its host is on the egress allowlist; no configured physical model is shadowed by a
    virtual one; every step of a virtual model is a non-empty group of backends that exist;
    and an enabled workload rule prefers only backends that exist and are not external. *)
Theorem accepted_pool netloc_ok s0 s b entries r ls :
  validate netloc_ok s0 = Ok s → create_pool s b = Ok (entries, r) →
  let pool := reg (pool_run entries ls) in
  NoDup (map name pool) ∧
  (∀ e, e ∈ pool → external e = true → spillover e = true ∧
     ∃ w, w ∈ external_providers s ∧ name e = w_name w ∧ allow_external_providers s = true ∧
       ∃ h, Url.url_host netloc_ok (w_base_url w) = Some h ∧ Url.host_allowed h (egress_allowlist s) = true) ∧
  (∀ m, m ∈ physical_models s → Router.is_virtual r m = false) ∧
  (∀ m vm step, dict_get m (Router.vmodels r) = Some vm → step ∈ Router.vm_steps vm →
     step ≠ [] ∧ ∀ n, n ∈ step → ∃ e, e ∈ pool ∧ name e = n) ∧
  (∀ rule n, rule ∈ Router.workload_rules r → Router.rule_enabled rule = true → n ∈ Router.preferred_backends rule →
     ∃ e, e ∈ pool ∧ name e = n ∧ external e = false).
Proof.
  intros Ev Ec pool. destruct (validate_ok _ _ _ Ev) as [_ A].
  unfold create_pool in Ec. destruct (build_virtual _ _) as [vs|] eqn:Eb; [|done]. cbn [mbind result_bind] in Ec.
  simplify_eq. destruct (build_virtual_ok _ _ _ Eb) as [Hn Hv].
  assert (∀ n, n ∈ backend_names s → ∃ e, e ∈ pool ∧ name e = n) as Hname.
  { intros n Hin. rewrite <- (pool_names s b) in Hin. apply list_elem_of_fmap in Hin as (e0 & -> & He0).
    destruct (run_entry_back _ ls _ He0) as (e & He & Es). exists e. split; [done|]. by injection Es. }
  split_and!.
  - assert (map name pool = map (fun x => x.1.1) (map static pool)) as -> by by rewrite map_map.
    unfold pool. rewrite static_run, map_map. rewrite pool_names. apply A.
  - intros e He Hx. apply run_entry in He as (e0 & He0 & Es). injection Es as En Esp Ex. rewrite Hx in Ex.
    apply elem_of_cons in He0 as [->|He0]; [done|]. apply elem_of_app in He0 as [H|H];
      apply list_elem_of_fmap in H as (w & -> & Hw); [done|]. split; [done|]. exists w.
    destruct (a_external _ _ A w Hw) as [Ha Hg]. unfold egress_ok in Hg.
    destruct (Url.url_host netloc_ok (w_base_url w)) as [h|]; [|done]. by eauto 7.
  - intros m Hm. unfold Router.is_virtual. destruct (dict_get m _) as [vm|] eqn:E; [|done]. exfalso.
    apply dict_of_get, list_elem_of_fmap in E as (vm' & [= -> ->] & Hvm).
    assert (Router.vm_name vm' ∈ map v_name (virtual_models s)) as Hin
      by (rewrite <- Hn; by apply (list_elem_of_fmap_2 Router.vm_name)).
    apply list_elem_of_fmap in Hin as (v & Ev' & Hv'). apply (a_shadow _ _ A v Hv'). by rewrite <- Ev'.
  - intros m vm step E Hs. apply dict_of_get, list_elem_of_fmap in E as (vm' & [= -> ->] & Hvm).
    destruct (Hv _ Hvm) as (v & Hin & Est & Hp). split.
    + rewrite Est in Hs. eapply steps_nonempty; [|done]. pose proof (a_fields _ _ A) as Hf. unfold fields_ok in Hf.
      rewrite !andb_true_iff in Hf. assert (forallb check_policy (virtual_models s) = true) as Hc by tauto.
      rewrite forallb_forall in Hc. apply Hc. by apply list_elem_of_In.
    + intros n Hn'. apply Hname. by eapply Hp.
  - intros rule n Hr He Hin. apply list_elem_of_fmap in Hr as (r0 & -> & Hr0).
    destruct (proj2 (a_rules _ _ A) r0 Hr0 He) as [_ Hb]. specialize (Hb n Hin).
    assert (∃ e0, e0 ∈ pool_entries s b ∧ name e0 = n ∧ external e0 = false) as (e0 & He0 & <- & Hx).
    { apply elem_of_cons in Hb as [->|Hb]; [exists (primary_entry s b); split_and!; [left|done|done]|].
      apply list_elem_of_fmap in Hb as (w & -> & Hw). exists (worker_entry false w). split_and!; [|done|done].
      right. apply elem_of_app. left. by apply list_elem_of_fmap_2. }
    destruct (run_entry_back _ ls _ He0) as (e & Hin' & Es). injection Es as En _ Ex. exists e. by rewrite Ex.
Qed.

End Startup.

(** ** Examples *)

Module ConfigExamples.
Import Config.

(** The settings an example changes. *)
Record choices := Choices {
  c_host : string; c_network : bool; c_grpc : bool; c_grpc_host : string; c_remote : bool;
  c_workers : list RemoteWorkerSpec; c_external : list RemoteWorkerSpec; c_allow_external : bool;
  c_egress : list string; c_virtual : list VirtualModelSpec; c_rules : list WorkloadRoutingRuleSpec
}.
Definition apply (c : choices) (s : Settings) : Settings := {|
  host := c_host c; port := port s; allow_network_bind := c_network c;
  allow_insecure_bind := allow_insecure_bind s; grpc_enabled := c_grpc c; grpc_host := c_grpc_host c;
  grpc_port := grpc_port s; grpc_tls_cert := grpc_tls_cert s; grpc_tls_key := grpc_tls_key s;
  require_auth := require_auth s; max_request_bytes := max_request_bytes s;
  rate_limit_per_min := rate_limit_per_min s; max_concurrent_per_key := max_concurrent_per_key s;
  max_concurrency := max_concurrency s; max_concurrency_queue := max_concurrency_queue s;
  concurrency_queue_timeout_s := concurrency_queue_timeout_s s; require_model_ready := require_model_ready s;
  drain_timeout_s := drain_timeout_s s; ip_allowlist := ip_allowlist s;
  trust_forwarded_for := trust_forwarded_for s; allow_network_downloads := allow_network_downloads s;
  allow_model_management := allow_model_management s; allow_structured_output := allow_structured_output s;
  diagnostics_enabled := diagnostics_enabled s; quota_5h_cu := quota_5h_cu s;
  quota_weekly_cu := quota_weekly_cu s; cu_prompt_weight := cu_prompt_weight s;
  cu_completion_weight := cu_completion_weight s; billing_provider := billing_provider s;
  stripe_webhook_secret := stripe_webhook_secret s;
  stripe_signature_tolerance_s := stripe_signature_tolerance_s s; default_plan := default_plan s;
  webhooks_enabled := webhooks_enabled s; webhook_max_attempts := webhook_max_attempts s;
  webhook_backoff_schedule_s := webhook_backoff_schedule_s s;
  webhook_poll_interval_s := webhook_poll_interval_s s;
  webhook_delivery_timeout_s := webhook_delivery_timeout_s s;
  webhook_signing_rotation_grace_s := webhook_signing_rotation_grace_s s;
  webhook_usage_threshold_pct := webhook_usage_threshold_pct s;
  client_events_enabled := client_events_enabled s; client_sse_heartbeat_s := client_sse_heartbeat_s s;
  client_events_retention_max_age_s := client_events_retention_max_age_s s;
  client_events_retention_max_per_client := client_events_retention_max_per_client s;
  client_cors_origins := client_cors_origins s; log_level := log_level s;
  metrics_interval_s := metrics_interval_s s; event_history_size := event_history_size s;
  event_subscriber_queue := event_subscriber_queue s; log_ring_size := log_ring_size s;
  log_events_max_rows := log_events_max_rows s; backend_kind := backend_kind s;
  allow_remote_backends := c_remote c; remote_base_url := remote_base_url s; remote_model := remote_model s;
  remote_api_key := remote_api_key s; remote_connect_timeout_s := remote_connect_timeout_s s;
  remote_read_timeout_s := remote_read_timeout_s s;
  remote_max_prestream_retries := remote_max_prestream_retries s;
  remote_context_length := remote_context_length s; remote_tls_verify := remote_tls_verify s;
  remote_prefix_cache := remote_prefix_cache s; remote_kv_metrics := remote_kv_metrics s;
  remote_workers := c_workers c; virtual_models := c_virtual c;
  workload_routing_enabled := workload_routing_enabled s; workload_routing_rules := c_rules c;
  allow_external_providers := c_allow_external c; egress_allowlist := c_egress c;
  external_providers := c_external c; primary_max_in_flight := primary_max_in_flight s;
  backend_health_interval_s := backend_health_interval_s s; prefix_affinity_chars := prefix_affinity_chars s;
  primary_cost_per_1k_input := primary_cost_per_1k_input s;
  primary_cost_per_1k_output := primary_cost_per_1k_output s; model_path := model_path s;
  model_id := model_id s; n_ctx := n_ctx s; n_threads := n_threads s; n_gpu_layers := n_gpu_layers s;
  models_dir := models_dir s; hf_endpoint := hf_endpoint s; download_chunk_bytes := download_chunk_bytes s;
  max_model_bytes := max_model_bytes s; data_dir := data_dir s; db_path := db_path s; log_dir := log_dir s;
  config_file := config_file s
|}.
Definition settings (c : choices) : Settings := apply c (defaults "/data").
Definition demo_worker (n url : string) : RemoteWorkerSpec :=
  Worker n remote_vllm url "m" (Some n) None 10 60 1 None true 8 true true 0 0.

(** A pool with a worker, an external provider, a cascade over both and a rule. *)
Definition demo : choices :=
  Choices "0.0.0.0" true false "127.0.0.1" true [demo_worker "gpu" "http://10.0.0.5:8000"]
    [demo_worker "cloud" "https://api.example.com/v1"] true ["example.com"]
    [Virtual "auto" cascade [] [["gpu"]; ["primary"; "cloud"]]]
    [Rule "json" "structured_output_preference" "gpu" ["gpu"] true].

End ConfigExamples.

(** ** Exposure *)

Module Exposure.
Import Config.

(** The settings the gateway reads. *)
Definition gateway_settings (s : Settings) : Gateway.Settings :=
  Gateway.MkSettings (host s) (require_auth s) (quota_5h_cu s) (quota_weekly_cu s)
    (cu_prompt_weight s) (cu_completion_weight s) (rate_limit_per_min s) (max_concurrent_per_key s).

Lemma auth_same s : Gateway.effective_require_auth (gateway_settings s) = effective_require_auth s.
Proof. done. Qed.

(** C23. An engine bound to the network authenticates: with settings that were accepted with
    a non-loopback host and without the insecure opt-in, a request passes the gateway only
    with a token that is the secret of a stored, unrevoked key, whatever its peer; and the
    operator gate allows a caller, from whatever address and with whatever token, only when
    the token is the secret of a stored, unrevoked key that no billing client owns. *)
Theorem exposed_engine_authenticates netloc_ok s0 s b q g g' a :
  validate netloc_ok s0 = Ok s → host s ∉ loopback → allow_insecure_bind s = false →
  (Gateway.authorize_token (gateway_settings s) b q g = (g', Ok a) →
     ∃ tok row, Gateway.token q = Some tok ∧ GatewaySystem.live_row tok (Gateway.db g) row) ∧
  (∀ peer token now, fst (snd (Gateway.operator_access (gateway_settings s) peer token now g)) = Gateway.ALLOWED →
     ∃ tok row, token = Some tok ∧ GatewaySystem.live_row tok (Gateway.db g) row ∧ Db.k_client row = None).
Proof.
  intros E Hh Hi. destruct (validate_ok _ _ _ E) as [_ A].
  destruct (a_bind _ _ A Hh) as [_ [Hr|Hr]]; [|congruence]. rewrite <- auth_same in Hr. split.
  - intros Ha. destruct (GatewaySystem.authorize_inv _ _ _ _ _ _ Ha) as (s1 & ra & Hau & Hra).
    destruct ra as [k|e]; [|by destruct Hra].
    assert (∃ t r, Gateway.token q = Some t ∧
      snd (KeyStore.verify t (Gateway.now_iso q) (Gateway.db g)) = Some r) as (t & r & Ht & V).
    { destruct (decide (k = Gateway.LOCAL_KEY_ID)) as [->|Hk].
      - destruct (GatewaySystem.authenticate_local _ _ _ _ _ Hau) as [Hf|(t & r & ? & ? & _)]; [congruence|eauto].
      - destruct (GatewaySystem.authenticate_key _ _ _ _ _ _ Hau Hk) as (t & r & ? & ? & _). eauto. }
    destruct (GatewaySystem.verify_live _ _ _ _ V) as (row & ? & _). eauto.
  - intros peer token now H. unfold Gateway.operator_access in H. rewrite Hr in H. simpl in H.
    destruct token as [tok|]; [|done]. destruct (str_true tok); [|done].
    pose proof (GatewaySystem.verify_live tok now (Gateway.db g)) as V.
    destruct (KeyStore.verify tok now (Gateway.db g)) as [d' [r|]]; [|done].
    destruct (V r eq_refl) as (row & Hrow & Hc). exists tok, row. split_and!; [done..|].
    simpl in H. unfold KeyStore.role in H. rewrite Hc in H. by destruct (Db.k_client row).
Qed.

Lemma exposed_engine_authenticates_witness :
  ∃ s, validate (fun _ => true) (ConfigExamples.settings ConfigExamples.demo) = Ok s ∧ host s = "0.0.0.0" ∧
    (∀ q g g' a, Gateway.authorize_token (gateway_settings s) None q g = (g', Ok a) → Gateway.token q ≠ None) ∧
    ∀ q g tok, Db.api_keys (Gateway.db g) = [] →
      fst (snd (Gateway.operator_access (gateway_settings s) (Some "127.0.0.1") tok (Gateway.now_iso q) g)) ≠ Gateway.ALLOWED.
Proof.
  assert (∃ s, validate (fun _ => true) (ConfigExamples.settings ConfigExamples.demo) = Ok s ∧
    (host s = "0.0.0.0" ∧ allow_insecure_bind s = false)) as (s & E & Hh & Hi)
    by (eexists; split; [vm_compute; reflexivity|split; reflexivity]).
  assert (host s ∉ loopback) as Hl by (rewrite Hh; vm_compute; set_solver).
  exists s. split; [exact E|]. split; [exact Hh|]. split.
  - intros q g g' a Ha Hq. destruct (exposed_engine_authenticates _ _ s None q g g' a E Hl Hi) as [H _].
    destruct (H Ha) as (tok & row & Ht & _). congruence.
  - intros q g tok Hk H. pose (a := Gateway.Handle "" "" [] false false).
    destruct (exposed_engine_authenticates _ _ s None q g g a E Hl Hi) as [_ Ho].
    destruct (Ho _ _ _ H) as (t & row & _ & [Hin _] & _). rewrite Hk in Hin. by apply not_elem_of_nil in Hin.
Defined.

(** The gRPC edge is not covered: its own host may be non-loopback while the HTTP host is
    loopback, so the default authentication mode stays off and the settings are accepted
    without the insecure opt-in; a call without a key is then let through. *)
Lemma grpc_exposed_without_auth :
  ∃ s, validate (fun _ => true)
         (ConfigExamples.settings (ConfigExamples.Choices "127.0.0.1" true true "0.0.0.0" true [] [] false [] [] [])) = Ok s ∧
    grpc_enabled s = true ∧ grpc_host s = "0.0.0.0" ∧ allow_insecure_bind s = false ∧
    ∀ b q g, Gateway.token q = None → is_ok (snd (Gateway.authorize_token (gateway_settings s) b q g)) = true.
Proof.
  eexists. split; [vm_compute; reflexivity|]. split_and!; try reflexivity. intros b q g Hq.
  unfold Gateway.authorize_token. by rewrite Hq.
Qed.

(** [allow_remote_backends] does not reach the workers: with the kill switch off they are
    still built and join the pool. *)
Lemma kill_switch_ignores_workers :
  let c := ConfigExamples.Choices "127.0.0.1" false false "127.0.0.1" false
             [ConfigExamples.demo_worker "gpu" "http://10.0.0.5:8000"] [] false [] [] [] in
  ∃ s entries r, validate (fun _ => true) (ConfigExamples.settings c) = Ok s ∧ allow_remote_backends s = false ∧
    Startup.create_pool s None = Ok (entries, r) ∧
    ∃ e, e ∈ entries ∧ BackendRegistry.is_local e = false ∧ is_Some (BackendRegistry.provider e).
Proof.
  eexists _, _, _. split; [vm_compute; reflexivity|]. split; [reflexivity|]. split; [vm_compute; reflexivity|].
  eexists. split; [right; left|]. split; [reflexivity|]. by eexists.
Qed.

End Exposure.

Lemma accepted_pool_witness :
  ∃ s entries r, Config.validate (fun _ => true) (ConfigExamples.settings ConfigExamples.demo) = Ok s ∧
    Startup.create_pool s None = Ok (entries, r) ∧
    ∀ ls e, e ∈ BackendRegistry.reg (BackendRegistry.pool_run entries ls) → BackendRegistry.external e = true →
      BackendRegistry.spillover e = true ∧ ∃ w, w ∈ Config.external_providers s ∧ BackendRegistry.name e = Config.w_name w.
Proof.
  assert (∃ s entries r, Config.validate (fun _ => true) (ConfigExamples.settings ConfigExamples.demo) = Ok s ∧
    Startup.create_pool s None = Ok (entries, r)) as (s & entries & r & E1 & E2)
    by (eexists _, _, _; split; [vm_compute; reflexivity|vm_compute; reflexivity]).
  exists s, entries, r. split; [exact E1|]. split; [exact E2|]. intros ls e He Hx.
  destruct (Startup.accepted_pool _ _ s None entries r ls E1 E2) as (_ & H & _).
  destruct (H e He Hx) as (Hs & w & Hw & Hn & _). split; [exact Hs|]. by exists w.
Defined.
