(* ===== verification/Ownership.v ===== *)
(** * Store ownership and shutdown ([engine/store/ownership.py], lifespan of [engine/main.py])

    An engine owns a writable store, its database and its model directory, by holding two
    exclusive file locks.  [Module StoreLock] and [Module StoreOwnership] translate the
    locks over the operating system's lock table; [Module Lifespan] the lifespan of an
    engine: acquisition, the store writers it starts, the teardown sequence with steps that
    may fail or be cut short, and the decision to release or to keep the locks;
    [Module StoreSystem] interleaves any number of engines, crashes included, and shows that
    two engines that can write never share a database or a model directory. *)

From S2P Require Import Prelude Text Models.

Open Scope Z_scope.

Module StoreLock.

(** The operating system's advisory locks: file path to the engine whose handle holds it. *)
Abbreviation locks := (gmap string nat).

Inductive lock_error := StoreLockedError | StoreLockUnavailableError.
(** [path] and whether [_fh] is set. *)
Record t := Mk { path : string; held : bool }.

(** How the environment answers an attempt: the file cannot be opened, [flock] fails for a
    reason other than contention, or it is tried. *)
Inductive attempt := Open_fails | Lock_fails | Tries.

(** [acquire] by engine [me]. *)
Definition acquire (me : nat) (a : attempt) (l : t) (os : locks) : t * locks * result lock_error unit :=
  if held l then (l, os, Ok tt)
  else match a with
       | Open_fails | Lock_fails => (l, os, Err StoreLockUnavailableError)
       | Tries =>
           match os !! path l with
           | Some _ => (l, os, Err StoreLockedError)
           | None => (Mk (path l) true, <[path l := me]> os, Ok tt)
           end
       end.
(** [release]: closing the handle drops the lock, also when unlocking raised. *)
Definition release (l : t) (os : locks) : t * locks :=
  if held l then (Mk (path l) false, delete (path l) os) else (l, os).

End StoreLock.

Module StoreOwnership.
Import StoreLock.

Definition MODEL_STORE_LOCK_NAME : string := ".engine-model-store.lock".

Section Paths_.
(** [Path(p).expanduser().resolve(strict=False)] *)
Context (canonical : string → string).

(** [lock_path_for]: [with_name] refuses a path without a name. *)
Definition lock_path_for (db : string) : result exn string :=
  if bool_decide (Paths.name (canonical db) = "") then Err ValueError else Ok (canonical db +:+ ".lock").
Definition model_store_lock_path (dir : string) : string := Paths.join (canonical dir) MODEL_STORE_LOCK_NAME.

Record t := Mk { database : StoreLock.t; model_store : StoreLock.t }.
Inductive init_error := Invalid | Same_lock_file.
(** [__init__] *)
Definition init (db dir : string) : result init_error t :=
  match lock_path_for db with
  | Err _ => Err Invalid
  | Ok d => if bool_decide (d = model_store_lock_path dir) then Err Same_lock_file
            else Ok (Mk (StoreLock.Mk d false) (StoreLock.Mk (model_store_lock_path dir) false))
  end.
End Paths_.

Definition held (o : t) : bool := StoreLock.held (database o) || StoreLock.held (model_store o).

(** [acquire], in the two steps between which other engines can run. *)
Definition acquire_database (me : nat) (a : attempt) (o : t) (os : locks) : t * locks * result lock_error unit :=
  let '(l, os, r) := acquire me a (database o) os in (Mk l (model_store o), os, r).
Definition acquire_model_store (me : nat) (a : attempt) (o : t) (os : locks) : t * locks * result lock_error unit :=
  match acquire me a (model_store o) os with
  | (l, os, Ok u) => (Mk (database o) l, os, Ok u)
  | (l, os, Err e) => let '(d, os) := StoreLock.release (database o) os in (Mk d l, os, Err e)
  end.
(** [release]: the model directory, then the database. *)
Definition release (o : t) (os : locks) : t * locks :=
  let '(m, os) := StoreLock.release (model_store o) os in
  let '(d, os) := StoreLock.release (database o) os in (Mk d m, os).

End StoreOwnership.

(** ** One engine's lifespan *)

Module Lifespan.

Inductive grpc_state := disabled | owned | stopping | terminated.
#[export] Instance grpc_state_eq_dec : EqDecision grpc_state.
Proof. solve_decision. Defined.

(** [_Lifecycle], with what is true of the writers it knows: the service's downloads, the
    webhook task and its thread, and the gRPC server or one of its handlers. *)
Record t := Mk {
  webhook_started : bool;        (* [webhook_task] and [webhook_worker] are set *)
  grpc : grpc_state;
  cleanup : bool;                (* the teardown task was created *)
  cleanup_completed : bool;
  errors : nat;
  downloads_run : bool;
  task_runs : bool;
  thread_runs : bool;
  grpc_runs : bool
}.
Definition init : t := Mk false disabled false false 0 false false false false.

(** [_live_writers] *)
Definition live_writers (x : t) : list string :=
  (if downloads_run x then ["downloads"] else [])
  ++ (if webhook_started x && task_runs x then ["webhook_task"] else [])
  ++ (if webhook_started x && thread_runs x then ["webhook_thread"] else [])
  ++ (if bool_decide (grpc x = disabled) || bool_decide (grpc x = terminated) then [] else ["grpc"])
  ++ (if cleanup x && negb (cleanup_completed x) then ["cleanup"] else []).

(** The engine's work: starting writers, and writers that end by themselves. *)
Definition start_downloads (x : t) : t :=
  Mk (webhook_started x) (grpc x) (cleanup x) (cleanup_completed x) (errors x) true (task_runs x) (thread_runs x) (grpc_runs x).
Definition start_webhooks (x : t) : t :=
  Mk true (grpc x) (cleanup x) (cleanup_completed x) (errors x) (downloads_run x) true true (grpc_runs x).
(** [state.grpc = "owned"], before the start is awaited. *)
Definition start_grpc (x : t) : t :=
  Mk (webhook_started x) owned (cleanup x) (cleanup_completed x) (errors x) (downloads_run x) (task_runs x) (thread_runs x) true.
Definition downloads_end (x : t) : t :=
  Mk (webhook_started x) (grpc x) (cleanup x) (cleanup_completed x) (errors x) false (task_runs x) (thread_runs x) (grpc_runs x).
Definition webhooks_end (x : t) : t :=
  Mk (webhook_started x) (grpc x) (cleanup x) (cleanup_completed x) (errors x) (downloads_run x) false false (grpc_runs x).
Definition with_cleanup (c d : bool) (x : t) : t :=
  Mk (webhook_started x) (grpc x) c d (errors x) (downloads_run x) (task_runs x) (thread_runs x) (grpc_runs x).
Definition set_grpc (g : grpc_state) (runs : bool) (x : t) : t :=
  Mk (webhook_started x) g (cleanup x) (cleanup_completed x) (errors x) (downloads_run x) (task_runs x) (thread_runs x) runs.
Definition add_error (x : t) : t :=
  Mk (webhook_started x) (grpc x) (cleanup x) (cleanup_completed x) (S (errors x)) (downloads_run x) (task_runs x) (thread_runs x) (grpc_runs x).

(** The steps of [teardown], in order, and how one of them ends: it returns, raises an
    [Exception] (recorded, the sequence goes on), or is cancelled from inside. *)
Inductive teardown_step := Stop_grpc | Drain | Health_task | Webhook_task | Remote_workers | Telemetry_ | Model_service | Backend_.
Definition teardown_steps : list teardown_step :=
  [Stop_grpc; Drain; Health_task; Webhook_task; Remote_workers; Telemetry_; Model_service; Backend_].
Inductive step_outcome := Returns | Raises | Cut.

(** What a step establishes.  [stop_webhooks] awaits the task, which ends only once its
    thread has returned, so it is over also when the await raises the task's error. *)
Definition act (k : teardown_step) (o : step_outcome) (x : t) : t :=
  match k with
  | Stop_grpc =>
      if bool_decide (grpc x = disabled) then x
      else match o with Returns => set_grpc terminated false x | _ => set_grpc stopping (grpc_runs x) x end
  | Webhook_task => match o with Cut => x | _ => webhooks_end x end
  | Model_service => match o with Returns => downloads_end x | _ => x end
  | _ => x
  end.
(** [step(name, action)] *)
Definition run_step (k : teardown_step) (o : step_outcome) (x : t) : t :=
  let x := act k o x in match o with Raises => add_error x | _ => x end.
(** [teardown], with the outcome of each step; it stops at the first one that is cut. *)
Fixpoint teardown_from (ks : list teardown_step) (os : list step_outcome) (x : t) : t :=
  match ks, os with
  | [], _ => with_cleanup (cleanup x) true x
  | k :: ks', o :: os' =>
      let x := run_step k o x in
      match o with Cut => x | _ => teardown_from ks' os' x end
  | _ :: _, [] => x
  end.
Definition teardown (os : list step_outcome) (x : t) : t := teardown_from teardown_steps os (with_cleanup true false x).

(** How the shutdown ends for the caller: the caller's own cancellation wins, then a cleanup
    that was cut short, then the first error. *)
Inductive ending := Normal | CancelledError | ShutdownIncompleteError | First_error.
Definition shutdown_ending (caller_cancelled : bool) (x : t) : ending :=
  if caller_cancelled then CancelledError
  else if negb (cleanup_completed x) then ShutdownIncompleteError
  else match errors x with O => Normal | _ => First_error end.

(** ** A teardown that is not cut short leaves no writer behind *)

(** Only [stop_grpc] assigns [grpc]; once the webhook task has ended nothing restarts it. *)
Lemma teardown_grpc ks os x : Stop_grpc ∉ ks → grpc (teardown_from ks os x) = grpc x.
Proof.
  revert os x. induction ks as [|k ks IH]; intros os x Hk; [done|]. destruct os as [|o os]; [done|].
  apply not_elem_of_cons in Hk as [Hk Hks]. simpl.
  assert (grpc (run_step k o x) = grpc x) as E by (destruct k, o; done).
  destruct o; rewrite ?IH by done; exact E.
Qed.
Lemma teardown_webhooks ks os x : task_runs x = false → thread_runs x = false →
  task_runs (teardown_from ks os x) = false ∧ thread_runs (teardown_from ks os x) = false.
Proof.
  revert os x. induction ks as [|k ks IH]; intros os x H1 H2; [done|]. destruct os as [|o os]; [done|]. simpl.
  assert (task_runs (run_step k o x) = false ∧ thread_runs (run_step k o x) = false) as [E1 E2].
  { destruct k, o; simpl; try done; by case_bool_decide. }
  destruct o; auto.
Qed.
Lemma teardown_completes ks os x : length os = length ks → Cut ∉ os → cleanup_completed (teardown_from ks os x) = true.
Proof.
  revert os x. induction ks as [|k ks IH]; intros os x Hl Hc; [done|]. destruct os as [|o os]; [done|].
  simpl in Hl. apply not_elem_of_cons in Hc as [Ho Hc]. simpl. destruct o; [| |done]; (apply IH; [lia|done]).
Qed.

Lemma teardown_no_writers os x :
  length os = length teardown_steps → Cut ∉ os → grpc x = disabled ∨ head os = Some Returns →
  live_writers (downloads_end (teardown os x)) = [].
Proof.
  intros Hl Hc Hg. unfold teardown, teardown_steps in *. pose proof (teardown_completes _ os (with_cleanup true false x) Hl Hc) as Hd.
  destruct os as [|o1 [|o2 [|o3 [|o4 rest]]]]; try done.
  apply not_elem_of_cons in Hc as [C1 Hc]. apply not_elem_of_cons in Hc as [C2 Hc].
  apply not_elem_of_cons in Hc as [C3 Hc]. apply not_elem_of_cons in Hc as [C4 Hc].
  assert (∃ y, teardown_from teardown_steps (o1 :: o2 :: o3 :: o4 :: rest) (with_cleanup true false x) =
    teardown_from [Remote_workers; Telemetry_; Model_service; Backend_] rest y ∧
    task_runs y = false ∧ thread_runs y = false ∧ (grpc y = disabled ∨ grpc y = terminated)) as (y & E & Y1 & Y2 & Y3).
  { eexists. split; [simpl; destruct o1, o2, o3, o4; try done; reflexivity|].
    destruct o4; [| |done]; simpl; (split; [done|]); (split; [done|]);
      destruct o2, o3; try done; simpl; destruct o1; try done; simpl;
      destruct Hg as [Hg|Hg]; try done; rewrite ?Hg; simpl; repeat case_bool_decide; simpl; auto. }
  unfold teardown_steps in E. rewrite E in *. clear E.
  destruct (teardown_webhooks [Remote_workers; Telemetry_; Model_service; Backend_] rest y Y1 Y2) as [T1 T2].
  pose proof (teardown_grpc [Remote_workers; Telemetry_; Model_service; Backend_] rest y ltac:(set_solver)) as G.
  unfold live_writers. cbn [downloads_run task_runs thread_runs webhook_started grpc cleanup cleanup_completed downloads_end].
  rewrite T1, T2, G, Hd, !andb_false_r. by destruct Y3 as [-> | ->].
Qed.

End Lifespan.

(** ** Any number of engines *)

Module StoreSystem.
Import Lifespan.

Section System.
Context (canonical : string → string).

(** Where [lifespan] is. *)
Inductive phase := Acquiring_database | Acquiring_models | Serving | Cleaned | Drained | Released | Retained | Dead.
Record engine := Engine {
  db_path : string;
  models_dir : string;
  locks_ : StoreOwnership.t;
  at_ : phase;
  persist : bool;                (* [log_collector.persist] *)
  life : Lifespan.t
}.
Record sys := Sys { engines : gmap nat engine; os : StoreLock.locks }.

Definition set_engine (i : nat) (e : engine) (s : sys) : sys := Sys (<[i := e]> (engines s)) (os s).
Definition with_life (x : Lifespan.t) (e : engine) : engine :=
  Engine (db_path e) (models_dir e) (locks_ e) (at_ e) (persist e) x.
Definition goto (p : phase) (e : engine) : engine :=
  Engine (db_path e) (models_dir e) (locks_ e) p (persist e) (life e).
Definition with_locks (o : StoreOwnership.t) (p : phase) (persist_ : bool) (e : engine) : engine :=
  Engine (db_path e) (models_dir e) o p persist_ (life e).

Inductive label :=
| Launch (i : nat) (db dir : string)
| AcquireDatabase (i : nat) (a : StoreLock.attempt)
| AcquireModels (i : nat) (a : StoreLock.attempt)
| StartDownloads (i : nat) | StartWebhooks (i : nat) | StartGrpc (i : nat)
| DownloadsEnd (i : nat) | WebhooksEnd (i : nat)
| Teardown (i : nat) (outcomes : list step_outcome)
| FailStartup (i : nat)                             (* [_serve] raised before its [try] *)
| DrainOwnedWork (i : nat) (returned : bool)        (* [_drain_owned_work] *)
| EndLifespan (i : nat)
| Crash (i : nat).

Definition with_engine (i : nat) (s : sys) (k : engine → option sys) : option sys := e ← engines s !! i; k e.
Definition serving (i : nat) (s : sys) (f : Lifespan.t → Lifespan.t) : option sys :=
  with_engine i s (fun e => match at_ e with Serving => Some (set_engine i (with_life (f (life e)) e) s) | _ => None end).

Definition exec (l : label) (s : sys) : option sys :=
  match l with
  | Launch i db dir =>
      match engines s !! i, StoreOwnership.init canonical db dir with
      | None, Ok o => Some (set_engine i (Engine db dir o Acquiring_database false Lifespan.init) s)
      | _, _ => None
      end
  | AcquireDatabase i a =>
      with_engine i s (fun e => match at_ e with
        | Acquiring_database =>
            let '(o, os', r) := StoreOwnership.acquire_database i a (locks_ e) (os s) in
            Some (Sys (<[i := with_locks o (if is_ok r then Acquiring_models else Released) false e]> (engines s)) os')
        | _ => None end)
  | AcquireModels i a =>
      with_engine i s (fun e => match at_ e with
        | Acquiring_models =>
            let '(o, os', r) := StoreOwnership.acquire_model_store i a (locks_ e) (os s) in
            Some (Sys (<[i := with_locks o (if is_ok r then Serving else Released) (is_ok r) e]> (engines s)) os')
        | _ => None end)
  | StartDownloads i => serving i s start_downloads
  | StartWebhooks i => serving i s start_webhooks
  | StartGrpc i => serving i s start_grpc
  | DownloadsEnd i => with_engine i s (fun e => Some (set_engine i (with_life (downloads_end (life e)) e) s))
  | WebhooksEnd i => with_engine i s (fun e => Some (set_engine i (with_life (webhooks_end (life e)) e) s))
  | Teardown i outcomes =>
      with_engine i s (fun e => match at_ e with
        | Serving => Some (set_engine i (goto Cleaned (with_life (teardown outcomes (life e)) e)) s)
        | _ => None end)
  | FailStartup i =>
      with_engine i s (fun e => match at_ e with
        | Serving => if webhook_started (life e) || negb (bool_decide (grpc (life e) = disabled)) then None
                     else Some (set_engine i (goto Cleaned e) s)
        | _ => None end)
  | DrainOwnedWork i returned =>
      with_engine i s (fun e => match at_ e with
        | Cleaned => Some (set_engine i (goto Drained (with_life (if returned then downloads_end (life e) else life e) e)) s)
        | _ => None end)
  | EndLifespan i =>
      with_engine i s (fun e => match at_ e with
        | Drained =>
            match live_writers (life e) with
            | [] => let '(o, os') := StoreOwnership.release (locks_ e) (os s) in
                    Some (Sys (<[i := with_locks o Released false e]> (engines s)) os')
            | _ => Some (set_engine i (goto Retained e) s)
            end
        | _ => None end)
  | Crash i =>
      (* the process exits: its threads and tasks are gone and the system closes its files *)
      with_engine i s (fun e =>
        let '(o, os') := StoreOwnership.release (locks_ e) (os s) in
        Some (Sys (<[i := Engine (db_path e) (models_dir e) o Dead false Lifespan.init]> (engines s)) os'))
  end.

Inductive reachable : sys → Prop :=
| reach_init : reachable (Sys ∅ ∅)
| reach_step l s s' : reachable s → exec l s = Some s' → reachable s'.

(** The engine, or something it started, can still write its store. *)
Definition can_write (e : engine) : bool :=
  persist e || downloads_run (life e) || task_runs (life e) || thread_runs (life e) || grpc_runs (life e).

(** *** Invariant *)

(** The lifespan knows every writer that runs. *)
Definition known (x : Lifespan.t) : Prop :=
  (task_runs x = true ∨ thread_runs x = true → webhook_started x = true) ∧
  (grpc_runs x = true → grpc x = owned ∨ grpc x = stopping).

Definition quiet (e : engine) : Prop :=
  persist e = false ∧ downloads_run (life e) = false ∧ task_runs (life e) = false ∧
  thread_runs (life e) = false ∧ grpc_runs (life e) = false.

Definition owns (p : phase) : Prop := match p with Serving | Cleaned | Drained | Retained => True | _ => False end.

Record engine_ok (os : StoreLock.locks) (i : nat) (e : engine) : Prop := Ok_ {
  k_paths : StoreOwnership.lock_path_for canonical (db_path e) = Ok (StoreLock.path (StoreOwnership.database (locks_ e))) ∧
    StoreLock.path (StoreOwnership.model_store (locks_ e)) = StoreOwnership.model_store_lock_path canonical (models_dir e) ∧
    StoreLock.path (StoreOwnership.database (locks_ e)) ≠ StoreLock.path (StoreOwnership.model_store (locks_ e));
  k_db : StoreLock.held (StoreOwnership.database (locks_ e)) = true →
    os !! StoreLock.path (StoreOwnership.database (locks_ e)) = Some i;
  k_models : StoreLock.held (StoreOwnership.model_store (locks_ e)) = true →
    os !! StoreLock.path (StoreOwnership.model_store (locks_ e)) = Some i;
  k_known : known (life e);
  k_phase : match at_ e with
    | Acquiring_database | Released | Dead => StoreOwnership.held (locks_ e) = false ∧ quiet e
    | Acquiring_models => StoreLock.held (StoreOwnership.database (locks_ e)) = true ∧
        StoreLock.held (StoreOwnership.model_store (locks_ e)) = false ∧ quiet e
    | _ => StoreLock.held (StoreOwnership.database (locks_ e)) = true ∧ StoreLock.held (StoreOwnership.model_store (locks_ e)) = true
    end
}.
Definition ok (s : sys) : Prop := ∀ i e, engines s !! i = Some e → engine_ok (os s) i e.

Definition keeps_others (i : nat) (os os' : StoreLock.locks) : Prop :=
  ∀ p j, j ≠ i → os !! p = Some j → os' !! p = Some j.

Lemma ok_change s i e os' :
  ok s → keeps_others i (os s) os' → engine_ok os' i e → ok (Sys (<[i := e]> (engines s)) os').
Proof.
  intros H Hk He j x Hx. simpl in *. destruct (decide (j = i)) as [->|Hne].
  - rewrite lookup_insert_eq in Hx. by simplify_eq.
  - rewrite lookup_insert_ne in Hx by done. destruct (H j x Hx) as [K1 K2 K3 K4 K5].
    split; try done; intros Hh; apply Hk; auto.
Qed.
Lemma ok_life s i e x p : ok s → engines s !! i = Some e → known x →
  (owns p ∧ owns (at_ e)) ∨ (p = at_ e ∧ (¬ owns p → quiet (with_life x e))) →
  ok (set_engine i (goto p (with_life x e)) s).
Proof.
  intros H He Hx Hp. apply ok_change; [done|by intros ? ? ?|]. destruct (H i e He) as [K1 K2 K3 K4 K5].
  split; simpl; try done. destruct Hp as [[Hp He']|[-> Hq]].
  - destruct p, (at_ e); done.
  - destruct (at_ e); simpl in *; try done.
    + destruct K5 as [K5 _]. split; [done|]. apply Hq. by intros [].
    + destruct K5 as (K5 & K6 & _). split_and!; [done|done|]. apply Hq. by intros [].
    + destruct K5 as [K5 _]. split; [done|]. apply Hq. by intros [].
    + destruct K5 as [K5 _]. split; [done|]. apply Hq. by intros [].
Qed.

Lemma acquire_os me a l os : let '(l', os', r) := StoreLock.acquire me a l os in
  StoreLock.path l' = StoreLock.path l ∧
  (∀ p j, os !! p = Some j → os' !! p = Some j) ∧
  (is_ok r = true → StoreLock.held l' = true ∧ (StoreLock.held l = false → os' !! StoreLock.path l = Some me)) ∧
  (is_ok r = false → l' = l ∧ os' = os ∧ StoreLock.held l = false).
Proof.
  unfold StoreLock.acquire. destruct (StoreLock.held l) eqn:Eh; [split_and!; by auto|].
  destruct a; [split_and!; by auto|split_and!; by auto|].
  destruct (os !! StoreLock.path l) eqn:Eo; [split_and!; by auto|].
  split_and!; [done| | |done].
  - intros p j Hp. rewrite lookup_insert_ne; [done|]. intros <-. congruence.
  - intros _. split; [done|]. intros _. apply lookup_insert_eq.
Qed.
Lemma release_os me l os : (StoreLock.held l = true → os !! StoreLock.path l = Some me) →
  let '(l', os') := StoreLock.release l os in
  StoreLock.path l' = StoreLock.path l ∧ StoreLock.held l' = false ∧ keeps_others me os os' ∧
  (∀ p, p ≠ StoreLock.path l → os' !! p = os !! p).
Proof.
  intros H. unfold StoreLock.release. destruct (StoreLock.held l) eqn:Eh; [|split_and!; try done; by intros ? ? ?].
  split_and!; [done|done| |].
  - intros p j Hj Hp. rewrite lookup_delete_ne; [done|]. intros <-. rewrite H in Hp by done. congruence.
  - intros p Hp. by apply lookup_delete_ne.
Qed.
Lemma release_both i os e : engine_ok os i e →
  let '(o, os') := StoreOwnership.release (locks_ e) os in
  keeps_others i os os' ∧ StoreOwnership.held o = false ∧
  StoreLock.path (StoreOwnership.database o) = StoreLock.path (StoreOwnership.database (locks_ e)) ∧
  StoreLock.path (StoreOwnership.model_store o) = StoreLock.path (StoreOwnership.model_store (locks_ e)).
Proof.
  intros [K1 K2 K3 K4 K5]. unfold StoreOwnership.release.
  pose proof (release_os i (StoreOwnership.model_store (locks_ e)) os K3) as H1.
  destruct (StoreLock.release (StoreOwnership.model_store (locks_ e)) os) as [m os1].
  destruct H1 as (P1 & Q1 & R1 & S1).
  assert (StoreLock.held (StoreOwnership.database (locks_ e)) = true →
    os1 !! StoreLock.path (StoreOwnership.database (locks_ e)) = Some i) as K2'.
  { intros Hh. rewrite S1 by apply K1. auto. }
  pose proof (release_os i (StoreOwnership.database (locks_ e)) os1 K2') as H2.
  destruct (StoreLock.release (StoreOwnership.database (locks_ e)) os1) as [d os2].
  destruct H2 as (P2 & Q2 & R2 & S2). unfold StoreOwnership.held. simpl. rewrite Q1, Q2.
  split_and!; try done. intros p j Hj Hp. apply R2; [done|]. by apply R1.
Qed.

(** A writer the lifespan does not report as live does not run. *)
Lemma live_nil x : known x → live_writers x = [] →
  downloads_run x = false ∧ task_runs x = false ∧ thread_runs x = false ∧ grpc_runs x = false.
Proof.
  intros [Kw Kg] H. unfold live_writers in H.
  apply app_eq_nil in H as [H1 H]. apply app_eq_nil in H as [H2 H]. apply app_eq_nil in H as [H3 H].
  apply app_eq_nil in H as [H4 _]. split_and!.
  - by destruct (downloads_run x).
  - destruct (task_runs x); [|done]. by rewrite Kw in H2 by auto.
  - destruct (thread_runs x); [|done]. by rewrite Kw in H3 by auto.
  - destruct (grpc_runs x); [|done]. by destruct (Kg eq_refl) as [E|E]; rewrite E in H4.
Qed.

Lemma known_run_step k o x : known x → known (run_step k o x).
Proof.
  unfold known, run_step, act. intros [Kw Kg].
  destruct k, o; simpl; try (case_bool_decide; simpl); try done; split; try done; try tauto; naive_solver.
Qed.
Lemma known_teardown ks os x : known x → known (teardown_from ks os x).
Proof.
  revert os x. induction ks as [|k ks IH]; intros os x Hx; [done|]. destruct os as [|o os]; [done|]. simpl.
  pose proof (known_run_step k o x Hx). destruct o; auto.
Qed.

Lemma ok_serving i s f s' : ok s → (∀ x, known x → known (f x)) → serving i s f = Some s' → ok s'.
Proof.
  intros H Hf E. unfold serving, with_engine in E. destruct (engines s !! i) as [e|] eqn:He; [|done].
  cbn [mbind option_bind] in E. destruct (at_ e) eqn:Ea; try done. apply (inj Some) in E. subst.
  pose proof (ok_life s i e (f (life e)) Serving H He (Hf _ (k_known _ _ _ (H i e He)))) as Hk.
  unfold goto in Hk. simpl in Hk. rewrite <- Ea in Hk. apply Hk. left. by rewrite Ea.
Qed.
Lemma ok_writer_ends i s f s' : ok s → (∀ x, known x → known (f x)) →
  (∀ e, quiet e → quiet (with_life (f (life e)) e)) →
  with_engine i s (fun e => Some (set_engine i (with_life (f (life e)) e) s)) = Some s' → ok s'.
Proof.
  intros H Hf Hq E. unfold with_engine in E. destruct (engines s !! i) as [e|] eqn:He; [|done].
  cbn [mbind option_bind] in E. apply (inj Some) in E. subst.
  apply (ok_life s i e (f (life e)) (at_ e) H He (Hf _ (k_known _ _ _ (H i e He)))).
  right. split; [done|]. intros Ho. apply Hq. pose proof (k_phase _ _ _ (H i e He)) as Hp.
  destruct (at_ e); simpl in *; tauto.
Qed.

Lemma quiet_locks o p e : quiet e → quiet (with_locks o p false e).
Proof. intros (Q1 & Q2 & Q3 & Q4 & Q5). by split_and!. Qed.

Lemma ok_launch i db dir s s' : ok s → exec (Launch i db dir) s = Some s' → ok s'.
Proof.
  intros H E. simpl in E. destruct (engines s !! i) eqn:He; [done|].
  unfold StoreOwnership.init in E. destruct (StoreOwnership.lock_path_for canonical db) as [d|] eqn:Ed; [|done].
  case_bool_decide as Hd; [done|]. apply (inj Some) in E. subst. apply ok_change; [done|by intros ? ? ? ?|].
  split; simpl; try done. split; [by intros [?|?]|done].
Qed.
Lemma ok_acquire_database i a s s' : ok s → exec (AcquireDatabase i a) s = Some s' → ok s'.
Proof.
  intros H E. simpl in E. unfold with_engine in E. destruct (engines s !! i) as [e|] eqn:He; [|done].
  cbn [mbind option_bind] in E. destruct (at_ e) eqn:Ea; try done.
  destruct (H i e He) as [K1 K2 K3 K4 K5]. rewrite Ea in K5. destruct K5 as [Kh Kq].
  unfold StoreOwnership.acquire_database in E. pose proof (acquire_os i a (StoreOwnership.database (locks_ e)) (os s)) as Ho.
  destruct (StoreLock.acquire i a _ _) as [[l os'] r]. destruct Ho as (P & Q & R1 & R2). apply (inj Some) in E. subst.
  unfold StoreOwnership.held in Kh. apply orb_false_iff in Kh as [Kd Km].
  apply ok_change; [done|by intros p j _; apply Q|]. destruct (is_ok r) eqn:Er.
  - destruct (R1 eq_refl) as [R3 R4]. split; simpl; rewrite ?P, ?Km; try done; auto using quiet_locks.
  - destruct (R2 eq_refl) as (-> & -> & _). split; simpl; unfold StoreOwnership.held; simpl; rewrite ?Kd, ?Km; try done; auto using quiet_locks.
Qed.
Lemma ok_acquire_models i a s s' : ok s → exec (AcquireModels i a) s = Some s' → ok s'.
Proof.
  intros H E. simpl in E. unfold with_engine in E. destruct (engines s !! i) as [e|] eqn:He; [|done].
  cbn [mbind option_bind] in E. destruct (at_ e) eqn:Ea; try done.
  destruct (H i e He) as [K1 K2 K3 K4 K5]. rewrite Ea in K5. destruct K5 as (Kd & Km & Kq).
  unfold StoreOwnership.acquire_model_store in E. pose proof (acquire_os i a (StoreOwnership.model_store (locks_ e)) (os s)) as Ho.
  destruct (StoreLock.acquire i a _ _) as [[l os'] [u|err]]; destruct Ho as (P & Q & R1 & R2).
  - apply (inj Some) in E. subst. destruct (R1 eq_refl) as [R3 R4].
    apply ok_change; [done|by intros p j _; apply Q|]. split; simpl; rewrite ?P; try done; auto.
  - destruct (R2 eq_refl) as (-> & -> & _).
    pose proof (release_os i (StoreOwnership.database (locks_ e)) (os s) K2) as Hr.
    destruct (StoreLock.release _ _) as [d os2]. destruct Hr as (P2 & Q2 & R3 & S2). apply (inj Some) in E. subst.
    apply ok_change; [done|done|]. split; simpl; unfold StoreOwnership.held; simpl; rewrite ?P2, ?Q2, ?Km; try done; auto using quiet_locks.
Qed.
Lemma ok_teardown i outcomes s s' : ok s → exec (Teardown i outcomes) s = Some s' → ok s'.
Proof.
  intros H E. simpl in E. unfold with_engine in E. destruct (engines s !! i) as [e|] eqn:He; [|done].
  cbn [mbind option_bind] in E. destruct (at_ e) eqn:Ea; try done. apply (inj Some) in E. subst.
  apply ok_life; try done; [|left; by rewrite Ea]. apply known_teardown.
  apply (k_known _ _ _ (H i e He)).
Qed.
Lemma ok_fail_startup i s s' : ok s → exec (FailStartup i) s = Some s' → ok s'.
Proof.
  intros H E. simpl in E. unfold with_engine in E. destruct (engines s !! i) as [e|] eqn:He; [|done].
  cbn [mbind option_bind] in E. destruct (at_ e) eqn:Ea; try done. destruct (_ || _) in E; [done|].
  apply (inj Some) in E. subst.
  pose proof (ok_life s i e (life e) Cleaned H He (k_known _ _ _ (H i e He))) as Hk.
  unfold goto in *. simpl in *. apply Hk. left. by rewrite Ea.
Qed.
Lemma ok_drain i b s s' : ok s → exec (DrainOwnedWork i b) s = Some s' → ok s'.
Proof.
  intros H E. simpl in E. unfold with_engine in E. destruct (engines s !! i) as [e|] eqn:He; [|done].
  cbn [mbind option_bind] in E. destruct (at_ e) eqn:Ea; try done. apply (inj Some) in E. subst.
  apply ok_life; try done; [|left; by rewrite Ea]. pose proof (k_known _ _ _ (H i e He)). by destruct b.
Qed.
Lemma ok_end i s s' : ok s → exec (EndLifespan i) s = Some s' → ok s'.
Proof.
  intros H E. simpl in E. unfold with_engine in E. destruct (engines s !! i) as [e|] eqn:He; [|done].
  cbn [mbind option_bind] in E. destruct (at_ e) eqn:Ea; try done. pose proof (H i e He) as K.
  destruct (live_writers (life e)) eqn:El.
  - pose proof (release_both i (os s) e K) as Hr. destruct (StoreOwnership.release _ _) as [o os'].
    destruct Hr as (R1 & R2 & R3 & R4). apply (inj Some) in E. subst.
    pose proof (live_nil _ (k_known _ _ _ K) El) as Hl. apply ok_change; [done|done|].
    apply orb_false_iff in R2 as [R2 R2']. destruct K as [K1 K2 K3 K4 K5].
    split; simpl; rewrite ?R3, ?R4, ?R2, ?R2'; try done. unfold StoreOwnership.held. rewrite R2, R2'.
    split; [done|]. split; [done|exact Hl].
  - apply (inj Some) in E. subst. pose proof (ok_life s i e (life e) Retained H He (k_known _ _ _ K)) as Hk.
    unfold goto in *. simpl in *. apply Hk. left. by rewrite Ea.
Qed.
Lemma ok_crash i s s' : ok s → exec (Crash i) s = Some s' → ok s'.
Proof.
  intros H E. simpl in E. unfold with_engine in E. destruct (engines s !! i) as [e|] eqn:He; [|done].
  cbn [mbind option_bind] in E. pose proof (H i e He) as K. pose proof (release_both i (os s) e K) as Hr.
  destruct (StoreOwnership.release _ _) as [o os']. destruct Hr as (R1 & R2 & R3 & R4). apply (inj Some) in E. subst.
  apply ok_change; [done|done|]. pose proof R2 as R2'. apply orb_false_iff in R2' as [Ra Rb]. destruct K as [K1 K2 K3 K4 K5].
  split; simpl; rewrite ?R3, ?R4, ?Ra, ?Rb; try done. split; [by intros [?|?]|done].
Qed.

Lemma ok_exec l s s' : ok s → exec l s = Some s' → ok s'.
Proof.
  intros H E. destruct l as [i db dir|i a|i a|i|i|i|i|i|i os|i|i b|i|i].
  - by eapply ok_launch.
  - by eapply ok_acquire_database.
  - by eapply ok_acquire_models.
  - by eapply (ok_serving i s start_downloads).
  - eapply (ok_serving i s start_webhooks); [done| |exact E]. intros x [Kw Kg]. by split.
  - eapply (ok_serving i s start_grpc); [done| |exact E]. intros x [Kw Kg]. split; [done|]. by left.
  - eapply (ok_writer_ends i s downloads_end); [done|done| |exact E].
    intros e (Q1 & Q2 & Q3 & Q4 & Q5). by split_and!.
  - eapply (ok_writer_ends i s webhooks_end); [done| | |exact E].
    + intros x [Kw Kg]. split; simpl; [by intros [?|?]|done].
    + intros e (Q1 & Q2 & Q3 & Q4 & Q5). by split_and!.
  - by eapply ok_teardown.
  - by eapply ok_fail_startup.
  - by eapply ok_drain.
  - by eapply ok_end.
  - by eapply ok_crash.
Qed.
Lemma ok_reachable s : reachable s → ok s.
Proof. induction 1 as [|l s s' _ IH E]; [intros i e He; cbn [engines] in He; by rewrite lookup_empty in He|]. by eapply ok_exec. Qed.

(** C15. One engine per writable store: in any interleaving of engines that start, fail, serve,
    shut down (with steps of the teardown that fail or are cut short) or crash, two engines
    of which each can still write (its log mirror, a download, the webhook task or thread,
    the gRPC server) have different databases and different model directories, after
    resolving their paths; and an engine whose lifespan has ended without keeping its locks
    can write nothing. *)
Theorem store_exclusive s i j e f :
  reachable s → engines s !! i = Some e → engines s !! j = Some f →
  (i ≠ j → can_write e = true → can_write f = true →
     canonical (db_path e) ≠ canonical (db_path f) ∧ canonical (models_dir e) ≠ canonical (models_dir f)) ∧
  (at_ e = Released → can_write e = false ∧ StoreOwnership.held (locks_ e) = false).
Proof.
  intros Hs%ok_reachable He Hf. split.
  - intros Hne We Wf.
    assert (∀ k x, engines s !! k = Some x → can_write x = true →
      os s !! (canonical (db_path x) +:+ ".lock") = Some k ∧
      os s !! StoreOwnership.model_store_lock_path canonical (models_dir x) = Some k) as Hk.
    { intros k x Hx Wx. destruct (Hs k x Hx) as [(P1 & P2 & _) K2 K3 _ K5].
      assert (StoreLock.held (StoreOwnership.database (locks_ x)) = true ∧
              StoreLock.held (StoreOwnership.model_store (locks_ x)) = true) as [Hd Hm].
      { assert (¬ quiet x) as Hq.
        { intros (Q1 & Q2 & Q3 & Q4 & Q5). unfold can_write in Wx. by rewrite Q1, Q2, Q3, Q4, Q5 in Wx. }
        destruct (at_ x); tauto. }
      rewrite <- P2. split; [|by apply K3].
      unfold StoreOwnership.lock_path_for in P1. case_bool_decide; [done|]. injection P1 as ->. by apply K2. }
    destruct (Hk i e He We) as [D1 M1], (Hk j f Hf Wf) as [D2 M2].
    split; intros E; unfold StoreOwnership.model_store_lock_path in *; rewrite E in *; congruence.
  - intros Ea. pose proof (k_phase _ _ _ (Hs i e He)) as K. rewrite Ea in K. destruct K as [Kh (Q1 & Q2 & Q3 & Q4 & Q5)].
    split; [|done]. unfold can_write. by rewrite Q1, Q2, Q3, Q4, Q5.
Qed.

(** Both locks of an engine that releases them are free for the next one; no other lock file
    is touched. *)
Lemma release_frees i os e : engine_ok os i e → at_ e = Drained →
  let db := StoreLock.path (StoreOwnership.database (locks_ e)) in
  let models := StoreLock.path (StoreOwnership.model_store (locks_ e)) in
  let '(o, os') := StoreOwnership.release (locks_ e) os in
  StoreOwnership.held o = false ∧ os' !! db = None ∧ os' !! models = None ∧
  ∀ p, p ≠ db → p ≠ models → os' !! p = os !! p.
Proof.
  intros [_ _ _ _ K] Ea db models. rewrite Ea in K. destruct K as [Hd Hm].
  unfold StoreOwnership.release, StoreLock.release. fold db models. rewrite Hd, Hm. simpl.
  split_and!; [done|by rewrite lookup_delete_eq| |].
  - destruct (decide (db = models)) as [->|Hne]; [by rewrite lookup_delete_eq|].
    by rewrite lookup_delete_ne, lookup_delete_eq.
  - intros p H1 H2. by rewrite !lookup_delete_ne.
Qed.

(** C17. The locks are not kept for nothing.  Take a serving engine, in any reachable state of
    any number of engines, whose teardown runs every step (each returns or fails with an
    error, none is cut short) and whose gRPC edge, if it has one, stops.  Then its lifespan,
    through the final drain of the downloads, ends released: nothing it started can still
    write its store, it holds neither lock, the lock files of its database and of its model
    directory are free for another engine, and no other lock has changed. *)
Theorem complete_teardown_releases s i e outcomes :
  reachable s → engines s !! i = Some e → at_ e = Serving →
  length outcomes = length teardown_steps → Cut ∉ outcomes →
  grpc (life e) = disabled ∨ head outcomes = Some Returns →
  let db := canonical (db_path e) +:+ ".lock" in
  let models := StoreOwnership.model_store_lock_path canonical (models_dir e) in
  ∃ s1 s2 s3 e', exec (Teardown i outcomes) s = Some s1 ∧ exec (DrainOwnedWork i true) s1 = Some s2 ∧
    exec (EndLifespan i) s2 = Some s3 ∧ engines s3 !! i = Some e' ∧
    at_ e' = Released ∧ can_write e' = false ∧ StoreOwnership.held (locks_ e') = false ∧
    os s3 !! db = None ∧ os s3 !! models = None ∧
    ∀ p, p ≠ db → p ≠ models → os s3 !! p = os s !! p.
Proof.
  intros Hs He Ea Hl Hc Hg db models.
  pose proof (teardown_no_writers outcomes (life e) Hl Hc Hg) as Hw.
  assert (∃ s1, exec (Teardown i outcomes) s = Some s1 ∧
    s1 = set_engine i (goto Cleaned (with_life (teardown outcomes (life e)) e)) s) as (s1 & E1 & D1).
  { eexists. simpl. unfold with_engine. rewrite He. simpl. by rewrite Ea. }
  set (e2 := goto Drained (with_life (downloads_end (teardown outcomes (life e))) e)).
  assert (∃ s2, exec (DrainOwnedWork i true) s1 = Some s2 ∧ engines s2 !! i = Some e2 ∧ os s2 = os s) as (s2 & E2 & He2 & Eos).
  { eexists. simpl. unfold with_engine. subst s1. simpl. rewrite lookup_insert_eq. simpl.
    split; [done|]. simpl. by rewrite lookup_insert_eq. }
  assert (reachable s2) as Hs2 by (eapply reach_step; [eapply reach_step; [exact Hs|exact E1]|exact E2]).
  pose proof (ok_reachable s2 Hs2 i e2 He2) as K. pose proof (release_frees i (os s2) e2 K eq_refl) as F.
  assert (∃ s3 e', exec (EndLifespan i) s2 = Some s3 ∧ engines s3 !! i = Some e' ∧ at_ e' = Released ∧
    (locks_ e', os s3) = StoreOwnership.release (locks_ e2) (os s2)) as (s3 & e' & E3 & He' & Ea' & Hr).
  { simpl. unfold with_engine. rewrite He2. cbn [mbind option_bind]. simpl. rewrite Hw.
    destruct (StoreOwnership.release _ _) as [o os'] eqn:R. do 2 eexists. split; [done|]. simpl. by rewrite lookup_insert_eq. }
  pose proof (k_paths _ _ _ K) as (P1 & P2 & _). simpl in P1, P2.
  unfold StoreOwnership.lock_path_for in P1. case_bool_decide; [done|]. injection P1 as P1.
  exists s1, s2, s3, e'. rewrite <- Hr in F. simpl in F. rewrite <- P1, P2, Eos in F. destruct F as (F1 & F2 & F3 & F4).
  assert (reachable s3) as Hs3 by (by eapply reach_step).
  pose proof (k_phase _ _ _ (ok_reachable s3 Hs3 i e' He')) as K'. rewrite Ea' in K'. destruct K' as [_ (Q1 & Q2 & Q3 & Q4 & Q5)].
  split_and!; try done. unfold can_write. by rewrite Q1, Q2, Q3, Q4, Q5.
Qed.

End System.

(** A run of two engines over different stores; then one that shares a model directory with
    the first and is refused. *)
Fixpoint run (canonical : string → string) (ls : list label) (s : sys) : option sys :=
  match ls with [] => Some s | l :: ls' => s' ← exec canonical l s; run canonical ls' s' end.
Lemma store_run_reachable canonical ls s s' : reachable canonical s → run canonical ls s = Some s' → reachable canonical s'.
Proof.
  revert s. induction ls as [|l ls IH]; intros s Hs E; simpl in E; [congruence|].
  destruct (exec canonical l s) as [s1|] eqn:E1; [|done]. cbn [mbind option_bind] in E.
  apply (IH s1); [|done]. by eapply reach_step.
Qed.
Definition demo : list label :=
  [Launch 0 "/a/e.db" "/a/models"; AcquireDatabase 0 StoreLock.Tries; AcquireModels 0 StoreLock.Tries;
   Launch 1 "/b/e.db" "/b/models"; AcquireDatabase 1 StoreLock.Tries; AcquireModels 1 StoreLock.Tries;
   StartDownloads 0; StartWebhooks 1;
   Launch 2 "/c/e.db" "/a/models"; AcquireDatabase 2 StoreLock.Tries; AcquireModels 2 StoreLock.Tries].

Definition demo_outcomes : list step_outcome := [Returns; Raises; Returns; Raises; Returns; Returns; Raises; Returns].

End StoreSystem.

Lemma store_exclusive_witness :
  ∃ s e f g, StoreSystem.run id StoreSystem.demo (StoreSystem.Sys ∅ ∅) = Some s ∧
    StoreSystem.engines s !! 0%nat = Some e ∧ StoreSystem.engines s !! 1%nat = Some f ∧
    StoreSystem.engines s !! 2%nat = Some g ∧
    StoreSystem.can_write e = true ∧ StoreSystem.can_write f = true ∧
    StoreSystem.db_path e ≠ StoreSystem.db_path f ∧ StoreSystem.can_write g = false.
Proof.
  assert (∃ s e f g, StoreSystem.run id StoreSystem.demo (StoreSystem.Sys ∅ ∅) = Some s ∧
    StoreSystem.engines s !! 0%nat = Some e ∧ StoreSystem.engines s !! 1%nat = Some f ∧
    StoreSystem.engines s !! 2%nat = Some g ∧
    StoreSystem.can_write e = true ∧ StoreSystem.can_write f = true ∧ StoreSystem.at_ g = StoreSystem.Released)
    as (s & e & f & g & E & He & Hf & Hg & We & Wf & Ag)
    by (do 4 eexists; split; [vm_compute; reflexivity|]; split_and!; vm_compute; reflexivity).
  exists s, e, f, g. split_and!; try assumption.
  - apply (StoreSystem.store_exclusive id s 0 1 e f); try assumption; [|lia].
    eapply StoreSystem.store_run_reachable; [apply StoreSystem.reach_init|exact E].
  - apply (StoreSystem.store_exclusive id s 2 1 g f); try assumption.
    eapply StoreSystem.store_run_reachable; [apply StoreSystem.reach_init|exact E].
Defined.

Lemma complete_teardown_releases_witness :
  ∃ s s1 s2 s3, StoreSystem.run id StoreSystem.demo (StoreSystem.Sys ∅ ∅) = Some s ∧
    StoreSystem.exec id (StoreSystem.Teardown 1 StoreSystem.demo_outcomes) s = Some s1 ∧
    StoreSystem.exec id (StoreSystem.DrainOwnedWork 1 true) s1 = Some s2 ∧
    StoreSystem.exec id (StoreSystem.EndLifespan 1) s2 = Some s3 ∧
    StoreSystem.os s3 !! "/b/e.db.lock" = None.
Proof.
  assert (∃ s e, StoreSystem.run id StoreSystem.demo (StoreSystem.Sys ∅ ∅) = Some s ∧
    StoreSystem.engines s !! 1%nat = Some e ∧ StoreSystem.at_ e = StoreSystem.Serving ∧
    Lifespan.grpc (StoreSystem.life e) = Lifespan.disabled ∧ StoreSystem.db_path e = "/b/e.db")
    as (s & e & E & He & Ae & Ge & Pe) by (do 2 eexists; split; [vm_compute; reflexivity|]; split_and!; vm_compute; reflexivity).
  destruct (StoreSystem.complete_teardown_releases id s 1 e StoreSystem.demo_outcomes) as (s1 & s2 & s3 & e' & E1 & E2 & E3 & _ & _ & _ & _ & F & _).
  - eapply StoreSystem.store_run_reachable; [apply StoreSystem.reach_init|exact E].
  - exact He.
  - exact Ae.
  - reflexivity.
  - vm_compute. set_solver.
  - left. exact Ge.
  - exists s, s1, s2, s3. rewrite Pe in F. split_and!; assumption.
Defined.
