(* ===== verification/Serve.v ===== *)
(** * Startup of an engine ([_serve] and [_complete] in [engine/main.py])

    [Module Serve]: what [_serve] does before it yields, in order: migrations, recovery of
    interrupted downloads, the default plan, the configured model, the backend, the remote
    workers ([prepare]); then, under the [try] whose [finally] is the teardown, the health
    loop, the webhook worker, the sampler and the gRPC edge ([start_tasks]).  The teardown is
    that of [Ownership.Lifespan], extended to what is no store writer.  [Module Complete] is
    the await that survives cancellation.

    How each awaited or fallible call ends is an argument ([answers]). *)

From S2P Require Import Prelude Crypto Text Sql Store Billing Ownership.

Open Scope Z_scope.

Module Serve.

(** What [_serve] reads of the settings; [pooled] tells whether there are remote workers or
    external providers. *)
Record settings := Settings {
  default_plan : option string;
  quota_5h_cu : Q;
  quota_weekly_cu : Q;
  model_path : option string;
  backend_kind : string;
  injected_backend : bool;
  backend_health_interval_s : Q;
  pooled : bool;
  webhooks_enabled : bool;
  metrics_interval_s : Q;
  grpc_enabled : bool
}.

(** How building and loading a backend ends: loaded, refused with a [BackendError], or with
    anything else, a cancellation included. *)
Inductive load_answer := Loaded | Refused | Raised (e : exn).
Record answers := Answers {
  migrated : result exn bool;            (* [apply_migrations], then [migrations_at_head] *)
  reconciled : result exn nat;
  seeded : option exn;                   (* an error of the database *)
  registered : result exn unit;
  backend_load : load_answer;
  worker_loads : list load_answer;       (* one per remote worker *)
  grpc_created : option exn;
  grpc_started : option exn
}.

Record t := Mk {
  db : Db.t;
  migrations_ready : bool;
  built : bool;                          (* a backend this engine built is loaded *)
  workers : list bool;                   (* the remote workers that are loaded *)
  health_task : bool;
  sampler : bool;
  in_try : bool;                         (* the teardown will run *)
  life : Lifespan.t
}.
Definition init (d : Db.t) (n : nat) : t := Mk d false false (replicate n false) false false false Lifespan.init.

Definition set_db (d : Db.t) (s : t) : t := Mk d (migrations_ready s) (built s) (workers s) (health_task s) (sampler s) (in_try s) (life s).
Definition set_ready (b : bool) (s : t) : t := Mk (db s) b (built s) (workers s) (health_task s) (sampler s) (in_try s) (life s).
Definition set_built (b : bool) (s : t) : t := Mk (db s) (migrations_ready s) b (workers s) (health_task s) (sampler s) (in_try s) (life s).
Definition set_workers (w : list bool) (s : t) : t := Mk (db s) (migrations_ready s) (built s) w (health_task s) (sampler s) (in_try s) (life s).
Definition set_health (b : bool) (s : t) : t := Mk (db s) (migrations_ready s) (built s) (workers s) b (sampler s) (in_try s) (life s).
Definition set_sampler (b : bool) (s : t) : t := Mk (db s) (migrations_ready s) (built s) (workers s) (health_task s) b (in_try s) (life s).
Definition enter_try (s : t) : t := Mk (db s) (migrations_ready s) (built s) (workers s) (health_task s) (sampler s) true (life s).
Definition set_life (x : Lifespan.t) (s : t) : t := Mk (db s) (migrations_ready s) (built s) (workers s) (health_task s) (sampler s) (in_try s) x.

Definition change (f : t → t) : stmt t unit := fun s => (f s, Ok ()).
Definition when (b : bool) (c : stmt t unit) : stmt t unit := if b then c else mret ().
Definition may_raise (e : option exn) : stmt t unit := match e with Some e => raise e | None => mret () end.
Definition lift {A} (r : result exn A) : stmt t A := fun s => (s, r).

(** The seeding of the default plan. *)
Definition plan_of (cfg : settings) (i : string) : Db.plan :=
  Db.Plan i i (quota_5h_cu cfg) (quota_weekly_cu cfg) None None.
Definition seed (cfg : settings) (ans : answers) : stmt t unit :=
  match default_plan cfg with
  | Some i => if str_true i then may_raise (seeded ans);; change (fun s => set_db (BillingStore.upsert_plan (plan_of cfg i) (db s)) s)
              else mret ()
  | None => mret ()
  end.
Definition backend_configured (cfg : settings) : bool :=
  match model_path cfg with Some _ => true | None => negb (bool_decide (backend_kind cfg = "llamacpp")) end.
Definition load_backend (cfg : settings) (ans : answers) : stmt t unit :=
  when (negb (injected_backend cfg) && backend_configured cfg)
    (match backend_load ans with
     | Loaded => change (set_built true)
     | Refused => mret ()
     | Raised e => raise e
     end).
Fixpoint load_workers (done : list bool) (l : list load_answer) : stmt t unit :=
  match l with
  | [] => mret ()
  | Loaded :: l' => change (set_workers (done ++ true :: map (fun _ => false) l'));; load_workers (done ++ [true]) l'
  | Refused :: l' => load_workers (done ++ [false]) l'
  | Raised e :: _ => raise e
  end.
(** Up to the [try]. *)
Definition prepare (cfg : settings) (ans : answers) : stmt t unit :=
  head ← lift (migrated ans);
  change (set_ready head);;
  _ ← lift (reconciled ans);
  seed cfg ans;;
  when (match model_path cfg with Some _ => true | None => false end) (lift (registered ans));;
  load_backend cfg ans;;
  load_workers [] (worker_loads ans).
(** The tasks; [state.grpc] is set before the start is awaited. *)
Definition start_tasks (cfg : settings) (ans : answers) : stmt t unit :=
  change enter_try;;
  when (bool_decide (0 < backend_health_interval_s cfg)%Q && pooled cfg) (change (set_health true));;
  when (webhooks_enabled cfg) (change (fun s => set_life (Lifespan.start_webhooks (life s)) s));;
  when (bool_decide (0 < metrics_interval_s cfg)%Q) (change (set_sampler true));;
  when (grpc_enabled cfg)
    (may_raise (grpc_created ans);;
     change (fun s => set_life (Lifespan.start_grpc (life s)) s);;
     may_raise (grpc_started ans)).
(** [_serve] up to its [yield] *)
Definition serve_start (cfg : settings) (ans : answers) : stmt t unit := prepare cfg ans;; start_tasks cfg ans.

(** *** The teardown, with what is no store writer *)

(** How [worker.unload()] ends for one worker: it returns, or [client.aclose()] raises an
    [Exception], which leaves the worker READY and is suppressed. *)
Inductive unload_end := Unloads | Close_raises.
(** The loop of [unload_remote_workers], as far as it got: a worker without an entry was not
    reached. *)
Fixpoint unload_workers (us : list unload_end) (ws : list bool) : list bool :=
  match us, ws with
  | Unloads :: us', _ :: ws' => false :: unload_workers us' ws'
  | Close_raises :: us', w :: ws' => w :: unload_workers us' ws'
  | [], ws => ws
  | _, [] => []
  end.
(** What a step of the teardown does to what is no store writer: a task that is awaited is over
    unless the await is cancelled; [telemetry.stop] and [active.unload()] have done their work
    when they return; the workers are unloaded one by one, also by a step that is cut. *)
Definition act (cfg : settings) (us : list unload_end) (k : Lifespan.teardown_step) (o : Lifespan.step_outcome) (s : t) : t :=
  let s := set_life (Lifespan.run_step k o (life s)) s in
  match k, o with
  | Lifespan.Health_task, (Lifespan.Returns | Lifespan.Raises) => set_health false s
  | Lifespan.Remote_workers, _ => set_workers (unload_workers us (workers s)) s
  | Lifespan.Telemetry_, Lifespan.Returns => set_sampler false s
  | Lifespan.Backend_, Lifespan.Returns => if injected_backend cfg then s else set_built false s
  | _, _ => s
  end.
Fixpoint teardown_from (cfg : settings) (us : list unload_end) (ks : list Lifespan.teardown_step) (os : list Lifespan.step_outcome) (s : t) : t :=
  match ks, os with
  | [], _ => set_life (Lifespan.with_cleanup (Lifespan.cleanup (life s)) true (life s)) s
  | k :: ks', o :: os' =>
      let s := act cfg us k o s in
      match o with Lifespan.Cut => s | _ => teardown_from cfg us ks' os' s end
  | _ :: _, [] => s
  end.
(** The [finally] of [_serve], which runs when the [try] was entered. *)
Definition teardown (cfg : settings) (us : list unload_end) (os : list Lifespan.step_outcome) (s : t) : t :=
  if in_try s then teardown_from cfg us Lifespan.teardown_steps os (set_life (Lifespan.with_cleanup true false (life s)) s) else s.

(** The teardown of the writers is that of the lifespan. *)
Lemma teardown_life cfg us ks os s : life (teardown_from cfg us ks os s) = Lifespan.teardown_from ks os (life s).
Proof.
  revert os s. induction ks as [|k ks IH]; intros os s; [done|]. destruct os as [|o os]; [done|]. cbn [teardown_from Lifespan.teardown_from].
  assert (life (act cfg us k o s) = Lifespan.run_step k o (life s)) as E
    by (destruct k, o; simpl; try done; by destruct (injected_backend cfg)).
  destruct o; rewrite ?IH; by rewrite E.
Qed.

(** Nothing but the database and the backends is touched before the [try]. *)
Definition quiet (s : t) : Prop :=
  life s = Lifespan.init ∧ health_task s = false ∧ sampler s = false ∧ in_try s = false.
Lemma pres_change I f : (∀ s, I s → I (f s)) → pres I (change f).
Proof. intros H s Hs. by apply H. Qed.
Lemma pres_lift {A} I (r : result exn A) : pres I (lift r).
Proof. by intros s Hs. Qed.
Lemma quiet_load_workers done l : pres quiet (load_workers done l).
Proof.
  revert done. induction l as [|[| |e] l IH]; intros done; simpl; [apply pres_ret| | |apply pres_raise]; [|apply IH].
  apply pres_bind; [by apply pres_change|intros _; apply IH].
Qed.
Lemma quiet_prepare cfg ans : pres quiet (prepare cfg ans).
Proof.
  unfold prepare, seed, load_backend, when, may_raise.
  repeat first [apply pres_lift | by apply pres_change | apply quiet_load_workers | pres_step].
Qed.

(** What runs once the tasks are started, as configured; [grpc] tells how far the edge got. *)
Definition configured (cfg : settings) (grpc : bool) (s : t) : Prop :=
  in_try s = true
  ∧ health_task s = bool_decide (0 < backend_health_interval_s cfg)%Q && pooled cfg
  ∧ sampler s = bool_decide (0 < metrics_interval_s cfg)%Q
  ∧ Lifespan.webhook_started (life s) = webhooks_enabled cfg
  ∧ Lifespan.grpc (life s) = if grpc then Lifespan.owned else Lifespan.disabled.
Lemma tasks_configured cfg ans s s' r : quiet s → start_tasks cfg ans s = (s', r) →
  match r with
  | Ok _ => configured cfg (grpc_enabled cfg) s'
  | Err _ => configured cfg (bool_decide (grpc_created ans = None)) s' ∧ grpc_enabled cfg = true
  end.
Proof.
  intros (Hl & Hh & Hsm & _). unfold start_tasks, configured, when, may_raise.
  destruct (bool_decide (0 < backend_health_interval_s cfg)%Q && pooled cfg), (webhooks_enabled cfg),
    (bool_decide (0 < metrics_interval_s cfg)%Q), (grpc_enabled cfg), (grpc_created ans), (grpc_started ans);
    cbv [mbind stmt_bind change raise mret stmt_ret]; intros [= <- <-]; cbn; rewrite ?Hl, ?Hh, ?Hsm; done.
Qed.

(** How a start ends: before the [try] with nothing running, or in it with what was
    configured running, the gRPC edge possibly created and not started. *)
Lemma serve_start_cases cfg ans s s' r : quiet s → serve_start cfg ans s = (s', r) →
  (quiet s' ∧ ¬ is_ok r) ∨ (∃ g, configured cfg g s' ∧ (is_ok r → g = grpc_enabled cfg)).
Proof.
  intros Hq. unfold serve_start, mbind, stmt_bind. destruct (prepare cfg ans s) as [s1 [u|e]] eqn:E.
  - intros H. pose proof (tasks_configured cfg ans s1 s' r (pres_elim _ _ _ _ _ (quiet_prepare cfg ans) E Hq) H) as Ht. right.
    destruct r as [?|?]; [by exists (grpc_enabled cfg); split|]. destruct Ht as [Ht _]. eexists. split; [exact Ht|by intros []].
  - intros [= <- <-]. left. split; [|by intros []]. by eapply (pres_elim _ _ _ _ _ (quiet_prepare cfg ans)).
Qed.

(** Every step returned. *)
Definition all_return : list Lifespan.step_outcome := replicate (length Lifespan.teardown_steps) Lifespan.Returns.
(** A worker that is still loaded is one whose close raised. *)
Definition unloaded (us : list unload_end) (ws : list bool) : Prop :=
  ∀ i, ws !! i = Some true → us !! i = Some Close_raises.
Definition released (us : list unload_end) (s : t) : Prop :=
  health_task s = false ∧ sampler s = false ∧ unloaded us (workers s) ∧ built s = false
  ∧ Lifespan.live_writers (Lifespan.downloads_end (life s)) = [].
Lemma unload_workers_all us ws : length us = length ws → unloaded us (unload_workers us ws).
Proof.
  revert ws. induction us as [|u us IH]; intros [|w ws] Hl [|i] Hi; simpl in *; try done; destruct u; simpl in *;
    try done; apply (IH ws); auto.
Qed.
Lemma unload_workers_length us ws : length (unload_workers us ws) = length ws.
Proof. revert ws. induction us as [|[] us IH]; intros [|w ws]; simpl; try done; by rewrite IH. Qed.
Lemma act_workers cfg us k o s : length (workers (act cfg us k o s)) = length (workers s).
Proof. destruct k, o; simpl; try done; rewrite ?unload_workers_length; try done; by destruct (injected_backend cfg). Qed.
(** A step that returns releases what is its own and takes up nothing. *)
Lemma act_releases cfg us k s : length us = length (workers s) → let s' := act cfg us k Lifespan.Returns s in
  (k = Lifespan.Health_task ∨ health_task s = false → health_task s' = false)
  ∧ (k = Lifespan.Telemetry_ ∨ sampler s = false → sampler s' = false)
  ∧ (k = Lifespan.Remote_workers ∨ unloaded us (workers s) → unloaded us (workers s'))
  ∧ ((k = Lifespan.Backend_ ∧ injected_backend cfg = false) ∨ built s = false → built s' = false).
Proof.
  intros Hl. pose proof (unload_workers_all us (workers s) Hl).
  destruct k; simpl; try destruct (injected_backend cfg); simpl; split_and!; intros H'; try done; destruct H' as [H'|H']; try done;
    by destruct H'.
Qed.
Lemma teardown_releases cfg us ks s : length us = length (workers s) →
  let s' := teardown_from cfg us ks (replicate (length ks) Lifespan.Returns) s in
  (Lifespan.Health_task ∈ ks ∨ health_task s = false → health_task s' = false)
  ∧ (Lifespan.Telemetry_ ∈ ks ∨ sampler s = false → sampler s' = false)
  ∧ (Lifespan.Remote_workers ∈ ks ∨ unloaded us (workers s) → unloaded us (workers s'))
  ∧ ((Lifespan.Backend_ ∈ ks ∧ injected_backend cfg = false) ∨ built s = false → built s' = false).
Proof.
  revert s. induction ks as [|k ks IH]; intros s Hl.
  - cbn. split_and!; intros [H|H]; try done; first [by apply not_elem_of_nil in H|by destruct H as [H%not_elem_of_nil _]].
  - cbn [length replicate teardown_from]. cbn zeta. destruct (act_releases cfg us k s Hl) as (A1 & A2 & A3 & A4).
    destruct (IH (act cfg us k Lifespan.Returns s)) as (B1 & B2 & B3 & B4); [by rewrite act_workers|]. rewrite !elem_of_cons.
    split_and!.
    + intros H. apply B1. destruct H as [[<-|H]|H]; [right; apply A1; by left|by left|right; apply A1; by right].
    + intros H. apply B2. destruct H as [[<-|H]|H]; [right; apply A2; by left|by left|right; apply A2; by right].
    + intros H. apply B3. destruct H as [[<-|H]|H]; [right; apply A3; by left|by left|right; apply A3; by right].
    + intros H. apply B4. destruct H as [[[<-|H] Hi]|H]; [right; apply A4; by left|by left|right; apply A4; by right].
Qed.
Lemma teardown_released cfg us s : in_try s = true → length us = length (workers s) →
  (injected_backend cfg = true → built s = false) → released us (teardown cfg us all_return s).
Proof.
  intros Ht Hu Hb. unfold teardown. rewrite Ht. unfold released. rewrite teardown_life.
  pose proof (Lifespan.teardown_no_writers all_return (life s)) as W. unfold Lifespan.teardown in W.
  set (s0 := set_life _ s). change (life s0) with (Lifespan.with_cleanup true false (life s)).
  pose proof (teardown_releases cfg us Lifespan.teardown_steps s0 Hu) as R. fold all_return in R. cbn zeta in R.
  destruct R as (R1 & R2 & R3 & R4). assert (built s0 = built s) as Hb0 by done. clearbody s0.
  generalize dependent (teardown_from cfg us Lifespan.teardown_steps all_return s0). intros s1 R1 R2 R3 R4.
  generalize dependent (Lifespan.teardown_from Lifespan.teardown_steps all_return (Lifespan.with_cleanup true false (life s))). intros x W.
  assert (∀ k, k ∈ Lifespan.teardown_steps) as Hall by (intros []; repeat constructor).
  split_and!; [apply R1; left; apply Hall|apply R2; left; apply Hall|apply R3; left; apply Hall| |].
  - apply R4. rewrite Hb0. destruct (injected_backend cfg); [right; by apply Hb|left; split; [apply Hall|done]].
  - apply W; [done| |by right]. unfold all_return. intros H%elem_of_replicate. by destruct H.
Qed.

(** An injected backend is not this engine's to load. *)
Definition not_built (cfg : settings) (s : t) : Prop := injected_backend cfg = true → built s = false.
Lemma not_built_load_workers cfg done l : pres (not_built cfg) (load_workers done l).
Proof.
  revert done. induction l as [|[| |e] l IH]; intros done; simpl; [apply pres_ret| | |apply pres_raise]; [|apply IH].
  apply pres_bind; [by apply pres_change|intros _; apply IH].
Qed.
Lemma not_built_start cfg ans : pres (not_built cfg) (serve_start cfg ans).
Proof.
  unfold serve_start, prepare, start_tasks, seed, load_backend, when, may_raise.
  repeat first [apply pres_lift | by apply pres_change | apply not_built_load_workers
               | apply pres_change; intros ? ? Hi; rewrite Hi in *; done | pres_step].
Qed.

(** The list of workers keeps its length. *)
Definition as_many (n : nat) (s : t) : Prop := length (workers s) = n.
Lemma workers_load_workers done l n : (length done + length l)%nat = n → pres (as_many n) (load_workers done l).
Proof.
  revert done. induction l as [|[| |e] l IH]; intros done Hn; simpl in *; [apply pres_ret| | |apply pres_raise].
  - apply pres_bind; [|intros _; apply IH; rewrite length_app; simpl; lia].
    apply pres_change. intros s _. unfold as_many. simpl. rewrite length_app. simpl. rewrite length_map. lia.
  - apply IH. rewrite length_app. simpl. lia.
Qed.
Lemma workers_start cfg ans : pres (as_many (length (worker_loads ans))) (serve_start cfg ans).
Proof.
  unfold serve_start, prepare, start_tasks, seed, load_backend, when, may_raise.
  repeat first [apply pres_lift | by apply pres_change | by apply workers_load_workers | pres_step].
Qed.

(** C16. A start is accounted for.  One that succeeds runs exactly the configured tasks under
    the teardown.  One that fails once the tasks begin is under the teardown too; one that
    fails before leaves no task, no webhook worker and no gRPC edge, so that no writer keeps
    the locks, but the teardown does not run: what it had loaded stays loaded.  When the
    teardown runs and each of its steps returns, no task, no built backend and no store writer
    is left, and the only remote workers still loaded are those whose close raised (which
    [unload_remote_workers] suppresses). *)
Theorem startup_accounted cfg ans d s r us :
  serve_start cfg ans (init d (length (worker_loads ans))) = (s, r) → length us = length (worker_loads ans) →
  (is_ok r = true → in_try s = true ∧ configured cfg (grpc_enabled cfg) s) ∧
  if in_try s then released us (teardown cfg us all_return s)
  else health_task s = false ∧ sampler s = false ∧ Lifespan.live_writers (life s) = [] ∧ teardown cfg us all_return s = s.
Proof.
  intros E Hu. assert (quiet (init d (length (worker_loads ans)))) as Hq by done.
  assert (length (workers s) = length (worker_loads ans)) as Hw.
  { apply (pres_elim _ _ _ _ _ (workers_start cfg ans) E). unfold as_many. simpl. apply length_replicate. }
  destruct (serve_start_cases cfg ans _ _ _ Hq E) as [[(Hl & Hh & Hs & Ht) Hr]|(g & Hc & Hg)].
  - split; [by destruct r|]. rewrite Ht. split_and!; [done|done|by rewrite Hl|]. unfold teardown. by rewrite Ht.
  - split.
    + intros Hr. split; [apply Hc|]. rewrite Hr in Hg. by rewrite <- (Hg I).
    + destruct Hc as (Ht & Hc). rewrite Ht. apply teardown_released; [done|by rewrite Hw|].
      exact (pres_elim _ _ _ _ _ (not_built_start cfg ans) E (fun _ => eq_refl)).
Qed.

(** *** The default plan *)

Lemma upsert_get p d j : BillingStore.get_plan j (BillingStore.upsert_plan p d) =
  if bool_decide (j = Db.pl_id p) then Some p else BillingStore.get_plan j d.
Proof.
  unfold BillingStore.get_plan, BillingStore.upsert_plan, Sql.fetchone.
  destruct (existsb _ _) eqn:E; cbn [Db.plans Db.with_plans].
  - unfold Sql.update. induction (Db.plans d) as [|q l IH]; [done|]. cbn in *.
    destruct (bool_decide_reflect (Db.pl_id q = Db.pl_id p)) as [Hq|Hq].
    + destruct (bool_decide_reflect (Db.pl_id p = j)) as [<-|Hj]; [by rewrite bool_decide_true|].
      rewrite (bool_decide_false (j = _)) by congruence. rewrite (bool_decide_false (Db.pl_id q = j)) by congruence.
      clear -Hj. induction l as [|x l IH]; [done|]. cbn. destruct (bool_decide_reflect (Db.pl_id x = Db.pl_id p)) as [Hx|Hx].
      * rewrite (bool_decide_false (Db.pl_id p = j)), (bool_decide_false (Db.pl_id x = j)) by congruence. exact IH.
      * destruct (bool_decide (Db.pl_id x = j)); [done|exact IH].
    + destruct (bool_decide_reflect (Db.pl_id q = j)) as [<-|Hj]; [by rewrite bool_decide_false|]. by apply IH.
  - unfold Sql.insert. induction (Db.plans d) as [|q l IH]; cbn in *.
    + destruct (bool_decide_reflect (Db.pl_id p = j)) as [<-|Hj]; [by rewrite bool_decide_true|].
      by rewrite bool_decide_false by congruence.
    + apply orb_false_iff in E as [Hq%bool_decide_eq_false E].
      destruct (bool_decide_reflect (Db.pl_id q = j)) as [<-|Hj]; [by rewrite bool_decide_false|]. by apply IH.
Qed.
(** The quotas of the settings, with no rate limit and every model, are the default plan
    after every start, whatever it was before; other plans are untouched. *)
Theorem default_plan_reset cfg ans d n i : default_plan cfg = Some i → str_true i = true → seeded ans = None →
  ∀ j, BillingStore.get_plan j (db (fst (seed cfg ans (init d n))))
       = if bool_decide (j = i) then Some (plan_of cfg i) else BillingStore.get_plan j d.
Proof. intros Hi Ht Hs j. unfold seed. rewrite Hi, Ht, Hs. cbn. apply (upsert_get (plan_of cfg i)). Qed.

Definition cfg0 : settings := Settings (Some "free") 100 1000 None "llamacpp" false 0 false true 5 true.
Definition ans0 : answers := Answers (Ok true) (Ok 0%nat) None (Ok ()) Loaded [] None None.
(** What an operator set for the default plan is gone after a restart: here a rate limit and a
    list of allowed models. *)
Example restart_resets_plan :
  let refined := Db.Plan "free" "Free" 10 50 (Some 5) (Some ["small"]) in
  let d := BillingStore.upsert_plan refined Db.empty in
  BillingStore.get_plan "free" (db (fst (serve_start cfg0 ans0 (init d 0)))) = Some (Db.Plan "free" "free" 100 1000 None None).
Proof. vm_compute. reflexivity. Qed.
Lemma default_plan_reset_witness :
  BillingStore.get_plan "free" (db (fst (seed cfg0 ans0 (init Db.empty 0)))) = Some (plan_of cfg0 "free").
Proof. exact (default_plan_reset cfg0 ans0 Db.empty 0 "free" eq_refl eq_refl eq_refl "free"). Defined.
(** Two remote workers are loaded; the close of the second one raises at shutdown. *)
Definition ans2 : answers := Answers (Ok true) (Ok 0%nat) None (Ok ()) Loaded [Loaded; Loaded] None None.
Lemma startup_accounted_witness :
  let '(s, r) := serve_start cfg0 ans2 (init Db.empty 2) in
  is_ok r = true ∧ configured cfg0 true s ∧ released [Unloads; Close_raises] (teardown cfg0 [Unloads; Close_raises] all_return s) ∧
  workers (teardown cfg0 [Unloads; Close_raises] all_return s) = [false; true].
Proof.
  destruct (serve_start cfg0 ans2 (init Db.empty 2)) as [s r] eqn:E.
  destruct (startup_accounted cfg0 ans2 Db.empty s r [Unloads; Close_raises] E eq_refl) as [H1 H2].
  assert (is_ok r = true) as Hr by (replace r with (snd (serve_start cfg0 ans2 (init Db.empty 2))) by (by rewrite E); vm_compute; reflexivity).
  destruct (H1 Hr) as [Ht Hc]. rewrite Ht in H2. split; [exact Hr|]. split; [exact Hc|]. split; [exact H2|].
  replace s with (fst (serve_start cfg0 ans2 (init Db.empty 2))) by (by rewrite E). vm_compute. reflexivity.
Defined.

(** A start that fails before its tasks leaves the backend and the workers it had loaded. *)
Example failed_start_keeps_backends :
  let cfg := Settings None 0 0 None "remote" false 0 true false 0 false in
  let '(s, r) := serve_start cfg (Answers (Ok true) (Ok 0%nat) None (Ok ()) Loaded [Loaded; Raised OSError] None None) (init Db.empty 2) in
  is_ok r = false ∧ in_try s = false ∧ built s = true ∧ workers s = [true; false].
Proof. vm_compute. auto. Qed.

End Serve.

(** ** Awaits that survive cancellation *)

Module Complete.

(** What wakes the caller from [await asyncio.shield(task)]: the task returned, failed or was
    cancelled from inside, or the caller itself was cancelled. *)
Inductive wake := Finished | Failed | Child_cancelled | Cancel.
Definition ends_task (w : wake) : bool := match w with Cancel => false | _ => true end.

(** [_complete]: [None] while it still waits; the result tells whether the caller was
    cancelled meanwhile.  The cancellation count of the caller only grows, so that it exceeds
    its first value from the first cancellation on. *)
Fixpoint complete_from (cancelled : bool) (l : list wake) : option bool :=
  match l with
  | [] => None
  | Finished :: _ | Failed :: _ => Some cancelled
  | Child_cancelled :: _ => Some cancelled
  | Cancel :: l' => complete_from true l'
  end.
Definition complete (l : list wake) : option bool := complete_from false l.

(** [_drain_owned_work]: how it ends. *)
Inductive drain_end := Returned | Raised_error | Raised_cancelled.
Fixpoint drain_from (interrupted : bool) (l : list wake) : option drain_end :=
  match l with
  | [] => None
  | Finished :: _ => Some (if interrupted then Raised_cancelled else Returned)
  | Failed :: _ => Some Raised_error
  | Child_cancelled :: _ => Some Raised_cancelled
  | Cancel :: l' => drain_from true l'
  end.
Definition drain (l : list wake) : option drain_end := drain_from false l.

(** However often the caller is cancelled, both wait until the task has ended and no longer;
    [_complete] reports a cancellation exactly when there was one, and the drain returns
    normally only when there was none. *)
Theorem awaits_complete cancels w rest : (∀ x, x ∈ cancels → x = Cancel) → ends_task w = true →
  complete cancels = None ∧ drain cancels = None
  ∧ complete (cancels ++ w :: rest) = Some (bool_decide (cancels ≠ []))
  ∧ (drain (cancels ++ w :: rest) = Some Returned ↔ w = Finished ∧ cancels = []).
Proof.
  intros Hc Hw.
  assert (∀ b, complete_from b cancels = None ∧ drain_from b cancels = None
    ∧ complete_from b (cancels ++ w :: rest) = Some (b || bool_decide (cancels ≠ []))
    ∧ (drain_from b (cancels ++ w :: rest) = Some Returned ↔ w = Finished ∧ cancels = [] ∧ b = false)) as H.
  { induction cancels as [|c cancels IH]; intros b.
    - cbn. rewrite orb_false_r. destruct w; try done; destruct b; cbn; naive_solver.
    - rewrite (Hc c) by left. destruct (IH (fun x Hx => Hc x (list_elem_of_further _ _ _ Hx)) true) as (I1 & I2 & I3 & I4).
      cbn. rewrite I1, I2, I3, I4. rewrite orb_true_r. cbn. split_and!; [done..|]. naive_solver. }
  destruct (H false) as (H1 & H2 & H3 & H4). split_and!; [done..|]. unfold drain. rewrite H4. naive_solver.
Qed.
Lemma awaits_complete_witness : complete ([Cancel; Cancel] ++ Finished :: []) = Some true.
Proof.
  refine (proj1 (proj2 (proj2 (awaits_complete [Cancel; Cancel] Finished [] _ eq_refl)))).
  intros x Hx. apply elem_of_cons in Hx as [->|Hx]; [done|]. by apply list_elem_of_singleton in Hx.
Defined.

End Complete.
