(* ===== verification/Observability.v ===== *)
(** * Event bus, redaction and log mirror ([engine/telemetry/], [engine/logging_setup.py])

    [Module EventBus] translates [events.py]: the ring of recent events per channel, the
    bounded drop-oldest queue of each subscriber, and [subscribe], the asynchronous
    generator that replays the ring and then follows the channel, split at its suspension
    points; consumers, publishers and disconnects interleave freely.  [Module Redact]
    translates [redact_secrets] of [logging_setup.py], [Module LogCollector] [logbuffer.py]
    with the [log_events] table. *)

From S2P Require Import Prelude Crypto Text Sql.
From Stdlib Require Import Ascii.

Open Scope Z_scope.

(** A [deque(maxlen=n)]: appending to a full one drops the oldest item. *)
Definition ring_append {A} (n : nat) (x : A) (l : list A) : list A := drop (length (l ++ [x]) - n) (l ++ [x]).

Lemma ring_append_bound {A} n (x : A) l : (length (ring_append n x l) <= n)%nat.
Proof. unfold ring_append. rewrite length_drop. lia. Qed.
(** The last [n] items of a list. *)
Definition lastn {A} (n : nat) (l : list A) : list A := drop (length l - n) l.
Lemma ring_append_lastn {A} n (x : A) l : ring_append n x (lastn n l) = lastn n (l ++ [x]).
Proof.
  unfold ring_append, lastn. rewrite !length_app, length_drop. cbn [length].
  destruct (decide (length l <= n)%nat) as [Hl|Hl].
  - replace (length l - n)%nat with 0%nat by lia. rewrite drop_0. f_equal. lia.
  - rewrite !drop_app, drop_drop, !length_drop. f_equal; f_equal; lia.
Qed.

Module EventBus.

Inductive EventChannel := METRICS | FEED.
#[export] Instance EventChannel_eq_dec : EqDecision EventChannel.
Proof. solve_decision. Defined.
Inductive EventType := Metrics | RequestStart | RequestProgress | RequestEnd | RequestError | RequestRejected.
Definition type_value (t : EventType) : string :=
  match t with
  | Metrics => "metrics" | RequestStart => "request.start" | RequestProgress => "request.progress"
  | RequestEnd => "request.end" | RequestError => "request.error" | RequestRejected => "request.rejected"
  end.
Record Event := MkEvent { type_ : EventType; data : list (string * Json.t); ts : Q }.
(** [to_dict]: entries of [data] win over the first two; [json] turns the time into a value. *)
Definition to_dict (json : Q → Json.t) (e : Event) : list (string * Json.t) :=
  fold_left (fun d kv => dict_set (fst kv) (snd kv) d) (data e)
    (dict_set "ts" (json (ts e)) [("type", Json.JStr (type_value (type_ e)))]).

(** [_Subscription]; [signal] is the flag of its [asyncio.Event]. *)
Record Subscription := Sub { maxsize : Z; queue : list Event; dropped : nat; signal : bool }.
Definition new_subscription (m : Z) : Subscription := Sub m [] 0 false.
(** [offer] *)
Definition offer (e : Event) (s : Subscription) : Subscription :=
  if (0 <? maxsize s) && (maxsize s <=? Z.of_nat (length (queue s)))
  then Sub (maxsize s) (tail (queue s) ++ [e]) (S (dropped s)) true
  else Sub (maxsize s) (queue s ++ [e]) (dropped s) true.

(** Where a [subscribe] generator is: created, replaying the copy it made of the ring, in
    [sub.get()] (blocked in [wait] or woken), suspended at the [yield] of a live event, or
    over.  A generator that was never resumed has not subscribed. *)
Inductive stage :=
| Created | Replaying (todo : list Event) | Waiting (woken : bool) | Yielded | Over.
(** [delivered]: what its consumer got.  [since]: what the channel published from the moment
    it subscribed (a ghost record, as is the copy [replayed]). *)
Record consumer := Consumer {
  channel : EventChannel;
  replay : bool;
  sub : Subscription;
  at_ : stage;
  delivered : list Event;
  replayed : list Event;
  since : list Event
}.
(** [published] is everything published, per channel (ghost). *)
Record t := Mk {
  history_size : nat;
  subscriber_queue : Z;
  history : EventChannel → list Event;
  consumers : gmap nat consumer;
  published : EventChannel → list Event
}.
Definition init (h : nat) (q : Z) : t := Mk h q (fun _ => []) ∅ (fun _ => []).

Definition set_channel {A} (c : EventChannel) (x : A) (f : EventChannel → A) : EventChannel → A :=
  fun c' => if bool_decide (c' = c) then x else f c'.

(** In [self._subscribers]: from its first step to its end. *)
Definition subscribed (k : consumer) : bool := match at_ k with Created | Over => false | _ => true end.
(** [event.set()] wakes a waiter for good. *)
Definition wake (st : stage) : stage := match st with Waiting _ => Waiting true | _ => st end.
Definition receive (e : Event) (k : consumer) : consumer :=
  Consumer (channel k) (replay k) (offer e (sub k)) (wake (at_ k)) (delivered k) (replayed k) (since k ++ [e]).

(** [publish] *)
Definition publish (c : EventChannel) (e : Event) (b : t) : t :=
  Mk (history_size b) (subscriber_queue b)
     (set_channel c (ring_append (history_size b) e (history b c)) (history b))
     ((fun k => if subscribed k && bool_decide (channel k = c) then receive e k else k) <$> consumers b)
     (set_channel c (published b c ++ [e]) (published b)).
(** [recent] *)
Definition recent (c : EventChannel) (b : t) : list Event := history b c.
(** [subscriber_count] *)
Definition subscriber_count (c : EventChannel) (b : t) : nat :=
  size (filter (fun ik => subscribed (snd ik) = true ∧ channel (snd ik) = c) (consumers b)).

Definition set_consumer (i : nat) (k : consumer) (b : t) : t :=
  Mk (history_size b) (subscriber_queue b) (history b) (<[i := k]> (consumers b)) (published b).
Definition with_stage (s : Subscription) (st : stage) (k : consumer) : consumer :=
  Consumer (channel k) (replay k) s st (delivered k) (replayed k) (since k).
Definition deliver (e : Event) (s : Subscription) (st : stage) (k : consumer) : consumer :=
  Consumer (channel k) (replay k) s st (delivered k ++ [e]) (replayed k) (since k).

(** The loop of [get]: an event, or the flag is cleared and the wait begins. *)
Definition get (k : consumer) : consumer :=
  match queue (sub k) with
  | e :: q => deliver e (Sub (maxsize (sub k)) q (dropped (sub k)) (signal (sub k))) Yielded k
  | [] => with_stage (Sub (maxsize (sub k)) [] (dropped (sub k)) false) (Waiting false) k
  end.
(** The replay loop, from its next turn on. *)
Definition replay_next (todo : list Event) (k : consumer) : consumer :=
  match todo with
  | e :: todo' => deliver e (sub k) (Replaying todo') k
  | [] => get k
  end.
(** [__anext__] of the generator: up to the next [yield] or wait. *)
Definition resume (b : t) (k : consumer) : option consumer :=
  match at_ k with
  | Created =>
      let copy := if replay k then history b (channel k) else [] in
      Some (replay_next copy (Consumer (channel k) (replay k) (new_subscription (subscriber_queue b)) (Replaying copy)
                                (delivered k) copy []))
  | Replaying todo => Some (replay_next todo k)
  | Waiting true => Some (get k)
  | Waiting false => None
  | Yielded => Some (get k)
  | Over => None
  end.
(** [aclose] of the generator, or the cancellation of the task that awaits it: [finally]. *)
Definition close (k : consumer) : consumer := with_stage (sub k) Over k.

Inductive label :=
| Subscribe (i : nat) (c : EventChannel) (replay_history : bool)
| Publish (c : EventChannel) (e : Event)
| Resume (i : nat)
| Close (i : nat).
Definition exec (l : label) (b : t) : option t :=
  match l with
  | Subscribe i c r =>
      match consumers b !! i with
      | Some _ => None
      | None => Some (set_consumer i (Consumer c r (new_subscription (subscriber_queue b)) Created [] [] []) b)
      end
  | Publish c e => Some (publish c e b)
  | Resume i => k ← consumers b !! i; k' ← resume b k; Some (set_consumer i k' b)
  | Close i => k ← consumers b !! i; Some (set_consumer i (close k) b)
  end.
Inductive reachable (h : nat) (q : Z) : t → Prop :=
| reach_init : reachable h q (init h q)
| reach_step l b b' : reachable h q b → exec l b = Some b' → reachable h q b'.

(** *** What a consumer sees *)

Definition todo (k : consumer) : list Event := match at_ k with Replaying td => td | _ => [] end.
(** The consumer's view against what was published since it subscribed: [live] is what it
    got beyond the replay. *)
Record follows (m : Z) (k : consumer) (live : list Event) : Prop := Follows {
  f_delivered : delivered k ++ todo k = replayed k ++ live;
  f_replaying : (∃ td, at_ k = Replaying td) → live = [];
  f_sub : live ++ queue (sub k) `sublist_of` since k;
  f_count : (length live + length (queue (sub k)) + dropped (sub k) = length (since k))%nat;
  f_recent : queue (sub k) `suffix_of` since k;
  f_size : maxsize (sub k) = m;
  f_bound : Z.of_nat (length (queue (sub k))) <= m;
  f_blocked : at_ k = Waiting false → queue (sub k) = []
}.

Lemma follows_receive m e k live : 1 <= m → follows m k live → follows m (receive e k) live.
Proof.
  intros Hm [F1 F2 F3 F4 F5 F6 F7 F8]. unfold receive, offer. rewrite F6.
  assert (todo (receive e k) = todo k) as Et by (unfold receive, todo; simpl; by destruct (at_ k)).
  assert ((∃ td, wake (at_ k) = Replaying td) → live = []) as F2'.
  { intros [td Htd]. apply F2. exists td. by destruct (at_ k). }
  assert (wake (at_ k) ≠ Waiting false) as F8' by by destruct (at_ k).
  rewrite (proj2 (Z.ltb_lt 0 m)) by lia. cbn [andb]. destruct (Z.leb_spec m (Z.of_nat (length (queue (sub k))))) as [Hf|Hf].
  - destruct (queue (sub k)) as [|x q] eqn:Eq; [simpl in Hf; lia|]. cbn [tail].
    split; cbn [delivered replayed since sub queue dropped maxsize at_ channel]; try done.
    + by rewrite <- F1, <- Et.
    + rewrite app_assoc. apply sublist_app; [|done]. etrans; [|exact F3]. apply sublist_app; [done|]. by apply sublist_cons.
    + rewrite !length_app. simpl in *. lia.
    + apply suffix_app. destruct F5 as [z Hz]. exists (z ++ [x]). rewrite <- app_assoc. exact Hz.
    + rewrite length_app. simpl in *. lia.
  - split; cbn [delivered replayed since sub queue dropped maxsize at_ channel]; try done.
    + by rewrite <- F1, <- Et.
    + rewrite app_assoc. by apply sublist_app.
    + rewrite !length_app. simpl. lia.
    + by apply suffix_app.
    + rewrite length_app. simpl. lia.
Qed.
Lemma follows_get m k live : follows m k live → todo k = [] → ∃ live', follows m (get k) live'.
Proof.
  intros [F1 F2 F3 F4 F5 F6 F7 F8] Ht. rewrite Ht, app_nil_r in F1. unfold get. destruct (queue (sub k)) as [|e q] eqn:Eq.
  - exists live. rewrite app_nil_r in F3. split; cbn; rewrite ?app_nil_r; first [done|by intros [? ?]|apply suffix_nil|idtac].
  - exists (live ++ [e]). split; cbn; rewrite ?app_nil_r; try done.
    + by rewrite F1, app_assoc.
    + by intros [? ?].
    + by rewrite <- app_assoc.
    + rewrite length_app. simpl in *. lia.
    + destruct F5 as [z Hz]. exists (z ++ [e]). rewrite <- app_assoc. exact Hz.
    + simpl in F7. lia.
Qed.
Lemma follows_replay_next m k td live : follows m k live → at_ k = Replaying td → ∃ live', follows m (replay_next td k) live'.
Proof.
  intros F Ea. pose proof F as [F1 F2 F3 F4 F5 F6 F7 F8]. assert (todo k = td) as Et by (unfold todo; by rewrite Ea).
  destruct td as [|e td]; simpl; [by eapply follows_get|].
  exists live. split; cbn; try done.
  - rewrite Et in F1. rewrite <- app_assoc. exact F1.
  - intros _. apply F2. by eexists.
Qed.

(** Of a consumer and the bus it belongs to. *)
Record consumer_ok (h : nat) (m : Z) (b : t) (k : consumer) : Prop := ConsumerOk {
  c_created : at_ k = Created → delivered k = [] ∧ since k = [] ∧ replayed k = [];
  c_segment : at_ k ≠ Created → ∃ before after, published b (channel k) = before ++ since k ++ after ∧
    (subscribed k = true → after = []) ∧ replayed k = (if replay k then lastn h before else []);
  c_follows : subscribed k = true → ∃ live, follows m k live;
  c_seen : at_ k ≠ Created → delivered k `sublist_of` replayed k ++ since k
}.
Record inv (h : nat) (m : Z) (b : t) : Prop := Inv {
  v_history : ∀ c, history b c = lastn h (published b c);
  v_sizes : history_size b = h ∧ subscriber_queue b = m;
  v_consumers : ∀ i k, consumers b !! i = Some k → consumer_ok h m b k
}.

Lemma follows_seen m k live : follows m k live → delivered k `sublist_of` replayed k ++ since k.
Proof.
  intros [F1 _ F3 _ _ _ _ _]. etrans; [apply (sublist_inserts_r (todo k)); reflexivity|]. rewrite F1.
  apply sublist_app; [done|]. etrans; [|exact F3]. by apply sublist_inserts_r.
Qed.

Lemma bus_inv_publish h m c e b : 1 <= m → inv h m b → inv h m (publish c e b).
Proof.
  intros Hm [V1 [V2 V3] V4]. split; simpl.
  - intros c'. unfold set_channel. case_bool_decide as Hc; [|done]. subst c'. rewrite V2, V1. apply ring_append_lastn.
  - done.
  - intros i k Hk. apply lookup_fmap_Some in Hk as (k0 & <- & Hk0). destruct (V4 i k0 Hk0) as [C1 C2 C3 C4].
    destruct (subscribed k0) eqn:Es; cbn [andb].
    + destruct (bool_decide (channel k0 = c)) eqn:Ec.
      * apply bool_decide_eq_true in Ec. destruct (C3 eq_refl) as [live F].
        assert (at_ k0 ≠ Created) as Hc by (by destruct k0 as [? ? ? []]).
        destruct (C2 Hc) as (before & after & Hp & Ha & Hr). rewrite (Ha eq_refl), app_nil_r in Hp.
        pose proof (follows_receive m e k0 live Hm F) as F'.
        split.
        -- intros E. destruct k0 as [? ? ? []]; done.
        -- intros _. exists before, []. cbn [receive channel since replayed replay]. split_and!; [|done|done].
           unfold publish, set_channel. cbn [published]. rewrite bool_decide_true by done. subst c.
           by rewrite Hp, app_nil_r, <- app_assoc.
        -- intros _. by exists live.
        -- intros _. by eapply follows_seen.
      * apply bool_decide_eq_false in Ec. split; [done| |intros _; by apply C3|done]. intros Hc. unfold publish, set_channel. cbn [published].
        rewrite bool_decide_false by done. destruct (C2 Hc) as (before & after & Hp & Ha & Hr). exists before, after. auto.
    + split; [done| |congruence|done]. intros Hc. destruct (C2 Hc) as (before & after & Hp & Ha & Hr).
      unfold publish, set_channel. cbn [published].
      case_bool_decide as Ec; [|exists before, after; rewrite Es; done]. subst c. exists before, (after ++ [e]).
      split_and!; [by rewrite Hp, !app_assoc|congruence|done].
Qed.

Lemma bus_inv_set h m b i k : inv h m b → consumer_ok h m b k → inv h m (set_consumer i k b).
Proof.
  intros [V1 V2 V4] Hk. split; [done|done|]. intros j x Hx. simpl in Hx. destruct (decide (j = i)) as [->|Hne].
  - rewrite lookup_insert_eq in Hx. simplify_eq. by destruct Hk; split.
  - rewrite lookup_insert_ne in Hx by done. by destruct (V4 j x Hx); split.
Qed.

(** A step of the generator keeps the ghost fields; it ends subscribed. *)
Lemma get_ghost k : channel (get k) = channel k ∧ replay (get k) = replay k ∧ replayed (get k) = replayed k
  ∧ since (get k) = since k ∧ subscribed (get k) = true.
Proof. unfold get. by destruct (queue (sub k)). Qed.
Lemma next_ghost td k : channel (replay_next td k) = channel k ∧ replay (replay_next td k) = replay k
  ∧ replayed (replay_next td k) = replayed k ∧ since (replay_next td k) = since k ∧ subscribed (replay_next td k) = true.
Proof. destruct td; [apply get_ghost|done]. Qed.

Lemma consumer_ok_step h m b k k' live : subscribed k = true → consumer_ok h m b k →
  channel k' = channel k ∧ replay k' = replay k ∧ replayed k' = replayed k ∧ since k' = since k ∧ subscribed k' = true →
  follows m k' live → consumer_ok h m b k'.
Proof.
  intros Es [C1 C2 C3 C4] (E1 & E2 & E3 & E4 & E5) F.
  assert (at_ k ≠ Created) as Hc by (by destruct k as [? ? ? []]).
  assert (at_ k' ≠ Created) as Hc' by (by destruct k' as [? ? ? []]). split.
  - done.
  - intros _. destruct (C2 Hc) as (before & after & Hp & Ha & Hr). exists before, after.
    rewrite E1, E2, E3, E4. split_and!; auto.
  - intros _. by exists live.
  - intros _. by eapply follows_seen.
Qed.

Lemma bus_inv_resume h m b i k k' : 0 <= m → inv h m b → consumers b !! i = Some k → resume b k = Some k' →
  inv h m (set_consumer i k' b).
Proof.
  intros Hm I Hk E. apply bus_inv_set; [done|]. pose proof I as [V1 [V2 V3] V4]. pose proof (V4 i k Hk) as C. unfold resume in E.
  destruct (at_ k) as [|td|[]| |] eqn:Ea; try done; apply (inj Some) in E; subst k'.
  - set (copy := if replay k then history b (channel k) else []).
    set (k0 := Consumer (channel k) (replay k) (new_subscription (subscriber_queue b)) (Replaying copy) (delivered k) copy []).
    destruct (c_created _ _ _ _ C Ea) as (Hd & _ & _).
    assert (follows m k0 []) as F0.
    { split; cbn; rewrite ?Hd, ?V3, ?app_nil_r; first [done|apply suffix_nil|idtac]. }
    assert (consumer_ok h m b k0) as C0.
    { split; try done.
      - intros _. exists (published b (channel k)), []. cbn. rewrite app_nil_r. split_and!; try done.
        unfold copy. by rewrite V1.
      - intros _. by exists [].
      - intros _. by eapply follows_seen. }
    destruct (follows_replay_next m k0 copy [] F0 eq_refl) as [live F].
    apply (consumer_ok_step h m b k0 _ live); [done|done|apply next_ghost|done].
  - assert (subscribed k = true) as Es by (unfold subscribed; by rewrite Ea).
    destruct (c_follows _ _ _ _ C Es) as [live F]. destruct (follows_replay_next m k td live F Ea) as [live' F'].
    apply (consumer_ok_step h m b k _ live'); [done|done|apply next_ghost|done].
  - assert (subscribed k = true) as Es by (unfold subscribed; by rewrite Ea).
    destruct (c_follows _ _ _ _ C Es) as [live F].
    destruct (follows_get m k live F ltac:(unfold todo; by rewrite Ea)) as [live' F'].
    apply (consumer_ok_step h m b k _ live'); [done|done|apply get_ghost|done].
  - assert (subscribed k = true) as Es by (unfold subscribed; by rewrite Ea).
    destruct (c_follows _ _ _ _ C Es) as [live F].
    destruct (follows_get m k live F ltac:(unfold todo; by rewrite Ea)) as [live' F'].
    apply (consumer_ok_step h m b k _ live'); [done|done|apply get_ghost|done].
Qed.

Lemma created_dec k : at_ k = Created ∨ at_ k ≠ Created.
Proof. destruct (at_ k); auto. Qed.
Lemma bus_inv_close h m b i k : inv h m b → consumers b !! i = Some k → inv h m (set_consumer i (close k) b).
Proof.
  intros I Hk. apply bus_inv_set; [done|]. destruct (v_consumers _ _ _ I i k Hk) as [C1 C2 C3 C4]. split; try done.
  - intros _. destruct (created_dec k) as [Hc|Hc].
    + destruct (C1 Hc) as (_ & E1 & E2). exists [], (published b (channel k)). cbn. rewrite E1, E2.
      split_and!; [done|done|]. by destruct (replay k).
    + destruct (C2 Hc) as (before & after & Hp & Ha & Hr). exists before, after. cbn. split_and!; [done|done|exact Hr].
  - intros _. destruct (created_dec k) as [Hc|Hc]; [|by apply C4].
    destruct (C1 Hc) as (E0 & _ & _). cbn. rewrite E0. apply sublist_nil_l.
Qed.
Lemma bus_inv_exec h m l b b' : 1 <= m → inv h m b → exec l b = Some b' → inv h m b'.
Proof.
  intros Hm I E. destruct l as [i c r|c e|i|i]; simpl in E.
  - destruct (consumers b !! i); [done|]. apply (inj Some) in E. subst. apply bus_inv_set; [done|]. by split.
  - apply (inj Some) in E. subst. by apply bus_inv_publish.
  - destruct (consumers b !! i) as [k|] eqn:Hk; [|done]. cbn [mbind option_bind] in E.
    destruct (resume b k) as [k'|] eqn:Ek; [|done]. cbn [mbind option_bind] in E. apply (inj Some) in E. subst.
    eapply bus_inv_resume; [lia|done|done|done].
  - destruct (consumers b !! i) as [k|] eqn:Hk; [|done]. cbn [mbind option_bind] in E. apply (inj Some) in E. subst.
    by apply bus_inv_close.
Qed.
Lemma bus_inv_reachable h m b : 1 <= m → reachable h m b → inv h m b.
Proof.
  intros Hm. induction 1 as [|l b b' _ IH E]; [|by eapply bus_inv_exec].
  split; [done|done|]. intros i k Hk. cbn in Hk. by rewrite lookup_empty in Hk.
Qed.

(** C28. The live feed, in any interleaving of publishers, consumers and disconnects: the ring
    holds exactly the most recent events; a consumer gets, in order and none twice, events of
    one contiguous stretch of its channel, the ring it found and what was published since
    (nothing is lost or repeated between the two); what it has got and what is still buffered
    misses exactly the [dropped] oldest events of a full queue, and the buffer is the newest
    part of the stretch and never longer than its limit; and a consumer that is blocked
    without having been woken has nothing to read. *)
Theorem feed_exact h m b i k : 1 <= m → reachable h m b → consumers b !! i = Some k → at_ k ≠ Created →
  (∀ c, recent c b = lastn h (published b c)) ∧
  (∃ before after, published b (channel k) = before ++ since k ++ after ∧ (subscribed k = true → after = []) ∧
     replayed k = (if replay k then lastn h before else [])) ∧
  delivered k `sublist_of` replayed k ++ since k ∧
  (subscribed k = true → ∃ live,
     delivered k ++ todo k = replayed k ++ live ∧ live ++ queue (sub k) `sublist_of` since k ∧
     (length live + length (queue (sub k)) + dropped (sub k) = length (since k))%nat ∧
     queue (sub k) `suffix_of` since k ∧ Z.of_nat (length (queue (sub k))) <= m ∧
     (at_ k = Waiting false → queue (sub k) = [])).
Proof.
  intros Hm Hb Hk Hc. pose proof (bus_inv_reachable h m b Hm Hb) as I. destruct (v_consumers _ _ _ I i k Hk) as [_ C2 C3 C4].
  split_and!; [apply I|by apply C2|by apply C4|]. intros Hs. destruct (C3 Hs) as [live []]. by exists live.
Qed.

(** A consumer that joins after two events, while a third is published during its replay. *)
Definition demo_event (n : Z) : Event := MkEvent RequestProgress [("n", Json.JInt n)] 0.
Fixpoint run (ls : list label) (b : t) : option t :=
  match ls with [] => Some b | l :: ls' => b' ← exec l b; run ls' b' end.
Lemma bus_run_reachable h m ls b b' : reachable h m b → run ls b = Some b' → reachable h m b'.
Proof.
  revert b. induction ls as [|l ls IH]; intros b Hb E; simpl in E; [congruence|].
  destruct (exec l b) as [b1|] eqn:E1; [|done]. cbn [mbind option_bind] in E. apply (IH b1); [|done]. by eapply reach_step.
Qed.

Definition demo : list label :=
  [Publish FEED (demo_event 1); Publish FEED (demo_event 2); Subscribe 0 FEED true; Resume 0;
   Publish FEED (demo_event 3); Resume 0; Resume 0; Resume 0].

End EventBus.

Lemma feed_exact_witness :
  ∃ b k, EventBus.run EventBus.demo (EventBus.init 2 5) = Some b ∧ EventBus.consumers b !! 0%nat = Some k ∧
    EventBus.delivered k = map EventBus.demo_event [1; 2; 3] ∧ EventBus.queue (EventBus.sub k) = [] ∧
    EventBus.delivered k `sublist_of` EventBus.replayed k ++ EventBus.since k.
Proof.
  assert (∃ b k, EventBus.run EventBus.demo (EventBus.init 2 5) = Some b ∧ EventBus.consumers b !! 0%nat = Some k ∧
    EventBus.delivered k = map EventBus.demo_event [1; 2; 3] ∧ EventBus.queue (EventBus.sub k) = [] ∧
    EventBus.at_ k = EventBus.Waiting false) as (b & k & E & Hk & Hd & Hq & Ha)
    by (do 2 eexists; split; [vm_compute; reflexivity|]; split_and!; vm_compute; reflexivity).
  exists b, k. split_and!; try assumption.
  apply (EventBus.feed_exact 2 5 b 0 k); [lia| |exact Hk|congruence].
  eapply EventBus.bus_run_reachable; [apply EventBus.reach_init|exact E].
Defined.

(** ** Redaction of log messages ([logging_setup.py]) *)

Module Redact.

(** The value class of [_SECRET_QUERY] ends at an ampersand, white space or a quote. *)
Definition stop (c : ascii) : bool :=
  bool_decide (Crypto.code c ∈ [38; 34; 39]) || Text.isspace c.
Definition separator (c : ascii) : bool := bool_decide (Crypto.code c ∈ [63; 38]).
Definition equals : ascii := "=".
Definition names : list (list ascii) :=
  map Crypto.chars ["api_key"; "apikey"; "token"; "access_token"; "key"; "secret"; "password"].

(** One of the names, in any case, then an equals sign and the first character of a value. *)
Fixpoint follows_name (name rest : list ascii) : bool :=
  match name, rest with
  | [], c :: d :: _ => bool_decide (c = equals) && negb (stop d)
  | n :: name', c :: rest' => bool_decide (Text.lower_char c = n) && follows_name name' rest'
  | _, _ => false
  end.
Definition matches (rest : list ascii) : bool := existsb (fun n => follows_name n rest) names.

(** [re.sub] from left to right: outside a match, inside the part that is kept (up to the
    equals sign), or inside the value that is masked. *)
Inductive mode := Normal | Kept | Value.
Definition mask : list ascii := Crypto.chars "***".
Fixpoint scan (m : mode) (s : list ascii) : list ascii :=
  match s with
  | [] => []
  | c :: s' =>
      let outside := c :: scan (if separator c && matches s' then Kept else Normal) s' in
      match m with
      | Normal => outside
      | Kept => if bool_decide (c = equals) then c :: mask ++ scan Value s' else c :: scan Kept s'
      | Value => if stop c then outside else scan Value s'
      end
  end.
(** [redact_secrets] *)
Definition redact_secrets (s : string) : string := Crypto.of_chars (scan Normal (Crypto.chars s)).

Example redact_example :
  redact_secrets "GET /ws/feed?API_Key=sk-123&x=1&token=t HTTP" = "GET /ws/feed?API_Key=***&x=1&token=*** HTTP".
Proof. vm_compute. reflexivity. Qed.

(** *** A secret does not influence what is logged *)

Lemma sep_not_name n name : name ∈ names → n ∈ name → separator n = false ∧ n ≠ equals.
Proof.
  intros Hn%list_elem_of_In Hc%list_elem_of_In.
  assert (forallb (forallb (fun c => negb (separator c) && negb (bool_decide (c = equals)))) names = true) as H
    by (vm_compute; reflexivity).
  rewrite forallb_forall in H. specialize (H name Hn). rewrite forallb_forall in H. specialize (H n Hc).
  apply andb_true_iff in H as [H1%negb_true_iff H2%negb_true_iff]. by apply bool_decide_eq_false in H2.
Qed.
Lemma lower_separator c : separator c = true → Text.lower_char c = c.
Proof.
  unfold separator. intros H%bool_decide_eq_true. unfold Text.lower_char.
  assert (Crypto.code c = 63 ∨ Crypto.code c = 38) as [E|E] by set_solver; by rewrite E.
Qed.
Lemma separator_not_equals c : separator c = true → c ≠ equals.
Proof. by intros H ->. Qed.

(** The lookahead stops at a separator. *)
Lemma follows_separator name l c x y : Forall (fun n => separator n = false) name → separator c = true →
  follows_name name (l ++ c :: x) = follows_name name (l ++ c :: y).
Proof.
  intros Hn Hc. revert l. induction name as [|n name IH]; intros l.
  - destruct l as [|a [|b l]]; simpl; try done. rewrite bool_decide_false by by apply separator_not_equals. by destruct x, y.
  - apply Forall_cons in Hn as [Hn Hns]. destruct l as [|a l]; simpl.
    + rewrite (lower_separator c Hc), bool_decide_false; [done|]. intros ->. congruence.
    + by rewrite IH.
Qed.
Lemma names_plain name : name ∈ names → Forall (fun n => separator n = false) name.
Proof. intros Hn. apply Forall_forall. intros n Hin. by destruct (sep_not_name n name Hn Hin). Qed.
Lemma existsb_ext_in {A} (f g : A → bool) l : (∀ x, x ∈ l → f x = g x) → existsb f l = existsb g l.
Proof.
  induction l as [|a l IH]; intros H; [done|]. simpl. rewrite (H a) by left. f_equal. apply IH. intros x Hx. apply H. by right.
Qed.
Lemma matches_separator l c x y : separator c = true → matches (l ++ c :: x) = matches (l ++ c :: y).
Proof. intros Hc. apply existsb_ext_in. intros n Hn. apply follows_separator; [by apply names_plain|done]. Qed.

(** It sees of a value only that it is there. *)
Lemma follows_value name l d e x y : equals ∉ name → equals ∉ l → stop d = false → stop e = false →
  follows_name name (l ++ equals :: d :: x) = follows_name name (l ++ equals :: e :: y).
Proof.
  intros Hn Hl Hd He. revert l Hl. induction name as [|n name IH]; intros l Hl.
  - destruct l as [|a l]; simpl; [by rewrite Hd, He|]. rewrite bool_decide_false by set_solver.
    by destruct l as [|b l].
  - apply not_elem_of_cons in Hn as [Hn Hns]. destruct l as [|a l]; simpl.
    + rewrite bool_decide_false; [done|]. exact Hn.
    + rewrite IH; [done|done|set_solver].
Qed.
Lemma matches_value l d e x y : equals ∉ l → stop d = false → stop e = false →
  matches (l ++ equals :: d :: x) = matches (l ++ equals :: e :: y).
Proof.
  intros Hl Hd He. apply existsb_ext_in. intros n Hn. apply follows_value; try done.
  intros Hin. by destruct (sep_not_name _ n Hn Hin).
Qed.

Lemma scan_value v rest : Forall (fun c => stop c = false) v → scan Value (v ++ rest) = scan Value rest.
Proof. induction 1 as [|c v Hc _ IH]; [done|]. simpl. by rewrite Hc. Qed.
(** Up to the equals sign a kept part is copied. *)
Lemma scan_kept l s : equals ∉ l → scan Kept (l ++ equals :: s) = l ++ equals :: mask ++ scan Value s.
Proof.
  induction l as [|c l IH]; intros Hl; [done|]. simpl. rewrite bool_decide_false by set_solver. f_equal. apply IH. set_solver.
Qed.

Lemma lower_stop c : stop c = true → Text.lower_char c = c.
Proof.
  unfold stop, Text.isspace. intros H. unfold Text.lower_char.
  destruct (decide (Crypto.code c ∈ [38; 34; 39])) as [Hc|Hc].
  { assert (Crypto.code c = 38 ∨ Crypto.code c = 34 ∨ Crypto.code c = 39) as [E|[E|E]] by set_solver; by rewrite E. }
  assert (((65 <=? Crypto.code c) && (Crypto.code c <=? 90)
    || (192 <=? Crypto.code c) && (Crypto.code c <=? 222) && negb (Crypto.code c =? 215)) = false) as ->; [|done].
  rewrite (bool_decide_false (Crypto.code c ∈ _) Hc) in H. cbn [orb] in H. lia.
Qed.
Lemma names_value_chars name c : name ∈ names → c ∈ name → stop c = false.
Proof.
  intros Hn%list_elem_of_In Hc%list_elem_of_In.
  assert (forallb (forallb (fun c => negb (stop c))) names = true) as H by (vm_compute; reflexivity).
  rewrite forallb_forall in H. specialize (H name Hn). rewrite forallb_forall in H. by apply negb_true_iff, H.
Qed.

Section Secret.
(** A separator, one of the names in any case, and two values. *)
Context (sep : ascii) (name rest v w : list ascii).
Hypothesis Hsep : separator sep = true.
Hypothesis Hname : map Text.lower_char name ∈ names.
Hypothesis Hv : v ≠ [] ∧ Forall (fun c => stop c = false) v.
Hypothesis Hw : w ≠ [] ∧ Forall (fun c => stop c = false) w.

Lemma name_no_equals : equals ∉ name.
Proof.
  intros Hin. apply (list_elem_of_fmap_2 Text.lower_char) in Hin. by destruct (sep_not_name _ _ Hname Hin) as [_ H].
Qed.
Lemma name_no_stop : Forall (fun c => stop c = false) (name ++ [equals]).
Proof.
  apply Forall_app. split; [|by repeat constructor]. apply Forall_forall. intros c Hc.
  apply (list_elem_of_fmap_2 Text.lower_char) in Hc. pose proof (names_value_chars _ _ Hname Hc) as Hs.
  destruct (stop c) eqn:E; [|done]. by rewrite (lower_stop c E), E in Hs.
Qed.
Lemma name_matches u : u ≠ [] → Forall (fun c => stop c = false) u → matches (name ++ equals :: u ++ rest) = true.
Proof.
  intros Hu Hs. unfold matches. apply existsb_exists. exists (map Text.lower_char name).
  split; [by apply list_elem_of_In|]. clear Hname Hv Hw. induction name as [|c l IH]; simpl.
  - destruct u as [|d u]; [done|]. apply Forall_cons in Hs as [Hd _]. simpl. by rewrite Hd.
  - rewrite bool_decide_true by done. exact IH.
Qed.

(** What is logged of the parameter, from any mode, whatever the value is. *)
Lemma scan_param m u : u ≠ [] → Forall (fun c => stop c = false) u →
  scan m (sep :: name ++ equals :: u ++ rest) =
  match m with
  | Value => if stop sep then sep :: name ++ equals :: mask ++ scan Value rest else scan Value rest
  | _ => sep :: name ++ equals :: mask ++ scan Value rest
  end.
Proof.
  intros Hu Hs.
  assert (scan Kept (name ++ equals :: u ++ rest) = name ++ equals :: mask ++ scan Value rest) as Hk
    by (rewrite scan_kept by apply name_no_equals; by rewrite scan_value).
  cbn [scan]. rewrite Hsep, (name_matches u Hu Hs). cbn [andb]. rewrite Hk.
  destruct m; [done| |].
  - by rewrite bool_decide_false by by apply separator_not_equals.
  - destruct (stop sep) eqn:Es; [done|].
    replace (name ++ equals :: u ++ rest) with ((name ++ [equals]) ++ u ++ rest) by by rewrite <- app_assoc.
    rewrite scan_value by apply name_no_stop. by apply scan_value.
Qed.

Lemma scan_secret a m :
  scan m (a ++ sep :: name ++ equals :: v ++ rest) = scan m (a ++ sep :: name ++ equals :: w ++ rest).
Proof.
  destruct Hv as [V1 V2], Hw as [W1 W2]. revert m. induction a as [|c a IH]; intros m.
  - cbn [app]. by rewrite !scan_param.
  - cbn [app scan]. rewrite (matches_separator a sep _ (name ++ equals :: w ++ rest) Hsep).
    by rewrite !IH.
Qed.
End Secret.

(** Log messages carry no credentials of a URL query: the redacted text does not depend on
    the value of a credential parameter, wherever in the message it occurs and whatever
    surrounds it; two messages that differ only there are logged alike. *)
Theorem redaction_hides before after sep name v w :
  separator sep = true → map Text.lower_char name ∈ names →
  v ≠ [] → Forall (fun c => stop c = false) v → w ≠ [] → Forall (fun c => stop c = false) w →
  redact_secrets (before +:+ Crypto.of_chars (sep :: name ++ [equals]) +:+ Crypto.of_chars v +:+ after) =
  redact_secrets (before +:+ Crypto.of_chars (sep :: name ++ [equals]) +:+ Crypto.of_chars w +:+ after).
Proof.
  intros Hs Hn V1 V2 W1 W2. unfold redact_secrets. f_equal. rewrite !Text.chars_app, !Crypto.chars_of_chars.
  cbn [app]. rewrite <- !app_assoc. cbn [app]. by apply scan_secret.
Qed.

Lemma redaction_hides_witness :
  redact_secrets "GET /ws/feed?token=abc HTTP" = redact_secrets "GET /ws/feed?token=s3cret HTTP".
Proof.
  apply (redaction_hides "GET /ws/feed" " HTTP" "?"%char (Crypto.chars "token") (Crypto.chars "abc") (Crypto.chars "s3cret"));
    [reflexivity| |discriminate|repeat constructor|discriminate|repeat constructor].
  vm_compute. do 2 right. left.
Defined.

(** *** [JsonFormatter.format] *)

(** [_RESERVED] *)
Definition reserved : list string :=
  ["name"; "msg"; "args"; "levelname"; "levelno"; "pathname"; "filename"; "module"; "exc_info"; "exc_text";
   "stack_info"; "lineno"; "funcName"; "created"; "msecs"; "relativeCreated"; "thread"; "threadName";
   "processName"; "process"; "taskName"].
(** A log record: its attributes in [__dict__] order, with the rendered fields. *)
Record record := Record_ {
  time_iso : string; levelname : string; logger : string; message : string;
  attributes : list (string * Json.t); exc_text : option string; stack_text : option string
}.
Definition redact_value (v : Json.t) : Json.t := match v with Json.JStr s => Json.JStr (redact_secrets s) | _ => v end.
Definition format (r : record) : list (string * Json.t) :=
  let base := [("ts", Json.JStr (time_iso r)); ("level", Json.JStr (levelname r)); ("logger", Json.JStr (logger r));
               ("event", Json.JStr (redact_secrets (message r)))] in
  let extra := fold_left (fun d kv => if bool_decide (fst kv ∈ reserved) || Text.startswith "_" (fst kv) then d
                                      else dict_set (fst kv) (redact_value (snd kv)) d) (attributes r) base in
  let extra := match exc_text r with Some t => dict_set "exc_info" (Json.JStr t) extra | None => extra end in
  match stack_text r with Some t => dict_set "stack" (Json.JStr t) extra | None => extra end.

End Redact.

(** ** The log mirror ([logbuffer.py]) *)

Module LogCollector.

(** A row of [log_events]: its id, and the payload of [_record_dict]. *)
Record payload := Payload {
  ts : Q; level : string; logger : string; event : string;
  request_id : option string; route : option string; model : option string; key_id : option string;
  category : option string; stage : option string; detail : option string; stacktrace : option string
}.
Record row := Row { id : Z; body : payload }.

(** A log record as the handler gets it, with its numeric level. *)
Record log_record := Rec { levelno : Z; message : string; fields : payload }.
(** [_record_dict]: the message is redacted. *)
Definition record_dict (r : log_record) : payload :=
  let p := fields r in
  Payload (ts p) (level p) (logger p) (Redact.redact_secrets (message r)) (request_id p) (route p) (model p)
          (key_id p) (category p) (stage p) (detail p) (stacktrace p).

Record t := Mk {
  has_db : bool;
  ring_size : nat;
  db_level : Z;
  max_rows : Z;
  ring : list payload;
  since_trim : Z;
  persist : bool
}.
(** [__init__] *)
Definition init (db : bool) (n : nat) (lvl rows : Z) : t := Mk db n lvl rows [] 0 true.
Definition with_ring (l : list payload) (c : t) : t :=
  Mk (has_db c) (ring_size c) (db_level c) (max_rows c) l (since_trim c) (persist c).
Definition with_trim (n : Z) (c : t) : t :=
  Mk (has_db c) (ring_size c) (db_level c) (max_rows c) (ring c) n (persist c).

(** How the database answers a write: no connection or the insert fails, the trim fails, the
    commit fails, or all is stored.  A failed transaction is rolled back. *)
Inductive answer := Insert_fails | Trim_fails | Commit_fails | Stored.
(** [log_events]; [seq] is the largest id its [AUTOINCREMENT] key has given out. *)
Record table := Tb { rows : list row; seq_ : Z }.
Definition insert (p : payload) (tb : table) : table := Tb (Sql.insert (Row (seq_ tb + 1) p) (rows tb)) (seq_ tb + 1).
(** [DELETE .. WHERE id NOT IN (SELECT id .. ORDER BY id DESC LIMIT ?)] *)
Definition trim (n : Z) (tb : table) : table :=
  let newest := Sql.order_by (fun a b => id b <=? id a) (rows tb) in
  let kept := if n <? 0 then newest else take (Z.to_nat n) newest in
  Tb (Sql.delete (fun r => negb (bool_decide (id r ∈ map id kept))) (rows tb)) (seq_ tb).

(** [_write_row] *)
Definition write_row (a : answer) (p : payload) (c : t) (tb : table) : t * table :=
  match a with
  | Insert_fails => (c, tb)
  | _ =>
      let n := since_trim c + 1 in
      let inserted := insert p tb in
      if 50 <=? n then
        (with_trim 0 c, match a with Stored => trim (max_rows c) inserted | _ => tb end)
      else (with_trim n c, match a with Commit_fails => tb | _ => inserted end)
  end.
(** [emit] *)
Definition emit (a : answer) (r : log_record) (c : t) (tb : table) : t * table :=
  let p := record_dict r in
  let c := with_ring (ring_append (ring_size c) p (ring c)) c in
  if persist c && (db_level c <=? levelno r) && has_db c then write_row a p c tb else (c, tb).

(** [recent]; [items\[-0:\]] is the whole list. *)
Definition recent (limit : option Z) (c : t) : list payload :=
  match limit with
  | Some n => if 0 <=? n then (if n =? 0 then ring c else lastn (Z.to_nat n) (ring c)) else ring c
  | None => ring c
  end.
(** [read_log_events], newest first; [upper] is [str.upper]. *)
Definition read_log_events (upper : string → string) (limit : Z) (lvl rid : option string) (tb : table) : list payload :=
  let p r := (if ostr_true lvl then bool_decide (level (body r) = upper (default "" lvl)) else true)
             && (if ostr_true rid then Sql.sql_eq (request_id (body r)) (default "" rid) else true) in
  map body (take (Z.to_nat (Z.max 1 limit)) (Sql.order_by (fun a b => id b <=? id a) (Sql.select p (rows tb)))).

(** *** Bounds *)

Lemma delete_nodup (p : row → bool) l : NoDup (map id l) → NoDup (map id (Sql.delete p l)).
Proof.
  unfold Sql.delete. induction l as [|r l IH]; intros Hd; [constructor|]. simpl in *.
  apply NoDup_cons in Hd as [Hr Hd]. specialize (IH Hd). case_match; [|done]. simpl. apply NoDup_cons. split; [|done].
  intros Hin. apply Hr. apply list_elem_of_fmap in Hin as (x & -> & Hx%list_elem_of_In).
  apply filter_In in Hx as [Hx _]. apply list_elem_of_fmap_2. by apply list_elem_of_In.
Qed.
(** Rows with distinct ids: the trim leaves at most [n]. *)
Lemma trim_bound n tb : 0 <= n → NoDup (map id (rows tb)) → Z.of_nat (length (rows (trim n tb))) <= n.
Proof.
  intros Hn Hd. unfold trim. rewrite (proj2 (Z.ltb_ge n 0)) by lia. cbn [rows].
  set (kept := take (Z.to_nat n) (Sql.order_by _ (rows tb))).
  assert (length (Sql.delete (fun r => negb (bool_decide (id r ∈ map id kept))) (rows tb)) <= length (map id kept))%nat as Hl.
  { rewrite <- (length_map id (Sql.delete _ _)). apply submseteq_length, NoDup_submseteq; [by apply delete_nodup|].
    intros i (r & -> & Hr%list_elem_of_In)%list_elem_of_fmap. unfold Sql.delete in Hr. apply filter_In in Hr as [_ Hr].
    rewrite negb_involutive in Hr. by apply bool_decide_eq_true in Hr. }
  rewrite length_map in Hl. subst kept. rewrite length_take in Hl. lia.
Qed.

(** The key of the table: its ids are distinct and [AUTOINCREMENT] has given them out. *)
Definition ids_ok (tb : table) : Prop := NoDup (map id (rows tb)) ∧ ∀ r, r ∈ rows tb → id r <= seq_ tb.
(** A record the collector writes to the table. *)
Definition writes (c : t) (r : log_record) : bool := persist c && (db_level c <=? levelno r) && has_db c.
(** The collector and the table after [k] rows were stored, from a table of [n] rows: either no trim has run yet, or
    the rows beyond [max_rows] are those stored since the last one. *)
Record bounded (n : Z) (k : nat) (c : t) (tb : table) : Prop := Bounded {
  b_ids : ids_ok tb;
  b_trim : 0 <= since_trim c < 50;
  b_rows : (since_trim c = Z.of_nat k ∧ Z.of_nat (length (rows tb)) <= n + since_trim c)
           ∨ Z.of_nat (length (rows tb)) <= max_rows c + since_trim c
}.
Lemma insert_ids p tb : ids_ok tb → ids_ok (insert p tb).
Proof.
  intros [H1 H2]. unfold ids_ok, insert, Sql.insert. cbn [rows seq_]. split.
  - rewrite map_app. apply NoDup_app. split_and!; [done| |apply NoDup_singleton].
    intros i (x & -> & Hx)%list_elem_of_fmap Hi. apply list_elem_of_singleton in Hi. cbn in Hi. specialize (H2 x Hx). lia.
  - intros r [Hr|Hr]%elem_of_app; [specialize (H2 r Hr); lia|]. apply list_elem_of_singleton in Hr as ->. simpl. lia.
Qed.
Lemma same_settings a r c tb : let c' := fst (emit a r c tb) in
  max_rows c' = max_rows c ∧ ring_size c' = ring_size c ∧ ∀ r', writes c' r' = writes c r'.
Proof. unfold emit, write_row. repeat case_match; done. Qed.
Lemma ring_emit a r c tb : (length (ring (fst (emit a r c tb))) <= ring_size c)%nat.
Proof. unfold emit, write_row. repeat case_match; apply ring_append_bound. Qed.

Definition stored_by (c : t) (ar : answer * log_record) : nat :=
  match fst ar with Stored => if writes c (snd ar) then 1%nat else 0%nat | _ => 0%nat end.
Lemma bounded_emit a r c tb n k : a = Stored ∨ a = Insert_fails → 0 <= max_rows c → bounded n k c tb →
  let '(c', tb') := emit a r c tb in bounded n (k + stored_by c (a, r)) c' tb'.
Proof.
  intros Ha Hm [B2 B3 B4]. unfold emit, stored_by. cbn [fst snd]. set (c0 := with_ring _ c).
  change (persist c0 && (db_level c0 <=? levelno r) && has_db c0) with (writes c r).
  assert (bounded n k c0 tb) as B0 by done.
  destruct (writes c r); [|by destruct Ha as [-> | ->]; rewrite Nat.add_0_r].
  unfold write_row. destruct Ha as [-> | ->]; [|by rewrite Nat.add_0_r].
  pose proof (insert_ids (record_dict r) tb B2) as [I1 I2].
  assert (Z.of_nat (length (rows (insert (record_dict r) tb))) = Z.of_nat (length (rows tb)) + 1) as Hl
    by (unfold insert, Sql.insert; cbn [rows]; rewrite length_app; simpl; lia).
  destruct B0 as [D2 D3 D4]. destruct (Z.leb_spec 50 (since_trim c0 + 1)) as [H|H].
  - pose proof (trim_bound (max_rows c0) _ Hm I1) as T1. split; [|cbn; lia|right; cbn in *; lia].
    split; [by apply delete_nodup|]. intros x Hx. apply I2. unfold trim, Sql.delete in Hx. cbn [rows] in Hx.
    apply list_elem_of_In, filter_In in Hx as [Hx _]. by apply list_elem_of_In.
  - split; [done|cbn in *; lia|]. cbn [since_trim with_trim max_rows]. rewrite Hl. cbn in *. destruct D4 as [[? ?]|?]; [left|right]; lia.
Qed.

(** Any number of records through one collector. *)
Definition emit_all (l : list (answer * log_record)) (c : t) (tb : table) : t * table :=
  fold_left (fun '(c, tb) '(a, r) => emit a r c tb) l (c, tb).
Definition stored_count (c : t) (l : list (answer * log_record)) : nat := sum_list (map (stored_by c) l).

Lemma emit_all_cons a r l c tb : emit_all ((a, r) :: l) c tb = emit_all l (fst (emit a r c tb)) (snd (emit a r c tb)).
Proof. unfold emit_all. cbn [fold_left]. by destruct (emit a r c tb). Qed.
Lemma ring_emit_all l c tb : (length (ring c) <= ring_size c)%nat → (length (ring (fst (emit_all l c tb))) <= ring_size c)%nat.
Proof.
  revert c tb. induction l as [|[a r] l IH]; intros c tb H; [done|]. rewrite emit_all_cons.
  destruct (same_settings a r c tb) as (_ & E & _). rewrite <- E. apply IH. rewrite E. apply ring_emit.
Qed.
Lemma bounded_emit_all l c tb n k : 0 <= max_rows c → Forall (fun ar => fst ar = Stored ∨ fst ar = Insert_fails) l →
  bounded n k c tb → bounded n (k + stored_count c l) (fst (emit_all l c tb)) (snd (emit_all l c tb)) ∧
                     max_rows (fst (emit_all l c tb)) = max_rows c.
Proof.
  intros Hr Hl. revert c tb k Hr. induction Hl as [|[a r] l Ha _ IH]; intros c tb k Hr Hb.
  { split; [|done]. unfold stored_count. simpl. by rewrite Nat.add_0_r. }
  rewrite emit_all_cons. pose proof (bounded_emit a r c tb n k Ha Hr Hb) as He. pose proof (same_settings a r c tb) as (E1 & _ & E3).
  destruct (emit a r c tb) as [c1 tb1]. cbn [fst snd] in *.
  destruct (IH c1 tb1 _ ltac:(lia) He) as [I1 I2]. split; [|lia].
  replace (k + stored_count c ((a, r) :: l))%nat with (k + stored_by c (a, r) + stored_count c1 l)%nat; [done|].
  unfold stored_count. simpl. replace (map (stored_by c) l) with (map (stored_by c1) l); [lia|].
  apply map_ext. intros [a' r']. unfold stored_by. cbn [fst snd]. by rewrite E3.
Qed.

(** The mirror is bounded: whatever is logged through a new collector and whatever the database answers, its ring never
    holds more than [ring_size] records; and as long as no trim or commit fails, the table, whatever it held when the
    process started, never has more than 49 rows beyond that or beyond [max_rows], and not more than [max_rows] and 49 once fifty rows were stored. *)
Theorem log_mirror_bounded c l tb0 :
  0 <= max_rows c → ring c = [] → since_trim c = 0 → ids_ok tb0 →
  let c' := fst (emit_all l c tb0) in
  let size tb := Z.of_nat (length (rows tb)) in
  (length (ring c') <= ring_size c)%nat ∧
  (Forall (fun ar => fst ar = Stored ∨ fst ar = Insert_fails) l →
   size (snd (emit_all l c tb0)) <= Z.max (size tb0) (max_rows c) + 49 ∧
   ((50 <= stored_count c l)%nat → size (snd (emit_all l c tb0)) <= max_rows c + 49)).
Proof.
  intros Hm Hr Hs Hi c' size. split; [apply ring_emit_all; rewrite Hr; simpl; lia|]. intros Hl.
  assert (bounded (size tb0) 0 c tb0) as B by (split; [done|lia|left; unfold size; lia]).
  destruct (bounded_emit_all l c tb0 (size tb0) 0 Hm Hl B) as [[_ B2 B3] E]. rewrite E in B3.
  split; [unfold size in *; destruct B3 as [[? ?]|?]; lia|]. intros Hk. unfold size in *. destruct B3 as [[? ?]|?]; lia.
Qed.

Definition demo_record : log_record :=
  Rec 30 "slow" (Payload 0 "WARNING" "engine" "" None None None None None None (Some "GET /m?token=abc") None).

Lemma log_mirror_bounded_witness :
  let '(c, tb) := emit_all (repeat (Stored, demo_record) 130) (init true 5 30 10) (Tb [] 0) in
  (length (ring c) <= 5)%nat ∧ Z.of_nat (length (rows tb)) <= 59.
Proof.
  destruct (log_mirror_bounded (init true 5 30 10) (repeat (Stored, demo_record) 130) (Tb [] 0)) as [H1 H2].
  - simpl. lia.
  - reflexivity.
  - reflexivity.
  - split; [constructor|]. intros r Hr. by apply not_elem_of_nil in Hr.
  - destruct (emit_all _ _ _) as [c tb]. split; [exact H1|]. apply H2; [|vm_compute; lia].
    apply Forall_forall. intros x Hx. apply list_elem_of_In, repeat_spec in Hx as ->. by left.
Defined.

(** The count since the last trim starts at zero in every process: engines that write fewer
    than fifty rows each never trim, and the table grows without bound. *)
Definition session (tb : table) : table := snd (emit_all (repeat (Stored, demo_record) 49) (init true 5 30 10) tb).
Lemma short_session k c tb : 0 <= since_trim c → since_trim c + Z.of_nat k < 50 →
  persist c = true → db_level c = 30 → has_db c = true →
  length (rows (snd (emit_all (repeat (Stored, demo_record) k) c tb))) = (k + length (rows tb))%nat.
Proof.
  revert c tb. induction k as [|k IH]; intros c tb H0 H1 H2 H3 H4; [done|].
  unfold emit_all. cbn [repeat fold_left]. unfold emit at 2. cbn [persist with_ring db_level has_db]. rewrite H2, H3, H4.
  cbn [andb]. unfold write_row. cbn [since_trim with_ring]. rewrite (proj2 (Z.leb_gt 50 (since_trim c + 1))) by lia.
  cbn [andb Z.leb levelno demo_record].
  specialize (IH (with_trim (since_trim c + 1) (with_ring (ring_append (ring_size c) (record_dict demo_record) (ring c)) c))
    (insert (record_dict demo_record) tb)). unfold emit_all in IH.
  etrans; [apply IH; simpl; try done; lia|]. unfold insert, Sql.insert. cbn [rows]. rewrite length_app. simpl. lia.
Qed.
Lemma session_rows tb : length (rows (session tb)) = (49 + length (rows tb))%nat.
Proof. unfold session. by apply short_session. Qed.
Lemma restarts_never_trim k : length (rows (Nat.iter k session (Tb [] 0))) = (49 * k)%nat.
Proof.
  induction k as [|k IH]; [done|].
  change (Nat.iter (S k) session (Tb [] 0)) with (session (Nat.iter k session (Tb [] 0))).
  rewrite session_rows, IH. lia.
Qed.
(** The detail of a record is stored as it is. *)
Lemma detail_not_redacted :
  detail (record_dict demo_record) = Some "GET /m?token=abc" ∧ Redact.redact_secrets "GET /m?token=abc" = "GET /m?token=***".
Proof. vm_compute. auto. Qed.

End LogCollector.
