(* ===== verification/Grpc.v ===== *)
(** * The gRPC edge ([engine/grpc/server.py])

    [Module GrpcRequest] translates the protobuf request, the call metadata and the errors of
    the serving core.  [Module GrpcEdge] runs any number of [Generate] calls over the serving
    system of [Serving.v], shared with whatever the HTTP edges do meanwhile: the task of each
    call, its response stream suspended at a [yield] or running, the handler that tracks it,
    its finalizer, and [close_all] with its waits and interruptions. *)

From S2P Require Import Prelude Crypto Text Asyncio Admission Placement Routing Store Quota Gateway Telemetry Serving Requests.

Open Scope Z_scope.

Module GrpcRequest.
Import GenerationRequest.

Inductive StatusCode :=
| INVALID_ARGUMENT | UNAUTHENTICATED | PERMISSION_DENIED | NOT_FOUND | RESOURCE_EXHAUSTED | UNAVAILABLE | INTERNAL.
#[export] Instance StatusCode_eq_dec : EqDecision StatusCode.
Proof. solve_decision. Defined.

(** [_HTTP_TO_GRPC.get(status, INTERNAL)] *)
Definition http_to_grpc (status : Z) : StatusCode :=
  default INTERNAL (dict_get status
    [(400, INVALID_ARGUMENT); (401, UNAUTHENTICATED); (403, PERMISSION_DENIED); (404, NOT_FOUND);
     (413, RESOURCE_EXHAUSTED); (429, RESOURCE_EXHAUSTED); (503, UNAVAILABLE)]).

(** [_token_from_metadata] *)
Definition token_from_metadata (metadata : list (string * string)) : option string :=
  let md := dict_of metadata in
  match dict_get "authorization" md with
  | Some auth =>
      if str_true auth && Text.startswith "bearer " (Text.lower auth)
      then Some (Text.strip (String.substring 7 (String.length auth - 7) auth))
      else match dict_get "x-api-key" md with Some k => if str_true k then Some (Text.strip k) else None | None => None end
  | None => match dict_get "x-api-key" md with Some k => if str_true k then Some (Text.strip k) else None | None => None end
  end.

(** The protobuf request; a scalar that was not sent is zero, a text empty. *)
Record ProtoMessage := PMsg { m_role : string; m_content : string }.
Record GenerateRequest := PReq {
  q_model : string;
  q_messages : list ProtoMessage;
  q_prompt : string;
  q_max_tokens : Z;
  q_temperature : Q;
  q_top_p : Q;
  q_stop : list string;
  q_top_k : Z
}.

(** [Message(role=...)] accepts one of three roles. *)
Definition role_of (s : string) : option Role :=
  if bool_decide (s = "system") then Some system
  else if bool_decide (s = "user") then Some user
  else if bool_decide (s = "assistant") then Some assistant
  else None.
Fixpoint messages_of (l : list ProtoMessage) : option (list Message) :=
  match l with
  | [] => Some []
  | m :: l' => r ← role_of (m_role m); ms ← messages_of l'; Some (Msg r (m_content m) :: ms)
  end.
Definition positive (q d : Q) : Q := if Qle_bool q 0 then d else q.

(** [_build_request]; [None] is pydantic's [ValidationError]. *)
Definition build_request (rq : GenerateRequest) (rid : string) : option (t * string) :=
  let req prompt ms :=
    validate (Req prompt ms rid (if 0 <? q_max_tokens rq then Some (q_max_tokens rq) else None)
      (positive (q_temperature rq) (8 # 10)) (positive (q_top_p rq) (95 # 100))
      (if 0 <? q_top_k rq then q_top_k rq else 40) None (q_stop rq) 0 1 0 0 0 5 (1 # 10) None None false) in
  match q_messages rq with
  | [] => g ← req (Some (q_prompt rq)) None; Some (g, q_prompt rq)
  | _ :: _ => ms ← messages_of (q_messages rq);
              g ← req None (Some ms);
              Some (g, Text.join newline (map m_content (q_messages rq)))
  end.

(** How [_generate] ends when no stream was started: the status it aborts with, or an
    exception that leaves the handler (the server then answers with its own status). *)
Inductive ending := Abort (c : StatusCode) | Escapes.
Definition ending_of (o : Serving.outcome) : ending :=
  match o with
  | Serving.Refused e => Abort (http_to_grpc (Gateway.status_code e))
  | Serving.Saturated _ => Abort RESOURCE_EXHAUSTED
  | Serving.NotReady => Abort UNAVAILABLE
  | Serving.FeatureError => Abort INVALID_ARGUMENT
  | _ => Escapes
  end.

(** The readings a call makes of the clocks, and whether the backend's [generate] returns. *)
Record readings := Readings { now_iso : string; now_ : Q; now_admit : Q; now_start : Q; generates : bool }.

(** [_generate] up to the call of [start_generation_core]: its arguments. *)
Definition prepare (known : string → bool) (rid : string) (rq : GenerateRequest) (md : list (string * string))
    (c : readings) : result ending Serving.params :=
  if negb (known (q_model rq)) then Err (Abort NOT_FOUND)
  else match build_request rq rid with
       | None => Err Escapes
       | Some (g, text) =>
           Ok (Serving.Params
                 (Gateway.Request (token_from_metadata md) text (default 256 (max_tokens g)) "/grpc/Generate"
                    (Some (q_model rq)) (now_iso c) (now_ c))
                 (q_model rq) (q_model rq) [] (now_admit c) (now_start c) (generates c))
       end.

(** ** Properties *)

Lemma messages_content l ms : messages_of l = Some ms → map content ms = map m_content l.
Proof.
  revert ms. induction l as [|m l IH]; intros ms H; simpl in H; [by simplify_eq|].
  destruct (role_of (m_role m)); [|done]. cbn [mbind option_bind] in H.
  destruct (messages_of l) as [ms'|]; [|done]. cbn [mbind option_bind] in H. simplify_eq. simpl. by rewrite (IH ms').
Qed.

(** A call carries the same credentials over either transport. *)
Lemma metadata_token md : token_from_metadata md
  = Gateway.extract_token (dict_get "authorization" (dict_of md)) (dict_get "x-api-key" (dict_of md)).
Proof. done. Qed.

(** What [_build_request] accepts is a well-formed internal request: with the caller's
    limits where they are positive and the documented defaults where they are zero, with
    exactly one of prompt and messages, and with the text that authorization estimates equal
    to the text of the request. *)
Theorem grpc_request_typed rq rid g text :
  build_request rq rid = Some (g, text) →
  validate g = Some g ∧ request_id g = rid ∧ text = prompt_text g ∧ wants_structured_output g = false ∧
  (is_chat g = true ↔ q_messages rq ≠ []) ∧ stop g = q_stop rq ∧
  max_tokens g = (if 0 <? q_max_tokens rq then Some (q_max_tokens rq) else None) ∧
  ((0 < q_temperature rq)%Q → temperature g = q_temperature rq) ∧
  ((q_temperature rq <= 0)%Q → temperature g = 8 # 10).
Proof.
  intros H. unfold build_request in H. cbn zeta in H.
  assert (∀ prompt ms, let r := Req prompt ms rid (if 0 <? q_max_tokens rq then Some (q_max_tokens rq) else None)
      (positive (q_temperature rq) (8 # 10)) (positive (q_top_p rq) (95 # 100))
      (if 0 <? q_top_k rq then q_top_k rq else 40) None (q_stop rq) 0 1 0 0 0 5 (1 # 10) None None false in
    validate r = Some g → g = r ∧ validate g = Some g) as V.
  { intros prompt ms r E. assert (g = r) as ->; [|done]. unfold validate in E. destruct (_ && _); by simplify_eq. }
  assert ((0 < q_temperature rq)%Q → positive (q_temperature rq) (8 # 10) = q_temperature rq) as T1.
  { intros Hp. unfold positive. destruct (Qle_bool _ 0) eqn:E; [|done]. apply Qle_bool_iff in E. lra. }
  assert ((q_temperature rq <= 0)%Q → positive (q_temperature rq) (8 # 10) = 8 # 10) as T2.
  { intros Hp. unfold positive. by apply Qle_bool_iff in Hp as ->. }
  destruct (q_messages rq) as [|m l] eqn:Em.
  - destruct (validate _) as [g'|] eqn:E; [|done]. cbn [mbind option_bind] in H. simplify_eq.
    apply V in E as [-> Ev]. split_and!; try done; by rewrite ?T1, ?T2.
  - destruct (messages_of (m :: l)) as [ms|] eqn:Ems; [|done]. cbn [mbind option_bind] in H.
    destruct (validate _) as [g'|] eqn:E; [|done]. cbn [mbind option_bind] in H. simplify_eq.
    apply V in E as [-> Ev]. apply messages_content in Ems.
    split_and!; try done. unfold prompt_text. cbn. cbn in Ems. by rewrite Ems.
Qed.

Definition demo_request : GenerateRequest := PReq "llama" [PMsg "user" "hi"; PMsg "assistant" "yes"] "" 16 0 0 ["x"] 0.
Lemma grpc_request_typed_witness :
  match build_request demo_request "r" with
  | Some (g, text) => text = prompt_text g ∧ temperature g = 8 # 10
  | None => False
  end.
Proof.
  assert (∃ g text, build_request demo_request "r" = Some (g, text)) as (g & text & E)
    by (do 2 eexists; vm_compute; reflexivity).
  rewrite E. destruct (grpc_request_typed demo_request "r" g text E) as (_ & _ & H & _ & _ & _ & _ & _ & T).
  split; [exact H|]. apply T. vm_compute. discriminate.
Defined.

(** A request outside the accepted ranges, or with another role, makes [_build_request] raise
    outside the [try] of [_generate]: no status is mapped. *)
Lemma bad_request_escapes :
  prepare (fun _ => true) "r" (PReq "llama" [] "hi" 16 3 0 [] 0) [] (Readings "" 0 0 0 true) = Err Escapes ∧
  prepare (fun _ => true) "r" (PReq "llama" [PMsg "tool" "hi"] "" 16 0 0 [] 0) [] (Readings "" 0 0 0 true) = Err Escapes.
Proof. vm_compute. auto. Qed.

End GrpcRequest.

(** ** The calls of a server *)

Module GrpcEdge.
Import Serving ServingSystem GrpcRequest.

Section Edge.
Context (v : env).

(** How [_stream] leaves its [try]: at the end of the generation, or by an exception that is
    raised again after the request was finalized. *)
Inductive exit := Completing | Interrupted.
(** Where the generator [_stream] of a call is: not created; suspended at [yield chunk];
    awaiting the next token; awaiting [served.stream.aclose()] in [_drain_and_finish] (with
    whether the generation failed); awaiting [context.abort]; suspended at the terminal
    [yield]; ended. *)
Inductive stream_at := Unset | AtYield | Reading | Draining (failed : bool) (e : exit) | Aborting | AtDone | Ended.
(** The call's task: inside [start_generation_core], iterating the handler, in the [finally] of
    [Generate], or over. *)
Inductive task_state := Starting | Running | Finally | Gone.
(** Who closes a stream after its task is over: the finalizer of the abandoned generator, or
    [close_all]. *)
Inductive closer_kind := Finalizer | Closer.

(** What the call did to its generation: it began to close the stream ([served.stream.aclose()]),
    that call returned, raised or was interrupted, and [finish_generation] was called, with
    whether an error was passed. *)
Inductive act := Closes_stream | Stream_closed | Finalizes (error : bool).

(** [_Handler] and its call; [acts] is a record of what was done, in order. *)
Record call := Call {
  request : option nat;          (* its index in the serving system *)
  task : task_state;
  gen : stream_at;
  lock : option closer_kind;     (* [_lock], held across [stream.aclose()] *)
  tracked : bool;                (* in [_open] *)
  suspended : bool;              (* the task ended with [Generate] suspended at its [yield] *)
  collecting : bool;             (* the finalizer waits for the lock *)
  acts : list act
}.
Definition at_stream (g : stream_at) (c : call) : call :=
  Call (request c) (task c) g (lock c) (tracked c) (suspended c) (collecting c) (acts c).
Definition at_task (t : task_state) (c : call) : call :=
  Call (request c) t (gen c) (lock c) (tracked c) (suspended c) (collecting c) (acts c).
Definition locked (l : option closer_kind) (c : call) : call :=
  Call (request c) (task c) (gen c) l (tracked c) (suspended c) (collecting c) (acts c).
Definition untrack (c : call) : call :=
  Call (request c) (task c) (gen c) (lock c) false (suspended c) (collecting c) (acts c).
Definition abandon (s k : bool) (c : call) : call :=
  Call (request c) (task c) (gen c) (lock c) (tracked c) s k (acts c).
Definition did (l : list act) (c : call) : call :=
  Call (request c) (task c) (gen c) (lock c) (tracked c) (suspended c) (collecting c) (acts c ++ l).
(** [_drain_and_finish] up to its await of [aclose]. *)
Definition drain (failed : bool) (e : exit) (c : call) : call := at_stream (Draining failed e) (did [Closes_stream] c).

(** [close_all]: at the head of its loop, waiting for the tasks of a snapshot, closing the
    handlers of the snapshot one by one, returned, or left by an exception. *)
Inductive closing := NotCalled | Head | WaitTasks (hs : list nat) | Close (hs : list nat) | Returned | Left.

Record sys := Sys { serving : ServingSystem.sys; calls : gmap nat call; stopped : bool; closer : closing }.
Definition set_call (i : nat) (c : call) (s : sys) : sys :=
  Sys (serving s) (<[i := c]> (calls s)) (stopped s) (closer s).
Definition set_serving (x : ServingSystem.sys) (s : sys) : sys := Sys x (calls s) (stopped s) (closer s).
Definition set_closer (k : closing) (s : sys) : sys := Sys (serving s) (calls s) (stopped s) k.

(** [_open] *)
Definition open_handlers (s : sys) : gset nat := dom (filter (fun p => tracked (snd p) = true) (calls s)).
(** A serving request of the edge. *)
Definition mine (r : nat) (s : sys) : bool :=
  existsb (fun p => bool_decide (request (snd p) = Some r)) (map_to_list (calls s)).

(** After [start_generation_core] resumed: a stream that is read at once, a call that ends, or
    a call that still waits for admission. *)
Definition started (r : nat) (x : ServingSystem.sys) (c : call) : call :=
  match requests x !! r with
  | Some (InService _) => at_task Running (at_stream Reading c)
  | Some (Queued _ _) => c
  | _ => at_task Finally c
  end.

(** [_drain_and_finish] from its await of [aclose], to the next suspension or end of the
    generator; [cut] when the await was interrupted, which then propagates. *)
Definition drained (i : nat) (cut : bool) (f : finishing) (s : sys) : option sys :=
  c ← calls s !! i;
  r ← request c;
  match gen c with
  | Draining failed e =>
      if negb (Bool.eqb (f_error f) failed) then None else
      let s := set_serving (step v (Finish r f) (serving s)) s in
      let c := did [Stream_closed; Finalizes failed] c in
      let raised := cut || negb (f_stored f) in
      match lock c with
      | None =>
          (* in the call's task *)
          if raised || match e with Interrupted => true | Completing => false end
          then Some (set_call i (at_task Finally (at_stream Ended c)) s)
          else Some (set_call i (at_stream (if failed then Aborting else AtDone) c) s)
      | Some k =>
          let c := locked None (at_stream Ended c) in
          let s := set_call i (if raised then c else untrack c) s in
          match k, closer s with
          | Finalizer, _ => Some s
          | Closer, Close (_ :: hs) => Some (set_closer (if raised then Left else Close hs) s)
          | Closer, _ => None
          end
      end
  | _ => None
  end.

(** [handlers.close(handler)] once the lock is free: [aclose] of a generator suspended at its
    [yield chunk] runs the [except BaseException]; any other ends at once. *)
Definition close_handler (k : closer_kind) (i : nat) (c : call) (s : sys) : option sys :=
  match lock c with
  | Some _ => None
  | None =>
      match gen c with
      | AtYield => Some (set_call i (locked (Some k) (drain false Interrupted c)) s)
      | g =>
          let s := set_call i (untrack (at_stream (match g with AtDone => Ended | _ => g end) c)) s in
          match k, closer s with
          | Closer, Close (_ :: hs) => Some (set_closer (Close hs) s)
          | _, _ => Some s
          end
      end
  end.

Inductive label :=
| Other (o : op)                                        (* the HTTP edges and the engine *)
| Generate (i : nat) (rid : string) (rq : GenerateRequest) (md : list (string * string)) (c : readings)
| AdmitResumes (i : nat) (now : Q)                          (* [scheduler.admit] resumes the call *)
| Token (i : nat) | Written (i : nat)
| WriteCancelled (i : nat)                              (* the task ends outside the generator *)
| StreamEnds (i : nat) (failed : bool)
| ReadInterrupted (i : nat)                             (* cancellation or another exception *)
| DrainReturns (i : nat) (f : finishing) | DrainCut (i : nat) (f : finishing)
| AbortEnds (i : nat)                                   (* [context.abort] raises *)
| TaskCloses (i : nat)                                  (* the [finally] of [Generate] *)
| Collect (i : nat) | FinalizerEnters (i : nat) | FinalizerCut (i : nat)
| StopServer                                            (* [server.stop] returned *)
| Snapshot (hs : list nat) | TasksDone | CloserEnters | CloserCut.

Definition on_call (i : nat) (s : sys) (k : call → option sys) : option sys := c ← calls s !! i; k c.
Definition is_gone (c : call) : bool := match task c with Gone => true | _ => false end.

Definition exec (l : label) (s : sys) : option sys :=
  match l with
  | Other o =>
      match o with
      | Finish r _ | Resume r _ => if mine r s then None else Some (set_serving (step v o (serving s)) s)
      | _ => Some (set_serving (step v o (serving s)) s)
      end
  | Generate i rid rq md c =>
      match calls s !! i, stopped s with
      | None, false =>
          let a := app (serving s) in
          match prepare (Router.known_model (router v) (registry a)) rid rq md c with
          | Err _ => Some (set_call i (Call None Finally Unset None true false false []) s)
          | Ok p =>
              let r := length (requests (serving s)) in
              let x := step v (Start p) (serving s) in
              Some (set_call i (started r x (Call (Some r) Starting Unset None true false false [])) (set_serving x s))
          end
      | _, _ => None
      end
  | AdmitResumes i now =>
      on_call i s (fun c => match task c, request c with
        | Starting, Some r =>
            let x := step v (Resume r now) (serving s) in
            Some (set_call i (started r x c) (set_serving x s))
        | _, _ => None end)
  | Token i => on_call i s (fun c => match gen c with Reading => Some (set_call i (at_stream AtYield c) s) | _ => None end)
  | Written i =>
      on_call i s (fun c => match task c, gen c with
        | Running, AtYield => Some (set_call i (at_stream Reading c) s)
        | Running, AtDone => Some (set_call i (at_task Finally (at_stream Ended c)) s)
        | _, _ => None end)
  | WriteCancelled i =>
      on_call i s (fun c => match task c, gen c with
        | Running, AtYield | Running, AtDone => Some (set_call i (at_task Gone (abandon true false c)) s)
        | _, _ => None end)
  | StreamEnds i failed =>
      on_call i s (fun c => match gen c with Reading => Some (set_call i (drain failed Completing c) s) | _ => None end)
  | ReadInterrupted i =>
      on_call i s (fun c => match gen c with Reading => Some (set_call i (drain false Interrupted c) s) | _ => None end)
  | DrainReturns i f => drained i false f s
  | DrainCut i f => drained i true f s
  | AbortEnds i =>
      on_call i s (fun c => match gen c with Aborting => Some (set_call i (at_task Finally (at_stream Ended c)) s) | _ => None end)
  | TaskCloses i =>
      on_call i s (fun c => match task c, lock c with
        | Finally, None => Some (set_call i (untrack (at_task Gone c)) s)
        | _, _ => None end)
  | Collect i => on_call i s (fun c => if suspended c then Some (set_call i (abandon false true c) s) else None)
  | FinalizerEnters i =>
      on_call i s (fun c => if collecting c then close_handler Finalizer i (abandon (suspended c) false c) s else None)
  | FinalizerCut i =>
      on_call i s (fun c => if collecting c then Some (set_call i (abandon (suspended c) false c) s) else None)
  | StopServer => match closer s with NotCalled => Some (Sys (serving s) (calls s) true Head) | _ => None end
  | Snapshot hs =>
      match closer s with
      | Head => if bool_decide (NoDup hs ∧ list_to_set hs = open_handlers s)
                then Some (set_closer (match hs with [] => Returned | _ => WaitTasks hs end) s) else None
      | _ => None end
  | TasksDone =>
      match closer s with
      | WaitTasks hs =>
          if forallb (fun h => match calls s !! h with Some c => is_gone c | None => true end) hs
          then Some (set_closer (Close hs) s) else None
      | _ => None end
  | CloserEnters =>
      match closer s with
      | Close [] => Some (set_closer Head s)
      | Close (h :: _) => on_call h s (fun c => close_handler Closer h c s)
      | _ => None end
  | CloserCut =>
      match closer s with
      | WaitTasks _ => Some (set_closer Left s)
      | Close (h :: _) => on_call h s (fun c => match lock c with Some Finalizer => Some (set_closer Left s) | _ => None end)
      | _ => None end
  end.

(** The engine runs; every call of the edge is made after it started. *)
Inductive reachable : sys → Prop :=
| reach_init x : reachable (Sys x ∅ false NotCalled)
| reach_step l s s' : reachable s → exec l s = Some s' → reachable s'.

(** ** Every started request is finalized exactly once *)

Definition over_at (x : ServingSystem.sys) (r : nat) : Prop := ∃ slot g, requests x !! r = Some (Over slot g).
Definition served_at (x : ServingSystem.sys) (r : nat) : Prop := ∃ sv, requests x !! r = Some (InService sv).

(** The states a call can be in. *)
Inductive call_ok (x : ServingSystem.sys) : call → Prop :=
| ok_starting r p acc : requests x !! r = Some (Queued p acc) →
    call_ok x (Call (Some r) Starting Unset None true false false [])
| ok_refused rq t tr : t = Finally ∨ t = Gone → (tr = false → t = Gone) → (∀ r, rq = Some r → over_at x r) →
    call_ok x (Call rq t Unset None tr false false [])
| ok_reading r : served_at x r → call_ok x (Call (Some r) Running Reading None true false false [])
| ok_yield r t a k : served_at x r → t = Gone ∨ t = Running ∧ a = false ∧ k = false →
    call_ok x (Call (Some r) t AtYield None true a k [])
| ok_draining r fa e a k lk t : served_at x r →
    t = Gone ∧ is_Some lk ∧ fa = false ∧ e = Interrupted ∨ t = Running ∧ lk = None ∧ a = false ∧ k = false →
    call_ok x (Call (Some r) t (Draining fa e) lk true a k [Closes_stream])
| ok_over r t g tr a k e : over_at x r →
    match g with
    | Aborting => t = Running | AtDone => t = Running ∨ t = Gone | Ended => t = Finally ∨ t = Gone | _ => False
    end →
    (tr = false → t = Gone) → (t ≠ Gone → a = false ∧ k = false) →
    call_ok x (Call (Some r) t g None tr a k [Closes_stream; Stream_closed; Finalizes e]).

Lemma call_ok_frame x x' c : call_ok x c →
  (∀ r, request c = Some r → requests x' !! r = requests x !! r) → call_ok x' c.
Proof.
  intros H Hx. unfold over_at, served_at in *.
  destruct H; simpl in Hx; econstructor; unfold over_at, served_at in *;
    repeat match goal with Hq : context [requests x !! ?r] |- _ => rewrite <- (Hx r) in Hq by done end; eauto.
  intros r E. rewrite (Hx r E). eauto.
Qed.

Record inv (s : sys) : Prop := Inv {
  inv_calls i c : calls s !! i = Some c → call_ok (serving s) c;
  inv_inj i j c d r : calls s !! i = Some c → calls s !! j = Some d → request c = Some r → request d = Some r → i = j;
  inv_close hs h c : closer s = Close hs → h ∈ hs → calls s !! h = Some c → task c = Gone;
  inv_returned i c : closer s = Returned → calls s !! i = Some c → tracked c = false;
  inv_stopped : closer s ≠ NotCalled → stopped s = true
}.

Lemma ok_request x c r : call_ok x c → request c = Some r → is_Some (requests x !! r).
Proof. intros [] E; simpl in E; simplify_eq; unfold over_at, served_at in *; naive_solver. Qed.
Lemma ok_untracked x c : call_ok x c → tracked c = false → task c = Gone.
Proof. intros [] E; simpl in *; simplify_eq; eauto. Qed.

(** One call and the serving system change; the requests of the others do not. *)
Lemma inv_update s i c c' x : inv s → calls s !! i = Some c →
  (∀ j d r, j ≠ i → calls s !! j = Some d → request d = Some r → requests x !! r = requests (serving s) !! r) →
  call_ok x c' → request c' = request c → (task c = Gone → task c' = Gone) → (tracked c = false → tracked c' = false) →
  inv (set_call i c' (set_serving x s)).
Proof.
  intros [I1 I2 I3 I4 I5] Ei Hx Hc Er Ht Htr. split; simpl; [| | | |done].
  - intros j d [[<- <-]|[Hn Ed]]%lookup_insert_Some; [done|].
    apply (call_ok_frame (serving s)); [by eapply I1|]. intros r Er'. by eapply Hx.
  - intros j k d e r [[<- <-]|[Hn Ed]]%lookup_insert_Some [[<- <-]|[Hm Ee]]%lookup_insert_Some R1 R2; [done| | |eauto].
    + eapply I2; [exact Ei|exact Ee| |exact R2]. congruence.
    + symmetry. eapply I2; [exact Ei|exact Ed| |exact R1]. congruence.
  - intros hs h d Ek Hh [[<- <-]|[Hn Ed]]%lookup_insert_Some; [apply Ht|]; by eapply I3.
  - intros j d Ek [[<- <-]|[Hn Ed]]%lookup_insert_Some; [apply Htr|]; by eapply I4.
Qed.
Lemma inv_call s i c c' : inv s → calls s !! i = Some c →
  call_ok (serving s) c' → request c' = request c → (task c = Gone → task c' = Gone) → (tracked c = false → tracked c' = false) →
  inv (set_call i c' s).
Proof. intros. by apply (inv_update s i c c' (serving s)). Qed.

Lemma mine_spec r s : mine r s = true ↔ ∃ i c, calls s !! i = Some c ∧ request c = Some r.
Proof.
  unfold mine. rewrite existsb_exists. split.
  - intros ([i c] & Hin%list_elem_of_In & E%bool_decide_eq_true). exists i, c. by apply elem_of_map_to_list in Hin.
  - intros (i & c & E & Er). exists (i, c). split; [by apply list_elem_of_In, elem_of_map_to_list|by apply bool_decide_eq_true].
Qed.

(** A step of the serving system touches one request. *)
Lemma step_requests o x r : is_Some (requests x !! r) →
  match o with Finish j _ | Resume j _ => j ≠ r | _ => True end → requests (step v o x) !! r = requests x !! r.
Proof.
  intros Hs Ho. destruct o as [p|j|j|j now|j f| |j b|j b|d]; try done; unfold step.
  - destruct (start_begin _ _ _ _) as [a' out]. simpl. apply lookup_app_l. by apply lookup_lt_is_Some.
  - destruct (requests x !! j) as [[p acc| |]|]; try done.
    destruct (start_resume _ _ _ _ _ _) as [[a' out]|]; [|done]. simpl. by apply list_lookup_insert_ne.
  - destruct (requests x !! j) as [[|sv|]|]; try done.
    destruct (finish_generation _ _ _ _) as [a' ok]. simpl. by apply list_lookup_insert_ne.
Qed.
Lemma finish_over r f x : served_at x r → over_at (step v (Finish r f) x) r.
Proof.
  intros [sv E]. unfold step. rewrite E. destruct (finish_generation _ _ _ _) as [a' ok]. simpl.
  do 2 eexists. apply list_lookup_insert_eq. by eapply lookup_lt_Some.
Qed.

Lemma other_frame s o j d r : inv s → match o with Finish k _ | Resume k _ => mine k s = false | _ => True end →
  calls s !! j = Some d → request d = Some r → requests (step v o (serving s)) !! r = requests (serving s) !! r.
Proof.
  intros H Ho Ed Er. apply step_requests; [by eapply ok_request; [eapply inv_calls|]|].
  destruct o; try done; intros ->; (assert (mine r s = true) by (apply mine_spec; eauto)); congruence.
Qed.
(** A request of call [i] moves; those of the other calls stay. *)
Lemma own_frame s i c r o : inv s → calls s !! i = Some c → request c = Some r →
  match o with Finish k _ | Resume k _ => k = r | _ => True end →
  ∀ j d q, j ≠ i → calls s !! j = Some d → request d = Some q → requests (step v o (serving s)) !! q = requests (serving s) !! q.
Proof.
  intros H Ei Er Ho j d q Hn Ed Eq. apply step_requests; [by eapply ok_request; [eapply inv_calls|]|].
  assert (r ≠ q). { intros ->. apply Hn. by eapply (inv_inj s H). } destruct o; congruence.
Qed.

Lemma inv_other s o : inv s → match o with Finish k _ | Resume k _ => mine k s = false | _ => True end →
  inv (set_serving (step v o (serving s)) s).
Proof.
  intros H Ho. pose proof (fun j d r => other_frame s o j d r H Ho) as F. destruct H as [I1 I2 I3 I4 I5].
  split; simpl; [|done..]. intros j d Ed. apply (call_ok_frame (serving s)); [by eapply I1|]. intros r. by eapply F.
Qed.

Lemma inv_closer s k : inv s → closer s ≠ NotCalled →
  (∀ hs h c, k = Close hs → h ∈ hs → calls s !! h = Some c → task c = Gone) →
  (k = Returned → ∀ i c, calls s !! i = Some c → tracked c = false) → inv (set_closer k s).
Proof. intros [I1 I2 I3 I4 I5] Hn H1 H2. split; simpl; eauto. Qed.

(** What [start_generation_core] leaves. *)
Lemma started_ok r x : is_Some (requests x !! r) →
  call_ok x (started r x (Call (Some r) Starting Unset None true false false [])).
Proof.
  intros [ph E]. unfold started. rewrite E. destruct ph as [p acc|sv|sl g].
  - by eapply ok_starting.
  - apply ok_reading. by exists sv.
  - apply ok_refused; [by left|done|]. intros r' [= <-]. by exists sl, g.
Qed.
Lemma started_fields r x c : request (started r x c) = request c ∧ tracked (started r x c) = tracked c.
Proof. unfold started. by destruct (requests x !! r) as [[]|]. Qed.

Lemma inv_new s i c x : inv s → calls s !! i = None → stopped s = false →
  (∀ j d r, calls s !! j = Some d → request d = Some r → requests x !! r = requests (serving s) !! r ∧ request c ≠ Some r) →
  call_ok x c → inv (set_call i c (set_serving x s)).
Proof.
  intros [I1 I2 I3 I4 I5] Ei Est Hx Hc.
  assert (closer s = NotCalled) as Ek. { destruct (closer s); try done; by rewrite I5 in Est. }
  split; simpl; try (rewrite Ek; done).
  - intros j d [[<- <-]|[Hn Ed]]%lookup_insert_Some; [done|].
    apply (call_ok_frame (serving s)); [by eapply I1|]. intros r Er. by eapply Hx.
  - intros j k d e r [[<- <-]|[Hn Ed]]%lookup_insert_Some [[<- <-]|[Hm Ee]]%lookup_insert_Some R1 R2; [done| | |eauto].
    + by destruct (Hx k e r Ee R2).
    + by destruct (Hx j d r Ed R1).
Qed.

Lemma inv_generate s i rid rq md c s' : inv s → exec (Generate i rid rq md c) s = Some s' → inv s'.
Proof.
  intros H E. cbn [exec] in E. destruct (calls s !! i) eqn:Ei; [done|]. destruct (stopped s) eqn:Es; [done|].
  destruct (prepare _ _ _ _ _) as [p|en].
  - apply (inj Some) in E as <-. set (r := length (requests (serving s))).
    assert (is_Some (requests (step v (Start p) (serving s)) !! r)) as Hr.
    { unfold step. destruct (start_begin _ _ _ _). simpl. apply lookup_lt_is_Some. rewrite length_app. simpl. lia. }
    apply inv_new; [done..| |by apply started_ok].
    intros j d q Ed Eq. pose proof (ok_request _ _ q (inv_calls s H j d Ed) Eq) as Hq. split; [by apply step_requests|].
    destruct (started_fields r (step v (Start p) (serving s)) (Call (Some r) Starting Unset None true false false [])) as [-> _].
    simpl. intros [= <-]. apply lookup_lt_is_Some in Hq. unfold r in Hq. lia.
  - apply (inj Some) in E as <-. apply (inv_new s i _ (serving s)); [done|done|done|by split|].
    by apply ok_refused; [left| |].
Qed.

Ltac call_fields := unfold drain, did, at_stream, at_task, abandon, untrack, locked;
  cbn [request task gen lock tracked suspended collecting acts app].
(** Discharges the cases of [call_ok] that the fields of the call exclude. *)
Ltac impossible := exfalso;
  repeat match goal with
  | H : _ ∨ _ |- _ => destruct H
  | H : _ ∧ _ |- _ => destruct H
  | H : match ?g with _ => _ end |- _ => destruct g
  end; (done || congruence).

Lemma inv_admitted s i now s' : inv s → exec (AdmitResumes i now) s = Some s' → inv s'.
Proof.
  intros H E. cbn [exec] in E. unfold on_call in E. destruct (calls s !! i) as [c|] eqn:Ei; [|done]. cbn [mbind option_bind] in E.
  pose proof (inv_calls s H i c Ei) as Hc.
  destruct (task c) eqn:Et; try done. destruct (request c) as [r|] eqn:Er; [|done]. apply (inj Some) in E as <-.
  destruct (started_fields r (step v (Resume r now) (serving s)) c) as [F1 F2].
  eapply inv_update; [done|done|by eapply own_frame| |done|congruence|congruence].
  destruct Hc as [r' p acc Eq| | | | |]; simpl in *; simplify_eq; [|impossible..].
  apply started_ok. unfold step. rewrite Eq. destruct (start_resume _ _ _ _ _ _) as [[a out]|]; simpl; [|by rewrite Eq].
  rewrite list_lookup_insert_eq; [done|by eapply lookup_lt_Some].
Qed.

(** The steps that change one call and neither the serving system nor [close_all]. *)
Definition local (l : label) : bool :=
  match l with
  | Token _ | Written _ | WriteCancelled _ | StreamEnds _ _ | ReadInterrupted _ | AbortEnds _ | TaskCloses _
  | Collect _ | FinalizerCut _ => true
  | _ => false
  end.
Lemma edge_inv_local s l s' : inv s → local l = true → exec l s = Some s' → inv s'.
Proof.
  intros H Hl E.
  assert (∃ i c c', calls s !! i = Some c ∧ s' = set_call i c' s ∧ request c' = request c ∧
    (task c = Gone → task c' = Gone) ∧ (tracked c = false → tracked c' = false) ∧
    call_ok (serving s) c') as (i & c & c' & Ei & -> & Er & Ht & Htr & Hc); [|by eapply inv_call].
  pose proof (inv_calls s H) as Hok.
  destruct l; try done; cbn [exec] in E; unfold on_call in E;
    (destruct (calls s !! i) as [c|] eqn:Ei; [|done]); cbn [mbind option_bind] in E; specialize (Hok i c Ei);
    destruct c as [rq t g lk tr a k fs]; cbn [task gen lock suspended collecting] in E;
    repeat match type of E with context [match ?x with _ => _ end] => destruct x eqn:? end; try done; simplify_eq;
    (eexists _, _, _; split; [exact Ei|]; split; [reflexivity|]; simpl);
    inversion Hok; subst; simplify_eq; try impossible;
    split_and!; try done; try (intros ->; impossible).
  all: call_fields.
  all: try match goal with Hr : Running = Gone ∨ _ |- _ => destruct Hr as [Hr|(_ & -> & ->)]; [done|] end.
  all: first [apply ok_reading | apply ok_yield | apply ok_draining | apply ok_refused | apply ok_over]; try done; auto.
  all: repeat case_match; try done; naive_solver.
Qed.

Lemma inv_next s h hs : inv s → closer s = Close (h :: hs) → inv (set_closer (Close hs) s).
Proof.
  intros H Ek. apply inv_closer; [done|by rewrite Ek| |done]. intros hs' h' c [= <-] Hh.
  apply (inv_close s H (h :: hs)); [done|by right].
Qed.
Lemma inv_left s : inv s → closer s ≠ NotCalled → inv (set_closer Left s).
Proof. intros. by apply inv_closer. Qed.

Lemma inv_drained s i cut f s' : inv s → drained i cut f s = Some s' → inv s'.
Proof.
  intros H E. unfold drained in E. destruct (calls s !! i) as [c|] eqn:Ei; [|done]. cbn [mbind option_bind] in E.
  destruct (request c) as [r|] eqn:Er; [|done]. cbn [mbind option_bind] in E.
  destruct (gen c) as [| | |fa e| | |] eqn:Eg; try done. destruct (negb _); [done|].
  pose proof (inv_calls s H i c Ei) as Hok.
  assert (∀ c', request c' = Some r → (task c = Gone → task c' = Gone) → (tracked c = false → tracked c' = false) →
    (served_at (serving s) r → call_ok (step v (Finish r f) (serving s)) c') →
    inv (set_call i c' (set_serving (step v (Finish r f) (serving s)) s))) as U.
  { intros c' E1 E2 E3 E4. eapply inv_update; [done|done|by eapply own_frame| |congruence|done|done].
    apply E4. destruct Hok; simpl in *; simplify_eq; done. }
  pose proof (finish_over r f (serving s)) as Hf.
  destruct Hok as [| | | |q fa' e' a k lk t Hs Hcase|]; simpl in *; simplify_eq; [|done].
  destruct lk as [kd|].
  - destruct Hcase as [(-> & _ & -> & ->)|(-> & ? & _)]; [|done].
    assert (inv (set_call i (if cut || negb (f_stored f)
        then Call (Some r) Gone Ended None true a k [Closes_stream; Stream_closed; Finalizes false]
        else Call (Some r) Gone Ended None false a k [Closes_stream; Stream_closed; Finalizes false]) (set_serving (step v (Finish r f) (serving s)) s))) as J.
    { apply U; try by destruct (_ || _). intros Hx%Hf. destruct (_ || _); apply ok_over; auto; done. }
    unfold locked, at_stream, untrack, did in E. cbn in E. destruct kd; [by apply (inj Some) in E as <-|].
    destruct (closer s) as [| | |[|h hs]| |] eqn:Ek; try done. apply (inj Some) in E as <-.
    destruct (cut || negb (f_stored f)) eqn:Ec; [apply inv_left|eapply inv_next]; try exact J; simpl; rewrite ?Ek; done.
  - destruct Hcase as [(_ & [? ?] & _)|(-> & _ & -> & ->)]; [done|].
    destruct (cut || negb (f_stored f) || _) eqn:Ec; apply (inj Some) in E as <-;
      (apply U; try done; intros Hx%Hf; call_fields; apply ok_over; try done; try (destruct fa; simpl; auto; done); auto).
Qed.

Lemma inv_close_handler s k i c0 c s' : inv s → calls s !! i = Some c0 → call_ok (serving s) c → request c = request c0 →
  tracked c = tracked c0 → task c = Gone → close_handler k i c s = Some s' → inv s'.
Proof.
  intros H Ei Hok Er Etr Et E. unfold close_handler in E. destruct (lock c) eqn:El; [done|].
  assert (∀ c', request c' = request c → task c' = Gone → (tracked c = false → tracked c' = false) →
    call_ok (serving s) c' → inv (set_call i c' s)) as U.
  { intros c' E1 E2 E3 E4. eapply inv_call; [done|exact Ei|done|congruence|done|by rewrite <- Etr]. }
  assert (inv (set_call i (untrack (at_stream (match gen c with AtDone => Ended | g => g end) c)) s) ∧ gen c ≠ AtYield
    ∨ gen c = AtYield ∧ inv (set_call i (locked (Some k) (drain false Interrupted c)) s)) as J.
  { destruct Hok as [| |? ?|? ? ? ? ?|? ? ? ? ? lk|? ? g]; simpl in *; simplify_eq; try impossible.
    - left. split; [|done]. apply U; try done. by apply ok_refused; [right| |].
    - right. split; [done|]. apply U; try done. apply ok_draining; [done|]. left. eauto.
    - left. split; [|by destruct g]. apply U; try done. call_fields. destruct g; try done; apply ok_over; auto; done. }
  destruct J as [[J Hg]|[Eg J]]; [|rewrite Eg in E; by apply (inj Some) in E as <-].
  assert (match k, closer s with
    | Closer, Close (_ :: hs) => set_closer (Close hs) (set_call i (untrack (at_stream (match gen c with AtDone => Ended | g => g end) c)) s)
    | _, _ => set_call i (untrack (at_stream (match gen c with AtDone => Ended | g => g end) c)) s end = s') as <-.
  { destruct (gen c), k; try done; simpl in E; destruct (closer s) as [| | |[]| |]; simpl in E; by simplify_eq. }
  destruct k; [done|]. destruct (closer s) as [| | |[|h hs]| |] eqn:Ek; try done. by eapply inv_next.
Qed.

Lemma open_handlers_spec s i : i ∈ open_handlers s ↔ ∃ c, calls s !! i = Some c ∧ tracked c = true.
Proof.
  unfold open_handlers. rewrite elem_of_dom. split.
  - intros [c [E Et]%map_lookup_filter_Some]. by exists c.
  - intros (c & E & Et). exists c. by apply map_lookup_filter_Some.
Qed.

Lemma abandon_ok x c : call_ok x c → collecting c = true → task c = Gone ∧ call_ok x (abandon (suspended c) false c).
Proof.
  intros H E. destruct H as [| |? ?|? t ? ? ? Ht|? ? ? ? ? ? t ? Ht|? t g ? ? ? ? ? Hg ? Hk]; simpl in *; simplify_eq; call_fields.
  - destruct Ht as [->|(_ & _ & ?)]; [|done]. split; [done|]. apply ok_yield; auto.
  - destruct Ht as [(-> & ? & -> & ->)|(_ & _ & _ & ?)]; [|done]. split; [done|]. apply ok_draining; [done|]. left. auto.
  - assert (t = Gone) as ->. { destruct t; try done; destruct Hk; done. }
    split; [done|]. apply ok_over; try done.
Qed.

Lemma inv_closes l s s' : inv s →
  match l with StopServer | Snapshot _ | TasksDone | CloserEnters | CloserCut | FinalizerEnters _ => True | _ => False end →
  exec l s = Some s' → inv s'.
Proof.
  intros H Hl E. destruct l; try done; cbn [exec] in E; unfold on_call in E.
  - destruct (calls s !! i) as [c|] eqn:Ei; [|done]. cbn [mbind option_bind] in E. destruct (collecting c) eqn:Ec; [|done].
    destruct (abandon_ok (serving s) c (inv_calls s H i c Ei) Ec) as [Et Ha].
    by eapply inv_close_handler; [| |exact Ha|..|exact E].
  - destruct (closer s) eqn:Ek; try done. apply (inj Some) in E as <-. destruct H as [I1 I2 _ _ _]. by split.
  - destruct (closer s) eqn:Ek; try done. destruct (bool_decide _) eqn:Eb; [|done]. apply (inj Some) in E as <-.
    apply bool_decide_eq_true in Eb as [_ Eb]. apply inv_closer; [done|by rewrite Ek|by destruct hs|].
    intros Er i c Ei. destruct (tracked c) eqn:Et; [|done].
    assert (i ∈ open_handlers s) as Hi by (apply open_handlers_spec; eauto). rewrite <- Eb in Hi. destruct hs; [|done].
    by apply not_elem_of_empty in Hi.
  - destruct (closer s) eqn:Ek; try done. destruct (forallb _ _) eqn:Ef; [|done]. apply (inj Some) in E as <-.
    apply inv_closer; [done|by rewrite Ek| |done]. intros hs' h c [= <-] Hh Eh.
    rewrite forallb_forall in Ef. specialize (Ef h). rewrite <- list_elem_of_In, Eh in Ef. unfold is_gone in Ef.
    destruct (task c); by specialize (Ef Hh).
  - destruct (closer s) as [| | |[|h hs]| |] eqn:Ek; try done.
    + apply (inj Some) in E as <-. by apply inv_closer; [|rewrite Ek| |].
    + destruct (calls s !! h) as [c|] eqn:Ei; [|done]. cbn [mbind option_bind] in E.
      eapply inv_close_handler; [done|exact Ei|by eapply inv_calls|done|done| |exact E].
      eapply inv_close; [done|exact Ek|by left|done].
  - destruct (closer s) as [| | |[|h hs]| |] eqn:Ek; try done.
    + apply (inj Some) in E as <-. apply inv_left; [done|by rewrite Ek].
    + destruct (calls s !! h) as [c|]; [|done]. cbn [mbind option_bind] in E. destruct (lock c) as [[]|]; try done.
      apply (inj Some) in E as <-. apply inv_left; [done|by rewrite Ek].
Qed.

Lemma edge_inv_exec l s s' : inv s → exec l s = Some s' → inv s'.
Proof.
  intros H E. destruct (local l) eqn:El; [by eapply edge_inv_local|].
  destruct l as [o| | | | | | | |i f|i f| | | | | | | | | |]; try done.
  - cbn [exec] in E.
    destruct o; try (apply (inj Some) in E as <-; by apply inv_other);
      (destruct (mine _ s) eqn:Em; [done|]; apply (inj Some) in E as <-; by apply inv_other).
  - by eapply inv_generate.
  - by eapply inv_admitted.
  - by eapply inv_drained.
  - by eapply inv_drained.
  - by eapply inv_closes; [exact H| |exact E].
  - by eapply inv_closes; [exact H| |exact E].
  - by eapply inv_closes; [exact H| |exact E].
  - by eapply inv_closes; [exact H| |exact E].
  - by eapply inv_closes; [exact H| |exact E].
  - by eapply inv_closes; [exact H| |exact E].
Qed.
Lemma edge_inv_reachable s : reachable s → inv s.
Proof. induction 1 as [x|l s s' _ IH E]; [by split; simpl; intros; simplify_map_eq|by eapply edge_inv_exec]. Qed.

(** C3. A gRPC request that was started is finalized exactly once, whatever cancels its task,
    its writes, its closing or the shutdown.  A call begins to close its generation, that
    close ends (it returns, raises or is interrupted), and only then is the request finalized,
    each of the three at most once and in this order; until then the request stays in service.
    It is finalized by the time its handler is no longer tracked.  When [close_all] returns
    (and only then does the engine count the edge as terminated) every call's task is over and
    none of its requests is still being served. *)
Theorem grpc_finalized_once s i c : reachable s → calls s !! i = Some c →
  (∃ e, acts c `prefix_of` [Closes_stream; Stream_closed; Finalizes e]) ∧
  (∀ r, request c = Some r → gen c ≠ Unset →
     if existsb (fun a => match a with Finalizes _ => true | _ => false end) (acts c)
     then over_at (serving s) r else served_at (serving s) r) ∧
  (tracked c = false → gen c ≠ Unset → ∃ e, acts c = [Closes_stream; Stream_closed; Finalizes e]) ∧
  (closer s = Returned → task c = Gone ∧ (∀ r, request c = Some r → over_at (serving s) r)).
Proof.
  intros H%edge_inv_reachable Ei. pose proof (inv_calls s H i c Ei) as Hok. split_and!.
  - destruct Hok; simpl; try (exists false; apply prefix_nil); [|by eexists].
    exists false. by apply prefix_cons, prefix_nil.
  - destruct Hok; simpl; intros q Hq Hg; simplify_eq; done.
  - destruct Hok; simpl; try done. eauto.
  - intros Ek. pose proof (inv_returned s H i c Ek Ei) as Et.
    split; [by eapply ok_untracked|]. destruct Hok; simpl in *; simplify_eq; try done; naive_solver.
Qed.

Fixpoint run (ls : list label) (s : sys) : option sys :=
  match ls with [] => Some s | l :: ls' => s' ← exec l s; run ls' s' end.
Lemma edge_run_reachable ls s s' : reachable s → run ls s = Some s' → reachable s'.
Proof.
  revert s. induction ls as [|l ls IH]; intros s H E; simpl in E; [by simplify_eq|].
  destruct (exec l s) as [s1|] eqn:E1; [|done]. eapply IH; [by eapply reach_step|exact E].
Qed.

End Edge.

(** A client goes away while its first token is written; the shutdown finds the abandoned
    stream, closes it and returns. *)
Definition demo_finishing : finishing := Finishing false None 0 0 "grpc-1" 1001 true.
Definition demo : list label :=
  [Generate 0 "grpc-1" demo_request [("x-api-key", "sk-ie-aaaa")] (Readings "n" 1000 1000 1000 true);
   Token 0; WriteCancelled 0; StopServer; Snapshot [0%nat]; TasksDone; CloserEnters;
   DrainReturns 0 demo_finishing; CloserEnters; Snapshot []].
Lemma grpc_finalized_once_witness :
  match run demo_env demo (Sys demo_sys ∅ false NotCalled) with
  | Some s => match calls s !! 0%nat with
              | Some c => closer s = Returned ∧ acts c = [Closes_stream; Stream_closed; Finalizes false] ∧ request c = Some 0%nat ∧ over_at (serving s) 0
              | None => False
              end
  | None => False
  end.
Proof.
  assert (∃ s c, run demo_env demo (Sys demo_sys ∅ false NotCalled) = Some s ∧ calls s !! 0%nat = Some c ∧
    closer s = Returned ∧ request c = Some 0%nat ∧ tracked c = false ∧ gen c ≠ Unset ∧ last (acts c) = Some (Finalizes false))
    as (s & c & E & Ec & Ek & Er & Et & Eg & El).
  { do 2 eexists. split; [vm_compute; reflexivity|]. split; [vm_compute; reflexivity|]. by vm_compute. }
  rewrite E, Ec.
  assert (reachable demo_env s) as Hr by (by eapply edge_run_reachable; [apply reach_init|exact E]).
  destruct (grpc_finalized_once demo_env s 0 c Hr Ec) as (_ & _ & H1 & H2).
  split; [exact Ek|]. split; [|split; [exact Er|by apply H2]]. destruct (H1 Et Eg) as [e He]. rewrite He in El |- *. injection El as ->. reflexivity.
Defined.

End GrpcEdge.
