(* ===== verification/Operators.v ===== *)
(** * The operator routes ([engine/api/deps.py], [admin_router.py], [billing_router.py])

    [Module OperatorApi]: the gate of [deps.py] and the key, audit, plan, client and webhook
    routes of the operator surface, composed of the operations of the stores, on the state
    they share: the database behind the gateway, the webhook tables and the audit log.  A
    route is run alone, its statements in their order, each its own transaction: what a
    statement committed stays when a later one raises.  The random values and clock readings
    it makes are arguments, and so is an exception of SQLite in the audit write.  The routes
    of the models router are in [ModelLifecycle], the read-only views in [OperatorViews]. *)

From S2P Require Import Prelude Crypto Text Sql Store Keys Billing Quota Gateway AuditChain Webhooks Net.

Open Scope Z_scope.

Module OperatorApi.
Import Db.

(** ** State and effects *)

Record st := St { gw : Gateway.state; hooks : WebhookStore.t; audit : AuditLog.t }.
Definition tables (s : st) : Db.t := Gateway.db (gw s).
Definition with_tables (d : Db.t) (s : st) : st := St (Gateway.with_db d (gw s)) (hooks s) (audit s).

(** How a route fails: a body that pydantic refuses, an error response, or an exception that
    no handler maps. *)
Inductive failure := Invalid_body | Refuse (status : Z) (code : string) | Raises (e : exn).

Definition act (A : Type) : Type := st → st * result failure A.
#[export] Instance act_ret : MRet act := fun A a s => (s, Ok a).
#[export] Instance act_bind : MBind act := fun A B k c s =>
  match c s with (s', Ok a) => k a s' | (s', Err e) => (s', Err e) end.
Definition fail {A} (e : failure) : act A := fun s => (s, Err e).
Definition ask {A} (f : st → A) : act A := fun s => (s, Ok (f s)).
(** A query whose rows are decoded. *)
Definition read {A} (f : st → result exn A) : act A := fun s =>
  (s, match f s with Ok a => Ok a | Err e => Err (Raises e) end).
(** A statement of a store on the database; an exception of it leaves the route. *)
Definition db_stmt {A} (c : stmt Db.t A) : act A := fun s =>
  let '(d, r) := c (tables s) in
  (with_tables d s, match r with Ok a => Ok a | Err e => Err (Raises e) end).
Definition db_run {A} (f : Db.t → Db.t * A) : act A := fun s => let '(d, a) := f (tables s) in (with_tables d s, Ok a).
(** The webhook tables refer to the clients of the same database. *)
Definition hook_tables (s : st) : WebhookStore.t :=
  WebhookStore.Mk (map c_id (clients (tables s))) (WebhookStore.endpoints (hooks s)) (WebhookStore.secrets (hooks s))
    (WebhookStore.deliveries (hooks s)).
Definition hook_stmt {A} (c : stmt WebhookStore.t A) : act A := fun s =>
  let '(w, r) := c (hook_tables s) in
  match r with Ok a => (St (gw s) w (audit s), Ok a) | Err e => (s, Err (Raises e)) end.
Definition hook_run {A} (f : WebhookStore.t → WebhookStore.t * A) (changed : A → bool) : act A := fun s =>
  let '(w, a) := f (hook_tables s) in (if changed a then St (gw s) w (audit s) else s, Ok a).

(** A request, with the clock readings of the gate and of the audit record, and the
    exception that record's statements raise, if they do (a locked or full database). *)
Record caller := Caller {
  client_host : option string;
  authorization : option string;
  x_api_key : option string;
  now_gate : string;
  now_identity : string;
  now_audit : string;
  audit_fault : option exn
}.
Definition token (q : caller) : option string := Gateway.extract_token (authorization q) (x_api_key q).

(** ** The gate ([deps.py]) *)

Section Routes.
Context (cfg : Gateway.Settings).

(** [operator_decision] *)
Definition operator_decision (q : caller) : act (Gateway.OperatorAccess * option KeyStore.KeyRecord) := fun s =>
  let '(g, d) := Gateway.operator_access cfg (client_host q) (token q) (now_gate q) (gw s) in
  (St g (hooks s) (audit s), Ok d).
(** [operator_identity] *)
Definition operator_identity (q : caller) : act string :=
  match token q with
  | Some t => if str_true t then
                r ← db_run (KeyStore.verify t (now_identity q));
                mret (match r with Some rec => KeyStore.id rec | None => Gateway.LOCAL_KEY_ID end)
              else mret Gateway.LOCAL_KEY_ID
  | None => mret Gateway.LOCAL_KEY_ID
  end.
(** [require_operator] *)
Definition require_operator (q : caller) : act (option KeyStore.KeyRecord) :=
  d ← operator_decision q;
  match fst d with
  | Gateway.FORBIDDEN_ROLE => fail (Refuse 403 "operator_role_required")
  | Gateway.UNAUTHENTICATED => fail (Refuse 401 "operator_access_required")
  | Gateway.ALLOWED => mret (snd d)
  end.

(** [_audit], and [audit.record] of the key routes. *)
Definition audit_append (fault : option exn) (e : AuditLog.entry) : act unit := fun s =>
  match fault with
  | Some x => (s, Err (Raises x))
  | None => (St (gw s) (hooks s) (fst (AuditLog.record e (audit s))), Ok tt)
  end.
Definition audit_record (q : caller) (action target : string) (detail : option Json.t) : act unit :=
  actor ← operator_identity q;
  audit_append (audit_fault q) (AuditLog.Entry (now_audit q) action actor (Some target) detail).

(** ** Bodies *)

Definition opt_str (o : option string) : Json.t := match o with Some x => Json.JStr x | None => Json.JNull end.
Definition opt_len (n : nat) (o : option string) : bool :=
  match o with Some x => (String.length x <=? n)%nat | None => true end.
Definition len_between (lo hi : nat) (x : string) : bool := (lo <=? String.length x)%nat && (String.length x <=? hi)%nat.
(** [PlanUpsert] *)
Definition plan_ok (p : plan) : bool :=
  len_between 1 128 (pl_id p) && len_between 1 256 (pl_name p) && Qle_bool 0 (pl_quota_5h p) && Qle_bool 0 (pl_quota_weekly p)
  && match pl_rate p with Some n => 0 <=? n | None => true end.
(** [EndpointCreate] *)
Record endpoint_body := EndpointBody {
  b_client : string; b_url : string; b_description : option string; b_event_types : option (list string)
}.
Definition endpoint_ok (b : endpoint_body) : bool :=
  (1 <=? String.length (b_client b))%nat && len_between 1 2048 (b_url b) && opt_len 512 (b_description b).

(** ** Routes *)

(** The payload of a response. *)
Inductive payload :=
| PlanOut (p : plan) | PlansOut (l : list plan)
| ClientOut (c : client) | ClientsOut (l : list client)
| KeyOut (r : KeyStore.KeyRecord) (client : option string) (token : string)
| KeysOut (l : list KeyStore.KeyRecord)
| KeyRevoked (i : string) | KeyDeleted (i : string)
| UsageOut (client : string) (cu_5h cu_week : Q)
| AuditOut (l : list AuditLog.AuditEvent) (verdict : option AuditLog.VerifyResult)
| IdentityOut (auth_required : bool) (key : option KeyStore.KeyRecord)
| EndpointOut (e : WebhookStore.Endpoint) (secret : string) | EndpointsOut (l : list WebhookStore.Endpoint)
| EndpointDisabled (i : string) (b : bool) | EndpointDeleted (i : string)
| SecretOut (i secret : string) (grace_s expires_at : Q)
| DeliveriesOut (l : list WebhookStore.Delivery) | Replayed (i : string).

(** [upsert_plan] *)
Definition upsert_plan (q : caller) (p : plan) : act payload :=
  if negb (plan_ok p) then fail Invalid_body else
  _ ← require_operator q;
  _ ← db_run (fun d => (BillingStore.upsert_plan p d, tt));
  _ ← audit_record q "billing.plan.upsert" (pl_id p) (Some (Json.JObj [("name", Json.JStr (pl_name p))]));
  mret (PlanOut p).
Definition list_plans (q : caller) : act payload :=
  _ ← require_operator q; l ← ask (fun s => BillingStore.list_plans (tables s)); mret (PlansOut l).

(** [create_client]; [uuid] and [now] are its new id and creation time. *)
Definition create_client (q : caller) (uuid now : string) (ref email : option string) : act payload :=
  if negb (opt_len 256 ref && opt_len 320 email) then fail Invalid_body else
  _ ← require_operator q;
  c ← db_stmt (BillingStore.create_client uuid ref email now);
  _ ← audit_record q "billing.client.create" (c_id c) None;
  mret (ClientOut c).
Definition list_clients (q : caller) : act payload :=
  _ ← require_operator q; l ← ask (fun s => BillingStore.list_clients (tables s)); mret (ClientsOut l).

(** [create_key_for_client], behind its gate and in full. *)
Definition create_owned_key (q : caller) (rnd uuid now : string) (client : string) (label : option string) : act payload :=
  known ← ask (fun s => BillingStore.get_client client (tables s));
  match known with
  | None => fail (Refuse 404 "client_not_found")
  | Some _ =>
      rt ← db_stmt (KeyStore.create rnd uuid now label);
      _ ← db_stmt (BillingStore.attach_key (KeyStore.id (fst rt)) client);
      _ ← audit_record q "key.create" (KeyStore.id (fst rt))
            (Some (Json.JObj [("label", opt_str label); ("client_id", Json.JStr client)]));
      mret (KeyOut (fst rt) (Some client) (snd rt))
  end.
Definition create_key_for_client (q : caller) (rnd uuid now : string) (client : string) (label : option string) : act payload :=
  if negb (opt_len 256 label) then fail Invalid_body else
  _ ← require_operator q; create_owned_key q rnd uuid now client label.

(** [reconcile_client] *)
Definition reconcile_client (q : caller) (now : Q) (client : string) : act payload :=
  _ ← require_operator q;
  known ← ask (fun s => BillingStore.get_client client (tables s));
  match known with
  | None => fail (Refuse 404 "client_not_found")
  | Some _ =>
      a ← ask (fun s => BillingStore.client_usage_cu client (Windows.rolling_5h_start now) (tables s));
      b ← ask (fun s => BillingStore.client_usage_cu client (Windows.week_start now) (tables s));
      mret (UsageOut client a b)
  end.

(** [list_keys] and [create_key] of the admin router *)
Definition list_keys (q : caller) : act payload :=
  _ ← require_operator q; l ← ask (fun s => KeyStore.list_keys (tables s)); mret (KeysOut l).
Definition create_key (q : caller) (rnd uuid now : string) (label : option string) : act payload :=
  if negb (opt_len 200 label) then fail Invalid_body else
  _ ← require_operator q;
  rt ← db_stmt (KeyStore.create rnd uuid now label);
  _ ← audit_record q "key.create" (KeyStore.id (fst rt)) (Some (Json.JObj [("label", opt_str label)]));
  mret (KeyOut (fst rt) None (snd rt)).
(** [revoke_or_delete_key] behind its gate. *)
Definition revoke_or_delete (q : caller) (n key : string) (purge : bool) : act payload :=
  if purge then
    rec ← ask (fun s => KeyStore.get key (tables s));
    match rec with
    | None => fail (Refuse 404 "key_not_found")
    | Some r =>
        if negb (KeyStore.revoked r) then fail (Refuse 409 "key_not_revoked")
        else _ ← db_run (KeyStore.delete key);
             _ ← audit_record q "key.delete" key None; mret (KeyDeleted key)
    end
  else
    ok ← db_run (KeyStore.revoke key n);
    if negb ok then fail (Refuse 404 "key_not_found")
    else _ ← audit_record q "key.revoke" key None; mret (KeyRevoked key).
Definition revoke_or_delete_key (q : caller) (now key_id : string) (purge : bool) : act payload :=
  _ ← require_operator q; revoke_or_delete q now key_id purge.

(** [audit_log] and [identity] *)
Definition audit_log (q : caller) (limit : Z) (verify : bool) : act payload :=
  if negb ((1 <=? limit) && (limit <=? 1000)) then fail Invalid_body else
  _ ← require_operator q;
  l ← read (fun s => AuditLog.list_events (Z.to_nat limit) (audit s));
  if verify then r ← read (fun s => AuditLog.verify (audit s)); mret (AuditOut l (Some r))
  else mret (AuditOut l None).
Definition identity (q : caller) : act payload :=
  k ← require_operator q; mret (IdentityOut (Gateway.effective_require_auth cfg) k).

(** *** Webhook endpoints *)

Section Endpoints.
Context (netloc_ok : string → bool) (egress_allowlist : list string).
(** The JSON number of a float, as [json.dumps] writes it. *)
Context (json_float : Q → Json.t).

(** [create_endpoint] *)
Definition create_endpoint (q : caller) (eid sid now_e now_s : string) (raw : list Z) (b : endpoint_body) : act payload :=
  if negb (endpoint_ok b) then fail Invalid_body else
  _ ← require_operator q;
  known ← ask (fun s => BillingStore.get_client (b_client b) (tables s));
  match known with
  | None => fail (Refuse 404 "client_not_found")
  | Some _ =>
      if negb (Url.splits netloc_ok (b_url b)) then fail (Raises ValueError)
      else match Url.hostname netloc_ok (b_url b) with
      | None => fail (Refuse 400 "invalid_endpoint_url")
      | Some host =>
          if negb (bool_decide (Url.scheme_of (b_url b) ∈ ["http"; "https"])) then fail (Refuse 400 "invalid_endpoint_url")
          else if negb (Text.isascii host) then fail (Refuse 400 "endpoint_host_not_ascii")
          else if negb (Url.host_allowed host egress_allowlist) then fail (Refuse 400 "egress_not_allowed")
          else
            es ← hook_stmt (WebhookStore.create_endpoint eid sid now_e now_s raw (b_client b) (b_url b) (b_description b)
                              (b_event_types b));
            _ ← audit_record q "webhook.endpoint.create" (WebhookStore.ep_id (fst es))
                  (Some (Json.JObj [("client_id", Json.JStr (b_client b)); ("host", Json.JStr host)]));
            mret (EndpointOut (fst es) (snd es))
      end
  end.
Definition list_endpoints (q : caller) (client : option string) : act payload :=
  _ ← require_operator q; l ← ask (fun s => WebhookStore.list_endpoints client (hook_tables s)); mret (EndpointsOut l).
(** [disable_endpoint] *)
Definition disable_endpoint (q : caller) (i : string) (disabled : bool) : act payload :=
  _ ← require_operator q;
  ok ← hook_run (WebhookStore.set_disabled i disabled) (fun ok => ok);
  if negb ok then fail (Refuse 404 "endpoint_not_found")
  else _ ← audit_record q (if disabled then "webhook.endpoint.disable" else "webhook.endpoint.enable") i None;
       mret (EndpointDisabled i disabled).
(** [delete_endpoint] *)
Definition delete_endpoint (q : caller) (i : string) : act payload :=
  _ ← require_operator q;
  ok ← hook_run (WebhookStore.delete_endpoint i) (fun ok => ok);
  if negb ok then fail (Refuse 404 "endpoint_not_found")
  else _ ← audit_record q "webhook.endpoint.delete" i None; mret (EndpointDeleted i).
(** [rotate_secret] *)
Definition rotate_secret (q : caller) (sid now_s : string) (raw : list Z) (grace_s now : Q) (i : string) : act payload :=
  _ ← require_operator q;
  known ← ask (fun s => WebhookStore.get_endpoint i (hook_tables s));
  match known with
  | None => fail (Refuse 404 "endpoint_not_found")
  | Some _ =>
      secret ← hook_stmt (WebhookStore.rotate_secret sid now_s raw i grace_s now);
      _ ← audit_record q "webhook.endpoint.rotate_secret" i (Some (Json.JObj [("grace_s", json_float grace_s)]));
      mret (SecretOut i secret grace_s (now + grace_s)%Q)
  end.
(** [list_deliveries]; a negative [LIMIT] is none. *)
Definition list_deliveries (q : caller) (ep : option string) (status : option WebhookStore.status) (limit : Z) : act payload :=
  _ ← require_operator q;
  l ← ask (fun s => WebhookStore.list_deliveries ep status
             (if limit <? 0 then length (WebhookStore.deliveries (hooks s)) else Z.to_nat limit) (hook_tables s));
  mret (DeliveriesOut l).
(** [replay_delivery] *)
Definition replay_delivery (q : caller) (now : Q) (i : string) : act payload :=
  _ ← require_operator q;
  ok ← hook_run (WebhookStore.replay i now) (fun ok => ok);
  if negb ok then fail (Refuse 404 "delivery_not_found")
  else _ ← audit_record q "webhook.delivery.replay" i None; mret (Replayed i).

Inductive route :=
| UpsertPlan (p : plan) | ListPlans
| CreateClient (uuid now : string) (ref email : option string) | ListClients
| CreateKeyForClient (rnd uuid now client : string) (label : option string) | ReconcileClient (now : Q) (client : string)
| ListKeys | CreateKey (rnd uuid now : string) (label : option string) | RevokeOrDeleteKey (now key_id : string) (purge : bool)
| AuditRoute (limit : Z) (verify : bool) | Identity
| CreateEndpoint (eid sid now_e now_s : string) (raw : list Z) (b : endpoint_body)
| ListEndpoints (client : option string) | DisableEndpoint (i : string) (b : bool) | DeleteEndpoint (i : string)
| RotateSecret (sid now_s : string) (raw : list Z) (grace_s now : Q) (i : string)
| ListDeliveries (ep : option string) (status : option WebhookStore.status) (limit : Z) | ReplayDelivery (now : Q) (i : string).
Definition handle (q : caller) (r : route) : act payload :=
  match r with
  | UpsertPlan p => upsert_plan q p
  | ListPlans => list_plans q
  | CreateClient u n ref email => create_client q u n ref email
  | ListClients => list_clients q
  | CreateKeyForClient rnd u n c l => create_key_for_client q rnd u n c l
  | ReconcileClient n c => reconcile_client q n c
  | ListKeys => list_keys q
  | CreateKey rnd u n l => create_key q rnd u n l
  | RevokeOrDeleteKey n i p => revoke_or_delete_key q n i p
  | AuditRoute l v => audit_log q l v
  | Identity => identity q
  | CreateEndpoint e s ne ns raw b => create_endpoint q e s ne ns raw b
  | ListEndpoints c => list_endpoints q c
  | DisableEndpoint i b => disable_endpoint q i b
  | DeleteEndpoint i => delete_endpoint q i
  | RotateSecret s ns raw g n i => rotate_secret q s ns raw g n i
  | ListDeliveries e s l => list_deliveries q e s l
  | ReplayDelivery n i => replay_delivery q n i
  end.

(** ** States that differ in the time a key was last used *)

Definition untouch (k : api_key) : api_key :=
  ApiKey (k_id k) (key_hash k) (Db.prefix k) (Db.label k) (Db.created_at k) None (Db.revoked_at k) (k_client k) (k_status k).
Definition untouched (d : Db.t) : Db.t := with_keys (map untouch (api_keys d)) d.
(** Same tables, up to [last_used_at]; same audit log. *)
Definition quiet (s s' : st) : Prop :=
  untouched (tables s') = untouched (tables s) ∧ hooks s' = hooks s ∧ audit s' = audit s.
#[local] Instance quiet_refl : Reflexive quiet.
Proof. by split. Qed.
#[local] Instance quiet_trans : Transitive quiet.
Proof. intros a b c (A1 & A2 & A3) (B1 & B2 & B3). split_and!; congruence. Qed.

(** The live key of a token. *)
Definition live_id (t : string) (d : Db.t) : option string :=
  match Sql.fetchone (fun k => bool_decide (key_hash k = KeyStore.hash_token t)) (api_keys d) with
  | Some k => if bool_decide (Db.revoked_at k = None) then Some (k_id k) else None
  | None => None
  end.
Lemma fetch_untouch p l : (∀ k, p (untouch k) = p k) → Sql.fetchone p (map untouch l) = untouch <$> Sql.fetchone p l.
Proof. intros Hp. induction l as [|k l IH]; [done|]. simpl. rewrite Hp. destruct (p k); [done|exact IH]. Qed.
Lemma live_untouched t d : live_id t (untouched d) = live_id t d.
Proof. unfold live_id, untouched. simpl. rewrite fetch_untouch by done. by destruct (Sql.fetchone _ _). Qed.
Lemma ids_untouched d : map k_id (api_keys (untouched d)) = map k_id (api_keys d).
Proof. unfold untouched. simpl. rewrite map_map. by apply map_ext. Qed.

Lemma verify_quiet t n d : untouched (fst (KeyStore.verify t n d)) = untouched d.
Proof.
  unfold KeyStore.verify. destruct (negb _); [done|]. destruct (Sql.fetchone _ _) as [row|]; [|done].
  destruct (Db.revoked_at row); [done|]. unfold untouched, with_keys. simpl. f_equal.
  unfold Sql.update. rewrite map_map. apply map_ext. intros k. by destruct (bool_decide _).
Qed.
Lemma verify_live_id t n d : str_true t = true → KeyStore.id <$> snd (KeyStore.verify t n d) = live_id t d.
Proof.
  intros Ht. unfold KeyStore.verify, live_id. rewrite Ht. simpl. destruct (Sql.fetchone _ _) as [row|]; [|done].
  destruct (Db.revoked_at row) eqn:E; simpl; by rewrite ?bool_decide_false, ?bool_decide_true by congruence.
Qed.

(** The caller presents the live key [i], or no key and is known as [local]; ids are unique. *)
Definition presents (q : caller) (i : string) (s : st) : Prop :=
  NoDup (map k_id (api_keys (tables s))) ∧
  match token q with
  | Some t => if str_true t then live_id t (tables s) = Some i else i = Gateway.LOCAL_KEY_ID
  | None => i = Gateway.LOCAL_KEY_ID
  end.
Lemma presents_untouched q i s s' : untouched (tables s') = untouched (tables s) → presents q i s → presents q i s'.
Proof.
  intros E [H1 H2]. split; [by rewrite <- ids_untouched, E, ids_untouched|].
  destruct (token q) as [t|]; [|done]. destruct (str_true t); [|done]. by rewrite <- live_untouched, E, live_untouched.
Qed.

Lemma identity_presents q i s : presents q i s →
  ∃ s', operator_identity q s = (s', Ok i) ∧ quiet s s'.
Proof.
  intros [_ H]. unfold operator_identity. destruct (token q) as [t|]; [|by subst; exists s].
  destruct (str_true t) eqn:Et; [|by subst; exists s].
  cbv [mbind act_bind db_run mret act_ret]. pose proof (verify_live_id t (now_identity q) (tables s) Et) as V. rewrite H in V.
  pose proof (verify_quiet t (now_identity q) (tables s)) as Q.
  destruct (KeyStore.verify t (now_identity q) (tables s)) as [d r]. cbn [fst snd] in *. destruct r as [r|]; [|done].
  injection V as <-. eexists. split; [done|]. split_and!; [exact Q|done|done].
Qed.

(** ** The gate *)

Lemma decision_quiet q s : ∃ s' d, operator_decision q s = (s', Ok d) ∧ quiet s s' ∧
  d = snd (Gateway.operator_access cfg (client_host q) (token q) (now_gate q) (gw s)).
Proof.
  unfold operator_decision, Gateway.operator_access. destruct (token q) as [t|].
  2: { do 2 eexists. split; [done|]. split; [|done]. by destruct s as [[]]. }
  destruct (str_true t).
  - pose proof (verify_quiet t (now_gate q) (tables s)) as Q. unfold tables in Q.
    destruct (KeyStore.verify t (now_gate q) (Gateway.db (gw s))) as [d r]. cbn [fst] in Q.
    destruct r as [r|]; (do 2 eexists; split; [done|]; split; [|done]; split_and!; [exact Q|done|done]).
  - do 2 eexists. split; [done|]. split; [|done]. by destruct s as [[]].
Qed.
Lemma gate_presents q s s' k : NoDup (map k_id (api_keys (tables s))) → require_operator q s = (s', Ok k) →
  quiet s s' ∧ ∃ i, presents q i s'.
Proof.
  intros Hn E. unfold require_operator in E. cbv [mbind act_bind] in E.
  destruct (decision_quiet q s) as (s1 & d & Ed & Hq & Hd). rewrite Ed in E.
  assert (fst d = Gateway.ALLOWED ∧ s1 = s') as [Ha ->] by (unfold fail, mret, act_ret in E; destruct (fst d); simplify_eq; done).
  split; [done|]. assert (∃ i, presents q i s) as [i Hi]; [|exists i; eapply presents_untouched; [apply Hq|done]].
  unfold presents. unfold Gateway.operator_access in Hd. destruct (token q) as [t|]; [|by eexists].
  destruct (str_true t) eqn:Et; [|by eexists]. pose proof (verify_live_id t (now_gate q) (tables s) Et) as V. unfold tables in *.
  destruct (KeyStore.verify t (now_gate q) (Gateway.db (gw s))) as [d' [r|]]; subst d; simpl in *; [|done].
  eexists. split; [done|]. symmetry. exact V.
Qed.
Lemma gate_refuses q s s' e : require_operator q s = (s', Err e) → quiet s s' ∧
  (e = Refuse 403 "operator_role_required" ∨ e = Refuse 401 "operator_access_required").
Proof.
  intros E. unfold require_operator in E. cbv [mbind act_bind] in E.
  destruct (decision_quiet q s) as (s1 & d & Ed & Hq & _). rewrite Ed in E. destruct (fst d); unfold fail in E; simplify_eq; auto.
Qed.

(** ** Writes are recorded *)

(** One record was appended, by the caller [i]; a caller that revokes its own key is no longer
    recognised when the record is made. *)
Definition audited (q : caller) (i : string) (s s' : st) : Prop :=
  ∃ e, audit s' = fst (AuditLog.record e (audit s)) ∧ AuditLog.e_ts e = now_audit q ∧
    (AuditLog.e_actor e = i ∨
     AuditLog.e_action e = "key.revoke" ∧ AuditLog.e_target e = Some i ∧ AuditLog.e_actor e = Gateway.LOCAL_KEY_ID).
(** How a route that changed a table ends: with its record, or with the exception of a
    record that could not be written. *)
Definition ends {A} (q : caller) (i : string) (s s' : st) (r : result failure A) : Prop :=
  match audit_fault q with
  | None => is_ok r = true ∧ audited q i s s'
  | Some x => r = Err (Raises x) ∧ audit s' = audit s
  end.
Definition audits {A} (q : caller) (c : act A) : Prop :=
  ∀ i s s' r, presents q i s → c s = (s', r) → quiet s s' ∨ ends q i s s' r.
Lemma ends_from {A} q i s s1 s' (r : result failure A) : audit s1 = audit s → ends q i s1 s' r → ends q i s s' r.
Proof. intros E. unfold ends, audited. by rewrite E. Qed.

Lemma audits_ret {A} q (a : A) : audits q (mret a).
Proof. intros i s s' r _ E. unfold mret, act_ret in E. simplify_eq. by left. Qed.
Lemma audits_fail {A} q e : audits q (fail (A:=A) e).
Proof. intros i s s' r _ E. unfold fail in E. simplify_eq. by left. Qed.
Lemma audits_ask {A B} q (f : st → A) (k : A → act B) : (∀ a, audits q (k a)) → audits q (ask f ≫= k).
Proof. intros H i s s' r Hp E. by apply (H (f s) i s s' r). Qed.

Lemma audits_read {A B} q (f : st → result exn A) (k : A → act B) : (∀ a, audits q (k a)) → audits q (read f ≫= k).
Proof.
  intros H i s s' r Hp E. unfold read, mbind, act_bind in E. destruct (f s) as [a|e]; [by apply (H a i s s' r)|].
  simplify_eq. by left.
Qed.

(** The record names [actor]: the caller, or [local] once it has revoked its own key. *)
Lemma append_ends q i action target detail actor (p : payload) s s1 s' r : audit s1 = audit s →
  actor = i ∨ action = "key.revoke" ∧ target = i ∧ actor = Gateway.LOCAL_KEY_ID →
  (_ ← audit_append (audit_fault q) (AuditLog.Entry (now_audit q) action actor (Some target) detail); mret p) s1 = (s', r) →
  ends q i s s' r.
Proof.
  intros Ha Hact E. unfold audit_append, ends in *. cbv [mbind act_bind mret act_ret] in E.
  destruct (audit_fault q); simplify_eq; (split; [done|]); [done|]. eexists. split; [rewrite <- Ha; reflexivity|].
  cbn. naive_solver.
Qed.
Lemma record_ends q i action target detail (p : payload) s s' r : presents q i s →
  (_ ← audit_record q action target detail; mret p) s = (s', r) → ends q i s s' r.
Proof.
  intros Hp E. destruct (identity_presents q i s Hp) as (s1 & E1 & _ & _ & Ha).
  apply (append_ends q i action target detail i p s s1); [done|by left|]. rewrite <- E.
  unfold audit_record. cbv [mbind act_bind mret act_ret]. by rewrite E1.
Qed.
(** The database or the webhook tables change, then the change is recorded. *)
Lemma audits_change {A} q (m : act A) (action : A → string) (target : A → string) detail (p : A → payload) :
  (∀ i s s' r, presents q i s → m s = (s', r) → audit s' = audit s ∧
     match r with Ok _ => presents q i s' | Err _ => quiet s s' end) →
  audits q (a ← m; _ ← audit_record q (action a) (target a) (detail a); mret (p a)).
Proof.
  intros Hm i s s' r Hp E. unfold mbind at 1, act_bind at 1 in E. destruct (m s) as [s1 [a|e]] eqn:Em.
  - destruct (Hm i s s1 _ Hp Em) as [Ha Hp1]. right. exact (ends_from q i s s1 s' r Ha (record_ends q i _ _ _ _ s1 s' r Hp1 E)).
  - simplify_eq. left. by destruct (Hm i s s' _ Hp Em).
Qed.

Lemma presents_keys q i s s' : api_keys (tables s') = api_keys (tables s) → presents q i s → presents q i s'.
Proof. intros E [H1 H2]. unfold presents, live_id in *. by rewrite E. Qed.

(** [KeyStore.create] keeps the caller's key. *)
Lemma create_presents q i rnd u n l s s' r : presents q i s → db_stmt (KeyStore.create rnd u n l) s = (s', r) →
  audit s' = audit s ∧ match r with Ok _ => presents q i s' | Err _ => quiet s s' end.
Proof.
  intros [Hn Hp] E. unfold db_stmt, KeyStore.create in E. destruct (existsb _ _) eqn:Ex; simplify_eq; (split; [done|]); [by split|].
  split; simpl.
  - apply Sql.insert_key; [done|]. simpl. intros (k & Ek & Hk)%list_elem_of_fmap.
      pose proof (Sql.existsb_false_elem _ _ k Ex Hk) as Hx. simpl in Hx. rewrite <- Ek, bool_decide_true in Hx by done. done.
  - destruct (token q) as [t|]; [|done]. destruct (str_true t); [|done]. unfold live_id in *. simpl.
      rewrite Sql.fetchone_insert. by destruct (Sql.fetchone _ _).
Qed.

(** An update of key rows that keeps ids, hashes and revocations keeps the caller's key. *)
Lemma update_live p f t d : (∀ k, key_hash (f k) = key_hash k ∧ k_id (f k) = k_id k ∧ Db.revoked_at (f k) = Db.revoked_at k) →
  live_id t (with_keys (Sql.update p f (api_keys d)) d) = live_id t d ∧
  map k_id (Sql.update p f (api_keys d)) = map k_id (api_keys d).
Proof.
  intros Hf. split; [|apply Sql.update_key; intros k _; apply Hf]. unfold live_id. simpl.
  rewrite Sql.fetchone_update by (intros k _; by rewrite (proj1 (Hf k))).
  destruct (Sql.fetchone _ _) as [k|]; [|done]. simpl. destruct (p k); [|done]. destruct (Hf k) as (_ & -> & ->). done.
Qed.

Lemma audits_create_for_client q rnd u n c l : audits q (create_owned_key q rnd u n c l).
Proof.
  intros i s s' r Hp E. unfold create_owned_key, mbind at 1, act_bind at 1, ask in E.
  destruct (BillingStore.get_client c (tables s)) as [cl|] eqn:Ec; [|unfold fail in E; simplify_eq; by left].
  unfold mbind at 1, act_bind at 1 in E. destruct (db_stmt (KeyStore.create rnd u n l) s) as [s1 [rt|e]] eqn:E1.
  2: { simplify_eq. left. by destruct (create_presents q i rnd u n l s s' _ Hp E1). }
  destruct (create_presents q i rnd u n l s s1 _ Hp E1) as [Ha1 Hp1].
  assert (existsb (fun x => bool_decide (c_id x = c)) (clients (tables s1)) = true) as Hx.
  { assert (clients (tables s1) = clients (tables s)) as ->.
    { unfold db_stmt, KeyStore.create in E1. destruct (existsb _ _); by simplify_eq. }
    apply existsb_exists. apply Sql.fetchone_Some in Ec as [Hin Hc]. exists cl. split; [by apply list_elem_of_In|done]. }
  unfold mbind at 1, act_bind at 1, db_stmt at 1, BillingStore.attach_key in E. rewrite Hx, andb_false_r in E.
  assert (presents q i (with_tables (with_keys (Sql.update (fun k => bool_decide (k_id k = KeyStore.id (fst rt)))
    (BillingStore.put_client c) (api_keys (tables s1))) (tables s1)) s1)) as Hp2.
  { destruct (update_live (fun k => bool_decide (k_id k = KeyStore.id (fst rt))) (BillingStore.put_client c) "" (tables s1)) as [_ Hi];
      [done|]. destruct Hp1 as [H1 H2]. split; [simpl; by rewrite Hi|]. destruct (token q) as [t|]; [|done].
    destruct (str_true t); [|done]. rewrite <- H2. by apply update_live. }
  right. eapply ends_from; [|exact (record_ends q i _ _ _ _ _ s' r Hp2 E)]. exact Ha1.
Qed.

(** Deleting a revoked key keeps the caller's. *)
Lemma fetch_delete {R} (p q : R → bool) l r : Sql.fetchone p l = Some r → q r = false → Sql.fetchone p (Sql.delete q l) = Some r.
Proof.
  intros E Hq. induction l as [|x l IH]; [done|]. simpl in *. destruct (p x) eqn:Ep.
  - simplify_eq. rewrite Hq. simpl. by rewrite Ep.
  - destruct (q x); simpl; [by apply IH|]. rewrite Ep. by apply IH.
Qed.
Lemma delete_presents q i key s r0 : presents q i s → KeyStore.get key (tables s) = Some r0 → KeyStore.revoked r0 = true →
  presents q i (with_tables (fst (KeyStore.delete key (tables s))) s).
Proof.
  intros [Hn Hp] Eg Hr. split; [by apply Sql.delete_key|]. destruct (token q) as [t|]; [|done]. destruct (str_true t); [|done].
  unfold live_id in *. simpl. destruct (Sql.fetchone _ (api_keys (tables s))) as [k|] eqn:Ek; [|done].
  erewrite fetch_delete; [exact Hp|exact Ek|]. apply bool_decide_eq_false. intros <-.
  destruct (bool_decide (Db.revoked_at k = None)) eqn:Er; [|done]. apply bool_decide_eq_true in Er.
  unfold KeyStore.get in Eg. destruct (Sql.fetchone (fun x => bool_decide (k_id x = k_id k)) _) as [k'|] eqn:Ek'; [|done].
  apply Sql.fetchone_Some in Ek as [Hk _], Ek' as [Hk' Hid]. apply bool_decide_eq_true in Hid.
  simpl in Eg. simplify_eq. rewrite (Sql.key_inj k_id _ k' k Hn Hk' Hk Hid) in Hr.
  unfold KeyStore.revoked in Hr. simpl in Hr. rewrite Er, bool_decide_false in Hr; [done|by intros []].
Qed.

(** A token whose key is no longer live is recorded as [local]. *)
Lemma identity_dead q t i detail (p : payload) s s' r : token q = Some t → str_true t = true →
  live_id t (tables s) = None → (_ ← audit_record q "key.revoke" i detail; mret p) s = (s', r) → ends q i s s' r.
Proof.
  intros Eq Et Hl E. unfold audit_record, operator_identity in E. rewrite Eq, Et in E.
  cbv [mbind act_bind db_run mret act_ret] in E. pose proof (verify_live_id t (now_identity q) (tables s) Et) as V.
  destruct (KeyStore.verify t (now_identity q) (tables s)) as [d [r0|]]; simpl in V; [congruence|].
  eapply (append_ends q i "key.revoke" i detail Gateway.LOCAL_KEY_ID p s _ s' r); [|by right|exact E]. done.
Qed.

Lemma revoke_presents q i key n s : presents q i s →
  let s1 := with_tables (with_keys (Sql.update (KeyStore.live_with_id key) (KeyStore.set_revoked n) (api_keys (tables s))) (tables s)) s in
  presents q i s1 ∨ ∃ t, token q = Some t ∧ str_true t = true ∧ live_id t (tables s1) = None ∧ i = key.
Proof.
  intros [Hn Hp] s1. assert (map k_id (api_keys (tables s1)) = map k_id (api_keys (tables s))) as Hi
    by (simpl; by apply Sql.update_key).
  unfold presents. rewrite Hi. destruct (token q) as [t|]; [|by left]. destruct (str_true t) eqn:Et; [|by left].
  assert (live_id t (tables s1) = if bool_decide (i = key) then None else Some i) as Hl.
  { unfold live_id in *. simpl. rewrite Sql.fetchone_update by done.
    destruct (Sql.fetchone _ _) as [k|]; [|done]. simpl.
    destruct (bool_decide (Db.revoked_at k = None)) eqn:Er; [|done]. simplify_eq. unfold KeyStore.live_with_id. rewrite Er, andb_true_r.
    destruct (bool_decide (k_id k = key)); [done|]. by rewrite Er. }
  destruct (decide (i = key)) as [->|Hne]; [right; exists t|left]; rewrite Hl.
  - by rewrite bool_decide_true.
  - by rewrite bool_decide_false.
Qed.

Lemma audits_revoke q n key purge : audits q (revoke_or_delete q n key purge).
Proof.
  intros i s s' r Hp E. unfold revoke_or_delete in E. destruct purge.
  - unfold mbind at 1, act_bind at 1, ask in E.
    destruct (KeyStore.get key (tables s)) as [r0|] eqn:Eg; [|unfold fail in E; simplify_eq; by left].
    destruct (KeyStore.revoked r0) eqn:Er; [|unfold fail in E; simpl in E; simplify_eq; by left]. cbn [negb] in E.
    pose proof (delete_presents q i key s r0 Hp Eg Er) as Hp'. unfold mbind at 1, act_bind at 1, db_run in E.
    right. eapply ends_from; [|exact (record_ends q i _ _ _ _ _ s' r Hp' E)]. done.
  - unfold mbind at 1, act_bind at 1, db_run, KeyStore.revoke in E.
    destruct (Nat.ltb 0 (Sql.rowcount _ _)) eqn:El; cbn [negb] in E.
    2: { unfold fail in E. simplify_eq. left. apply Nat.ltb_ge in El.
         assert (Sql.update (KeyStore.live_with_id key) (KeyStore.set_revoked n) (api_keys (tables s)) = api_keys (tables s)) as Hu.
         { assert (Sql.rowcount (KeyStore.live_with_id key) (api_keys (tables s)) = 0%nat) as H0 by lia.
           rewrite Sql.rowcount_zero in H0. unfold Sql.update. rewrite <- (map_id (api_keys (tables s))) at 2.
           apply map_ext_in. intros k Hk%list_elem_of_In. by rewrite (H0 k Hk). }
         split_and!; try done. simpl. rewrite Hu. unfold untouched, tables. by destruct (Gateway.db (gw s)). }
    destruct (revoke_presents q i key n s Hp) as [Hp1|(t & Eq & Et & Hl & ->)]; right.
    + eapply ends_from; [|exact (record_ends q i _ _ _ _ _ s' r Hp1 E)]. done.
    + eapply ends_from; [|exact (identity_dead q t _ _ _ _ s' r Eq Et Hl E)]. done.
Qed.

Lemma hook_presents {A} q i (c : stmt WebhookStore.t A) s s' r : presents q i s → hook_stmt c s = (s', r) →
  audit s' = audit s ∧ match r with Ok _ => presents q i s' | Err _ => quiet s s' end.
Proof. intros Hp E. unfold hook_stmt in E. destruct (c (hook_tables s)) as [w [a|e]]; by simplify_eq. Qed.
Lemma audits_hook_run q (f : WebhookStore.t → WebhookStore.t * bool) code action target (p : payload) : audits q
  (ok ← hook_run f (fun ok => ok);
   if negb ok then fail (Refuse 404 code) else _ ← audit_record q action target None; mret p).
Proof.
  intros i s s' r Hp E. unfold mbind at 1, act_bind at 1, hook_run in E. destruct (f (hook_tables s)) as [w []].
  - assert (presents q i (St (gw s) w (audit s))) as Hp' by done.
    right. eapply ends_from; [|exact (record_ends q i _ _ _ _ _ s' r Hp' E)]. done.
  - unfold fail in E. simpl in E. simplify_eq. by left.
Qed.
Lemma audits_create_client q u n ref email : audits q
  (c ← db_stmt (BillingStore.create_client u ref email n);
   _ ← audit_record q "billing.client.create" (c_id c) None; mret (ClientOut c)).
Proof.
  apply (audits_change q _ (fun _ => "billing.client.create") c_id (fun _ => None) ClientOut).
  intros i s s' r Hp E. unfold db_stmt, BillingStore.create_client in E. destruct (existsb _ _); simplify_eq; by split.
Qed.

(** Every route is its body check, the gate, and a continuation that records what it writes. *)
Lemma handle_shape q r : ∃ ok k, handle q r = (if negb ok then fail Invalid_body else require_operator q ≫= k) ∧ ∀ o, audits q (k o).
Proof.
  destruct r; cbn [handle];
    (eexists _, _; split;
     [first [reflexivity | instantiate (2 := true); cbn [negb]; reflexivity]|]); intros o; cbn beta;
    repeat (first [apply audits_ret | apply audits_fail | apply audits_create_for_client | apply audits_create_client
                  | apply audits_revoke | apply audits_hook_run | apply audits_ask; intros ? | apply audits_read; intros ? | case_match]).
  - apply (audits_change q _ (fun _ => "billing.plan.upsert") (fun _ => pl_id p)
             (fun _ => Some (Json.JObj [("name", Json.JStr (pl_name p))])) (fun _ => PlanOut p)).
    intros i s s' r Hp E. unfold db_run in E. simplify_eq. split; [done|]. eapply presents_keys; [|done]. simpl.
    unfold BillingStore.upsert_plan. by destruct (existsb _ _).
  - apply (audits_change q _ (fun _ => "key.create") (fun rt => KeyStore.id (fst rt))
             (fun _ => Some (Json.JObj [("label", opt_str label0)])) (fun rt => KeyOut (fst rt) None (snd rt))).
    intros i s s' r. apply create_presents.
  - eapply (audits_change q _ (fun _ => "webhook.endpoint.create") (fun es => WebhookStore.ep_id (fst es))
             (fun _ => Some (Json.JObj [("client_id", Json.JStr (b_client b)); ("host", Json.JStr _)]))
             (fun es => EndpointOut (fst es) (snd es))).
    intros j s1 s' r. apply hook_presents.
  - apply (audits_change q _ (fun _ => "webhook.endpoint.rotate_secret") (fun _ => i)
             (fun _ => Some (Json.JObj [("grace_s", json_float grace_s)])) (fun x => SecretOut i x grace_s (now + grace_s)%Q)).
    intros j s1 s' r. apply hook_presents.
Qed.

(** C8. Operator routes are for operators: a caller the gate does not allow gets 401 or 403
    (or, before the gate, a rejected body) from every operator route of the billing router
    (plans, clients, client keys, usage, webhook endpoints and deliveries) and from the key,
    audit and identity routes of the admin router, and neither the tables nor the audit log
    change, up to the time its key was last used. *)
Theorem operator_routes_gated q r s :
  fst (snd (Gateway.operator_access cfg (client_host q) (token q) (now_gate q) (gw s))) ≠ Gateway.ALLOWED →
  let '(s', res) := handle q r s in
  quiet s s' ∧ (res = Err Invalid_body ∨ res = Err (Refuse 401 "operator_access_required") ∨
                res = Err (Refuse 403 "operator_role_required")).
Proof.
  intros Hg. destruct (handle_shape q r) as (ok & k & -> & _). destruct ok; cbn [negb]; [|by split; [|left]].
  unfold mbind, act_bind. destruct (require_operator q s) as [s' [o|e]] eqn:E.
  - exfalso. apply Hg. unfold require_operator in E. cbv [mbind act_bind] in E.
    destruct (decision_quiet q s) as (s1 & d & Ed & _ & ->). rewrite Ed in E.
    unfold fail in E. by destruct (fst _).
  - destruct (gate_refuses q s s' e E) as [Hq He]. split; [done|]. destruct He as [->| ->]; auto.
Qed.


(** ** Webhooks go to allowed hosts *)

Definition url_allowed (u : string) : Prop :=
  Url.scheme_of u ∈ ["http"; "https"] ∧
  ∃ host, Url.hostname netloc_ok u = Some host ∧ Text.isascii host = true ∧ Url.host_allowed host egress_allowlist = true.
Definition hosts_allowed (s : st) : Prop := ∀ e, e ∈ WebhookStore.endpoints (hooks s) → url_allowed (WebhookStore.ep_url e).

Definition keeps {A} (c : act A) : Prop := ∀ s, hosts_allowed s → hosts_allowed (fst (c s)).
Lemma keeps_bind {A B} (c : act A) (k : A → act B) : keeps c → (∀ a, keeps (k a)) → keeps (c ≫= k).
Proof.
  intros Hc Hk s Hs. specialize (Hc s Hs). unfold mbind, act_bind. destruct (c s) as [s1 [a|e]]; [by apply Hk|done].
Qed.
Lemma keeps_hooks {A} (c : act A) : (∀ s, hooks (fst (c s)) = hooks s) → keeps c.
Proof. intros H s Hs. unfold hosts_allowed. by rewrite H. Qed.
Lemma keeps_endpoints {A} (c : act A) : (∀ s, hosts_allowed s → ∀ e, e ∈ WebhookStore.endpoints (hooks (fst (c s))) →
  url_allowed (WebhookStore.ep_url e)) → keeps c.
Proof. intros H s Hs e. by apply H. Qed.
Lemma hooks_db_stmt {A} (c : stmt Db.t A) s : hooks (fst (db_stmt c s)) = hooks s.
Proof. unfold db_stmt. by destruct (c (tables s)). Qed.
Lemma hooks_db_run {A} (f : Db.t → Db.t * A) s : hooks (fst (db_run f s)) = hooks s.
Proof. unfold db_run. by destruct (f (tables s)). Qed.
Lemma hooks_identity q s : hooks (fst (operator_identity q s)) = hooks s.
Proof.
  unfold operator_identity. destruct (token q) as [t|]; [|done]. destruct (str_true t); [|done].
  cbv [mbind act_bind db_run]. by destruct (KeyStore.verify _ _ _).
Qed.
Lemma hooks_gate q s : hooks (fst (require_operator q s)) = hooks s.
Proof.
  unfold require_operator. cbv [mbind act_bind]. destruct (decision_quiet q s) as (s1 & d & -> & (_ & Hh & _) & _).
  by destruct (fst d).
Qed.
Lemma keeps_record q a t d : keeps (audit_record q a t d).
Proof. apply keeps_bind; [apply keeps_hooks, hooks_identity|]. intros i. apply keeps_hooks. intros s. unfold audit_append. by destruct (audit_fault q). Qed.
Lemma keeps_create eid sid ne ns raw b : url_allowed (b_url b) →
  keeps (hook_stmt (WebhookStore.create_endpoint eid sid ne ns raw (b_client b) (b_url b) (b_description b) (b_event_types b))).
Proof.
  intros Hu. apply keeps_endpoints. intros s Hs e. unfold hook_stmt, WebhookStore.create_endpoint. destruct (_ || _); [apply Hs|].
  simpl. intros [He|He%list_elem_of_singleton]%elem_of_app; [by apply Hs|by subst].
Qed.
Lemma keeps_rotate sid ns raw i g n : keeps (hook_stmt (WebhookStore.rotate_secret sid ns raw i g n)).
Proof. apply keeps_endpoints. intros s Hs e. unfold hook_stmt, WebhookStore.rotate_secret. destruct (_ || _); simpl; apply Hs. Qed.
Lemma keeps_hook_run f : (∀ w e, e ∈ WebhookStore.endpoints (fst (f w)) → ∃ e0, e0 ∈ WebhookStore.endpoints w ∧
  WebhookStore.ep_url e = WebhookStore.ep_url e0) → keeps (hook_run f (fun ok => ok)).
Proof.
  intros Hf. apply keeps_endpoints. intros s Hs e. specialize (Hf (hook_tables s) e). unfold hook_run.
  destruct (f (hook_tables s)) as [w []]; simpl in *; [|apply Hs]. intros (e0 & H0 & ->)%Hf. by apply Hs.
Qed.
Lemma set_disabled_urls i b w e : e ∈ WebhookStore.endpoints (fst (WebhookStore.set_disabled i b w)) →
  ∃ e0, e0 ∈ WebhookStore.endpoints w ∧ WebhookStore.ep_url e = WebhookStore.ep_url e0.
Proof. simpl. intros (x & Hx & ->)%Sql.elem_of_update. exists x. by destruct (bool_decide _). Qed.
Lemma delete_urls i w e : e ∈ WebhookStore.endpoints (fst (WebhookStore.delete_endpoint i w)) →
  ∃ e0, e0 ∈ WebhookStore.endpoints w ∧ WebhookStore.ep_url e = WebhookStore.ep_url e0.
Proof. simpl. intros [Hx _]%Sql.elem_of_delete. by exists e. Qed.

Lemma keeps_ret {A} (a : A) : keeps (mret a).
Proof. intros s Hs. exact Hs. Qed.
Lemma keeps_fail {A} e : keeps (fail (A:=A) e).
Proof. intros s Hs. exact Hs. Qed.
Lemma keeps_ask {A} (f : st → A) : keeps (ask f).
Proof. intros s Hs. exact Hs. Qed.
Lemma keeps_read {A} (f : st → result exn A) : keeps (read f).
Proof. intros s Hs. exact Hs. Qed.
Lemma handle_keeps q r : keeps (handle q r).
Proof.
  destruct r; cbn [handle]; unfold upsert_plan, list_plans, create_client, list_clients, create_key_for_client, create_owned_key,
    reconcile_client, list_keys, create_key, revoke_or_delete_key, revoke_or_delete, audit_log, identity, create_endpoint,
    list_endpoints, disable_endpoint, delete_endpoint, rotate_secret, list_deliveries, replay_delivery;
  repeat (first [apply keeps_ret | apply keeps_fail | apply keeps_ask | apply keeps_read | apply keeps_record | apply keeps_rotate
                | apply keeps_hooks; first [apply hooks_gate | apply hooks_db_stmt | apply hooks_db_run]
                | apply keeps_hook_run; first [apply set_disabled_urls | apply delete_urls | by eauto]
                | apply keeps_bind; [|intros ?] | apply keeps_create
                | match goal with |- keeps (match ?x with _ => _ end) => destruct x eqn:? end]).
  repeat match goal with H : negb _ = false |- _ => apply negb_false_iff in H end.
  split; [by eapply bool_decide_eq_true|]. eauto.
Qed.

(** Any sequence of calls. *)
Definition serve (calls : list (caller * route)) (s : st) : st := fold_left (fun s '(q, r) => fst (handle q r s)) calls s.

(** Whatever operators do, a webhook endpoint is only ever registered for an absolute http
    or https URL whose host is an ASCII name on the egress allowlist. *)
Theorem endpoints_on_allowlist calls s e :
  WebhookStore.endpoints (hooks s) = [] → e ∈ WebhookStore.endpoints (hooks (serve calls s)) →
  url_allowed (WebhookStore.ep_url e).
Proof.
  intros H0. assert (hosts_allowed s) as Hs by (intros x Hx; rewrite H0 in Hx; by apply not_elem_of_nil in Hx).
  clear H0. unfold serve. revert e. change (hosts_allowed (fold_left (fun s '(q, r) => fst (handle q r s)) calls s)).
  revert s Hs. induction calls as [|[q r] calls IH]; intros s Hs; simpl; [done|]. apply IH. by apply handle_keeps.
Qed.

End Endpoints.
End Routes.

(** ** Examples *)

Definition demo_cfg : Gateway.Settings := Gateway.MkSettings "0.0.0.0" None 1000 5000 1 1 60 1.
Definition demo_key (i tok : string) (client : option string) : api_key :=
  ApiKey i (KeyStore.hash_token tok) "sk-ie-" None "2024" None None client "active".
Definition demo_state : st :=
  St (Gateway.init demo_cfg (Mk [demo_key "op" "sk-op" None; demo_key "cl" "sk-cl" (Some "c1")] [] []
        [Client "c1" None None "active" "2024"] [] []))
     (WebhookStore.Mk [] [] [] []) AuditLog.empty.
Definition demo_caller (tok : string) : caller := Caller (Some "10.0.0.9") None (Some tok) "t1" "t2" "t3" None.
Definition demo_endpoint : endpoint_body := EndpointBody "c1" "https://hooks.example.com/x" None None.
Definition demo_create : route := CreateEndpoint "e1" "s1" "t" "t" [1; 2; 3] demo_endpoint.

Lemma operator_routes_gated_witness :
  let '(s', res) := handle demo_cfg (fun _ => true) ["example.com"] (fun _ => Json.JNull) (demo_caller "sk-cl") demo_create demo_state in
  quiet demo_state s' ∧ res ≠ Ok (KeyDeleted "op").
Proof.
  pose proof (operator_routes_gated demo_cfg (fun _ => true) ["example.com"] (fun _ => Json.JNull) (demo_caller "sk-cl")
    demo_create demo_state ltac:(vm_compute; discriminate)) as H.
  destruct (handle _ _ _ _ _ _ _) as [s' res]. destruct H as [Hq [->|[->| ->]]]; (split; [exact Hq|discriminate]).
Defined.
(** When the audit record cannot be written, the endpoint stays registered without a record. *)
Example unrecorded_write :
  let q := Caller (Some "10.0.0.9") None (Some "sk-op") "t1" "t2" "t3" (Some OperationalError) in
  let '(s', res) := handle demo_cfg (fun _ => true) ["example.com"] (fun _ => Json.JNull) q demo_create demo_state in
  res = Err (Raises OperationalError) ∧ length (WebhookStore.endpoints (hooks s')) = 1%nat ∧ AuditLog.rows (audit s') = [].
Proof. vm_compute. repeat split. Qed.
Lemma endpoints_on_allowlist_witness :
  match WebhookStore.endpoints (hooks (serve demo_cfg (fun _ => true) ["example.com"] (fun _ => Json.JNull)
          [(demo_caller "sk-op", demo_create); (demo_caller "sk-op", DisableEndpoint "e1" true)] demo_state)) with
  | [e] => WebhookStore.ep_disabled e = true ∧ url_allowed (fun _ => true) ["example.com"] (WebhookStore.ep_url e)
  | _ => False
  end.
Proof.
  destruct (WebhookStore.endpoints _) as [|e l] eqn:E; [vm_compute in E; discriminate|].
  assert (l = [] ∧ WebhookStore.ep_disabled e = true) as [-> Hd] by (vm_compute in E; injection E as <- <-; auto).
  split; [exact Hd|].
  apply (endpoints_on_allowlist demo_cfg (fun _ => true) ["example.com"] (fun _ => Json.JNull)
    [(demo_caller "sk-op", demo_create); (demo_caller "sk-op", DisableEndpoint "e1" true)] demo_state e); [reflexivity|].
  rewrite E. by left.
Defined.

(** An operator that revokes its own key is recorded as [local], the name of a keyless
    development caller, although it presented its key from another host. *)
Lemma self_revocation_anonymous :
  let s := fst (handle demo_cfg (fun _ => true) [] (fun _ => Json.JNull) (demo_caller "sk-op") (RevokeOrDeleteKey "t9" "op" false)
                  demo_state) in
  map (fun e => (AuditLog.r_action e, AuditLog.r_target e, AuditLog.r_actor e)) (AuditLog.rows (audit s))
  = [("key.revoke", Some "op", "local")].
Proof. vm_compute. reflexivity. Qed.

End OperatorApi.
