(* ===== verification/ClientApi.v ===== *)
(** * The client routes ([engine/api/client_router.py]) and usage thresholds ([engine/main.py])

    [Module ClientApi]: the authentication of a client by its key and the self-service routes
    [/client/me], [/plan], [/usage], [/services] and [/events], on the shared tables and the
    client event log; the streaming route is [EventStream] of [ClientEvents.v].  What a client
    is answered is proved to depend on that client's own rows only.  [Module UsageThreshold]
    is the callback of [create_app] that tells a client it has used a fraction of its weekly
    quota. *)

From S2P Require Import Prelude Crypto Text Sql Store Keys Quota Billing Gateway Webhooks ClientEvents.

Open Scope Z_scope.

Module ClientApi.
Import Db.

(** ** Authentication *)

Record ClientContext := Context_ { client_id : string; key_id : string }.
Inductive failure := Refuse (status : Z) (code : string) | Raises (e : exn).

(** A request: the two key headers and the query parameters. *)
Record request := Request {
  authorization : option string;
  x_api_key : option string;
  query : list (string * string);
  last_event_id : option string
}.
Definition header_token (r : request) : option string := Gateway.extract_token (authorization r) (x_api_key r).
(** [_stream_token] *)
Definition stream_token (r : request) : option string :=
  let non_empty o := match o with Some s => str_true s | None => false end in
  let tok := if non_empty (dict_get "api_key" (query r)) then dict_get "api_key" (query r) else dict_get "token" (query r) in
  if non_empty tok then Text.strip <$> tok else header_token r.

Section Routes.
Context (default_plan : option string).

(** [_resolve_client] *)
Definition resolve_client (token : option string) (now : string) (d : Db.t) : Db.t * result failure ClientContext :=
  match token with
  | None => (d, Err (Refuse 401 "missing_api_key"))
  | Some t =>
      if negb (str_true t) then (d, Err (Refuse 401 "missing_api_key"))
      else
        let '(d, r) := KeyStore.verify t now d in
        match r with
        | None => (d, Err (Refuse 401 "invalid_api_key"))
        | Some rec =>
            let st := BillingStore.status (BillingStore.key_access default_plan (KeyStore.id rec) d) in
            (d, if bool_decide (st = BillingStore.STATUS_REVOKED) then Err (Refuse 403 "key_revoked")
                else if negb (bool_decide (st = BillingStore.STATUS_ACTIVE)) then Err (Refuse 403 "key_suspended")
                else match BillingStore.client_id_for_key (KeyStore.id rec) d with
                     | None => Err (Refuse 403 "not_a_client_key")
                     | Some c => Ok (Context_ c (KeyStore.id rec))
                     end)
        end
  end.
(** [client_context] and [client_context_stream] *)
Definition client_context (r : request) := resolve_client (header_token r).
Definition client_context_stream (r : request) := resolve_client (stream_token r).

(** ** Routes *)

(** [_plan_summary]; the summary has the fields of the plan. *)
Definition plan_summary (plan_id : option string) (d : Db.t) : option plan :=
  i ← plan_id; BillingStore.get_plan i d.
Definition entitlement (c : ClientContext) (d : Db.t) : option BillingStore.Entitlement :=
  BillingStore.entitlement (BillingStore.key_access default_plan (key_id c) d).
Definition plan_of (c : ClientContext) (d : Db.t) : option plan :=
  plan_summary (BillingStore.plan_id <$> entitlement c d) d.

(** [_window] *)
Record WindowInfo := Window { used_cu : Q; limit_cu : Q; remaining_cu : option Q; reset_at : Q }.
Definition window (w : UsageStore.WindowUsage) : WindowInfo :=
  Window (UsageStore.used w) (UsageStore.limit w)
    (if bool_decide (UsageStore.limit w <= 0)%Q then None else UsageStore.remaining w) (UsageStore.reset_at w).

Record event_out := EventOut { e_id : Z; e_event_id : string; e_type : string; e_ts : Q; e_data : Json.t }.

Inductive answer :=
| Me (id : string) (email : option string) (status : string) (plan : option plan)
| PlanInfo (plan : option plan) (entitled : bool)
| UsageInfo (key : string) (cu_5h cu_weekly : WindowInfo) (client_weekly_cu : Q)
| ServicesInfo (models : list string) (structured_output : bool)
| EventsPage (events : list event_out) (last_id : Z).

Definition get_me (c : ClientContext) (d : Db.t) : result failure answer :=
  match BillingStore.get_client (client_id c) d with
  | None => Err (Refuse 404 "client_not_found")
  | Some cl => Ok (Me (c_id cl) (c_email cl) (c_status cl) (plan_of c d))
  end.
Definition get_plan (c : ClientContext) (d : Db.t) : result failure answer :=
  Ok (PlanInfo (plan_of c d) (bool_decide (is_Some (entitlement c d)))).
(** The engine's settings the routes read, and the models the router knows. *)
Record config := Config {
  quota_5h_cu : Q; quota_weekly_cu : Q; allow_structured_output : bool; client_events_enabled : bool;
  model_names : list string
}.
Definition get_usage (cfg : config) (now : Q) (c : ClientContext) (d : Db.t) : result failure answer :=
  let l5 := match entitlement c d with Some e => BillingStore.quota_5h_cu e | None => quota_5h_cu cfg end in
  let lw := match entitlement c d with Some e => BillingStore.quota_weekly_cu e | None => quota_weekly_cu cfg end in
  Ok (UsageInfo (key_id c) (window (UsageStore.usage_5h (key_id c) l5 now d)) (window (UsageStore.usage_weekly (key_id c) lw now d))
        (BillingStore.client_usage_cu (client_id c) (Windows.week_start now) d)).
Definition get_services (cfg : config) (c : ClientContext) (d : Db.t) : result failure answer :=
  let names := match entitlement c d with
               | Some e => match BillingStore.allowed_models e with
                           | Some allowed => List.filter (fun n => bool_decide (n ∈ allowed)) (model_names cfg)
                           | None => model_names cfg
                           end
               | None => model_names cfg
               end in
  Ok (ServicesInfo names (allow_structured_output cfg)).

(** *** Events *)

Section Events.
Context (json_loads : string → option Json.t).

(** [_cursor] *)
Definition cursor (r : request) : Z :=
  let raw := match last_event_id r with
             | Some s => if str_true s then Some s else dict_get "since" (query r)
             | None => dict_get "since" (query r) end in
  match raw with Some s => match Text.int s with Some n => Z.max 0 n | None => 0 end | None => 0 end.

(** [_event_out]: the envelope is an object and so is its [data]. *)
Definition event_out_of (e : ClientEventLog.ClientEvent) : result failure event_out :=
  match json_loads (ClientEventLog.payload e) with
  | Some (Json.JObj l) =>
      match default (Json.JObj []) (dict_get "data" l) with
      | Json.JObj _ as data =>
          Ok (EventOut (ClientEventLog.id e) (ClientEventLog.event_id e) (ClientEventLog.type e) (ClientEventLog.ts e) data)
      | _ => Err (Raises ValueError)
      end
  | Some _ => Err (Raises AttributeError)
  | None => Err (Raises ValueError)
  end.
Fixpoint events_out (l : list ClientEventLog.ClientEvent) : result failure (list event_out) :=
  match l with
  | [] => Ok []
  | e :: l' => match event_out_of e with
               | Err x => Err x
               | Ok o => match events_out l' with Err x => Err x | Ok os => Ok (o :: os) end
               end
  end.
(** An integer that SQLite cannot bind raises. *)
Definition binds (n : Z) : bool := (- 2 ^ 63 <=? n) && (n <? 2 ^ 63).
(** [get_events]; a negative [LIMIT] is none. *)
Definition get_events (cfg : config) (since limit : Z) (c : ClientContext) (log : ClientEventLog.t) : result failure answer :=
  if negb (client_events_enabled cfg) then Err (Refuse 404 "client_events_disabled")
  else if negb (binds (Z.max 0 since) && binds limit) then Err (Raises OverflowError)
  else
    let rows := ClientEventLog.list_since (client_id c) (Z.max 0 since)
                  (if limit <? 0 then length (ClientEventLog.rows log) else Z.to_nat limit) log in
    match events_out rows with
    | Err x => Err x
    | Ok out => Ok (EventsPage out (match last out with Some o => e_id o | None => Z.max 0 since end))
    end.

Inductive route := RMe | RPlan | RUsage (now : Q) | RServices | REvents (since limit : Z).
(** A request on a client route: authentication, then the route, with the client and key that
    authentication found. *)
Definition serve (cfg : config) (r : request) (now : string) (rt : route) (d : Db.t) (log : ClientEventLog.t)
  : Db.t * result failure answer :=
  match client_context r now d with
  | (d, Err e) => (d, Err e)
  | (d, Ok c) =>
      (d, match rt with
          | RMe => get_me c d
          | RPlan => get_plan c d
          | RUsage n => get_usage cfg n c d
          | RServices => get_services cfg c d
          | REvents since limit => get_events cfg since limit c log
          end)
  end.

(** ** Isolation *)

(** The rows of client [c]: its keys, their usage, its subscriptions and its account; the
    catalogue of plans is public. *)
Definition mine (c : string) (k : api_key) : bool := Sql.sql_eq (k_client k) c.
Definition own (c : string) (d : Db.t) : Db.t :=
  Mk (List.filter (mine c) (api_keys d))
     (List.filter (fun u => existsb (fun k => Sql.sql_eq (u_key u) (k_id k)) (List.filter (mine c) (api_keys d))) (usage_events d))
     (plans d) (List.filter (fun x => bool_decide (c_id x = c)) (clients d))
     (List.filter (fun x => bool_decide (s_client x = c)) (subscriptions d)) [].
Definition own_events (c : string) (l : ClientEventLog.t) : list ClientEventLog.ClientEvent :=
  List.filter (fun e => bool_decide (ClientEventLog.client_id e = c)) (ClientEventLog.rows l).

(** The client whose key a token is. *)
Definition owner (token : option string) (d : Db.t) : option string :=
  t ← token; k ← Sql.fetchone (fun k => bool_decide (key_hash k = KeyStore.hash_token t)) (api_keys d); k_client k.

Lemma filter_sub {A} (p q : A → bool) l : (∀ x, x ∈ l → p x = true → q x = true) → List.filter p (List.filter q l) = List.filter p l.
Proof.
  induction l as [|x l IH]; intros H; [done|]. simpl. rewrite <- IH by (intros y Hy; apply H; by right).
  destruct (q x) eqn:Eq; [done|]. destruct (p x) eqn:Ep; [|done]. exfalso. rewrite (H x) in Eq; [done|by left|done].
Qed.
Lemma fetch_filter {A} (p q : A → bool) l r : Sql.fetchone p l = Some r → q r = true → Sql.fetchone p (List.filter q l) = Some r.
Proof.
  intros E Hq. induction l as [|x l IH]; [done|]. simpl in *. destruct (p x) eqn:Ep.
  - simplify_eq. rewrite Hq. simpl. by rewrite Ep.
  - destruct (q x); simpl; rewrite ?Ep; by apply IH.
Qed.
Lemma fetch_filter_self {A} (p : A → bool) l : Sql.fetchone p (List.filter p l) = Sql.fetchone p l.
Proof. induction l as [|x l IH]; [done|]. simpl. destruct (p x) eqn:Ep; simpl; by rewrite ?Ep. Qed.

(** A key of the client, as both databases see it. *)
Definition has_key (c i : string) (d : Db.t) : Prop :=
  ∃ k, Sql.fetchone (fun k => bool_decide (k_id k = i)) (api_keys d) = Some k ∧ k_client k = Some c.
Lemma has_key_own c i d k : Sql.fetchone (fun k => bool_decide (k_id k = i)) (api_keys d) = Some k → k_client k = Some c →
  Sql.fetchone (fun k => bool_decide (k_id k = i)) (api_keys (own c d)) = Some k.
Proof. intros E Ec. apply fetch_filter; [done|]. by apply bool_decide_eq_true. Qed.

Lemma get_client_own c d : BillingStore.get_client c (own c d) = BillingStore.get_client c d.
Proof. apply fetch_filter_self. Qed.
Lemma entitlement_own c d : BillingStore.entitlement_for_client default_plan c (own c d)
  = BillingStore.entitlement_for_client default_plan c d.
Proof.
  unfold BillingStore.entitlement_for_client, Sql.select, own. cbn [subscriptions]. rewrite filter_sub; [done|].
  intros x _ [Hx _]%andb_true_iff. done.
Qed.
Lemma key_access_own c i d : has_key c i d →
  BillingStore.key_access default_plan i (own c d) = BillingStore.key_access default_plan i d.
Proof.
  intros (k & E & Ec). unfold BillingStore.key_access. rewrite (has_key_own c i d k E Ec), E, Ec.
  by rewrite get_client_own, entitlement_own.
Qed.
Lemma client_for_key_own c i d : has_key c i d →
  BillingStore.client_id_for_key i (own c d) = Some c ∧ BillingStore.client_id_for_key i d = Some c.
Proof. intros (k & E & Ec). unfold BillingStore.client_id_for_key. by rewrite (has_key_own c i d k E Ec), E. Qed.
Lemma sum_cu_own c i since d : has_key c i d → UsageStore.sum_cu i since (own c d) = UsageStore.sum_cu i since d.
Proof.
  intros (k & E & Ec). unfold UsageStore.sum_cu, Sql.select, own. cbn [usage_events]. rewrite filter_sub; [done|].
  intros u _ [Hu _]%andb_true_iff. apply bool_decide_eq_true in Hu. apply existsb_exists. exists k.
  apply Sql.fetchone_Some in E as [Hin Hi%bool_decide_eq_true]. split.
  - apply filter_In. split; [by apply list_elem_of_In|by apply bool_decide_eq_true].
  - apply bool_decide_eq_true. congruence.
Qed.
Lemma flat_map_filter {A B} (f : A → list B) (p q : A → bool) l : (∀ x, x ∈ l → q x = false → f x = []) →
  flat_map f (List.filter p (List.filter q l)) = flat_map f (List.filter p l).
Proof.
  induction l as [|x l IH]; intros H; [done|]. simpl. destruct (q x) eqn:Eq; simpl.
  - destruct (p x); simpl; rewrite IH; try done; intros y Hy; apply H; by right.
  - destruct (p x); simpl; [rewrite (H x) by (done || by left)|]; simpl; apply IH; intros y Hy; apply H; by right.
Qed.
Lemma client_usage_own c since d : BillingStore.client_usage_cu c since (own c d) = BillingStore.client_usage_cu c since d.
Proof.
  unfold BillingStore.client_usage_cu, Sql.select. f_equal.
  assert (∀ u, List.filter (fun k => Sql.sql_eq (u_key u) (k_id k) && Sql.sql_eq (k_client k) c) (api_keys (own c d))
    = List.filter (fun k => Sql.sql_eq (u_key u) (k_id k) && Sql.sql_eq (k_client k) c) (api_keys d)) as Hk.
  { intros u. apply filter_sub. by intros k _ [_ Hk]%andb_true_iff. }
  etrans; [apply flat_map_ext; intros u; rewrite Hk; reflexivity|].
  unfold own at 1. cbn [usage_events]. apply flat_map_filter. intros u _ Hu.
  destruct (List.filter (fun k => Sql.sql_eq (u_key u) (k_id k) && Sql.sql_eq (k_client k) c) (api_keys d)) as [|k l] eqn:E;
    [done|exfalso].
  assert (In k (k :: l)) as Hin by (by left). rewrite <- E in Hin.
  apply filter_In in Hin as [Hin [H1 H2]%andb_true_iff]. rewrite <- not_true_iff_false, existsb_exists in Hu. apply Hu.
  exists k. split; [|done]. by apply filter_In.
Qed.

Lemma filter_update {A} (q p : A → bool) (f : A → A) l : (∀ x, q (f x) = q x) →
  List.filter q (Sql.update p f l) = Sql.update p f (List.filter q l).
Proof.
  intros H. induction l as [|x l IH]; [done|]. simpl. destruct (p x) eqn:Ep; rewrite ?H; destruct (q x); simpl; by rewrite ?Ep, IH.
Qed.
Lemma own_touch c p now d : own c (with_keys (Sql.update p (KeyStore.touch now) (api_keys d)) d)
  = with_keys (Sql.update p (KeyStore.touch now) (api_keys (own c d))) (own c d).
Proof.
  unfold own, with_keys. cbn [api_keys usage_events plans clients subscriptions webhook_events].
  rewrite filter_update by done. f_equal. apply filter_ext. intros u. unfold Sql.update.
  induction (List.filter (mine c) (api_keys d)) as [|k l IH]; [done|]. simpl. rewrite IH. by destruct (p k).
Qed.

(** Authentication with a key of [c] reads and changes rows of [c] only. *)
Lemma verify_own c t now d row : NoDup (map k_id (api_keys d)) →
  Sql.fetchone (fun k => bool_decide (key_hash k = KeyStore.hash_token t)) (api_keys d) = Some row → k_client row = Some c →
  KeyStore.verify t now (own c d) = (own c (fst (KeyStore.verify t now d)), snd (KeyStore.verify t now d)) ∧
  (∀ rec, snd (KeyStore.verify t now d) = Some rec → has_key c (KeyStore.id rec) (fst (KeyStore.verify t now d))).
Proof.
  intros Hn E Ec. unfold KeyStore.verify. destruct (negb (str_true t)); [by split|].
  assert (Sql.fetchone (fun k => bool_decide (key_hash k = KeyStore.hash_token t)) (api_keys (own c d)) = Some row) as ->.
  { apply fetch_filter; [done|]. by apply bool_decide_eq_true. }
  rewrite E. destruct (Db.revoked_at row); [by split|]. cbn [fst snd]. rewrite own_touch. split; [done|].
  intros rec [= <-]. apply Sql.fetchone_Some in E as [Hin _].
  eexists. split; [simpl; rewrite Sql.fetchone_update by done; by rewrite (Sql.fetchone_key k_id)|].
  simpl. by destruct (bool_decide _).
Qed.

Lemma resolve_own c token now d : NoDup (map k_id (api_keys d)) → owner token d = Some c →
  resolve_client token now (own c d) = (own c (fst (resolve_client token now d)), snd (resolve_client token now d)) ∧
  (∀ x, snd (resolve_client token now d) = Ok x → client_id x = c ∧ has_key c (key_id x) (fst (resolve_client token now d))).
Proof.
  intros Hn Ho. unfold owner in Ho. destruct token as [t|]; [|done]. cbn [mbind option_bind] in Ho.
  destruct (Sql.fetchone _ _) as [row|] eqn:E; [|done]. cbn [mbind option_bind] in Ho.
  destruct (verify_own c t now d row Hn E Ho) as [V H]. unfold resolve_client. destruct (negb (str_true t)); [by split|].
  rewrite V. destruct (KeyStore.verify t now d) as [d' [rec|]]; cbn [fst snd] in *; [|by split].
  specialize (H rec eq_refl). rewrite (key_access_own c _ d' H).
  destruct (client_for_key_own c _ d' H) as [-> ->]. split; [done|].
  intros x. destruct (bool_decide _); [done|]. destruct (negb _); [done|]. intros [= <-]. by split.
Qed.

(** The rows of a client's events. *)
Lemma list_since_own c since n m l1 l2 : own_events c l1 = own_events c l2 →
  (n = m ∨ (n = length (ClientEventLog.rows l1) ∧ m = length (ClientEventLog.rows l2))) →
  ClientEventLog.list_since c since n l1 = ClientEventLog.list_since c since m l2.
Proof.
  intros E Hnm. unfold ClientEventLog.list_since, Sql.select.
  assert (∀ l, List.filter (fun e => bool_decide (ClientEventLog.client_id e = c) && (since <? ClientEventLog.id e)) (ClientEventLog.rows l)
    = List.filter (fun e => bool_decide (ClientEventLog.client_id e = c) && (since <? ClientEventLog.id e)) (own_events c l)) as Ho.
  { intros l. symmetry. apply filter_sub. by intros e _ [He _]%andb_true_iff. }
  destruct Hnm as [->|[-> ->]]; [by rewrite !Ho, E|].
  assert (∀ (A : Type) (le : A → A → bool) p (l : list A), take (length l) (Sql.order_by le (List.filter p l)) = Sql.order_by le (List.filter p l)) as Ht.
  { intros A le p l. apply take_ge. rewrite (Permutation_length (Sql.order_by_perm le _)). apply List.filter_length_le. }
  by rewrite !Ht, !Ho, E.
Qed.

(** C7. Isolation: what a client is answered on any route is a function of its own rows.  Two
    databases and event logs that agree on the keys, usage, subscriptions, account and events
    of the client, and on the plans, give the same answer, errors included, whatever they
    hold about other clients. *)
Theorem client_isolation cfg r now rt c d1 d2 log1 log2 :
  NoDup (map k_id (api_keys d1)) → NoDup (map k_id (api_keys d2)) → NoDup (map key_hash (api_keys d2)) →
  own c d1 = own c d2 → own_events c log1 = own_events c log2 → owner (header_token r) d1 = Some c →
  snd (serve cfg r now rt d1 log1) = snd (serve cfg r now rt d2 log2).
Proof.
  intros N1 N2 N2' E El Ho1. assert (owner (header_token r) d2 = Some c) as Ho2.
  { unfold owner in *. destruct (header_token r) as [t|]; [|done]. cbn [mbind option_bind] in *.
    destruct (Sql.fetchone _ (api_keys d1)) as [k|] eqn:Ek; [|done]. cbn [mbind option_bind] in Ho1.
    apply (fetch_filter _ (mine c)) in Ek; [|by apply bool_decide_eq_true].
    change (List.filter (mine c) (api_keys d1)) with (api_keys (own c d1)) in Ek. rewrite E in Ek.
    apply Sql.fetchone_Some in Ek as [Hk Hh%bool_decide_eq_true]. apply list_elem_of_In, filter_In in Hk as [Hk _].
    rewrite <- Hh. rewrite (Sql.fetchone_key key_hash); [done|done|by apply list_elem_of_In]. }
  destruct (resolve_own c (header_token r) now d1 N1 Ho1) as [R1 K1].
  destruct (resolve_own c (header_token r) now d2 N2 Ho2) as [R2 K2].
  unfold serve, client_context. rewrite E, R2 in R1.
  destruct (resolve_client (header_token r) now d1) as [d1' x1], (resolve_client (header_token r) now d2) as [d2' x2].
  cbn [fst snd] in *. pose proof (f_equal fst R1) as Ed. pose proof (f_equal snd R1) as Ex. cbn [fst snd] in Ed, Ex. subst x2. destruct x1 as [x|e]; [|done]. cbn [snd].
  destruct (K1 x eq_refl) as [<- H1], (K2 x eq_refl) as [_ H2].
  assert (entitlement x d1' = entitlement x d2') as Ee.
  { unfold entitlement. by rewrite <- (key_access_own _ _ _ H1), <- (key_access_own _ _ _ H2), Ed. }
  assert (plan_of x d1' = plan_of x d2') as Ep.
  { unfold plan_of, plan_summary. rewrite Ee. destruct (BillingStore.plan_id <$> _) as [i|]; [|done]. cbn.
    change (BillingStore.get_plan i (own (client_id x) d1') = BillingStore.get_plan i (own (client_id x) d2')). by rewrite Ed. }
  destruct rt.
  - unfold get_me. by rewrite Ep, <- (get_client_own _ d1'), <- (get_client_own _ d2'), Ed.
  - unfold get_plan. by rewrite Ep, Ee.
  - unfold get_usage. rewrite Ee. unfold UsageStore.usage_5h, UsageStore.usage_weekly.
    by rewrite <- !(sum_cu_own _ _ _ d1' H1), <- !(sum_cu_own _ _ _ d2' H2), <- (client_usage_own _ _ d1'),
      <- (client_usage_own _ _ d2'), Ed.
  - unfold get_services. by rewrite Ee.
  - unfold get_events. destruct (negb (client_events_enabled cfg)); [done|]. destruct (negb _); [done|].
    erewrite list_since_own; [done|done|]. destruct (limit <? 0); auto.
Qed.

End Events.
End Routes.

(** Two engines that differ in everything about client [c2]. *)
Definition demo_key (i tok : string) (client : option string) : api_key :=
  ApiKey i (KeyStore.hash_token tok) "sk-ie-" None "2024" None None client "active".
Definition demo_event (n : Z) (c : string) : ClientEventLog.ClientEvent := ClientEventLog.Event n c "e" "t" "{}" 5.
Definition demo_usage (k : string) (cu : Q) : usage_event := UsageEvent 1000 (Some k) "r" "/v1" None 1 1 cu (Some 200).
Definition demo_db (others : bool) : Db.t :=
  Mk (demo_key "k1" "sk-1" (Some "c1") :: if others then [demo_key "k2" "sk-2" (Some "c2")] else [])
     (if others then [demo_usage "k2" 7; demo_usage "k1" 3] else [demo_usage "k1" 3]) [Plan "p" "Plan" 10 20 None None]
     (Client "c1" None None "active" "2024" :: if others then [Client "c2" None None "active" "2024"] else []) [] [].
Definition demo_log (others : bool) : ClientEventLog.t :=
  ClientEventLog.Mk (if others then [demo_event 1 "c2"; demo_event 2 "c1"] else [demo_event 2 "c1"]) 2 ["c1"; "c2"] 0 0.
Definition demo_config : config := Config 0 0 true true ["llama"].
Definition demo_request : request := Request (Some "Bearer sk-1") None [] None.
Lemma client_isolation_witness :
  let answer b := snd (serve (Some "p") (fun _ => Some (Json.JObj [])) demo_config demo_request "t" (RUsage 1100) (demo_db b) (demo_log b)) in
  answer true = answer false ∧ is_ok (answer true) = true.
Proof.
  split; [|vm_compute; reflexivity].
  apply (client_isolation (Some "p") (fun _ => Some (Json.JObj [])) demo_config demo_request "t" (RUsage 1100) "c1"
           (demo_db true) (demo_db false) (demo_log true) (demo_log false));
    first [apply (bool_decide_unpack _); vm_compute; exact I | vm_compute; reflexivity].
Defined.

End ClientApi.

(** * Usage thresholds *)

Module UsageThreshold.

Section Hook.
Context (default_plan : option string) (webhooks_enabled : bool) (pct : Q).
(** How a float is printed by [str] and written by [json.dumps]. *)
Context (str_float : Q → string) (json_float : Q → Json.t).

(** What a call of the hook reads besides the tables: the clock and the emitter's ids and times. *)
Record reads := Reads {
  r_now : Q; r_uuid : string; r_uuid2 : string; r_uuids : nat → string; r_ts1 : string; r_ts2 : string
}.

Definition EVENT_TYPE : string := "usage.threshold.reached".
(** [int(window_start)]: the start of a week is a whole number. *)
Definition threshold_id (client_id : string) (window_start : Q) : string :=
  "usage.threshold.weekly." +:+ client_id +:+ "." +:+ Text.str_int (Qfloor window_start) +:+ "." +:+ str_float pct.
Definition threshold_data (client_id : string) (used limit : Q) : Json.t :=
  Json.JObj [("client_id", Json.JStr client_id); ("window", Json.JStr "weekly"); ("used_cu", json_float used);
             ("limit_cu", json_float limit); ("threshold_pct", json_float pct)].

(** The guards of [_on_usage_recorded]: the client to tell, with what it used and its limit. *)
Definition due (key_id : string) (now : Q) (d : Db.t) : option (string * Q * Q) :=
  ent ← BillingStore.entitlement (BillingStore.key_access default_plan key_id d);
  let limit := BillingStore.quota_weekly_cu ent in
  guard (0 < limit)%Q;;
  c ← BillingStore.client_id_for_key key_id d;
  let used := BillingStore.client_usage_cu c (Windows.week_start now) d in
  guard (pct * limit <= used)%Q;; Some (c, used, limit).

(** [_on_usage_recorded] *)
Definition on_usage_recorded (r : reads) (key_id : string) (d : Db.t) (e : ClientEventEmitter.t) : ClientEventEmitter.t :=
  match due key_id (r_now r) d with
  | None => e
  | Some (c, used, limit) =>
      ClientEventEmitter.emit webhooks_enabled (r_uuid r) (r_uuid2 r) (r_uuids r) (r_ts1 r) (r_ts2 r)
        c EVENT_TYPE (threshold_data c used limit) (Some (threshold_id c (Windows.week_start (r_now r)))) (r_now r) e
  end.

(** The installation in [create_app]. *)
Definition installed (client_events_enabled : bool) : bool :=
  bool_decide (0 < pct)%Q && (webhooks_enabled || client_events_enabled).

(** A history of recorded usage, each call with the tables it sees. *)
Definition run (calls : list (reads * string * Db.t)) (e : ClientEventEmitter.t) : ClientEventEmitter.t :=
  fold_left (fun e '(r, k, d) => on_usage_recorded r k d e) calls e.

(** The events of client [c] with id [i] in the log. *)
Definition told (c i : string) (e : ClientEventEmitter.t) : list ClientEventLog.ClientEvent :=
  match ClientEventEmitter.log e with
  | None => []
  | Some l => List.filter (fun ev => bool_decide (ClientEventLog.client_id ev = c) && bool_decide (ClientEventLog.event_id ev = i))
                (ClientEventLog.rows l)
  end.

(** ** The event is written once *)

Lemma append_suffix_inj (a b t : string) : a +:+ t = b +:+ t → a = b.
Proof.
  intros H%(f_equal Crypto.chars). rewrite !Text.chars_app in H. apply app_inv_tail in H.
  apply (f_equal Crypto.of_chars) in H. by rewrite !Crypto.of_chars_chars in H.
Qed.
Lemma threshold_id_week c t t' :
  threshold_id c (Windows.week_start t) = threshold_id c (Windows.week_start t') ↔ (Windows.week_start t == Windows.week_start t')%Q.
Proof.
  unfold threshold_id, Text.str_int. split; [|by intros ->].
  intros H%(inj _)%(inj _)%(inj _)%append_suffix_inj%(inj pretty).
  destruct (Windows.week_start_Z t) as (k & Hk & _), (Windows.week_start_Z t') as (k' & Hk' & _).
  rewrite Hk, Hk' in *. rewrite !Qfloor_Z in H. by rewrite H.
Qed.

(** Whether a call is one that reaches the threshold for client [c] in the week starting at [w]. *)
Definition reaches (c : string) (w : Q) (call : reads * string * Db.t) : bool :=
  let '(r, k, d) := call in
  match due k (r_now r) d with
  | Some (c', _, _) => bool_decide (c' = c) && Qeq_bool (Windows.week_start (r_now r)) w
  | None => false
  end.

Lemma existsb_filter_nil {A} (p : A → bool) l : existsb p l = match List.filter p l with [] => false | _ => true end.
Proof.
  induction l as [|x l IH]; [done|]. simpl. by destruct (p x).
Qed.

(** What [append] does to the events of client [c] with id [i] in a log that keeps everything. *)
Lemma append_told c i c' j ty body now l l' r ws n ws' n' :
  ClientEventLog.keeps_all l → c ∈ ClientEventLog.client_ids l → (length (told c i (ClientEventEmitter.Mk ws (Some l) n)) ≤ 1)%nat →
  ClientEventLog.append c' j ty body now l = (l', r) →
  ClientEventLog.keeps_all l' ∧ ClientEventLog.client_ids l' = ClientEventLog.client_ids l ∧
  length (told c i (ClientEventEmitter.Mk ws' (Some l') n')) =
    (if bool_decide (c' = c) && bool_decide (j = i) then 1 else length (told c i (ClientEventEmitter.Mk ws (Some l) n)))%nat.
Proof.
  unfold told. intros Hk Hc H1. unfold ClientEventLog.append. rewrite existsb_filter_nil.
  destruct (List.filter _ _) as [|x xs] eqn:Hn; simpl in *.
  2: { intros [= <- <-]. split_and!; [done..|].
       case_bool_decide; [case_bool_decide|]; simpl; [subst|done..].
       rewrite Hn in *. destruct xs; simpl in *; [done|lia]. }
  case_bool_decide as Hin; simpl.
  2: { intros [= <- <-]. split_and!; [done..|]. case_bool_decide; [by subst|done]. }
  rewrite ClientEventLog.prune_keeps by done. intros [= <- <-]. split_and!; [done..|].
  cbn. unfold Sql.insert. rewrite List.filter_app, length_app. simpl.
  case_bool_decide; [case_bool_decide|]; simpl; [subst|lia..]. by rewrite Hn.
Qed.

Lemma hook_log r k d c w n l ws :
  let i := threshold_id c (Windows.week_start w) in
  let e := ClientEventEmitter.Mk ws (Some l) n in
  ClientEventLog.keeps_all l → c ∈ ClientEventLog.client_ids l → (length (told c i e) ≤ 1)%nat →
  ∃ ws' l' n', on_usage_recorded r k d e = ClientEventEmitter.Mk ws' (Some l') n' ∧
    ClientEventLog.keeps_all l' ∧ ClientEventLog.client_ids l' = ClientEventLog.client_ids l ∧
    length (told c i (ClientEventEmitter.Mk ws' (Some l') n')) =
      (if reaches c (Windows.week_start w) (r, k, d) then 1 else length (told c i e))%nat.
Proof.
  intros i e Hk Hc H1. unfold on_usage_recorded, reaches, e.
  destruct (due k (r_now r) d) as [[[c' u] lim]|]; [|by exists ws, l, n].
  unfold ClientEventEmitter.emit. cbn [ClientEventEmitter.log ClientEventEmitter.webhooks ClientEventEmitter.notifier].
  change (WebhookDispatcher.event_id_or _ _) with (threshold_id c' (Windows.week_start (r_now r))).
  set (j := threshold_id c' _).
  destruct (ClientEventLog.append c' j _ _ _ l) as [l' res] eqn:A.
  replace (Qeq_bool (Windows.week_start (r_now r)) (Windows.week_start w))
    with (if bool_decide (c' = c) then bool_decide (j = i) else true && Qeq_bool (Windows.week_start (r_now r)) (Windows.week_start w)).
  2: { case_bool_decide as Hcc; [subst|done].
       destruct (Qeq_bool _ _) eqn:E; [apply bool_decide_true|apply bool_decide_false; intros Hj];
         [by apply threshold_id_week, Qeq_bool_eq|]. apply threshold_id_week, Qeq_eq_bool in Hj. congruence. }
  assert (∀ b b' : bool, b && (if b then b' else true && Qeq_bool (Windows.week_start (r_now r)) (Windows.week_start w)) = b && b') as ->
    by (by intros [] ?).
  destruct res as [[m|]|ex]; eexists _, l', _; (split; [reflexivity|]); eapply append_told; eauto.
Qed.

(** A client is told of a crossed threshold exactly once per week.  For every history of recorded
    usage, over whatever tables each call sees, the client's log holds one
    [usage.threshold.reached] event of a given week when some call of that week found the
    client at or above the threshold, and none otherwise, provided the log does not prune. *)
Theorem threshold_once calls c t ws l n :
  ClientEventLog.keeps_all l → c ∈ ClientEventLog.client_ids l →
  told c (threshold_id c (Windows.week_start t)) (ClientEventEmitter.Mk ws (Some l) n) = [] →
  length (told c (threshold_id c (Windows.week_start t)) (run calls (ClientEventEmitter.Mk ws (Some l) n))) =
    (if existsb (reaches c (Windows.week_start t)) calls then 1 else 0)%nat.
Proof.
  intros Hk Hc H0.
  enough (∀ m, length (told c (threshold_id c (Windows.week_start t)) (ClientEventEmitter.Mk ws (Some l) n)) = m → (m ≤ 1)%nat →
    length (told c (threshold_id c (Windows.week_start t)) (run calls (ClientEventEmitter.Mk ws (Some l) n))) =
      (if existsb (reaches c (Windows.week_start t)) calls then 1 else m)%nat) as H by (apply H; [by rewrite H0|lia]).
  clear H0. revert ws l n Hk Hc. induction calls as [|[[r k] d] calls IH]; intros ws l n Hk Hc m Hm Hle; [done|].
  subst m. cbn [existsb]. set (b := reaches c _ _).
  change (run (_ :: calls) ?e) with (run calls (on_usage_recorded r k d e)).
  destruct (hook_log r k d c t n l ws Hk Hc Hle) as (ws' & l' & n' & -> & Hk' & Hc' & Hlen).
  rewrite <- Hc' in Hc. fold b in Hlen. rewrite (IH ws' l' n' Hk' Hc _ Hlen) by (by destruct b).
  by destruct b, (existsb _ calls).
Qed.

End Hook.

(** ** Examples *)

Definition demo_reads : reads := Reads 1100 "u" "v" (fun _ => "w") "t1" "t2".
Definition demo_hook := on_usage_recorded (Some "p") false (1 # 10) (fun _ => "0.1") (fun _ => Json.JNull).
Definition demo_id : string := threshold_id (1 # 10) (fun _ => "0.1") "c1" (Windows.week_start 1100).
Definition empty_log (max_per_client : Z) : ClientEventLog.t := ClientEventLog.Mk [] 0 ["c1"] 0 max_per_client.

Lemma threshold_once_witness :
  let calls := [(demo_reads, "k1", ClientApi.demo_db false); (demo_reads, "k9", ClientApi.demo_db false);
                (demo_reads, "k1", ClientApi.demo_db true)] in
  length (told "c1" demo_id (run (Some "p") false (1 # 10) (fun _ => "0.1") (fun _ => Json.JNull) calls
                               (ClientEventEmitter.Mk None (Some (empty_log 0)) None))) = 1%nat.
Proof.
  intros calls. pose proof (threshold_once (Some "p") false (1 # 10) (fun _ => "0.1") (fun _ => Json.JNull) calls
    "c1" 1100 None (empty_log 0) None) as H.
  etransitivity; [apply H|vm_compute; reflexivity].
  - split; [discriminate|simpl; lia].
  - apply (bool_decide_unpack _). vm_compute. exact I.
  - reflexivity.
Defined.

(** A log that keeps one event per client forgets the id once another event is logged, so the
    next recorded usage of the same week tells the client again. *)
Theorem threshold_repeats :
  let other := ClientEventEmitter.emit false "u" "v" (fun _ => "w") "t1" "t2" "c1" "subscription.updated" Json.JNull (Some "o") 1100 in
  let hook := demo_hook demo_reads "k1" (ClientApi.demo_db false) in
  let e0 := ClientEventEmitter.Mk None (Some (empty_log 1)) None in
  map ClientEventLog.id (told "c1" demo_id (hook e0)) = [1] ∧
  map ClientEventLog.id (told "c1" demo_id (hook (other (hook e0)))) = [3].
Proof. vm_compute. done. Qed.

End UsageThreshold.
