(* ===== verification/ClientFrames.v ===== *)
(** * The frames of the client event stream ([engine/api/client_router.py])

    [Module SseFrame]: the text [_sse_frame] writes for an event and the comments
    [sse_event_stream] writes between them, and a reader of the event-stream format (the
    line rules of the HTML standard, as a browser's [EventSource] applies them), with the
    round trip.  [Json.dumps] escapes every control character, so the envelope of an event
    is one line whatever its data. *)

From S2P Require Import Prelude Crypto Text Sql Webhooks ClientEvents.
From Stdlib Require Import Ascii.

Open Scope Z_scope.

Module SseFrame.
Import ClientEventLog.

Definition LF : ascii := Crypto.char 10.
Definition line (s : string) : string := s +:+ String LF "".

(** [_sse_frame] *)
Definition sse_frame (e : ClientEvent) : string :=
  line ("id: " +:+ Text.str_int (id e)) +:+ line ("event: " +:+ type e) +:+ line ("data: " +:+ payload e) +:+ line "".
(** What [sse_event_stream] yields. *)
Inductive chunk := Connected | Keep_alive | Frame (e : ClientEvent).
Definition text (c : chunk) : string :=
  match c with
  | Connected => line ": connected" +:+ line ""
  | Keep_alive => line ": keep-alive" +:+ line ""
  | Frame e => sse_frame e
  end.
Definition stream_text (cs : list chunk) : string := String.concat "" (map text cs).

(** ** The reader *)

Record reader := Reader { last_id : string; event : string; data : list string; out : list (string * string * string) }.
Definition start : reader := Reader "" "" [] [].
Definition strip_space (s : string) : string := match s with String " " s' => s' | _ => s end.
Definition dispatch (r : reader) : reader :=
  match data r with
  | [] => Reader (last_id r) "" [] (out r)
  | _ => Reader (last_id r) "" [] (out r ++ [(last_id r, if str_true (event r) then event r else "message", String.concat (String LF "") (data r))])
  end.
Definition read_field (name value : string) (r : reader) : reader :=
  if bool_decide (name = "event") then Reader (last_id r) value (data r) (out r)
  else if bool_decide (name = "data") then Reader (last_id r) (event r) (data r ++ [value]) (out r)
  else if bool_decide (name = "id") then
    if Text.mem (Crypto.char 0) value then r else Reader value (event r) (data r) (out r)
  else r.
Definition read_line (r : reader) (l : string) : reader :=
  match l with
  | EmptyString => dispatch r
  | String ":" _ => r
  | _ => if Text.mem ":" l then let '(n, v) := Text.partition ":" l in read_field n (strip_space v) r else read_field l "" r
  end.
(** The complete lines of a text. *)
Definition read (s : string) (r : reader) : reader := fold_left read_line (removelast (Text.split LF s)) r.
Definition received (cs : list chunk) : list (string * string * string) := out (read (stream_text cs) start).

(** ** Round trip *)

(** Text that fits in a line. *)
Definition one_line (s : string) : bool := negb (Text.mem LF s) && negb (Text.mem (Crypto.char 13) s).
Definition sendable (e : ClientEvent) : Prop := one_line (type e) = true ∧ type e ≠ "" ∧ one_line (payload e) = true.
Definition seen (e : ClientEvent) : string * string * string := (Text.str_int (id e), type e, payload e).
Definition frames (cs : list chunk) : list ClientEvent := omap (fun c => match c with Frame e => Some e | _ => None end) cs.

Lemma read_cons a s r : Text.mem LF a = false → read (line a +:+ s) r = read s (read_line r a).
Proof.
  intros Ha. unfold read, line. rewrite <- Text.append_assoc. change (String LF "" +:+ s) with (String LF s).
  rewrite Text.split_app by done. pose proof (Text.split_nonempty LF s). by destruct (Text.split LF s).
Qed.
Lemma read_nil r : read "" r = r.
Proof. done. Qed.
Lemma numchar_no c z : Text.numchar c = false → Text.mem c (Text.str_int z) = false.
Proof.
  intros Hc. pose proof (Text.str_int_chars z) as H. induction (Text.str_int z) as [|d s IH]; [done|]. cbn in *.
  apply andb_true_iff in H as [Hd Hs]. rewrite (IH Hs), orb_false_r. apply bool_decide_eq_false. intros ->. congruence.
Qed.
Lemma mem_prefix c a s : Text.mem c a = false → Text.mem c s = false → Text.mem c (a +:+ s) = false.
Proof. intros Ha Hs. by rewrite Text.mem_app, Ha, Hs. Qed.

Lemma read_id r z : read_line r ("id: " +:+ Text.str_int z) = Reader (Text.str_int z) (event r) (data r) (out r).
Proof.
  pose proof (numchar_no (Crypto.char 0) z eq_refl) as H. generalize dependent (Text.str_int z). intros s H.
  transitivity (read_field "id" s r); [done|]. unfold read_field. rewrite !(bool_decide_false ("id" = _)) by done.
  by rewrite bool_decide_true, H.
Qed.
Lemma read_event r s : read_line r ("event: " +:+ s) = Reader (last_id r) s (data r) (out r).
Proof. done. Qed.
Lemma read_data r s : read_line r ("data: " +:+ s) = Reader (last_id r) (event r) (data r ++ [s]) (out r).
Proof. done. Qed.

Lemma read_frame e s i o : sendable e →
  read (sse_frame e +:+ s) (Reader i "" [] o) = read s (Reader (Text.str_int (id e)) "" [] (o ++ [seen e])).
Proof.
  intros (Ht & Hne & Hp). apply andb_true_iff in Ht as [Ht%negb_true_iff _], Hp as [Hp%negb_true_iff _].
  unfold sse_frame. rewrite <- !Text.append_assoc.
  rewrite read_cons, read_id by (apply mem_prefix; [done|by apply numchar_no]).
  rewrite read_cons, read_event by by apply mem_prefix. rewrite read_cons, read_data by by apply mem_prefix.
  rewrite read_cons by done. cbn. f_equal. unfold seen. by destruct (type e).
Qed.

(** A comment and the blank line after it change nothing. *)
Lemma read_comment c s i o : Text.mem LF c = false →
  read (line (String ":" c) +:+ line "" +:+ s) (Reader i "" [] o) = read s (Reader i "" [] o).
Proof. intros Hc. by rewrite !read_cons. Qed.

(** Whatever frames and comments a stream is made of, a reader receives exactly its events, in
    order, each with its id, type and payload. *)
Theorem frames_roundtrip cs : Forall sendable (frames cs) → received cs = map seen (frames cs).
Proof.
  intros Hs. unfold received, stream_text, start.
  assert (∀ i o, out (read (String.concat "" (map text cs)) (Reader i "" [] o)) = o ++ map seen (frames cs)) as H; [|by rewrite H].
  induction cs as [|c cs IH]; intros i o; [by rewrite app_nil_r|].
  assert (String.concat "" (map text (c :: cs)) = text c +:+ String.concat "" (map text cs)) as ->.
  { simpl. destruct (map text cs); [by rewrite Text.append_nil|done]. }
  destruct c as [| |e]; cbn [text].
  - rewrite <- Text.append_assoc. change ": connected" with (String ":" " connected"). rewrite read_comment by done. by apply IH.
  - rewrite <- Text.append_assoc. change ": keep-alive" with (String ":" " keep-alive"). rewrite read_comment by done. by apply IH.
  - change (frames (Frame e :: cs)) with (e :: frames cs) in *. apply Forall_cons in Hs as [He Hs].
    rewrite read_frame by done. rewrite IH by done. by rewrite <- app_assoc.
Qed.

(** ** Payloads *)

Definition printable (s : string) : Prop := Forall (fun c => 32 <= Crypto.code c) (Crypto.chars s).
Lemma printable_app a b : printable (a +:+ b) ↔ printable a ∧ printable b.
Proof. unfold printable. by rewrite Text.chars_app, Forall_app. Qed.
Lemma printable_one_line s : printable s → one_line s = true.
Proof.
  intros H. unfold one_line. assert (∀ c, Crypto.code c < 32 → Text.mem c s = false) as Hm.
  { intros c Hc. unfold printable in H. induction s as [|d s IH]; [done|]. cbn in *. apply Forall_cons in H as [Hd Hs].
    rewrite (IH Hs), orb_false_r. apply bool_decide_eq_false. intros ->. lia. }
  by rewrite !Hm.
Qed.
Lemma printable_concat sep l : printable sep → Forall printable l → printable (String.concat sep l).
Proof.
  intros Hsep. induction 1 as [|x l Hx Hl IH]; [constructor|]. destruct l as [|y l]; [done|].
  change (String.concat sep (x :: y :: l)) with (x +:+ sep +:+ String.concat sep (y :: l)).
  rewrite !printable_app. done.
Qed.

Lemma dumps_char_printable c : Forall (fun d => 32 <= Crypto.code d) (Json.dumps_char c).
Proof.
  unfold Json.dumps_char. pose proof (Crypto.code_range c) as Hr. set (n := Crypto.code c) in *.
  assert (0 <= Z.shiftr n 4 < 16) as H1 by (rewrite Z.shiftr_div_pow2 by lia; change (2 ^ 4) with 16; Z.to_euclidean_division_equations; lia).
  assert (0 <= Z.land n 15 < 16) as H2 by (change 15 with (Z.ones 4); rewrite Z.land_ones by lia; change (2 ^ 4) with 16; Z.to_euclidean_division_equations; lia).
  pose proof (Crypto.hex_digit_code _ H1). pose proof (Crypto.hex_digit_code _ H2).
  repeat match goal with |- context [if ?b then _ else _] => destruct b eqn:? end;
    repeat constructor; try (vm_compute; discriminate); subst n; lia.
Qed.
Lemma dumps_str_printable s : printable (Json.dumps_str s).
Proof.
  unfold printable, Json.dumps_str. rewrite Crypto.chars_of_chars. constructor; [vm_compute; discriminate|].
  apply Forall_app. split; [|repeat constructor; vm_compute; discriminate].
  induction (Crypto.chars s) as [|c l IH]; [constructor|]. cbn. apply Forall_app. split; [apply dumps_char_printable|done].
Qed.
Lemma str_int_printable z : printable (Text.str_int z).
Proof.
  unfold printable. pose proof (Text.str_int_chars z) as H. apply Forall_forall. intros c Hc%list_elem_of_In.
  rewrite forallb_forall in H. specialize (H c Hc). unfold Text.numchar, Text.digit_of in H.
  destruct ((48 <=? Crypto.code c) && (Crypto.code c <=? 57)) eqn:E; [lia|].
  apply bool_decide_eq_true in H as ->. vm_compute. discriminate.
Qed.
Lemma sort_items_forall (P : string * string → Prop) l : Forall P l → Forall P (Json.sort_items l).
Proof.
  unfold Json.sort_items. induction 1 as [|x l Hx Hl IH]; [constructor|]. cbn. revert IH. generalize (foldr Json.insert_item [] l).
  intros m Hm. induction Hm as [|y m Hy Hm IH]; cbn; [by constructor|]. destruct (str_leb _ _); by repeat constructor.
Qed.
(** [json.dumps] writes no control character. *)
Lemma dumps_printable : ∀ v, printable (Json.dumps v).
Proof.
  fix IH 1. intros [|b|z|s|l|l]; cbn [Json.dumps].
  - repeat constructor; vm_compute; discriminate.
  - destruct b; repeat constructor; vm_compute; discriminate.
  - apply str_int_printable.
  - apply dumps_str_printable.
  - rewrite !printable_app. split_and!; [repeat constructor; vm_compute; discriminate| |repeat constructor; vm_compute; discriminate].
    apply printable_concat; [repeat constructor; vm_compute; discriminate|].
    induction l as [|v l IHl]; cbn; constructor; [apply IH|exact IHl].
  - rewrite !printable_app. split_and!; [repeat constructor; vm_compute; discriminate| |repeat constructor; vm_compute; discriminate].
    apply printable_concat; [repeat constructor; vm_compute; discriminate|].
    assert (Forall (fun p => printable (snd p)) (map (fun p => (fst p, Json.dumps (snd p))) l)) as Hl.
    { induction l as [|[k v] l IHl]; cbn; constructor; [apply IH|exact IHl]. }
    apply sort_items_forall in Hl. induction Hl as [|[k v] m Hv Hm IHm]; cbn; constructor; [|exact IHm].
    rewrite !printable_app. split_and!; [apply dumps_str_printable|repeat constructor; vm_compute; discriminate|exact Hv].
Qed.

(** ** The stream of a client *)

Definition log_sendable (l : ClientEventLog.t) : Prop := Forall sendable (rows l).

(** An event with a proper type can be sent, whatever its data. *)
Lemma envelope_sendable eid ty ts d : one_line (WebhookDispatcher.envelope eid ty ts d) = true.
Proof. apply printable_one_line, dumps_printable. Qed.

Lemma forall_delete (P : ClientEvent → Prop) p l : Forall P l → Forall P (Sql.delete p l).
Proof. intros H. apply Forall_forall. intros x [Hx _]%Sql.elem_of_delete. rewrite Forall_forall in H. by apply H. Qed.
Lemma append_sendable c eid ty body now l : one_line ty = true → ty ≠ "" → one_line body = true → log_sendable l →
  log_sendable (fst (append c eid ty body now l)).
Proof.
  intros Ht Hne Hb Hl. unfold append. destruct (existsb _ _); [done|]. destruct (negb _); [done|]. cbn [fst].
  assert (log_sendable (Mk (Sql.insert (Event (seq l + 1) c eid ty body now) (rows l)) (seq l + 1) (client_ids l) (max_age_s l) (max_per_client l))) as H.
  { unfold log_sendable, Sql.insert. cbn. apply Forall_app. split; [exact Hl|]. by repeat constructor. }
  unfold prune. destruct (bool_decide _); destruct (0 <? _); unfold log_sendable; cbn; repeat apply forall_delete; exact H.
Qed.
Lemma list_since_sendable c cur n l : log_sendable l → Forall sendable (list_since c cur n l).
Proof.
  intros H. unfold list_since. apply Forall_take, Forall_forall. intros x Hx.
  rewrite Sql.order_by_perm in Hx. apply Sql.elem_of_select in Hx as [Hx _]. unfold log_sendable in H. rewrite Forall_forall in H. by apply H.
Qed.

(** The emissions of a history have proper types and one-line payloads, as every envelope is. *)
Definition proper (o : EventStream.op) : Prop :=
  match o with
  | EventStream.Pass => True
  | EventStream.Emit _ _ ty body _ => one_line ty = true ∧ ty ≠ "" ∧ one_line body = true
  end.
Lemma steps_sendable c os s : Forall proper os → log_sendable (EventStream.log s) → Forall sendable (EventStream.sent s) →
  Forall sendable (EventStream.sent (EventStream.steps c os s)).
Proof.
  unfold EventStream.steps. intros Hp. revert s. induction Hp as [|o os Ho Hp IH]; intros s Hl Hs; [done|]. cbn.
  destruct o as [|c' eid ty body now]; cbn [EventStream.step].
  - unfold EventStream.pass. destruct (ClientEventNotifier.event c (EventStream.notifier s)). apply IH; cbn [EventStream.log EventStream.sent]; [done|].
    apply Forall_app. split; [done|by apply list_since_sendable].
  - destruct Ho as (Ht & Hne & Hb). pose proof (append_sendable c' eid ty body now (EventStream.log s) Ht Hne Hb Hl) as H.
    unfold EventStream.emit. destruct (append c' eid ty body now (EventStream.log s)) as [l' [[z|]|e]]; by apply IH.
Qed.

(** However emissions interleave with a stream, and wherever comments stand between its
    frames, a reader of the bytes sees exactly the events the stream has sent. *)
Theorem client_reads_sent c os l n lo cs :
  log_sendable l → Forall proper os → frames cs = EventStream.sent (EventStream.steps c os (EventStream.connect l n lo)) →
  received cs = map seen (EventStream.sent (EventStream.steps c os (EventStream.connect l n lo))).
Proof.
  intros Hl Hp Hc. rewrite <- Hc. apply frames_roundtrip. rewrite Hc. apply steps_sendable; [done|done|constructor].
Qed.

Definition log0 : ClientEventLog.t := Mk [] 0 ["c1"; "c2"] 0 0.
Definition ops0 : list EventStream.op :=
  [EventStream.Emit "c1" "e1" "plan.changed" (WebhookDispatcher.envelope "e1" "plan.changed" "t" (Json.JStr (line "a"))) 0;
   EventStream.Emit "c2" "e2" "plan.changed" "{}" 0; EventStream.Pass].
Lemma client_reads_sent_witness :
  let s := EventStream.steps "c1" ops0 (EventStream.connect log0 (ClientEventNotifier.init) 0) in
  received (Connected :: map Frame (EventStream.sent s) ++ [Keep_alive]) = map seen (EventStream.sent s)
  ∧ length (EventStream.sent s) = 1%nat.
Proof.
  intros s. split; [|vm_compute; reflexivity].
  apply (client_reads_sent "c1" ops0 log0 (ClientEventNotifier.init) 0).
  - constructor.
  - repeat constructor; vm_compute; congruence.
  - vm_compute. reflexivity.
Defined.

End SseFrame.
