(* ===== verification/Migrations.v ===== *)
(** * Schema migrations ([engine/store/migrations.py])

    [Module Migrations]: the discovery of the [NNNN_name.sql] files, the guard against files that
    manage transactions, and the runner, which executes each pending file and its bookkeeping row as one
    script text on a connection with SQLite's transaction states.  The tables other than
    [schema_migrations] are an abstract state; the statements SQLite reads in a text, and what a statement does
    to the tables, are parameters.  What is relied on of the reading is [reads_sql]: a text that ends outside a
    statement, a string and a comment is read before what follows it, and the runner's own lines are read as
    what they say.  The runner is shown to refine the sequence of the pending files' effects, to be atomic per
    file, and to be idempotent and resumable, for files that end their last statement; three ways around its
    guarantees are exhibited, with a reader that knows strings and comments. *)

From Stdlib Require Import Ascii.
From S2P Require Import Prelude Crypto Text Sql.

Open Scope Z_scope.

Module Migrations.

(** ** Discovery *)

(** A directory: file names with their contents. *)
Definition directory := list (string * string).
Definition is_digit (c : ascii) : bool := (48 <=? Crypto.code c) && (Crypto.code c <=? 57).
Definition newline : ascii := "010"%char.

(** [_FILENAME_RE]: [^(\d{4})_.+\.sql$] on a name that ends in [.sql], giving the group. *)
Definition filename_version (name : string) : option string :=
  let cs := Crypto.chars name in
  let v := take 4 cs in
  if forallb is_digit v && Nat.eqb (length v) 4
     && bool_decide (cs !! 4%nat = Some "_"%char)
     && (9 <? Z.of_nat (length cs))
     && Text.endswith ".sql" name
     && negb (Text.mem newline name)
  then Some (Crypto.of_chars v) else None.

(** [discover_migrations]: the [*.sql] files by name, and the first misnamed one as an error. *)
Record migration := Migration { version : string; name : string; text : string }.
Fixpoint versions_of (fs : directory) : result string (list migration) :=
  match fs with
  | [] => Ok []
  | (n, sql) :: fs =>
      match filename_version n with
      | None => Err n
      | Some v => match versions_of fs with Ok ms => Ok (Migration v n sql :: ms) | Err e => Err e end
      end
  end.
Definition discover_migrations (dir : directory) : result string (list migration) :=
  versions_of (Sql.order_by (fun a b => str_leb (fst a) (fst b)) (List.filter (fun f => Text.endswith ".sql" (fst f)) dir)).

(** ** The guard *)

(** [\w] of an ASCII text. *)
Definition word_char (c : ascii) : bool :=
  let n := Crypto.code c in
  is_digit c || ((65 <=? n) && (n <=? 90)) || ((97 <=? n) && (n <=? 122)) || (n =? 95).
Definition word_start (s : string) : bool := match s with String c _ => word_char c | EmptyString => false end.
Definition drop_chars (n : nat) (s : string) : string := Crypto.of_chars (drop n (Crypto.chars s)).
(** One of the keywords at the head of [s], followed by a word boundary. *)
Definition keyword_here (s : string) : bool :=
  existsb (fun k => Text.startswith k (Text.lower s) && negb (word_start (drop_chars (String.length k) s)))
    ["begin"; "commit"; "rollback"].
(** [_TXN_KEYWORD_RE.search]; [inside] says that the character before is a word character. *)
Fixpoint search (inside : bool) (s : string) : bool :=
  (negb inside && keyword_here s) ||
  match s with EmptyString => false | String c s' => search (word_char c) s' end.
Definition manages_transaction (sql : string) : bool := search false sql.

(** ** A connection *)

Inductive error := Bad_name (file : string) | Transaction_keyword (file : string) | Integrity | Operational.

Inductive statement :=
| Begin | Commit | Rollback
| Track (version applied_at : string)
| Other (sql : string).

Section Runner.
Context {S : Type}.
(** The statements SQLite reads in a text, and what one does to the tables besides [schema_migrations]; [None] is an error. *)
Context (statements : string → list statement) (exec : string → S → option S).

(** [tracking]: the rows of [schema_migrations], [None] before the table exists. *)
Record db := Db { tracking : option (list (string * string)); schema : S }.
(** What is on disk, and the open transaction's view. *)
Record conn := Conn { committed : db; working : option db }.

Definition track (v at_ : string) (d : db) : result error db :=
  match tracking d with
  | None => Err Operational
  | Some rows => if existsb (fun r => bool_decide (fst r = v)) rows then Err Integrity
                 else Ok (Db (Some (Sql.insert (v, at_) rows)) (schema d))
  end.
Definition effect (s : statement) (d : db) : result error db :=
  match s with
  | Track v a => track v a d
  | Other sql => match exec sql (schema d) with Some x => Ok (Db (tracking d) x) | None => Err Operational end
  | _ => Ok d
  end.

(** One statement: [END] and [COMMIT] are one statement to SQLite; outside a transaction a statement commits itself. *)
Definition step (s : statement) (c : conn) : result error conn :=
  match s, working c with
  | Begin, None => Ok (Conn (committed c) (Some (committed c)))
  | Begin, Some _ => Err Operational
  | Commit, Some d => Ok (Conn d None)
  | Rollback, Some _ => Ok (Conn (committed c) None)
  | Commit, None | Rollback, None => Err Operational
  | s, Some d => match effect s d with Ok d => Ok (Conn (committed c) (Some d)) | Err e => Err e end
  | s, None => match effect s (committed c) with Ok d => Ok (Conn d None) | Err e => Err e end
  end.
Fixpoint script (ss : list statement) (c : conn) : conn * option error :=
  match ss with
  | [] => (c, None)
  | s :: ss => match step s c with Ok c => script ss c | Err e => (c, Some e) end
  end.
(** [executescript] commits a pending transaction first. *)
Definition executescript (sql : string) (c : conn) : conn * option error :=
  script (statements sql) (match working c with Some d => Conn d None | None => c end).
(** [conn.rollback()] *)
Definition rollback (c : conn) : conn := Conn (committed c) None.

(** ** The runner *)

(** [_ensure_tracking_table] and [applied_versions] *)
Definition ensure_tracking_table (c : conn) : conn :=
  let ensure d := match tracking d with None => Db (Some []) (schema d) | Some _ => d end in
  match working c with
  | None => Conn (ensure (committed c)) None
  | Some d => Conn (committed c) (Some (ensure d))
  end.
Definition visible (c : conn) : db := match working c with Some d => d | None => committed c end.
Definition applied (d : db) : list string := match tracking d with Some rows => map fst rows | None => [] end.
Definition applied_versions (c : conn) : conn * list string :=
  let c := ensure_tracking_table c in (c, applied (visible c)).

Definition nl : string := String newline "".
Definition insert_text (v applied_at : string) : string :=
  "INSERT INTO schema_migrations (version, applied_at) VALUES ('" +:+ v +:+ "', '" +:+ applied_at +:+ "');".
Definition script_of (m : migration) (applied_at : string) : string :=
  ("BEGIN;" +:+ nl) +:+ (text m +:+ nl) +:+ insert_text (version m) applied_at +:+ nl +:+ "COMMIT;".

(** The loop of [apply_migrations]; [clock v] is the time read when [v] is applied. *)
Fixpoint apply_loop (clock : string → string) (already : list string) (ms : list migration) (c : conn) : conn * result error (list string) :=
  match ms with
  | [] => (c, Ok [])
  | m :: ms =>
      if bool_decide (version m ∈ already) then apply_loop clock already ms c
      else if manages_transaction (text m) then (c, Err (Transaction_keyword (name m)))
      else match executescript (script_of m (clock (version m))) c with
           | (c, Some e) => (rollback c, Err e)
           | (c, None) => match apply_loop clock already ms c with
                          | (c, Ok vs) => (c, Ok (version m :: vs))
                          | (c, Err e) => (c, Err e)
                          end
           end
  end.
Definition apply_migrations (clock : string → string) (dir : directory) (c : conn) : conn * result error (list string) :=
  let '(c, already) := applied_versions c in
  match discover_migrations dir with
  | Err n => (c, Err (Bad_name n))
  | Ok ms => apply_loop clock already ms c
  end.

(** [migrations_at_head] *)
Definition migrations_at_head (dir : directory) (c : conn) : conn * result error bool :=
  match discover_migrations dir with
  | Err n => (c, Err (Bad_name n))
  | Ok ms => let '(c, already) := applied_versions c in
             (c, Ok (forallb (fun m => bool_decide (version m ∈ already)) ms))
  end.

(** ** What is relied on of SQLite's reading *)

Definition quote_free (s : string) : bool := negb (Text.mem "'"%char s).
(** [closed a]: the text [a] ends outside a statement, a string and a comment. *)
Record reads_sql (closed : string → bool) : Prop := Reads {
  reads_app : ∀ a b, closed a = true → statements (a +:+ b) = statements a ++ statements b;
  reads_begin : closed ("BEGIN;" +:+ nl) = true ∧ statements ("BEGIN;" +:+ nl) = [Begin];
  reads_insert : ∀ v a, quote_free v = true → quote_free a = true →
    statements (insert_text v a +:+ nl +:+ "COMMIT;") = [Track v a; Commit]
}.
Context (closed : string → bool) (Hsql : reads_sql closed).
(** The text of a file as the script has it. *)
Definition body (m : migration) : string := text m +:+ nl.

(** ** The reference: the pending files' effects one after the other *)

Fixpoint run_effects (ss : list statement) (x : S) : option S :=
  match ss with
  | [] => Some x
  | Other sql :: ss => exec sql x ≫= run_effects ss
  | _ :: ss => None
  end.
(** A file that ends its last statement and only works on tables of its own. *)
Definition is_other (s : statement) : bool := match s with Other _ => true | _ => false end.
Definition plain (m : migration) : Prop := closed (body m) = true ∧ forallb is_other (statements (body m)) = true.
(** The texts the clock gives hold no quote. *)
Definition clock_ok (clock : string → string) : Prop := ∀ v, quote_free (clock v) = true.
Definition effect_of (m : migration) (x : S) : option S :=
  if manages_transaction (text m) then None else run_effects (statements (body m)) x.

(** The state reached, the versions applied, and whether every file was. *)
Fixpoint migrate (ms : list migration) (x : S) : S * list string * bool :=
  match ms with
  | [] => (x, [], true)
  | m :: ms => match effect_of m x with
               | None => (x, [], false)
               | Some y => let '(z, vs, b) := migrate ms y in (z, version m :: vs, b)
               end
  end.
Definition pending (already : list string) (ms : list migration) : list migration :=
  List.filter (fun m => negb (bool_decide (version m ∈ already))) ms.

(** A connection between transactions. *)
Definition idle (c : conn) : Prop := working c = None.

(** ** Proofs *)

Lemma script_plain ss rest d w :
  forallb is_other ss = true →
  match run_effects ss (schema w) with
  | Some x => script (ss ++ rest) (Conn d (Some w)) = script rest (Conn d (Some (Db (tracking w) x)))
  | None => ∃ w', script (ss ++ rest) (Conn d (Some w)) = (Conn d (Some w'), Some Operational)
  end.
Proof.
  revert w. induction ss as [|s ss IH]; intros w H; [by destruct w|].
  destruct s as [| | | |sql]; [done..|]. simpl in *. destruct (exec sql (schema w)) as [x|]; simpl; [|by exists w].
  by apply (IH (Db (tracking w) x)).
Qed.

Lemma script_reads m at_ : closed (body m) = true → quote_free (version m) = true → quote_free at_ = true →
  statements (script_of m at_) = Begin :: statements (body m) ++ [Track (version m) at_; Commit].
Proof.
  intros Hb Hv Ha. unfold script_of. fold (body m). destruct Hsql as [Happ [Hc Hbegin] Hins].
  by rewrite (Happ _ _ Hc), Hbegin, (Happ _ _ Hb), Hins.
Qed.

(** A file and its bookkeeping row are applied together or not at all. *)
Lemma script_atomic m at_ c rows :
  plain m → quote_free (version m) = true → quote_free at_ = true → idle c → tracking (committed c) = Some rows → version m ∉ map fst rows →
  match run_effects (statements (body m)) (schema (committed c)) with
  | Some x => executescript (script_of m at_) c = (Conn (Db (Some (rows ++ [(version m, at_)])) x) None, None)
  | None => ∃ c', executescript (script_of m at_) c = (c', Some Operational) ∧ rollback c' = c
  end.
Proof.
  destruct c as [d w]. unfold idle, executescript. intros [Hb Hp] Hq Ha Hw Ht Hv. rewrite script_reads by done. simpl in *. subst w. simpl.
  pose proof (script_plain (statements (body m)) [Track (version m) at_; Commit] d d Hp) as H.
  destruct (run_effects _ _) as [x|].
  - rewrite H. simpl. unfold track. simpl. rewrite Ht.
    destruct (existsb _ rows) eqn:E; [|done].
    apply existsb_exists in E as (r & Hr & Heq%bool_decide_eq_true). destruct Hv. rewrite <- Heq.
    by apply list_elem_of_In, in_map.
  - destruct H as [w' ->]. by eexists.
Qed.

Lemma apply_loop_refines clock already ms c rows :
  NoDup (map version (pending already ms)) → clock_ok clock → Forall (fun m => plain m ∧ quote_free (version m) = true) ms → idle c → tracking (committed c) = Some rows →
  (∀ m, m ∈ pending already ms → version m ∉ map fst rows) →
  let '(x, vs, ok) := migrate (pending already ms) (schema (committed c)) in
  let '(c', r) := apply_loop clock already ms c in
  c' = Conn (Db (Some (rows ++ map (fun v => (v, clock v)) vs)) x) None ∧ (if ok then r = Ok vs else is_ok r = false).
Proof.
  intros Hnd Hclk Hp. revert c rows Hnd. induction Hp as [|m ms [Hm Hq] Hms IH]; intros c rows Hnd Hi Ht Hv.
  { destruct c as [[tr x] w]. unfold idle in Hi. simpl in *. subst. by rewrite app_nil_r. }
  simpl in *. destruct (bool_decide (version m ∈ already)) eqn:Ed; simpl in *; [by apply IH|].
  unfold effect_of. destruct (manages_transaction (text m)).
  { destruct c as [[tr x] w]. unfold idle in Hi. simpl in *. subst. by rewrite app_nil_r. }
  pose proof (script_atomic m (clock (version m)) c rows Hm Hq (Hclk _) Hi Ht (Hv m ltac:(by left))) as Hx.
  destruct (run_effects _ _) as [x|].
  2: { destruct Hx as (c' & -> & ->). destruct c as [[tr x] w]. unfold idle in Hi. simpl in *. subst. by rewrite app_nil_r. }
  rewrite Hx. apply NoDup_cons in Hnd as [Hni Hnd].
  specialize (IH (Conn (Db (Some (rows ++ [(version m, clock (version m))])) x) None) _ Hnd eq_refl eq_refl).
  simpl in IH. destruct (migrate _ x) as [[z vs] b]. destruct (apply_loop _ _ _ _) as [c' r].
  destruct IH as [-> Hr].
  { intros m' Hin. rewrite map_app, elem_of_app. simpl. intros [Hr|Hr].
    - by apply (Hv m'); [right|].
    - apply list_elem_of_singleton in Hr. destruct Hni. rewrite <- Hr. apply list_elem_of_In, in_map. by apply list_elem_of_In. }
  rewrite <- app_assoc. destruct b.
  - by rewrite Hr.
  - by destruct r.
Qed.

(** A version is four digits. *)
Lemma digits_quote_free l : forallb is_digit l = true → quote_free (Crypto.of_chars l) = true.
Proof.
  unfold quote_free. induction l as [|c l IH]; [done|]. cbn [forallb Crypto.of_chars Text.mem]. intros [Hc Hl]%andb_true_iff.
  rewrite negb_orb. rewrite IH by done. rewrite bool_decide_false; [done|]. intros ->. vm_compute in Hc. discriminate.
Qed.
Lemma versions_quote_free fs ms : versions_of fs = Ok ms → Forall (fun m => quote_free (version m) = true) ms.
Proof.
  revert ms. induction fs as [|[n sql] fs IH]; intros ms; cbn [versions_of]; [intros [= <-]; constructor|].
  destruct (filename_version n) as [v|] eqn:E; [|done]. destruct (versions_of fs) as [ms'|]; [|done]. intros [= <-].
  constructor; [|by apply IH]. cbn [version]. unfold filename_version in E.
  destruct (forallb is_digit (take 4 (Crypto.chars n))) eqn:D; [|done]. cbn [andb] in E.
  destruct (_ && _); [|done]. injection E as <-. by apply digits_quote_free.
Qed.

Lemma pending_fresh already ms m : m ∈ pending already ms → version m ∉ already.
Proof.
  intros [_ H]%list_elem_of_In%filter_In. by apply negb_true_iff, bool_decide_eq_false in H.
Qed.
Lemma pending_nodup already ms : NoDup (map version ms) → NoDup (map version (pending already ms)).
Proof.
  induction ms as [|m ms IH]; simpl; [done|]. intros [Hn Hnd]%NoDup_cons. destruct (negb _); [|by apply IH].
  simpl. apply NoDup_cons. split; [|by apply IH]. intros Hin. apply Hn.
  apply list_elem_of_In, in_map_iff in Hin as (m' & <- & [H _]%filter_In). by apply list_elem_of_In, in_map.
Qed.

(** The whole of a run: the connection it leaves and what it returns. *)
Definition rows_of (d : db) : list (string * string) := match tracking d with Some rows => rows | None => [] end.
Lemma applied_rows d : applied d = map fst (rows_of d).
Proof. unfold applied, rows_of. by destruct (tracking d). Qed.
Lemma apply_exact clock dir ms c :
  discover_migrations dir = Ok ms → NoDup (map version ms) → Forall plain ms → clock_ok clock → idle c →
  let '(x, vs, ok) := migrate (pending (applied (committed c)) ms) (schema (committed c)) in
  let '(c', r) := apply_migrations clock dir c in
  c' = Conn (Db (Some (rows_of (committed c) ++ map (fun v => (v, clock v)) vs)) x) None ∧
  applied (committed c') = applied (committed c) ++ vs ∧ (if ok then r = Ok vs else is_ok r = false).
Proof.
  destruct c as [[tr x] w]. unfold idle. simpl. intros Hd Hnd Hp Hclk ->.
  assert (Forall (fun m => plain m ∧ quote_free (version m) = true) ms) as Hp' by (apply Forall_and; split; [done|by eapply versions_quote_free]).
  unfold apply_migrations, applied_versions, ensure_tracking_table, visible. rewrite Hd. simpl.
  set (rows := rows_of (Db tr x)).
  replace (match tr with Some _ => _ | None => _ end) with (Db (Some rows) x) by (by destruct tr).
  rewrite !applied_rows. fold rows. change (rows_of (Db (Some rows) x)) with rows.
  pose proof (apply_loop_refines clock (map fst rows) ms (Conn (Db (Some rows) x) None) rows
    (pending_nodup _ _ Hnd) Hclk Hp' eq_refl eq_refl (pending_fresh _ _)) as H.
  simpl in H. destruct (migrate _ x) as [[z vs] b]. destruct (apply_loop _ _ _ _) as [c' r]. destruct H as [-> Hr].
  split_and!; [done| |done]. simpl. unfold applied; simpl. rewrite map_app, map_map. simpl. by rewrite map_id.
Qed.

(** C35. The runner refines the sequence of the pending files' effects.  On a directory whose
    versions are distinct and whose files end their last statement (so that the text the runner puts after
    a file is read for itself) and hold no transaction statement, [apply_migrations] ends
    with the tables the pending files produce in name order up to the first one that fails, with exactly
    the versions of those files recorded and nothing of the failing one; it returns their versions when none fails and raises otherwise. *)
Theorem apply_refines clock dir ms c :
  discover_migrations dir = Ok ms → NoDup (map version ms) → Forall plain ms → clock_ok clock → idle c →
  let '(x, vs, ok) := migrate (pending (applied (committed c)) ms) (schema (committed c)) in
  let '(c', r) := apply_migrations clock dir c in
  idle c' ∧ schema (committed c') = x ∧ applied (committed c') = applied (committed c) ++ vs ∧
  (if ok then r = Ok vs else is_ok r = false).
Proof.
  intros Hd Hnd Hp Hclk Hi. pose proof (apply_exact clock dir ms c Hd Hnd Hp Hclk Hi) as H.
  destruct (migrate _ _) as [[z vs] b], (apply_migrations clock dir c) as [c' r].
  destruct H as (Hc & Ha & Hr). by subst c'.
Qed.

Lemma migrate_all ms x x' vs : migrate ms x = (x', vs, true) → vs = map version ms.
Proof.
  revert x vs. induction ms as [|m ms IH]; intros x vs; simpl; [by intros [= _ <-]|].
  destruct (effect_of m x) as [y|]; [|done]. destruct (migrate ms y) as [[z vs'] b] eqn:E.
  intros [= -> <- ->]. f_equal. by eapply IH.
Qed.
(** A run that stopped after [ran] has the state from which the rest continues. *)
Lemma migrate_resume ran rest rest' x y vs b :
  migrate (ran ++ rest) x = (y, vs, b) → vs = map version ran →
  migrate (ran ++ rest') x = let '(z, ws, b') := migrate rest' y in (z, vs ++ ws, b').
Proof.
  revert x vs. induction ran as [|m ran IH]; intros x vs H Hvs; simpl in *; subst vs.
  { assert (y = x) as ->; [|by destruct (migrate rest' x) as [[??]?]].
    destruct rest as [|m rest]; simpl in H; [by injection H|].
    destruct (effect_of m x) as [u|]; [|by injection H]. by destruct (migrate rest u) as [[??]?]. }
  destruct (effect_of m x) as [u|]; [|done]. destruct (migrate (ran ++ rest) u) as [[z' ws'] b'] eqn:E.
  injection H as -> -> ->. rewrite (IH u _ E eq_refl). by destruct (migrate rest' y) as [[??]?].
Qed.

Lemma pending_app_versions already ran rest :
  (∀ m, m ∈ ran ++ rest → version m ∉ already) → NoDup (map version (ran ++ rest)) →
  pending (already ++ map version ran) (ran ++ rest) = rest.
Proof.
  intros Hf Hnd. unfold pending. rewrite List.filter_app.
  replace (List.filter _ ran) with (@nil migration).
  - simpl. assert (∀ m, m ∈ rest → version m ∉ already ++ map version ran) as H.
    { intros m Hm [Hin|Hin]%elem_of_app; [by apply (Hf m); [apply elem_of_app; right|]|].
      rewrite map_app in Hnd. apply NoDup_app in Hnd as (_ & Hd & _). apply (Hd _ Hin).
      by apply list_elem_of_In, in_map, list_elem_of_In. }
    clear Hf Hnd. induction rest as [|m rest IH]; [done|]. simpl.
    rewrite bool_decide_false by (apply H; by left). simpl. f_equal. apply IH. intros m' Hm'. apply H. by right.
  - assert (∀ m, m ∈ ran → version m ∈ already ++ map version ran) as H.
    { intros m Hm. apply elem_of_app. right. by apply list_elem_of_In, in_map, list_elem_of_In. }
    revert H. generalize (already ++ map version ran) as l. intros l. clear. induction ran as [|m ran IH]; [done|]. intros H.
    simpl. rewrite bool_decide_true by (apply H; by left). simpl. apply IH. intros m' Hm'. apply H. by right.
Qed.
Lemma pending_pending a b ms : pending (a ++ b) ms = pending (a ++ b) (pending a ms).
Proof.
  induction ms as [|m ms IH]; [done|]. simpl. destruct (bool_decide (version m ∈ a)) eqn:E; simpl.
  - apply bool_decide_eq_true in E. by rewrite bool_decide_true by (apply elem_of_app; by left).
  - by rewrite IH.
Qed.

(** A failed migration can be repaired and the run repeated.  When a run records some of the
    pending files and stops, and the files still pending are then changed in any way, running again
    gives the same tables, the same recorded versions and the same success or failure as a single run over the changed
    directory from the start. *)
Theorem migrations_resume clock clock' dir dir' ms ms' ran rest rest' c :
  discover_migrations dir = Ok ms → NoDup (map version ms) → Forall plain ms →
  discover_migrations dir' = Ok ms' → NoDup (map version ms') → Forall plain ms' →
  clock_ok clock → clock_ok clock' → idle c → pending (applied (committed c)) ms = ran ++ rest → pending (applied (committed c)) ms' = ran ++ rest' →
  applied (committed (fst (apply_migrations clock dir c))) = applied (committed c) ++ map version ran →
  let '(c2, r2) := apply_migrations clock' dir' (fst (apply_migrations clock dir c)) in
  let '(c1, r1) := apply_migrations clock' dir' c in
  schema (committed c2) = schema (committed c1) ∧ applied (committed c2) = applied (committed c1) ∧ is_ok r2 = is_ok r1.
Proof.
  intros Hd Hnd Hp Hd' Hnd' Hp' Hk Hk' Hi Hran Hran' Hv.
  pose proof (apply_exact clock dir ms c Hd Hnd Hp Hk Hi) as H. rewrite Hran in H.
  destruct (migrate (ran ++ rest) (schema (committed c))) as [[x vs] ok] eqn:E.
  destruct (apply_migrations clock dir c) as [c' r']. simpl in *. destruct H as (Hc' & Ha & _).
  assert (idle c' ∧ schema (committed c') = x) as [Hi' Hs] by (by subst c'). clear Hc'.
  rewrite Ha in Hv. apply app_inv_head in Hv.
  pose proof (apply_exact clock' dir' ms' c' Hd' Hnd' Hp' Hk' Hi') as H2.
  pose proof (apply_exact clock' dir' ms' c Hd' Hnd' Hp' Hk' Hi) as H1.
  rewrite Hran', (migrate_resume _ _ rest' _ _ _ _ E Hv) in H1.
  rewrite Ha, Hv, pending_pending, Hran', pending_app_versions, Hs in H2.
  - destruct (migrate rest' x) as [[z ws] b]. destruct (apply_migrations clock' dir' c') as [c2 r2].
    destruct (apply_migrations clock' dir' c) as [c1 r1]. destruct H2 as (-> & -> & H2), H1 as (-> & -> & H1). simpl.
    subst vs. rewrite app_assoc. destruct b; [by rewrite H1, H2|by rewrite H1, H2].
  - rewrite <- Hran'. apply pending_fresh.
  - rewrite <- Hran'. by apply pending_nodup.
Qed.

(** A successful run reaches the head and stays there: afterwards [migrations_at_head] answers
    true, and running again applies nothing and changes nothing. *)
Theorem migrations_idempotent clock clock' dir ms c c' vs :
  discover_migrations dir = Ok ms → NoDup (map version ms) → Forall plain ms → clock_ok clock → idle c →
  apply_migrations clock dir c = (c', Ok vs) →
  migrations_at_head dir c' = (c', Ok true) ∧ apply_migrations clock' dir c' = (c', Ok []).
Proof.
  intros Hd Hnd Hp Hk Hi Hr. pose proof (apply_exact clock dir ms c Hd Hnd Hp Hk Hi) as H.
  rewrite Hr in H. destruct (migrate _ _) as [[z ws] b] eqn:E. destruct H as (Hc & Ha & Hb).
  destruct b; [|done]. injection Hb as ->. rewrite (migrate_all _ _ _ _ E) in Ha.
  set (rows := rows_of (committed c) ++ _) in Hc. clearbody rows. subst c'. rename z into x.
  assert (∀ m, m ∈ ms → version m ∈ map fst rows) as Hall.
  { intros m Hm. change (map fst rows) with (applied (Db (Some rows) x)). simpl in Ha. rewrite Ha. apply elem_of_app.
    destruct (decide (version m ∈ applied (committed c))) as [?|Hn]; [by left|right].
    apply list_elem_of_In, in_map, filter_In. split; [by apply list_elem_of_In|]. by rewrite bool_decide_false. }
  clear - Hall Hd. unfold migrations_at_head, apply_migrations. rewrite Hd. unfold applied_versions. simpl. split.
  - f_equal. f_equal. apply forallb_forall. intros m Hm%list_elem_of_In. by apply bool_decide_true, Hall.
  - unfold visible. simpl. clear Hd. revert Hall. unfold applied. simpl. generalize (map fst rows) as l. intros l.
    induction ms as [|m ms IH]; [done|]. intros H. simpl. rewrite bool_decide_true by (apply H; by left).
    apply IH. intros m' Hm'. apply H. by right.
Qed.

End Runner.
Arguments db : clear implicits.
Arguments conn : clear implicits.

(** ** Examples *)

(** A reader of SQL text: where it is in a statement, and what it has read.  Strings, quoted names and
    comments are skipped over; a semicolon outside of them ends a statement. *)
Inductive mode := Normal | Dash | Slash | Quoted (q : ascii) | Line | Block | Star.
Record lex := Lex { at_ : mode; cur : list ascii; out : list (list ascii) }.
Definition lex_normal (cur : list ascii) (out : list (list ascii)) (c : ascii) : lex :=
  if bool_decide (c = ";"%char) then Lex Normal [] (out ++ [cur])
  else if bool_decide (c ∈ ["'"; Crypto.char 34; "`"]%char) then Lex (Quoted c) (cur ++ [c]) out
  else if bool_decide (c = "["%char) then Lex (Quoted "]") (cur ++ [c]) out
  else if bool_decide (c = "-"%char) then Lex Dash cur out
  else if bool_decide (c = "/"%char) then Lex Slash cur out
  else if Text.isspace c && bool_decide (cur = []) then Lex Normal cur out
  else Lex Normal (cur ++ [c]) out.
Definition lex_char (x : lex) (c : ascii) : lex :=
  let '(Lex m cur out) := x in
  match m with
  | Normal => lex_normal cur out c
  | Dash => if bool_decide (c = "-"%char) then Lex Line cur out else lex_normal (cur ++ ["-"%char]) out c
  | Slash => if bool_decide (c = "*"%char) then Lex Block cur out else lex_normal (cur ++ ["/"%char]) out c
  | Quoted q => Lex (if bool_decide (c = q) then Normal else Quoted q) (cur ++ [c]) out
  | Line => Lex (if bool_decide (c = newline) then Normal else Line) cur out
  | Block => Lex (if bool_decide (c = "*"%char) then Star else Block) cur out
  | Star => Lex (if bool_decide (c = "/"%char) then Normal else if bool_decide (c = "*"%char) then Star else Block) cur out
  end.
Definition lexed (l : list ascii) : lex := fold_left lex_char l (Lex Normal [] []).
(** What the text ends in the middle of. *)
Definition last_piece (x : lex) : list ascii :=
  cur x ++ match at_ x with Dash => ["-"%char] | Slash => ["/"%char] | _ => [] end.
Definition demo_closed (sql : string) : bool :=
  let x := lexed (Crypto.chars sql) in bool_decide (cur x = []) && match at_ x with Normal => true | _ => false end.
Definition demo_statement (s : string) : statement :=
  let other := if bool_decide (Text.lower s = "begin") then Begin
               else if bool_decide (Text.lower s ∈ ["commit"; "end"]) then Commit
               else if bool_decide (Text.lower s = "rollback") then Rollback else Other s in
  match Text.split "'"%char s with
  | [p; v; sep; a; e] =>
      if bool_decide (p = "INSERT INTO schema_migrations (version, applied_at) VALUES (" ∧ sep = ", " ∧ e = ")") then Track v a else other
  | _ => other
  end.
Definition demo_statements (sql : string) : list statement :=
  let x := lexed (Crypto.chars sql) in
  map (fun l => demo_statement (Crypto.of_chars l)) (List.filter (fun l => negb (bool_decide (l = []))) (out x ++ [last_piece x])).

Lemma lex_out l m c o o' : fold_left lex_char l (Lex m c (o ++ o')) =
  let x := fold_left lex_char l (Lex m c o') in Lex (at_ x) (cur x) (o ++ out x).
Proof.
  revert m c o'. induction l as [|a l IH]; intros m c o'; [done|]. cbn [fold_left].
  assert (∀ c, lex_normal c (o ++ o') a = let x := lex_normal c o' a in Lex (at_ x) (cur x) (o ++ out x)) as Hn.
  { intros c'. unfold lex_normal. rewrite <- app_assoc. repeat case_match; done. }
  assert (lex_char (Lex m c (o ++ o')) a = let x := lex_char (Lex m c o') a in Lex (at_ x) (cur x) (o ++ out x)) as ->.
  { destruct m; cbn [lex_char]; rewrite ?Hn; repeat case_match; done. }
  cbn zeta. rewrite IH. by destruct (lex_char (Lex m c o') a).
Qed.
Lemma lex_quoted l c o : Text.mem "'"%char (Crypto.of_chars l) = false →
  fold_left lex_char l (Lex (Quoted "'") c o) = Lex (Quoted "'") (c ++ l) o.
Proof.
  revert c. induction l as [|a l IH]; intros c; [by rewrite app_nil_r|]. cbn [Crypto.of_chars Text.mem].
  intros [Ha Hl]%orb_false_iff. cbn [fold_left lex_char]. rewrite Ha, IH by done. by rewrite <- app_assoc.
Qed.

Lemma demo_reads : reads_sql demo_statements demo_closed.
Proof.
  split.
  - intros a b H. unfold demo_closed in H. unfold demo_statements. rewrite Text.chars_app. unfold lexed. rewrite fold_left_app.
    fold (lexed (Crypto.chars a)). destruct (lexed (Crypto.chars a)) as [m c o]. cbn [cur at_ out] in H |- *.
    apply andb_true_iff in H as [->%bool_decide_eq_true Hm]. destruct m; try done.
    pose proof (lex_out (Crypto.chars b) Normal [] o []) as E. rewrite app_nil_r in E. rewrite E. cbn zeta. cbn [out]. unfold last_piece. cbn [cur at_]. rewrite app_nil_r.
    rewrite <- app_assoc, List.filter_app, map_app. f_equal. rewrite List.filter_app. cbn. by rewrite app_nil_r.
  - vm_compute. done.
  - intros v a Hv Ha. unfold quote_free in *. apply negb_true_iff in Hv, Ha. unfold demo_statements.
    set (P := "INSERT INTO schema_migrations (version, applied_at) VALUES (").
    set (row := "INSERT INTO schema_migrations (version, applied_at) VALUES ('" +:+ v +:+ "', '" +:+ a +:+ "')").
    assert (lexed (Crypto.chars (insert_text v a +:+ nl +:+ "COMMIT;")) = Lex Normal [] [Crypto.chars row; Crypto.chars "COMMIT"]) as ->.
    { unfold lexed, insert_text. rewrite !Text.chars_app, !fold_left_app.
      set (p := Crypto.chars "INSERT INTO schema_migrations (version, applied_at) VALUES ('").
      assert (fold_left lex_char p (Lex Normal [] []) = Lex (Quoted "'") p []) as -> by (vm_compute; reflexivity).
      rewrite lex_quoted by (by rewrite Crypto.of_chars_chars). set (c := p ++ Crypto.chars v).
      assert (fold_left lex_char (Crypto.chars "', '") (Lex (Quoted "'") c []) =
              Lex (Quoted "'") ((((c ++ ["'"%char]) ++ [","%char]) ++ [" "%char]) ++ ["'"%char]) []) as -> by reflexivity.
      rewrite lex_quoted by (by rewrite Crypto.of_chars_chars). set (d := _ ++ Crypto.chars a).
      transitivity (Lex Normal [] [(d ++ ["'"%char]) ++ [")"%char]; Crypto.chars "COMMIT"]); [reflexivity|].
      unfold d, c, row. rewrite !Text.chars_app. fold p. by rewrite <- !app_assoc. }
    cbn [out last_piece cur at_ app].
    assert (List.filter (fun l => negb (bool_decide (l = []))) [Crypto.chars row; Crypto.chars "COMMIT"; []] = [Crypto.chars row; Crypto.chars "COMMIT"]) as ->
      by reflexivity.
    cbn [map]. rewrite Crypto.of_chars_chars. unfold demo_statement at 1.
    change row with (P +:+ String "'" (v +:+ String "'" (", " +:+ String "'" (a +:+ String "'" ")")))).
    rewrite (Text.split_app _ P) by reflexivity. rewrite (Text.split_app _ v), (Text.split_app _ ", "), (Text.split_app _ a) by done.
    rewrite (Text.split_single _ ")") by done. by rewrite bool_decide_true by done.
Qed.
Definition demo_exec (s : string) (x : list string) : option (list string) :=
  if bool_decide (s = "bad") then None else Some (x ++ [s]).
Definition demo_conn : conn (list string) := Conn (Db None []) None.
Definition demo_apply (dir : directory) := apply_migrations demo_statements demo_exec (fun _ => "t") dir.
Definition demo_dir (second : string) : directory := [("README", ""); ("0002_b.sql", second); ("0001_a.sql", "a;")].
Definition demo_ms (second : string) : list migration := [Migration "0001" "0001_a.sql" "a;"; Migration "0002" "0002_b.sql" second].

Ltac demo_side :=
  lazymatch goal with
  | |- Forall _ _ => repeat (constructor; [split; vm_compute; reflexivity|]); constructor
  | |- NoDup _ => apply (bool_decide_unpack _); vm_compute; exact I
  | |- clock_ok _ => intros ?; reflexivity
  | |- reads_sql _ _ => exact demo_reads
  | |- _ => vm_compute; reflexivity
  end.

Lemma apply_refines_witness :
  let '(c, r) := demo_apply (demo_dir "b; bad;") demo_conn in
  schema (committed c) = ["a"] ∧ applied (committed c) = ["0001"] ∧ is_ok r = false.
Proof.
  pose proof (apply_refines demo_statements demo_exec demo_closed demo_reads (fun _ => "t") (demo_dir "b; bad;") (demo_ms "b; bad;") demo_conn
    ltac:(demo_side) ltac:(demo_side) ltac:(demo_side) ltac:(demo_side) ltac:(demo_side)) as H.
  unfold demo_apply. destruct (apply_migrations _ _ _ _ demo_conn) as [c r]. vm_compute in H.
  destruct H as (_ & H1 & H2 & H3). exact (conj H1 (conj H2 H3)).
Defined.

Lemma migrations_resume_witness :
  let c2 := fst (demo_apply (demo_dir "b; c;") (fst (demo_apply (demo_dir "b; bad;") demo_conn))) in
  schema (committed c2) = schema (committed (fst (demo_apply (demo_dir "b; c;") demo_conn))) ∧ schema (committed c2) = ["a"; "b"; "c"].
Proof.
  pose proof (migrations_resume demo_statements demo_exec demo_closed demo_reads (fun _ => "t") (fun _ => "t") (demo_dir "b; bad;") (demo_dir "b; c;")
    (demo_ms "b; bad;") (demo_ms "b; c;") (take 1 (demo_ms "")) (drop 1 (demo_ms "b; bad;")) (drop 1 (demo_ms "b; c;")) demo_conn
    ltac:(demo_side) ltac:(demo_side) ltac:(demo_side) ltac:(demo_side) ltac:(demo_side) ltac:(demo_side) ltac:(demo_side)
    ltac:(demo_side) ltac:(demo_side) ltac:(demo_side) ltac:(demo_side) ltac:(demo_side)) as H.
  split; [|vm_compute; reflexivity]. unfold demo_apply.
  destruct (apply_migrations _ _ _ (demo_dir "b; c;") (fst _)) as [c2 r2], (apply_migrations _ _ _ (demo_dir "b; c;") demo_conn) as [c1 r1].
  destruct H as (H & _). exact H.
Defined.

Lemma migrations_idempotent_witness :
  let c := fst (demo_apply (demo_dir "b;") demo_conn) in
  migrations_at_head (demo_dir "b;") c = (c, Ok true) ∧ demo_apply (demo_dir "b;") c = (c, Ok []).
Proof.
  apply (migrations_idempotent demo_statements demo_exec demo_closed demo_reads (fun _ => "t") (fun _ => "t") (demo_dir "b;") (demo_ms "b;") demo_conn _ ["0001"; "0002"]);
    demo_side.
Defined.

(** The guard looks at words: a keyword inside an identifier passes, in any case it does not. *)
Example guard_words :
  manages_transaction "CREATE TABLE a; Commit;" = true ∧ manages_transaction "begin" = true ∧
  manages_transaction "beginning TEXT, recommit TEXT, x_rollback TEXT" = false ∧ manages_transaction "-- rollback plan" = true.
Proof. vm_compute. done. Qed.
Example file_names :
  filename_version "0001_initial.sql" = Some "0001" ∧ filename_version "001_initial.sql" = None ∧ filename_version "0001_.sql" = None.
Proof. vm_compute. done. Qed.

(** Two files with one version: the first run raises on the second file, and the next one succeeds
    without having applied it, at head. *)
Theorem duplicate_version_skipped :
  let dir := [("0001_a.sql", "a;"); ("0001_b.sql", "b;")] in
  let '(c1, r1) := demo_apply dir demo_conn in
  let '(c2, r2) := demo_apply dir c1 in
  r1 = Err Integrity ∧ r2 = Ok [] ∧ schema (committed c2) = ["a"] ∧ snd (migrations_at_head dir c2) = Ok true.
Proof. vm_compute. done. Qed.

(** [END], SQLite's other name for [COMMIT], passes the guard: what precedes it stays when a later statement
    of the file fails, and the version is not recorded. *)
Theorem end_escapes_guard :
  let '(c, r) := demo_apply [("0001_a.sql", "a; END; bad;")] demo_conn in
  r = Err Operational ∧ schema (committed c) = ["a"] ∧ applied (committed c) = [].
Proof. vm_compute. done. Qed.

(** A file that leaves a comment open hides the bookkeeping row and the [COMMIT]: the run reports the file as applied,
    the row is missing, and what the file did is in a transaction that nobody commits; when another file follows, its
    script first commits it. *)
Theorem open_comment_unrecorded :
  let '(c1, r1) := demo_apply [("0001_a.sql", "a; /* note")] demo_conn in
  let '(c2, r2) := demo_apply [("0001_a.sql", "a; /* note"); ("0002_b.sql", "b;")] demo_conn in
  r1 = Ok ["0001"] ∧ schema (committed c1) = [] ∧ working c1 ≠ None ∧ applied (committed c1) = [] ∧
  r2 = Ok ["0001"; "0002"] ∧ schema (committed c2) = ["a"; "b"] ∧ applied (committed c2) = ["0002"].
Proof. vm_compute. done. Qed.

End Migrations.
