(* ===== verification/Backup.v ===== *)
(** * Backup and restore ([engine/backup.py], and its commands in [engine/cli.py])

    [Module Disk] is the part of the file system the two commands see: regular files with their
    contents, and directories.  [Module Backup] translates [create_backup], [_safe_members],
    [restore_backup] and the two commands.  A gzipped tar is a value of its own among file contents;
    SQLite's online backup and the JSON codec are parameters.  A restored backup gives back the
    database copy and the configuration it was made from, and nothing on disk changes
    unless the database's checksum matched; that the configuration's is only looked at afterwards is exhibited. *)

From Stdlib Require Import Ascii.
From S2P Require Import Prelude Crypto Text Sql Downloads Gguf Models.

Open Scope Z_scope.

Module Disk.

Abbreviation bytes := (list Z).
Record member := Member { m_name : string; m_isfile : bool; m_data : bytes }.
Inductive content := Raw (b : bytes) | Tar_gz (ms : list member).
#[export] Instance member_eq_dec : EqDecision member.
Proof. solve_decision. Defined.
#[export] Instance content_eq_dec : EqDecision content.
Proof. solve_decision. Defined.

Inductive error :=
| FileNotFound | FileExists
| NotADirectory | IsADirectory
| Value (what : string)
| ReadError        (* tarfile.ReadError *)
| DatabaseError    (* sqlite3.DatabaseError *)
| NoAttribute      (* AttributeError *).

Record t := Mk { files : gmap string content; dirs : gset string }.

Definition is_file (p : string) (d : t) : bool := bool_decide (is_Some (files d !! p)).
Definition is_dir (p : string) (d : t) : bool := bool_decide (p ∈ dirs d).
Definition exists_ (p : string) (d : t) : bool := is_file p d || is_dir p d.

(** The directories above a path, from the texts before each of its slashes. *)
Fixpoint prefixes (before : list ascii) (s : list ascii) : list string :=
  match s with
  | [] => []
  | c :: s =>
      let rest := prefixes (before ++ [c]) s in
      if bool_decide (c = "/"%char) then (if Nat.eqb (length before) 0 then "/" else Crypto.of_chars before) :: rest else rest
  end.
Definition ancestors (p : string) : list string := prefixes [] (Crypto.chars p).
(** [path.parent] *)
Definition parent (p : string) : string := default "." (last (ancestors p)).

(** [mkdir(parents=True, exist_ok=True)] raises when a file is in the way. *)
Definition mkdir (p : string) (d : t) : result error t :=
  if existsb (fun a => is_file a d) (ancestors p) then Err NotADirectory
  else if is_file p d then Err FileExists
  else Ok (Mk (files d) (list_to_set (p :: ancestors p) ∪ dirs d)).
(** Opening for writing truncates a file and refuses a directory. *)
Definition write (p : string) (c : content) (d : t) : result error t :=
  if is_dir p d then Err IsADirectory else Ok (Mk (<[p := c]> (files d)) (dirs d)).
(** A tar read as bytes: [encode] stands for its bytes. *)
Definition read (encode : list member → bytes) (p : string) (d : t) : option bytes :=
  match files d !! p with
  | Some (Raw b) => Some b
  | Some (Tar_gz ms) => Some (encode ms)
  | None => None
  end.

(** [path.suffix] *)
Definition suffix (p : string) : string :=
  let n := Paths.name p in
  match Paths.rfind_dot (Crypto.chars n) 0 None with
  | Some i => if (0 <? i)%nat && (i <? String.length n - 1)%nat then Crypto.of_chars (drop i (Crypto.chars n)) else ""
  | None => ""
  end.

End Disk.

Module Backup.
Import Disk.

Definition DB_ARCNAME : string := "inference_engine.db".
Definition CONFIG_ARCNAME : string := "config.toml".
Definition MANIFEST_ARCNAME : string := "manifest.json".

(** The two settings used. *)
Record Settings := Settings_ { db_path : string; config_file : option string }.

(** [_sha256]: hashing in chunks hashes the whole. *)
Definition sha256_of (b : bytes) : string := Crypto.hex (Crypto.sha256 b).

Section Codec.
Context (encode : list member → bytes).
(** [src.backup(out)]: the bytes of a consistent copy; [None] is an [sqlite3] error. *)
Context (consistent_copy : string → Disk.t → option bytes).
(** [json.dumps(_, indent=2)] and [json.loads] on files. *)
Context (json_dump : Json.t → bytes) (json_loads : bytes → option Json.t).
Context (engine_version : string).

(** The manifest *)
Definition manifest (created_at db_sha : string) (config_sha : option string) : Json.t :=
  Json.JObj ([("engine_version", Json.JStr engine_version); ("created_at", Json.JStr created_at);
              ("db_filename", Json.JStr DB_ARCNAME); ("db_sha256", Json.JStr db_sha);
              ("config_included", Json.JBool (bool_decide (is_Some config_sha)));
              ("note", Json.JStr "model files are not included; back them up separately")]
             ++ match config_sha with Some s => [("config_sha256", Json.JStr s)] | None => [] end).

Definition archive_path (out ts : string) (d : Disk.t) : result error (string * Disk.t) :=
  if is_dir out d || negb (bool_decide (suffix out = ".gz" ∨ suffix out = ".tgz")) then
    match mkdir out d with
    | Ok d => Ok (Paths.join out ("inference-engine-backup-" +:+ ts +:+ ".tar.gz"), d)
    | Err e => Err e
    end
  else match mkdir (parent out) d with Ok d => Ok (out, d) | Err e => Err e end.

Definition config_bytes (st : Settings) (d : Disk.t) : option bytes :=
  match config_file st with
  | Some p => if is_file p d then read encode p d else None
  | None => None
  end.
Definition members (created_at : string) (db : bytes) (config : option bytes) : list member :=
  [Member MANIFEST_ARCNAME true (json_dump (manifest created_at (sha256_of db) (sha256_of <$> config)));
   Member DB_ARCNAME true db]
  ++ match config with Some c => [Member CONFIG_ARCNAME true c] | None => [] end.

(** [create_backup] *)
Definition create_backup (st : Settings) (out ts created_at : string) (d : Disk.t) : Disk.t * result error string :=
  if negb (is_file (db_path st) d) then (d, Err FileNotFound)
  else match archive_path out ts d with
       | Err e => (d, Err e)
       | Ok (archive, d) =>
           match consistent_copy (db_path st) d with
           | None => (d, Err DatabaseError)
           | Some db =>
               match write archive (Tar_gz (members created_at db (config_bytes st d))) d with
               | Ok d => (d, Ok archive)
               | Err e => (d, Err e)
               end
           end
       end.

(** [_safe_members] *)
Fixpoint safe_members (ms : list member) : result error (list member) :=
  match ms with
  | [] => Ok []
  | m :: ms =>
      if negb (bool_decide (m_name m ∈ [MANIFEST_ARCNAME; DB_ARCNAME; CONFIG_ARCNAME])) || negb (m_isfile m)
      then Err (Value "unexpected archive member")
      else match safe_members ms with Ok l => Ok (m :: l) | Err e => Err e end
  end.
(** [extractall] into the empty temporary directory: a later member replaces an earlier one. *)
Definition extract (ms : list member) : gmap string bytes :=
  fold_left (fun tmp m => <[m_name m := m_data m]> tmp) ms ∅.

(** [manifest.get(key)] compared with a digest: [None] is the [AttributeError] of a manifest that is no object. *)
Definition digest_matches (m : Json.t) (key : string) (b : bytes) : option bool :=
  (fun v => match v with Some (Json.JStr s) => bool_decide (s = sha256_of b) | _ => false end) <$> Json.get key m.

Record RestoreResult := Result_ { r_db_path : string; r_config_path : option string; r_manifest : Json.t }.

Definition config_target (st : Settings) (config_out : option string) : string :=
  match config_out with
  | Some p => p
  | None => match config_file st with
            | Some p => p
            | None => Paths.join (parent (db_path st)) CONFIG_ARCNAME
            end
  end.

(** [parent.mkdir(...)] and [write_bytes]. *)
Definition put (p : string) (b : bytes) (d : Disk.t) : Disk.t * result error unit :=
  match mkdir (parent p) d with
  | Err e => (d, Err e)
  | Ok d => match write p (Raw b) d with Ok d => (d, Ok tt) | Err e => (d, Err e) end
  end.

(** The checks of [restore_backup] before its first write: the manifest, the database and what else was extracted. *)
Definition opened (archive : string) (d : Disk.t) : result error (Json.t * bytes * gmap string bytes) :=
  match files d !! archive with
  | None => Err FileNotFound
  | Some (Raw _) => Err ReadError
  | Some (Tar_gz ms) =>
      match safe_members ms with
      | Err e => Err e
      | Ok ms =>
          let tmp := extract ms in
          match tmp !! MANIFEST_ARCNAME with
          | None => Err (Value "backup is missing manifest.json")
          | Some mb =>
              match json_loads mb with
              | None => Err (Value "JSONDecodeError")
              | Some m =>
                  match tmp !! DB_ARCNAME with
                  | None => Err (Value "backup is missing the database file")
                  | Some db =>
                      match digest_matches m "db_sha256" db with
                      | None => Err NoAttribute
                      | Some false => Err (Value "database checksum mismatch; backup is corrupt")
                      | Some true => Ok (m, db, tmp)
                      end
                  end
              end
          end
      end
  end.

(** [restore_backup] *)
Definition restore_backup (archive : string) (st : Settings) (force : bool) (config_out : option string) (d : Disk.t)
  : Disk.t * result error RestoreResult :=
  if negb (is_file archive d) then (d, Err FileNotFound)
  else if exists_ (db_path st) d && negb force then (d, Err FileExists)
  else match opened archive d with
       | Err e => (d, Err e)
       | Ok (m, db, tmp) =>
           match put (db_path st) db d with
           | (d, Err e) => (d, Err e)
           | (d, Ok _) =>
               match tmp !! CONFIG_ARCNAME with
               | None => (d, Ok (Result_ (db_path st) None m))
               | Some c =>
                   match digest_matches m "config_sha256" c with
                   | None => (d, Err NoAttribute)
                   | Some false => (d, Err (Value "config checksum mismatch; backup is corrupt"))
                   | Some true =>
                       let target := config_target st config_out in
                       match put target c d with
                       | (d, Err e) => (d, Err e)
                       | (d, Ok _) => (d, Ok (Result_ (db_path st) (Some target) m))
                       end
                   end
               end
           end
       end.

(** [_cmd_backup] and [_cmd_restore]: the exit code, or the exception the command does not catch. *)
Definition cmd_backup (st : Settings) (out ts created_at : string) (d : Disk.t) : Disk.t * result error Z :=
  match create_backup st out ts created_at d with
  | (d, Ok _) => (d, Ok 0)
  | (d, Err FileNotFound) => (d, Ok 1)
  | (d, Err e) => (d, Err e)
  end.
Definition cmd_restore (st : Settings) (archive : string) (force : bool) (d : Disk.t) : Disk.t * result error Z :=
  match restore_backup archive st force None d with
  | (d, Ok r) => match Json.get "engine_version" (r_manifest r) with
                 | Some _ => (d, Ok 0)
                 | None => (d, Err NoAttribute)
                 end
  | (d, Err (FileNotFound | FileExists | Value _)) => (d, Ok 1)
  | (d, Err e) => (d, Err e)
  end.

(** ** Proofs *)

Lemma mkdir_files p d d' : mkdir p d = Ok d' → files d' = files d.
Proof. unfold mkdir. destruct (existsb _ _); [done|]. destruct (is_file p d); [done|]. by intros [= <-]. Qed.
Lemma put_files p b d d' r :
  put p b d = (d', r) → files d' = match r with Ok _ => <[p := Raw b]> (files d) | Err _ => files d end.
Proof.
  unfold put. destruct (mkdir (parent p) d) as [d0|e] eqn:E; [|by intros [= <- <-]].
  apply mkdir_files in E. unfold write. destruct (is_dir p d0); intros [= <- <-]; simpl; by rewrite E.
Qed.
Lemma archive_path_files out ts d a d' : archive_path out ts d = Ok (a, d') → files d' = files d.
Proof.
  unfold archive_path. destruct (_ || _); [destruct (mkdir out d) eqn:E|destruct (mkdir (parent out) d) eqn:E];
    try done; intros [= _ <-]; by apply mkdir_files in E.
Qed.
Lemma opened_digest archive d m db tmp : opened archive d = Ok (m, db, tmp) → digest_matches m "db_sha256" db = Some true.
Proof.
  unfold opened. destruct (files d !! archive) as [[|ms]|]; [done| |done].
  destruct (safe_members ms) as [l|]; [|done]. destruct (extract l !! MANIFEST_ARCNAME) as [mb|]; [|done].
  destruct (json_loads mb) as [m'|]; [|done]. destruct (extract l !! DB_ARCNAME) as [db'|]; [|done].
  destruct (digest_matches m' "db_sha256" db') as [[]|] eqn:E; [|done..]. intros [= <- <- <-]. exact E.
Qed.

(** A restore touches nothing it has not checked, and nothing else.  Whatever the archive holds and
    however the restore ends, a file that differs afterwards is the database or the configuration target: the
    database only when it did not exist or [force] was given, with contents whose digest is the manifest's, and the configuration with contents whose
    digest is the manifest's. *)
Theorem restore_checked archive st force config_out d d' r p :
  restore_backup archive st force config_out d = (d', r) → files d' !! p ≠ files d !! p →
  (force = true ∨ exists_ (db_path st) d = false) ∧
  ∃ m db tmp, opened archive d = Ok (m, db, tmp) ∧
    (p = db_path st ∧ files d' !! p = Some (Raw db) ∧ digest_matches m "db_sha256" db = Some true ∨
     p = config_target st config_out ∧ ∃ c, tmp !! CONFIG_ARCNAME = Some c ∧ files d' !! p = Some (Raw c) ∧
       digest_matches m "config_sha256" c = Some true).
Proof.
  intros Hr Hne. unfold restore_backup in Hr. destruct (negb _); [by injection Hr as <- <-|].
  destruct (exists_ (db_path st) d && negb force) eqn:Ex; [by injection Hr as <- <-|].
  destruct (opened archive d) as [[[m db] tmp]|e] eqn:Eo; [|by injection Hr as <- <-].
  split; [destruct force, (exists_ (db_path st) d); auto; done|].
  exists m, db, tmp. split; [done|]. pose proof (opened_digest _ _ _ _ _ Eo) as Hd.
  destruct (put (db_path st) db d) as [d1 [u|e]] eqn:E1; apply put_files in E1; [|injection Hr as <- <-; by rewrite E1 in Hne].
  assert (files d1 !! p ≠ files d !! p → p = db_path st ∧ files d1 !! p = Some (Raw db)) as H1.
  { rewrite E1, lookup_insert. case_decide; [by subst|done]. }
  destruct (tmp !! CONFIG_ARCNAME) as [c|] eqn:Ec; [|injection Hr as <- <-; left; destruct (H1 Hne); auto].
  destruct (digest_matches m "config_sha256" c) as [[]|] eqn:Edg; [|injection Hr as <- <-; left; destruct (H1 Hne); auto..].
  destruct (put (config_target st config_out) c d1) as [d2 [u2|e]] eqn:E2; apply put_files in E2; injection Hr as <- <-;
    rewrite E2 in *; [|left; destruct (H1 Hne); auto].
  rewrite lookup_insert in *. case_decide; [subst; right; by eauto|left; destruct (H1 Hne); auto].
Qed.

(** What the checks find in an archive [create_backup] wrote. *)
Lemma opened_members created_at db config archive d :
  let M := manifest created_at (sha256_of db) (sha256_of <$> config) in
  json_loads (json_dump M) = Some M → files d !! archive = Some (Tar_gz (members created_at db config)) →
  ∃ tmp, opened archive d = Ok (M, db, tmp) ∧ tmp !! CONFIG_ARCNAME = config ∧
    (∀ c, config = Some c → digest_matches M "config_sha256" c = Some true).
Proof.
  intros M HM Ha. unfold opened. rewrite Ha.
  assert (safe_members (members created_at db config) = Ok (members created_at db config)) as -> by (by destruct config).
  assert (digest_matches M "db_sha256" db = Some true) as Hdb.
  { unfold digest_matches, M, manifest. destruct config; simpl; by rewrite bool_decide_true. }
  set (tmp := extract _). assert (tmp !! MANIFEST_ARCNAME = Some (json_dump M) ∧ tmp !! DB_ARCNAME = Some db ∧ tmp !! CONFIG_ARCNAME = config)
    as (-> & -> & Hc).
  { unfold tmp, extract. destruct config; simpl; split_and!;
      repeat (rewrite lookup_insert_eq || rewrite lookup_insert_ne by done); done. }
  rewrite HM, Hdb. exists tmp. split_and!; [done..|]. intros c ->.
  unfold digest_matches, M, manifest. simpl. by rewrite bool_decide_true.
Qed.

(** [put] would succeed. *)
Definition puttable (p : string) (d : Disk.t) : Prop := is_ok (snd (put p [] d)) = true.
Lemma puttable_put p b d : puttable p d → ∃ d', put p b d = (d', Ok tt) ∧ files d' = <[p := Raw b]> (files d).
Proof.
  unfold puttable. intros H. destruct (put p b d) as [d' r] eqn:E. pose proof (put_files _ _ _ _ _ E) as Hf.
  unfold put in *. destruct (mkdir (parent p) d) as [d0|]; [|done]. unfold write in *. destruct (is_dir p d0); [done|].
  injection E as <- <-. by eexists.
Qed.

(** C36. A backup restores what it was made from.  When [create_backup] returns an archive, restoring that
    archive on any disk, into any settings, succeeds once the two targets can be written and are different files: the
    database is then the consistent copy that was taken, the configuration file is the original one where there
    was one, and every other file is untouched. *)
Theorem backup_restores st out ts created_at d d1 archive d2 archive2 st2 force config_out :
  create_backup st out ts created_at d = (d1, Ok archive) →
  (∀ db_sha config_sha, let M := manifest created_at db_sha config_sha in json_loads (json_dump M) = Some M) →
  files d2 !! archive2 = files d1 !! archive →
  (force = true ∨ exists_ (db_path st2) d2 = false) →
  puttable (db_path st2) d2 → (∀ b, puttable (config_target st2 config_out) (fst (put (db_path st2) b d2))) →
  db_path st2 ≠ config_target st2 config_out →
  ∃ d0 db d3 r, files d0 = files d ∧ consistent_copy (db_path st) d0 = Some db ∧
    restore_backup archive2 st2 force config_out d2 = (d3, Ok r) ∧
    files d3 !! db_path st2 = Some (Raw db) ∧
    r_config_path r = (fun _ => config_target st2 config_out) <$> config_bytes st d ∧
    (∀ c, config_bytes st d = Some c → files d3 !! config_target st2 config_out = Some (Raw c)) ∧
    (∀ p, p ≠ db_path st2 → (is_Some (config_bytes st d) → p ≠ config_target st2 config_out) → files d3 !! p = files d2 !! p).
Proof.
  intros Hc HJ Hmv Hf Hp1 Hp2 Hdiff. unfold create_backup in Hc. destruct (negb _); [done|].
  destruct (archive_path out ts d) as [[a d0]|] eqn:Ea; [|done]. apply archive_path_files in Ea.
  destruct (consistent_copy (db_path st) d0) as [db|] eqn:Edb; [|done].
  unfold write in Hc. destruct (is_dir a d0); [done|]. injection Hc as <- ->. simpl in Hmv. rewrite lookup_insert_eq in Hmv.
  assert (config_bytes st d0 = config_bytes st d) as Hcfg by (unfold config_bytes, is_file, read; by rewrite Ea).
  rewrite Hcfg in Hmv. exists d0, db. unfold restore_backup.
  destruct (opened_members created_at db (config_bytes st d) archive2 d2 (HJ _ _) Hmv) as (tmp & -> & -> & Hdg).
  assert (negb (is_file archive2 d2) = false) as -> by (unfold is_file; by rewrite Hmv).
  assert (exists_ (db_path st2) d2 && negb force = false) as -> by (destruct Hf as [->| ->]; [apply andb_false_r|done]).
  destruct (puttable_put _ db _ Hp1) as (d3 & E3 & F3). specialize (Hp2 db). rewrite E3 in Hp2 |- *. simpl in Hp2.
  destruct (config_bytes st d) as [c|].
  - rewrite (Hdg c eq_refl). cbn zeta. destruct (puttable_put _ c _ Hp2) as (d4 & -> & F4). eexists d4, _. simpl.
    split_and!; [done|done|done| |done| |].
    + by rewrite F4, lookup_insert_ne, F3, lookup_insert_eq.
    + intros ? [= <-]. by rewrite F4, lookup_insert_eq.
    + intros p H1 H2. specialize (H2 (mk_is_Some _ _ eq_refl)). by rewrite F4, lookup_insert_ne, F3, lookup_insert_ne.
  - eexists d3, _. split_and!; [done|done|done|by rewrite F3, lookup_insert_eq|done|done|].
    intros p H1 _. by rewrite F3, lookup_insert_ne.
Qed.

End Codec.
(** ** Examples *)

(** A codec for manifests: the two digests, one per line, and a mark for no configuration. *)
Definition codes (s : string) : bytes := map Crypto.code (Crypto.chars s).
Definition text_of (b : bytes) : string := Crypto.of_chars (map Crypto.char b).
Definition demo_dump (v : Json.t) : bytes :=
  match v with
  | Json.JObj (_ :: _ :: _ :: (_, Json.JStr a) :: _ :: _ :: l) =>
      codes a ++ 256 :: match l with (_, Json.JStr b) :: _ => codes b | _ => [257] end
  | _ => []
  end.
Fixpoint cut (b : bytes) : bytes * bytes :=
  match b with
  | [] => ([], [])
  | x :: b => if x =? 256 then ([], b) else let '(l, r) := cut b in (x :: l, r)
  end.
Definition demo_loads (b : bytes) : option Json.t :=
  let '(l, r) := cut b in
  Some (manifest "1.0" "2024" (text_of l) (if bool_decide (r = [257]) then None else Some (text_of r))).

Lemma code_bound c : 0 <= Crypto.code c < 256.
Proof. unfold Crypto.code. pose proof (N_ascii_bounded c). lia. Qed.
Lemma text_of_codes s : text_of (codes s) = s.
Proof.
  unfold text_of, codes. rewrite map_map, (map_ext _ (fun c => c)); [by rewrite map_id, Crypto.of_chars_chars|].
  intros c. unfold Crypto.char, Crypto.code. by rewrite N2Z.id, ascii_N_embedding.
Qed.
Lemma cut_codes s r : cut (codes s ++ 256 :: r) = (codes s, r).
Proof.
  unfold codes. induction (Crypto.chars s) as [|c l IH]; [done|]. simpl. pose proof (code_bound c).
  destruct (Z.eqb_spec (Crypto.code c) 256); [lia|]. by rewrite IH.
Qed.
Lemma demo_codec db_sha config_sha :
  let M := manifest "1.0" "2024" db_sha config_sha in demo_loads (demo_dump M) = Some M.
Proof.
  unfold demo_loads. destruct config_sha as [c|]; cbn [manifest demo_dump app]; rewrite cut_codes, text_of_codes.
  - rewrite bool_decide_false, text_of_codes; [done|]. unfold codes. destruct (Crypto.chars c) as [|a l]; [done|].
    simpl. intros [= H _]. pose proof (code_bound a). lia.
  - by rewrite bool_decide_true.
Qed.

Definition demo_copy (p : string) (d : Disk.t) : option bytes := match files d !! p with Some (Raw b) => Some b | _ => None end.
Definition demo_disk (db : bytes) : Disk.t :=
  Disk.Mk (<["/data/e.db" := Raw db]> {["/etc/c.toml" := Raw [7; 8]]}) {["/data"; "/etc"; "/"]}.
Definition demo_settings : Settings := Settings_ "/data/e.db" (Some "/etc/c.toml").
Definition demo_create := create_backup (fun _ => []) demo_copy demo_dump "1.0".
Definition demo_restore := restore_backup demo_loads.

(** A backup of one disk, copied to another where an older database is. *)
Definition demo_other : Disk.t :=
  let d := fst (demo_create demo_settings "/out" "T" "2024" (demo_disk [1; 2; 3])) in
  Disk.Mk (<["/b.tar.gz" := default (Raw []) (files d !! "/out/inference-engine-backup-T.tar.gz")]> (files (demo_disk [9]))) (dirs (demo_disk [9])).

Lemma backup_restores_witness :
  ∃ d3 r, demo_restore "/b.tar.gz" demo_settings true None demo_other = (d3, Ok r) ∧ r_config_path r = Some "/etc/c.toml" ∧
    files d3 !! "/etc/c.toml" = Some (Raw [7; 8]).
Proof.
  destruct (backup_restores (fun _ => []) demo_copy demo_dump demo_loads "1.0" demo_settings "/out" "T" "2024" (demo_disk [1; 2; 3])
    (fst (demo_create demo_settings "/out" "T" "2024" (demo_disk [1; 2; 3]))) "/out/inference-engine-backup-T.tar.gz"
    demo_other "/b.tar.gz" demo_settings true None) as (d0 & db & d3 & r & _ & _ & Hr & _ & Hp & Hc & _).
  - vm_compute. reflexivity.
  - intros db_sha config_sha. exact (demo_codec db_sha config_sha).
  - vm_compute. reflexivity.
  - left. reflexivity.
  - vm_compute. reflexivity.
  - intros b. vm_compute. reflexivity.
  - discriminate.
  - exists d3, r. split_and!; [exact Hr|exact Hp|apply Hc; vm_compute; reflexivity].
Defined.

Lemma restore_checked_witness :
  let d' := fst (demo_restore "/b.tar.gz" demo_settings true None demo_other) in
  ∃ db, files d' !! "/data/e.db" = Some (Raw db) ∧ db = [1; 2; 3].
Proof.
  destruct (restore_checked demo_loads "/b.tar.gz" demo_settings true None demo_other
    (fst (demo_restore "/b.tar.gz" demo_settings true None demo_other))
    (snd (demo_restore "/b.tar.gz" demo_settings true None demo_other)) "/data/e.db")
    as (_ & m & db & tmp & Ho & [(_ & Hf & _)|(E & _)]).
  - apply surjective_pairing.
  - vm_compute. discriminate.
  - exists db. split; [exact Hf|].
    assert (Some (Raw db) = Some (Raw [1; 2; 3])) as H by (rewrite <- Hf; vm_compute; reflexivity).
    injection H as H. exact H.
  - discriminate E.
Defined.

(** An archive whose configuration does not match its checksum is refused, after the database was replaced. *)
Theorem refused_restore_writes :
  let bad := [Member MANIFEST_ARCNAME true (demo_dump (manifest "1.0" "2024" (sha256_of [1]) (Some "x")));
              Member DB_ARCNAME true [1]; Member CONFIG_ARCNAME true [5]] in
  let d := Disk.Mk (<["/b.tar.gz" := Tar_gz bad]> (files (demo_disk [9]))) (dirs (demo_disk [9])) in
  let '(d', r) := demo_restore "/b.tar.gz" demo_settings true None d in
  r = Err (Value "config checksum mismatch; backup is corrupt") ∧
  files d !! "/data/e.db" = Some (Raw [9]) ∧ files d' !! "/data/e.db" = Some (Raw [1]).
Proof. vm_compute. done. Qed.

(** A file that is no gzipped tar ends the restore command with an exception it does not catch. *)
Theorem restore_not_a_tar :
  let d := Disk.Mk (<["/b.tar.gz" := Raw [0]]> (files (demo_disk [9]))) (dirs (demo_disk [9])) in
  snd (cmd_restore demo_loads demo_settings "/b.tar.gz" true d) = Err ReadError.
Proof. vm_compute. done. Qed.

End Backup.
