(* ===== verification/Bench.v ===== *)
(** * The benchmark harness: workloads, samples and their aggregation ([engine/bench/])

    [Module Workload] is [workloads.py]: the largest-remainder allocation of a number of requests to the
    slices of the mix, the manifest, and the expansion of a workload into requests.  [Module Metrics] is
    [metrics.py]: percentiles and the metrics per slice and overall.  [Module Driver] is
    the request loop of [driver.py] as a function of the lines received, and the route delta.

    A float is a rational.  Where the code's decision depends on the rounding of an operation, the rounding is a
    parameter [fl] with the bound or the monotonicity IEEE arithmetic gives. *)

From Stdlib Require Import Ascii.
From S2P Require Import Prelude Crypto Text Sql Quota.

Open Scope Z_scope.

Module Workload.

(** The shares as the doubles the literals denote. *)
Definition SLICE_SHARES : list (string * Q) :=
  [("unique", 3602879701896397 # 9007199254740992);
   ("repeated_prefix", 3602879701896397 # 18014398509481984);
   ("multi_turn", 5404319552844595 # 36028797018963968);
   ("long_context", 3602879701896397 # 36028797018963968);
   ("structured", 3602879701896397 # 36028797018963968);
   ("cancellation", 1080863910568919 # 36028797018963968);
   ("saturation", 5764607523034235 # 288230376151711744)].

(** [int(v)] *)
Definition trunc (q : Q) : Z := if bool_decide (0 <= q)%Q then Qfloor q else - Qfloor (- q).
(** [l[:n]] *)
Definition slice_to {A} (n : Z) (l : list A) : list A :=
  take (Z.to_nat (if n <? 0 then Z.of_nat (length l) + n else n)) l.

Section Allocate.
(** Rounding of a float operation. *)
Context (fl : Q → Q).

Record share := Share { sh_name : string; sh_raw : Q }.
Definition raw (total : Z) (shares : list (string * Q)) : list share :=
  map (fun '(n, s) => Share n (fl (fl (inject_Z total) * s))) shares.
Definition floor_of (s : share) : Z := trunc (sh_raw s).
(** The key [(-(raw - floor), index)]: the sort is stable. *)
Definition by_remainder (a b : share) : bool :=
  bool_decide (sh_raw b - inject_Z (floor_of b) <= sh_raw a - inject_Z (floor_of a))%Q.
(** [allocate] *)
Definition allocate (total : Z) (shares : list (string * Q)) : result exn (list (string * Z)) :=
  if total <? 0 then Err ValueError
  else
    let rs := raw total shares in
    let remainder := total - UsageStore.zsum (map floor_of rs) in
    let chosen := map sh_name (slice_to remainder (Sql.order_by by_remainder rs)) in
    Ok (map (fun s => (sh_name s, floor_of s + if bool_decide (sh_name s ∈ chosen) then 1 else 0)) rs).

Definition total_of (counts : list (string * Z)) : Z := UsageStore.zsum (map snd counts).

Lemma zsum_cons x l : UsageStore.zsum (x :: l) = x + UsageStore.zsum l.
Proof. done. Qed.
(** Adding one to each chosen name of a list of distinct names. *)
Lemma zsum_chosen rs chosen :
  NoDup (map sh_name rs) → NoDup chosen → (∀ n, n ∈ chosen → n ∈ map sh_name rs) →
  UsageStore.zsum (map (fun s => floor_of s + if bool_decide (sh_name s ∈ chosen) then 1 else 0) rs)
  = UsageStore.zsum (map floor_of rs) + Z.of_nat (length chosen).
Proof.
  revert chosen. induction rs as [|s rs IH]; intros chosen Hn Hc Hsub.
  { destruct chosen as [|n chosen]; [done|]. by specialize (Hsub n ltac:(left)) as ?%elem_of_nil. }
  cbn [map] in *. apply NoDup_cons in Hn as [Hs Hn]. rewrite !zsum_cons.
  destruct (decide (sh_name s ∈ chosen)) as [Hin|Hin].
  - rewrite bool_decide_true by done. apply list_elem_of_split in Hin as (l1 & l2 & ->).
    apply NoDup_app in Hc as (H1 & Hd & [Hx H2]%NoDup_cons).
    assert (NoDup (l1 ++ l2)) as Hnd.
    { apply NoDup_app. split_and!; [done| |done]. intros x Hx1 Hx2. apply (Hd x Hx1). by right. }
    assert (∀ n, n ∈ l1 ++ l2 → n ≠ sh_name s) as Hne.
    { intros n [Hl|Hr]%elem_of_app ->; [by apply (Hd _ Hl); left|done]. }
    specialize (IH (l1 ++ l2) Hn Hnd).
    rewrite (map_ext_in _ (fun s0 => floor_of s0 + if bool_decide (sh_name s0 ∈ l1 ++ l2) then 1 else 0)).
    + rewrite IH.
      * rewrite !length_app. simpl. lia.
      * intros n Hl. pose proof (Hne n Hl). enough (n ∈ sh_name s :: map sh_name rs) as [?|?]%elem_of_cons by done.
        apply Hsub. apply elem_of_app in Hl as [?|?]; apply elem_of_app; [by left|right; by right].
    + intros s0 Hs0. f_equal. erewrite bool_decide_ext; [done|]. rewrite !elem_of_app, elem_of_cons.
      assert (sh_name s0 ≠ sh_name s); [|naive_solver].
      intros E. apply Hs. rewrite <- E. by apply list_elem_of_In, in_map.
  - rewrite bool_decide_false by done. rewrite IH; [lia|done|done|].
    intros n Hn'. pose proof (Hsub n Hn') as [->|?]%elem_of_cons; done.
Qed.

(** Whatever the rounding, the counts add up when the remainder is between 0 and the number of slices. *)
Lemma allocate_sums total shares :
  0 <= total → NoDup (map fst shares) →
  0 <= total - UsageStore.zsum (map floor_of (raw total shares)) <= Z.of_nat (length shares) →
  ∃ counts, allocate total shares = Ok counts ∧ total_of counts = total ∧ map fst counts = map fst shares ∧
    Forall2 (fun c s => snd c = floor_of s ∨ snd c = floor_of s + 1) counts (raw total shares).
Proof.
  intros H0 Hnd Hr. unfold allocate. destruct (Z.ltb_spec total 0); [lia|]. eexists. split; [done|].
  set (rs := raw total shares) in *. set (rem := total - _) in *. set (chosen := map sh_name _).
  assert (map sh_name rs = map fst shares) as Hnames.
  { unfold rs, raw. rewrite map_map. apply map_ext. by intros []. }
  assert (length rs = length shares) as Hlen by (unfold rs, raw; by rewrite length_map).
  pose proof (Sql.order_by_perm by_remainder rs) as Hp.
  assert (NoDup (map sh_name (Sql.order_by by_remainder rs))) as Hnd'.
  { eapply NoDup_Permutation_proper; [apply Permutation_map, Hp|]. by rewrite Hnames. }
  assert (chosen = take (Z.to_nat rem) (map sh_name (Sql.order_by by_remainder rs))) as Hch.
  { unfold chosen, slice_to. destruct (Z.ltb_spec rem 0); [lia|]. by rewrite firstn_map. }
  split_and!.
  - unfold total_of. rewrite map_map. simpl. rewrite zsum_chosen.
    + rewrite Hch, length_take, length_map, Hp, Hlen. lia.
    + by rewrite Hnames.
    + rewrite Hch. rewrite <- (take_drop (Z.to_nat rem) (map sh_name _)) in Hnd'. by apply NoDup_app in Hnd' as [? _].
    + intros n. rewrite Hch. intros Hin%list_elem_of_In. apply list_elem_of_In.
      eapply Permutation_in; [apply Permutation_map, Hp|].
      rewrite <- (take_drop (Z.to_nat rem) (map sh_name _)). apply in_app_iff. by left.
  - rewrite map_map. simpl. exact Hnames.
  - fold rs. clearbody rs chosen. clear. induction rs as [|s rs IH]; [constructor|].
    constructor; [|exact IH]. simpl. case_bool_decide; [by right|left; lia].
Qed.
(** What IEEE double arithmetic promises of a result of ordinary size. *)
Definition eps : Q := 1 # 9007199254740992.
Definition rounds : Prop :=
  (fl 0 == 0)%Q ∧ (∀ x y, x == y → fl x == fl y)%Q ∧
  (∀ x, 1 # 100 <= x → x * (1 - eps) <= fl x /\ fl x <= x * (1 + eps))%Q.

Lemma trunc_bounds q : (0 <= q)%Q → (inject_Z (trunc q) <= q /\ q < inject_Z (trunc q) + 1)%Q.
Proof.
  intros H. unfold trunc. rewrite bool_decide_true by done. split; [apply Qfloor_le|].
  pose proof (Qlt_floor q) as Hl. rewrite inject_Z_plus in Hl. exact Hl.
Qed.
(** Two rounded operations on a whole total. *)
Lemma raw_bounds T s : rounds → (T == 0 ∨ 1 <= T)%Q → ((2 # 100) <= s <= 1)%Q →
  (T * s * (1 - (3 # 9007199254740992)) <= fl (fl T * s) /\ fl (fl T * s) <= T * s * (1 + (3 # 9007199254740992)))%Q.
Proof.
  intros (H0 & Heq & Hr) HT [Hs1 Hs2]. destruct HT as [HT|HT].
  { assert (fl T == 0)%Q as E by (rewrite (Heq T 0%Q HT); exact H0).
    assert (fl (fl T * s) == 0)%Q as ->; [|rewrite HT; split; lra].
    rewrite (Heq (fl T * s) 0)%Q; [exact H0|]. rewrite E. ring. }
  destruct (Hr T) as [A1 A2]; [lra|].
  assert (T * (1 - eps) * s <= fl T * s)%Q as B1 by (apply Qmult_le_compat_r; [done|lra]).
  assert (fl T * s <= T * (1 + eps) * s)%Q as B2 by (apply Qmult_le_compat_r; [done|lra]).
  assert (2 # 100 <= T * s)%Q as HTs.
  { apply Qle_trans with (1 * s)%Q; [lra|]. apply Qmult_le_compat_r; lra. }
  assert (T * (1 - eps) * s == T * s * (1 - eps))%Q as R1 by ring.
  assert (T * (1 + eps) * s == T * s * (1 + eps))%Q as R2 by ring.
  rewrite R1 in B1. rewrite R2 in B2. unfold eps in *.
  destruct (Hr (fl T * s)%Q) as [C1 C2]; lra.
Qed.

(** The truncations of seven numbers that add up to about [T]. *)
Lemma floors_near fs (T : Z) :
  length fs = 7%nat → Forall (fun f => 0 <= f)%Q fs →
  (inject_Z T - 1 < UsageStore.qsum fs /\ UsageStore.qsum fs < inject_Z T + 1)%Q →
  0 <= T - UsageStore.zsum (map trunc fs) <= 7.
Proof.
  intros Hlen Hpos [HL HU].
  assert (inject_Z (UsageStore.zsum (map trunc fs)) <= UsageStore.qsum fs /\
          UsageStore.qsum fs <= inject_Z (UsageStore.zsum (map trunc fs)) + inject_Z (Z.of_nat (length fs)))%Q as [H1 H2].
  { clear Hlen HL HU. induction Hpos as [|f fs Hf _ [IH1 IH2]]; [split; done|].
    destruct (trunc_bounds f Hf) as [B1 B2]. cbn [map UsageStore.zsum UsageStore.qsum fold_right length].
    rewrite Nat2Z.inj_succ, <- Z.add_1_r, !inject_Z_plus. unfold UsageStore.zsum, UsageStore.qsum in *. 
    change (inject_Z 1) with 1%Q. split; lra. }
  rewrite Hlen in H2. change (inject_Z (Z.of_nat 7)) with 7%Q in H2.
  assert (inject_Z (UsageStore.zsum (map trunc fs)) < inject_Z (T + 1))%Q as U by (rewrite inject_Z_plus; change (inject_Z 1) with 1%Q; lra).
  assert (inject_Z (T - 8) < inject_Z (UsageStore.zsum (map trunc fs)))%Q as L
    by (unfold Z.sub; rewrite inject_Z_plus; change (inject_Z (- (8))) with (- (8))%Q; lra).
  rewrite <- Zlt_Qlt in U, L. lia.
Qed.

(** The mix is allocated exactly.  For the shares of the standard mix as the doubles they are, any
    rounding within double precision and any total up to 2^48, [allocate] returns for every slice a count that is the truncated share or
    one more, and the counts add up to the total, although every product was rounded. *)
Theorem allocate_exact total :
  rounds → 0 <= total <= 2 ^ 48 →
  ∃ counts, allocate total SLICE_SHARES = Ok counts ∧ total_of counts = total ∧ map fst counts = map fst SLICE_SHARES ∧
    Forall2 (fun c s => snd c = floor_of s ∨ snd c = floor_of s + 1) counts (raw total SLICE_SHARES).
Proof.
  intros Hr Ht.
  enough (0 <= total - UsageStore.zsum (map floor_of (raw total SLICE_SHARES)) <= 7) as Hrem.
  { apply allocate_sums; [lia|by apply (bool_decide_unpack _)|done]. }
  assert (inject_Z total == 0 ∨ 1 <= inject_Z total)%Q as HT.
  { destruct (decide (total = 0)) as [->|]; [by left|right]. change 1%Q with (inject_Z 1). rewrite <- Zle_Qle. lia. }
  assert (inject_Z total <= inject_Z (2 ^ 48) /\ 0 <= inject_Z total)%Q as [HU HL].
  { split; [rewrite <- Zle_Qle; lia|]. change 0%Q with (inject_Z 0). rewrite <- Zle_Qle. lia. }
  change (inject_Z (2 ^ 48)) with 281474976710656%Q in HU.
  pose proof (fun s => raw_bounds (inject_Z total) s Hr HT) as B.
  set (T := inject_Z total) in *.
  replace (map floor_of (raw total SLICE_SHARES)) with (map trunc (map sh_raw (raw total SLICE_SHARES)))
    by (rewrite map_map; done).
  apply floors_near; fold T; unfold UsageStore.qsum, raw, SLICE_SHARES; cbn [map sh_raw fold_right]; fold T; [done|..].
  all: repeat match goal with |- context [fl (fl ?T * ?s)] =>
    let f := fresh "f" in pose proof (B s ltac:(split; vm_compute; discriminate)); set (f := fl (fl T * s)%Q) in *; clearbody f end.
  - repeat constructor; lra.
  - split; lra.
Qed.
End Allocate.

(** ** Workloads *)

Record RequestSpec := Spec {
  slice : string;
  model : string;
  messages : list (string * string);
  stream : bool;
  max_tokens : Z;
  response_format : option Json.t;
  cancel_after_chunks : option Z;
  phase : string
}.

Record t := Mk {
  name : string; version : string; seed : Z; w_model : string;
  counts : list (string * Z);
  concurrency : Z; burst_concurrency : Z; warmup_requests : Z; w_max_tokens : Z;
  prefix_chars : Z; long_context_chars : Z;
  structured_supported : bool; stream_mode : string
}.
Definition count_of (w : t) (s : string) : Z := default 0 (dict_get s (counts w)).

(** [manifest] *)
Definition manifest (w : t) : Json.t :=
  Json.JObj [("name", Json.JStr (name w)); ("version", Json.JStr (version w)); ("seed", Json.JInt (seed w));
    ("model", Json.JStr (w_model w));
    ("counts", Json.JObj (map (fun '(k, v) => (k, Json.JInt v)) (Sql.order_by (fun a b => str_leb (fst a) (fst b)) (counts w))));
    ("total_requests", Json.JInt (total_of (counts w))); ("concurrency", Json.JInt (concurrency w));
    ("burst_concurrency", Json.JInt (burst_concurrency w)); ("warmup_requests", Json.JInt (warmup_requests w));
    ("max_tokens", Json.JInt (w_max_tokens w)); ("prefix_chars", Json.JInt (prefix_chars w));
    ("long_context_chars", Json.JInt (long_context_chars w)); ("structured_supported", Json.JBool (structured_supported w));
    ("stream_mode", Json.JStr (stream_mode w))].

Definition WORDS : list string := Text.split_ws
  "alpha bravo charlie delta echo foxtrot golf hotel india juliet kilo lima mike november oscar papa quebec romeo sierra tango uniform victor whiskey xray yankee zulu".
Definition PREFIX_BASE : string :=
  String.concat "" (replicate 16 "You are a helpful assistant. Consider the following shared context carefully before answering the question that follows it. ").
(** [s[:n]] *)
Definition str_to (n : Z) (s : string) : string := Crypto.of_chars (slice_to n (Crypto.chars s)).

Section Generate.
(** The generator's state and [rng.choice]. *)
Context {R : Type} (seeded : Z → R) (choice : list string → R → string * R).

Fixpoint choices (n : nat) (r : R) : list string * R :=
  match n with
  | O => ([], r)
  | S n => let '(w, r) := choice WORDS r in let '(ws, r) := choices n r in (w :: ws, r)
  end.
(** [_filler] *)
Definition filler (r : R) (words : Z) : string * R :=
  let '(ws, r) := choices (Z.to_nat (Z.max 1 words)) r in (Text.join " " ws, r).

Definition user (w : t) (sl text : string) : RequestSpec := Spec sl (w_model w) [("user", text)] true (w_max_tokens w) None None "main".

(** [_spec] *)
Definition spec (w : t) (sl : string) (i : Z) (r : R) : result exn (RequestSpec * R) :=
  let n := Text.str_int i in
  if bool_decide (sl = "unique") then
    let '(f, r) := filler r 12 in Ok (user w sl ("Unique request " +:+ n +:+ ": " +:+ f +:+ " Answer briefly."), r)
  else if bool_decide (sl = "repeated_prefix") then
    let '(f, r) := filler r 6 in Ok (user w sl (str_to (prefix_chars w) PREFIX_BASE +:+ " Question " +:+ n +:+ ": " +:+ f), r)
  else if bool_decide (sl = "multi_turn") then
    let '(f1, r) := filler r 6 in let '(f2, r) := filler r 5 in let '(f3, r) := filler r 6 in
    Ok (Spec sl (w_model w) [("user", "Turn 1 of dialog " +:+ n +:+ ": " +:+ f1); ("assistant", "Acknowledged: " +:+ f2);
                             ("user", "Turn 2, follow-up: " +:+ f3)] true (w_max_tokens w) None None "main", r)
  else if bool_decide (sl = "long_context") then
    let '(f, r) := filler r (Z.max 1 (long_context_chars w / 6)) in
    Ok (user w sl ("Summarise the following:" +:+ String "010"%char (str_to (long_context_chars w) f)), r)
  else if bool_decide (sl = "structured") then
    let '(f, r) := filler r 6 in
    Ok (Spec sl (w_model w) [("user", "Return a JSON object describing item " +:+ n +:+ ": " +:+ f)] true (w_max_tokens w)
          (Some (Json.JObj [("type", Json.JStr "json_object")])) None "main", r)
  else if bool_decide (sl = "cancellation") then
    let '(f, r) := filler r 10 in
    Ok (Spec sl (w_model w) [("user", "Write a long essay " +:+ n +:+ ": " +:+ f)] true (w_max_tokens w) None (Some 1) "main", r)
  else if bool_decide (sl = "saturation") then
    let '(f, r) := filler r 8 in
    Ok (Spec sl (w_model w) [("user", "Saturation probe " +:+ n +:+ ": " +:+ f)] true (w_max_tokens w) None None "saturation", r)
  else Err ValueError.

(** [generate]: the two loops. *)
Fixpoint specs_of (w : t) (sl : string) (idx : list Z) (r : R) : result exn (list RequestSpec * R) :=
  match idx with
  | [] => Ok ([], r)
  | i :: idx => match spec w sl i r with
               | Err e => Err e
               | Ok (x, r) => match specs_of w sl idx r with Ok (xs, r) => Ok (x :: xs, r) | Err e => Err e end
               end
  end.
Definition range (n : Z) : list Z := map Z.of_nat (seq 0 (Z.to_nat n)).
Fixpoint generate_from (w : t) (names : list string) (r : R) : result exn (list RequestSpec) :=
  match names with
  | [] => Ok []
  | sl :: names =>
      match specs_of w sl (range (count_of w sl)) r with
      | Err e => Err e
      | Ok (xs, r) => match generate_from w names r with Ok ys => Ok (xs ++ ys) | Err e => Err e end
      end
  end.
Definition generate (w : t) : result exn (list RequestSpec) := generate_from w (map fst SLICE_SHARES) (seeded (seed w)).

(** [_warmup_specs] of [driver.py] *)
Definition warmup_specs (w : t) : list RequestSpec :=
  map (fun i => user w "warmup" ("warmup " +:+ Text.str_int i)) (range (warmup_requests w)).

(** What a request of slice [sl] must look like. *)
Definition shaped (w : t) (sl : string) (x : RequestSpec) : Prop :=
  slice x = sl ∧ model x = w_model w ∧ stream x = true ∧ max_tokens x = w_max_tokens w ∧
  (is_Some (response_format x) ↔ sl = "structured") ∧ (is_Some (cancel_after_chunks x) ↔ sl = "cancellation") ∧
  phase x = (if bool_decide (sl = "saturation") then "saturation" else "main").

Lemma spec_shaped w sl i r :
  sl ∈ map fst SLICE_SHARES → ∃ x r', spec w sl i r = Ok (x, r') ∧ shaped w sl x.
Proof.
  intros H. simpl in H. repeat (apply elem_of_cons in H as [->|H]); [..|by apply not_elem_of_nil in H].
  all: unfold spec; simpl; repeat destruct (filler _ _) as [? ?]; eexists _, _; (split; [reflexivity|]).
  all: unfold shaped, is_Some; simpl; split_and!; try done; split; try done; try (by intros [? [=]]); eauto.
Qed.
Lemma specs_of_shaped w sl idx r :
  sl ∈ map fst SLICE_SHARES → ∃ xs r', specs_of w sl idx r = Ok (xs, r') ∧ length xs = length idx ∧ Forall (shaped w sl) xs.
Proof.
  intros H. revert r. induction idx as [|i idx IH]; intros r; simpl; [by exists [], r|].
  destruct (spec_shaped w sl i r H) as (x & r1 & -> & Hx). destruct (IH r1) as (xs & r2 & -> & Hl & Hf).
  eexists (x :: xs), r2. split_and!; [done|simpl; by rewrite Hl|by constructor].
Qed.
Lemma range_length n : length (range n) = Z.to_nat n.
Proof. unfold range. by rewrite length_map, length_seq. Qed.

Definition in_slice (sl : string) (x : RequestSpec) : bool := bool_decide (slice x = sl).
Lemma filter_shaped w sl sl' xs :
  Forall (shaped w sl) xs → List.filter (in_slice sl') xs = if bool_decide (sl = sl') then xs else [].
Proof.
  induction 1 as [|x xs Hx _ IH]; [by case_bool_decide|]. simpl. unfold in_slice at 1. destruct Hx as [-> _].
  rewrite IH. by case_bool_decide.
Qed.

Lemma generate_from_counts w names r :
  (∀ sl, sl ∈ names → sl ∈ map fst SLICE_SHARES) → NoDup names →
  ∃ xs, generate_from w names r = Ok xs ∧
    ∀ sl, Forall (shaped w sl) (List.filter (in_slice sl) xs) ∧
          length (List.filter (in_slice sl) xs) = (if bool_decide (sl ∈ names) then Z.to_nat (count_of w sl) else 0%nat).
Proof.
  revert r. induction names as [|nm names IH]; intros r Hsub Hnd; simpl.
  { exists []. split; [done|]. intros sl. split; [constructor|]. done. }
  apply NoDup_cons in Hnd as [Hn Hnd].
  destruct (specs_of_shaped w nm (range (count_of w nm)) r) as (xs & r1 & -> & Hl & Hf); [apply Hsub; by left|].
  destruct (IH r1) as (ys & -> & Hys); [intros; apply Hsub; by right|done|].
  exists (xs ++ ys). split; [done|]. intros sl. destruct (Hys sl) as [Hs1 Hs2].
  rewrite List.filter_app, length_app, (filter_shaped w nm) by done. destruct (decide (nm = sl)) as [E|E].
  - subst sl. rewrite (bool_decide_true (nm = nm)) by done. split; [by apply Forall_app|]. rewrite Hs2, Hl, range_length, bool_decide_false by done.
    rewrite bool_decide_true by (by left). lia.
  - rewrite (bool_decide_false (nm = sl)) by done. split; [done|]. simpl. rewrite Hs2. erewrite bool_decide_ext; [done|]. rewrite elem_of_cons. naive_solver.
Qed.

(** A workload expands into exactly its counts.  Whatever the seed and the generator, expansion
    succeeds; slice by slice in the declared order there are as many requests as the count says, each of that slice's
    shape: [response_format] exactly in the structured slice, cancellation exactly in the cancellation
    slice, the burst phase exactly in the saturation slice, and every request streamed. *)
Theorem generate_counts w :
  ∃ xs, generate w = Ok xs ∧
    ∀ sl, Forall (shaped w sl) (List.filter (in_slice sl) xs) ∧
          length (List.filter (in_slice sl) xs) =
            (if bool_decide (sl ∈ map fst SLICE_SHARES) then Z.to_nat (count_of w sl) else 0%nat).
Proof. apply generate_from_counts; [done|by apply (bool_decide_unpack _)]. Qed.

(** Whether the target supports structured output is not looked at: the structured slice is generated, with its [response_format], in either case. *)
Theorem structured_sent_anyway w :
  let unsupported := Mk (name w) (version w) (seed w) (w_model w) (counts w) (concurrency w) (burst_concurrency w)
                        (warmup_requests w) (w_max_tokens w) (prefix_chars w) (long_context_chars w) false (stream_mode w) in
  generate unsupported = generate w.
Proof.
  intros u. unfold generate. change (seed u) with (seed w). generalize (seeded (seed w)).
  induction (map fst SLICE_SHARES) as [|nm names IH]; intros r; [done|]. simpl.
  assert (∀ idx r, specs_of u nm idx r = specs_of w nm idx r) as H.
  { intros idx. induction idx as [|i idx IHi]; intros r'; [done|]. simpl. change (spec u nm i r') with (spec w nm i r').
    destruct (spec w nm i r') as [[x r2]|]; [by rewrite IHi|done]. }
  rewrite H. change (count_of u nm) with (count_of w nm). destruct (specs_of w nm _ r) as [[xs r2]|]; [by rewrite IH|done].
Qed.
End Generate.

(** [standard_workload] with the allocation it makes, and [smoke_workload]. *)
Definition standard_workload (fl : Q → Q) (model : string) (total seed concurrency burst warmup max_tokens prefix long : Z)
  (structured : bool) : result exn t :=
  match allocate fl total SLICE_SHARES with
  | Ok counts => Ok (Mk "standard" "1" seed model counts concurrency burst warmup max_tokens prefix long structured "all")
  | Err e => Err e
  end.
Definition smoke_workload (model : string) (seed : Z) : t :=
  Mk "smoke" "1" seed model [("unique", 2); ("repeated_prefix", 2); ("cancellation", 1)] 2 2 0 16 64 400 false "all".

Lemma allocate_exact_witness :
  ∃ counts, allocate (fun x => x) 200 SLICE_SHARES = Ok counts ∧ total_of counts = 200.
Proof.
  destruct (allocate_exact (fun x => x) 200) as (counts & H1 & H2 & _).
  - split_and!; [reflexivity|intros x y H; exact H|]. intros x Hx. unfold eps. split; lra.
  - lia.
  - exists counts. exact (conj H1 H2).
Defined.

End Workload.

(** * Aggregation *)

Module Metrics.

Record RequestSample := Sample {
  slice : string;
  model : string;
  ttft_ms : option Q;
  total_ms : option Q;
  content_chunks : Z;
  outcome : string;
  observed_first_content : bool;
  failure_phase : option string;
  shed : bool
}.

Section Percentile.
Context (fl : Q → Q).

Definition q_le (a b : Q) : bool := bool_decide (a <= b)%Q.
Definition clamp (q : Q) : Q := let m := if q_le q 0 then 0%Q else q in if q_le 100 m then 100%Q else m.
(** [int(round(q / 100.0 * (len - 1)))], at most [len - 1]. *)
Definition rank (n : nat) (q : Q) : Z :=
  Z.min (Z.of_nat n - 1) (Windows.round_half_even (fl (fl (clamp q / 100) * inject_Z (Z.of_nat n - 1)))).
(** [percentile] *)
Definition percentile (values : list Q) (q : Q) : option Q :=
  match values with
  | [] => None
  | _ => Sql.order_by q_le values !! Z.to_nat (rank (length values) q)
  end.

Record summary_t := Summary { mean : option Q; p50 : option Q; p95 : option Q; p99 : option Q }.
(** [_summary] *)
Definition summary (values : list Q) : summary_t :=
  match values with
  | [] => Summary None None None None
  | _ => Summary (Some (UsageStore.qsum values / inject_Z (Z.of_nat (length values)))%Q)
           (percentile values 50) (percentile values 95) (percentile values 99)
  end.
(** [_rate] *)
Definition rate (numerator denominator : Z) : option Q :=
  if denominator =? 0 then None else Some (inject_Z numerator / inject_Z denominator)%Q.

Record slice_metrics_t := Row {
  attempted : Z; admitted : Z; n_shed : Z; errors : Z; cancelled : Z;
  pre_stream_failures : Z; post_stream_failures : Z;
  shed_rate : option Q; error_rate : option Q; pre_stream_rate : option Q; post_stream_rate : option Q;
  ttft : summary_t; total : summary_t
}.
Definition count (p : RequestSample → bool) (l : list RequestSample) : Z := Z.of_nat (length (List.filter p l)).
Definition is_outcome (o : string) (s : RequestSample) : bool := bool_decide (outcome s = o) && negb (shed s).
Definition is_failure (f : string) (s : RequestSample) : bool := bool_decide (failure_phase s = Some f) && negb (shed s).
(** [_slice_metrics] *)
Definition slice_metrics (l : list RequestSample) : slice_metrics_t :=
  let attempted := Z.of_nat (length l) in
  let shed_ := count shed l in
  let admitted := attempted - shed_ in
  let errors := count (is_outcome "error") l in
  let pre := count (is_failure "pre_stream") l in
  let post := count (is_failure "post_stream") l in
  Row attempted admitted shed_ errors (count (is_outcome "cancelled") l) pre post
    (rate shed_ attempted) (rate errors admitted) (rate pre admitted) (rate post admitted)
    (summary (omap ttft_ms l))
    (summary (omap (fun s => if bool_decide (outcome s = "ok") then total_ms s else None) l)).

(** [aggregate]: [setdefault(...).append], then the groups by name. *)
Definition add_sample (d : list (string * list RequestSample)) (s : RequestSample) : list (string * list RequestSample) :=
  dict_set (slice s) (default [] (dict_get (slice s) d) ++ [s]) d.
Definition by_slice (l : list RequestSample) : list (string * list RequestSample) := fold_left add_sample l [].
Record aggregate_t := Aggregate {
  wall_s : Q; slices : list (string * slice_metrics_t); overall : slice_metrics_t; accepted_rate : option Q
}.
Definition aggregate (l : list RequestSample) (wall : Q) : aggregate_t :=
  Aggregate wall
    (map (fun '(n, g) => (n, slice_metrics g)) (Sql.order_by (fun a b => str_leb (fst a) (fst b)) (by_slice l)))
    (slice_metrics l)
    (if bool_decide (0 < wall)%Q then Some (inject_Z (count (fun s => negb (shed s)) l) / wall)%Q else None).

(** ** Percentiles *)

(** What the rounding of floats guarantees: it is monotone, and small whole numbers are exact. *)
Definition monotone_exact : Prop :=
  (∀ x y, x <= y → fl x <= fl y)%Q ∧ (∀ z, 0 <= z <= 2 ^ 53 → (fl (inject_Z z) == inject_Z z)%Q).

Lemma round_mono x y : (x <= y)%Q → Windows.round_half_even x <= Windows.round_half_even y.
Proof.
  intros H. destruct (Z.le_gt_cases (Windows.round_half_even x) (Windows.round_half_even y)) as [|Hgt]; [done|exfalso].
  destruct (Windows.round_half_even_bounds x) as [X1 X2], (Windows.round_half_even_bounds y) as [Y1 Y2].
  assert (inject_Z (Windows.round_half_even y) + 1 <= inject_Z (Windows.round_half_even x))%Q as G.
  { change 1%Q with (inject_Z 1). rewrite <- inject_Z_plus, <- Zle_Qle. lia. }
  assert (x == y)%Q as E by lra. revert Hgt. unfold Windows.round_half_even.
  assert (Qfloor x = Qfloor y) as -> by (by apply Qfloor_comp).
  assert (x - inject_Z (Qfloor y) == y - inject_Z (Qfloor y))%Q as Er by lra.
  rewrite (bool_decide_ext (x - _ < 1 # 2)%Q (y - inject_Z (Qfloor y) < 1 # 2)%Q) by (by rewrite Er).
  rewrite (bool_decide_ext ((1 # 2) < x - _)%Q ((1 # 2) < y - inject_Z (Qfloor y))%Q) by (by rewrite Er). lia.
Qed.
Lemma round_int z : Windows.round_half_even (inject_Z z) = z.
Proof.
  destruct (Windows.round_half_even_bounds (inject_Z z)) as [H1 H2].
  set (r := Windows.round_half_even _) in *.
  assert (inject_Z r < inject_Z (z + 1) /\ inject_Z (z - 1) < inject_Z r)%Q as [A B].
  { unfold Z.sub. rewrite !inject_Z_plus. change (inject_Z 1) with 1%Q. change (inject_Z (-(1))) with (-(1))%Q. lra. }
  rewrite <- Zlt_Qlt in A, B. lia.
Qed.

Lemma clamp_bounds q : (0 <= clamp q <= 100)%Q.
Proof. unfold clamp, q_le. repeat case_bool_decide; lra. Qed.
Lemma clamp_mono q q' : (q <= q')%Q → (clamp q <= clamp q')%Q.
Proof. unfold clamp, q_le. intros. repeat case_bool_decide; lra. Qed.

Lemma rank_bounds n q : monotone_exact → (0 < n)%nat → 0 <= rank n q <= Z.of_nat n - 1.
Proof.
  intros [Hm Hx] Hn. unfold rank. split; [|lia]. apply Z.min_glb; [lia|].
  rewrite <- (round_int 0). apply round_mono. rewrite <- (Hx 0) by lia. apply Hm.
  pose proof (clamp_bounds q). change (inject_Z 0) with 0%Q.
  apply Qmult_le_0_compat; [|change 0%Q with (inject_Z 0); rewrite <- Zle_Qle; lia].
  change 0%Q with (inject_Z 0). rewrite <- (Hx 0) by lia. apply Hm. change (inject_Z 0) with 0%Q.
  apply Qle_shift_div_l; lra.
Qed.
Lemma rank_mono n q q' : monotone_exact → (0 < n)%nat → (q <= q')%Q → rank n q <= rank n q'.
Proof.
  intros [Hm Hx] Hn Hq. unfold rank. apply Z.min_le_compat_l, round_mono, Hm, Qmult_le_compat_r.
  - apply Hm. pose proof (clamp_mono q q' Hq). unfold Qdiv. apply Qmult_le_compat_r; [done|discriminate].
  - change 0%Q with (inject_Z 0). rewrite <- Zle_Qle. lia.
Qed.

Lemma fl_eq x y : monotone_exact → (x == y)%Q → (fl x == fl y)%Q.
Proof. intros [M _] E. apply Qle_antisym; apply M; rewrite E; apply Qle_refl. Qed.
Lemma round_eq x y : (x == y)%Q → Windows.round_half_even x = Windows.round_half_even y.
Proof. intros E. apply Z.le_antisymm; apply round_mono; rewrite E; apply Qle_refl. Qed.
Lemma rank_least n q : monotone_exact → (0 < n)%nat → (q <= 0)%Q → rank n q <= 0.
Proof.
  intros [M X] Hn H0. unfold rank.
  apply Z.le_trans with (Windows.round_half_even (inject_Z 0)); [|rewrite round_int; lia].
  etransitivity; [apply Z.le_min_r|]. apply round_mono. rewrite <- (X 0) by lia. apply M.
  assert (clamp q == 0)%Q as Hc by (unfold clamp, q_le; repeat case_bool_decide; lra).
  assert (fl (clamp q / 100) <= 0)%Q as H1.
  { change 0%Q with (inject_Z 0). rewrite <- (X 0) by lia. apply M. rewrite Hc. discriminate. }
  change (inject_Z 0) with 0%Q. rewrite <- (Qmult_0_l (inject_Z (Z.of_nat n - 1))).
  apply Qmult_le_compat_r; [done|]. change 0%Q with (inject_Z 0). rewrite <- Zle_Qle. lia.
Qed.
Lemma rank_greatest n q : monotone_exact → (0 < n)%nat → (100 <= q)%Q → Z.of_nat n <= 2 ^ 53 → rank n q = Z.of_nat n - 1.
Proof.
  intros Hfl Hn H1 Hb. pose proof (proj2 Hfl) as X. unfold rank.
  assert (clamp q == 100)%Q as Hc by (unfold clamp, q_le; repeat case_bool_decide; lra).
  assert (fl (clamp q / 100) == 1)%Q as E1.
  { transitivity (fl (inject_Z 1)); [apply fl_eq; [done|]; rewrite Hc; reflexivity|]. apply X. lia. }
  rewrite (round_eq _ (inject_Z (Z.of_nat n - 1))); [rewrite round_int; lia|].
  transitivity (fl (inject_Z (Z.of_nat n - 1))); [|apply X; lia]. apply fl_eq; [done|]. rewrite E1. ring.
Qed.

Lemma q_le_total a b : q_le a b = true ∨ q_le b a = true.
Proof. unfold q_le. destruct (Qlt_le_dec a b); [left|right]; apply bool_decide_true; [by apply Qlt_le_weak|done]. Qed.
Lemma q_le_trans a b c : q_le a b = true → q_le b c = true → q_le a c = true.
Proof. unfold q_le. rewrite !bool_decide_eq_true. apply Qle_trans. Qed.

Lemma sorted_lookup (l : list Q) i j x y :
  StronglySorted (fun a b => q_le a b = true) l → l !! i = Some x → l !! j = Some y → (i ≤ j)%nat → (x <= y)%Q.
Proof.
  intros Hs. revert i j. induction Hs as [|a l Hs IH Hf]; intros i j Hi Hj Hij; [done|].
  destruct i as [|i], j as [|j]; simpl in *; [|..|lia|by eapply IH; eauto; lia].
  - rewrite Hi in Hj. injection Hj as ->. apply Qle_refl.
  - injection Hi as ->. apply list_elem_of_lookup_2 in Hj. rewrite Forall_forall in Hf. pose proof (Hf y Hj) as H. by apply bool_decide_eq_true in H.
Qed.

(** Percentiles are order statistics.  For any rounding that is monotone and exact on small whole numbers, a non-empty list
    has every percentile, it is one of the values, it does not decrease when [q] grows, at 0 it is the least and at 100
    the greatest value; only the empty list has none. *)
Theorem percentile_order values q q' :
  monotone_exact → (q <= q')%Q →
  (percentile values q = None ↔ values = []) ∧
  ∀ v, percentile values q = Some v →
    v ∈ values ∧ (∃ v', percentile values q' = Some v' ∧ v <= v')%Q ∧
    ((q <= 0)%Q → ∀ x, x ∈ values → (v <= x)%Q) ∧
    ((100 <= q)%Q → Z.of_nat (length values) <= 2 ^ 53 → ∀ x, x ∈ values → (x <= v)%Q).
Proof.
  intros Hfl Hq. destruct values as [|a values]; [by split|].
  unfold percentile. set (l := a :: values). assert (0 < length l)%nat as Hpos by (simpl; lia).
  pose proof (Sql.order_by_perm q_le l) as Hp.
  pose proof (Sql.order_by_sorted q_le q_le_total q_le_trans l) as Hs.
  pose proof (rank_bounds (length l) q Hfl Hpos) as Hr. pose proof (rank_bounds (length l) q' Hfl Hpos) as Hr'.
  pose proof (rank_mono (length l) q q' Hfl Hpos Hq) as Hm. set (o := Sql.order_by q_le l) in *.
  assert (length o = length l) as Hlen by (by rewrite Hp).
  split.
  { split; [|done]. intros H%lookup_ge_None. lia. }
  intros v Hv. split_and!.
  - rewrite <- Hp. by eapply list_elem_of_lookup_2.
  - destruct (lookup_lt_is_Some_2 o (Z.to_nat (rank (length l) q'))) as [v' Hv']; [lia|].
    exists v'. split; [done|]. eapply sorted_lookup; eauto. lia.
  - intros H0 x Hx. rewrite <- Hp in Hx. apply list_elem_of_lookup_1 in Hx as [i Hi].
    eapply (sorted_lookup o); eauto. pose proof (rank_least (length l) q Hfl Hpos H0). lia.
  - intros H0 Hbig x Hx. rewrite <- Hp in Hx. pose proof Hx as [i Hi]%list_elem_of_lookup_1.
    eapply (sorted_lookup o); eauto. rewrite (rank_greatest (length l) q Hfl Hpos) by done.
    apply lookup_lt_Some in Hi. lia.
Qed.

(** ** Counting *)

Lemma count_app p l l' : count p (l ++ l') = count p l + count p l'.
Proof. unfold count. rewrite List.filter_app, length_app. lia. Qed.
Lemma count_perm p l l' : l ≡ₚ l' → count p l = count p l'.
Proof. unfold count. intros H. f_equal. induction H; simpl; repeat destruct (p _); simpl; lia. Qed.
Lemma count_concat p gs : count p (concat gs) = UsageStore.zsum (map (count p) gs).
Proof. induction gs as [|g gs IH]; [done|]. simpl. by rewrite count_app, IH. Qed.
Lemma count_true l : count (fun _ => true) l = Z.of_nat (length l).
Proof. unfold count. f_equal. induction l; simpl; lia. Qed.
Lemma count_negb p l : count (fun s => negb (p s)) l = Z.of_nat (length l) - count p l.
Proof. unfold count. induction l as [|x l IH]; [done|]. simpl. destruct (p x); simpl; lia. Qed.
Lemma count_disjoint p p' q l :
  (∀ x, p x = true → p' x = true → False) → (∀ x, p x = true ∨ p' x = true → q x = true) → count p l + count p' l <= count q l.
Proof.
  intros Hd Hi. unfold count. induction l as [|x l IH]; [done|]. simpl.
  destruct (p x) eqn:E, (p' x) eqn:E'; simpl; [by destruct (Hd x)|..].
  1,2: rewrite (Hi x) by auto; simpl; lia.
  destruct (q x); simpl; lia.
Qed.

Lemma dict_append_concat (k : string) (x : RequestSample) d :
  concat (map snd (dict_set k (default [] (dict_get k d) ++ [x]) d)) ≡ₚ x :: concat (map snd d).
Proof.
  induction d as [|[k' g] d IH]; [done|]. unfold dict_get in *. simpl. destruct (bool_decide (k' = k)); simpl.
  - rewrite <- app_assoc. apply Permutation_sym, Permutation_middle.
  - rewrite IH. apply Permutation_sym, Permutation_middle.
Qed.
(** The groups are the samples, under distinct names, each in the group of its slice. *)
Lemma by_slice_groups l :
  concat (map snd (by_slice l)) ≡ₚ l ∧ NoDup (map fst (by_slice l)).
Proof.
  unfold by_slice.
  enough (∀ d, NoDup (map fst d) → concat (map snd (fold_left add_sample l d)) ≡ₚ concat (map snd d) ++ l ∧
    NoDup (map fst (fold_left add_sample l d))) as H by (apply (H []), NoDup_nil_2).
  induction l as [|x l IH]; intros d Hd; simpl; [by rewrite app_nil_r|].
  destruct (IH (add_sample d x)) as [H1 H2]; [by apply dict_set_nodup|]. split; [|done].
  rewrite H1. unfold add_sample. rewrite dict_append_concat. simpl. apply Permutation_middle.
Qed.

Lemma sorted_keys {A} (l : list (string * A)) :
  StronglySorted (fun x y => str_leb x y = true) (map fst (Sql.order_by (fun x y => str_leb (fst x) (fst y)) l)).
Proof.
  assert (StronglySorted (fun x y => str_leb (fst x) (fst y) = true) (Sql.order_by (fun x y => str_leb (fst x) (fst y)) l)) as H.
  { apply Sql.order_by_sorted; [intros x y; apply String.leb_total|].
    intros x y z H1 H2. apply Is_true_true. by apply (transitivity (R := String.le) (y := fst y)); apply Is_true_true. }
  induction H as [|x l' _ IH Hf]; [constructor|]. simpl. constructor; [done|]. by apply Forall_map.
Qed.

(** A counter of the metrics that counts the samples with some property. *)
Definition counts_samples (f : slice_metrics_t → Z) : Prop := ∃ p, ∀ l, f (slice_metrics l) = count p l.
Lemma counts_admitted : counts_samples admitted.
Proof. exists (fun s => negb (shed s)). intros l. by rewrite count_negb. Qed.

(** The report's numbers are consistent.  Every counter of the overall row is the sum of the slices'
    counters, the slices are named once each in name order, attempted requests are the admitted and the shed ones, errors and cancellations are
    disjoint parts of the admitted ones, and so are the two kinds of failure; the accepted rate is admitted requests per second. *)
Theorem aggregate_conserves l wall :
  let a := aggregate l wall in
  (∀ f, f ∈ [attempted; admitted; n_shed; errors; cancelled; pre_stream_failures; post_stream_failures] →
    UsageStore.zsum (map (fun r => f (snd r)) (slices a)) = f (overall a)) ∧
  NoDup (map fst (slices a)) ∧ StronglySorted (fun x y => str_leb x y = true) (map fst (slices a)) ∧
  attempted (overall a) = admitted (overall a) + n_shed (overall a) ∧
  errors (overall a) + cancelled (overall a) <= admitted (overall a) ∧
  pre_stream_failures (overall a) + post_stream_failures (overall a) <= admitted (overall a) ∧
  ((0 < wall)%Q → accepted_rate a = Some (inject_Z (admitted (overall a)) / wall)%Q).
Proof.
  intros a. destruct (by_slice_groups l) as [Hg Hn].
  set (ord := Sql.order_by (fun x y => str_leb (fst x) (fst y)) (by_slice l)).
  assert (ord ≡ₚ by_slice l) as Hp by apply Sql.order_by_perm.
  assert (map fst (slices a) = map fst ord) as Hf.
  { unfold a, aggregate. simpl. fold ord. rewrite map_map. apply map_ext. by intros []. }
  split_and!.
  - assert (∀ f, counts_samples f → UsageStore.zsum (map (fun r => f (snd r)) (slices a)) = f (overall a)) as H.
    { intros f [p Hcp]. unfold a, aggregate. simpl. fold ord. rewrite map_map, Hcp.
      rewrite (count_perm p l (concat (map snd ord))) by (rewrite <- Hg at 1; by rewrite Hp).
      rewrite count_concat, map_map. f_equal. apply map_ext. intros [n g]. apply Hcp. }
    intros f Hin. apply H. repeat (apply elem_of_cons in Hin as [->|Hin]); [..|by apply not_elem_of_nil in Hin].
    + exists (fun _ => true). intros l'. by rewrite count_true.
    + apply counts_admitted.
    + by eexists.
    + by eexists.
    + by eexists.
    + by eexists.
    + by eexists.
  - rewrite Hf. by rewrite Hp.
  - rewrite Hf. apply sorted_keys.
  - simpl. lia.
  - simpl. rewrite <- count_negb. apply count_disjoint; unfold is_outcome.
    + intros x [->%bool_decide_eq_true _]%andb_true_iff [? _]%andb_true_iff. by case_bool_decide.
    + intros x [[_ ?]%andb_true_iff|[_ ?]%andb_true_iff]; done.
  - simpl. rewrite <- count_negb. apply count_disjoint; unfold is_failure.
    + intros x [E%bool_decide_eq_true _]%andb_true_iff [E'%bool_decide_eq_true _]%andb_true_iff. congruence.
    + intros x [[_ ?]%andb_true_iff|[_ ?]%andb_true_iff]; done.
  - intros Hw. unfold a, aggregate. simpl. rewrite bool_decide_true by done. by rewrite count_negb.
Qed.

End Percentile.

Lemma percentile_order_witness :
  ∃ v, percentile (fun x => x) [3; 1; 2]%Q 95 = Some v ∧ (1 <= v)%Q.
Proof.
  destruct (percentile_order (fun x => x) [3; 1; 2]%Q 0 95) as [_ H].
  - split; [intros x y Hxy; exact Hxy|intros z _; reflexivity].
  - discriminate.
  - destruct (H 1%Q ltac:(vm_compute; reflexivity)) as (_ & (v & Hv & Hle) & _). exists v. exact (conj Hv Hle).
Defined.

End Metrics.

(** * The load driver *)

Module Driver.
Import Metrics.

Section Request.
(** [json.loads]; [None] is the [JSONDecodeError]. *)
Context (json_loads : string → option Json.t).

(** [_body] *)
Definition body (x : Workload.RequestSpec) : Json.t :=
  Json.JObj ([("model", Json.JStr (Workload.model x));
              ("messages", Json.JArr (map (fun '(r, c) => Json.JObj [("role", Json.JStr r); ("content", Json.JStr c)]) (Workload.messages x)));
              ("max_tokens", Json.JInt (Workload.max_tokens x)); ("stream", Json.JBool true)]
             ++ match Workload.response_format x with Some f => [("response_format", f)] | None => [] end).

Definition field (key : string) (v : Json.t) : option Json.t := Json.get key v ≫= id.
Definition is_obj (v : Json.t) : bool := match v with Json.JObj _ => true | _ => false end.
(** [_content_delta] of an object. *)
Definition content_delta (payload : Json.t) : option string :=
  match field "choices" payload with
  | Some (Json.JArr (c :: _)) =>
      match (if is_obj c then field "delta" c else None) with
      | Some (Json.JObj d) => match field "content" (Json.JObj d) with
                              | Some (Json.JStr s) => if str_true s then Some s else None
                              | _ => None
                              end
      | _ => None
      end
  | _ => None
  end.

(** What a server and the network make of one request: a failure before the response, a response with another
    status than 200 (whose body may fail to arrive), or lines with the times they are handled, then the end or a failure. *)
Inductive exchange :=
| No_response
| Status (code : Z) (body_read : bool)
| Lines (l : list (string * Q)) (fails : bool).

(** The locals of the loop. *)
Record locals := Locals { l_ttft : option Q; l_chunks : Z; l_first : bool }.
Inductive stop := Broke (outcome : string) (failure : option string) | Ran_out.
Definition phase_of (first : bool) : string := if first then "post_stream" else "pre_stream".

(** [async for line in resp.aiter_lines()] *)
Fixpoint read (x : Workload.RequestSpec) (start : Q) (lines : list (string * Q)) (s : locals) : locals * stop :=
  match lines with
  | [] => (s, Ran_out)
  | (line, now) :: lines =>
      if negb (Text.startswith "data:" line) then read x start lines s
      else
        let data := Text.strip (Crypto.of_chars (drop 5 (Crypto.chars line))) in
        if bool_decide (data = "[DONE]") then (s, Broke "ok" None)
        else match json_loads data with
             | None => read x start lines s
             | Some payload =>
                 if is_obj payload && bool_decide (is_Some (field "error" payload))
                 then (s, Broke "error" (Some (phase_of (l_first s))))
                 else match (if is_obj payload then content_delta payload else None) with
                      | None => read x start lines s
                      | Some _ =>
                          let s := Locals (if l_first s then l_ttft s else Some ((now - start) * 1000)%Q) (l_chunks s + 1) true in
                          match Workload.cancel_after_chunks x with
                          | Some k => if k <=? l_chunks s then (s, Broke "cancelled" None) else read x start lines s
                          | None => read x start lines s
                          end
                      end
             end
  end.

(** [_one_request]; [stop_at] is the last clock reading. *)
Definition one_request (x : Workload.RequestSpec) (start stop_at : Q) (e : exchange) : RequestSample :=
  let sample ttft := Sample (Workload.slice x) (Workload.model x) ttft (Some ((stop_at - start) * 1000)%Q) in
  match e with
  | No_response | Status _ false => sample None 0 "error" false (Some "pre_stream") false
  | Status code true =>
      if code =? 429 then sample None 0 "error" false None true
      else sample None 0 "error" false (Some "pre_stream") false
  | Lines l fails =>
      match read x start l (Locals None 0 false) with
      | (s, Broke o f) => sample (l_ttft s) (l_chunks s) o (l_first s) f false
      | (s, Ran_out) =>
          if fails then sample (l_ttft s) (l_chunks s) "error" (l_first s) (Some (phase_of (l_first s))) false
          else sample (l_ttft s) (l_chunks s) "ok" (l_first s) None false
      end
  end.

(** ** A sample is consistent *)

Record sample_ok (x : Workload.RequestSpec) (s : RequestSample) : Prop := {
  so_slice : slice s = Workload.slice x;
  so_first : observed_first_content s = bool_decide (is_Some (ttft_ms s)) ∧ observed_first_content s = bool_decide (0 < content_chunks s);
  so_outcome : outcome s ∈ ["ok"; "error"; "cancelled"];
  so_shed : shed s = true → outcome s = "error" ∧ failure_phase s = None ∧ ttft_ms s = None;
  so_failure : shed s = false →
    failure_phase s = (if bool_decide (outcome s = "error") then Some (phase_of (observed_first_content s)) else None);
  so_cancelled : outcome s = "cancelled" → ∃ k, Workload.cancel_after_chunks x = Some k ∧ k <= content_chunks s
}.
Definition locals_ok (s : locals) : Prop :=
  0 <= l_chunks s ∧ l_first s = bool_decide (is_Some (l_ttft s)) ∧ l_first s = bool_decide (0 < l_chunks s).

Lemma read_ok x start lines s s' e :
  locals_ok s → read x start lines s = (s', e) →
  locals_ok s' ∧ match e with
                 | Ran_out => True
                 | Broke o f => o ∈ ["ok"; "error"; "cancelled"] ∧
                     f = (if bool_decide (o = "error") then Some (phase_of (l_first s')) else None) ∧
                     (o = "cancelled" → ∃ k, Workload.cancel_after_chunks x = Some k ∧ k <= l_chunks s')
                 end.
Proof.
  revert s. induction lines as [|[line now] lines IH]; intros s Hs; cbn [read]; [by intros [= <- <-]|].
  destruct (negb _); [by apply IH|]. destruct (bool_decide (_ = "[DONE]")).
  { intros [= <- <-]. split_and!; [done|by left|done|done]. }
  destruct (json_loads _) as [payload|]; [|by apply IH]. destruct (is_obj payload && _).
  { intros [= <- <-]. split_and!; [done|right; by left|done|done]. }
  destruct (if is_obj payload then _ else _) as [c|]; [|by apply IH].
  set (s1 := Locals _ _ true).
  assert (locals_ok s1) as H1.
  { destruct Hs as (H0 & Ht & Hc). unfold s1, locals_ok. simpl. split_and!; [lia| |by rewrite bool_decide_true by lia].
    symmetry. apply bool_decide_true. destruct (l_first s) eqn:E; [|by eexists]. symmetry in Ht. by apply bool_decide_eq_true in Ht. }
  destruct (Workload.cancel_after_chunks x) as [k|]; [|by apply IH]. destruct (Z.leb_spec k (l_chunks s1)); [|by apply IH].
  intros [= <- <-]. split_and!; [done|right; right; by left|done|]. intros _. by exists k.
Qed.

Lemma one_request_ok x start stop_at e : sample_ok x (one_request x start stop_at e).
Proof.
  unfold one_request. destruct e as [|code [] |l fails].
  - split; simpl; try done; right; by left.
  - destruct (code =? 429); split; simpl; try done; right; by left.
  - split; simpl; try done; right; by left.
  - destruct (read x start l _) as [s [o f|]] eqn:E; apply read_ok in E as [(H0 & Ht & Hc) He]; try (by split_and!).
    + destruct He as (Ho & -> & Hk). split; simpl; try done; by rewrite <- Ht.
    + destruct fails; split; simpl; try done; try (by rewrite <- Ht); [right|]; by left.
Qed.

(** ** A run *)

(** [_run_phase]: [gather] returns the samples in the order of the requests. *)
Definition run_phase (serve : Workload.RequestSpec → Q * Q * exchange) (xs : list Workload.RequestSpec) : list RequestSample :=
  map (fun x => let '(start, stop_at, e) := serve x in one_request x start stop_at e) xs.
Definition in_phase (ph : string) (x : Workload.RequestSpec) : bool := bool_decide (Workload.phase x = ph).
(** The measured part of [run_workload]: the main phase, then the burst. *)
Definition run_workload {R} (seeded : Z → R) choice (serve : Workload.RequestSpec → Q * Q * exchange) (w : Workload.t)
  : result exn (list RequestSample) :=
  match Workload.generate seeded choice w with
  | Err e => Err e
  | Ok xs => Ok (run_phase serve (List.filter (in_phase "main") xs) ++ run_phase serve (List.filter (in_phase "saturation") xs))
  end.

Lemma count_run_phase sl serve xs :
  count (fun s => bool_decide (slice s = sl)) (run_phase serve xs) = Z.of_nat (length (List.filter (Workload.in_slice sl) xs)).
Proof.
  unfold count. f_equal. induction xs as [|x xs IH]; [done|]. simpl. destruct (serve x) as [[a b] e].
  rewrite (so_slice _ _ (one_request_ok x a b e)). unfold Workload.in_slice at 1. destruct (bool_decide _); simpl; by rewrite IH.
Qed.
Lemma filter_comm {A} (p q : A → bool) l : List.filter p (List.filter q l) = List.filter q (List.filter p l).
Proof. induction l as [|x l IH]; [done|]. simpl. destruct (p x) eqn:P, (q x) eqn:Q0; simpl; rewrite ?P, ?Q0, ?IH; done. Qed.
(** A slice runs in one phase. *)
Lemma filter_in_phase w sl ph l :
  Forall (Workload.shaped w sl) l →
  List.filter (in_phase ph) l = if bool_decide (ph = if bool_decide (sl = "saturation") then "saturation" else "main") then l else [].
Proof.
  induction 1 as [|x l Hx _ IH]; [by destruct (bool_decide _)|]. simpl. unfold in_phase at 1.
  destruct Hx as (_ & _ & _ & _ & _ & _ & ->). rewrite IH.
  destruct (bool_decide (ph = _)) eqn:E.
  - apply bool_decide_eq_true in E as <-. by rewrite bool_decide_true.
  - apply bool_decide_eq_false in E. by rewrite bool_decide_false.
Qed.

(** A run measures what the workload says.  Whatever the server and the network do, a run yields for each slice
    of the mix exactly as many samples as its count, for any other name none, and in the aggregated metrics every error
    that was not shed is exactly one failure before or after the first content. *)
Theorem run_measures {R} (seeded : Z → R) choice serve w :
  ∃ l, run_workload seeded choice serve w = Ok l ∧
    (∀ sl, count (fun s => bool_decide (slice s = sl)) l =
       if bool_decide (sl ∈ map fst Workload.SLICE_SHARES) then Z.max 0 (Workload.count_of w sl) else 0) ∧
    (∀ fl, errors (slice_metrics fl l) = pre_stream_failures (slice_metrics fl l) + post_stream_failures (slice_metrics fl l)).
Proof.
  unfold run_workload. destruct (Workload.generate_from_counts choice w (map fst Workload.SLICE_SHARES)
    (seeded (Workload.seed w))) as (xs & Hg & Hxs); [done|by apply (bool_decide_unpack _)|].
  unfold Workload.generate. rewrite Hg. eexists. split; [done|]. split.
  - intros sl. rewrite count_app, !count_run_phase, !(filter_comm (Workload.in_slice sl)).
    destruct (Hxs sl) as [Hsh Hlen]. rewrite !(filter_in_phase w sl) by done.
    transitivity (Z.of_nat (length (List.filter (Workload.in_slice sl) xs))).
    + destruct (bool_decide (sl = "saturation")); simpl; lia.
    + rewrite Hlen. destruct (bool_decide _); lia.
  - intros fl. unfold run_phase. rewrite <- map_app. set (ys := _ ++ _). clearbody ys. simpl. unfold count.
    induction ys as [|x ys IH]; [done|]. simpl. destruct (serve x) as [[a b] e].
    pose proof (one_request_ok x a b e) as [_ _ _ Hsh Hf _]. set (s := one_request x a b e) in *. clearbody s.
    assert (is_outcome "error" s = false ∧ is_failure "pre_stream" s = false ∧ is_failure "post_stream" s = false ∨
            is_outcome "error" s = true ∧ is_failure "pre_stream" s = negb (is_failure "post_stream" s)) as H.
    { unfold is_outcome, is_failure. destruct (shed s); [left; by rewrite !andb_false_r|].
      rewrite !andb_true_r, (Hf eq_refl). destruct (bool_decide (outcome s = "error")); [right|by left].
      unfold phase_of. by destruct (observed_first_content s). }
    destruct H as [(-> & -> & ->)|[-> ->]]; [exact IH|]. destruct (is_failure "post_stream" s); simpl; lia.
Qed.

End Request.

(** A response without any content counts as successful, and its time enters the latency percentiles. *)
Theorem empty_response_in_latency :
  let x := Workload.Spec "unique" "m" [] true 16 None None "main" in
  let s := one_request (fun _ => None) x 0 (1 # 2) (Lines [("data: [DONE]", 1 # 4)] false) in
  content_chunks s = 0 ∧ outcome s = "ok" ∧ p95 (total (slice_metrics (fun q => q) [s])) = Some (((1 # 2) - 0) * 1000)%Q.
Proof. vm_compute. done. Qed.

(** ** Route deltas *)

(** The answer of [/admin/routes]: totals and the completion tokens of each row; a missing, null or zero field is [0]. *)
Inductive snapshot := Routes (requests cost : option Q) (completion : list (option Q)) | No_object.
Record totals_t := Totals { t_requests : Q; t_cost : Q; t_completion : Q }.
Definition totals (s : snapshot) : totals_t :=
  match s with
  | Routes r c rows => Totals (default 0%Q r) (default 0%Q c) (UsageStore.qsum (map (default 0%Q) rows))
  | No_object => Totals 0 0 0
  end.
Record route_delta := Delta { d_requests : Q; d_completion : Q; d_cost : Q; d_output_tps : option Q }.
(** [_routes_delta] *)
Definition routes_delta (before after : snapshot) (wall : Q) : route_delta :=
  let b := totals before in let a := totals after in
  Delta (t_requests a - t_requests b) (t_completion a - t_completion b) (t_cost a - t_cost b)
    (if bool_decide (0 < wall)%Q then Some ((t_completion a - t_completion b) / wall)%Q else None).
(** The tail of [run_workload]: a delta needs both snapshots, which need an operator key and an exclusive target; an empty answer is no snapshot. *)
Definition run_delta (admin_api_key : option string) (exclusive_target : bool) (before after : option snapshot) (wall : Q) : option route_delta :=
  let want := match admin_api_key with Some k => str_true k | None => false end && exclusive_target in
  match (if want then before else None), (if want then after else None) with
  | Some b, Some a => Some (routes_delta b a wall)
  | _, _ => None
  end.

End Driver.
