(* ===== verification/BenchGate.v ===== *)
(** * The benchmark report and its comparison gate ([engine/bench/report.py], [gate.py], [main.py])

    [Module Value] is the data a report is made of, with Python's equality.  [Module Report] is
    [RunReport] and [IdentityStamp] with their dictionaries, and [sanitize_origin].  [Module Gate]
    is [compare] with everything it reads; it is shown to pass exactly when a declarative
    condition holds.  [Module Compare] is the [compare] command. *)

From Stdlib Require Import Ascii.
From S2P Require Import Prelude Crypto Text Sql Bench.

Open Scope Z_scope.

Module Value.

Inductive t :=
| VNone
| VBool (b : bool)
| VInt (z : Z)
| VFloat (q : Q)
| VStr (s : string)
| VList (l : list t)
| VDict (l : list (string * t)).

(** [float(v) if isinstance(v, (int, float)) else None]: a bool is an int. *)
Definition num (v : t) : option Q :=
  match v with
  | VBool b => Some (if b then 1 else 0)%Q
  | VInt z => Some (inject_Z z)
  | VFloat q => Some q
  | _ => None
  end.
(** [d.get(key)] *)
Definition lookup (key : string) (d : list (string * t)) : t := default VNone (dict_get key d).
Definition as_dict (v : t) : option (list (string * t)) := match v with VDict l => Some l | _ => None end.

(** [a == b] *)
Fixpoint py_eq (a b : t) : bool :=
  match num a, num b with
  | Some x, Some y => Qeq_bool x y
  | Some _, None | None, Some _ => false
  | None, None =>
      match a, b with
      | VNone, VNone => true
      | VStr x, VStr y => bool_decide (x = y)
      | VList x, VList y =>
          (fix all2 (x y : list t) : bool :=
             match x, y with
             | [], [] => true
             | a :: x, b :: y => py_eq a b && all2 x y
             | _, _ => false
             end) x y
      | VDict x, VDict y =>
          Nat.eqb (length x) (length y) &&
          (fix all (x : list (string * t)) : bool :=
             match x with
             | [] => true
             | (k, v) :: x => match dict_get k y with Some w => py_eq v w | None => false end && all x
             end) x
      | _, _ => false
      end
  end.

Definition truthy (v : t) : bool :=
  match v with
  | VNone => false
  | VBool b => b
  | VInt z => negb (z =? 0)
  | VFloat q => negb (Qeq_bool q 0)
  | VStr s => str_true s
  | VList l => negb (Nat.eqb (length l) 0)
  | VDict l => negb (Nat.eqb (length l) 0)
  end.

End Value.

Module Report.
Import Value.
Abbreviation dict := (list (string * Value.t)).

Definition HARNESS_VERSION : string := "1.0.0".
Definition SCHEMA_VERSION : Z := 1.

Record IdentityStamp := Identity {
  i_harness_version : string;
  build_info : dict;
  python_version : string;
  platform : string;
  timestamp : string;
  origin : string
}.
Record RunReport := Report_ {
  identity : IdentityStamp;
  manifest : dict;
  results : dict;
  route_delta : option dict;
  metric_sources : dict;
  schema_version : Z;
  harness_version : string
}.

Definition identity_to_dict (i : IdentityStamp) : dict :=
  [("harness_version", VStr (i_harness_version i)); ("build_info", VDict (build_info i)); ("python_version", VStr (python_version i));
   ("platform", VStr (platform i)); ("timestamp", VStr (timestamp i)); ("origin", VStr (origin i))].
(** [RunReport.to_dict] *)
Definition to_dict (r : RunReport) : dict :=
  [("schema_version", VInt (schema_version r)); ("harness_version", VStr (harness_version r));
   ("identity", VDict (identity_to_dict (identity r))); ("manifest", VDict (manifest r)); ("results", VDict (results r));
   ("route_delta", match route_delta r with Some d => VDict d | None => VNone end); ("metric_sources", VDict (metric_sources r))].

Inductive error := ReportError (why : string) | Uncaught (e : exn).

Section Parse.
(** [str(v)] of a value that is not a string, and [dict(l)] of a non-empty list. *)
Context (to_str : Value.t → string) (dict_of_pairs : list Value.t → result exn dict).
Definition str_of (v : Value.t) : string := match v with VStr s => s | _ => to_str v end.

(** [dict(v)]: the characters of a string are no pairs. *)
Definition dict_of_value (v : Value.t) : result exn dict :=
  match v with
  | VDict d => Ok d
  | VStr s => if bool_decide (s = "") then Ok [] else Err ValueError
  | VList [] => Ok []
  | VList l => dict_of_pairs l
  | _ => Err TypeError
  end.
Definition item (key : string) (d : dict) : result exn Value.t := match dict_get key d with Some v => Ok v | None => Err KeyError end.
Definition bind_r {A B} (m : result exn A) (k : A → result exn B) : result exn B := match m with Ok a => k a | Err e => Err e end.

(** [IdentityStamp.from_dict]: indexing anything but a dictionary with a name raises [TypeError]. *)
Definition identity_from (v : Value.t) : result exn IdentityStamp :=
  match v with
  | VDict d =>
      bind_r (item "harness_version" d) (fun hv =>
      bind_r (match dict_get "build_info" d with Some b => dict_of_value b | None => Ok [] end) (fun bi =>
      bind_r (item "python_version" d) (fun pv =>
      bind_r (item "platform" d) (fun pl =>
      bind_r (item "timestamp" d) (fun ts =>
      bind_r (item "origin" d) (fun o =>
      Ok (Identity (str_of hv) bi (str_of pv) (str_of pl) (str_of ts) (str_of o))))))))
  | _ => Err TypeError
  end.

(** [RunReport.from_dict] *)
Definition from_dict (d : dict) : result error RunReport :=
  if negb (py_eq (lookup "schema_version" d) (VInt SCHEMA_VERSION)) then Err (ReportError "incompatible report schema_version")
  else
    match bind_r (item "identity" d) identity_from, bind_r (item "manifest" d) dict_of_value, bind_r (item "results" d) dict_of_value with
    | Ok i, Ok m, Ok rs =>
        match (match dict_get "metric_sources" d with Some v => dict_of_value v | None => Ok [] end) with
        | Err e => Err (Uncaught e)
        | Ok ms =>
            Ok (Report_ i m rs (as_dict (lookup "route_delta" d)) ms SCHEMA_VERSION
                  (match dict_get "harness_version" d with Some v => str_of v | None => "" end))
        end
    | Err (KeyError | TypeError), _, _ | Ok _, Err (KeyError | TypeError), _ | Ok _, Ok _, Err (KeyError | TypeError) =>
        Err (ReportError "malformed report")
    | Err e, _, _ | Ok _, Err e, _ | Ok _, Ok _, Err e => Err (Uncaught e)
    end.
(** [RunReport.from_json] *)
Definition from_json (json_loads : string → option Value.t) (text : string) : result error RunReport :=
  match json_loads text with
  | None => Err (ReportError "invalid JSON")
  | Some (VDict d) => from_dict d
  | Some _ => Err (ReportError "report must be a JSON object")
  end.

(** A report survives its dictionary.  Reading back what a report wrote gives the same
    report, and a report of another schema version is refused, whatever else it holds. *)
Theorem report_roundtrip r :
  from_dict (to_dict r) =
    if schema_version r =? SCHEMA_VERSION then Ok r else Err (ReportError "incompatible report schema_version").
Proof.
  destruct r as [[hv bi pv pl ts o] m rs rd ms sv hv']. unfold from_dict, to_dict, lookup.
  cbn [schema_version dict_get find fst snd bool_decide]. simpl.
  assert (Qeq_bool (inject_Z sv) (inject_Z 1) = (sv =? SCHEMA_VERSION)) as Hq.
  { unfold SCHEMA_VERSION. destruct (Z.eqb_spec sv 1) as [->|Hne]; [done|]. apply not_true_is_false. intros E%Qeq_bool_eq.
    by apply Hne, inject_Z_injective. }
  unfold SCHEMA_VERSION in *. rewrite Hq. destruct (Z.eqb_spec sv 1) as [->|]; [|done]. by destruct rd.
Qed.
End Parse.

End Report.

(** * The gate *)

Module Gate.
Import Value Report.

Inductive direction := Lower | Higher.
Definition DIRECTION : list (string * direction) :=
  [("ttft_mean", Lower); ("ttft_p50", Lower); ("ttft_p95", Lower); ("ttft_p99", Lower);
   ("latency_mean", Lower); ("latency_p50", Lower); ("latency_p95", Lower); ("latency_p99", Lower);
   ("accepted_rate", Higher); ("output_tps", Higher); ("cost", Lower)].
Definition ROUTE_DERIVED : list string := ["output_tps"; "cost"].
Definition MANIFEST_KEYS : list string :=
  ["name"; "version"; "seed"; "model"; "counts"; "concurrency"; "burst_concurrency"; "warmup_requests"; "max_tokens";
   "prefix_chars"; "long_context_chars"; "stream_mode"].

Record RegressionBudget := Budget { error_rate_pp : Q; latency_pct : Q; shed_rate_pp : Q }.
Definition default_budget : RegressionBudget := Budget (1 # 2) (1 # 20) 2.

(** The reasons, without their numbers. *)
Inductive reason := Rejected (why : string) | Not_improved | Error_rate | Latency (slice : string) | Shed_rate.
Record GateOutcome := Outcome { passed : bool; reasons : list reason }.

(** [results.get(key, {})] when it is a dictionary. *)
Definition section (key : string) (r : RunReport) : option dict :=
  match dict_get key (results r) with None => Some [] | Some v => as_dict v end.
(** [_slice_metrics] *)
Definition slice_row (r : RunReport) (s : string) : option dict := d ← section "slices" r; as_dict (lookup s d).
(** [_client_value] *)
Definition client_value (r : RunReport) (metric s : string) : option Q :=
  if bool_decide (metric = "accepted_rate") then d ← section "overall" r; num (lookup "accepted_rate" d)
  else
    row ← slice_row r s;
    let '(family, stat) := Text.partition "_"%char metric in
    key ← dict_get family [("ttft", "ttft_ms"); ("latency", "total_ms")];
    d ← as_dict (lookup key row);
    num (lookup stat d).
Section Strings.
Context (to_str : Value.t → string).
(** [_route_value] *)
Definition route_value (r : RunReport) (metric : string) : option Q * option string * bool :=
  match route_delta r with
  | None => (None, None, false)
  | Some rd => (num (lookup metric rd),
                match lookup "source" rd with VNone => None | v => Some (str_of to_str v) end,
                match dict_get "exclusive_target" rd with Some v => truthy v | None => false end)
  end.
(** [_target_value] *)
Definition target_value (r : RunReport) (metric s : string) : option Q :=
  if bool_decide (metric ∈ ROUTE_DERIVED) then fst (fst (route_value r metric)) else client_value r metric s.
(** [_p95_latency] and [_shed_rate] *)
Definition p95_latency (r : RunReport) (s : string) : option Q :=
  row ← slice_row r s; d ← as_dict (lookup "total_ms" row); num (lookup "p95" d).
Definition shed_rate (r : RunReport) (s : string) : option Q := row ← slice_row r s; num (lookup "shed_rate" row).
(** [int(v or 0)] *)
Definition int_or_0 (v : Value.t) : result exn Z :=
  if negb (truthy v) then Ok 0
  else match num v, v with
       | Some q, _ => Ok (Workload.trunc q)
       | None, VStr s => match Text.int s with Some z => Ok z | None => Err ValueError end
       | None, _ => Err TypeError
       end.
(** [_overall_error_rate] *)
Definition overall_error_rate (r : RunReport) : result exn (option Q * Z) :=
  match section "overall" r with
  | None => Ok (None, 0)
  | Some d => match int_or_0 (match dict_get "admitted" d with Some v => v | None => VInt 0 end) with
              | Err e => Err e
              | Ok n => Ok (num (lookup "error_rate" d), n)
              end
  end.

(** [_incomparable] *)
Definition incomparable (b c : RunReport) (metric s : string) : list string :=
  (if schema_version b =? schema_version c then [] else ["schema_version mismatch between reports"])
  ++ (if bool_decide (harness_version b = harness_version c) then [] else ["harness_version mismatch"])
  ++ map (fun k => "workload manifest mismatch on " +:+ k)
       (List.filter (fun k => negb (py_eq (lookup k (manifest b)) (lookup k (manifest c)))) MANIFEST_KEYS)
  ++ (if bool_decide (is_Some (dict_get metric DIRECTION)) then [] else ["unknown target metric"])
  ++ (if bool_decide (metric ∈ ROUTE_DERIVED) then
        let '(_, b_src, b_excl) := route_value b metric in
        let '(_, c_src, c_excl) := route_value c metric in
        match b_src, c_src with
        | Some x, Some y => if negb (bool_decide (x = y)) then ["route metric source mismatch"]
                            else if negb (b_excl && c_excl) then ["route metric requires an exclusive-target run in both"] else []
        | _, _ => ["target metric is route-derived but unavailable"]
        end
      else if negb (bool_decide (metric = "accepted_rate"))
              && (bool_decide (slice_row b s = None) || bool_decide (slice_row c s = None))
           then ["target slice missing from a report"] else []).

(** [_all_slices] without the target, in name order. *)
Definition slice_names (r : RunReport) : list string := match section "slices" r with Some d => map fst d | None => [] end.
Definition other_slices (b c : RunReport) (target : string) : list string :=
  Sql.order_by str_leb (List.filter (fun s => bool_decide (s ∈ slice_names c) && negb (bool_decide (s = target))) (slice_names b)).

Definition improvement (d : direction) (b c : Q) : Q := match d with Lower => (b - c) / b | Higher => (c - b) / b end.
Definition over (x limit : Q) : bool := bool_decide (limit < x)%Q.

(** The veto on one other slice. *)
Definition latency_veto (bu : RegressionBudget) (b c : RunReport) (s : string) : list reason :=
  match p95_latency b s, p95_latency c s with
  | Some x, Some y => if Qeq_bool x 0 then [] else if over ((y - x) / x) (latency_pct bu) then [Latency s] else []
  | _, _ => []
  end.
Definition shed_veto (bu : RegressionBudget) (b c : RunReport) : list reason :=
  match shed_rate b "saturation", shed_rate c "saturation" with
  | Some x, Some y => if over ((y - x) * 100) (shed_rate_pp bu) then [Shed_rate] else []
  | _, _ => []
  end.

(** [compare] *)
Definition compare (b c : RunReport) (metric target : string) (min_improvement : Q) (bu : RegressionBudget) : result exn GateOutcome :=
  match incomparable b c metric target with
  | (_ :: _) as rejects => Ok (Outcome false (map Rejected rejects))
  | [] =>
      match target_value b metric target, target_value c metric target with
      | Some bv, Some cv =>
          if Qeq_bool bv 0 then Ok (Outcome false [Rejected "baseline is 0 (improvement undefined)"])
          else
            match dict_get metric DIRECTION with
            | None => Err KeyError
            | Some d =>
                let improved := if bool_decide (min_improvement <= improvement d bv cv)%Q then [] else [Not_improved] in
                match overall_error_rate b, overall_error_rate c with
                | Err e, _ | Ok _, Err e => Err e
                | Ok (Some be, bn), Ok (Some ce, cn) =>
                    if (bn =? 0) || (cn =? 0) then Ok (Outcome false [Rejected "overall error rate has an invalid (zero-admitted) denominator"])
                    else
                      let rs := improved
                        ++ (if over ((ce - be) * 100) (error_rate_pp bu) then [Error_rate] else [])
                        ++ flat_map (latency_veto bu b c) (other_slices b c target)
                        ++ shed_veto bu b c in
                      Ok (Outcome (bool_decide (rs = [])) rs)
                | Ok _, Ok _ => Ok (Outcome false [Rejected "overall error rate has an invalid (zero-admitted) denominator"])
                end
            end
      | _, _ => Ok (Outcome false [Rejected "target metric undefined in a report"])
      end
  end.

(** ** What it takes to pass *)

Definition comparable (b c : RunReport) (metric target : string) : Prop :=
  schema_version b = schema_version c ∧ harness_version b = harness_version c ∧
  (∀ k, k ∈ MANIFEST_KEYS → py_eq (lookup k (manifest b)) (lookup k (manifest c)) = true) ∧
  is_Some (dict_get metric DIRECTION) ∧
  (metric ∈ ROUTE_DERIVED →
     ∃ bv cv src, route_value b metric = (bv, Some src, true) ∧ route_value c metric = (cv, Some src, true)) ∧
  (metric ∉ ROUTE_DERIVED → metric ≠ "accepted_rate" → is_Some (slice_row b target) ∧ is_Some (slice_row c target)).

Definition within_budget (bu : RegressionBudget) (b c : RunReport) (target : string) : Prop :=
  (∃ be bn ce cn, overall_error_rate b = Ok (Some be, bn) ∧ overall_error_rate c = Ok (Some ce, cn) ∧ bn ≠ 0 ∧ cn ≠ 0 ∧
     ((ce - be) * 100 <= error_rate_pp bu)%Q) ∧
  (∀ s x y, s ∈ slice_names b → s ∈ slice_names c → s ≠ target → p95_latency b s = Some x → p95_latency c s = Some y →
     ~ (x == 0)%Q → ((y - x) / x <= latency_pct bu)%Q) ∧
  (∀ x y, shed_rate b "saturation" = Some x → shed_rate c "saturation" = Some y → ((y - x) * 100 <= shed_rate_pp bu)%Q).

Definition clears (b c : RunReport) (metric target : string) (min_improvement : Q) (bu : RegressionBudget) : Prop :=
  comparable b c metric target ∧
  (∃ bv cv d, target_value b metric target = Some bv ∧ target_value c metric target = Some cv ∧ ~ (bv == 0)%Q ∧
     dict_get metric DIRECTION = Some d ∧ (min_improvement <= improvement d bv cv)%Q) ∧
  within_budget bu b c target.

Lemma over_false x l : over x l = false ↔ (x <= l)%Q.
Proof. unfold over. rewrite bool_decide_eq_false. split; [apply Qnot_lt_le|apply Qle_not_lt]. Qed.
Lemma app_nil_iff {A} (l l' : list A) : l ++ l' = [] ↔ l = [] ∧ l' = [].
Proof. split; [apply app_eq_nil|by intros [-> ->]]. Qed.
Lemma if_nil {A} (b : bool) (x : A) : (if b then [] else [x]) = [] ↔ b = true.
Proof. by destruct b. Qed.
Lemma if_nil' {A} (b : bool) (x : A) : (if b then [x] else []) = [] ↔ b = false.
Proof. by destruct b. Qed.
Lemma flat_map_nil {A B} (f : A → list B) l : flat_map f l = [] ↔ ∀ x, x ∈ l → f x = [].
Proof.
  induction l as [|a l IH]; simpl; [split; [by intros _ x ?%not_elem_of_nil|done]|].
  rewrite app_nil_iff, IH. split; [intros [H1 H2] x [->|?]%elem_of_cons; auto|].
  intros H. split; [apply H; by left|intros x Hx; apply H; by right].
Qed.
Lemma map_filter_nil {A B} (f : A → B) p l : map f (List.filter p l) = [] ↔ ∀ x, x ∈ l → p x = false.
Proof.
  induction l as [|a l IH]; simpl; [split; [by intros _ x ?%not_elem_of_nil|done]|].
  destruct (p a) eqn:E; simpl.
  - split; [done|]. intros H. specialize (H a ltac:(by left)). congruence.
  - rewrite IH. split; [intros H x [->|?]%elem_of_cons; auto|]. intros H x Hx. apply H. by right.
Qed.

Lemma incomparable_nil b c metric target : incomparable b c metric target = [] ↔ comparable b c metric target.
Proof.
  unfold incomparable, comparable. rewrite !app_nil_iff, !if_nil, map_filter_nil, !bool_decide_eq_true, Z.eqb_eq.
  apply and_iff_compat_l, and_iff_compat_l.
  assert (∀ P P' Q Q' : Prop, (P ↔ P') → (Q ↔ Q') → (P ∧ Q ↔ P' ∧ Q')) as and_cong by tauto.
  apply and_cong; [|apply and_iff_compat_l].
  { split; intros H k Hk; specialize (H k Hk); [by apply negb_false_iff|by rewrite H]. }
  case_bool_decide as Hr.
  - destruct (route_value b metric) as [[bv [bs|]] be], (route_value c metric) as [[cv [cs|]] ce]; simpl.
    + destruct (bool_decide_reflect (bs = cs)) as [->|Hne]; simpl.
      * rewrite if_nil', negb_false_iff, andb_true_iff. split; [intros [-> ->]; split; [by eauto|done]|].
        intros [H _]. destruct (H Hr) as (? & ? & ? & H1 & H2). by simplify_eq.
      * split; [done|]. intros [H _]. destruct (H Hr) as (? & ? & ? & H1 & H2). by simplify_eq.
    + split; [done|]. intros [H _]. destruct (H Hr) as (? & ? & ? & H1 & H2). by simplify_eq.
    + split; [done|]. intros [H _]. destruct (H Hr) as (? & ? & ? & H1 & H2). by simplify_eq.
    + split; [done|]. intros [H _]. destruct (H Hr) as (? & ? & ? & H1 & H2). by simplify_eq.
  - rewrite if_nil', andb_false_iff, negb_false_iff, orb_false_iff, bool_decide_eq_true, !bool_decide_eq_false,
      <- !not_eq_None_Some. split.
    + intros H. split; [by intros ?|]. intros _ Hne. destruct H as [?|[? ?]]; [done|by split].
    + intros [_ H]. destruct (decide (metric = "accepted_rate")) as [|Hne]; [by left|right]. by apply H.
Qed.

Lemma other_slices_spec b c target s : s ∈ other_slices b c target ↔ s ∈ slice_names b ∧ s ∈ slice_names c ∧ s ≠ target.
Proof.
  unfold other_slices. rewrite Sql.order_by_perm, list_elem_of_In, filter_In, <- list_elem_of_In, andb_true_iff,
    negb_true_iff, bool_decide_eq_true, bool_decide_eq_false. done.
Qed.
Lemma latency_veto_nil bu b c s :
  latency_veto bu b c s = [] ↔
  ∀ x y, p95_latency b s = Some x → p95_latency c s = Some y → ~ (x == 0)%Q → ((y - x) / x <= latency_pct bu)%Q.
Proof.
  unfold latency_veto. destruct (p95_latency b s) as [x|]; [|by split]. destruct (p95_latency c s) as [y|]; [|by split].
  destruct (Qeq_bool x 0) eqn:E.
  - apply Qeq_bool_eq in E. split; [|done]. by intros _ ? ? [= <-] [= <-] ?.
  - apply Qeq_bool_neq in E. rewrite if_nil', over_false. split; [by intros H ? ? [= <-] [= <-] _|]. intros H. by apply H.
Qed.
Lemma shed_veto_nil bu b c :
  shed_veto bu b c = [] ↔
  ∀ x y, shed_rate b "saturation" = Some x → shed_rate c "saturation" = Some y → ((y - x) * 100 <= shed_rate_pp bu)%Q.
Proof.
  unfold shed_veto. destruct (shed_rate b _) as [x|]; [|by split]. destruct (shed_rate c _) as [y|]; [|by split].
  rewrite if_nil', over_false. split; [by intros H ? ? [= <-] [= <-]|]. intros H. by apply H.
Qed.

(** C37. The gate passes exactly the candidates that clear it.  The outcome is a pass if and only if
    the two reports are comparable, the target metric is defined in both with a baseline other than 0 and improves by
    at least the required fraction in its direction, the overall error rates are defined over admitted requests and differ by at most
    the budget, the p95 latency of no other slice of both reports rises by more than its budget, and the shed rate of the
    saturation slice does not either; a refusal always names a reason. *)
Theorem gate_exact b c metric target min_improvement bu o :
  compare b c metric target min_improvement bu = Ok o →
  (passed o = true ↔ clears b c metric target min_improvement bu) ∧ (passed o = true ↔ reasons o = []).
Proof.
  unfold compare, clears. intros Hc.
  destruct (incomparable b c metric target) as [|r rs] eqn:Ei.
  2: { injection Hc as <-. simpl. split; [|done]. split; [done|]. intros [H _]. apply incomparable_nil in H. congruence. }
  apply incomparable_nil in Ei.
  destruct (target_value b metric target) as [bv|] eqn:Eb;
    [|injection Hc as <-; split; [|done]; split; [done|by intros (_ & (? & ? & ? & ? & _) & _)]].
  destruct (target_value c metric target) as [cv|] eqn:Ec;
    [|injection Hc as <-; split; [|done]; split; [done|by intros (_ & (? & ? & ? & _ & ? & _) & _)]].
  destruct (Qeq_bool bv 0) eqn:E0.
  { injection Hc as <-. split; [|done]. split; [done|]. intros (_ & (x & ? & ? & [= <-] & _ & Hx & _) & _). by apply Qeq_bool_eq in E0. }
  destruct (dict_get metric DIRECTION) as [d|] eqn:Ed; [|done]. apply Qeq_bool_neq in E0. unfold within_budget.
  destruct (overall_error_rate b) as [[be bn]|]; [|done]. destruct (overall_error_rate c) as [[ce cn]|]; [|by destruct be].
  destruct be as [be|]; [|injection Hc as <-; split; [|done]; split; [done|by intros (_ & _ & (? & ? & ? & ? & ? & _) & _)]].
  destruct ce as [ce|]; [|injection Hc as <-; split; [|done]; split; [done|by intros (_ & _ & (? & ? & ? & ? & _ & ? & _) & _)]].
  destruct ((bn =? 0) || (cn =? 0)) eqn:En.
  { injection Hc as <-. split; [|done]. split; [done|]. apply orb_true_iff in En. rewrite !Z.eqb_eq in En.
    intros (_ & _ & (? & ? & ? & ? & [= <- <-] & [= <- <-] & ? & ? & _) & _). by destruct En. }
  apply orb_false_iff in En as [Hbn%Z.eqb_neq Hcn%Z.eqb_neq].
  injection Hc as <-. cbn [passed reasons]. rewrite bool_decide_eq_true. split; [|done].
  rewrite !app_nil_iff, if_nil, if_nil', bool_decide_eq_true, over_false, flat_map_nil, shed_veto_nil.
  setoid_rewrite latency_veto_nil. setoid_rewrite other_slices_spec. split.
  - intros (Hi & He & Hl & Hs). split_and!; [done|by eexists _, _, _|by eexists _, _, _, _| |done]. intros. by eapply Hl.
  - intros (_ & (? & ? & ? & [= <-] & [= <-] & _ & [= <-] & Hi) & (? & ? & ? & ? & [= <- <-] & [= <- <-] & _ & _ & He) & Hl & Hs).
    split_and!; [done|done| |done]. intros s (H1 & H2 & H3) x y Hx Hy Hn. by eapply Hl.
Qed.

End Strings.

(** ** Examples *)

Definition row (p95 shed : Q) : Value.t := VDict [("shed_rate", VFloat shed); ("total_ms", VDict [("p95", VFloat p95)]); ("ttft_ms", VDict [("mean", VFloat p95)])].
Definition shed_row : Value.t := VDict [("shed_rate", VFloat 1); ("total_ms", VDict [("p95", VNone)]); ("ttft_ms", VDict [("mean", VNone)])].
Definition demo_report (slices : dict) : RunReport :=
  Report_ (Identity HARNESS_VERSION [] "3.12" "linux" "2024" "http://h") [("name", VStr "standard"); ("counts", VDict [("unique", VInt 8)])]
    [("slices", VDict slices); ("overall", VDict [("admitted", VInt 100); ("error_rate", VFloat 0)])] None [] SCHEMA_VERSION HARNESS_VERSION.
Definition demo_baseline : RunReport := demo_report [("unique", row 100 0); ("structured", row 50 0); ("saturation", row 10 (1 # 10))].
Definition demo_compare (c : RunReport) : result exn GateOutcome :=
  compare (fun _ => "") demo_baseline c "ttft_mean" "unique" (3 # 20) default_budget.

Lemma gate_exact_witness :
  let c := demo_report [("unique", row 80 0); ("structured", row 52 0); ("saturation", row 10 (1 # 10))] in
  clears (fun _ => "") demo_baseline c "ttft_mean" "unique" (3 # 20) default_budget.
Proof.
  intros c. apply (gate_exact (fun _ => "") demo_baseline c "ttft_mean" "unique" (3 # 20) default_budget (Outcome true []));
    vm_compute; reflexivity.
Defined.
Example gate_names_reasons :
  demo_compare (demo_report [("unique", row 90 0); ("structured", row 60 0); ("saturation", row 10 (1 # 2))])
  = Ok (Outcome false [Not_improved; Latency "structured"; Shed_rate]).
Proof. vm_compute. reflexivity. Qed.

(** A candidate that sheds every request of a slice other than the target and the saturation slice passes: the slice has no p95 latency
    left to compare, shed requests are no errors, and its shed rate is not looked at. *)
Theorem shed_slice_passes :
  demo_compare (demo_report [("unique", row 80 0); ("structured", shed_row); ("saturation", row 10 (1 # 10))]) = Ok (Outcome true []).
Proof. vm_compute. reflexivity. Qed.

(** The default target slice of the command is no slice: with it, any latency or first-token metric is refused. *)
Theorem default_target_refused b c metric min_improvement bu to_str :
  metric ∈ ["ttft_mean"; "ttft_p50"; "ttft_p95"; "ttft_p99"; "latency_mean"; "latency_p50"; "latency_p95"; "latency_p99"] →
  (∀ v, dict_get "overall" (default [] (section "slices" b)) ≠ Some (VDict v)) →
  ∃ rs, compare to_str b c metric "overall" min_improvement bu = Ok (Outcome false (map Rejected rs)) ∧ rs ≠ [].
Proof.
  intros Hm Hb. unfold compare. destruct (incomparable to_str b c metric "overall") as [|r rs] eqn:E; [|by exists (r :: rs)].
  apply incomparable_nil in E as (_ & _ & _ & _ & _ & H). exfalso.
  destruct H as [[row Hrow] _].
  - intros Hin. revert Hin. apply (bool_decide_unpack _).
    repeat (apply elem_of_cons in Hm as [->|Hm]; [vm_compute; exact I|]). by apply not_elem_of_nil in Hm.
  - intros ->. revert Hm. apply (bool_decide_unpack _). vm_compute. exact I.
  - unfold slice_row in Hrow. destruct (section "slices" b) as [d|]; [|done]. cbn [mbind option_bind] in Hrow.
    unfold lookup in Hrow. simpl in Hb. destruct (dict_get "overall" d) as [v|]; [|done]. destruct v; try done. by apply (Hb l).
Qed.

End Gate.

(** * The command, and the origin it records *)

Module Compare.
Import Value Report Gate.

(** What [_cmd_compare] returns: 2 for a report it cannot read. *)
Definition cmd_compare (to_str : Value.t → string) dict_of_pairs json_loads (baseline candidate metric target : string) (min_improvement : Q) (bu : RegressionBudget)
  : result error Z :=
  match from_json to_str dict_of_pairs json_loads baseline with
  | Err (ReportError _) => Ok 2
  | Err e => Err e
  | Ok b =>
      match from_json to_str dict_of_pairs json_loads candidate with
      | Err (ReportError _) => Ok 2
      | Err e => Err e
      | Ok c => match compare to_str b c metric target min_improvement bu with
                | Err e => Err (Uncaught e)
                | Ok o => Ok (if passed o then 0 else 1)
                end
      end
  end.

(** [urlsplit]: the scheme, the host without brackets and user, and the port, whose text may be no port. *)
Record parts := Parts { scheme : string; hostname : option string; port : result exn (option Z) }.
(** [sanitize_origin]: only [urlsplit] is inside the [try]. *)
Definition sanitize_origin (urlsplit : string → result exn parts) (url : string) : result exn string :=
  match urlsplit url with
  | Err ValueError => Ok "unknown"
  | Err e => Err e
  | Ok p =>
      let host := default "" (hostname p) in
      match port p with
      | Err e => Err e
      | Ok po =>
          let host := match po with Some n => host +:+ ":" +:+ Text.str_int n | None => host end in
          if negb (str_true (scheme p)) || negb (str_true host) then Ok "unknown"
          else Ok (scheme p +:+ "://" +:+ host)
      end
  end.

(** A port that is no port raises past the handler, and the brackets of an IPv6 host are lost. *)
Theorem origin_gaps :
  sanitize_origin (fun _ => Ok (Parts "http" (Some "h") (Err ValueError))) "http://h:x" = Err ValueError ∧
  sanitize_origin (fun _ => Ok (Parts "http" (Some "::1") (Ok (Some 8000)))) "http://[::1]:8000" = Ok "http://::1:8000".
Proof. vm_compute. done. Qed.

End Compare.

