(* ===== verification/Operability.v ===== *)
(** * Readiness, alerts, telemetry and the operator sockets

    [Module Alerts]: [telemetry/alerts.py] and the [/admin/alerts] route that feeds it.
    [Module Readiness]: [readiness_state] and [/readyz] of [api/health.py], and the readiness of
    [/admin/overview].  [Module TelemetryService]: the throughput measurement and the sampler task of
    [telemetry/service.py].  [Module Sockets]: [api/ws_router.py], the gate of the two operator sockets and the
    pump between a subscription and a socket.  [Module ModelControl]: the load and unload
    routes of [api/admin_router.py].  [Module Attribution]: the per-key usage view of [api/monitoring_router.py]. *)

From S2P Require Import Prelude Crypto Text Sql Store Keys Billing Quota Gateway Placement Webhooks ClientEvents Telemetry Observability.

Open Scope Z_scope.

(** * Alerts *)

Module Alerts.

Inductive severity := Critical | Warning | Info.
#[export] Instance severity_eq_dec : EqDecision severity.
Proof. solve_decision. Defined.
Definition order (s : severity) : Z := match s with Critical => 0 | Warning => 1 | Info => 2 end.

(** An alert by its kind; its message and target follow from it. *)
Inductive kind :=
| Backend_unhealthy (name : string)
| Client_canceled (id : string)
| Client_suspended (id : string)
| Webhook_dead_letters (n : Z)
| Usage_threshold (id : string).
#[export] Instance kind_eq_dec : EqDecision kind.
Proof. solve_decision. Defined.
Definition severity_of (k : kind) : severity :=
  match k with Backend_unhealthy _ | Client_canceled _ => Critical | _ => Warning end.
Definition target (k : kind) : string * option string :=
  match k with
  | Backend_unhealthy n => ("backend", Some n)
  | Client_canceled c | Client_suspended c | Usage_threshold c => ("client", Some c)
  | Webhook_dead_letters _ => ("webhook_deliveries", None)
  end.
Definition message (k : kind) : string :=
  match k with
  | Backend_unhealthy n => "Backend " +:+ Json.repr_str n +:+ " is loaded but not ready"
  | Client_canceled c => "Client " +:+ c +:+ " is canceled; its keys are revoked"
  | Client_suspended c => "Client " +:+ c +:+ " is suspended"
  | Webhook_dead_letters n => Text.str_int n +:+ " webhook deliver" +:+ (if n =? 1 then "y is" else "ies are") +:+ " dead-lettered"
  | Usage_threshold c => "Client " +:+ c +:+ " crossed its usage threshold"
  end.

Definition client_alert (c : Db.client) : list kind :=
  if bool_decide (Db.c_status c = "canceled") then [Client_canceled (Db.c_id c)]
  else if bool_decide (Db.c_status c = "suspended") then [Client_suspended (Db.c_id c)] else [].
(** The loop over the threshold events with its [seen_clients]. *)
Fixpoint threshold_alerts (seen : list string) (es : list ClientEventLog.ClientEvent) : list kind :=
  match es with
  | [] => []
  | e :: es =>
      let c := ClientEventLog.client_id e in
      if bool_decide (c ∈ seen) then threshold_alerts seen es else Usage_threshold c :: threshold_alerts (c :: seen) es
  end.
(** The alerts before they are sorted, and [compute_alerts]. *)
Definition collected (clients : list Db.client) (es : list ClientEventLog.ClientEvent) (dead : Z) (unhealthy : list string) : list kind :=
  map Backend_unhealthy unhealthy ++ flat_map client_alert clients
  ++ (if 0 <? dead then [Webhook_dead_letters dead] else []) ++ threshold_alerts [] es.
Definition compute_alerts clients es dead unhealthy : list kind :=
  Sql.order_by (fun a b => order (severity_of a) <=? order (severity_of b)) (collected clients es dead unhealthy).

(** The [/admin/alerts] route, after its gate. *)
Definition unhealthy_names (reg : list BackendRegistry.BackendEntry) : list string :=
  map BackendRegistry.name (List.filter (fun e => BackendRegistry.is_loaded e && negb (BackendRegistry.is_ready e)) reg).
Definition alerts (now : Q) (d : Db.t) (w : WebhookStore.t) (log : ClientEventLog.t) (reg : list BackendRegistry.BackendEntry) : list kind :=
  compute_alerts (BillingStore.list_clients d)
    (ClientEventLog.recent_of_type "usage.threshold.reached" (now - inject_Z (7 * 24 * 3600))%Q 200 log)
    (Z.of_nat (WebhookStore.count_by_status WebhookStore.DEAD w)) (unhealthy_names reg).

Lemma threshold_alerts_spec seen es k :
  k ∈ threshold_alerts seen es ↔
  ∃ c, k = Usage_threshold c ∧ (c ∉ seen) ∧ ∃ e, e ∈ es ∧ ClientEventLog.client_id e = c.
Proof.
  revert seen. induction es as [|e es IH]; intros seen; simpl.
  { split; [by intros ?%not_elem_of_nil|by intros (? & _ & _ & ? & ?%not_elem_of_nil & _)]. }
  case_bool_decide as Hs.
  - rewrite IH. split.
    + intros (c & -> & Hc & e' & He & Hk). exists c. split_and!; [done|done|]. exists e'. split; [by right|done].
    + intros (c & -> & Hc & e' & He & Hk). exists c. split_and!; [done|done|].
      apply elem_of_cons in He as [->|He]; [by subst c|by exists e'].
  - rewrite elem_of_cons, IH. split.
    + intros [->|(c & -> & Hc & e' & He & Hk)].
      * eexists. split_and!; [done|done|]. exists e. split; [by left|done].
      * exists c. split_and!; [done|intros ?; apply Hc; by right|]. exists e'. split; [by right|done].
    + intros (c & -> & Hc & e' & He & Hk).
      destruct (decide (c = ClientEventLog.client_id e)) as [->|Hne]; [by left|right].
      exists c. split_and!; [done|by rewrite elem_of_cons; intros [?|?]|].
      apply elem_of_cons in He as [->|He]; [by subst c|by exists e'].
Qed.
Lemma threshold_alerts_nodup seen es : NoDup (threshold_alerts seen es).
Proof.
  revert seen. induction es as [|e es IH]; intros seen; simpl; [constructor|]. case_bool_decide; [done|].
  apply NoDup_cons. split; [|done]. intros (c & [= <-] & Hc & _)%threshold_alerts_spec. apply Hc. by left.
Qed.

Lemma elem_backends k reg :
  k ∈ map Backend_unhealthy (unhealthy_names reg) ↔
  ∃ e, k = Backend_unhealthy (BackendRegistry.name e) ∧ e ∈ reg ∧ BackendRegistry.is_loaded e = true ∧ BackendRegistry.is_ready e = false.
Proof.
  unfold unhealthy_names. rewrite map_map, list_elem_of_In, in_map_iff. setoid_rewrite filter_In. setoid_rewrite andb_true_iff.
  setoid_rewrite negb_true_iff. setoid_rewrite list_elem_of_In. split; intros (e & H); exists e; destruct H as (? & ? & ? & ?); by split_and!.
Qed.
Lemma elem_clients k cs :
  k ∈ flat_map client_alert cs ↔
  ∃ x, x ∈ cs ∧ (Db.c_status x = "canceled" ∧ k = Client_canceled (Db.c_id x) ∨ Db.c_status x = "suspended" ∧ k = Client_suspended (Db.c_id x)).
Proof.
  rewrite list_elem_of_In, in_flat_map. setoid_rewrite <- list_elem_of_In. unfold client_alert.
  split; intros (x & Hx & H); exists x; (split; [done|]).
  - case_bool_decide; [apply list_elem_of_singleton in H; by left|].
    case_bool_decide; [apply list_elem_of_singleton in H; by right|by apply not_elem_of_nil in H].
  - destruct H as [[H ->]|[H ->]]; rewrite H; simpl; by left.
Qed.
Lemma elem_dead k n : k ∈ (if 0 <? n then [Webhook_dead_letters n] else []) ↔ k = Webhook_dead_letters n ∧ 0 < n.
Proof.
  destruct (Z.ltb_spec 0 n); [rewrite list_elem_of_singleton; naive_solver|]. rewrite elem_of_nil. split; [done|]. intros [_ ?]. lia.
Qed.

(** The alert list is complete and correctly ordered.  It is sorted by severity and otherwise keeps the order in which
    the signals were read; it holds an alert for every canceled and every suspended client, for every backend that is loaded and not ready, one for
    dead-lettered deliveries when there are any, and one per client with a recent threshold event,
    and no other. *)
Theorem alerts_exact now d w log reg :
  let res := alerts now d w log reg in
  let es := ClientEventLog.recent_of_type "usage.threshold.reached" (now - inject_Z (7 * 24 * 3600))%Q 200 log in
  StronglySorted (fun a b => order (severity_of a) <= order (severity_of b)) res ∧
  res ≡ₚ collected (BillingStore.list_clients d) es (Z.of_nat (WebhookStore.count_by_status WebhookStore.DEAD w)) (unhealthy_names reg) ∧
  ∀ k, k ∈ res ↔
    match k with
    | Backend_unhealthy n => ∃ e, e ∈ reg ∧ BackendRegistry.name e = n ∧ BackendRegistry.is_loaded e = true ∧ BackendRegistry.is_ready e = false
    | Client_canceled c => ∃ x, x ∈ Db.clients d ∧ Db.c_id x = c ∧ Db.c_status x = "canceled"
    | Client_suspended c => ∃ x, x ∈ Db.clients d ∧ Db.c_id x = c ∧ Db.c_status x = "suspended"
    | Webhook_dead_letters n => n = Z.of_nat (WebhookStore.count_by_status WebhookStore.DEAD w) ∧ 0 < n
    | Usage_threshold c => ∃ e, e ∈ es ∧ ClientEventLog.client_id e = c
    end.
Proof.
  intros res es. unfold res, alerts, compute_alerts. split_and!.
  - set (l := collected _ _ _ _).
    pose proof (Sql.order_by_sorted (fun a b => order (severity_of a) <=? order (severity_of b))) as H.
    assert (StronglySorted (fun a b => (order (severity_of a) <=? order (severity_of b)) = true)
      (Sql.order_by (fun a b => order (severity_of a) <=? order (severity_of b)) l)) as Hs.
    { apply H; [intros a b; rewrite !Z.leb_le; lia|intros a b c; rewrite !Z.leb_le; lia]. }
    clear - Hs. induction Hs as [|x l' _ IH Hf]; [constructor|]. constructor; [done|].
    eapply Forall_impl; [exact Hf|]. intros y Hy. by apply Z.leb_le.
  - apply Sql.order_by_perm.
  - intros k. rewrite Sql.order_by_perm. unfold collected, BillingStore.list_clients. fold es.
    rewrite !elem_of_app, elem_backends, elem_clients, elem_dead, threshold_alerts_spec. setoid_rewrite Sql.order_by_perm.
    destruct k as [n|c|c|n|c]; split.
    all: try (intros [(? & [=] & Hx)|[(? & ? & [[? [=]]|[? [=]]])|[[[=] ?]|(? & [=] & Hx)]]]; subst).
    + destruct Hx as (? & ? & ?). eauto.
    + intros (e & ? & <- & ? & ?). left. by eauto.
    + by eauto.
    + intros (x & ? & <- & ?). right; left. exists x. by auto.
    + by eauto.
    + intros (x & ? & <- & ?). right; left. exists x. by auto.
    + done.
    + intros [-> ?]. right; right; by left.
    + destruct Hx as (_ & e & ? & ?). by exists e.
    + intros (e & ? & ?). right; right; right. exists c. split_and!; [done|by apply not_elem_of_nil|]. by exists e.
Qed.

End Alerts.

(** * Readiness *)

Module Readiness.
Import BackendRegistry.

(** What the probe finds on [app.state]; the reply of the database is an input. *)
Record app_state := App {
  database_error : option string;      (* the class of the exception the read-only probe raised *)
  migrations_ready : bool;
  registry : option (list BackendEntry);
  primary_backend : option backend;
  require_model_ready : bool;
  draining : option bool               (* of the scheduler, when there is one *)
}.
Inductive inference := Available (model : string) (state : BackendState) | Unavailable.

Definition pool_representative (a : app_state) : option backend := registry a ≫= representative.
Definition model_loaded (a : app_state) : bool :=
  bool_decide (is_Some (pool_representative a))
  || match primary_backend a with Some b => readyish (state b) | None => false end.
Definition ready_backend (a : app_state) : option backend :=
  match pool_representative a with Some b => Some b | None => primary_backend a end.
Definition is_draining (a : app_state) : bool := match draining a with Some b => b | None => false end.

Definition checks (a : app_state) : list (string * string) :=
  [("database", match database_error a with None => "ok" | Some c => "error: " +:+ c end);
   ("migrations", if migrations_ready a then "applied" else "pending")]
  ++ (if require_model_ready a && negb (model_loaded a) then [("inference", "model not ready")] else [])
  ++ (if is_draining a then [("intake", "draining")] else []).
(** [readiness_state]: the flag as the code lowers it, check by check. *)
Definition readiness_state (a : app_state) : bool * list (string * string) * inference :=
  let ready := true in
  let ready := match database_error a with None => ready | Some _ => false end in
  let ready := if negb (migrations_ready a) then false else ready in
  let inf := match ready_backend a with
             | Some b => if model_loaded a then Available (model_id (capabilities b)) (state b) else Unavailable
             | None => Unavailable
             end in
  let ready := if require_model_ready a && negb (model_loaded a) then false else ready in
  let ready := if is_draining a then false else ready in
  (ready, checks a, inf).
(** [readyz] *)
Definition readyz (a : app_state) : Z * string * list (string * string) * inference :=
  let '(ready, cs, inf) := readiness_state a in (if ready then 200 else 503, if ready then "ready" else "not_ready", cs, inf).

Definition good : list string := ["ok"; "applied"].

Lemma representative_ready reg b : representative reg = Some b → readyish (state b) = true.
Proof.
  unfold representative. destruct (find is_ready reg) as [e|] eqn:E; [|done]. cbn [mbind option_bind]. intros Hp.
  apply find_some in E as [_ E]. unfold is_ready, is_loaded in E. rewrite Hp in E. by apply andb_true_iff in E as [_ E].
Qed.
Lemma representative_some reg : is_Some (representative reg) ↔ ∃ e, e ∈ reg ∧ is_ready e = true.
Proof.
  unfold representative. destruct (find is_ready reg) as [e|] eqn:E; cbn [mbind option_bind].
  - apply find_some in E as [Hin E]. split; [intros _; exists e; split; [by apply list_elem_of_In|done]|intros _].
    unfold is_ready, is_loaded in E. destruct (provider e) as [b|]; [by eexists|]. by rewrite andb_false_r in E.
  - split; [by intros [? ?]|]. intros (e & He & Hr). apply list_elem_of_In in He. by rewrite (find_none _ _ E e He) in Hr.
Qed.
Lemma pool_representative_some a :
  is_Some (pool_representative a) ↔ ∃ reg e, registry a = Some reg ∧ e ∈ reg ∧ is_ready e = true.
Proof.
  unfold pool_representative. destruct (registry a) as [reg|]; cbn [mbind option_bind].
  - rewrite representative_some. split; [intros (e & He); by exists reg, e|intros (? & e & [= <-] & He); by exists e].
  - split; [by intros [? ?]|by intros (? & ? & ? & _)].
Qed.
Lemma model_loaded_iff a :
  model_loaded a = true ↔ (∃ reg e, registry a = Some reg ∧ e ∈ reg ∧ is_ready e = true) ∨
                          (∃ b, primary_backend a = Some b ∧ readyish (state b) = true).
Proof.
  unfold model_loaded. rewrite orb_true_iff, bool_decide_eq_true, pool_representative_some.
  destruct (primary_backend a) as [b|].
  - split; (intros [H|H]; [by left|right]); [by exists b|by destruct H as (? & [= <-] & H)].
  - split; [intros [H|H]; [by left|done]|intros [H|(? & [=] & _)]; by left].
Qed.
(** A model that is loaded is that of a loaded backend. *)
Lemma ready_backend_loaded a : model_loaded a = true → ∃ b, ready_backend a = Some b ∧ readyish (state b) = true.
Proof.
  unfold model_loaded, ready_backend. destruct (pool_representative a) as [b|] eqn:E.
  - intros _. exists b. split; [done|]. unfold pool_representative in E. destruct (registry a) as [reg|]; [|done].
    by apply (representative_ready reg).
  - rewrite bool_decide_false by (by intros [? ?]). simpl. destruct (primary_backend a) as [b|]; [|done]. intros H. by exists b.
Qed.

Lemma database_check e : (match e with None => "ok" | Some c => "error: " +:+ c end) ∈ good ↔ e = None.
Proof.
  destruct e as [c|]; split; [|done|done|intros _; by left].
  intros [H|[H|H%not_elem_of_nil]%elem_of_cons]%elem_of_cons; discriminate || done.
Qed.
Lemma ready_iff a :
  fst (fst (readiness_state a)) = true ↔ database_error a = None ∧ migrations_ready a = true ∧
     (require_model_ready a = true → model_loaded a = true) ∧ is_draining a = false.
Proof.
  unfold readiness_state. simpl. destruct (is_draining a); [split; [done|by intros (_ & _ & _ & ?)]|].
  destruct (require_model_ready a), (model_loaded a); simpl; try (split; [done|intros (_ & _ & H & _); by discriminate (H eq_refl)]).
  all: destruct (migrations_ready a), (database_error a); simpl; split; try done; by intros (? & ? & _).
Qed.
Lemma checks_good a :
  Forall (fun c => snd c ∈ good) (checks a) ↔ database_error a = None ∧ migrations_ready a = true ∧
     (require_model_ready a = true → model_loaded a = true) ∧ is_draining a = false.
Proof.
  unfold checks. cbn [app]. rewrite !Forall_cons, Forall_app. cbn [snd]. rewrite database_check.
  assert ((if migrations_ready a then "applied" else "pending") ∈ good ↔ migrations_ready a = true) as ->.
  { destruct (migrations_ready a); split; try done; [intros _; right; by left|by intros H%(bool_decide_pack _)]. }
  assert (∀ (b : bool) k m, m ∉ good → Forall (fun c : string * string => snd c ∈ good) (if b then [(k, m)] else []) ↔ b = false) as Hif.
  { intros b k m Hm. destruct b; (split; [|done]); [|done]. by intros [H _]%Forall_cons. }
  rewrite !Hif by (by apply (bool_decide_unpack _)). destruct (require_model_ready a), (model_loaded a); simpl; naive_solver.
Qed.

(** Readiness says what the service can do.  [/readyz] answers 200 exactly when the database answered,
    the migrations are applied, a model is loaded where one is required, and the engine is not draining; otherwise 503, and then some check
    says why; inference is reported available exactly when a backend of the pool is ready or the primary one is loaded, and then with a backend that is loaded. *)
Theorem readiness_exact a :
  let '(code, status, cs, inf) := readyz a in
  (code = 200 ↔ database_error a = None ∧ migrations_ready a = true ∧
     (require_model_ready a = true → model_loaded a = true) ∧ is_draining a = false) ∧
  (code = 200 ∨ code = 503) ∧ (code = 200 ↔ Forall (fun c => snd c ∈ good) cs) ∧
  (inf ≠ Unavailable ↔ (∃ reg e, registry a = Some reg ∧ e ∈ reg ∧ is_ready e = true) ∨
                       (∃ b, primary_backend a = Some b ∧ readyish (state b) = true)) ∧
  (∀ m s, inf = Available m s → readyish s = true).
Proof.
  unfold readyz. destruct (readiness_state a) as [[ready cs] inf] eqn:E.
  assert (ready = fst (fst (readiness_state a))) as Hr by (by rewrite E).
  assert (cs = checks a) as -> by (unfold readiness_state in E; by injection E as _ <- _).
  rewrite checks_good, <- ready_iff, <- Hr.
  assert ((if ready then 200 else 503) = 200 ↔ ready = true) as -> by (by destruct ready).
  assert (inf = match ready_backend a with
                | Some b => if model_loaded a then Available (model_id (capabilities b)) (state b) else Unavailable
                | None => Unavailable end) as -> by (unfold readiness_state in E; by injection E as _ <-).
  rewrite <- model_loaded_iff. pose proof (ready_backend_loaded a) as Hb. clear E Hr.
  split_and!; [done|by destruct ready; [left|right]|done| |].
  - destruct (model_loaded a); [destruct (Hb eq_refl) as (b & -> & _)|]; [done|]. by destruct (ready_backend a).
  - intros m s. destruct (model_loaded a); [destruct (Hb eq_refl) as (b & -> & H)|by destruct (ready_backend a)].
    by intros [= <- <-].
Qed.

(** [/admin/overview]: its own readiness, from the database alone. *)
Definition overview_ready (database_answers at_head : bool) : bool := if database_answers then at_head else false.
(** The overview calls an engine ready that [/readyz] takes out of rotation: it looks neither at draining nor at a required model. *)
Theorem overview_ignores_draining :
  let a := App None true None None false (Some true) in
  overview_ready true true = true ∧ fst (fst (readiness_state a)) = false.
Proof. done. Qed.

End Readiness.

(** * Throughput and the sampler *)

Module TelemetryService.

(** [_last_completion_total] and [_last_sample_ts] *)
Record t := Mk { last_completion_total : option Z; last_sample_ts : option Q }.
Definition init : t := Mk None None.

(** [_throughput_tok_per_s] *)
Definition throughput_tok_per_s (completion_total : Z) (now : Q) (s : t) : t * option Q :=
  (Mk (Some completion_total) (Some now),
   match last_completion_total s, last_sample_ts s with
   | Some prev, Some ts =>
       if bool_decide (now - ts <= 0)%Q then None
       else if completion_total - prev <=? 0 then Some 0%Q
       else Some (inject_Z (completion_total - prev) / (now - ts))%Q
   | _, _ => None
   end).

(** [_backend_panel] *)
Definition backend_panel (b : option BackendRegistry.backend) : BackendRegistry.BackendState * option string * bool :=
  match b with
  | None => (BackendRegistry.UNLOADED, None, false)
  | Some b => let available := BackendRegistry.readyish (BackendRegistry.state b) in
              (BackendRegistry.state b,
               if available then Some (BackendRegistry.model_id (BackendRegistry.capabilities b)) else None, available)
  end.

(** The part of [build_snapshot] that has state: the counters and the throughput between snapshots. *)
Definition build_snapshot (b : option BackendRegistry.backend) (now : Q) (c : Counters.t) (s : t)
  : Counters.t * t * (Counters.CountersSnapshot * option Q * (BackendRegistry.BackendState * option string * bool)) :=
  let '(c, snap) := Counters.snapshot now c in
  let '(s, tps) := throughput_tok_per_s (Counters.s_completion snap) now s in
  (c, s, (snap, tps, backend_panel b)).

(** Successive snapshots, by whoever takes them, and the tokens their rates account for. *)
Fixpoint accounted (l : list (Z * Q)) (s : t) : Q :=
  match l with
  | [] => 0
  | (total, now) :: l =>
      let '(s', r) := throughput_tok_per_s total now s in
      match r, last_sample_ts s with
      | Some r, Some ts => r * (now - ts) + accounted l s'
      | _, _ => accounted l s'
      end
  end.

(** Totals that do not fall, at instants that advance. *)
Inductive advances : Z → Q → list (Z * Q) → Prop :=
| advances_nil n t : advances n t []
| advances_cons n t n' t' l : n <= n' → (t < t')%Q → advances n' t' l → advances n t ((n', t') :: l).

(** The measured throughput loses and invents no token: whoever takes the snapshots and however
    irregularly, the reported rates times the spans they cover add up to exactly the tokens produced since the first one. *)
Theorem throughput_telescopes n t0 l :
  advances n t0 l → (accounted l (Mk (Some n) (Some t0)) == inject_Z (default n (last (map fst l)) - n))%Q.
Proof.
  induction 1 as [n t|n t n' t' l Hn Ht _ IH]; cbn [accounted throughput_tok_per_s last_completion_total last_sample_ts].
  { simpl. rewrite Z.sub_diag. reflexivity. }
  rewrite bool_decide_false by lra. assert (default n (last (map fst ((n', t') :: l))) = default n' (last (map fst l))) as ->.
  { simpl. destruct (map fst l) as [|x y] eqn:E; [done|]. clear. revert x. induction y as [|z y IHy]; intros x; [done|apply (IHy z)]. }
  destruct (Z.leb_spec (n' - n) 0).
  - assert (n' = n) as -> by lia. rewrite IH. ring.
  - rewrite IH. unfold Z.sub. rewrite !inject_Z_plus, !inject_Z_opp. field. lra.
Qed.
Lemma throughput_telescopes_witness :
  (accounted [(130%Z, 2%Q); (130%Z, 3%Q); (200%Z, 4%Q)] (Mk (Some 100%Z) (Some 0%Q)) == 100)%Q.
Proof.
  apply (throughput_telescopes 100 0 [(130%Z, 2%Q); (130%Z, 3%Q); (200%Z, 4%Q)]).
  repeat (apply advances_cons; [lia|reflexivity|]). apply advances_nil.
Defined.

(** ** The sampler task *)

(** [_task] and the tasks of the sampler that have not ended. *)
Record sampler := Sampler { task : option nat; live : list nat; next : nat }.
Inductive op := Start | Stop | Ends (i : nat).
Definition exec (o : op) (s : sampler) : sampler :=
  match o with
  | Start => match task s with
             | Some i => if bool_decide (i ∈ live s) then s else Sampler (Some (next s)) (next s :: live s) (S (next s))
             | None => Sampler (Some (next s)) (next s :: live s) (S (next s))
             end
  | Stop => match task s with
            | Some i => Sampler None (List.filter (fun j => negb (Nat.eqb i j)) (live s)) (next s)
            | None => s
            end
  | Ends i => Sampler (task s) (List.filter (fun j => negb (Nat.eqb i j)) (live s)) (next s)
  end.
(** However often it is started, stopped or ends by itself, at most one sampler runs, and none after a stop. *)
Lemma sampler_single os :
  let s := fold_left (fun s o => exec o s) os (Sampler None [] 0) in
  live s = [] ∨ ∃ i, task s = Some i ∧ live s = [i].
Proof.
  intros s. enough (∀ s0, (live s0 = [] ∨ ∃ i, task s0 = Some i ∧ live s0 = [i]) →
    live (fold_left (fun s o => exec o s) os s0) = [] ∨ ∃ i, task (fold_left (fun s o => exec o s) os s0) = Some i ∧
      live (fold_left (fun s o => exec o s) os s0) = [i]) as H by (apply H; by left).
  induction os as [|o os IH]; intros s0 H0; [done|]. simpl. apply IH. destruct o as [| |j]; simpl.
  - destruct H0 as [H0|(i & Ht & Hl)].
    + destruct (task s0) as [i|]; simpl; [rewrite bool_decide_false by (rewrite H0; apply not_elem_of_nil)|]; right; exists (next s0); by rewrite H0.
    + rewrite Ht, bool_decide_true by (rewrite Hl; by left). right. by exists i.
  - destruct H0 as [H0|(i & Ht & Hl)]; [|rewrite Ht, Hl; simpl; rewrite Nat.eqb_refl; by left].
    destruct (task s0); simpl; rewrite ?H0; by left.
  - destruct H0 as [H0|(i & Ht & Hl)]; [rewrite H0; by left|]. rewrite Hl. simpl.
    destruct (Nat.eqb j i); simpl; [by left|right; by exists i].
Qed.

End TelemetryService.

(** * The operator sockets *)

Module Sockets.

Definition WS_UNAUTHORIZED : Z := 1008.
Record handshake := Handshake { host : option string; query : list (string * string); authorization : option string; x_api_key : option string }.
(** [_ws_token] *)
Definition ws_token (h : handshake) : option string :=
  let present o := match o with Some t => str_true t | None => false end in
  let tok := if present (dict_get "api_key" (query h)) then dict_get "api_key" (query h) else dict_get "token" (query h) in
  if present tok then Text.strip <$> tok else Gateway.extract_token (authorization h) (x_api_key h).
(** [_authorized] *)
Definition authorized (st : Gateway.Settings) (now : string) (h : handshake) (g : Gateway.state) : Gateway.state * bool :=
  let '(g, (access, _)) := Gateway.operator_access st (host h) (ws_token h) now g in
  (g, match access with Gateway.ALLOWED => true | _ => false end).

Section Pump.
Context {E : Type}.
(** What [asyncio.wait] reports: a received message (that may be the end of the client) and an event of the source ([None] is its end), with
    whether sending it works. *)
Inductive message := Payload | Disconnects.
Record wakeup := Wake { received : option message; event : option (option E); sends : bool }.
(** One turn of [_pump]: what is sent, and whether the loop goes on. *)
Definition turn (w : wakeup) : list E * bool :=
  match received w with
  | Some Disconnects => ([], false)
  | _ => match event w with
         | None => ([], true)
         | Some None => ([], false)
         | Some (Some e) => if sends w then ([e], true) else ([], false)
         end
  end.
Fixpoint pump (ws : list wakeup) : list E * bool :=
  match ws with
  | [] => ([], true)
  | w :: ws => match turn w with
               | (sent, false) => (sent, false)
               | (sent, true) => let '(rest, going) := pump ws in (sent ++ rest, going)
               end
  end.
(** The events the source yields over the wakeups. *)
Definition yielded (ws : list wakeup) : list E := omap (fun w => event w ≫= id) ws.
Definition ends (w : wakeup) : bool :=
  match received w with Some Disconnects => true | _ => match event w with Some None => true | Some (Some _) => negb (sends w) | None => false end end.

(** The socket gets the source's events in order without gaps, all of them as long as nothing ends the stream, and none that came after the end. *)
Lemma pump_prefix ws :
  let '(sent, going) := pump ws in
  sent `prefix_of` yielded ws ∧ going = negb (existsb ends ws) ∧ (going = true → sent = yielded ws).
Proof.
  induction ws as [|w ws IH]; [done|]. simpl. unfold turn, yielded, ends in *. simpl.
  destruct (pump ws) as [sent going]. destruct IH as (Hp & Hg & Ha).
  destruct w as [[[]|] [[e|]|] []]; simpl; split_and!; try done;
    try (by apply prefix_nil); try (by apply prefix_cons); intros H; by rewrite (Ha H).
Qed.

Inductive action := Close (code : Z) | Accepts | Sends (e : E).
(** [ws_feed]; [ws_metrics] sends a snapshot of its own first. *)
Definition serve_socket (allowed : bool) (first : list (E * bool)) (ws : list wakeup) : list action :=
  if negb allowed then [Close WS_UNAUTHORIZED]
  else Accepts :: match first with
                  | [] => map Sends (fst (pump ws))
                  | (e, true) :: _ => Sends e :: map Sends (fst (pump ws))
                  | (e, false) :: _ => []
                  end.
Definition ws_feed (st : Gateway.Settings) (now : string) (h : handshake) (g : Gateway.state) (ws : list wakeup) : Gateway.state * list action :=
  let '(g, ok) := authorized st now h g in (g, serve_socket ok [] ws).
Definition ws_metrics (st : Gateway.Settings) (now : string) (h : handshake) (g : Gateway.state) (snapshot : E) (works : bool) (ws : list wakeup)
  : Gateway.state * list action :=
  let '(g, ok) := authorized st now h g in (g, serve_socket ok [(snapshot, works)] ws).

(** The operator sockets are gated before they are accepted.  The feed is accepted if and only if the operator gate
    admits the key of the handshake; a refused caller gets the policy-violation close and nothing else,
    and an accepted one gets events of its subscription in order, without gaps. *)
Theorem feed_gated st now h g ws :
  let '(g', acts) := ws_feed st now h g ws in
  let access := fst (snd (Gateway.operator_access st (host h) (ws_token h) now g)) in
  (Accepts ∈ acts ↔ access = Gateway.ALLOWED) ∧
  (access ≠ Gateway.ALLOWED → acts = [Close WS_UNAUTHORIZED]) ∧
  (access = Gateway.ALLOWED → ∃ sent, acts = Accepts :: map Sends sent ∧ sent `prefix_of` yielded ws).
Proof.
  unfold ws_feed, authorized. destruct (Gateway.operator_access st (host h) (ws_token h) now g) as [g' [access rec]]. simpl.
  pose proof (pump_prefix ws) as Hp. destruct (pump ws) as [sent going] eqn:Ep. destruct Hp as (Hp & _ & _).
  destruct access; unfold serve_socket; rewrite ?Ep; simpl; split_and!; try done.
  - split; [done|]. intros _. by left.
  - intros _. by exists sent.
  - split; [|done]. by intros [?|?%not_elem_of_nil]%elem_of_cons.
  - split; [|done]. by intros [?|?%not_elem_of_nil]%elem_of_cons.
Qed.
End Pump.

End Sockets.

(** * Model control *)

Module ModelControl.
Import BackendRegistry.

Inductive answer := Already_loaded | Loaded | Already_unloaded | Unloaded | Refused (status : Z) (code : string) | Raised.
(** How [backend.load()] ends, with the backend it leaves. *)
Inductive load_outcome := Loads | Backend_error | Other_error.

Definition loaded (b : option backend) : bool := match b with Some b => readyish (state b) | None => false end.
(** [model_load] on [app.state.backend]; [build] is what [build_backend] returns, [None] when it raises. *)
Definition model_load (configured : bool) (build : option backend) (load : backend → backend * load_outcome) (b : option backend)
  : option backend * answer :=
  if loaded b then (b, Already_loaded)
  else if negb configured then (b, Refused 400 "model_not_configured")
  else match (match b with Some x => Some x | None => build end) with
       | None => (None, Raised)
       | Some x => match load x with
                   | (x, Loads) => (Some x, Loaded)
                   | (x, Backend_error) => (Some x, Refused 503 "model_load_failed")
                   | (x, Other_error) => (Some x, Raised)
                   end
       end.
(** [model_unload]; [after] is the backend once [unload] returned. *)
Definition model_unload (after : backend) (b : option backend) : option backend * answer :=
  if negb (loaded b) then (b, Already_unloaded) else (Some after, Unloaded).
(** [_model_panel] *)
Definition model_panel (configured_id : string) (configured : bool) (b : option backend) : string * bool * BackendState * bool * option string :=
  (configured_id, configured, match b with Some b => state b | None => UNLOADED end, loaded b,
   match b with Some b => if readyish (state b) then Some (model_id (capabilities b)) else None | None => None end).

(** Loading and unloading are idempotent: what succeeded once leaves nothing to do the second time. *)
Lemma model_control_idempotent configured build build' load load' b b' after after' :
  (∀ x, snd (load x) = Loads → readyish (state (fst (load x))) = true) → readyish (state after) = false →
  (model_load configured build load b = (b', Loaded) → model_load configured build' load' b' = (b', Already_loaded)) ∧
  (model_unload after b = (b', Unloaded) → model_unload after' b' = (b', Already_unloaded)).
Proof.
  intros Hl Ha. unfold model_load, model_unload. split.
  - intros H. destruct (loaded b); [done|]. destruct configured; [|done]. simpl in *.
    destruct (match b with Some _ => _ | None => _ end) as [x|]; [|done]. specialize (Hl x).
    destruct (load x) as [y []]; simplify_eq. simpl in *. by rewrite Hl.
  - destruct (loaded b); [|done]. intros [= <-]. simpl. by rewrite Ha.
Qed.

End ModelControl.

(** * Usage by key *)

Module Attribution.
Import UsageStore.

Definition window_start (window : string) (now : Q) : Q :=
  if bool_decide (window = "week") then Windows.week_start now else Windows.rolling_5h_start now.
Record row := Row { r_usage : KeyAttribution; r_prefix : option string; r_label : option string; r_client : option string }.
(** [usage_attribution], after its gate; of keys with one id the last counts. *)
Definition usage_attribution (window : string) (now : Q) (d : Db.t) : list row :=
  let keys := KeyStore.list_keys d in
  let of_key (k : option string) := match k with
    | Some k => find (fun r => bool_decide (KeyStore.id r = k)) (rev keys) | None => None end in
  map (fun a => Row a (KeyStore.prefix <$> of_key (at_key a)) (of_key (at_key a) ≫= KeyStore.label)
              (match at_key a with Some k => if str_true k then BillingStore.client_id_for_key k d else None | None => None end))
    (attribution (window_start window now) d).

End Attribution.
