(* ===== verification/Delivery.v ===== *)
(** * The webhook transport and the worker task ([engine/billing/webhooks/delivery.py])

    [Webhooks.v] models the store and the worker's decisions over any transport.
    [Module UrllibTransport] is the transport the engine installs, over what urllib's opener
    does; it can let an exception through.  [Module Batch] is [run_once] over it, and shows
    what an exception does to the queue.  [Module WorkerTask] is [run_loop] and [_finish] as a
    state machine of the task and its batch thread, under cancellation at any moment. *)

From S2P Require Import Prelude Crypto Text Sql Store Webhooks.

Open Scope Z_scope.

Module UrllibTransport.

(** How the opener's [open] ends: a response, an [HTTPError] (redirects are not followed, so a 3xx is one), an error of the
    [OSError] family ([URLError], timeouts), or another exception, such as [http.client]'s for a reply that is no HTTP. *)
Inductive opening := Response (status : Z) | HTTPError (code : Z) | Network (msg : string) | Protocol.

(** [host_is_ascii]: [urlsplit] raises, or finds a host or none. *)
Definition host_is_ascii (split : option (option string)) : bool :=
  match split with
  | None => false
  | Some None => true
  | Some (Some h) => Text.isascii h
  end.

(** [_NoRedirect]: what the handlers make of a reply. *)
Definition reply (status : Z) : opening := if (200 <=? status) && (status <? 300) then Response status else HTTPError status.

(** [post] *)
Definition post (ascii : bool) (o : opening) : DeliveryWorker.answer :=
  if negb ascii then DeliveryWorker.TransportError DeliveryWorker.NON_ASCII_HOST_ERROR
  else match o with
       | Response s => DeliveryWorker.Status s
       | HTTPError c => DeliveryWorker.Status c
       | Network msg => DeliveryWorker.TransportError msg
       | Protocol => DeliveryWorker.Raises HTTPException
       end.

(** A redirect is a failed attempt with its own status. *)
Lemma redirect_not_followed s : 300 <= s < 400 → post true (reply s) = DeliveryWorker.Status s.
Proof. intros H. unfold reply. destruct (Z.ltb_spec s 300); [lia|]. by rewrite andb_false_r. Qed.

End UrllibTransport.

Module Batch.
Import WebhookStore DeliveryWorker UrllibTransport.

Section Worker.
(** How an opening of a URL ends at each delivery of the batch, and which hosts are ASCII. *)
Context (c : config) (ascii : string → bool) (opens : nat → string → opening).

Definition transport_at (n : nat) : transport :=
  Transport (fun url _ _ => UrllibTransport.post (ascii url) (opens n url)) ascii.
(** [run_once] of a worker with the default transport *)
Definition run_once (stop : nat → bool) (now : Q) (w : t) : t * result exn nat :=
  DeliveryWorker.run_once c transport_at stop now w.

(** As long as no opening ends in an exception outside the network family, a batch that is
    not stopped returns, having attempted every delivery it claimed. *)
Theorem batch_conforms now w :
  (∀ n u, opens n u ≠ Protocol) →
  snd (run_once (fun _ => false) now w) = Ok (length (claim_due now (batch_limit c) w)).
Proof.
  intros H. unfold run_once, DeliveryWorker.run_once. generalize (claim_due now (batch_limit c) w) as due.
  assert (∀ due n w, snd (run_loop c transport_at (fun _ => false) now n due w) = Ok (n + length due)%nat) as Hg;
    [|intros due; apply (Hg due 0%nat)].
  induction due as [|d due IH]; intros n w'; simpl; [by rewrite Nat.add_0_r|].
  destruct (WebhookSystem.attempt_update c (transport_at n) d now w') as [(e & _ & u & b & h & e' & Hr)|(f & -> & _)].
  - exfalso. simpl in Hr. unfold UrllibTransport.post in Hr. specialize (H n u).
    destruct (ascii u); simpl in Hr; [|done]. by destruct (opens n u).
  - rewrite IH. f_equal. lia.
Qed.

(** A first delivery whose opening raises ends the batch with nothing recorded. *)
Lemma first_escapes stop now w d rest e :
  claim_due now (batch_limit c) w = d :: rest → stop 0%nat = false →
  get_endpoint (endpoint_id d) w = Some e → ep_disabled e = false → ascii (ep_url e) = true →
  opens 0%nat (ep_url e) = Protocol → run_once stop now w = (w, Err HTTPException).
Proof.
  intros Hc Hs He Hd Ha Ho. unfold run_once, DeliveryWorker.run_once. rewrite Hc. simpl. rewrite Hs.
  unfold attempt. rewrite He, Hd. simpl. rewrite Ha. cbn [negb]. unfold UrllibTransport.post. by rewrite Ho.
Qed.
End Worker.

(** Successive polls. *)
Definition polls (c : config) (ascii : string → bool) (opens : nat → string → opening) (times : list Q) (w : t) : t :=
  fold_left (fun w now => fst (run_once c ascii opens (fun _ => false) now w)) times w.

(** The delivery due first heads every later batch. *)
Lemma claim_due_first now n w d :
  d ∈ deliveries w → st d = PENDING → (next_attempt_at d <= now)%Q → (0 < n)%nat →
  (∀ d', d' ∈ deliveries w → st d' = PENDING → (next_attempt_at d' <= next_attempt_at d)%Q → d' = d) →
  ∃ rest, claim_due now n w = d :: rest.
Proof.
  intros Hd Hp Hn Hlim Hmin. unfold claim_due. set (le := fun a b => bool_decide (next_attempt_at a <= next_attempt_at b)%Q).
  set (sel := Sql.select _ (deliveries w)).
  assert (d ∈ sel) as Hsel.
  { apply list_elem_of_In, filter_In. split; [by apply list_elem_of_In|]. by rewrite !bool_decide_true. }
  assert (StronglySorted (fun a b => le a b = true) (Sql.order_by le sel)) as Hs.
  { apply Sql.order_by_sorted; unfold le; [intros a b|intros a b e]; rewrite !bool_decide_eq_true; [|apply Qle_trans].
    destruct (Qlt_le_dec (next_attempt_at a) (next_attempt_at b)); [left; by apply Qlt_le_weak|by right]. }
  rewrite <- (Sql.order_by_perm le sel) in Hsel. destruct (Sql.order_by le sel) as [|h l] eqn:E; [by apply not_elem_of_nil in Hsel|].
  destruct n as [|n]; [lia|]. exists (take n l). simpl. f_equal.
  apply elem_of_cons in Hsel as [->|Hin]; [done|]. apply StronglySorted_inv in Hs as [_ Hf]. rewrite Forall_forall in Hf.
  specialize (Hf d Hin). apply bool_decide_eq_true in Hf.
  assert (h ∈ sel) as Hh by (rewrite <- (Sql.order_by_perm le sel), E; by left).
  apply list_elem_of_In, filter_In in Hh as [Hh [Hh1 _]%andb_true_iff]. apply Hmin; [by apply list_elem_of_In|by apply bool_decide_eq_true in Hh1|done].
Qed.

(** One endpoint that does not speak HTTP stops every delivery.  When the pending delivery that is due first goes
    to an endpoint whose reply makes the opener raise outside the network family, then however often and whenever the worker polls, the store stays
    as it is: that delivery is never retried less often nor dead-lettered, and no other delivery is attempted. *)
Theorem protocol_error_stalls c ascii opens times w d e :
  d ∈ deliveries w → st d = PENDING → (0 < batch_limit c)%nat →
  (∀ d', d' ∈ deliveries w → st d' = PENDING → (next_attempt_at d' <= next_attempt_at d)%Q → d' = d) →
  get_endpoint (endpoint_id d) w = Some e → ep_disabled e = false → ascii (ep_url e) = true → (∀ n, opens n (ep_url e) = Protocol) →
  Forall (fun now => next_attempt_at d <= now)%Q times →
  polls c ascii opens times w = w.
Proof.
  intros Hd Hp Hl Hmin He Hdis Ha Ho Ht. unfold polls. induction Ht as [|now times Hn _ IH]; [done|]. simpl.
  destruct (claim_due_first now (batch_limit c) w d Hd Hp Hn Hl Hmin) as [rest Hc].
  by rewrite (first_escapes c ascii opens (fun _ => false) now w d rest e).
Qed.

Definition demo_endpoint (i : string) : Endpoint := MkEndpoint i "c1" ("https://" +:+ i) None false None "2024".
Definition demo_delivery (i ep : string) (at_ : Q) : Delivery := MkDelivery i ep ("ev-" +:+ i) "t" "{}" PENDING 0 at_ None None 0 0.
Definition demo_store : t :=
  Mk ["c1"] [demo_endpoint "bad"; demo_endpoint "good"] [] [demo_delivery "d2" "good" 11; demo_delivery "d1" "bad" 10].
Definition demo_opens (n : nat) (url : string) : opening := if bool_decide (url = "https://bad") then Protocol else Response 204.

Lemma protocol_error_stalls_witness :
  let ts := [20; 50; 1000; 100000]%Q in
  polls (Config 5 [] 50) (fun _ => true) demo_opens ts demo_store = demo_store ∧
  map st (deliveries (polls (Config 5 [] 50) (fun _ => true) (fun _ _ => Response 204) ts demo_store)) = [SUCCEEDED; SUCCEEDED].
Proof.
  split; [|vm_compute; reflexivity].
  apply (protocol_error_stalls (Config 5 [] 50) (fun _ => true) demo_opens [20; 50; 1000; 100000]%Q demo_store (demo_delivery "d1" "bad" 10) (demo_endpoint "bad")).
  - right. left.
  - reflexivity.
  - simpl. lia.
  - intros d' Hd' _ Hle. apply elem_of_cons in Hd' as [->|[->|H]%elem_of_cons]; [|reflexivity|by apply not_elem_of_nil in H].
    exfalso. revert Hle. vm_compute. intros H. by apply H.
  - reflexivity.
  - reflexivity.
  - reflexivity.
  - intros n. reflexivity.
  - repeat constructor; vm_compute; discriminate.
Defined.

Lemma batch_conforms_witness :
  snd (run_once (Config 5 [] 50) (fun _ => true) (fun _ _ => Network "refused") (fun _ => false) 20 demo_store) = Ok 2%nat.
Proof.
  rewrite (batch_conforms (Config 5 [] 50) (fun _ => true) (fun _ _ => Network "refused")); [vm_compute; reflexivity|].
  intros n u. discriminate.
Defined.

End Batch.

(** * The worker task *)

Module WorkerTask.

(** The batch thread: between two deliveries with so many left, past its check of the flag, on a delivery, or returned. *)
Inductive thread := Between (left : nat) | Cleared (left : nat) | Sending (left : nat) | Returned.
(** The task at its suspension points: the head of the loop, [await shield(batch)], [_finish] after a cancellation,
    the sleep, and its end. *)
Inductive at_ := Head | Awaiting | Finishing | Sleeping | Ended (cancelled : bool).
(** [late] counts the deliveries begun after the stop flag was set. *)
Record sys := Sys { stop : bool; batch : option thread; task : at_; late : nat }.
Definition init : sys := Sys false None Head 0.

(** [idle] *)
Definition idle (s : sys) : bool := match batch s with None | Some Returned => true | Some _ => false end.

Inductive label :=
| Loop (due : nat)       (* the task checks the flag and starts a batch of [due] deliveries *)
| Resume                 (* the awaited batch returned or raised *)
| Wake                   (* the sleep is over *)
| Cancel                 (* the task is cancelled, wherever it is suspended *)
| Request_stop
| Thread_next            (* the thread checks the flag before its next delivery *)
| Thread_begins          (* it begins that delivery *)
| Thread_records         (* and records the outcome *)
| Thread_raises.

Definition exec (l : label) (s : sys) : option sys :=
  match l with
  | Loop due =>
      match task s with
      | Head => Some (if stop s then Sys (stop s) (batch s) (Ended false) (late s)
                      else Sys (stop s) (Some (Between due)) Awaiting (late s))
      | _ => None
      end
  | Resume =>
      match task s with
      | Awaiting => if idle s then Some (Sys (stop s) (batch s) Sleeping (late s)) else None
      | Finishing => if idle s then Some (Sys (stop s) (batch s) (Ended true) (late s)) else None
      | _ => None
      end
  | Wake => match task s with Sleeping => Some (Sys (stop s) (batch s) Head (late s)) | _ => None end
  | Cancel =>
      match task s with
      | Head | Sleeping => Some (Sys (stop s) (batch s) (Ended true) (late s))
      | Awaiting => Some (Sys true (batch s) (if idle s then Ended true else Finishing) (late s))
      | Finishing => Some s
      | Ended _ => None
      end
  | Request_stop => Some (Sys true (batch s) (task s) (late s))
  | Thread_next =>
      match batch s with
      | Some (Between O) => Some (Sys (stop s) (Some Returned) (task s) (late s))
      | Some (Between (S n)) =>
          if stop s then Some (Sys (stop s) (Some Returned) (task s) (late s))
          else Some (Sys (stop s) (Some (Cleared n)) (task s) (late s))
      | _ => None
      end
  | Thread_begins =>
      match batch s with
      | Some (Cleared n) => Some (Sys (stop s) (Some (Sending n)) (task s) (if stop s then S (late s) else late s))
      | _ => None
      end
  | Thread_records => match batch s with Some (Sending n) => Some (Sys (stop s) (Some (Between n)) (task s) (late s)) | _ => None end
  | Thread_raises => match batch s with
                     | Some (Sending n) | Some (Cleared n) | Some (Between n) => Some (Sys (stop s) (Some Returned) (task s) (late s))
                     | _ => None
                     end
  end.

Inductive reachable : sys → Prop :=
| reachable_init : reachable init
| reachable_step s l s' : reachable s → exec l s = Some s' → reachable s'.

Record inv (s : sys) : Prop := Inv {
  inv_idle : task s ≠ Awaiting → task s ≠ Finishing → idle s = true;
  inv_finishing : task s = Finishing → stop s = true;
  inv_late : late s = 0%nat ∨ late s = 1%nat ∧ stop s = true ∧ ∀ n, batch s ≠ Some (Cleared n)
}.
Lemma reachable_inv s : reachable s → inv s.
Proof.
  induction 1 as [|s l s' _ [Hi Hf Hl] He]; [split; [done|done|by left]|].
  destruct s as [st b tk lt]. unfold idle in *. simpl in *.
  destruct l as [due| | | | | | | |]; simpl in He; unfold idle in He; simpl in He.
  - destruct tk; try done. specialize (Hi ltac:(done) ltac:(done)).
    destruct st; injection He as <-; split; simpl; try done. left. by destruct Hl as [|(_ & ? & _)].
  - destruct tk; try done; destruct b as [[]|]; try done; injection He as <-; by split.
  - destruct tk; try done. injection He as <-. split; simpl; try done. intros _ _. by apply Hi.
  - destruct tk; try done; injection He as <-; split; simpl; try done.
    + intros _ _. by apply Hi.
    + unfold idle. simpl. by destruct b as [[]|].
    + destruct Hl as [|(? & ? & ?)]; [by left|by right].
    + intros _ _. by apply Hi.
  - injection He as <-. split; simpl; try done. destruct Hl as [|(? & ? & ?)]; [by left|by right].
  - destruct b as [[[|n]|n|n|]|]; try done.
    + injection He as <-. split; simpl; try done. destruct Hl as [|(? & ? & ?)]; [by left|by right].
    + destruct st; injection He as <-; split; simpl; try done.
      * destruct Hl as [|(? & ? & ?)]; [by left|by right].
      * left. by destruct Hl as [|(_ & ? & _)].
  - destruct b as [[n|n|n|]|]; try done. injection He as <-. split; simpl; try done.
    destruct Hl as [->|(_ & _ & H)]; [|by destruct (H n)]. destruct st; [right|by left]. by split_and!.
  - destruct b as [[n|n|n|]|]; try done. injection He as <-. split; simpl; try done.
    destruct Hl as [|(? & ? & ?)]; [by left|by right].
  - destruct b as [[n|n|n|]|]; try done; injection He as <-; (split; simpl; try done); (destruct Hl as [|(? & ? & ?)]; [by left|by right]).
Qed.

(** Stopping the worker abandons no write.  However its steps, its batch thread, stop requests and repeated
    cancellations interleave: once the task has ended no thread is writing the store, at most one delivery is begun after the stop flag is set (the one whose check of
    the flag had passed), and a task that was cancelled in the middle of a batch ends within four steps of its own and its thread. *)
Theorem worker_stops_clean s :
  reachable s →
  (∀ b, task s = Ended b → idle s = true) ∧ (late s ≤ 1)%nat ∧
  (task s = Finishing → ∃ ls s', (length ls ≤ 4)%nat ∧ Forall (fun l => l ∈ [Thread_next; Thread_begins; Thread_records; Resume]) ls ∧
     fold_left (fun o l => o ≫= exec l) ls (Some s) = Some s' ∧ task s' = Ended true ∧ idle s' = true).
Proof.
  intros [Hi Hf Hl]%reachable_inv. split_and!; [|destruct Hl as [->|(-> & _)]; lia|].
  { intros b E. apply Hi; by rewrite E. }
  intros E. specialize (Hf E). clear Hi Hl. destruct s as [st b tk lt]. simpl in *. subst.
  assert (∀ ls, forallb (fun l => match l with Thread_next | Thread_begins | Thread_records | Resume => true | _ => false end) ls = true →
    Forall (fun l => l ∈ [Thread_next; Thread_begins; Thread_records; Resume]) ls) as Hall.
  { intros ls Hls. apply Forall_forall. intros l Hin%list_elem_of_In. apply (proj1 (forallb_forall _ ls) Hls) in Hin.
    destruct l; try done; by repeat constructor. }
  destruct b as [[n|n|n|]|].
  - exists [Thread_next; Resume]. destruct n; eexists; (split_and!; [simpl; lia|by apply Hall|reflexivity..]).
  - exists [Thread_begins; Thread_records; Thread_next; Resume]. destruct n; eexists; (split_and!; [simpl; lia|by apply Hall|reflexivity..]).
  - exists [Thread_records; Thread_next; Resume]. destruct n; eexists; (split_and!; [simpl; lia|by apply Hall|reflexivity..]).
  - exists [Resume]. eexists. split_and!; [simpl; lia|by apply Hall|reflexivity..].
  - exists [Resume]. eexists. split_and!; [simpl; lia|by apply Hall|reflexivity..].
Qed.

Lemma worker_stops_clean_witness :
  ∃ s, reachable s ∧ task s = Finishing ∧ late s = 1%nat ∧ (late s ≤ 1)%nat.
Proof.
  exists (Sys true (Some (Sending 1)) Finishing 1).
  assert (reachable (Sys true (Some (Sending 1)) Finishing 1)) as H.
  { apply (reachable_step (Sys true (Some (Cleared 1)) Finishing 0) Thread_begins); [|reflexivity].
    apply (reachable_step (Sys false (Some (Cleared 1)) Awaiting 0) Cancel); [|reflexivity].
    apply (reachable_step (Sys false (Some (Between 2)) Awaiting 0) Thread_next); [|reflexivity].
    apply (reachable_step init (Loop 2)); [|reflexivity]. exact reachable_init. }
  destruct (worker_stops_clean _ H) as (_ & Hl & _). exact (conj H (conj eq_refl (conj eq_refl Hl))).
Defined.

End WorkerTask.
