(* ===== verification/Sensors.v ===== *)
(** * Power measurement and the diagnostics bundle ([engine/telemetry/power.py], [diagnostics.py])

    [Module PowerProbe]: the RAPL probe as a state machine over the counters it reads, and the
    energy panel derived from a reading.  [Module Diagnostics]: the redaction of the configuration and the bundle.
    The operating system's counters and the settings' JSON dump are inputs. *)

From S2P Require Import Prelude Crypto Text Sql Quota.

Open Scope Z_scope.

Module PowerProbe.

(** A reading: measured watts, or unavailable with its source and reason. *)
Inductive reading := Measured (watts : Q) | Unavailable (source : option string) (reason : string).

(** [_read_rapl_domains]: the entries of the powercap directory in name order that match [intel-rapl:*] and have a counter file. *)
Definition read_rapl_domains (entries : list (string * bool)) : list string :=
  map fst (Sql.order_by (fun a b => str_leb (fst a) (fst b))
             (List.filter (fun e => Text.startswith "intel-rapl:" (fst e) && snd e) entries)).

(** [_domains], [_last_total_uj] and [_last_ts] *)
Record t := Mk { domains : list string; last_total_uj : option Z; last_ts : option Q }.
Definition init (entries : list (string * bool)) : t := Mk (read_rapl_domains entries) None None.

(** [_read_total]: [uj] reads a counter, [None] when it cannot be read. *)
Fixpoint sum_domains (uj : string → option Z) (ds : list string) : option Z :=
  match ds with
  | [] => Some 0
  | d :: ds => v ← uj d; rest ← sum_domains uj ds; Some (v + rest)
  end.
Definition read_total (uj : string → option Z) (p : t) : option Z :=
  match domains p with [] => None | ds => sum_domains uj ds end.

(** [sample] *)
Definition sample (uj : string → option Z) (now : Q) (p : t) : t * reading :=
  match domains p with
  | [] => (p, Unavailable None "no RAPL powercap interface (needs Linux Intel/AMD RAPL)")
  | _ =>
      match read_total uj p with
      | None => (Mk (domains p) None None, Unavailable None "RAPL energy counter unreadable (permissions?)")
      | Some current =>
          let p' := Mk (domains p) (Some current) (Some now) in
          match last_total_uj p, last_ts p with
          | Some prev, Some ts =>
              let dt := (now - ts)%Q in
              let delta := current - prev in
              if bool_decide (dt <= 0)%Q || (delta <? 0) then (p', Unavailable (Some "rapl") "counter wrap; resampling")
              else (p', Measured ((inject_Z delta / 1000000) / dt)%Q)
          | _, _ => (p', Unavailable (Some "rapl") "establishing baseline")
          end
      end
  end.

Record panel := Panel { p_watts : option Q; j_per_token : option Q; tokens_per_joule : option Q }.
(** [energy_state]; [round n] is Python's rounding to [n] digits. *)
Definition energy_state (round : Z → Q → Q) (r : reading) (tok_per_s : option Q) : panel :=
  match r with
  | Unavailable _ _ => Panel None None None
  | Measured w =>
      match tok_per_s with
      | Some t => if bool_decide (0 < t)%Q
                  then Panel (Some (round 3 w)) (Some (round 6 (w / t)%Q))
                         (if bool_decide (0 < w / t)%Q then Some (round 3 (1 / (w / t))%Q) else None)
                  else Panel (Some (round 3 w)) None None
      | None => Panel (Some (round 3 w)) None None
      end
  end.

(** A history of samples: the counters as read at each time. *)
Fixpoint run (l : list ((string → option Z) * Q)) (p : t) : t * list reading :=
  match l with
  | [] => (p, [])
  | (uj, now) :: l => let '(p, r) := sample uj now p in let '(p, rs) := run l p in (p, r :: rs)
  end.

(** What the probe remembers is the sample before. *)
Lemma sample_last uj now p p' r :
  sample uj now p = (p', r) → domains p' = domains p ∧
  (domains p ≠ [] → last_total_uj p' = read_total uj p ∧ last_ts p' = (fun _ => now) <$> read_total uj p).
Proof.
  unfold sample. intros H. destruct (domains p) as [|x ds] eqn:Ed; [injection H as <- <-; by split|].
  destruct (read_total uj p) as [c|].
  2: { injection H as <- <-. split; [done|]. intros _. by split. }
  destruct (last_total_uj p) as [prev|]; [destruct (last_ts p) as [ts|]; [destruct (_ || _)|]|]; injection H as <- <-; split; try done; intros _; by split.
Qed.

(** Power is reported as measured only when it was measured.  In any history of samples, a measured reading comes
    from two successive samples in which every counter was readable, at instants that advanced, with a total that did
    not fall; it is the difference of the totals over the span, never negative; and the energy panel shows no number for an unavailable reading. *)
Theorem measured_is_measured l uj1 t1 uj2 t2 entries w round tps :
  snd (run (l ++ [(uj1, t1); (uj2, t2)]) (init entries)) !! S (length l) = Some (Measured w) →
  ∃ a b, sum_domains uj1 (read_rapl_domains entries) = Some a ∧ sum_domains uj2 (read_rapl_domains entries) = Some b ∧
    (t1 < t2)%Q ∧ a <= b ∧ (w * (t2 - t1) == inject_Z (b - a) / 1000000)%Q ∧ (0 <= w)%Q ∧
    (∀ s reason, energy_state round (Unavailable s reason) tps = Panel None None None).
Proof.
  assert (∀ l p, length (snd (run l p)) = length l ∧ domains (fst (run l p)) = domains p) as Hlen.
  { intros l0. induction l0 as [|[uj now] l0 IH]; intros p; [done|]. simpl. destruct (sample uj now p) as [p' r] eqn:E.
    destruct (IH p') as [H1 H2]. destruct (run l0 p') as [p2 rs]. simpl in *. rewrite H1, H2. apply sample_last in E as [-> _]. done. }
  assert (∀ l1 l2 p, run (l1 ++ l2) p = let '(p1, r1) := run l1 p in let '(p2, r2) := run l2 p1 in (p2, r1 ++ r2)) as Happ.
  { intros l1. induction l1 as [|[uj now] l1 IH]; intros l2 p; simpl; [by destruct (run l2 p)|].
    destruct (sample uj now p) as [p' r]. rewrite IH. destruct (run l1 p') as [p1 r1]. by destruct (run l2 p1). }
  rewrite Happ. destruct (Hlen l (init entries)) as [HL HD]. destruct (run l (init entries)) as [p rs]. simpl in HL, HD.
  simpl. destruct (sample uj1 t1 p) as [p1 r1] eqn:E1. destruct (sample uj2 t2 p1) as [p2 r2] eqn:E2. simpl.
  rewrite lookup_app_r by lia. replace (S (length l) - length rs)%nat with 1%nat by lia. simpl. intros [= ->].
  apply sample_last in E1 as [Hd1 Hl1]. unfold sample in E2. rewrite Hd1, HD in *. unfold init in *. simpl in *.
  set (ds := read_rapl_domains entries) in *. destruct ds as [|x ds'] eqn:Eds; [done|].
  destruct (Hl1 ltac:(done)) as [Ht Hs]. unfold read_total in *. rewrite Hd1 in E2. rewrite HD in *.
  destruct (sum_domains uj2 (x :: ds')) as [b|]; [|done]. rewrite Ht, Hs in E2.
  destruct (sum_domains uj1 (x :: ds')) as [a|]; [|done]. simpl in E2.
  destruct (bool_decide (t2 - t1 <= 0)%Q || (b - a <? 0)) eqn:E; [done|]. injection E2 as _ <-.
  apply orb_false_iff in E as [Ht12%bool_decide_eq_false Hab%Z.ltb_ge]. apply Qnot_le_lt in Ht12.
  exists a, b. split_and!; [done|done|lra|lia| | |done].
  - field. lra.
  - apply Qle_shift_div_l; [done|]. rewrite Qmult_0_l. apply Qle_shift_div_l; [done|]. rewrite Qmult_0_l.
    change 0%Q with (inject_Z 0). rewrite <- Zle_Qle. lia.
Qed.

(** ** Examples *)

Definition demo_entries : list (string * bool) := [("intel-rapl:0:0", true); ("intel-rapl", true); ("intel-rapl:0", true)].
Definition counters (package core : Z) (d : string) : option Z := if bool_decide (d = "intel-rapl:0") then Some package else Some core.

Lemma measured_is_measured_witness :
  ∃ a b, a = 110 ∧ b = 260 ∧ a <= b.
Proof.
  destruct (measured_is_measured [] (counters 100 10) 1 (counters 200 60) 2 demo_entries
    ((inject_Z 150 / 1000000) / (2 - 1))%Q (fun _ q => q) None ltac:(vm_compute; reflexivity)) as (a & b & Ha & Hb & _ & Hab & _).
  vm_compute in Ha, Hb. injection Ha as <-. injection Hb as <-. exists 110, 260. exact (conj eq_refl (conj eq_refl Hab)).
Defined.

(** The pattern [intel-rapl:*] also matches the zones inside a package, whose energy the package's counter includes: a core that uses 50 of
    the package's 100 microjoules is counted twice. *)
Theorem subdomains_counted :
  read_rapl_domains demo_entries = ["intel-rapl:0"; "intel-rapl:0:0"] ∧
  snd (run [(counters 100 10, 1%Q); (counters 200 60, 2%Q)] (init demo_entries))
    = [Unavailable (Some "rapl") "establishing baseline"; Measured ((inject_Z 150 / 1000000) / (2 - 1))%Q].
Proof. vm_compute. done. Qed.

(** A counter that wrapped is noticed only if the sum of all counters fell: here one counter wraps to 0 and the other
    one's increase hides it, and the reading is called measured. *)
Theorem masked_wrap_measured :
  snd (run [(counters 1000 10, 1%Q); (counters 0 2000, 2%Q)] (init demo_entries))
    = [Unavailable (Some "rapl") "establishing baseline"; Measured ((inject_Z 990 / 1000000) / (2 - 1))%Q].
Proof. vm_compute. done. Qed.

End PowerProbe.

(** * Diagnostics *)

Module Diagnostics.

Definition SECRET_HINTS : list string := ["secret"; "token"; "password"; "passwd"; "api_key"; "apikey"; "credential"].
(** [hint in s] *)
Fixpoint contains (hint s : string) : bool :=
  Text.startswith hint s || match s with EmptyString => false | String _ s' => contains hint s' end.
(** [_looks_secret] *)
Definition looks_secret (name : string) : bool := existsb (fun h => contains h (Text.lower name)) SECRET_HINTS.
(** [redact_config] on the JSON dump of the settings. *)
Definition redact_config (raw : list (string * Json.t)) : list (string * Json.t) :=
  map (fun '(k, v) => (k, if looks_secret k then match v with Json.JNull => Json.JNull | _ => Json.JStr "***" end else v)) raw.

Record bundle := Bundle { b_config : list (string * Json.t); b_metrics : option Json.t; b_logs : list Json.t }.
(** [build_bundle], without the host summary and the fixed notes; [recent] is the collector's ring, newest last. *)
Definition build_bundle (raw : list (string * Json.t)) (recent : option (list Json.t)) (snapshot : option Json.t) (log_limit : nat) : bundle :=
  Bundle (redact_config raw) snapshot
    (match recent with Some l => drop (length l - log_limit) l | None => [] end).

(** The redactor masks every top-level setting with a secret-looking name, whatever its value: after it such a setting is
    [null] when it was unset and the mask otherwise; the names and their order are kept, and the other settings are unchanged. *)
Theorem redact_config_masks raw :
  map fst (redact_config raw) = map fst raw ∧
  ∀ k v, (k, v) ∈ redact_config raw →
    ∃ v0, (k, v0) ∈ raw ∧
      if looks_secret k then (v0 = Json.JNull ∧ v = Json.JNull) ∨ (v0 ≠ Json.JNull ∧ v = Json.JStr "***") else v = v0.
Proof.
  unfold redact_config. split; [rewrite map_map; apply map_ext; by intros []|].
  intros k v Hin. apply list_elem_of_In, in_map_iff in Hin as ([k' v'] & [= <- <-] & Hin). exists v'.
  split; [by apply list_elem_of_In|]. destruct (looks_secret k'); [|done].
  destruct v'; [left|right..]; done.
Qed.

(** The redactor looks at the top level only: the settings of the remote workers and of the external providers, with the
    [api_key] each of them has, are in the bundle as they are. *)
Theorem worker_keys_in_bundle raw recent snapshot n workers :
  ("remote_workers", workers) ∈ raw → ("remote_workers", workers) ∈ b_config (build_bundle raw recent snapshot n).
Proof.
  intros H. simpl. unfold redact_config. apply list_elem_of_In, in_map_iff. exists ("remote_workers", workers).
  split; [|by apply list_elem_of_In]. vm_compute. done.
Qed.
Example worker_key_leaks :
  redact_config [("remote_api_key", Json.JStr "sk-a");
                 ("remote_workers", Json.JArr [Json.JObj [("name", Json.JStr "w"); ("api_key", Json.JStr "sk-b")]])]
  = [("remote_api_key", Json.JStr "***");
     ("remote_workers", Json.JArr [Json.JObj [("name", Json.JStr "w"); ("api_key", Json.JStr "sk-b")]])].
Proof. vm_compute. done. Qed.

End Diagnostics.
