(* ===== verification/Release.v ===== *)
(** * The release tooling ([scripts/release.py])

    [Module Version] translates the version and tag grammar, [changelog_section],
    [check_version] and [stable_tags]; [Module Registry] runs the tags of the repository and
    the image tags that [stable_tags] moves, release by release.  [Module ScanGate]
    translates [load_exceptions], [scan_gate] and the verdict of the command, [Module
    Artifact] [verify_wheel], [oci_digests], [saved_config_digest] and [render_compose].

    Parameters: [fromisoformat], the day number of a date; the members of an archive with
    their parsed JSON.  Text in a pattern is compared by code points up to 255. *)

From S2P Require Import Prelude Crypto Text BenchGate Gguf Redaction.
From Stdlib Require Import Ascii.

Open Scope Z_scope.

(** What a subcommand raises: its own exception, which the command line reports as an
    [error:] line, or another one. *)
Inductive failure := ReleaseError | Raises (e : exn).
#[export] Instance failure_eq_dec : EqDecision failure.
Proof. solve_decision. Defined.

(** [[f(x) for x in l]], which stops at the first exception. *)
Fixpoint each {E A B} (f : A → result E B) (l : list A) : result E (list B) :=
  match l with
  | [] => Ok []
  | x :: l' => y ← f x; ys ← each f l'; Ok (y :: ys)
  end.
Lemma each_ok {E A B} (f : A → result E B) l ys : each f l = Ok ys → Forall2 (fun x y => f x = Ok y) l ys.
Proof.
  revert ys. induction l as [|x l IH]; intros ys; simpl; [intros [= <-]; constructor|].
  destruct (f x) as [y|] eqn:Hx; [|done]. simpl. destruct (each f l) as [zs|]; [|done]. intros [= <-].
  constructor; [done|by apply IH].
Qed.

Module Version.

Definition is_digit (c : ascii) : bool := match Text.digit_of c with Some _ => true | None => false end.
(** A number without leading zeros. *)
Definition numeral (s : string) : bool :=
  match Crypto.chars s with
  | [] => false
  | c :: cs => forallb is_digit (c :: cs) && (negb (bool_decide (c = "0"%char)) || bool_decide (cs = []))
  end.
(** The dollar sign of a pattern also matches before a final line end. *)
Definition chomp (s : string) : string :=
  match rev (Crypto.chars s) with
  | c :: r => if Crypto.code c =? 10 then Crypto.of_chars (rev r) else s
  | [] => s
  end.
(** The groups of [VERSION_RE]. *)
Definition version_groups (s : string) : option (string * string * string) :=
  match Text.split "." (chomp s) with
  | [a; b; c] => if numeral a && numeral b && numeral c then Some (a, b, c) else None
  | _ => None
  end.
Definition triple : Type := Z * Z * Z.
(** [_vtuple]; [int] refuses a number of more than 4300 digits. *)
Definition vtuple (version : string) : result failure triple :=
  match version_groups version with
  | None => Err ReleaseError
  | Some (a, b, c) =>
      match Text.int a, Text.int b, Text.int c with
      | Some x, Some y, Some z => Ok (x, y, z)
      | _, _, _ => Err (Raises ValueError)
      end
  end.

(** [TAG_RE.match(t)] and [parse_tag] *)
Definition TAG_RE (t : string) : bool :=
  match t with
  | String "v" v => match version_groups v with Some _ => true | None => false end
  | _ => false
  end.
Definition parse_tag (t : string) : result failure string :=
  if TAG_RE t then Ok (match t with String _ v => v | EmptyString => "" end) else Err ReleaseError.

(** Tuples are compared from the left. *)
Definition tuple_le (a b : triple) : bool :=
  let '(x, y, z) := a in let '(x', y', z') := b in
  (x <? x') || ((x =? x') && ((y <? y') || ((y =? y') && (z <=? z')))).

Definition minor (v : triple) : string := let '(x, y, _) := v in Text.str_int x +:+ "." +:+ Text.str_int y.
Definition major (v : triple) : string := let '(x, _, _) := v in Text.str_int x.
Definition same_minor (a b : triple) : bool := let '(x, y, _) := a in let '(x', y', _) := b in (x =? x') && (y =? y').
Definition same_major (a b : triple) : bool := let '(x, _, _) := a in let '(x', _, _) := b in x =? x'.

(** [stable_tags] *)
Definition stable_tags (version : string) (existing : list string) : result failure (list string) :=
  mine ← vtuple version;
  others ← each (fun t => v ← parse_tag t; vtuple v) (List.filter TAG_RE existing);
  let others := List.filter (fun o => negb (bool_decide (o = mine))) others in
  Ok (("v" +:+ version)
      :: (if forallb (fun o => tuple_le o mine) (List.filter (fun o => same_minor o mine) others) then [minor mine] else [])
      ++ (if forallb (fun o => tuple_le o mine) (List.filter (fun o => same_major o mine) others) then [major mine] else [])
      ++ (if forallb (fun o => tuple_le o mine) others then ["latest"] else [])).

(** *** The changelog *)

(** The lines of a text, without their ends; the text after the last line end is [snd]. *)
Definition lines (s : string) : list string := Text.split (Crypto.char 10) s.
Definition joined (l : list string) : string := String.concat (String (Crypto.char 10) "") l.
Definition is_heading (line : string) : bool := Text.startswith "## [" line.
Fixpoint until_heading (l : list string) : list string :=
  match l with
  | [] => []
  | x :: l' => if is_heading x then [] else x :: until_heading l'
  end.
(** The group of the search: what follows the first heading of the version that has a line
    end, up to the next heading. *)
Fixpoint find_section (version : string) (l : list string) : option string :=
  match l with
  | x :: ((_ :: _) as l') =>
      if Text.startswith ("## [" +:+ version +:+ "]") x then Some (joined (until_heading l')) else find_section version l'
  | _ => None
  end.
(** [changelog_section]; [changelog] is the text of the file. *)
Definition changelog_section (version changelog : string) : result failure string :=
  match find_section version (lines changelog) with
  | Some body => if str_true (Text.strip body) then Ok (Text.strip body) else Err ReleaseError
  | None => Err ReleaseError
  end.

Definition quoted (s : string) : string := String (Crypto.char 34) (s +:+ String (Crypto.char 34) "").
Definition contains (sub s : string) : bool := Str.contains (Str.lit sub) (Str.lit s).
(** [check_version]; [source] is the literal [source_version] finds. *)
Definition check_version (tag source : option string) (pyproject changelog : string) : result failure string :=
  match source with
  | None => Err ReleaseError
  | Some src =>
      _ ← vtuple src;
      if negb (contains ("dynamic = [" +:+ quoted "version" +:+ "]") pyproject) || negb (contains "engine.__version__" pyproject)
      then Err ReleaseError
      else
        _ ← (match tag with
             | Some t => v ← parse_tag t; if bool_decide (v = src) then Ok () else Err ReleaseError
             | None => Ok ()
             end);
        _ ← changelog_section src changelog;
        Ok src
  end.

Example tags_first : stable_tags "0.1.0" [] = Ok ["v0.1.0"; "0.1"; "0"; "latest"].
Proof. vm_compute. reflexivity. Qed.
Example tags_self : stable_tags "0.1.0" ["v0.1.0"; "block-9"; "v0.1.0-rc1"] = Ok ["v0.1.0"; "0.1"; "0"; "latest"].
Proof. vm_compute. reflexivity. Qed.
Example tags_backport :
  stable_tags "1.0.1" ["v1.0.0"; "v1.1.0"; "v2.0.0"] = Ok ["v1.0.1"; "1.0"]
  ∧ stable_tags "1.1.1" ["v1.0.0"; "v1.1.0"; "v2.0.0"] = Ok ["v1.1.1"; "1.1"; "1"].
Proof. vm_compute. auto. Qed.
Example changelog_example :
  changelog_section "1.2.3" (joined ["# Log"; ""; "## [1.2.3] - today"; ""; "- a"; "## [1.2.2]"; "- b"]) = Ok "- a"
  ∧ changelog_section "1.2.2" (joined ["## [1.2.3]"; "- a"; "## [1.2.2]"]) = Err ReleaseError.
Proof. vm_compute. auto. Qed.
(** A tag with a final line end is taken for a release tag. *)
Example newline_tag_accepted :
  parse_tag ("v1.2.3" +:+ String (Crypto.char 10) "") = Ok ("1.2.3" +:+ String (Crypto.char 10) "").
Proof. vm_compute. reflexivity. Qed.

End Version.

(** ** The image tags of the registry *)

Module Registry.
Import Version.

(** The tags of the repository, the image tags with the version each was last moved to, and
    the versions published so far. *)
Record t := Mk { git : list string; pointers : list (string * string); published : list string }.
Definition init : t := Mk [] [] [].
(** A tag is pushed, or the publishing job of a version runs its tag loop. *)
Inductive event := Tag (name : string) | Publish (version : string).
Definition move (tags : list string) (version : string) (p : list (string * string)) : list (string * string) :=
  fold_left (fun p tag => dict_set tag version p) tags p.
(** The publishing job runs for a pushed release tag; without its tags it moves nothing. *)
Definition step (s : t) (e : event) : t :=
  match e with
  | Tag name => Mk (git s ++ [name]) (pointers s) (published s)
  | Publish version =>
      if bool_decide ("v" +:+ version ∈ git s) then
        match stable_tags version (git s) with
        | Ok tags => Mk (git s) (move tags version (pointers s)) (published s ++ [version])
        | Err _ => s
        end
      else s
  end.
Definition run (l : list event) : t := fold_left step l init.

(** The convenience tags of a version's lines. *)
Definition lines_of (v : triple) : list string := [minor v; major v; "latest"].

(** *** Names of lines *)

Lemma numchar_mem c s : forallb Text.numchar (Crypto.chars s) = true → Text.numchar c = false → Text.mem c s = false.
Proof.
  intros Hs Hc. induction s as [|d s IH]; [done|]. cbn in *. apply andb_true_iff in Hs as [Hd Hs].
  rewrite (IH Hs), orb_false_r. apply bool_decide_eq_false. intros ->. congruence.
Qed.
Lemma str_int_no_dot z : Text.mem "." (Text.str_int z) = false.
Proof. by apply numchar_mem; [apply Text.str_int_chars|]. Qed.
Lemma minor_dot v : Text.mem "." (minor v) = true.
Proof. destruct v as [[x y] z]. unfold minor. rewrite Text.mem_app. cbn. apply orb_true_r. Qed.
Lemma minor_line a b : minor a ∈ lines_of b ↔ same_minor b a = true.
Proof.
  destruct a as [[x y] z], b as [[x' y'] z']. unfold lines_of, same_minor. split.
  - intros [E|[E|[E|[]%not_elem_of_nil]%elem_of_cons]%elem_of_cons]%elem_of_cons.
    + apply (f_equal (Text.partition ".")) in E. unfold minor in E.
      change ("." +:+ ?w) with (String "." w) in E. rewrite !(Text.partition_app "." _) in E by apply str_int_no_dot.
      injection E as E1 E2. apply (inj pretty) in E1, E2. lia.
    + exfalso. pose proof (minor_dot (x, y, z)) as H. rewrite E in H. cbn [major] in H. by rewrite str_int_no_dot in H.
    + exfalso. pose proof (minor_dot (x, y, z)) as H. by rewrite E in H.
  - intros H. assert (x' = x ∧ y' = y) as [-> ->] by lia. by left.
Qed.
Lemma latest_not_number z : Text.str_int z ≠ "latest".
Proof. intros E. pose proof (Text.str_int_chars z) as H. rewrite E in H. done. Qed.
Lemma major_line a b : major a ∈ lines_of b ↔ same_major b a = true.
Proof.
  destruct a as [[x y] z], b as [[x' y'] z']. unfold lines_of, same_major. split.
  - intros [E|[E|[E|[]%not_elem_of_nil]%elem_of_cons]%elem_of_cons]%elem_of_cons.
    + exfalso. pose proof (minor_dot (x', y', z')) as H. rewrite <- E in H. cbn [major] in H. by rewrite str_int_no_dot in H.
    + cbn [major] in E. apply (inj pretty) in E. lia.
    + exfalso. by apply latest_not_number in E.
  - intros H. assert (x' = x) as -> by lia. right; left.
Qed.
Lemma latest_line b : "latest" ∈ lines_of b.
Proof. right; right; left. Qed.

Lemma tuple_le_refl a : tuple_le a a = true.
Proof. destruct a as [[x y] z]. simpl. lia. Qed.
Lemma tuple_le_trans a b c : tuple_le a b = true → tuple_le b c = true → tuple_le a c = true.
Proof. destruct a as [[x y] z], b as [[x' y'] z'], c as [[x'' y''] z'']. simpl. lia. Qed.
Lemma tuple_le_antisym a b : tuple_le a b = true → tuple_le b a = true → a = b.
Proof. destruct a as [[x y] z], b as [[x' y'] z']. simpl. intros. assert (x = x' ∧ y = y' ∧ z = z') as (-> & -> & ->) by lia. done. Qed.

(** The version a release tag names. *)
Definition names_version (tag : string) (v : triple) : Prop := ∃ w, parse_tag tag = Ok w ∧ vtuple w = Ok v.
Lemma tag_of_version w v : vtuple w = Ok v → TAG_RE ("v" +:+ w) = true ∧ names_version ("v" +:+ w) v.
Proof.
  intros H. assert (TAG_RE ("v" +:+ w) = true) as Ht.
  { change ("v" +:+ w) with (String "v" w). cbn [TAG_RE]. unfold vtuple in H. by destruct (version_groups w). }
  split; [done|]. exists w. unfold parse_tag. rewrite Ht. done.
Qed.

(** A test over the other versions of a line is one over the tags of the line. *)
Lemma granted (line : triple → bool) existing mine os :
  Forall2 (fun tag o => (v ← parse_tag tag; vtuple v) = Ok o) (List.filter TAG_RE existing) os →
  forallb (fun o => tuple_le o mine) (List.filter line (List.filter (fun o => negb (bool_decide (o = mine))) os)) = true
  ↔ ∀ tag o, tag ∈ existing → names_version tag o → line o = true → tuple_le o mine = true.
Proof.
  intros Hos. rewrite forallb_forall. split.
  - intros H tag o Htag (w & Hp & Hv) Hl. destruct (decide (o = mine)) as [->|Hne]; [apply tuple_le_refl|].
    apply H. apply filter_In. split; [|done]. apply filter_In. split; [|by rewrite bool_decide_false].
    assert (tag ∈ List.filter TAG_RE existing) as Hin.
    { apply list_elem_of_In, filter_In. split; [by apply list_elem_of_In|]. unfold parse_tag in Hp. by destruct (TAG_RE tag). }
    apply list_elem_of_lookup_1 in Hin as [i Hi]. destruct (Forall2_lookup_l _ _ _ _ _ Hos Hi) as (o' & Ho & E).
    rewrite Hp in E. simpl in E. rewrite Hv in E. injection E as <-. apply list_elem_of_In. by apply list_elem_of_lookup_2 in Ho.
  - intros H o [[Ho _]%filter_In Hl]%filter_In. apply list_elem_of_In, list_elem_of_lookup_1 in Ho as [i Hi].
    destruct (Forall2_lookup_r _ _ _ _ _ Hos Hi) as (tag & Ht & E).
    apply list_elem_of_lookup_2, list_elem_of_In, filter_In in Ht as [Ht _].
    apply (H tag o); [by apply list_elem_of_In| |done].
    destruct (parse_tag tag) as [w|] eqn:Hp; [|done]. by exists w.
Qed.

Lemma filter_all {A} (l : list A) : List.filter (fun _ => true) l = l.
Proof. induction l as [|x l IH]; simpl; [done|]. by rewrite IH. Qed.
(** What [stable_tags] grants: the tag of the version, and each of its lines in which no
    existing tag is higher. *)
Lemma stable_tags_spec version existing tags mine : stable_tags version existing = Ok tags → vtuple version = Ok mine →
  ∀ p, p ∈ tags ↔ p = "v" +:+ version ∨ (p ∈ lines_of mine
    ∧ ∀ tag o, tag ∈ existing → names_version tag o → p ∈ lines_of o → tuple_le o mine = true).
Proof.
  unfold stable_tags. intros H Hm. rewrite Hm in H. simpl in H.
  destruct (each _ _) as [os|] eqn:E; [|done]. simpl in H. injection H as <-. apply each_ok in E.
  assert (∀ (b : bool) (q p : string), p ∈ (if b then [q] else []) ↔ p = q ∧ b = true) as Hone.
  { intros [] q p; [rewrite list_elem_of_singleton; naive_solver|]. split; [by intros ?%not_elem_of_nil|by intros []]. }
  intros p. rewrite elem_of_cons, !elem_of_app, !Hone, !(granted _ _ _ _ E).
  rewrite <- (filter_all (List.filter (fun o => negb (bool_decide (o = mine))) os)), (granted _ _ _ _ E).
  split.
  - intros [->|[[-> H]|[[-> H]|[-> H]]]]; [by left|right; split..].
    + left.
    + intros tag o Ht Hn Hl. apply (H tag o Ht Hn). by apply minor_line.
    + right; left.
    + intros tag o Ht Hn Hl. apply (H tag o Ht Hn). by apply major_line.
    + apply latest_line.
    + intros tag o Ht Hn _. by apply (H tag o Ht Hn).
  - intros [->|[Hp H]]; [by left|right]. unfold lines_of in Hp. rewrite !elem_of_cons in Hp.
    destruct Hp as [->|[->|[->|[]%not_elem_of_nil]]].
    + left. split; [done|]. intros tag o Ht Hn Hl. apply (H tag o Ht Hn). by apply minor_line.
    + right; left. split; [done|]. intros tag o Ht Hn Hl. apply (H tag o Ht Hn). by apply major_line.
    + right; right. split; [done|]. intros tag o Ht Hn _. apply (H tag o Ht Hn), latest_line.
Qed.
Lemma stable_tags_version version existing tags : stable_tags version existing = Ok tags → ∃ mine, vtuple version = Ok mine.
Proof. unfold stable_tags. destruct (vtuple version) as [m|]; [by exists m|done]. Qed.

Lemma move_get tags version p d : dict_get p (move tags version d) = if bool_decide (p ∈ tags) then Some version else dict_get p d.
Proof.
  unfold move. revert d. induction tags as [|q tags IH]; intros d; [done|]. cbn [fold_left]. rewrite IH.
  destruct (decide (p ∈ tags)) as [Hp|Hp]; [rewrite !bool_decide_true by (done || by right); done|].
  rewrite (bool_decide_false (p ∈ tags)) by done. destruct (decide (p = q)) as [->|Hne].
  - rewrite bool_decide_true by left. apply dict_get_set_eq.
  - rewrite bool_decide_false by (intros [?|?]%elem_of_cons; done). by apply dict_get_set_ne.
Qed.

(** *** Convenience tags *)

(** Where a tag points: a pushed version of its line; and a published version that no tag of
    a line exceeds has the line's tag. *)
Record inv (s : t) : Prop := Inv {
  inv_line : ∀ p w, dict_get p (pointers s) = Some w →
    ∃ v, vtuple w = Ok v ∧ "v" +:+ w ∈ git s ∧ (p = "v" +:+ w ∨ p ∈ lines_of v);
  inv_pushed : ∀ w, w ∈ published s → "v" +:+ w ∈ git s;
  inv_high : ∀ w v p, w ∈ published s → vtuple w = Ok v → p ∈ lines_of v →
    (∀ tag o, tag ∈ git s → names_version tag o → p ∈ lines_of o → tuple_le o v = true) →
    ∃ w', dict_get p (pointers s) = Some w' ∧ vtuple w' = Ok v
}.
Lemma lines_not_tags w v : "v" +:+ w ∉ lines_of v.
Proof.
  destruct v as [[x y] z]. unfold lines_of. rewrite !elem_of_cons.
  intros [E|[E|[E|[]%not_elem_of_nil]]]; apply (f_equal Crypto.chars) in E.
  - unfold minor in E. rewrite !Text.chars_app in E. pose proof (Text.str_int_chars x) as H.
    destruct (Crypto.chars (Text.str_int x)); cbn in E; [done|]. injection E as <- _. by apply andb_true_iff in H as [H _].
  - cbn [major] in E. pose proof (Text.str_int_chars x) as H. rewrite <- E in H. by apply andb_true_iff in H as [H _].
  - done.
Qed.

(** A line's tag only moves up. *)
Lemma publish_up s e p w w' v v' : inv s → (∀ u, p ≠ "v" +:+ u) →
  dict_get p (pointers s) = Some w → dict_get p (pointers (step s e)) = Some w' →
  vtuple w = Ok v → vtuple w' = Ok v' → tuple_le v v' = true.
Proof.
  intros [Hl _ _] Hp Hw Hw' Hv Hv'. assert (w = w' → tuple_le v v' = true) as Hsame.
  { intros <-. rewrite Hv in Hv'. injection Hv' as ->. apply tuple_le_refl. }
  destruct e as [name|version]; simpl in Hw'; [apply Hsame; congruence|].
  destruct (bool_decide _); [|apply Hsame; congruence].
  destruct (stable_tags version (git s)) as [tags|] eqn:E; [|apply Hsame; congruence]. simpl in Hw'.
  rewrite move_get in Hw'. case_bool_decide as Hin; [|apply Hsame; congruence]. injection Hw' as ->.
  destruct (Hl p w Hw) as (v0 & Hv0 & Hg & [->|Hline]); [by destruct (Hp w)|]. rewrite Hv in Hv0. injection Hv0 as <-.
  apply (stable_tags_spec _ _ _ _ E Hv') in Hin as [->|[_ Hin]]; [by destruct (Hp w')|].
  apply (Hin ("v" +:+ w) v Hg); [by apply tag_of_version|done].
Qed.

Lemma step_inv s e : inv s → inv (step s e).
Proof.
  intros Hi. destruct e as [name|version]; simpl.
  { destruct Hi as [Hl Hpu Hh]. constructor; simpl.
    - intros p w Hp. destruct (Hl p w Hp) as (v & ? & ? & ?). exists v. split_and!; [done|rewrite elem_of_app; by left|done].
    - intros w Hw. rewrite elem_of_app. left. by apply Hpu.
    - intros w v p Hw Hv Hp Hall. apply (Hh w v p Hw Hv Hp). intros tag o Ht. apply Hall. rewrite elem_of_app. by left. }
  case_bool_decide as Hg; [|done]. destruct (stable_tags version (git s)) as [tags|] eqn:E; [|done].
  destruct (stable_tags_version _ _ _ E) as [mine Hm]. pose proof (stable_tags_spec _ _ _ _ E Hm) as Hspec.
  destruct Hi as [Hl Hpu Hh].
  assert (∀ w, w ∈ published s ++ [version] → "v" +:+ w ∈ git s) as Hpu'.
  { intros w [Hw|Hw%list_elem_of_singleton]%elem_of_app; [by apply Hpu|by subst]. }
  constructor; cbn [git pointers published]; [|done|].
  - intros p w. rewrite move_get. case_bool_decide as Hin; [|apply Hl]. intros [= <-]. exists mine. split_and!; [done..|].
    apply Hspec in Hin as [->|[Hin _]]; [by left|by right].
  - intros w v p Hw Hv Hp Hall. rewrite move_get. case_bool_decide as Hin.
    + exists version. split; [done|]. rewrite Hm. f_equal.
      apply Hspec in Hin as [->|[Hline Hin]]; [by destruct (lines_not_tags version v)|]. apply tuple_le_antisym.
      * apply (Hall ("v" +:+ version) mine Hg); [by apply tag_of_version|done].
      * apply (Hin ("v" +:+ w) v (Hpu' w Hw)); [by apply tag_of_version|done].
    + apply elem_of_app in Hw as [Hw|Hw%list_elem_of_singleton]; [by apply (Hh w v p)|]. subst w.
      rewrite Hm in Hv. injection Hv as <-. destruct Hin. apply Hspec. by right.
Qed.
Lemma run_inv l : inv (run l).
Proof.
  unfold run. assert (∀ s, inv s → inv (fold_left step l s)) as H.
  { induction l as [|e l IH]; intros s Hs; [done|]. apply IH. by apply step_inv. }
  apply H. constructor; [by intros|intros w []%not_elem_of_nil|intros w v p []%not_elem_of_nil].
Qed.

(** Whatever tags are pushed and versions published, in any order: a convenience tag
    ([X.Y], [X] or [latest]) is never moved from a version to a lower one, and once a
    published version is the highest of a line among the pushed tags, the tag of the line
    points to it. *)
Theorem convenience_tags_climb l :
  (∀ e p w w' v v', (∀ u, p ≠ "v" +:+ u) →
     dict_get p (pointers (run l)) = Some w → dict_get p (pointers (step (run l) e)) = Some w' →
     vtuple w = Ok v → vtuple w' = Ok v' → tuple_le v v' = true)
  ∧ (∀ w v p, w ∈ published (run l) → vtuple w = Ok v → p ∈ lines_of v →
       (∀ tag o, tag ∈ git (run l) → names_version tag o → p ∈ lines_of o → tuple_le o v = true) →
       ∃ w', dict_get p (pointers (run l)) = Some w' ∧ vtuple w' = Ok v).
Proof.
  pose proof (run_inv l) as Hi. split; [intros; by eapply publish_up|]. apply (inv_high _ Hi).
Qed.

(** A tag whose release failed holds the line's tag back: [latest] stays at 1.0.0 although
    1.1.0 is the highest version published. *)
Example failed_release_holds_latest :
  dict_get "latest" (pointers (run [Tag "v1.0.0"; Publish "1.0.0"; Tag "v1.2.0"; Tag "v1.1.0"; Publish "1.1.0"])) = Some "1.0.0".
Proof. vm_compute. reflexivity. Qed.
Lemma convenience_tags_climb_witness :
  let l := [Tag "v2.0.0"; Publish "2.0.0"; Tag "v1.9.1"] in
  (tuple_le (2, 0, 0) (2, 0, 0) = true) ∧ ∃ w', dict_get "latest" (pointers (run l)) = Some w' ∧ vtuple w' = Ok (2, 0, 0).
Proof.
  intros l. split.
  - apply (proj1 (convenience_tags_climb l) (Publish "1.9.1") "latest" "2.0.0" "2.0.0"); [done|vm_compute; reflexivity..].
  - apply (proj2 (convenience_tags_climb l) "2.0.0"); [vm_compute; left|vm_compute; reflexivity|apply latest_line|].
    intros tag o Ht (w & Hp & Hv) _. change (git (run l)) with ["v2.0.0"; "v1.9.1"] in Ht.
    apply elem_of_cons in Ht as [Ht|Ht%list_elem_of_singleton]; subst tag; vm_compute in Hp; injection Hp as <-;
      vm_compute in Hv; injection Hv as <-; reflexivity.
Defined.

End Registry.

(** ** The vulnerability gate *)

Module ScanGate.
Import Value.

(** [v.get(key, d)], [v[key]] and [for x in v] *)
Definition get (key : string) (d v : t) : result failure t :=
  match v with VDict l => Ok (default d (dict_get key l)) | _ => Err (Raises AttributeError) end.
Definition item (key : string) (v : t) : result failure t :=
  match v with
  | VDict l => match dict_get key l with Some x => Ok x | None => Err (Raises KeyError) end
  | _ => Err (Raises TypeError)
  end.
Definition iter (v : t) : result failure (list t) :=
  match v with
  | VList l => Ok l
  | VDict l => Ok (map (fun p => VStr (fst p)) l)
  | VStr s => Ok (map (fun c => VStr (String c "")) (Crypto.chars s))
  | _ => Err (Raises TypeError)
  end.

Section Gate.
(** [date.fromisoformat] as a day number; [None] is [ValueError]. *)
Context (fromisoformat : string → option Z) (today : Z).

Definition FIELDS : list string := ["id"; "package"; "reason"; "expires"].
Definition SEVERITIES : list string := ["Critical"; "High"; "Medium"; "Low"; "Negligible"; "Unknown"].

(** One round of the loop of [load_exceptions]. *)
Definition check_entry (entry : t) : result failure t :=
  present ← each (fun k => v ← get k VNone entry; Ok (truthy v)) FIELDS;
  if forallb id present then
    e ← item "expires" entry;
    match e with
    | VStr s => match fromisoformat s with
                | Some d => if d <? today then Err ReleaseError else Ok entry
                | None => Err (Raises ValueError)
                end
    | _ => Err (Raises TypeError)
    end
  else Err ReleaseError.
(** [load_exceptions]; no file is no exceptions. *)
Definition load_exceptions (file : option t) : result failure (list t) :=
  match file with
  | None => Ok []
  | Some data => v ← get "exceptions" (VList []) data; l ← iter v; each check_entry l
  end.

Definition finding : Type := t * t * t.
(** [next((e for e in exceptions if ...), None)] *)
Fixpoint find_exception (vid package : t) (l : list t) : result failure (option t) :=
  match l with
  | [] => Ok None
  | e :: l' =>
      i ← item "id" e;
      if py_eq i vid then
        p ← item "package" e;
        if py_eq p package then Ok (Some e) else find_exception vid package l'
      else find_exception vid package l'
  end.
Record acc := Acc { counts : list (string * Z); blocking : list finding; applied : list t }.
Definition bump (sev : string) (d : list (string * Z)) : list (string * Z) := dict_set sev (default 0 (dict_get sev d) + 1) d.
(** The key that is counted; a list or a dictionary has no hash. *)
Definition count_key (sev : t) : result failure string :=
  match sev with
  | VStr s => Ok (if bool_decide (s ∈ SEVERITIES) then s else "Unknown")
  | VList _ | VDict _ => Err (Raises TypeError)
  | _ => Ok "Unknown"
  end.
(** One round of the loop of [scan_gate]. *)
Definition scan_match (exceptions : list t) (a : acc) (m : t) : result failure acc :=
  vuln ← get "vulnerability" (VDict []) m;
  art ← get "artifact" (VDict []) m;
  sev ← get "severity" (VStr "Unknown") vuln;
  key ← count_key sev;
  let a := Acc (bump key (counts a)) (blocking a) (applied a) in
  if negb (py_eq sev (VStr "Critical")) then Ok a
  else
    vid ← get "id" (VStr "?") vuln;
    package ← get "name" (VStr "?") art;
    version ← get "version" (VStr "?") art;
    exc ← find_exception vid package exceptions;
    Ok (match exc with
        | None => Acc (counts a) (blocking a ++ [(vid, package, version)]) (applied a)
        | Some e => if existsb (py_eq e) (applied a) then a else Acc (counts a) (blocking a) (applied a ++ [e])
        end).
Fixpoint scan_loop (exceptions : list t) (a : acc) (l : list t) : result failure acc :=
  match l with
  | [] => Ok a
  | m :: l' => a ← scan_match exceptions a m; scan_loop exceptions a l'
  end.
(** [scan_gate] *)
Definition scan_gate (report : t) (exceptions : list t) : result failure acc :=
  v ← get "matches" (VList []) report;
  l ← iter v;
  scan_loop exceptions (Acc (map (fun s => (s, 0)) SEVERITIES) [] []) l.
(** The [scan-gate] branch of [_cmd], for a report and the exceptions file. *)
Definition cmd (report : t) (file : option t) : result failure acc :=
  exceptions ← load_exceptions file;
  a ← scan_gate report exceptions;
  if bool_decide (blocking a = []) then Ok a else Err ReleaseError.

(** *** A release that passes *)

(** A critical match and an exception that covers it. *)
Definition critical (m : t) : Prop :=
  ∃ vuln, get "vulnerability" (VDict []) m = Ok vuln ∧ get "severity" (VStr "Unknown") vuln = Ok (VStr "Critical").
Definition covers (e m : t) : Prop :=
  ∃ vuln art i p vid name, get "vulnerability" (VDict []) m = Ok vuln ∧ get "artifact" (VDict []) m = Ok art
    ∧ item "id" e = Ok i ∧ item "package" e = Ok p ∧ get "id" (VStr "?") vuln = Ok vid ∧ get "name" (VStr "?") art = Ok name
    ∧ py_eq i vid = true ∧ py_eq p name = true.
(** Documented and in force. *)
Definition in_force (e : t) : Prop :=
  (∀ k, k ∈ FIELDS → ∃ v, get k VNone e = Ok v ∧ truthy v = true)
  ∧ ∃ s d, item "expires" e = Ok (VStr s) ∧ fromisoformat s = Some d ∧ today <= d.
Definition total (d : list (string * Z)) : Z := fold_right (fun p n => snd p + n) 0 d.

Lemma total_set k v d : total (dict_set k v d) = total d - default 0 (dict_get k d) + v.
Proof.
  unfold dict_get. induction d as [|[k' v'] d IH]; simpl; [lia|].
  destruct (bool_decide (k' = k)); simpl; [lia|]. rewrite IH. destruct (find _ d); simpl; lia.
Qed.
Lemma find_exception_some vid package l e : find_exception vid package l = Ok (Some e) →
  e ∈ l ∧ ∃ i p, item "id" e = Ok i ∧ item "package" e = Ok p ∧ py_eq i vid = true ∧ py_eq p package = true.
Proof.
  induction l as [|x l IH]; simpl; [done|]. destruct (item "id" x) as [i|] eqn:Hi; [|done]. simpl.
  assert (find_exception vid package l = Ok (Some e) → e ∈ x :: l ∧ ∃ i p, item "id" e = Ok i ∧ item "package" e = Ok p
    ∧ py_eq i vid = true ∧ py_eq p package = true) as Hrest.
  { intros [Hin H]%IH. split; [by right|done]. }
  destruct (py_eq i vid) eqn:E1; [|exact Hrest]. destruct (item "package" x) as [p|] eqn:Hp; [|done]. simpl.
  destruct (py_eq p package) eqn:E2; [|exact Hrest]. intros [= <-]. split; [left|]. by exists i, p.
Qed.
Lemma find_exception_none vid package l : find_exception vid package l = Ok None →
  ∀ e i p, e ∈ l → item "id" e = Ok i → item "package" e = Ok p → py_eq i vid = true → py_eq p package = false.
Proof.
  induction l as [|x l IH]; simpl; [by intros _ e i p []%not_elem_of_nil|].
  destruct (item "id" x) as [i0|] eqn:Hi; [|done]. simpl. intros H e i p [->|Hin]%elem_of_cons He Hp Ei.
  - rewrite Hi in He. injection He as ->. rewrite Ei, Hp in H. simpl in H. by destruct (py_eq p package).
  - destruct (py_eq i0 vid); [|by eapply IH]. destruct (item "package" x); [|done]. simpl in H.
    destruct (py_eq _ package); [done|by eapply IH].
Qed.

(** Equal to a string is that string. *)
Lemma py_eq_str v s : py_eq v (VStr s) = true ↔ v = VStr s.
Proof.
  split; [|intros ->; simpl; by rewrite bool_decide_true]. destruct v; simpl; try done. intros ->%bool_decide_eq_true. done.
Qed.

(** A round either leaves the blocking findings alone, with a critical match covered, or
    adds the one of a critical match that nothing covers. *)
Lemma scan_match_spec excs a m a' : scan_match excs a m = Ok a' →
  total (counts a') = total (counts a) + 1
  ∧ ((blocking a' = blocking a ∧ (critical m → ∃ e, e ∈ excs ∧ covers e m))
     ∨ (blocking a' ≠ [] ∧ critical m ∧ ∀ e, e ∈ excs → ¬ covers e m)).
Proof.
  unfold scan_match. destruct (get "vulnerability" _ m) as [vuln|] eqn:Ev; [|done]. cbn.
  destruct (get "artifact" _ m) as [art|] eqn:Ea; [|done]. cbn.
  destruct (get "severity" _ vuln) as [sev|] eqn:Es; [|done]. cbn.
  destruct (count_key sev) as [key|]; [|done]. cbn.
  assert (total (bump key (counts a)) = total (counts a) + 1) as Ht by (unfold bump; rewrite total_set; lia).
  destruct (py_eq sev (VStr "Critical")) eqn:Ec; cbn.
  2: { intros [= <-]. split; [done|]. left. split; [done|]. intros (vuln' & Ev' & Es'). rewrite Ev in Ev'.
       injection Ev' as <-. rewrite Es in Es'. injection Es' as ->. done. }
  apply py_eq_str in Ec as ->.
  destruct (get "id" _ vuln) as [vid|] eqn:Ei; [|done]. cbn. destruct (get "name" _ art) as [pkg|] eqn:Ep; [|done]. cbn.
  destruct (get "version" _ art) as [ver|]; [|done]. cbn.
  destruct (find_exception vid pkg excs) as [[e|]|] eqn:Ef; [..|done]; cbn; intros [= <-].
  - apply find_exception_some in Ef as (He & i & p & ? & ? & ? & ?).
    split; [by destruct (existsb _ _)|]. left. split; [by destruct (existsb _ _)|]. intros _. exists e. split; [done|].
    by exists vuln, art, i, p, vid, pkg.
  - split; [done|]. right. split_and!; [by destruct (blocking a)|by exists vuln|].
    intros e He (vuln' & art' & i & p & vid' & pkg' & E1 & E2 & E3 & E4 & E5 & E6 & E7 & E8).
    rewrite Ev in E1. injection E1 as <-. rewrite Ea in E2. injection E2 as <-. rewrite Ei in E5. injection E5 as <-.
    rewrite Ep in E6. injection E6 as <-. by rewrite (find_exception_none _ _ _ Ef e i p He E3 E4 E7) in E8.
Qed.
Lemma scan_match_keeps excs a m a' : scan_match excs a m = Ok a' → blocking a ≠ [] → blocking a' ≠ [].
Proof. intros H Hb. destruct (scan_match_spec _ _ _ _ H) as [_ [[-> _]|[? _]]]; done. Qed.
Lemma scan_loop_spec excs l a a' : scan_loop excs a l = Ok a' → blocking a = [] →
  total (counts a') = total (counts a) + Z.of_nat (length l)
  ∧ (blocking a' = [] ↔ ∀ m, m ∈ l → critical m → ∃ e, e ∈ excs ∧ covers e m).
Proof.
  revert a. induction l as [|m l IH]; intros a; simpl.
  { intros [= <-] Hb. split; [lia|]. split; [by intros _ m []%not_elem_of_nil|done]. }
  destruct (scan_match excs a m) as [a1|] eqn:E; [|done]. cbn. intros Hl Hb.
  destruct (scan_match_spec _ _ _ _ E) as [Ht [[Hb1 Hc]|(Hb1 & Hc & Hn)]].
  - destruct (IH a1 Hl) as [Ht' Hi]; [congruence|]. split; [lia|]. rewrite Hi. split.
    + intros H x [->|Hx]%elem_of_cons; [done|by apply H].
    + intros H x Hx. apply H. by right.
  - assert (blocking a' ≠ [] ∧ total (counts a') = total (counts a1) + Z.of_nat (length l)) as [Hb' Ht'].
    { clear -Hl Hb1. revert a1 Hl Hb1. induction l as [|x l IH]; intros a1; simpl; [intros [= <-] ?; split; [done|lia]|].
      destruct (scan_match excs a1 x) as [a2|] eqn:E; [|done]. cbn. intros Hl Hb.
      destruct (IH a2 Hl) as [? ?]; [by eapply scan_match_keeps|]. destruct (scan_match_spec _ _ _ _ E). split; [done|lia]. }
    split; [lia|]. split; [done|]. intros H. destruct (H m) as (e & He & Hcov); [left|done|]. by destruct (Hn e He).
Qed.

Lemma check_entry_ok e e' : check_entry e = Ok e' → e' = e ∧ in_force e.
Proof.
  unfold check_entry. destruct (each _ FIELDS) as [bs|] eqn:E; [|done]. cbn. apply each_ok in E.
  destruct (forallb id bs) eqn:Hb; [|done].
  destruct (item "expires" e) as [[| | | |s| |]|] eqn:Ei; cbn; try done.
  destruct (fromisoformat s) as [d|] eqn:Ed; [|done]. destruct (Z.ltb_spec d today); [done|]. intros [= <-].
  split; [done|]. split; [|by exists s, d].
  intros k Hk. apply list_elem_of_lookup_1 in Hk as [i Hi]. destruct (Forall2_lookup_l _ _ _ _ _ E Hi) as (b & Hbi & Hg).
  destruct (get k VNone e) as [v|]; [|done]. cbn in Hg. injection Hg as Hg. exists v. split; [done|].
  rewrite forallb_forall in Hb. rewrite Hg. apply Hb. apply list_elem_of_In. by apply list_elem_of_lookup_2 in Hbi.
Qed.
Lemma load_exceptions_ok file excs e : load_exceptions file = Ok excs → e ∈ excs → in_force e.
Proof.
  unfold load_exceptions. destruct file as [data|]; [|intros [= <-]; by intros []%not_elem_of_nil].
  destruct (get _ _ data) as [v|]; [|done]. cbn. destruct (iter v) as [l|]; [|done]. cbn.
  intros H%each_ok He. apply list_elem_of_lookup_1 in He as [i Hi].
  destruct (Forall2_lookup_r _ _ _ _ _ H Hi) as (x & _ & Hx). by destruct (check_entry_ok x e Hx) as [-> ?].
Qed.

(** A candidate passes the vulnerability gate exactly when every critical match of the
    report has an exception for its id and package, and then each of those exceptions is
    fully documented and has not expired; every match is counted once. *)
Theorem scan_gate_exact report v ms file excs a :
  get "matches" (VList []) report = Ok v → iter v = Ok ms → load_exceptions file = Ok excs → scan_gate report excs = Ok a →
  total (counts a) = Z.of_nat (length ms)
  ∧ (cmd report file = Ok a ↔ ∀ m, m ∈ ms → critical m → ∃ e, e ∈ excs ∧ covers e m ∧ in_force e).
Proof.
  intros Hv Hms Hex Hscan. unfold cmd. rewrite Hex. cbn. rewrite Hscan. cbn.
  unfold scan_gate in Hscan. rewrite Hv in Hscan. cbn in Hscan. rewrite Hms in Hscan. cbn in Hscan.
  apply scan_loop_spec in Hscan as [Ht Hb]; [|done]. split; [exact Ht|].
  case_bool_decide as Hz.
  - split; [|done]. intros _ m Hm Hc. destruct (proj1 Hb Hz m Hm Hc) as (e & He & Hcov). exists e.
    split_and!; [done..|]. by eapply load_exceptions_ok.
  - split; [done|]. intros H. destruct Hz. apply Hb. intros m Hm Hc. destruct (H m Hm Hc) as (e & He & Hcov & _). by exists e.
Qed.
End Gate.

(** A report with one critical and one low match, and an exceptions file. *)
Definition match_of (vid sev name : string) : t :=
  VDict [("vulnerability", VDict [("id", VStr vid); ("severity", VStr sev)]); ("artifact", VDict [("name", VStr name); ("version", VStr "1")])].
Definition report0 : t := VDict [("matches", VList [match_of "CVE-1" "Critical" "zlib"; match_of "CVE-2" "Low" "zlib"])].
Definition file0 (package : string) : t :=
  VDict [("exceptions", VList [VDict [("id", VStr "CVE-1"); ("package", VStr package); ("reason", VStr "not reached"); ("expires", VStr "2026-12-01")]])].
Lemma scan_gate_exact_witness :
  let excs := match load_exceptions (fun _ => Some 100) 99 (Some (file0 "zlib")) with Ok l => l | Err _ => [] end in
  cmd (fun _ => Some 100) 99 report0 (Some (file0 "zlib"))
    = Ok (Acc [("Critical", 1); ("High", 0); ("Medium", 0); ("Low", 1); ("Negligible", 0); ("Unknown", 0)] [] excs)
  ∧ cmd (fun _ => Some 100) 99 report0 (Some (file0 "glibc")) = Err ReleaseError
  ∧ cmd (fun _ => Some 98) 99 report0 (Some (file0 "zlib")) = Err ReleaseError
  ∧ (∀ m, m ∈ [match_of "CVE-1" "Critical" "zlib"; match_of "CVE-2" "Low" "zlib"] → critical m →
       ∃ e, e ∈ excs ∧ covers e m ∧ in_force (fun _ => Some 100) 99 e).
Proof.
  intros excs. split; [vm_compute; reflexivity|]. split; [vm_compute; reflexivity|]. split; [vm_compute; reflexivity|].
  eapply (proj1 (proj2 (scan_gate_exact (fun _ => Some 100) 99 report0
    (VList [match_of "CVE-1" "Critical" "zlib"; match_of "CVE-2" "Low" "zlib"]) _ (Some (file0 "zlib")) excs
    (Acc [("Critical", 1); ("High", 0); ("Medium", 0); ("Low", 1); ("Negligible", 0); ("Unknown", 0)] [] excs)
    eq_refl eq_refl eq_refl eq_refl))).
  vm_compute. reflexivity.
Defined.

End ScanGate.

(** ** Artifacts *)

Module Artifact.
Import Value.

(** [verify_wheel]: [names] is [zf.namelist()]. *)
Definition verify_wheel (name : string) (names : list string) (expect_version : option string) : result failure (list string) :=
  if match expect_version with Some v => negb (Version.contains ("-" +:+ v +:+ "-") name) | None => false end
  then Err ReleaseError
  else if negb (bool_decide ("engine/static/index.html" ∈ names)) then Err ReleaseError
  else
    let assets := List.filter (fun n => Text.startswith "engine/static/assets/" n && negb (Text.endswith "/" n)) names in
    if bool_decide (assets = []) then Err ReleaseError else Ok assets.

(** What [tf.extractfile(name)] gives: [KeyError] when there is no such member, [None] when it
    is no file, or a file with its parsed JSON. *)
Inductive member := Missing | Other | File (v : t).
Definition extractfile (m : member) : result failure t :=
  match m with Missing => Err (Raises KeyError) | Other => Err ReleaseError | File v => Ok v end.

Section Archive.
(** [dict(l)] of a non-empty list, and [str(v)] of a value that is no string. *)
Context (dict_of_pairs : list t → result exn Report.dict) (to_str : t → string).
Context (archive : string → member).

Definition as_dict (v : t) : result failure t :=
  match Report.dict_of_value dict_of_pairs v with Ok d => Ok (VDict d) | Err e => Err (Raises e) end.
(** [digest.split(":", 1)[1]]; without a colon the index is out of range, a [LookupError] as
    [KeyError] is. *)
Definition after_colon (digest : t) : result failure string :=
  match digest with
  | VStr s => if Text.mem ":" s then Ok (snd (Text.partition ":" s)) else Err (Raises KeyError)
  | _ => Err (Raises AttributeError)
  end.
(** [blob] *)
Definition blob (digest : t) : result failure t :=
  d ← after_colon digest;
  v ← extractfile (archive ("blobs/sha256/" +:+ d));
  as_dict v.
Definition OCI_MANIFEST : string := "application/vnd.oci.image.manifest.v1+json".
Definition length_of (v : t) : result failure nat :=
  match v with
  | VList l => Ok (length l) | VDict l => Ok (length l) | VStr s => Ok (String.length s)
  | _ => Err (Raises TypeError)
  end.
Definition first_of (v : t) : result failure t :=
  match v with
  | VList (x :: _) => Ok x
  | VStr (String c _) => Ok (VStr (String c ""))
  | _ => Err (Raises KeyError)
  end.
Definition text (v : t) : string := match v with VStr s => s | _ => to_str v end.
(** [oci_digests] *)
Definition oci_digests : result failure (t * t * string) :=
  index ← extractfile (archive "index.json");
  manifests ← ScanGate.get "manifests" (VList []) index;
  n ← length_of manifests;
  if negb (Nat.eqb n 1) then Err ReleaseError
  else
    m ← first_of manifests;
    media ← ScanGate.get "mediaType" VNone m;
    if negb (py_eq media (VStr OCI_MANIFEST)) then Err ReleaseError
    else
      manifest_digest ← ScanGate.item "digest" m;
      b ← blob manifest_digest;
      c ← ScanGate.item "config" b;
      config_digest ← ScanGate.item "digest" c;
      config ← blob config_digest;
      os ← ScanGate.get "os" VNone config;
      arch ← ScanGate.get "architecture" VNone config;
      let platform := text os +:+ "/" +:+ text arch in
      if bool_decide (platform = "linux/amd64") then Ok (manifest_digest, config_digest, platform) else Err ReleaseError.

End Archive.

(** [Path(p).name]: empty and single-dot components do not count. *)
Definition basename (path : string) : string :=
  List.last (List.filter (fun c => str_true c && negb (bool_decide (c = "."))) (Text.split "/" path)) "".
(** [saved_config_digest]: the members of the stream in order, with the JSON of those that
    are files. *)
Definition removesuffix (suffix s : string) : string :=
  if str_true suffix && Text.endswith suffix s
  then Crypto.of_chars (take (String.length s - String.length suffix) (Crypto.chars s)) else s.
Fixpoint saved_config_digest (members : list (string * option t)) : result failure string :=
  match members with
  | [] => Err ReleaseError
  | (name, content) :: rest =>
      if bool_decide (name = "manifest.json") then
        match content with
        | None => Err ReleaseError
        | Some entries =>
            n ← length_of entries;
            if negb (Nat.eqb n 1) then Err ReleaseError
            else
              e ← first_of entries;
              c ← ScanGate.item "Config" e;
              match c with
              | VStr path => Ok ("sha256:" +:+ removesuffix ".json" (basename path))
              | _ => Err (Raises TypeError)
              end
        end
      else saved_config_digest rest
  end.

(** *** The compose file *)

(** [COMPOSE_IMAGE_RE] *)
Definition PLACEHOLDER : Str.t := Str.lit "image: ${IMAGE".
Definition compose_match (_ s : Str.t) : nat :=
  if Str.prefix PLACEHOLDER s then
    let '(body, rest) := Str.span (fun c => negb ((c =? 125) || (c =? 10))) (drop (length PLACEHOLDER) s) in
    match rest with
    | 125 :: _ => length PLACEHOLDER + length body + 1
    | _ => 0
    end
  else 0.
(** [DIGEST_REF_RE]; its dollar sign also matches before a final line end. *)
Definition ref_char (c : Z) : bool := Str.is_lower c || Str.is_digit c.
Definition hex_char (c : Z) : bool := Str.is_digit c || ((97 <=? c) && (c <=? 102)).
Definition digest_ref (s : Str.t) : bool :=
  match Str.cut 64 s with
  | (c :: repo, Some rest) =>
      ref_char c && forallb (fun c => ref_char c || Str.one_of "._/-" c) repo
      && Str.prefix (Str.lit "sha256:") rest
      && (let '(hex, tail) := Str.span hex_char (drop 7 rest) in
          Nat.eqb (length hex) 64 && (bool_decide (tail = []) || bool_decide (tail = [10])))
  | _ => false
  end.
(** [render_compose] *)
Definition render_compose (template image_ref : Str.t) : result failure Str.t :=
  if negb (digest_ref image_ref) then Err ReleaseError
  else
    let rendered := Re.sub compose_match (fun _ => Str.lit "image: " ++ image_ref) template in
    if Nat.eqb (length (Re.findall compose_match template)) 1 then Ok rendered else Err ReleaseError.

(** *** One substitution *)

Section Single.
Context (m : Str.t → Str.t → nat) (f : Str.t → Str.t) (Hm : ∀ b s, (m b s <= length s)%nat).

Lemma findall_skip_any b a s : Re.findall_from m b (length a) (a ++ s) = Re.findall_from m (rev a ++ b) 0 s.
Proof. revert b. induction a as [|c a IH]; intros b; [done|]. simpl. by rewrite IH, <- app_assoc. Qed.
Lemma sub_no_match b s : Re.findall_from m b 0 s = [] → Re.sub_from m f b 0 s = s.
Proof.
  revert b. induction s as [|c s IH]; intros b; [done|]. cbn. destruct (m b (c :: s)); [|done]. intros H. by rewrite IH.
Qed.
(** A text with one match is what precedes it, the match, and what follows it. *)
Lemma sub_single b s w : Re.findall_from m b 0 s = [w] →
  ∃ pre post, s = pre ++ w ++ post ∧ Re.sub_from m f b 0 s = pre ++ f w ++ post.
Proof.
  revert b. induction s as [|c s IH]; intros b; [done|]. cbn. pose proof (Hm b (c :: s)) as Hle.
  destruct (m b (c :: s)) as [|k].
  - intros H. destruct (IH _ H) as (pre & post & -> & ->). by exists (c :: pre), post.
  - intros [= <- H]. simpl in Hle. rewrite <- (take_drop k s) in H |- *.
    rewrite <- (length_take_le s k) in H at 1 by lia. rewrite findall_skip_any in H.
    exists [], (drop k s). rewrite !(take_drop k s). cbn [app]. split; [by rewrite take_drop|]. f_equal.
    rewrite <- (take_drop k s) at 1. rewrite <- (length_take_le s k) at 1 by lia. rewrite Redaction.sub_skip.
    by apply sub_no_match.
Qed.
End Single.

Lemma compose_match_le b s : (compose_match b s <= length s)%nat.
Proof.
  unfold compose_match. destruct (Str.prefix PLACEHOLDER s) eqn:Hp; [|lia].
  assert (length PLACEHOLDER <= length s)%nat as Hl.
  { clear b. revert s Hp. generalize PLACEHOLDER. intros p. induction p as [|c p IH]; intros s; [simpl; lia|]. destruct s as [|d s]; simpl; [done|].
    intros [_ H]%andb_true_iff. specialize (IH s H). lia. }
  destruct (Str.span _ _) as [body rest] eqn:E. apply Redaction.span_spec in E as (E & _).
  apply (f_equal length) in E. rewrite length_drop, length_app in E.
  set (n := length PLACEHOLDER) in *. clearbody n. destruct rest as [|c rest]; [lia|]. cbn [length] in E.
  repeat case_match; lia.
Qed.
(** A rendered compose file is the template with its one placeholder replaced by an image
    that is named by digest. *)
Theorem compose_pinned template image_ref out : render_compose template image_ref = Ok out →
  digest_ref image_ref = true ∧ ∃ pre w post, template = pre ++ w ++ post ∧ Re.findall compose_match template = [w]
    ∧ out = pre ++ (Str.lit "image: " ++ image_ref) ++ post.
Proof.
  unfold render_compose. destruct (digest_ref image_ref); [|done]. cbn [negb].
  destruct (Re.findall compose_match template) as [|w [|]] eqn:E; [done| |done]. cbn. intros [= <-]. split; [done|].
  destruct (sub_single compose_match (fun _ => Str.lit "image: " ++ image_ref) compose_match_le [] template w E) as (pre & post & -> & Hs).
  exists pre, w, post. split_and!; [done..|]. exact Hs.
Qed.
Definition sha0 : Str.t := Str.lit "sha256:aaaaaaaaaaaaaaaaaaaaaaaaaaaaaaaaaaaaaaaaaaaaaaaaaaaaaaaaaaaaaaaa".
Lemma compose_pinned_witness :
  let ref := Str.lit "ghcr.io/x/y" ++ 64 :: sha0 in
  let template := Str.lit "  image: ${IMAGE:?set it} # pin" in
  ∃ out, render_compose template ref = Ok out ∧ digest_ref ref = true.
Proof.
  intros ref template. eexists. split; [vm_compute; reflexivity|].
  eapply (compose_pinned template ref). vm_compute. reflexivity.
Defined.

(** A blob that the archive lacks ends in a [KeyError], not in the documented error: the test
    for a missing member never applies to a missing member. *)
Example missing_blob_escapes to_pairs to_str :
  oci_digests to_pairs to_str (fun name => if bool_decide (name = "index.json") then
      File (VDict [("manifests", VList [VDict [("mediaType", VStr OCI_MANIFEST); ("digest", VStr "sha256:ab")]])]) else Missing)
  = Err (Raises KeyError).
Proof. vm_compute. reflexivity. Qed.
Example oci_example to_pairs to_str :
  oci_digests to_pairs to_str (fun name =>
      if bool_decide (name = "index.json") then File (VDict [("manifests", VList [VDict [("mediaType", VStr OCI_MANIFEST); ("digest", VStr "sha256:ab")]])])
      else if bool_decide (name = "blobs/sha256/ab") then File (VDict [("config", VDict [("digest", VStr "sha256:cd")])])
      else if bool_decide (name = "blobs/sha256/cd") then File (VDict [("os", VStr "linux"); ("architecture", VStr "amd64")])
      else Missing)
  = Ok (VStr "sha256:ab", VStr "sha256:cd", "linux/amd64").
Proof. vm_compute. reflexivity. Qed.
Example saved_example :
  saved_config_digest [("layer.tar", None); ("manifest.json", Some (VList [VDict [("Config", VStr "blobs/sha256/cd")]]))] = Ok "sha256:cd"
  ∧ saved_config_digest [("manifest.json", Some (VList [VDict [("Config", VStr "cd.json")]]))] = Ok "sha256:cd".
Proof. vm_compute. auto. Qed.

End Artifact.
