(* ===== verification/CommandLine.v ===== *)
(** * The command line ([engine/cli.py], [engine/store/db.py])

    [Module Cli]: the options each subcommand declares and the namespace they fill, the settings
    built from them, the commands, and [main].  The state of a command is the file system, through the
    interface [FileSystem]: directories, and what SQLite reads in and commits to a database file.  A
    command answers with what it prints and with its exit code or the exception it lets
    through.  How [argparse] finds the occurrences of the options in [argv] is not modelled. *)

From Stdlib Require Import Ascii.
From S2P Require Import Prelude Crypto Text Sql Store Keys AuditChain Accounts Migrations Backup Config Requests Stream Backends.

Open Scope Z_scope.

Module Cli.

(** ** The parser *)

Inductive value := VStr (s : string) | VInt (z : Z) | VFloat (q : Q) | VPath (p : string) | VTrue.
Inductive type := Str | Int | Float | Path_ | Store_true.

(** An [add_argument]; [dest] is the attribute of the namespace. *)
Record argument := Argument {
  dest : string; type_ : type; default_ : option value; required : bool; choices : option (list string)
}.
Definition optional (d : string) (t : type) : argument := Argument d t None false None.

(** The flags of the parent parser [common]. *)
Definition common : list argument :=
  [optional "config" Path_; optional "host" Str; optional "port" Int;
   Argument "log_level" Str None false (Some ["CRITICAL"; "ERROR"; "WARNING"; "INFO"; "DEBUG"]);
   optional "data_dir" Path_; optional "db_path" Path_].

(** The subcommands, with the arguments each accepts. *)
Inductive command := Serve | Migrate | ConfigC | Version | BackupC | Restore | Generate | KeysCreate | KeysList | KeysRevoke.
#[export] Instance command_eq_dec : EqDecision command.
Proof. solve_decision. Defined.
Definition build_parser (c : command) : list argument :=
  match c with
  | Serve | Migrate | ConfigC | KeysList => common
  | Version => []
  | BackupC => common ++ [Argument "out" Path_ (Some (VPath ".")) false None]
  | Restore => common ++ [Argument "archive" Path_ None true None; optional "force" Store_true]
  | Generate => common ++ [optional "model_path" Path_; Argument "prompt" Str None true None;
                           Argument "max_tokens" Int (Some (VInt 256)) false None;
                           Argument "temperature" Float (Some (VFloat (8 # 10))) false None]
  | KeysCreate => common ++ [optional "label" Str]
  | KeysRevoke => common ++ [Argument "key_id" Str None true None]
  end.

Definition namespace := list (string * value).
(** [getattr(args, name, None)] *)
Definition getattr (name : string) (ns : namespace) : option value := dict_get name ns.

Section Parse.
(** [int], [float] and [Path] of the text of an option. *)
Context (int_of : string → option Z) (float_of : string → option Q) (path_of : string → string).

Definition convert (t : type) (raw : string) : option value :=
  match t with
  | Str => Some (VStr raw)
  | Int => VInt <$> int_of raw
  | Float => VFloat <$> float_of raw
  | Path_ => Some (VPath (path_of raw))
  | Store_true => Some VTrue
  end.
Definition in_choices (a : argument) (raw : string) : bool :=
  match choices a with Some l => bool_decide (raw ∈ l) | None => true end.
(** One occurrence of an option: its value replaces an earlier one.  [None] is the exit with code 2. *)
Definition store (args : list argument) (o : string * string) (ns : namespace) : option namespace :=
  a ← find (fun a => bool_decide (dest a = fst o)) args;
  v ← convert (type_ a) (snd o);
  if in_choices a (snd o) then Some (dict_set (dest a) v ns) else None.
Definition defaults_of (args : list argument) : namespace :=
  omap (fun a => (fun v => (dest a, v)) <$> default_ a) args.
(** [parse_args], from the occurrences of the options in order. *)
Fixpoint stores (args : list argument) (given : list (string * string)) (ns : namespace) : option namespace :=
  match given with
  | [] => Some ns
  | o :: given => ns' ← store args o ns; stores args given ns'
  end.
Definition parse_args (c : command) (given : list (string * string)) : option namespace :=
  ns ← stores (build_parser c) given (defaults_of (build_parser c));
  if forallb (fun a => negb (required a) || bool_decide (is_Some (getattr (dest a) ns))) (build_parser c)
  then Some ns else None.
End Parse.

(** The text of the last occurrence of an option. *)
Fixpoint last_given (key : string) (given : list (string * string)) : option string :=
  match given with
  | [] => None
  | (k, raw) :: given => match last_given key given with
                         | Some r => Some r
                         | None => if bool_decide (k = key) then Some raw else None
                         end
  end.

(** The overrides of [_settings_from_args]. *)
Definition override_keys : list string := ["host"; "port"; "log_level"; "data_dir"; "db_path"; "model_path"].
Definition overrides (ns : namespace) (key : string) : option value :=
  if bool_decide (key ∈ override_keys) then getattr key ns else None.
Definition path_value (v : option value) : option string := match v with Some (VPath p) => Some p | _ => None end.
(** [_settings_from_args] *)
Definition settings_from_args (construct : (string → option value) → result Config.config_error Config.Settings)
    (w : Config.world (V:=value)) (ns : namespace) : result Config.config_error Config.Settings :=
  Config.load_config construct w (overrides ns) (path_value (getattr "config" ns)).

(** ** The database of a command *)

(** The tables of a database file the commands use, besides [schema_migrations]. *)
Record tables := Tables { db : Db.t; events : AuditLog.t }.
Definition database : Type := Migrations.db tables.

(** [sqlite_open] is what a new connection reads in a file ([None]: the file is no database), [sqlite_commit] what a
    commit leaves in it. *)
Class FileSystem (F : Type) := {
  mkdir : string → F → result Disk.error F;
  sqlite_open : string → F → option database;
  sqlite_commit : string → database → F → F
}.
(** What a commit wrote is what the file holds and what the next connection reads. *)
Class Durable (F : Type) `{FileSystem F} : Prop := {
  reads_committed p x f : sqlite_open p (sqlite_commit p x f) = Some x;
  reopens p x y f f' : mkdir (Disk.parent p) f = Ok f' → sqlite_open p f' = Some y →
    ∃ f'', mkdir (Disk.parent p) (sqlite_commit p x f') = Ok f'' ∧ sqlite_open p f'' = Some x
}.

(** The exceptions a command may let through. *)
Inductive failure :=
| Files (e : Disk.error) | Migration_error (e : Migrations.error) | Sqlite (e : exn)
| Config_error (e : Config.config_error)
| No_db_path                       (* TypeError: the settings have no path *)
| Invalid_request                  (* pydantic: ValidationError *)
| No_result                        (* AssertionError *)
| Backend_error (what : string)    (* BackendError and its subclasses *)
| Other_error (what : string).
(** [Err_exn e] is [str(exc)] on the standard error stream. *)
Inductive output :=
| Out (v : Json.t) | Out_text (s : string) | Out_settings (s : Config.Settings)
| Err_text (s : string) | Err_exn (e : failure)
| Err_summary (finish : QueueGenerationStream.FinishReason) (prompt_tokens completion_tokens : Z) (ttft_ms total_ms : Q).

Section Commands.
Context {F : Type} `{FileSystem F}.

(** A command changes the files, prints, and returns or raises. *)
Definition io (A : Type) : Type := F → F * list output * result failure A.
#[export] Instance io_ret : MRet io := fun A a f => (f, [], Ok a).
#[export] Instance io_bind : MBind io := fun A B k c f =>
  match c f with
  | (f, o, Ok a) => let '(f, o', r) := k a f in (f, o ++ o', r)
  | (f, o, Err e) => (f, o, Err e)
  end.
Definition print (o : output) : io () := fun f => (f, [o], Ok ()).
Definition raises {A} (e : failure) : io A := fun f => (f, [], Err e).

(** [connect] *)
Definition connect (p : string) : io (Migrations.conn tables) := fun f =>
  match mkdir (Disk.parent p) f with
  | Err e => (f, [], Err (Files e))
  | Ok f => match sqlite_open p f with
            | None => (f, [], Err (Files Disk.DatabaseError))
            | Some x => (f, [], Ok (Migrations.Conn x None))
            end
  end.
(** [conn.close()]: what was not committed is gone. *)
Definition close (p : string) (c : Migrations.conn tables) : io () := fun f =>
  (sqlite_commit p (Migrations.committed c) f, [], Ok ()).
(** A method of a store: a connection, a statement on the tables, the commit and the close. *)
Definition transact {A} (p : string) (g : stmt tables A) : io A :=
  c ← connect p;
  let x := Migrations.committed c in
  match g (Migrations.schema x) with
  | (y, Ok a) => _ ← close p (Migrations.Conn (Migrations.Db (Migrations.tracking x) y) None); mret a
  | (_, Err e) => _ ← close p c; raises (Sqlite e)
  end.
Definition on_db {A} (g : stmt Db.t A) : stmt tables A := fun t =>
  let '(d, r) := g (db t) in (Tables d (events t), r).
Definition on_audit (e : AuditLog.entry) : stmt tables () := fun t =>
  (Tables (db t) (fst (AuditLog.record e (events t))), Ok ()).

(** The migration files and SQLite's reading of them. *)
Context (statements : string → list Migrations.statement) (exec : string → tables → option tables).
Context (clock : string → string) (dir : Migrations.directory).

(** The body shared by [_cmd_migrate] and [_ensure_migrated]: the connection is closed on both ways out. *)
Definition migrated (p : string) : io (list string) :=
  c ← connect p;
  let '(c, r) := Migrations.apply_migrations statements exec clock dir c in
  _ ← close p c;
  match r with Ok vs => mret vs | Err e => raises (Migration_error e) end.
(** [_cmd_migrate] *)
Definition cmd_migrate (p : string) : io Z :=
  vs ← migrated p;
  _ ← print (Out (Json.JObj [("newly_applied", Json.JArr (map Json.JStr vs)); ("db_path", Json.JStr p)]));
  mret 0.
(** [_ensure_migrated] *)
Definition ensure_migrated (p : string) : io () := _ ← migrated p; mret ().

(** [_cmd_config] *)
Definition cmd_config (s : Config.Settings) : io Z := _ ← print (Out_settings s); mret 0.

(** ** [_cmd_keys] *)

Definition opt_json (o : option string) : Json.t := match o with Some x => Json.JStr x | None => Json.JNull end.
(** The random values and the clock readings of a [keys] command. *)
Record draws := Draws { rnd : string; uuid : string; now : string; now_audit : string }.

Definition keys_create (r : draws) (p : string) (label : option string) : io Z :=
  rt ← transact p (on_db (KeyStore.create (rnd r) (uuid r) (now r) label));
  let '(record, token) := rt in
  _ ← transact p (on_audit (AuditLog.Entry (now_audit r) "key.create" "cli" (Some (KeyStore.id record))
                              (Some (Json.JObj [("label", opt_json label)]))));
  _ ← print (Out (Json.JObj [("id", Json.JStr (KeyStore.id record)); ("prefix", Json.JStr (KeyStore.prefix record));
                             ("label", opt_json (KeyStore.label record)); ("token", Json.JStr token)]));
  _ ← print (Err_text "Save this token now; it will not be shown again.");
  mret 0.
(** One row of [keys list]. *)
Definition key_row (r : KeyStore.KeyRecord) : Json.t :=
  Json.JObj [("id", Json.JStr (KeyStore.id r)); ("prefix", Json.JStr (KeyStore.prefix r));
             ("label", opt_json (KeyStore.label r)); ("created_at", Json.JStr (KeyStore.created_at r));
             ("last_used_at", opt_json (KeyStore.last_used_at r)); ("revoked", Json.JBool (KeyStore.revoked r))].
Definition keys_list (p : string) : io Z :=
  rs ← transact p (on_db (query KeyStore.list_keys));
  _ ← print (Out (Json.JArr (map key_row rs)));
  mret 0.
Definition keys_revoke (r : draws) (p key_id : string) : io Z :=
  transact p (on_db (run (KeyStore.revoke key_id (now r)))) ≫= fun ok : bool =>
  _ ← (if ok then transact p (on_audit (AuditLog.Entry (now_audit r) "key.revoke" "cli" (Some key_id) None))
       else mret ());
  _ ← print (Out (Json.JObj [("revoked", Json.JBool ok); ("id", Json.JStr key_id)]));
  mret (if ok then 0 else 1).
(** [_cmd_keys], by its subcommand. *)
Inductive keys_args := Create (label : option string) | List_ | Revoke (key_id : string).
Definition cmd_keys (r : draws) (p : string) (a : keys_args) : io Z :=
  _ ← ensure_migrated p;
  match a with Create l => keys_create r p l | List_ => keys_list p | Revoke i => keys_revoke r p i end.
End Commands.

(** ** [_cmd_generate] *)

Section Generation.
(** The backend and its stream, as the command calls them on a state [W]; [anext] gives [None] at the end of the
    stream, and an interrupt of the command is an exception of the call it interrupts. *)
Context {W : Type}.
Record backend := Backend {
  load : W → W * result failure ();
  generate : GenerationRequest.t → W → W * result failure ();
  anext : W → W * result failure (option string);
  aclose : W → W * result failure ();
  stream_result : W → option (QueueGenerationStream.GenerationResult * QueueGenerationStream.GenerationTimings);
  unload : W → W * result failure ()
}.
Context (b : backend) (round1 : Q → Q).

(** [None] is a program that has not ended within its fuel. *)
Definition prog (A : Type) : Type := W → W * list output * option (result failure A).
#[export] Instance prog_ret : MRet prog := fun A a w => (w, [], Some (Ok a)).
#[export] Instance prog_bind : MBind prog := fun A B k c w =>
  match c w with
  | (w, o, Some (Ok a)) => let '(w, o', r) := k a w in (w, o ++ o', r)
  | (w, o, Some (Err e)) => (w, o, Some (Err e))
  | (w, o, None) => (w, o, None)
  end.
Definition call {A} (g : W → W * result failure A) : prog A := fun w => let '(w, r) := g w in (w, [], Some r).
Definition emit (o : output) : prog () := fun w => (w, [o], Some (Ok ())).
Definition throw {A} (e : failure) : prog A := fun w => (w, [], Some (Err e)).
(** [try: body finally: last]: an exception of [last] replaces the outcome. *)
Definition finally_ {A} (body : prog A) (last : prog ()) : prog A := fun w =>
  match body w with
  | (w, o, Some r) =>
      match last w with
      | (w, o', Some (Ok _)) => (w, o ++ o', Some r)
      | (w, o', Some (Err e)) => (w, o ++ o', Some (Err e))
      | (w, o', None) => (w, o ++ o', None)
      end
  | (w, o, None) => (w, o, None)
  end.

(** [async for chunk in stream] *)
Fixpoint chunks (fuel : nat) : prog () :=
  match fuel with
  | O => fun w => (w, [], None)
  | S n =>
      call (anext b) ≫= fun c : option string =>
      match c with
      | None => mret ()
      | Some t => _ ← emit (Out_text t); chunks n
      end
  end.
(** The request of the command line, with the defaults of the fields it does not set. *)
Definition request_of (prompt : string) (max_tokens : Z) (temperature : Q) : GenerationRequest.t :=
  GenerationRequest.Req (Some prompt) None "" (Some max_tokens) temperature (95 # 100) 40 None [] 0 1 0 0 0 5 (1 # 10) None None false.
Definition request (prompt : string) (max_tokens : Z) (temperature : Q) : prog GenerationRequest.t :=
  match GenerationRequest.validate (request_of prompt max_tokens temperature) with
  | Some r => mret r
  | None => throw Invalid_request
  end.
Definition newline : string := String "010"%char "".
(** What follows the stream: the newline and the summary. *)
Definition report : prog () := fun w =>
  match stream_result b w with
  | None => (w, [], Some (Err No_result))
  | Some (r, t) => (w, [Err_summary (QueueGenerationStream.finish_reason r) (QueueGenerationStream.r_prompt_tokens r)
                          (QueueGenerationStream.completion_tokens r)
                          (round1 (default 0%Q (QueueGenerationStream.ttft_ms t)))
                          (round1 (default 0%Q (QueueGenerationStream.total_ms t)))], Some (Ok ()))
  end.
Definition summary : prog () := _ ← emit (Out_text newline); report.
(** The body of the inner coroutine after [load]. *)
Definition stream_body (fuel : nat) (prompt : string) (max_tokens : Z) (temperature : Q) : prog () :=
  r ← request prompt max_tokens temperature;
  _ ← call (generate b r);
  _ ← finally_ (chunks fuel) (call (aclose b));
  summary.
Definition run_generate (fuel : nat) (prompt : string) (max_tokens : Z) (temperature : Q) : prog Z :=
  _ ← call (load b);
  _ ← finally_ (stream_body fuel prompt max_tokens temperature) (call (unload b));
  mret 0.
(** The outer [try]. *)
Definition caught (c : prog Z) : prog Z := fun w =>
  match c w with
  | (w, o, Some (Err (Backend_error m))) => (w, o ++ [Err_exn (Backend_error m)], Some (Ok 1))
  | x => x
  end.
(** [_cmd_generate]; [build] is what [build_backend(settings)] answers, before anything is loaded. *)
Definition cmd_generate (build : result Factory.failure Factory.choice) (fuel : nat) (prompt : string) (max_tokens : Z)
    (temperature : Q) : prog Z :=
  caught (match build with
          | Ok _ => run_generate fuel prompt max_tokens temperature
          | Err Factory.ModelLoadError => throw (Backend_error "no model configured")
          | Err Factory.KeyError => throw (Other_error "KeyError")
          end).
End Generation.
Arguments backend : clear implicits.

(** ** Options and settings *)

Section ParseProofs.
Context (int_of : string → option Z) (float_of : string → option Q) (path_of : string → string).

(** The value an option of a command was given. *)
Definition given_value (args : list argument) (key : string) (given : list (string * string)) : option value :=
  raw ← last_given key given;
  a ← find (fun a => bool_decide (dest a = key)) args;
  convert int_of float_of path_of (type_ a) raw.
Lemma stores_value args given ns ns' key : stores int_of float_of path_of args given ns = Some ns' →
  getattr key ns' = match last_given key given with Some _ => given_value args key given | None => getattr key ns end.
Proof.
  revert ns. induction given as [|[k raw] given IH]; intros ns; [by intros [= <-]|].
  cbn [stores]. destruct (store _ _ _ args (k, raw) ns) as [ns1|] eqn:S; [|done]. intros E. rewrite (IH ns1 E).
  unfold given_value. cbn [last_given]. destruct (last_given key given) as [r|]; [done|].
  unfold store in S. simpl in S. destruct (find _ args) as [a|] eqn:Fa; [|done].
  cbn [mbind option_bind] in S. destruct (convert _ _ _ (type_ a) raw) as [v|] eqn:Cv; [|done]. cbn [mbind option_bind] in S.
  destruct (in_choices a raw); [|done]. injection S as <-.
  apply find_ext_some in Fa as Hd. destruct Hd as [_ ->%bool_decide_eq_true].
  case_bool_decide as K; [subst k|]; unfold getattr.
  - by rewrite dict_get_set_eq, Fa.
  - by rewrite dict_get_set_ne.
Qed.
Lemma no_default c key : key ∈ override_keys → getattr key (defaults_of (build_parser c)) = None.
Proof. unfold override_keys. rewrite !elem_of_cons, elem_of_nil. intros Hk. destruct c; repeat destruct Hk as [->|Hk]; done. Qed.

(** The settings are built from the flags first (the last occurrence counts), then the environment, then the file; a setting
    with no flag of its own is never touched by the command line. *)
Theorem settings_precedence (w : Config.world (V:=value)) c given ns toml key :
  parse_args int_of float_of path_of c given = Some ns →
  Config.layered w (overrides ns) toml key =
  match (if bool_decide (key ∈ override_keys) then given_value (build_parser c) key given else None), Config.env_values w key with
  | Some v, _ => Some v
  | None, Some v => Some v
  | None, None => f ← toml; Config.toml_values w f key
  end.
Proof.
  unfold parse_args. destruct (stores _ _ _ _ given _) as [ns1|] eqn:S; [|done]. simpl.
  destruct (forallb _ _); [|done]. intros [= <-]. unfold Config.layered, overrides.
  case_bool_decide as Hk; [|done]. rewrite (stores_value _ _ _ _ key S), (no_default c key Hk).
  unfold given_value. by destruct (last_given key given).
Qed.
End ParseProofs.

(** ** The key commands *)

Section KeysProofs.
Context {F : Type} `{Durable F}.
Context (statements : string → list Migrations.statement) (exec : string → tables → option tables).
Context (clock : string → string) (dir : Migrations.directory).

(** The file at [p] was just committed by a connection, with contents [x]. *)
Definition holds (p : string) (x : database) (g : F) : Prop :=
  ∃ f f' y, mkdir (Disk.parent p) f = Ok f' ∧ sqlite_open p f' = Some y ∧ g = sqlite_commit p x f'.
Lemma holds_open p x g : holds p x g → sqlite_open p g = Some x.
Proof. intros (f & f' & y & _ & _ & ->). apply reads_committed. Qed.
Lemma connect_holds p x g : holds p x g →
  ∃ g', connect p g = (g', [], Ok (Migrations.Conn x None)) ∧ ∀ y, holds p y (sqlite_commit p y g').
Proof.
  intros (f & f' & y & Hm & Ho & ->). destruct (reopens p x y f f' Hm Ho) as (g' & E & O).
  exists g'. unfold connect. rewrite E, O. split; [done|]. intros z. by exists (sqlite_commit p x f'), g', x.
Qed.
Lemma transact_holds {A} p x g (c : stmt tables A) t r : holds p x g → c (Migrations.schema x) = (t, r) →
  ∃ g', transact p c g = (g', [], match r with Ok a => Ok a | Err e => Err (Sqlite e) end)
        ∧ holds p (match r with Ok _ => Migrations.Db (Migrations.tracking x) t | Err _ => x end) g'.
Proof.
  intros Hx E. destruct (connect_holds p x g Hx) as (g' & C & K).
  unfold transact, mbind, io_bind. rewrite C. simpl. rewrite E.
  destruct r as [a|e]; eexists; (split; [reflexivity|apply K]).
Qed.

(** A successful migration leaves a file that holds what it committed, and prints nothing. *)
Lemma ensure_holds p f g o : ensure_migrated statements exec clock dir p f = (g, o, Ok ()) →
  o = [] ∧ ∃ x, holds p x g.
Proof.
  unfold ensure_migrated, migrated, mbind, io_bind, connect.
  destruct (mkdir (Disk.parent p) f) as [f'|e] eqn:E; [|done].
  destruct (sqlite_open p f') as [y|] eqn:O; [|done].
  destruct (Migrations.apply_migrations _ _ _ _ _) as [c r]. simpl.
  destruct r as [vs|e]; [|done]. intros [= <- <-]. split; [done|].
  by exists (Migrations.committed c), f, f', y.
Qed.
Lemma ensure_reads p f g o x : ensure_migrated statements exec clock dir p f = (g, o, Ok ()) → sqlite_open p g = Some x →
  o = [] ∧ holds p x g.
Proof.
  intros (-> & y & Hy)%ensure_holds Hx. split; [done|]. apply holds_open in Hy as Ho. by simplify_eq.
Qed.

(** The one event a key command records. *)
Definition recorded (r : draws) (action i : string) (detail : option Json.t) (t : tables) : AuditLog.t :=
  fst (AuditLog.record (AuditLog.Entry (now_audit r) action "cli" (Some i) detail) (events t)).

(** [keys create] prints a token that the database it leaves verifies, as an operator key with the
    printed id, and the creation is on record with the label and nothing else. *)
Theorem keys_create_verifies r p l f g o x d rec tok :
  ensure_migrated statements exec clock dir p f = (g, o, Ok ()) →
  sqlite_open p g = Some x →
  KeyStore.create (rnd r) (uuid r) (now r) l (db (Migrations.schema x)) = (d, Ok (rec, tok)) →
  ∃ g' t, cmd_keys statements exec clock dir r p (Create l) f =
    (g', [Out (Json.JObj [("id", Json.JStr (uuid r)); ("prefix", Json.JStr (KeyStore.prefix rec)); ("label", opt_json l);
                          ("token", Json.JStr tok)]);
          Err_text "Save this token now; it will not be shown again."], Ok 0) ∧
    sqlite_open p g' = Some (Migrations.Db (Migrations.tracking x) t) ∧
    events t = recorded r "key.create" (uuid r) (Some (Json.JObj [("label", opt_json l)])) (Migrations.schema x) ∧
    (∀ n, snd (KeyStore.verify tok n (db t)) = Some rec) ∧ KeyStore.role rec = KeyStore.ROLE_OPERATOR.
Proof.
  intros He Hx Hc. destruct (ensure_reads p f g o x He Hx) as [-> Hh].
  assert (KeyStore.id rec = uuid r ∧ KeyStore.label rec = l) as [Hi Hl].
  { revert Hc. unfold KeyStore.create. destruct (existsb _ _); [done|]. by intros [= _ <- _]. }
  destruct (transact_holds p x g (on_db (KeyStore.create (rnd r) (uuid r) (now r) l)) (Tables d (events (Migrations.schema x))) (Ok (rec, tok)))
    as (g1 & T1 & H1); [done|unfold on_db; by rewrite Hc|].
  destruct (transact_holds p _ g1 (on_audit (AuditLog.Entry (now_audit r) "key.create" "cli" (Some (uuid r)) (Some (Json.JObj [("label", opt_json l)]))))
    _ (Ok ()) H1 eq_refl) as (g2 & T2 & H2).
  exists g2, (Tables d (recorded r "key.create" (uuid r) (Some (Json.JObj [("label", opt_json l)])) (Migrations.schema x))).
  split; [|split; [by apply holds_open in H2|split; [done|]]].
  - unfold cmd_keys, mbind, io_bind at 1. rewrite He. unfold keys_create, mbind, io_bind. rewrite T1, Hi, T2, Hl. done.
  - destruct (Lifecycle.create_verify_roundtrip _ _ _ _ _ _ _ _ "" Hc) as [[_ R] _]. split; [|done].
    intros n. by destruct (Lifecycle.create_verify_roundtrip _ _ _ _ _ _ _ _ n Hc) as [[V _] _].
Qed.

Lemma revoke_count i n d : snd (KeyStore.revoke i n d) = existsb (KeyStore.live_with_id i) (Db.api_keys d).
Proof.
  simpl. destruct (existsb _ _) eqn:E.
  - apply existsb_exists in E as (k & Hk & Hl). apply Nat.ltb_lt. destruct (Sql.rowcount _ _) eqn:Z; [|lia].
    exfalso. rewrite Sql.rowcount_zero in Z. apply list_elem_of_In in Hk. by rewrite (Z k Hk) in Hl.
  - apply Nat.ltb_ge. enough (Sql.rowcount (KeyStore.live_with_id i) (Db.api_keys d) = 0%nat) by lia.
    apply Sql.rowcount_zero. intros k Hk. exact (Sql.existsb_false_elem _ _ _ E Hk).
Qed.
Lemma revoke_nothing i n d : existsb (KeyStore.live_with_id i) (Db.api_keys d) = false → fst (KeyStore.revoke i n d) = d.
Proof.
  intros E. simpl. replace (Sql.update _ _ _) with (Db.api_keys d); [by destruct d|].
  unfold Sql.update. transitivity (map (fun k => k) (Db.api_keys d)); [by rewrite map_id|]. apply map_ext_in. intros k Hk.
  apply list_elem_of_In in Hk. by rewrite (Sql.existsb_false_elem _ _ _ E Hk).
Qed.

(** [keys revoke] exits with 0 exactly when a live key has that id, and the revocation is then on record; either way no
    token verifies as that key in the database it leaves.  When it exits with 1 the tables and the log are as they were. *)
Theorem keys_revoke_exact r p i f g o x :
  ensure_migrated statements exec clock dir p f = (g, o, Ok ()) →
  sqlite_open p g = Some x →
  let live := existsb (KeyStore.live_with_id i) (Db.api_keys (db (Migrations.schema x))) in
  ∃ g' t, cmd_keys statements exec clock dir r p (Revoke i) f =
    (g', [Out (Json.JObj [("revoked", Json.JBool live); ("id", Json.JStr i)])], Ok (if live then 0 else 1)) ∧
    sqlite_open p g' = Some (Migrations.Db (Migrations.tracking x) t) ∧
    (∀ tok n k, snd (KeyStore.verify tok n (db t)) = Some k → KeyStore.id k ≠ i) ∧
    if live then events t = recorded r "key.revoke" i None (Migrations.schema x) else t = Migrations.schema x.
Proof.
  intros He Hx live. destruct (ensure_reads p f g o x He Hx) as [-> Hh].
  set (d := db (Migrations.schema x)) in *.
  destruct (transact_holds p x g (on_db (run (KeyStore.revoke i (now r)))) (Tables (fst (KeyStore.revoke i (now r) d)) (events (Migrations.schema x))) (Ok live))
    as (g1 & T1 & H1); [done|unfold live; by rewrite <- (revoke_count i (now r))|].
  assert (∀ tok n k, snd (KeyStore.verify tok n (fst (KeyStore.revoke i (now r) d))) = Some k → KeyStore.id k ≠ i) as Hv.
  { intros tok n k. apply Lifecycle.dead_verify, Lifecycle.revoke_dead. }
  destruct live eqn:L.
  - destruct (transact_holds p _ g1 (on_audit (AuditLog.Entry (now_audit r) "key.revoke" "cli" (Some i) None)) _ (Ok ()) H1 eq_refl)
      as (g2 & T2 & H2).
    exists g2, (Tables (fst (KeyStore.revoke i (now r) d)) (recorded r "key.revoke" i None (Migrations.schema x))).
    split; [|split; [by apply holds_open in H2|done]].
    unfold cmd_keys, mbind, io_bind at 1. rewrite He. unfold keys_revoke, mbind, io_bind. by rewrite T1, T2.
  - rewrite (revoke_nothing i (now r) d L) in *. exists g1, (Migrations.schema x).
    split; [|split; [apply holds_open in H1; by destruct (Migrations.schema x)|done]].
    unfold cmd_keys, mbind, io_bind at 1. rewrite He. unfold keys_revoke, mbind, io_bind. by rewrite T1.
Qed.

Definition created_leb (a b : KeyStore.KeyRecord) : bool := str_leb (KeyStore.created_at a) (KeyStore.created_at b).
Lemma list_keys_records d : KeyStore.list_keys d = Sql.order_by created_leb (map KeyStore.row_to_record (Db.api_keys d)).
Proof. unfold KeyStore.list_keys. by rewrite (Sql.order_by_map _ (fun a b => str_leb (Db.created_at a) (Db.created_at b))). Qed.

(** [keys list] prints the records of the keys, oldest first, and changes nothing: no hash, and so no token, has a part in
    its output. *)
Theorem keys_list_records r p f g o x :
  ensure_migrated statements exec clock dir p f = (g, o, Ok ()) → sqlite_open p g = Some x →
  ∃ g', cmd_keys statements exec clock dir r p List_ f =
    (g', [Out (Json.JArr (map key_row (Sql.order_by created_leb (map KeyStore.row_to_record (Db.api_keys (db (Migrations.schema x)))))))], Ok 0) ∧
    sqlite_open p g' = Some x.
Proof.
  intros He Hx. destruct (ensure_reads p f g o x He Hx) as [-> Hh].
  destruct (transact_holds p x g (on_db (query KeyStore.list_keys)) (Migrations.schema x) (Ok (KeyStore.list_keys (db (Migrations.schema x)))))
    as (g1 & T1 & H1); [done|by destruct (Migrations.schema x)|].
  exists g1. split; [|apply holds_open in H1; by destruct x].
  unfold cmd_keys, mbind, io_bind at 1. rewrite He. unfold keys_list, mbind, io_bind. by rewrite T1, list_keys_records.
Qed.
End KeysProofs.

(** ** The generate command *)

Section GenerationProofs.
Context {W : Type} (b : backend W) (round1 : Q → Q).
#[local] Abbreviation program := (prog (W:=W)).

(** The chunks a stream gives from [w] on, and how it ends. *)
Inductive streams : W → list string → W → result failure () → Prop :=
| streams_end w w' : anext b w = (w', Ok None) → streams w [] w' (Ok ())
| streams_fails w w' e : anext b w = (w', Err e) → streams w [] w' (Err e)
| streams_chunk w w1 t ts w' r : anext b w = (w1, Ok (Some t)) → streams w1 ts w' r → streams w (t :: ts) w' r.

Lemma chunks_streams w ts w' r n : streams w ts w' r → (length ts < n)%nat → chunks b n w = (w', map Out_text ts, Some r).
Proof.
  intros Hs. revert n. induction Hs as [w w' E|w w' e E|w w1 t ts w' r E Hs IH]; intros [|n] Hn; simpl in Hn; try lia;
    cbn [chunks]; unfold mbind, prog_bind, call at 1; rewrite E; try reflexivity.
  unfold emit. rewrite (IH n) by lia. reflexivity.
Qed.

(** A finally clause runs whatever the body did, unless the body is still running. *)
Lemma finally_runs {A} (body : program A) (last : program ()) w w' o r : finally_ body last w = (w', o, Some r) →
  ∃ w1 o1 r1 o2 r2, body w = (w1, o1, Some r1) ∧ last w1 = (w', o2, Some r2) ∧ o = o1 ++ o2
    ∧ r = match r2 with Ok _ => r1 | Err e => Err e end.
Proof.
  unfold finally_. destruct (body w) as [[w1 o1] [r1|]]; [|done].
  destruct (last w1) as [[w2 o2] [[[]|e]|]] eqn:L; [intros [= <- <- <-]|intros [= <- <- <-]|done]; by repeat econstructor.
Qed.
Lemma caught_world (c : program Z) w w' o r : caught c w = (w', o, Some r) → ∃ o' r', c w = (w', o', Some r').
Proof.
  unfold caught. destruct (c w) as [[w1 o1] [[n|e]|]]; [intros [= <- <- <-]|destruct e; intros [= <- <- <-]|done]; eauto.
Qed.
Lemma bind_ends {A B} (c : program A) (k : A → program B) w w' o r : (c ≫= k) w = (w', o, Some r) →
  (∃ e, c w = (w', o, Some (Err e)) ∧ r = Err e) ∨
  ∃ w1 o1 a o2, c w = (w1, o1, Some (Ok a)) ∧ k a w1 = (w', o2, Some r) ∧ o = o1 ++ o2.
Proof.
  unfold mbind, prog_bind. destruct (c w) as [[w1 o1] [[a|e]|]]; [|intros [= <- <- <-]; left; eauto|done].
  destruct (k a w1) as [[w2 o2] r2] eqn:E. intros [= <- <- ->]. right. by repeat econstructor.
Qed.

Lemma summary_world w w' o r : summary b round1 w = (w', o, Some r) → w' = w.
Proof.
  unfold summary, report, mbind, prog_bind, emit. destruct (stream_result b w) as [[x t]|]; by intros [= <- _ _].
Qed.
Lemma stream_closed (closed : W → Prop) n w w' o r : (∀ w, closed (fst (aclose b w))) →
  (_ ← finally_ (chunks b n) (call (aclose b)); summary b round1) w = (w', o, Some r) → closed w'.
Proof.
  intros Ha E.
  assert (∃ o r, finally_ (chunks b n) (call (aclose b)) w = (w', o, Some r)) as (o1 & r1 & F).
  { apply bind_ends in E as [(e & E & _)|(w1 & o1 & a & o2 & E & S & _)]; [eauto|].
    apply summary_world in S as ->. eauto. }
  apply finally_runs in F as (w1 & o2 & r2 & o3 & r3 & _ & L & _). unfold call in L.
  destruct (aclose b w1) as [w2 r4] eqn:A. injection L as <- _ _. specialize (Ha w1). by rewrite A in Ha.
Qed.

(** However the generate command ends, a backend it loaded has been unloaded, and a stream it obtained was closed before. *)
Theorem generate_releases (closed unloaded : W → Prop) c n prompt max_tokens temperature w w1 w' o r :
  (∀ w, closed (fst (aclose b w))) →
  (∀ w, unloaded (fst (unload b w))) →
  (∀ w, closed w → closed (fst (unload b w))) →
  load b w = (w1, Ok ()) →
  cmd_generate b round1 (Ok c) n prompt max_tokens temperature w = (w', o, Some r) →
  unloaded w' ∧
  (∀ q w2, GenerationRequest.validate (request_of prompt max_tokens temperature) = Some q → generate b q w1 = (w2, Ok ()) →
     closed w').
Proof.
  intros Ha Hu Hk Hl (o1 & r1 & E)%caught_world. unfold run_generate in E.
  apply bind_ends in E as [(e & E & _)|(w0 & o2 & [] & o3 & E & E' & _)]; [unfold call in E; by rewrite Hl in E|].
  unfold call in E. rewrite Hl in E. injection E as <- <-.
  assert (∃ o r, finally_ (stream_body b round1 n prompt max_tokens temperature) (call (unload b)) w1 = (w', o, Some r)) as (o4 & r4 & F).
  { apply bind_ends in E' as [(e & F & _)|(w3 & o4 & a & o5 & F & [= <- _ _] & _)]; eauto. }
  apply finally_runs in F as (w3 & o5 & r5 & o6 & r6 & B & L & _). unfold call in L.
  assert (w' = fst (unload b w3)) as -> by (destruct (unload b w3); by injection L).
  split; [apply Hu|]. intros q w2 V G. apply Hk. unfold stream_body, request in B. rewrite V in B.
  apply bind_ends in B as [(e & B & _)|(w4 & o7 & a & o8 & [= <- _ <-] & B & _)]; [done|].
  apply bind_ends in B as [(e & B & _)|(w4 & o9 & a & o10 & B' & B & _)]; [unfold call in B; by rewrite G in B|].
  unfold call in B'. rewrite G in B'. injection B' as <- <-.
  exact (stream_closed closed _ _ _ _ _ Ha B).
Qed.

(** The outcome of the command when its clean-up calls return: the exit code, and what it prints after the chunks. *)
Definition outcome (ended : result failure ())
    (done : option (QueueGenerationStream.GenerationResult * QueueGenerationStream.GenerationTimings)) : list output * result failure Z :=
  match ended with
  | Err (Backend_error m) => ([Err_exn (Backend_error m)], Ok 1)
  | Err e => ([], Err e)
  | Ok _ => match done with
            | None => ([Out_text newline], Err No_result)
            | Some (x, t) =>
                ([Out_text newline;
                  Err_summary (QueueGenerationStream.finish_reason x) (QueueGenerationStream.r_prompt_tokens x)
                    (QueueGenerationStream.completion_tokens x)
                    (round1 (default 0%Q (QueueGenerationStream.ttft_ms t)))
                    (round1 (default 0%Q (QueueGenerationStream.total_ms t)))], Ok 0)
            end
  end.
(** The generate command ends as soon as its stream does, and prints exactly the stream's chunks in order, then its outcome: a
    [BackendError] gives exit code 1, every other exception leaves the command. *)
Theorem generate_prints c n prompt max_tokens temperature q w w1 w2 ts w3 e w4 w5 :
  GenerationRequest.validate (request_of prompt max_tokens temperature) = Some q →
  load b w = (w1, Ok ()) → generate b q w1 = (w2, Ok ()) → streams w2 ts w3 e → (length ts < n)%nat →
  aclose b w3 = (w4, Ok ()) → unload b w4 = (w5, Ok ()) →
  let x := outcome e (stream_result b w4) in
  cmd_generate b round1 (Ok c) n prompt max_tokens temperature w = (w5, map Out_text ts ++ fst x, Some (snd x)).
Proof.
  intros V L G S N A U x.
  assert (finally_ (chunks b n) (call (aclose b)) w2 = (w4, map Out_text ts, Some e)) as F.
  { unfold finally_, call. by rewrite (chunks_streams _ _ _ _ _ S N), A, app_nil_r. }
  unfold cmd_generate, caught, run_generate, mbind, prog_bind, call at 1. rewrite L. simpl.
  unfold finally_ at 1. unfold stream_body, request, mbind, prog_bind. rewrite V. unfold mret, prog_ret, call at 1. rewrite G, F.
  unfold x, outcome. destruct e as [[]|e].
  - unfold summary, report, mbind, prog_bind, emit, call. destruct (stream_result b w4) as [[y t]|]; rewrite U; simpl; by rewrite ?app_nil_r.
  - unfold call. rewrite U. simpl. destruct e; by rewrite ?app_nil_r.
Qed.
End GenerationProofs.

(** ** The file system of [Backup] with SQLite's files on it *)

Section OnDisk.
(** SQLite's file format. *)
Context (encode_db : database → Disk.bytes) (decode_db : Disk.bytes → option database) (fresh : tables).

Definition disk_open (p : string) (d : Disk.t) : option database :=
  match Disk.files d !! p with
  | Some (Disk.Raw b) => decode_db b
  | Some (Disk.Tar_gz _) => None
  | None => if Disk.is_dir p d then None else Some (Migrations.Db None fresh)
  end.
Definition disk_commit (p : string) (x : database) (d : Disk.t) : Disk.t :=
  Disk.Mk (<[p := Disk.Raw (encode_db x)]> (Disk.files d)) (Disk.dirs d).
#[local] Instance disk_files : FileSystem Disk.t :=
  {| mkdir := Disk.mkdir; sqlite_open := disk_open; sqlite_commit := disk_commit |}.

Lemma mkdir_facts q (d d' : Disk.t) : Disk.mkdir q d = Ok d' →
  Disk.files d' = Disk.files d ∧ (∀ a, a ∈ q :: Disk.ancestors q → Disk.files d !! a = None ∧ a ∈ Disk.dirs d').
Proof.
  unfold Disk.mkdir. destruct (existsb _ _) eqn:E; [done|]. destruct (Disk.is_file q d) eqn:E2; [done|].
  intros [= <-]. split; [done|]. intros a Ha. split; [|simpl; set_solver].
  assert (Disk.is_file a d = false) as N.
  { apply elem_of_cons in Ha as [->|Ha]; [done|]. destruct (Disk.is_file a d) eqn:N; [|done].
    enough (true = false) by done. rewrite <- E. symmetry. apply existsb_exists.
    exists a. split; [by apply list_elem_of_In|done]. }
  unfold Disk.is_file in N. apply bool_decide_eq_false in N. by apply eq_None_not_Some.
Qed.
(** Making directories succeeds when no file is at the path or above it. *)
Lemma mkdir_free q (d : Disk.t) : (∀ a, a ∈ q :: Disk.ancestors q → Disk.files d !! a = None) →
  is_ok (Disk.mkdir q d) = true.
Proof.
  intros N. unfold Disk.mkdir.
  destruct (existsb _ _) eqn:E.
  { apply existsb_exists in E as (a & Ha & E). apply list_elem_of_In in Ha.
    unfold Disk.is_file in E. apply bool_decide_eq_true in E. rewrite N in E by set_solver. by destruct E. }
  unfold Disk.is_file. rewrite N by set_solver. by rewrite bool_decide_false by (by intros [? ?]).
Qed.

(** The commands' view of the disk is durable as soon as SQLite reads back what it wrote. *)
Lemma disk_durable : (∀ x, decode_db (encode_db x) = Some x) → Durable Disk.t.
Proof.
  intros Hc. split; simpl.
  - intros p x f. unfold disk_open, disk_commit. simpl. rewrite lookup_insert_eq. apply Hc.
  - intros p x y f f' E O. apply mkdir_facts in E as [Ef Ed].
    destruct (Disk.mkdir (Disk.parent p) (disk_commit p x f')) as [f2|e] eqn:E2.
    + exists f2. split; [done|]. apply mkdir_facts in E2 as [E2 _]. unfold disk_open.
      rewrite E2. simpl. rewrite lookup_insert_eq. apply Hc.
    + exfalso. enough (is_ok (Disk.mkdir (Disk.parent p) (disk_commit p x f')) = true) by (by rewrite E2 in *).
      apply mkdir_free. intros a Ha. simpl. destruct (Ed a Ha) as [Na Da].
      rewrite lookup_insert_ne; [by rewrite Ef|]. intros ->. revert O. unfold disk_open. rewrite Ef, Na.
      unfold Disk.is_dir. by rewrite bool_decide_true.
Qed.

(** ** [main] *)

(** What the commands get from outside: the configuration's sources, the migration files, the archive and JSON codecs, the
    clocks and random values, the server and the backends. *)
Record outside (W : Type) := Outside {
  int_of : string → option Z; float_of : string → option Q; path_of : string → string;
  world : Config.world (V:=value);
  construct : (string → option value) → result Config.config_error Config.Settings;
  statements : string → list Migrations.statement; exec_sql : string → tables → option tables;
  clock : string → string; migrations_dir : Migrations.directory;
  encode_tar : list Disk.member → Disk.bytes;
  consistent_copy : string → Disk.t → option Disk.bytes;
  json_dump : Json.t → Disk.bytes; json_loads : Disk.bytes → option Json.t;
  engine_version : string; build_sha : option string; build_date : option string;
  the_draws : draws; ts : string; created_at : string;
  uvicorn_run : string → Z → result failure ();
  the_backend : backend W; start : Factory.choice → W; round1_ : Q → Q; fuel : nat
}.
#[global] Arguments int_of {W}.
#[global] Arguments float_of {W}.
#[global] Arguments path_of {W}.
#[global] Arguments world {W}.
#[global] Arguments construct {W}.
#[global] Arguments statements {W}.
#[global] Arguments exec_sql {W}.
#[global] Arguments clock {W}.
#[global] Arguments migrations_dir {W}.
#[global] Arguments encode_tar {W}.
#[global] Arguments consistent_copy {W}.
#[global] Arguments json_dump {W}.
#[global] Arguments json_loads {W}.
#[global] Arguments engine_version {W}.
#[global] Arguments build_sha {W}.
#[global] Arguments build_date {W}.
#[global] Arguments the_draws {W}.
#[global] Arguments ts {W}.
#[global] Arguments created_at {W}.
#[global] Arguments uvicorn_run {W}.
#[global] Arguments the_backend {W}.
#[global] Arguments start {W}.
#[global] Arguments round1_ {W}.
#[global] Arguments fuel {W}.

(** A command on the disk. *)
Definition on_disk : Type := io (F:=Disk.t) Z.
Definition str_of (v : option value) : option string := match v with Some (VStr x) => Some x | _ => None end.
Definition int_value (v : option value) : option Z := match v with Some (VInt z) => Some z | _ => None end.
Definition float_value (v : option value) : option Q := match v with Some (VFloat q) => Some q | _ => None end.
Definition with_path (s : Config.Settings) (k : string → on_disk) : on_disk :=
  match Config.db_path s with Some p => k p | None => raises No_db_path end.
Definition backup_settings (s : Config.Settings) (p : string) : Backup.Settings := Backup.Settings_ p (Config.config_file s).
Definition factory_settings (s : Config.Settings) : Factory.settings :=
  Factory.Settings (Config.kind_str (Config.backend_kind s)) (Config.model_path s) (Config.allow_remote_backends s)
    (Config.remote_base_url s) (Config.remote_model s).

Section Main.
Context {W : Type} (x : outside W).

(** [build_info] *)
Definition build_info : Json.t :=
  let known o := match o with Some v => if str_true v then Json.JStr v else Json.JNull | None => Json.JNull end in
  Json.JObj [("version", Json.JStr (engine_version x)); ("commit", known (build_sha x)); ("built_at", known (build_date x))].
(** [_cmd_serve]: [create_app] with no backend given, then the server until it returns. *)
Definition cmd_serve (s : Config.Settings) : on_disk :=
  match Startup.create_pool s None with
  | Err e => raises (Config_error e)
  | Ok _ => fun f => (f, [], match uvicorn_run x (Config.host s) (Config.port s) with Ok _ => Ok 0 | Err e => Err e end)
  end.
(** [_cmd_backup] and [_cmd_restore] with what they print. *)
Definition print_backup (s : Config.Settings) (out : string) : on_disk := with_path s (fun p f =>
  let st := backup_settings s p in
  let made := snd (Backup.create_backup (encode_tar x) (consistent_copy x) (json_dump x) (engine_version x) st out (ts x) (created_at x) f) in
  let '(f, r) := Backup.cmd_backup (encode_tar x) (consistent_copy x) (json_dump x) (engine_version x) st out (ts x) (created_at x) f in
  (f, match made with
      | Ok a => [Out (Json.JObj [("archive", Json.JStr a)])]
      | Err Disk.FileNotFound => [Err_exn (Files Disk.FileNotFound)]
      | Err _ => []
      end,
   match r with Ok n => Ok n | Err e => Err (Files e) end)).
Definition print_restore (s : Config.Settings) (archive : string) (force : bool) : on_disk := with_path s (fun p f =>
  let st := backup_settings s p in
  let made := snd (Backup.restore_backup (json_loads x) archive st force None f) in
  let '(f, r) := Backup.cmd_restore (json_loads x) st archive force f in
  (f, match made, r with
      | Ok m, Ok _ => [Out (Json.JObj [("db_path", Json.JStr (Backup.r_db_path m)); ("config_path", opt_json (Backup.r_config_path m));
                                       ("engine_version", default Json.JNull (default None (Json.get "engine_version" (Backup.r_manifest m))))])]
      | Err e, Ok _ => [Err_exn (Files e)]
      | _, Err _ => []
      end,
   match r with Ok n => Ok n | Err e => Err (Files e) end)).

(** The end of the command: its exit code, an exception, or [None] when it has not ended within the fuel. *)
Definition ended (c : on_disk) (f : Disk.t) : Disk.t * list output * option (result failure Z) :=
  let '(f, o, r) := c f in (f, o, Some r).
Definition keys (s : Config.Settings) (a : keys_args) : on_disk :=
  with_path s (fun p => cmd_keys (statements x) (exec_sql x) (clock x) (migrations_dir x) (the_draws x) p a).
Definition generation (s : Config.Settings) (ns : namespace) : list output * option (result failure Z) :=
  let build := Factory.build_backend (factory_settings s) in
  let w := match build with Ok c => start x c | Err _ => start x (Factory.Local "") end in
  let '(_, o, r) := cmd_generate (the_backend x) (round1_ x) build (fuel x)
                      (default "" (str_of (getattr "prompt" ns))) (default 256 (int_value (getattr "max_tokens" ns)))
                      (default (8 # 10)%Q (float_value (getattr "temperature" ns))) w in (o, r).
Definition dispatch (c : command) (s : Config.Settings) (ns : namespace) (f : Disk.t) :
    Disk.t * list output * option (result failure Z) :=
  match c with
  | Serve => ended (cmd_serve s) f
  | Migrate => ended (with_path s (cmd_migrate (statements x) (exec_sql x) (clock x) (migrations_dir x))) f
  | ConfigC => ended (cmd_config s) f
  | BackupC => ended (print_backup s (default "." (path_value (getattr "out" ns)))) f
  | Restore => ended (print_restore s (default "" (path_value (getattr "archive" ns))) (bool_decide (is_Some (getattr "force" ns)))) f
  | Generate => let '(o, r) := generation s ns in (f, o, r)
  | KeysCreate => ended (keys s (Create (str_of (getattr "label" ns)))) f
  | KeysList => ended (keys s List_) f
  | KeysRevoke => ended (keys s (Revoke (default "" (str_of (getattr "key_id" ns))))) f
  | Version => (f, [], Some (Ok 2))
  end.
(** [main], from the occurrences of the options in [argv]. *)
Definition main (c : command) (given : list (string * string)) (f : Disk.t) : Disk.t * list output * option (result failure Z) :=
  match parse_args (int_of x) (float_of x) (path_of x) c given with
  | None => (f, [Err_text "usage"], Some (Ok 2))
  | Some ns =>
      if bool_decide (c = Version) then (f, [Out build_info], Some (Ok 0))
      else match settings_from_args (construct x) (world x) ns with
           | Err e => (f, [Err_exn (Config_error e)], Some (Ok 2))
           | Ok s => dispatch c s ns f
           end
  end.

(** *** Exit codes *)

(** The exit codes of a command that got its settings. *)
Definition codes (c : on_disk) : Prop := ∀ f f' o n, c f = (f', o, Ok n) → n = 0 ∨ n = 1.
Lemma codes_ret n : n = 0 ∨ n = 1 → codes (mret n).
Proof. by intros Hn f f' o m [= _ _ <-]. Qed.
Lemma codes_raises e : codes (raises e).
Proof. by intros f f' o n [=]. Qed.
Lemma codes_bind {A} (c : io (F:=Disk.t) A) (k : A → on_disk) : (∀ a, codes (k a)) → codes (c ≫= k).
Proof.
  intros Hk f f' o n. unfold mbind, io_bind. destruct (c f) as [[f1 o1] [a|e]]; [|done].
  destruct (k a f1) as [[f2 o2] r] eqn:E. intros [= <- _ ->]. exact (Hk a _ _ _ _ E).
Qed.
Lemma codes_with_path s k : (∀ p, codes (k p)) → codes (with_path s k).
Proof. intros Hk. unfold with_path. destruct (Config.db_path s); [apply Hk|apply codes_raises]. Qed.
Lemma codes_keys s a : codes (keys s a).
Proof.
  apply codes_with_path. intros p. apply codes_bind. intros [].
  destruct a as [l| |i]; [|by apply codes_bind; intros; apply codes_bind; intros; apply codes_ret; left|].
  - apply codes_bind. intros [record token]. do 3 (apply codes_bind; intros). apply codes_ret. by left.
  - apply codes_bind. intros live. do 2 (apply codes_bind; intros). apply codes_ret. destruct live; auto.
Qed.
Lemma codes_serve s : codes (cmd_serve s).
Proof.
  unfold cmd_serve. destruct (Startup.create_pool s None) as [y|e]; [|apply codes_raises].
  intros f f' o n. destruct (uvicorn_run x _ _); [intros [= _ _ <-]; by left|done].
Qed.
Lemma codes_backup s out : codes (print_backup s out).
Proof.
  apply codes_with_path. intros p f f' o n. unfold Backup.cmd_backup. destruct (Backup.create_backup _ _ _ _ _ _ _ _ f) as [f1 [a|e]].
  - intros [= _ _ <-]. by left.
  - destruct e; try (by intros [=]). intros [= _ _ <-]. by right.
Qed.
Lemma codes_restore s a b : codes (print_restore s a b).
Proof.
  apply codes_with_path. intros p f f' o n. unfold Backup.cmd_restore. destruct (Backup.restore_backup _ _ _ _ _ f) as [f1 [m|e]].
  - destruct (Json.get _ _); intros [= _ _ <-]. by left.
  - destruct e; try (by intros [=]); intros [= _ _ <-]; by right.
Qed.
Lemma codes_generation s ns o n : generation s ns = (o, Some (Ok n)) → n = 0 ∨ n = 1.
Proof.
  unfold generation. destruct (cmd_generate _ _ _ _ _ _ _ _) as [[w' o'] r] eqn:E. intros [= _ ->]. revert E.
  unfold cmd_generate. destruct (Factory.build_backend _) as [c|[]].
  - unfold caught. destruct (run_generate _ _ _ _ _ _ _) as [[w1 o1] [[m|e]|]] eqn:E; [|destruct e; intros [= _ _ <-]; by right|done].
    intros [= _ _ <-]. unfold run_generate in E. apply bind_ends in E as [(e & _ & [=])|(w2 & o2 & a & o3 & _ & E & _)].
    apply bind_ends in E as [(e & _ & [=])|(w3 & o4 & a' & o5 & _ & [= _ _ <-] & _)]. by left.
  - intros [= _ _ <-]. by right.
  - by intros [=].
Qed.
Lemma ended_codes c f f' o n : codes c → ended c f = (f', o, Some (Ok n)) → n = 0 ∨ n = 1.
Proof. intros Hc. unfold ended. destruct (c f) as [[f1 o1] r] eqn:E. intros [= <- <- ->]. exact (Hc _ _ _ _ E). Qed.
Lemma dispatch_codes c s ns f f' o n : c ≠ Version → dispatch c s ns f = (f', o, Some (Ok n)) → n = 0 ∨ n = 1.
Proof.
  intros Hc. unfold dispatch. destruct c; try done; try (apply ended_codes);
    eauto using codes_serve, codes_backup, codes_restore, codes_keys.
  - apply codes_with_path. intros p. do 2 (apply codes_bind; intros). apply codes_ret. by left.
  - apply codes_bind. intros. apply codes_ret. by left.
  - destruct (generation s ns) as [o1 r] eqn:E. intros [= _ _ ->]. exact (codes_generation _ _ _ _ E).
Qed.

(** A command line or a configuration that is refused. *)
Definition refused (c : command) (given : list (string * string)) : Prop :=
  match parse_args (int_of x) (float_of x) (path_of x) c given with
  | None => True
  | Some ns => c ≠ Version ∧ ∃ e, settings_from_args (construct x) (world x) ns = Err e
  end.
(** The exit code of the program is 0, 1 or 2, and it is 2 exactly for a command line or a configuration that is refused; then
    nothing was written and nothing was printed on the standard output. *)
Theorem main_exit_codes c given f f' o n : main c given f = (f', o, Some (Ok n)) →
  (n = 0 ∨ n = 1 ∨ n = 2) ∧ (n = 2 ↔ refused c given) ∧
  (n = 2 → f' = f ∧ Forall (fun y => match y with Err_text _ | Err_exn _ => True | _ => False end) o).
Proof.
  unfold main, refused. destruct (parse_args _ _ _ c given) as [ns|]; [|intros [= <- <- <-]; split; [auto|]; split; [done|]; by repeat constructor].
  case_bool_decide as Hv; [intros [= <- <- <-]; split; [auto|]; split; [split; [done|by intros [N _]]|done]|].
  destruct (settings_from_args _ _ ns) as [s|e].
  - intros D. apply dispatch_codes in D as Hn; [|done]. split; [tauto|]. split; [|lia].
    split; [lia|]. by intros (_ & e & ?).
  - intros [= <- <- <-]. split; [auto|]. split; [split; eauto|]. intros _. split; [done|]. by repeat constructor.
Qed.

(** An argument the request model refuses is no [BackendError]: the command ends in a traceback, after the model was loaded and
    unloaded. *)
Theorem generate_invalid_escapes (b : backend W) round1 c n w w1 w2 prompt max_tokens temperature :
  GenerationRequest.validate (request_of prompt max_tokens temperature) = None →
  load b w = (w1, Ok ()) → unload b w1 = (w2, Ok ()) →
  cmd_generate b round1 (Ok c) n prompt max_tokens temperature w = (w2, [], Some (Err Invalid_request)).
Proof.
  intros V L U. unfold cmd_generate, caught, run_generate, mbind, prog_bind, call at 1. rewrite L.
  unfold finally_, stream_body, request, mbind, prog_bind. rewrite V. unfold throw, call. by rewrite U.
Qed.
End Main.
End OnDisk.

(** ** Examples *)

Module Demo.
(** Databases by path; every directory can be made. *)
Abbreviation files := (gmap string database).
Definition empty_tables : tables := Tables Lifecycle.demo_db AuditLog.empty.
#[export] Instance map_files : FileSystem files := {|
  mkdir := fun _ f => Ok f;
  sqlite_open := fun p f => Some (default (Migrations.Db None empty_tables) (f !! p));
  sqlite_commit := fun p x f => <[p := x]> f
|}.
#[export] Instance map_durable : Durable files.
Proof.
  split; simpl.
  - intros p x f. by rewrite lookup_insert_eq.
  - intros p x y f f' [= ->] _. eexists. split; [done|]. by rewrite lookup_insert_eq.
Qed.
Definition no_statements (_ : string) : list Migrations.statement := [].
Definition no_sql (_ : string) (t : tables) : option tables := Some t.
Definition at_noon (_ : string) : string := "noon".
Definition demo_draws : draws := Draws "random" "k9" "noon" "noon2".
Definition command (a : keys_args) (f : files) := cmd_keys no_statements no_sql at_noon [] demo_draws "/d/e.db" a f.

(** A backend that gives the chunks it holds and notes what was called. *)
Record machine := Machine { left : list string; opened : bool; loaded : bool }.
Definition machine_backend : backend machine := Backend
  (fun w => (Machine (left w) (opened w) true, Ok ()))
  (fun _ w => (Machine (left w) true (loaded w), Ok ()))
  (fun w => match left w with [] => (w, Ok None) | t :: ts => (Machine ts (opened w) (loaded w), Ok (Some t)) end)
  (fun w => (Machine (left w) false (loaded w), Ok ()))
  (fun w => Some (QueueGenerationStream.Result "hi" QueueGenerationStream.STOP 1 2, QueueGenerationStream.Timings 0 None None))
  (fun w => (Machine (left w) (opened w) false, Ok ())).
(** The configuration's sources: a port in the environment, no file. *)
Definition demo_world : Config.world (V:=value) :=
  Config.World (fun _ => false) id "/etc/ie.toml" None (fun k => if bool_decide (k = "port") then Some (VInt 9000) else None) (fun _ _ => None).
Definition demo_construct (get : string → option value) : result Config.config_error Config.Settings :=
  Config.validate (fun _ => true) (ConfigExamples.settings (ConfigExamples.Choices
    (match get "host" with Some (VStr h) => h | _ => "127.0.0.1" end) false false "127.0.0.1" false [] [] false [] [] [])).
Definition demo_outside : outside machine := Outside _
  (fun s => if bool_decide (s = "8080") then Some 8080 else None) (fun _ => None) id demo_world demo_construct no_statements no_sql at_noon []
  (fun _ => []) (fun _ _ => None) (fun _ => []) (fun _ => None) "1.0" (Some "") None demo_draws "ts" "now"
  (fun _ _ => Ok ()) machine_backend (fun _ => Machine ["a"] false false) id 5.
Definition demo_disk : Disk.t := Disk.Mk ∅ ∅.
End Demo.
Import Demo.

Lemma keys_create_verifies_witness :
  ∃ g' t, command (Create (Some "ci")) ∅ =
    (g', [Out (Json.JObj [("id", Json.JStr "k9"); ("prefix", Json.JStr "sk-ie-random"); ("label", Json.JStr "ci");
                          ("token", Json.JStr "sk-ie-random")]);
          Err_text "Save this token now; it will not be shown again."], Ok 0) ∧
    sqlite_open "/d/e.db" g' = Some (Migrations.Db (Some []) t) ∧
    events t = recorded demo_draws "key.create" "k9" (Some (Json.JObj [("label", Json.JStr "ci")])) empty_tables ∧
    (∀ n, snd (KeyStore.verify "sk-ie-random" n (db t)) = Some (KeyStore.Rec "k9" "sk-ie-random" (Some "ci") "noon" None None None)) ∧
    KeyStore.role (KeyStore.Rec "k9" "sk-ie-random" (Some "ci") "noon" None None None) = KeyStore.ROLE_OPERATOR.
Proof.
  eapply (keys_create_verifies no_statements no_sql at_noon [] demo_draws "/d/e.db" (Some "ci") (∅ : files) _ _ (Migrations.Db (Some []) empty_tables) _
    (KeyStore.Rec "k9" "sk-ie-random" (Some "ci") "noon" None None None) "sk-ie-random").
  - vm_compute. reflexivity.
  - vm_compute. reflexivity.
  - vm_compute. reflexivity.
Defined.
Lemma keys_revoke_exact_witness :
  ∃ g' t, command (Revoke "k1") ∅ = (g', [Out (Json.JObj [("revoked", Json.JBool true); ("id", Json.JStr "k1")])], Ok 0) ∧
    sqlite_open "/d/e.db" g' = Some (Migrations.Db (Some []) t) ∧
    (∀ tok n k, snd (KeyStore.verify tok n (db t)) = Some k → KeyStore.id k ≠ "k1") ∧
    events t = recorded demo_draws "key.revoke" "k1" None empty_tables.
Proof.
  eapply (keys_revoke_exact no_statements no_sql at_noon [] demo_draws "/d/e.db" "k1" (∅ : files) _ _ (Migrations.Db (Some []) empty_tables));
    vm_compute; reflexivity.
Defined.
Lemma keys_list_records_witness :
  ∃ g', command List_ ∅ = (g', [Out (Json.JArr (map key_row (Sql.order_by created_leb (map KeyStore.row_to_record (Db.api_keys (db empty_tables))))))], Ok 0) ∧
    sqlite_open "/d/e.db" g' = Some (Migrations.Db (Some []) empty_tables).
Proof.
  eapply (keys_list_records no_statements no_sql at_noon [] demo_draws "/d/e.db" (∅ : files) _ _ (Migrations.Db (Some []) empty_tables));
    vm_compute; reflexivity.
Defined.

Lemma generate_prints_witness :
  cmd_generate machine_backend id (Ok Factory.RemoteVLLM) 3 "p" 16 1 (Machine ["a"; "b"] false false) =
  (Machine [] false false, [Out_text "a"; Out_text "b"; Out_text newline; Err_summary QueueGenerationStream.STOP 1 2 0 0], Some (Ok 0)).
Proof.
  refine (generate_prints machine_backend id Factory.RemoteVLLM 3 "p" 16 1 (request_of "p" 16 1) (Machine ["a"; "b"] false false)
    (Machine ["a"; "b"] false true) (Machine ["a"; "b"] true true) ["a"; "b"] (Machine [] true true) (Ok ()) (Machine [] false true)
    (Machine [] false false) _ _ _ _ _ _ _).
  - vm_compute. reflexivity.
  - reflexivity.
  - reflexivity.
  - do 2 (eapply streams_chunk; [reflexivity|]). by apply streams_end.
  - simpl. lia.
  - reflexivity.
  - reflexivity.
Defined.
Lemma generate_releases_witness :
  let w' := fst (fst (cmd_generate machine_backend id (Ok Factory.RemoteVLLM) 3 "p" 16 1 (Machine ["a"; "b"] false false))) in
  loaded w' = false ∧ opened w' = false.
Proof.
  destruct (generate_releases machine_backend id (fun w => opened w = false) (fun w => loaded w = false) Factory.RemoteVLLM 3 "p" 16 1
    (Machine ["a"; "b"] false false) (Machine ["a"; "b"] false true) (Machine [] false false)
    [Out_text "a"; Out_text "b"; Out_text newline; Err_summary QueueGenerationStream.STOP 1 2 0 0] (Ok 0)) as [H1 H2].
  - done.
  - done.
  - done.
  - reflexivity.
  - vm_compute. reflexivity.
  - split; [exact H1|]. apply (H2 (request_of "p" 16 1) (Machine ["a"; "b"] true true)); vm_compute; reflexivity.
Defined.

(** The flag wins over the environment, and its last occurrence over the first. *)
Lemma settings_precedence_witness :
  ∃ ns, parse_args (int_of demo_outside) (float_of demo_outside) (path_of demo_outside) Serve [("port", "8080"); ("host", "a"); ("host", "b")] = Some ns ∧
    Config.layered demo_world (overrides ns) None "port" = Some (VInt 8080) ∧
    Config.layered demo_world (overrides ns) None "host" = Some (VStr "b").
Proof.
  eexists. split; [vm_compute; reflexivity|]. split.
  - rewrite (settings_precedence (int_of demo_outside) (float_of demo_outside) (path_of demo_outside) demo_world Serve [("port", "8080"); ("host", "a"); ("host", "b")]);
      vm_compute; reflexivity.
  - rewrite (settings_precedence (int_of demo_outside) (float_of demo_outside) (path_of demo_outside) demo_world Serve [("port", "8080"); ("host", "a"); ("host", "b")]);
      vm_compute; reflexivity.
Defined.
(** Binding every interface without leave is refused. *)
Lemma main_exit_codes_witness :
  let go := main (fun _ => []) (fun _ => None) empty_tables demo_outside ConfigC [("host", "0.0.0.0")] demo_disk in
  snd go = Some (Ok 2) ∧ refused demo_outside ConfigC [("host", "0.0.0.0")] ∧ fst (fst go) = demo_disk.
Proof.
  destruct (main (fun _ => []) (fun _ => None) empty_tables demo_outside ConfigC [("host", "0.0.0.0")] demo_disk) as [[f' o] r] eqn:E.
  assert (r = Some (Ok 2)) as -> by (revert E; vm_compute; by intros [= _ _ <-]).
  destruct (main_exit_codes (fun _ => []) (fun _ => None) empty_tables demo_outside ConfigC [("host", "0.0.0.0")] demo_disk f' o 2 E) as (_ & H2 & H3).
  split; [reflexivity|]. split; [by apply H2|]. by apply H3.
Defined.
Lemma generate_invalid_escapes_witness :
  cmd_generate machine_backend id (Ok Factory.RemoteVLLM) 3 "p" 0 1 (Machine ["a"] false false) = (Machine ["a"] false false, [], Some (Err Invalid_request)).
Proof.
  apply (generate_invalid_escapes machine_backend id Factory.RemoteVLLM 3 _ (Machine ["a"] false true)); vm_compute; reflexivity.
Defined.

End Cli.
