(* ===== verification/HostSensors.v ===== *)
(** * Host sensors ([engine/telemetry/resources.py], [hardware.py])

    [Module ResourceSampler]: the readings of processor, memory, disk and process, with the walk to the nearest existing
    directory.  [Module Hardware]: the SIMD flags and the cached hardware summary.  The answers of [psutil], of the platform
    module and of the file system are inputs; a reading that raises is [None]. *)

From Stdlib Require Import Ascii.
From S2P Require Import Prelude Crypto Text.

Open Scope Z_scope.

Module ResourceSampler.

(** [MemoryStats] and [DiskStats] *)
Record MemoryStats := Memory { m_total : option Z; m_used : option Z; m_available : option Z; m_percent : option Q }.
Definition no_memory : MemoryStats := Memory None None None None.
(** A path, innermost component first: [/] and [.] are the empty list. *)
Abbreviation path := (list string).
Record DiskStats := DiskUsage { d_path : path; d_total : option Z; d_used : option Z; d_free : option Z; d_percent : option Q }.
Definition no_disk (p : path) : DiskStats := DiskUsage p None None None None.

(** What a sample meets. [exists_] answers [None] when the test itself raises (a directory on the way may not be searched). *)
Record host := Host {
  cpu_reading : option Q;
  memory_reading : option (Z * Z * Q);          (* total, available, percent *)
  rss_reading : option Z;
  exists_ : path → option bool;
  disk_reading : path → option (Z * Z * Z * Q)  (* total, used, free, percent *)
}.
(** The sampler: [available] and [_disk_path]; [why] is the error of the import of psutil. *)
Record t := Mk { available : bool; why : option string; disk_path : path }.

(** [cpu_percent], [memory] and [process_rss] *)
Definition cpu_percent (s : t) (h : host) : option Q := if available s then cpu_reading h else None.
Definition memory (s : t) (h : host) : MemoryStats :=
  if negb (available s) then no_memory
  else match memory_reading h with
       | Some (total, avail, pct) => Memory (Some total) (Some (total - avail)) (Some avail) (Some pct)
       | None => no_memory
       end.
Definition process_rss (s : t) (h : host) : option Z := if available s then rss_reading h else None.

(** The loop of [disk]: up to the nearest existing ancestor, or the root. *)
Fixpoint nearest (e : path → option bool) (p : path) : result exn path :=
  match e p with
  | None => Err OSError
  | Some true => Ok p
  | Some false => match p with [] => Ok [] | _ :: up => nearest e up end
  end.
(** [disk]: the loop runs before the test of [available] and outside the [try]. *)
Definition disk (s : t) (h : host) : result exn DiskStats :=
  target ← nearest (exists_ h) (disk_path s);
  Ok (if negb (available s) then no_disk (disk_path s)
      else match disk_reading h target with
           | Some (total, used, free, pct) => DiskUsage (disk_path s) (Some total) (Some used) (Some free) (Some pct)
           | None => no_disk (disk_path s)
           end).

(** [snapshot] *)
Record readings := Readings {
  r_available : bool; r_reason : option string; r_cpu : option Q; r_memory : MemoryStats; r_rss : option Z; r_disk : DiskStats
}.
Definition snapshot (s : t) (h : host) : result exn readings :=
  d ← disk s h;
  Ok (Readings (available s)
        (if available s then None else Some (match why s with Some e => if str_true e then e else "psutil unavailable" | None => "psutil unavailable" end))
        (cpu_percent s h) (memory s h) (process_rss s h) d).

(** ** The walk *)

(** [target] is the first of [p] and its ancestors that exists, or the root when none does. *)
Definition nearest_existing (e : path → option bool) (p target : path) : Prop :=
  ∃ below, p = below ++ target ∧ (e target = Some true ∨ target = [])
    ∧ ∀ k, (k < length below)%nat → e (drop k p) = Some false.
Lemma nearest_spec e p target : nearest e p = Ok target → nearest_existing e p target.
Proof.
  revert target. induction p as [|c up IH]; intros target; simpl.
  - destruct (e []) as [[]|]; [intros [= <-]|intros [= <-]|done]; exists []; (split; [done|]); (split; [auto|]); simpl; lia.
  - destruct (e (c :: up)) as [[]|] eqn:E; [intros [= <-]|intros N|done].
    + exists []. split; [done|]. split; [auto|]. simpl. lia.
    + destruct (IH target N) as (below & -> & H1 & H2). exists (c :: below). split; [done|]. split; [done|].
      intros [|k] Hk; [done|]. simpl. apply H2. simpl in Hk. lia.
Qed.
Lemma nearest_total e p : (∀ k, e (drop k p) ≠ None) → ∃ target, nearest e p = Ok target.
Proof.
  induction p as [|c up IH]; intros He; cbn [nearest].
  - specialize (He 0%nat). simpl in He. destruct (e []) as [[]|]; eauto. done.
  - pose proof (He 0%nat) as H0. simpl in H0. destruct (e (c :: up)) as [[]|]; [eauto| |done].
    apply IH. intros k. exact (He (S k)).
Qed.

(** As long as the file system answers, a snapshot is produced whatever psutil does: a reading that fails is absent, and without
    psutil every reading is absent and the reason is given.  The disk figures are those of the nearest existing directory above the
    configured one. *)
Theorem snapshot_defensive s h : (∀ k, exists_ h (drop k (disk_path s)) ≠ None) →
  ∃ r target, snapshot s h = Ok r ∧ nearest_existing (exists_ h) (disk_path s) target ∧
    d_path (r_disk r) = disk_path s ∧
    (available s = true → r_reason r = None ∧ r_cpu r = cpu_reading h ∧ r_rss r = rss_reading h ∧
       d_free (r_disk r) = (fun x => snd (fst x)) <$> disk_reading h target) ∧
    (available s = false → is_Some (r_reason r) ∧ r_cpu r = None ∧ r_memory r = no_memory ∧ r_rss r = None ∧ r_disk r = no_disk (disk_path s)).
Proof.
  intros He. destruct (nearest_total _ _ He) as [target Ht].
  unfold snapshot, disk. rewrite Ht. simpl. eexists _, target. split; [reflexivity|]. split; [by apply nearest_spec|].
  unfold cpu_percent, memory, process_rss. simpl. destruct (available s); simpl.
  - destruct (disk_reading h target) as [[[[a b] c] d]|]; done.
  - split; [done|]. split; [done|]. intros _. repeat split. by case_match.
Qed.

(** A directory that may not be searched makes the test of existence raise, and the snapshot with it. *)
Theorem disk_walk_raises s h : exists_ h (disk_path s) = None → snapshot s h = Err OSError.
Proof. intros E. unfold snapshot, disk. by destruct (disk_path s); simpl in *; rewrite E. Qed.

(** ** Examples *)

Definition demo : t := Mk true None ["models"; "engine"; "var"].
Definition demo_host (closed : bool) : host :=
  Host (Some (25 # 2)) None (Some 4096)
    (fun p => if bool_decide (p = ["var"] ∨ p = []) then Some true else if closed then None else Some false)
    (fun p => if bool_decide (p = ["var"]) then Some (100, 60, 40, 60%Q) else None).
Lemma snapshot_defensive_witness :
  ∃ r, snapshot demo (demo_host false) = Ok r ∧ d_free (r_disk r) = Some 40 ∧ r_memory r = no_memory.
Proof.
  destruct (snapshot_defensive demo (demo_host false)) as (r & target & E & N & P & A & _).
  - intros [|[|[|k]]]; vm_compute; [done..|]. by destruct k.
  - exists r. split; [exact E|]. revert E. vm_compute. by intros [= <-].
Defined.
Lemma disk_walk_raises_witness : snapshot demo (demo_host true) = Err OSError.
Proof. apply disk_walk_raises. vm_compute. reflexivity. Defined.

End ResourceSampler.

(** ** The hardware summary *)

Module Hardware.

Definition SIMD_FLAGS : list string := ["avx512f"; "avx2"; "avx"; "fma"; "f16c"; "sse4_2"; "neon"].
Definition flags_line (line : string) : bool := Text.startswith "flags" (Text.lower line) || Text.startswith "features" (Text.lower line).
(** [line.split(":", 1)[1].split()]; the index is out of range for a line without a colon. *)
Definition line_flags (line : string) : result exn (list string) :=
  if Text.mem ":"%char line then Ok (List.filter (fun f => bool_decide (f ∈ Text.split_ws (snd (Text.partition ":"%char line)))) SIMD_FLAGS)
  else Err IndexError.
(** [_cpu_flags]: the lines of [/proc/cpuinfo], [None] when it cannot be opened. *)
Fixpoint scan (lines : list string) : result exn (list string) :=
  match lines with
  | [] => Ok []
  | line :: lines => if flags_line line then line_flags line else scan lines
  end.
Definition cpu_flags (cpuinfo : option (list string)) : result exn (list string) :=
  match cpuinfo with Some lines => scan lines | None => Ok [] end.

(** What [summary] reads; [None] is a reading that raises. *)
Record readings := Readings_ {
  have_psutil : bool; total_memory : option Z; physical_cores : option (option Z);
  platform : string; system : string; release : string; machine : string; processor : string; python_version : string;
  logical_cores : option Z; cpuinfo : option (list string)
}.
Record summary_t := Summary {
  s_version : string; s_platform : string; s_system : string; s_release : string; s_machine : string; s_processor : string;
  s_python : string; s_logical : option Z; s_physical : option Z; s_flags : list string; s_memory : option Z
}.
(** [summary] behind its cache of one result: an exception is not cached. *)
Definition summary (version : string) (r : readings) (cache : option summary_t) : option summary_t * result exn summary_t :=
  match cache with
  | Some x => (cache, Ok x)
  | None =>
      match cpu_flags (cpuinfo r) with
      | Err e => (None, Err e)
      | Ok flags =>
          let x := Summary version (platform r) (system r) (release r) (machine r)
                     (if str_true (processor r) then processor r else machine r) (python_version r) (logical_cores r)
                     (if have_psutil r then match physical_cores r with Some n => n | None => None end else None) flags
                     (if have_psutil r then total_memory r else None) in
          (Some x, Ok x)
      end
  end.

(** The flags reported are, in the order of the allow-list and once each, those on the first line that lists flags. *)
Theorem cpu_flags_exact before line after fs :
  forallb (fun l => negb (flags_line l)) before = true → flags_line line = true → Text.mem ":"%char line = true →
  cpu_flags (Some (before ++ line :: after)) = Ok fs →
  NoDup fs ∧ sublist fs SIMD_FLAGS ∧
  ∀ f, f ∈ fs ↔ f ∈ SIMD_FLAGS ∧ f ∈ Text.split_ws (snd (Text.partition ":"%char line)).
Proof.
  intros Hb Hl Hc. simpl. intros E.
  assert (fs = List.filter (fun f => bool_decide (f ∈ Text.split_ws (snd (Text.partition ":"%char line)))) SIMD_FLAGS) as ->.
  { revert E. induction before as [|l before IH]; cbn [app scan].
    - rewrite Hl. unfold line_flags. rewrite Hc. by intros [= <-].
    - cbn [forallb] in Hb. apply andb_true_iff in Hb as [H1%negb_true_iff H2]. rewrite H1. by apply IH. }
  assert (∀ (q : string → bool) l, sublist (List.filter q l) l) as Hs.
  { intros q l. induction l as [|a l IH]; simpl; [constructor|]. destruct (q a); by constructor. }
  split; [|split; [apply Hs|]].
  - eapply sublist_NoDup; [|apply Hs]. unfold SIMD_FLAGS. apply (bool_decide_unpack _). vm_compute. exact I.
  - intros f. rewrite list_elem_of_In, filter_In, <- list_elem_of_In. by rewrite bool_decide_eq_true.
Qed.
(** Once computed, the summary is the same for the life of the process. *)
Lemma summary_cached version version' r r' x c : summary version r None = (c, Ok x) → summary version' r' c = (c, Ok x).
Proof. unfold summary. destruct (cpu_flags (cpuinfo r)); [|done]. by intros [= <- <-]. Qed.

Definition demo_lines : list string := ["processor : 0"; "flags : fpu sse4_2 avx fma avx2"; "flags : avx512f"].
Lemma cpu_flags_exact_witness :
  cpu_flags (Some demo_lines) = Ok ["avx2"; "avx"; "fma"; "sse4_2"] ∧ "f16c" ∉ ["avx2"; "avx"; "fma"; "sse4_2"].
Proof.
  destruct (cpu_flags_exact ["processor : 0"] "flags : fpu sse4_2 avx fma avx2" ["flags : avx512f"] ["avx2"; "avx"; "fma"; "sse4_2"])
    as (_ & _ & H); [vm_compute; reflexivity..|].
  split; [vm_compute; reflexivity|]. rewrite H. intros [_ F]. revert F. apply (bool_decide_unpack _). vm_compute. exact I.
Defined.

End Hardware.
