(* ===== verification/OperatorViews.v ===== *)
(** * The read-only operator surface ([api/ops_router.py], [monitoring_router.py], [admin_router.py])

    [Module ErrorTaxonomy]: the counts of [read_error_taxonomy] and the route that reports them.
    [Module Snapshots]: the snapshots the views return: [Telemetry.build_snapshot] with every sensor, the scheduler's, the
    registry's and the route metrics'.  [Module SystemSummary]: [system_summary], with its independence of every secret setting.
    [Module OperatorViews]: the handlers, each with its gate, and their dispatch. *)

From S2P Require Import Prelude Crypto Text Sql Admission Placement Routing Store Quota Keys Billing Accounts.
From S2P Require Import Gateway AuditChain Webhooks ClientEvents Telemetry Config Observability Operators Operability Sensors HostSensors CommandLine.

Open Scope Z_scope.

(** ** Error counts *)

Module ErrorTaxonomy.
Import LogCollector.

(** The rows counted: categorised, and not older than [since]. *)
Definition counted (since : Q) (r : row) : bool := bool_decide (since <= ts (body r))%Q && bool_decide (is_Some (category (body r))).
Definition categories (since : Q) (tb : table) : list string := omap (fun r => category (body r)) (Sql.select (counted since) (rows tb)).
(** [read_error_taxonomy]: [GROUP BY category ORDER BY n DESC]; SQLite leaves the order of equal counts open, here it is by name. *)
Definition read_error_taxonomy (since : Q) (tb : table) : list (string * nat) :=
  let cs := categories since tb in
  Sql.order_by (fun a b => Nat.leb (snd b) (snd a))
    (map (fun c => (c, length (List.filter (fun x => bool_decide (x = c)) cs))) (sort_str (remove_dups cs))).
(** [errors_taxonomy], after its gate. *)
Definition errors_taxonomy (window : string) (now : Q) (tb : table) : Q * list (string * nat) * nat :=
  let since := Attribution.window_start window now in
  let counts := read_error_taxonomy since tb in
  (since, counts, fold_right (fun p n => (snd p + n)%nat) 0%nat counts).

Lemma count_split (c : string) (l : list string) (p : string → bool) :
  (length (List.filter p l) = length (List.filter (fun x => bool_decide (x = c)) (List.filter p l))
   + length (List.filter (fun x => p x && negb (bool_decide (x = c))) l))%nat.
Proof.
  induction l as [|x l IH]; [done|]. simpl. destruct (p x); simpl; [|done].
  destruct (bool_decide (x = c)); simpl; lia.
Qed.
(** The counts over distinct names add up to the occurrences of those names. *)
Lemma counts_sum (ds l : list string) : NoDup ds →
  fold_right (fun c n => (length (List.filter (fun x => bool_decide (x = c)) l) + n)%nat) 0%nat ds
  = length (List.filter (fun x => bool_decide (x ∈ ds)) l).
Proof.
  induction ds as [|c ds IH]; intros Hd; simpl.
  - by induction l.
  - apply NoDup_cons in Hd as [Hc Hd]. rewrite (IH Hd), (count_split c l (fun x => bool_decide (x ∈ c :: ds))). f_equal.
    + f_equal. clear IH. induction l as [|x l IHl]; [done|]. simpl. destruct (bool_decide (x = c)) eqn:E.
      * apply bool_decide_eq_true in E as ->. rewrite (bool_decide_true (c ∈ c :: ds)) by apply list_elem_of_here. simpl.
        rewrite bool_decide_true by done. by rewrite IHl.
      * destruct (bool_decide (x ∈ c :: ds)); simpl; [rewrite E|]; done.
    + f_equal. apply List.filter_ext. intros x. destruct (bool_decide (x = c)) eqn:E.
      * apply bool_decide_eq_true in E as ->. rewrite (bool_decide_false (c ∈ ds)) by done. by rewrite andb_false_r.
      * apply bool_decide_eq_false in E. rewrite andb_true_r. apply bool_decide_ext. rewrite elem_of_cons. naive_solver.
Qed.
Lemma sum_perm (a b : list (string * nat)) : a ≡ₚ b →
  fold_right (fun p n => (snd p + n)%nat) 0%nat a = fold_right (fun p n => (snd p + n)%nat) 0%nat b.
Proof. induction 1; simpl; lia. Qed.

Lemma sorted_impl {A} (R R' : A → A → Prop) l : (∀ a b, R a b → R' a b) → StronglySorted R l → StronglySorted R' l.
Proof. intros H. induction 1 as [|x l Hs IH Hf]; constructor; [done|]. eapply Forall_impl; [exact Hf|]. apply H. Qed.

(** The taxonomy view is exact: each category once, busiest first, with the number of its records in the window, and the total is the number of
    categorised records in the window. *)
Theorem taxonomy_exact window now tb since counts total :
  errors_taxonomy window now tb = (since, counts, total) →
  NoDup (map fst counts) ∧ StronglySorted (fun a b => (snd b <= snd a)%nat) counts ∧
  (∀ c n, (c, n) ∈ counts ↔ n = length (List.filter (fun x => bool_decide (x = c)) (categories since tb)) ∧ c ∈ categories since tb) ∧
  total = length (Sql.select (counted since) (rows tb)).
Proof.
  intros [= Hs <- <-]. rewrite Hs. unfold read_error_taxonomy. set (cs := categories since tb).
  set (row := fun c => (c, length (List.filter (fun x => bool_decide (x = c)) cs))).
  set (le := fun a b : string * nat => Nat.leb (snd b) (snd a)).
  assert (Sql.order_by le (map row (sort_str (remove_dups cs))) ≡ₚ map row (remove_dups cs)) as P.
  { etrans; [apply Sql.order_by_perm|]. apply Permutation_map, sort_str_perm. }
  assert (NoDup (map fst (map row (remove_dups cs)))) as Hd.
  { rewrite map_map. simpl. rewrite map_id. apply NoDup_remove_dups. }
  split_and!.
  - by rewrite P.
  - eapply sorted_impl; [|apply (Sql.order_by_sorted le)].
    + intros a b. apply Nat.leb_le.
    + intros a b. unfold le. destruct (Nat.leb_spec (snd b) (snd a)); [by left|right]. apply Nat.leb_le. lia.
    + intros a b c. unfold le. rewrite !Nat.leb_le. lia.
  - intros c n. rewrite P, list_elem_of_fmap. unfold row. split.
    + intros (c' & [= -> ->] & Hc). split; [done|]. by apply elem_of_remove_dups.
    + intros [-> Hc]. exists c. split; [done|]. by apply elem_of_remove_dups.
  - rewrite (sum_perm _ _ P). transitivity (length cs).
    + transitivity (length (List.filter (fun x => bool_decide (x ∈ remove_dups cs)) cs)).
      * rewrite <- counts_sum by apply NoDup_remove_dups. clear P Hd. induction (remove_dups cs); simpl; [done|]. by rewrite IHl.
      * rewrite (List.filter_ext_in _ (fun _ => true)); [by rewrite List.filter_true|].
        intros x Hx. apply bool_decide_true. apply elem_of_remove_dups. by apply list_elem_of_In.
    + unfold cs, categories, Sql.select. induction (rows tb) as [|r l IH]; [done|]. simpl. destruct (counted since r) eqn:C; [|done].
      unfold counted in C. apply andb_true_iff in C as [_ [c C]%bool_decide_eq_true]. simpl. rewrite C. simpl. f_equal. exact IH.
Qed.

Definition demo_row (i : Z) (at_ : Q) (c : option string) : row :=
  Row i (Payload at_ "ERROR" "engine" "request_error" None None None None c None None None).
Definition demo_table : table :=
  Tb [demo_row 1 0 (Some "auth"); demo_row 2 20000 (Some "limit"); demo_row 3 20001 (Some "auth"); demo_row 4 20002 (Some "limit"); demo_row 5 20003 None] 5.
Lemma taxonomy_exact_witness :
  ∃ since, errors_taxonomy "5h" 20010 demo_table = (since, [("limit", 2%nat); ("auth", 1%nat)], 3%nat) ∧
    3%nat = length (Sql.select (counted since) (rows demo_table)).
Proof.
  eexists. split; [vm_compute; reflexivity|].
  eapply (taxonomy_exact "5h" 20010 demo_table _ [("limit", 2%nat); ("auth", 1%nat)] 3%nat). vm_compute. reflexivity.
Defined.
End ErrorTaxonomy.

(** ** Snapshots *)

Module Snapshots.

(** [Scheduler.snapshot]; [round1] is Python's rounding to one digit. *)
Record scheduler_t := SchedulerSnapshot {
  max_concurrency : Z; max_queue_depth : Z; queue_timeout_s : Q; draining : bool; in_use : Z; available : Z; queue_depth : Z;
  peak_in_use : Z; peak_queue_depth : Z; admitted_total : Z; rejected_total : Z; rejected_queue_full : Z; rejected_timeout : Z;
  cancelled_total : Z; slow_consumer_total : Z; wait_ms_avg : option Q; wait_ms_max : Q; wait_ms_last : Q
}.
Definition scheduler (round1 : Q → Q) (s : Scheduler.t) : scheduler_t :=
  SchedulerSnapshot (Scheduler.max_concurrency s) (Scheduler.max_queue_depth s) (Scheduler.queue_timeout_s s) (Scheduler.draining s)
    (Scheduler.in_use s) (Scheduler.available s) (Scheduler.waiters s) (Scheduler.peak_in_use s) (Scheduler.peak_waiters s)
    (Scheduler.admitted s) (Scheduler.rejected_total s) (Scheduler.rejected_queue_full s) (Scheduler.rejected_timeout s)
    (Scheduler.cancelled s) (Scheduler.slow_consumer s)
    (if Scheduler.wait_count s =? 0 then None else Some (round1 (Scheduler.wait_total s / inject_Z (Scheduler.wait_count s) * 1000)%Q))
    (round1 (Scheduler.wait_max s * 1000)%Q) (round1 (Scheduler.wait_last s * 1000)%Q).

(** A row of [BackendRegistry.status]; the cache statistics of an entry are not part of the registry's model. *)
Record backend_row := BackendRow {
  row_name : string; row_kind : string; local : bool; row_state : BackendRegistry.BackendState; row_available : bool;
  row_in_flight : Z; row_max_in_flight : Z; row_model : option string; row_served : option string; row_context : option Z;
  row_prefix_cache : bool; row_kv_metrics : bool; row_spillover : bool; row_external : bool
}.
Definition status_row (e : BackendRegistry.BackendEntry) : backend_row :=
  let caps := match BackendRegistry.provider e with
              | Some b => if BackendRegistry.readyish (BackendRegistry.state b) then Some (BackendRegistry.capabilities b) else None
              | None => None
              end in
  BackendRow (BackendRegistry.name e) (BackendRegistry.kind e) (BackendRegistry.is_local e)
    (match BackendRegistry.provider e with Some b => BackendRegistry.state b | None => BackendRegistry.UNLOADED end)
    (BackendRegistry.is_ready e) (BackendRegistry.in_flight e) (BackendRegistry.max_in_flight e)
    (BackendRegistry.model_id <$> caps) (BackendRegistry.served_model e) (BackendRegistry.context_length <$> caps)
    (BackendRegistry.prefix_cache e) (match caps with Some c => BackendRegistry.supports_kv_cache_metrics c | None => false end)
    (BackendRegistry.spillover e) (BackendRegistry.external e).
Definition status (reg : list BackendRegistry.BackendEntry) : list backend_row := map status_row reg.
(** The view is consistent: it is ready exactly when a row is available, and an available row names the model it serves and its state. *)
Lemma status_consistent reg : BackendRegistry.any_ready reg = existsb row_available (status reg) ∧
  ∀ r, r ∈ status reg → row_available r = true → is_Some (row_model r) ∧ is_Some (row_context r) ∧ BackendRegistry.readyish (row_state r) = true.
Proof.
  split.
  - unfold BackendRegistry.any_ready, status. induction reg as [|e reg IH]; [done|]. simpl. by rewrite IH.
  - intros r (e & -> & He)%list_elem_of_fmap. unfold status_row. simpl. unfold BackendRegistry.is_ready, BackendRegistry.is_loaded.
    intros [_ L]%andb_true_iff. destruct (BackendRegistry.provider e) as [b|]; [|done]. rewrite L. eauto.
Qed.

(** [RouteStat.as_dict] and [RouteMetrics.snapshot]; the counts and the count maps are in the statistics, the maps in their own
    order; [round6] rounds to six digits. *)
Record route_row := RouteRow {
  r_model : string; r_backend : string; r_stat : RouteMetrics.RouteStat; r_cost : Q; r_success : option Q;
  r_total : option Q; r_ttft : option Q; r_queue : option Q; r_tps : option Q
}.
Definition as_dict (round6 : Q → Q) (p : (string * string) * RouteMetrics.RouteStat) : route_row :=
  let s := snd p in
  RouteRow (fst (fst p)) (snd (fst p)) s (round6 (RouteMetrics.cost s)) (RouteMetrics.success_rate s) (RouteMetrics.average (RouteMetrics.total_ms s))
    (RouteMetrics.average (RouteMetrics.ttft_ms s)) (RouteMetrics.average (RouteMetrics.queue_ms s)) (RouteMetrics.average (RouteMetrics.output_tps s)).
Definition pair_leb (a b : string * string) : bool :=
  if bool_decide (fst a = fst b) then str_leb (snd a) (snd b) else str_leb (fst a) (fst b).
Record routes_t := Routes { rows : list route_row; sheds : list (string * Z); totals : Z * Z * Z; total_cost : Q; total_sheds : Z }.
Definition routes (round6 : Q → Q) (m : RouteMetrics.t) : routes_t :=
  Routes (map (as_dict round6) (Sql.order_by (fun a b => pair_leb (fst a) (fst b)) (RouteMetrics.routes m)))
    (Sql.order_by (fun a b => str_leb (fst a) (fst b)) (RouteMetrics.sheds m))
    (RouteMetrics.total RouteMetrics.requests m, RouteMetrics.total RouteMetrics.errors m, RouteMetrics.total RouteMetrics.cancelled m)
    (round6 (fold_right (fun p a => (RouteMetrics.cost (snd p) + a)%Q) 0%Q (RouteMetrics.routes m)))
    (RouteMetrics.total_sheds m).

(** [Telemetry]: what [build_snapshot] changes. *)
Record telemetry := Telemetry_ { counters : Counters.t; rates : TelemetryService.t; power : PowerProbe.t }.
(** What a snapshot reads: the clock, the host and the energy counters. *)
Record sensors := Sensors_ {
  now : Q; sampler : ResourceSampler.t; host : ResourceSampler.host; energy_uj : string → option Z; power_now : Q; round_n : Z → Q → Q
}.
Record snapshot_t := Snapshot_ {
  counts : Counters.CountersSnapshot; tok_per_s : option Q; resources : ResourceSampler.readings; energy : PowerProbe.panel;
  backend : BackendRegistry.BackendState * option string * bool; sched : option scheduler_t
}.
(** [build_snapshot]: the counters, the rate and the power probe have advanced when the resources are read. *)
Definition build_snapshot (x : sensors) (b : option BackendRegistry.backend) (s : option Scheduler.t) (t : telemetry) : telemetry * result exn snapshot_t :=
  let '(c, r, (snap, tps, panel)) := TelemetryService.build_snapshot b (now x) (counters t) (rates t) in
  let '(p, reading) := PowerProbe.sample (energy_uj x) (power_now x) (power t) in
  (Telemetry_ c r p,
   res ← ResourceSampler.snapshot (sampler x) (host x);
   Ok (Snapshot_ snap tps res (PowerProbe.energy_state (round_n x) reading tps) panel (scheduler (round_n x 1) <$> s))).

End Snapshots.

(** ** The system summary *)

Module SystemSummary.

Record summary := Summary {
  build : Json.t; readiness : bool * list (string * string) * Readiness.inference; is_draining : bool;
  switches : list (string * bool); grpc_port : option Z; billing_provider : option string;
  backend_kind : string; virtual_models : list (string * Config.policy); workload_enabled : bool; workload_rules : nat;
  workers : list string; spillover : list string
}.
(** [system_summary]; [info] is [build_info()], [a] the application's state. *)
Definition system_summary (info : Json.t) (s : Config.Settings) (a : Readiness.app_state) : summary :=
  Summary info (Readiness.readiness_state a) (Readiness.is_draining a)
    [("allow_model_management", Config.allow_model_management s); ("allow_network_downloads", Config.allow_network_downloads s);
     ("allow_structured_output", Config.allow_structured_output s); ("diagnostics_enabled", Config.diagnostics_enabled s);
     ("require_auth", Config.effective_require_auth s); ("webhooks_enabled", Config.webhooks_enabled s);
     ("client_events_enabled", Config.client_events_enabled s); ("ip_allowlist_set", negb (Config.is_nil (Config.ip_allowlist s)));
     ("grpc_enabled", Config.grpc_enabled s)]
    (if Config.grpc_enabled s then Some (Config.grpc_port s) else None)
    (match Config.billing_provider s with Some p => if str_true p then Some p else None | None => None end)
    (Config.kind_str (Config.backend_kind s)) (map (fun v => (Config.v_name v, Config.v_policy v)) (Config.virtual_models s))
    (Config.workload_routing_enabled s) (length (Config.workload_routing_rules s))
    (map Config.w_name (Config.remote_workers s)) (map Config.w_name (Config.external_providers s)).

(** The settings without their URLs, hosts and credentials. *)
Definition erase_worker (w : Config.RemoteWorkerSpec) : Config.RemoteWorkerSpec :=
  Config.Worker (Config.w_name w) (Config.w_kind w) "" (Config.w_model w) (Config.w_model_id w) None (Config.w_connect_timeout_s w)
    (Config.w_read_timeout_s w) (Config.w_max_prestream_retries w) (Config.w_context_length w) (Config.w_tls_verify w) (Config.w_max_in_flight w)
    (Config.w_prefix_cache w) (Config.w_kv_metrics w) (Config.w_cost_per_1k_input w) (Config.w_cost_per_1k_output w).
Definition erase (s : Config.Settings) : Config.Settings := {|
  Config.host := Config.host s; Config.port := Config.port s; Config.allow_network_bind := Config.allow_network_bind s;
  Config.allow_insecure_bind := Config.allow_insecure_bind s; Config.grpc_enabled := Config.grpc_enabled s;
  Config.grpc_host := Config.grpc_host s; Config.grpc_port := Config.grpc_port s;
  Config.grpc_tls_cert := Config.grpc_tls_cert s; Config.grpc_tls_key := Config.grpc_tls_key s;
  Config.require_auth := Config.require_auth s; Config.max_request_bytes := Config.max_request_bytes s;
  Config.rate_limit_per_min := Config.rate_limit_per_min s; Config.max_concurrent_per_key := Config.max_concurrent_per_key s;
  Config.max_concurrency := Config.max_concurrency s; Config.max_concurrency_queue := Config.max_concurrency_queue s;
  Config.concurrency_queue_timeout_s := Config.concurrency_queue_timeout_s s;
  Config.require_model_ready := Config.require_model_ready s; Config.drain_timeout_s := Config.drain_timeout_s s;
  Config.ip_allowlist := Config.ip_allowlist s; Config.trust_forwarded_for := Config.trust_forwarded_for s;
  Config.allow_network_downloads := Config.allow_network_downloads s;
  Config.allow_model_management := Config.allow_model_management s;
  Config.allow_structured_output := Config.allow_structured_output s;
  Config.diagnostics_enabled := Config.diagnostics_enabled s; Config.quota_5h_cu := Config.quota_5h_cu s;
  Config.quota_weekly_cu := Config.quota_weekly_cu s; Config.cu_prompt_weight := Config.cu_prompt_weight s;
  Config.cu_completion_weight := Config.cu_completion_weight s; Config.billing_provider := Config.billing_provider s;
  Config.stripe_webhook_secret := None; Config.stripe_signature_tolerance_s := Config.stripe_signature_tolerance_s s;
  Config.default_plan := Config.default_plan s; Config.webhooks_enabled := Config.webhooks_enabled s;
  Config.webhook_max_attempts := Config.webhook_max_attempts s;
  Config.webhook_backoff_schedule_s := Config.webhook_backoff_schedule_s s;
  Config.webhook_poll_interval_s := Config.webhook_poll_interval_s s;
  Config.webhook_delivery_timeout_s := Config.webhook_delivery_timeout_s s;
  Config.webhook_signing_rotation_grace_s := Config.webhook_signing_rotation_grace_s s;
  Config.webhook_usage_threshold_pct := Config.webhook_usage_threshold_pct s;
  Config.client_events_enabled := Config.client_events_enabled s;
  Config.client_sse_heartbeat_s := Config.client_sse_heartbeat_s s;
  Config.client_events_retention_max_age_s := Config.client_events_retention_max_age_s s;
  Config.client_events_retention_max_per_client := Config.client_events_retention_max_per_client s;
  Config.client_cors_origins := []; Config.log_level := Config.log_level s;
  Config.metrics_interval_s := Config.metrics_interval_s s; Config.event_history_size := Config.event_history_size s;
  Config.event_subscriber_queue := Config.event_subscriber_queue s; Config.log_ring_size := Config.log_ring_size s;
  Config.log_events_max_rows := Config.log_events_max_rows s; Config.backend_kind := Config.backend_kind s;
  Config.allow_remote_backends := Config.allow_remote_backends s; Config.remote_base_url := None;
  Config.remote_model := Config.remote_model s; Config.remote_api_key := None;
  Config.remote_connect_timeout_s := Config.remote_connect_timeout_s s;
  Config.remote_read_timeout_s := Config.remote_read_timeout_s s;
  Config.remote_max_prestream_retries := Config.remote_max_prestream_retries s;
  Config.remote_context_length := Config.remote_context_length s; Config.remote_tls_verify := Config.remote_tls_verify s;
  Config.remote_prefix_cache := Config.remote_prefix_cache s; Config.remote_kv_metrics := Config.remote_kv_metrics s;
  Config.remote_workers := map erase_worker (Config.remote_workers s); Config.virtual_models := Config.virtual_models s;
  Config.workload_routing_enabled := Config.workload_routing_enabled s;
  Config.workload_routing_rules := Config.workload_routing_rules s;
  Config.allow_external_providers := Config.allow_external_providers s; Config.egress_allowlist := [];
  Config.external_providers := map erase_worker (Config.external_providers s);
  Config.primary_max_in_flight := Config.primary_max_in_flight s;
  Config.backend_health_interval_s := Config.backend_health_interval_s s;
  Config.prefix_affinity_chars := Config.prefix_affinity_chars s;
  Config.primary_cost_per_1k_input := Config.primary_cost_per_1k_input s;
  Config.primary_cost_per_1k_output := Config.primary_cost_per_1k_output s; Config.model_path := Config.model_path s;
  Config.model_id := Config.model_id s; Config.n_ctx := Config.n_ctx s; Config.n_threads := Config.n_threads s;
  Config.n_gpu_layers := Config.n_gpu_layers s; Config.models_dir := Config.models_dir s; Config.hf_endpoint := "";
  Config.download_chunk_bytes := Config.download_chunk_bytes s; Config.max_model_bytes := Config.max_model_bytes s;
  Config.data_dir := Config.data_dir s; Config.db_path := Config.db_path s; Config.log_dir := Config.log_dir s;
  Config.config_file := Config.config_file s
|}.
(** The summary is that of the settings without URLs, hosts and credentials: none of them can be read from it. *)
Theorem system_secretless info s s' a : erase s = erase s' → system_summary info s a = system_summary info s' a.
Proof.
  assert (∀ s, system_summary info (erase s) a = system_summary info s a) as E.
  { intros t. unfold system_summary. simpl. rewrite !map_map. done. }
  intros H. by rewrite <- (E s), <- (E s'), H.
Qed.
End SystemSummary.

(** ** The handlers *)

Module OperatorViews.
Import OperatorApi.

(** The state of the application a view may change. *)
Record vst := VSt { ops : st; tele : Snapshots.telemetry }.
(** The rest of [app.state], which the views only read. *)
Record app := App_ {
  settings : Config.Settings; settings_dump : list (string * Json.t); info : Json.t; version : string;
  entries : list BackendRegistry.BackendEntry; router : Router.t; route_metrics : RouteMetrics.t; scheduler : option Scheduler.t;
  backend : option BackendRegistry.backend; probes : Readiness.app_state; at_head : bool;
  log_table : LogCollector.table; collector : option (list Json.t); client_log : ClientEventLog.t;
  sensors : Snapshots.sensors; json_snapshot : Snapshots.snapshot_t → Json.t;
  upper : string → string; round6 : Q → Q; clock : Q
}.
Inductive view :=
| Metrics | Logs (limit : Z) (level request_id : option string) | DiagnosticsBundle
| Overview | Backends | RoutePlan (model : string) (prompt : option string) (features : list BackendRegistry.feature) | RoutesV
| UsageAttribution (window : string) | ErrorsTaxonomy (window : string) | AlertsV | System.
Inductive answer :=
| MetricsOut (x : Snapshots.snapshot_t) | LogsOut (l : list LogCollector.payload) | BundleOut (b : Diagnostics.bundle)
| OverviewOut (version : string) (ready : bool) (checks : list (string * string))
    (model : string * bool * BackendRegistry.BackendState * bool * option string) (x : Snapshots.snapshot_t)
| BackendsOut (l : list Snapshots.backend_row) (ready : bool) (count : nat)
| PlanOut (p : Router.Plan) | RoutesOut (x : Snapshots.routes_t)
| AttributionOut (since : Q) (l : list Attribution.row)
| TaxonomyOut (since : Q) (l : list (string * nat)) (total : nat)
| AlertsOut (l : list Alerts.kind) | SystemOut (x : SystemSummary.summary).

(** The query parameters and bodies the framework refuses before the handler runs. *)
Definition valid (v : view) : bool :=
  match v with
  | Logs limit _ _ => (1 <=? limit) && (limit <=? 1000)
  | UsageAttribution w | ErrorsTaxonomy w => bool_decide (w = "5h" ∨ w = "week")
  | _ => true
  end.

Section Handlers.
Context (cfg : Gateway.Settings) (a : app).

(** A snapshot, and the exception of a sensor that raised. *)
Definition snapshot (s : vst) : vst * result failure Snapshots.snapshot_t :=
  let '(t, r) := Snapshots.build_snapshot (sensors a) (backend a) (scheduler a) (tele s) in
  (VSt (ops s) t, match r with Ok x => Ok x | Err e => Err (Raises e) end).
(** [overview]'s checks: an exception of the probe replaces what it had noted. *)
Definition overview_checks : bool * list (string * string) :=
  match Readiness.database_error (probes a) with
  | None => (at_head a, [("database", "ok"); ("migrations", if at_head a then "applied" else "pending")])
  | Some c => (false, [("database", "error: " +:+ c)])
  end.
(** [route_plan]'s prefix key. *)
Definition prefix_key (prompt : option string) : option string :=
  match prompt with
  | Some p => if str_true p && (0 <? Config.prefix_affinity_chars (settings a))
              then Some (String.substring 0 (Z.to_nat (Config.prefix_affinity_chars (settings a))) p) else None
  | None => None
  end.
(** *** The handlers *)

Definition reply : Type := vst → vst * result failure answer.
Definition shows (f : vst → answer) : reply := fun s => (s, Ok (f s)).
Definition measured (f : Snapshots.snapshot_t → answer) : reply := fun s =>
  match snapshot s with (s, Ok x) => (s, Ok (f x)) | (s, Err e) => (s, Err e) end.

(** [require_operator(request)] and what follows it. *)
Definition gated (q : caller) (k : reply) : reply := fun s =>
  match require_operator cfg q (ops s) with
  | (o, Err e) => (VSt o (tele s), Err e)
  | (o, Ok _) => k (VSt o (tele s))
  end.

Definition metrics (q : caller) : reply := gated q (measured MetricsOut).
Definition logs (q : caller) (limit : Z) (level rid : option string) : reply :=
  gated q (shows (fun _ => LogsOut (LogCollector.read_log_events (upper a) limit level rid (log_table a)))).
Definition diagnostics_bundle (q : caller) : reply :=
  gated q (if negb (Config.diagnostics_enabled (settings a)) then fun s => (s, Err (Refuse 403 "diagnostics_disabled"))
           else measured (fun x => BundleOut (Diagnostics.build_bundle (settings_dump a) (collector a) (Some (json_snapshot a x)) 200))).
Definition overview (q : caller) : reply :=
  gated q (measured (fun x => OverviewOut (version a) (fst overview_checks) (snd overview_checks)
                       (ModelControl.model_panel (Config.model_id (settings a)) (bool_decide (is_Some (Config.model_path (settings a)))) (backend a)) x)).
Definition backends (q : caller) : reply :=
  gated q (let rows := Snapshots.status (entries a) in shows (fun _ => BackendsOut rows (BackendRegistry.any_ready (entries a)) (length rows))).
Definition route_plan (q : caller) (model : string) (prompt : option string) (features : list BackendRegistry.feature) : reply :=
  gated q (shows (fun _ => PlanOut (Router.plan (router a) model (prefix_key prompt) features (entries a)))).
Definition routes (q : caller) : reply := gated q (shows (fun _ => RoutesOut (Snapshots.routes (round6 a) (route_metrics a)))).
Definition usage_attribution (q : caller) (window : string) : reply :=
  gated q (shows (fun s => AttributionOut (Attribution.window_start window (clock a)) (Attribution.usage_attribution window (clock a) (tables (ops s))))).
Definition errors_taxonomy (q : caller) (window : string) : reply :=
  gated q (let '(since, l, n) := ErrorTaxonomy.errors_taxonomy window (clock a) (log_table a) in shows (fun _ => TaxonomyOut since l n)).
Definition alerts (q : caller) : reply :=
  gated q (shows (fun s => AlertsOut (Alerts.alerts (clock a) (tables (ops s)) (hook_tables (ops s)) (client_log a) (entries a)))).
Definition system (q : caller) : reply := gated q (shows (fun _ => SystemOut (SystemSummary.system_summary (info a) (settings a) (probes a)))).

Definition respond (q : caller) (v : view) : reply :=
  match v with
  | Metrics => metrics q
  | Logs limit level rid => logs q limit level rid
  | DiagnosticsBundle => diagnostics_bundle q
  | Overview => overview q
  | Backends => backends q
  | RoutePlan m p fs => route_plan q m p fs
  | RoutesV => routes q
  | UsageAttribution w => usage_attribution q w
  | ErrorsTaxonomy w => errors_taxonomy q w
  | AlertsV => alerts q
  | System => system q
  end.
(** A request for a view. *)
Definition handle (q : caller) (v : view) (s : vst) : vst * result failure answer :=
  if negb (valid v) then (s, Err Invalid_body) else respond q v s.

Definition measures (v : view) : bool := match v with Metrics | DiagnosticsBundle | Overview => true | _ => false end.
Lemma snapshot_ops s : ops (fst (snapshot s)) = ops s.
Proof. unfold snapshot. by destruct (Snapshots.build_snapshot _ _ _ _). Qed.
Lemma measured_ops f s : ops (fst (measured f s)) = ops s.
Proof. pose proof (snapshot_ops s) as H. unfold measured. by destruct (snapshot s) as [s' [x|e]]. Qed.
(** Every view is its gate and a body that leaves the stores alone. *)
Lemma respond_confined q v : ∃ k, respond q v = gated q k ∧
  ∀ s, ops (fst (k s)) = ops s ∧ (measures v = false → tele (fst (k s)) = tele s).
Proof.
  destruct v; eexists; (split; [reflexivity|]); intros s; cbv beta;
    try (by repeat case_match); try (split; [apply measured_ops|done]).
  destruct (negb _); [done|]. split; [apply measured_ops|done].
Qed.

(** The operator's views only read, and only for operators: whatever view is asked for and however it ends, the tables, the webhook queue
    and the audit log stay as they were (up to the time a key was last used); only the three views that take a measurement advance the
    telemetry.  A caller the gate does not allow gets 401 or 403 and no view, and nothing is measured. *)
Theorem views_read_only q v s : let '(s', r) := handle q v s in
  quiet (ops s) (ops s') ∧ (measures v = false → tele s' = tele s) ∧
  (fst (snd (Gateway.operator_access cfg (client_host q) (token q) (now_gate q) (gw (ops s)))) ≠ Gateway.ALLOWED →
     tele s' = tele s ∧ (r = Err Invalid_body ∨ r = Err (Refuse 401 "operator_access_required") ∨ r = Err (Refuse 403 "operator_role_required"))).
Proof.
  unfold handle. destruct (negb (valid v)); [by split_and!; auto|]. destruct (respond_confined q v) as (body & -> & Hb). unfold gated.
  destruct (require_operator cfg q (ops s)) as [o [k|e]] eqn:E.
  - destruct (Hb (VSt o (tele s))) as [H1 H2]. destruct (body (VSt o (tele s))) as [s' r]. simpl in *.
    assert (quiet (ops s) o ∧ fst (snd (Gateway.operator_access cfg (client_host q) (token q) (now_gate q) (gw (ops s)))) = Gateway.ALLOWED) as [Hq Ha].
    { unfold require_operator in E. cbv [mbind act_bind] in E. destruct (decision_quiet cfg q (ops s)) as (s1 & d & Ed & Hq & ->).
      rewrite Ed in E. unfold fail, mret, act_ret in E. destruct (fst _) eqn:F; simplify_eq. done. }
    rewrite H1. split; [done|]. split; [done|]. intros N. by rewrite Ha in N.
  - destruct (gate_refuses cfg q (ops s) o e E) as [Hq He]. simpl. split; [done|]. split; [done|]. intros _. split; [done|].
    destruct He as [->| ->]; auto.
Qed.

(** With diagnostics switched off no caller gets the bundle, and none of it is assembled. *)
Theorem diagnostics_switch q s : Config.diagnostics_enabled (settings a) = false →
  let '(s', r) := handle q DiagnosticsBundle s in tele s' = tele s ∧ is_ok r = false.
Proof.
  intros D. unfold handle. simpl. unfold diagnostics_bundle, gated. destruct (require_operator cfg q (ops s)) as [o [k|e]]; [|done].
  by rewrite D.
Qed.

(** A data directory that may not be searched makes the metrics view fail for every operator, after the rate and the power probe have advanced. *)
Theorem metrics_view_raises q s o k :
  require_operator cfg q (ops s) = (o, Ok k) →
  ResourceSampler.exists_ (Snapshots.host (sensors a)) (ResourceSampler.disk_path (Snapshots.sampler (sensors a))) = None →
  snd (handle q Metrics s) = Err (Raises OSError) ∧
  TelemetryService.last_sample_ts (Snapshots.rates (tele (fst (handle q Metrics s)))) = Some (Snapshots.now (sensors a)).
Proof.
  intros E D. unfold handle. simpl. unfold metrics, gated. rewrite E. unfold measured, snapshot, Snapshots.build_snapshot, TelemetryService.build_snapshot.
  rewrite (ResourceSampler.disk_walk_raises _ _ D). destruct (Counters.snapshot _ _) as [c snap]. simpl.
  destruct (PowerProbe.sample _ _ _) as [pw rd]. done.
Qed.
End Handlers.
End OperatorViews.
