(* ===== verification/Reachability.v ===== *)
(** * The image probes ([scripts/image_reachability.py])

    [Module ElfScan]: the walk over an exported file system and the report of the affected functions its ELF files import and define.
    [Module PyScan]: the imports of the installed distributions.  [Module Recorder]: what the audit hook keeps.
    [Module AuditWorkload]: the checks of the recorded serve session.  The file system, the answers of [readelf], the syntax trees and the
    server's answers are inputs; the Markdown summaries only format the reports and are left out. *)

From Stdlib Require Import Ascii.
From S2P Require Import Prelude Crypto Text Sql Backends Sensors.

Open Scope Z_scope.

Module ElfScan.

(** ** The file system *)

(** What [readelf -W --dyn-syms] did: it did not run, or it returned with a code and its output. *)
Inductive readelf := Not_run (why : string) | Returned (code : Z) (stdout stderr : string).
(** A regular file: opening and reading its first bytes, reading it all, and [readelf] on it; [Err] is an [OSError] with its reason. *)
Record file := File { head : result string string; contents : result string string; symbols : readelf }.
Inductive node :=
| Dir (listing : result string (list (string * node)))
| Regular (f : file)
| Special.         (* a symbolic link, a socket, a device *)

Definition ELF_MAGIC : string := String "127"%char "ELF".
(** What [elf_candidates] collects: the ELF files, the number of regular files, and what could not be read. *)
Record found := Found { elves : list (string * file); examined : nat; unreadable : list (string * string) }.
Definition nothing : found := Found [] 0 [].
Definition join (a b : found) : found := Found (elves a ++ elves b) (examined a + examined b) (unreadable a ++ unreadable b).

Definition under (path name : string) : string := path +:+ "/" +:+ name.
(** One regular file. *)
Definition examine (path : string) (f : file) : found :=
  match head f with
  | Err why => Found [] 1 [(path, why)]
  | Ok b => Found (if bool_decide (b = ELF_MAGIC) then [(path, f)] else []) 1 []
  end.
(** The directories not entered below the root. *)
Definition pruned (top : bool) (name : string) : bool := top && bool_decide (name ∈ ["proc"; "sys"; "dev"]).
(** [_rel]: the path inside the image. *)
Definition rel (path : string) : string := if bool_decide (path = "") then "/." else path.
Definition gather (g : string * node → found) (es : list (string * node)) : found := fold_right (fun e acc => join (g e) acc) nothing es.
(** The loop of [elf_candidates]: a directory's files first, then its directories. *)
Fixpoint walk (top : bool) (path : string) (n : node) : found :=
  match n with
  | Dir (Err why) => Found [] 0 [(rel path, why)]
  | Dir (Ok es) =>
      join (gather (fun e => match snd e with Regular f => examine (under path (fst e)) f | _ => nothing end) es)
           (gather (fun e => match snd e with
                             | Dir _ => if pruned top (fst e) then nothing else walk false (under path (fst e)) (snd e)
                             | _ => nothing
                             end) es)
  | _ => nothing
  end.
Definition elf_candidates (root : node) : found := walk true "" root.

(** ** Symbols *)

Record DynSyms := Syms { imported : list string; defined : list string; has_dynsym : bool }.
(** One line: [Num: Value Size Type Bind Vis Ndx Name]. *)
Definition symbol_line (line : string) : option (bool * string) :=
  match Text.split_ws line with
  | num :: _ :: _ :: ty :: _ :: _ :: ndx :: name :: _ =>
      if Text.endswith ":" num && bool_decide (ty ∈ ["FUNC"; "NOTYPE"])
      then Some (bool_decide (ndx = "UND"), fst (Text.partition "@"%char name)) else None
  | _ => None
  end.
(** [" ".join(stderr.split())[-300:]] *)
Definition detail (err : string) : string :=
  let t := Crypto.chars (Text.join " " (Text.split_ws err)) in Crypto.of_chars (drop (length t - 300) t).
(** [dynamic_symbols]; [Err] is an [InspectionError] with its text. *)
Definition dynamic_symbols (r : readelf) : result string DynSyms :=
  match r with
  | Not_run why => Err ("readelf did not run: " +:+ why)
  | Returned code out err =>
      if negb (code =? 0) then Err ("readelf exit " +:+ Text.str_int code +:+ ": " +:+ detail err)
      else let syms := omap symbol_line (CacheMetrics.splitlines out) in
           Ok (Syms (omap (fun p => if fst p : bool then Some (snd p) else None) syms)
                    (omap (fun p => if fst p : bool then None else Some (snd p)) syms)
                    (Diagnostics.contains "Symbol table '.dynsym'" out))
  end.

(** ** Strings in the file *)

Definition is_digit (c : ascii) : bool := (48 <=? Crypto.code c) && (Crypto.code c <=? 57).
Definition is_lower (c : ascii) : bool := (97 <=? Crypto.code c) && (Crypto.code c <=? 122).
Fixpoint span (p : ascii → bool) (l : list ascii) : list ascii * list ascii :=
  match l with
  | c :: l' => if p c then let '(a, b) := span p l' in (c :: a, b) else ([], l)
  | [] => ([], [])
  end.
Fixpoint strip_prefix (p l : list ascii) : option (list ascii) :=
  match p, l with
  | [], _ => Some l
  | a :: p, b :: l => if bool_decide (a = b) then strip_prefix p l else None
  | _, _ => None
  end.
(** [(\.\d+)*] from [l] on, with the number of characters left as fuel. *)
Fixpoint more_parts (n : nat) (l : list ascii) : list ascii * list ascii :=
  match n, l with
  | S n, c :: l' =>
      if bool_decide (c = "."%char) then
        match span is_digit l' with
        | ([], _) => ([], l)
        | (d, rest) => let '(a, b) := more_parts n rest in (c :: d ++ a, b)
        end
      else ([], l)
  | _, _ => ([], l)
  end.
(** [EMBEDDED_ZLIB] at the head of [l]: the version, and what follows the match. *)
Definition zlib_here (l : list ascii) : option (list ascii * list ascii) :=
  rest ← match strip_prefix (Crypto.chars "deflate ") l with Some r => Some r | None => strip_prefix (Crypto.chars "inflate ") l end;
  match span is_digit rest with
  | ([], _) => None
  | (d, rest1) =>
      match more_parts (length rest1) rest1 with
      | ([], _) => None
      | (parts, rest2) => after ← strip_prefix (Crypto.chars " Copyright") rest2; Some (d ++ parts, after)
      end
  end.
(** [findall]: the versions of the successive matches; [skip] characters belong to the last one. *)
Fixpoint zlib_all (skip : nat) (l : list ascii) : list (list ascii) :=
  match l with
  | [] => []
  | _ :: l' =>
      match skip with
      | S k => zlib_all k l'
      | O => match zlib_here l with
             | Some (v, after) => v :: zlib_all (length l - length after - 1) l'
             | None => zlib_all 0 l'
             end
      end
  end.
Definition zlib_versions (data : string) : list string :=
  sort_str (remove_dups (map Crypto.of_chars (zlib_all 0 (Crypto.chars data)))).
(** [CCS_MODE] at the head of [l], and anywhere. *)
Definition ccs_here (l : list ascii) : bool :=
  match l with
  | c :: l' =>
      bool_decide (c ∈ ["r"; "w"; "a"]%char) &&
      let l'' := match l' with d :: r => if bool_decide (d = "+"%char) then r else l' | [] => [] end in
      bool_decide (is_Some (strip_prefix (Crypto.chars ",ccs=") (snd (span is_lower l''))))
  | [] => false
  end.
Fixpoint ccs_mode (l : list ascii) : bool := ccs_here l || match l with [] => false | _ :: l' => ccs_mode l' end.

(** ** The report *)

(** [Path(rel).name] *)
Definition base_name (path : string) : string := default path (last (Text.split "/"%char path)).
Record assessed := Assessed { a_path : string; a_syms : DynSyms; a_zlib : list string; a_ccs : bool }.
(** The loop body of [elf_report]: what was learnt about a file, or why nothing was. *)
Definition assess (e : string * file) : result string assessed :=
  syms ← dynamic_symbols (symbols (snd e));
  data ← contents (snd e);
  Ok (Assessed (fst e) syms
        (if Text.startswith "libz.so" (base_name (fst e)) then [] else zlib_versions data)
        (negb (Text.startswith "libc.so" (base_name (fst e)) || Text.startswith "libc-" (base_name (fst e))) && ccs_mode (Crypto.chars data))).
Definition good (e : string * file) : option assessed := match assess e with Ok x => Some x | Err _ => None end.
Definition bad (e : string * file) : option (string * string) := match assess e with Ok _ => None | Err why => Some (fst e, why) end.

Record report := Report {
  status : string; files_examined : nat; discovered : nat; inspected : nat; without_dynsym : list string; unassessed : list (string * string);
  groups : list (string * list (string * (list string * list string)));   (* label, symbol, defined in, imported by *)
  embedded_zlib : list (string * list string); ccs_strings : list string
}.
(** The files whose symbols of one kind contain [sym], in order. *)
Definition having (f : DynSyms → list string) (sym : string) (l : list assessed) : list string :=
  map a_path (List.filter (fun a => bool_decide (sym ∈ f (a_syms a))) l).
(** [ELF_TARGETS], by library and advisory. *)
Definition ELF_TARGETS : list (string * list (string * list string)) :=
  [("zlib",
    [("CVE-2026-85091 gz write path", ["gzwrite"; "gzfwrite"; "gzprintf"; "gzvprintf"; "gzputc"; "gzputs"; "gzflush"; "gzsetparams"; "gzclose_w"]);
     ("gzFile open (any gz* use)", ["gzopen"; "gzopen64"; "gzdopen"; "gzopen_w"]);
     ("CVE-2026-27171 crc32 combine", ["crc32_combine"; "crc32_combine64"; "crc32_combine_gen"; "crc32_combine_gen64"; "crc32_combine_op"])]);
   ("glibc",
    [("CVE-2026-19499 strfmon", ["strfmon"; "strfmon_l"]);
     ("CVE-2026-5435/6238 ns_printrr/fp_nquery", ["ns_printrr"; "ns_printrrf"; "ns_sprintrr"; "ns_sprintrrf"; "fp_nquery"; "fp_query"; "p_query"]);
     ("CVE-2026-19542 tdelete", ["tdelete"]);
     ("CVE-2026-6791/6368 wordexp", ["wordexp"; "wordfree"]);
     ("CVE-2026-77117/80489 iconv (JISX0213)", ["iconv_open"; "iconv"]);
     ("CVE-2010-4756 glob", ["glob"; "glob64"]);
     ("CVE-2018-20796/2019-9192 regexec", ["regexec"; "regcomp"])]);
   ("sqlite",
    [("CVE-2026-50812/50813 session extension", ["sqlite3session_create"; "sqlite3changeset_apply"; "sqlite3changeset_apply_v2"; "sqlite3changeset_apply_v3"; "sqlite3changeset_concat"; "sqlite3changegroup_new"; "sqlite3changegroup_add"]);
     ("extension loading (zipfile/session at runtime)", ["sqlite3_load_extension"; "sqlite3_enable_load_extension"])])].
Definition labelled : list (string * list string) := flat_map (fun l => map (fun g => (fst l +:+ ": " +:+ fst g, snd g)) (snd l)) ELF_TARGETS.
(** [elf_report], for the targets by group; the report is [elf_report labelled]. *)
Definition elf_report (targets : list (string * list string)) (root : node) : report :=
  let c := elf_candidates root in
  let ok := omap good (elves c) in
  let not_ok := unreadable c ++ omap bad (elves c) in
  Report (match not_ok with [] => "complete" | _ => "incomplete" end) (examined c) (length (elves c)) (length ok)
    (sort_str (map a_path (List.filter (fun a => negb (has_dynsym (a_syms a))) ok)))
    (Sql.order_by (fun a b => str_leb (fst a) (fst b)) not_ok)
    (map (fun g => (fst g, map (fun s => (s, (sort_str (having defined s ok), sort_str (having imported s ok)))) (snd g))) targets)
    (omap (fun a => match a_zlib a with [] => None | vs => Some (a_path a, vs) end) ok)
    (sort_str (map a_path (List.filter a_ccs ok))).

(** ** What the report means *)

(** The regular file [f] is at [p] below [n], outside the directories not entered. *)
Inductive at_path : bool → string → node → string → file → Prop :=
| at_here top path es name f : (name, Regular f) ∈ es → at_path top path (Dir (Ok es)) (under path name) f
| at_below top path es name l p f : (name, Dir l) ∈ es → pruned top name = false →
    at_path false (under path name) (Dir l) p f → at_path top path (Dir (Ok es)) p f.
(** The directory at [p] below [n] could not be listed. *)
Inductive blocked : bool → string → node → string → string → Prop :=
| blocked_here top path why : blocked top path (Dir (Err why)) (rel path) why
| blocked_below top path es name l p why : (name, Dir l) ∈ es → pruned top name = false →
    blocked false (under path name) (Dir l) p why → blocked top path (Dir (Ok es)) p why.

Section NodeInd.
Context (P : node → Prop) (Perr : ∀ why, P (Dir (Err why))) (Pdir : ∀ es, Forall (fun e => P (snd e)) es → P (Dir (Ok es)))
  (Pfile : ∀ f, P (Regular f)) (Pspecial : P Special).
Fixpoint node_ind' (n : node) : P n :=
  match n with
  | Dir (Err why) => Perr why
  | Dir (Ok es) => Pdir es ((fix go (es : list (string * node)) : Forall (fun e => P (snd e)) es :=
      match es with [] => List.Forall_nil _ | e :: es => Forall_cons_2 _ _ _ (node_ind' (snd e)) (go es) end) es)
  | Regular f => Pfile f
  | Special => Pspecial
  end.
End NodeInd.

Lemma gather_elves g es x : x ∈ elves (gather g es) ↔ ∃ e, e ∈ es ∧ x ∈ elves (g e).
Proof.
  induction es as [|e es IH]; simpl; [set_solver|]. rewrite elem_of_app, IH. setoid_rewrite elem_of_cons. naive_solver.
Qed.
Lemma gather_unreadable g es x : x ∈ unreadable (gather g es) ↔ ∃ e, e ∈ es ∧ x ∈ unreadable (g e).
Proof.
  induction es as [|e es IH]; simpl; [set_solver|]. rewrite elem_of_app, IH. setoid_rewrite elem_of_cons. naive_solver.
Qed.
Lemma examine_elves path f x : x ∈ elves (examine path f) ↔ x = (path, f) ∧ head f = Ok ELF_MAGIC.
Proof.
  unfold examine. destruct (head f) as [b|why]; simpl; [|split; [by intros ?%not_elem_of_nil|naive_solver]].
  case_bool_decide as E; [subst b; rewrite list_elem_of_singleton; naive_solver|]. split; [by intros ?%not_elem_of_nil|naive_solver].
Qed.
Lemma examine_unreadable path f p why : (p, why) ∈ unreadable (examine path f) ↔ p = path ∧ head f = Err why.
Proof.
  unfold examine. destruct (head f) as [b|w]; simpl; [split; [by intros ?%not_elem_of_nil|naive_solver]|].
  rewrite list_elem_of_singleton. naive_solver.
Qed.

(** The walk finds every ELF file outside the pruned directories, and only those. *)
Lemma walk_elves n top path p f : (p, f) ∈ elves (walk top path n) ↔ at_path top path n p f ∧ head f = Ok ELF_MAGIC.
Proof.
  revert top path. induction n as [why|es IH|g|] using node_ind'; intros top path; simpl.
  - split; [by intros ?%not_elem_of_nil|]. intros [H _]. inversion H.
  - rewrite elem_of_app, !gather_elves. rewrite Forall_forall in IH. split.
    + intros [([name []] & He & Hx)|([name []] & He & Hx)]; cbn [fst snd] in Hx; try (by apply not_elem_of_nil in Hx).
      * apply examine_elves in Hx as [[= -> ->] ?]. split; [by constructor|done].
      * destruct (pruned top name) eqn:Pr; [by apply not_elem_of_nil in Hx|]. apply (IH _ He) in Hx as [? ?]. split; [|done].
        by eapply at_below.
    + intros [H Hm]. inversion H as [? ? ? name ? Hin|? ? ? name l ? ? Hin Pr Hb]; subst.
      * left. exists (name, Regular f). split; [done|]. cbn [fst snd]. by apply examine_elves.
      * right. exists (name, Dir l). split; [done|]. cbn [fst snd]. rewrite Pr. by apply (IH _ Hin).
  - split; [by intros ?%not_elem_of_nil|]. intros [H _]. inversion H.
  - split; [by intros ?%not_elem_of_nil|]. intros [H _]. inversion H.
Qed.
(** Everything it could not read is listed. *)
Lemma walk_unreadable n top path p why : (p, why) ∈ unreadable (walk top path n) ↔
  blocked top path n p why ∨ ∃ f, at_path top path n p f ∧ head f = Err why.
Proof.
  revert top path. induction n as [w|es IH|g|] using node_ind'; intros top path; simpl.
  - rewrite list_elem_of_singleton. split; [intros [= -> ->]; left; constructor|].
    intros [H|(f & H & _)]; inversion H. by subst.
  - rewrite elem_of_app, !gather_unreadable. rewrite Forall_forall in IH. split.
    + intros [([name []] & He & Hx)|([name []] & He & Hx)]; cbn [fst snd] in Hx; try (by apply not_elem_of_nil in Hx).
      * apply examine_unreadable in Hx as [-> ?]. right. eexists. split; [by constructor|done].
      * destruct (pruned top name) eqn:Pr; [by apply not_elem_of_nil in Hx|]. apply (IH _ He) in Hx as [?|(f & ? & ?)].
        -- left. by eapply blocked_below.
        -- right. exists f. split; [|done]. by eapply at_below.
    + intros [H|(f & H & Hm)].
      * inversion H as [|? ? ? name l ? ? Hin Pr Hb]; subst. right. exists (name, Dir l). split; [done|]. cbn [fst snd]. rewrite Pr.
        apply (IH _ Hin). by left.
      * inversion H as [? ? ? name ? Hin|? ? ? name l ? ? Hin Pr Hb]; subst.
        -- left. exists (name, Regular f). split; [done|]. cbn [fst snd]. by apply examine_unreadable.
        -- right. exists (name, Dir l). split; [done|]. cbn [fst snd]. rewrite Pr. apply (IH _ Hin). right. eauto.
  - split; [by intros ?%not_elem_of_nil|]. intros [H|(f & H & _)]; inversion H.
  - split; [by intros ?%not_elem_of_nil|]. intros [H|(f & H & _)]; inversion H.
Qed.

(** An ELF file of the image and what was learnt about it. *)
Definition learnt (root : node) (p : string) (a : assessed) : Prop :=
  ∃ f, at_path true "" root p f ∧ head f = Ok ELF_MAGIC ∧ assess (p, f) = Ok a.
Lemma assess_path e a : assess e = Ok a → a_path a = fst e.
Proof.
  unfold assess, mbind, result_bind. destruct (dynamic_symbols _); [|done]. destruct (contents _); [|done]. by intros [= <-].
Qed.
Lemma having_learnt root f sym p :
  p ∈ sort_str (having f sym (omap good (elves (elf_candidates root)))) ↔ ∃ a, learnt root p a ∧ sym ∈ f (a_syms a).
Proof.
  rewrite sort_str_perm. unfold having. rewrite list_elem_of_fmap. split.
  - intros (a & -> & Ha%list_elem_of_In%filter_In). destruct Ha as [Ha Hs%bool_decide_eq_true].
    apply list_elem_of_In, list_elem_of_omap in Ha as ([p g] & Hin & Hg). unfold good in Hg.
    destruct (assess (p, g)) as [a'|] eqn:E; [|done]. injection Hg as ->. apply walk_elves in Hin as [? ?].
    exists a. rewrite (assess_path _ _ E). split; [|done]. by exists g.
  - intros (a & (g & H1 & H2 & H3) & Hs). exists a. split; [by rewrite (assess_path _ _ H3)|].
    apply list_elem_of_In, filter_In. rewrite bool_decide_eq_true. split; [|done].
    apply list_elem_of_In, list_elem_of_omap. exists (p, g). split; [by apply walk_elves|]. unfold good. by rewrite H3.
Qed.

Lemma nil_iff {A} (l : list A) : (∀ x, x ∉ l) ↔ l = [].
Proof. split; [destruct l as [|x l]; [done|]; intros H; destruct (H x); left|]. intros -> x. apply not_elem_of_nil. Qed.
Lemma all_good l : omap bad l = [] → length (omap good l) = length l.
Proof.
  induction l as [|e l IH]; [done|]. simpl. unfold bad, good. destruct (assess e); simpl; [|done]. intros H. f_equal. by apply IH.
Qed.

(** *** The image, without reference to the walk *)

(** The names that lead from a directory to the regular file [f], and to a directory that
    cannot be listed. *)
Inductive file_at : list string → node → file → Prop :=
| file_here es name f : (name, Regular f) ∈ es → file_at [name] (Dir (Ok es)) f
| file_below es name l ns f : (name, Dir l) ∈ es → file_at ns (Dir l) f → file_at (name :: ns) (Dir (Ok es)) f.
Inductive unlisted_at : list string → node → Prop :=
| unlisted_here why : unlisted_at [] (Dir (Err why))
| unlisted_below es name l ns : (name, Dir l) ∈ es → unlisted_at ns (Dir l) → unlisted_at (name :: ns) (Dir (Ok es)).
Definition spell (ns : list string) : string := fold_right (fun n s => "/" +:+ n +:+ s) "" ns.
(** A directory is in scope unless it is, or is below, one of the image's [/proc], [/sys] and
    [/dev]; a file is in scope when its directory is. *)
Definition dir_in_scope (ns : list string) : Prop :=
  match ns with top :: _ => top ≠ "proc" ∧ top ≠ "sys" ∧ top ≠ "dev" | [] => True end.
Definition file_in_scope (ns : list string) : Prop := match ns with [_] => True | _ => dir_in_scope ns end.

(** A line of readelf's table names the function [sym], with the section index [ndx]: the
    fields are the number and a colon, value, size, type, binding, visibility, index and the
    name, which a version may follow after an at sign. *)
Definition symbol_in (out sym ndx : string) : Prop :=
  ∃ line num value size ty bind vis name rest, line ∈ CacheMetrics.splitlines out ∧
    Text.split_ws line = num :: value :: size :: ty :: bind :: vis :: ndx :: name :: rest ∧
    Text.endswith ":" num = true ∧ (ty = "FUNC" ∨ ty = "NOTYPE") ∧ fst (Text.partition "@"%char name) = sym.
(** An ELF file in scope at the path [p], which readelf and the scan could read. *)
Definition readable_elf (root : node) (p out : string) : Prop :=
  ∃ ns f err data, p = spell ns ∧ file_at ns root f ∧ file_in_scope ns ∧ head f = Ok ELF_MAGIC ∧
    symbols f = Returned 0 out err ∧ contents f = Ok data.

Lemma pruned_scope name : pruned true name = false ↔ name ≠ "proc" ∧ name ≠ "sys" ∧ name ≠ "dev".
Proof.
  unfold pruned. simpl. rewrite bool_decide_eq_false. rewrite !not_elem_of_cons. split; [naive_solver|].
  intros (? & ? & ?). split_and!; try done. apply not_elem_of_nil.
Qed.
(** Where the walk goes is what is in scope. *)
Lemma at_path_names top path n p f :
  at_path top path n p f ↔ ∃ ns, p = path +:+ spell ns ∧ file_at ns n f ∧ (top = true → file_in_scope ns).
Proof.
  split.
  - induction 1 as [top path es name f Hin|top path es name l p f Hin Hp _ (ns & -> & Hf & _)].
    + exists [name]. split_and!; [|by constructor|done]. unfold under, spell. cbn [fold_right]. by rewrite Text.append_nil.
    + exists (name :: ns). split_and!; [|by eapply file_below|].
      * unfold under. simpl. by rewrite <- !Text.append_assoc.
      * intros ->. apply pruned_scope in Hp. destruct ns; [done|exact Hp].
  - intros (ns & -> & Hf & Hs). revert top path Hs.
    induction Hf as [es name f Hin|es name l ns f Hin Hf IH]; intros top path Hs.
    + simpl. rewrite Text.append_nil. by constructor.
    + apply (at_below top path es name l); [done| |].
      * destruct top; [|done]. apply pruned_scope. destruct ns as [|m ns]; [by inversion Hf|]. by apply Hs.
      * change (spell (name :: ns)) with ("/" +:+ name +:+ spell ns).
        replace (path +:+ "/" +:+ name +:+ spell ns) with (under path name +:+ spell ns)
          by (unfold under; by rewrite <- !Text.append_assoc).
        by apply IH.
Qed.
Lemma blocked_names top path n :
  (∃ p why, blocked top path n p why) ↔ ∃ ns, unlisted_at ns n ∧ (top = true → dir_in_scope ns).
Proof.
  split.
  - intros (p & why & H). induction H as [top path why|top path es name l p why Hin Hp _ (ns & Hu & _)].
    + exists []. split; [by constructor|done].
    + exists (name :: ns). split; [by eapply unlisted_below|]. intros ->. by apply pruned_scope in Hp.
  - intros (ns & Hu & Hs). revert top path Hs.
    induction Hu as [why|es name l ns Hin Hu IH]; intros top path Hs; [do 2 eexists; constructor|].
    destruct (IH false (under path name)) as (p & why & Hb); [done|]. exists p, why.
    apply (blocked_below top path es name l); [done| |done]. destruct top; [|done]. by apply pruned_scope, Hs.
Qed.

Lemma assess_ok p f : (∃ a, assess (p, f) = Ok a) ↔ (∃ out err, symbols f = Returned 0 out err) ∧ ∃ d, contents f = Ok d.
Proof.
  unfold assess, mbind, result_bind. cbn [fst snd]. unfold dynamic_symbols.
  destruct (symbols f) as [why|code out err]; [naive_solver|]. destruct (Z.eqb_spec code 0) as [->|Hc]; cbn [negb];
    [|split; [naive_solver|intros [(? & ? & [= -> _ _]) _]; done]].
  destruct (contents f); naive_solver.
Qed.
Lemma symbol_line_spec line imp sym : symbol_line line = Some (imp, sym) ↔
  ∃ num value size ty bind vis ndx name rest,
    Text.split_ws line = num :: value :: size :: ty :: bind :: vis :: ndx :: name :: rest ∧
    Text.endswith ":" num = true ∧ (ty = "FUNC" ∨ ty = "NOTYPE") ∧ fst (Text.partition "@"%char name) = sym ∧ imp = bool_decide (ndx = "UND").
Proof.
  unfold symbol_line. split.
  - intros H. repeat match type of H with match ?x with _ => _ end = _ => destruct x eqn:?; try done end.
    injection H as <- <-. apply andb_true_iff in Heqb as [H1 H2%bool_decide_eq_true].
    do 9 eexists. split_and!; [done|done| |done|done]. rewrite !elem_of_cons in H2. destruct H2 as [?|[?|?%not_elem_of_nil]]; auto; done.
  - intros (num & value & size & ty & bind & vis & ndx & name & rest & -> & -> & Ht & <- & ->).
    rewrite bool_decide_true; [done|]. destruct Ht as [->| ->]; repeat constructor.
Qed.
Lemma symbols_spec (imp : bool) f d sym : dynamic_symbols (symbols f) = Ok d →
  sym ∈ (if imp then imported d else defined d) ↔
  ∃ out err ndx, symbols f = Returned 0 out err ∧ symbol_in out sym ndx ∧ (if imp then ndx = "UND" else ndx ≠ "UND").
Proof.
  unfold dynamic_symbols. destruct (symbols f) as [|code out err]; [done|]. destruct (Z.eqb_spec code 0) as [->|]; [|done].
  cbn [negb]. intros [= <-]. cbn [imported defined].
  assert (sym ∈ (if imp then imported else defined)
      (Syms (omap (fun p => if fst p : bool then Some (snd p) else None) (omap symbol_line (CacheMetrics.splitlines out)))
            (omap (fun p => if fst p : bool then None else Some (snd p)) (omap symbol_line (CacheMetrics.splitlines out))) true) ↔
    ∃ line, line ∈ CacheMetrics.splitlines out ∧ symbol_line line = Some (imp, sym)) as Hm.
  { destruct imp; cbn [imported defined]; rewrite list_elem_of_omap; setoid_rewrite list_elem_of_omap; split.
    - intros ([[] s] & (line & ? & ?) & [= <-]). by exists line.
    - intros (line & ? & ?). exists (true, sym). split; [by exists line|done].
    - intros ([[] s] & (line & ? & ?) & [= <-]). by exists line.
    - intros (line & ? & ?). exists (false, sym). split; [by exists line|done]. }
  destruct imp; cbn [imported defined] in Hm; rewrite Hm; clear Hm; setoid_rewrite symbol_line_spec; split.
  - intros (line & Hl & num & v & sz & ty & bi & vi & ndx & nm & rest & ? & ? & ? & ? & E). symmetry in E. apply bool_decide_eq_true in E.
    exists out, err, ndx. split_and!; [done| |done]. by exists line, num, v, sz, ty, bi, vi, nm, rest.
  - intros (out' & err' & ndx & [= <- <-] & (line & num & v & sz & ty & bi & vi & nm & rest & ? & ? & ? & ? & ?) & ->).
    exists line. split; [done|]. by exists num, v, sz, ty, bi, vi, "UND", nm, rest.
  - intros (line & Hl & num & v & sz & ty & bi & vi & ndx & nm & rest & ? & ? & ? & ? & E). symmetry in E. apply bool_decide_eq_false in E.
    exists out, err, ndx. split_and!; [done| |done]. by exists line, num, v, sz, ty, bi, vi, nm, rest.
  - intros (out' & err' & ndx & [= <- <-] & (line & num & v & sz & ty & bi & vi & nm & rest & ? & ? & ? & ? & ?) & E).
    exists line. split; [done|]. exists num, v, sz, ty, bi, vi, ndx, nm, rest. by rewrite bool_decide_false.
Qed.
(** What was learnt of a readable ELF file is what readelf printed. *)
Lemma learnt_symbols root (imp : bool) sym p :
  (∃ a, learnt root p a ∧ sym ∈ (if imp then imported (a_syms a) else defined (a_syms a))) ↔
  ∃ out ndx, readable_elf root p out ∧ symbol_in out sym ndx ∧ (if imp then ndx = "UND" else ndx ≠ "UND").
Proof.
  split.
  - intros (a & (f & Ha & Hh & E) & Hs). apply at_path_names in Ha as (ns & -> & Hf & Hsc).
    unfold assess, mbind, result_bind in E. cbn [fst snd] in E.
    destruct (dynamic_symbols (symbols f)) as [d|] eqn:Ed; [|done]. destruct (contents f) as [data|] eqn:Ec; [|done].
    injection E as <-. cbn [a_syms] in Hs. apply (symbols_spec imp f d sym Ed) in Hs as (out & err & ndx & Hr & Hin & Hu).
    exists out, ndx. split_and!; [|done|done]. exists ns, f, err, data. split_and!; try done. by apply Hsc.
  - intros (out & ndx & (ns & f & err & data & -> & Hf & Hsc & Hh & Hr & Hc) & Hin & Hu).
    destruct (proj2 (assess_ok (spell ns) f)) as [a E]; [eauto|]. exists a. split.
    + exists f. split_and!; [|done|done]. apply at_path_names. exists ns. split_and!; [done|done|by intros _].
    + unfold assess, mbind, result_bind in E. cbn [fst snd] in E. destruct (dynamic_symbols (symbols f)) as [d|] eqn:Ed; [|done].
      destruct (contents f); [|done]. injection E as <-. cbn [a_syms]. apply (symbols_spec imp f d sym Ed). eauto 6.
Qed.

(** When nothing was noted as unreadable or not assessed. *)
Lemma complete_spec root : let c := elf_candidates root in
  unreadable c = [] ∧ omap bad (elves c) = [] ↔
  (∀ ns, unlisted_at ns root → ¬ dir_in_scope ns) ∧
  (∀ ns f, file_at ns root f → file_in_scope ns →
     ∃ b, head f = Ok b ∧ (b = ELF_MAGIC → (∃ out err, symbols f = Returned 0 out err) ∧ ∃ d, contents f = Ok d)).
Proof.
  cbv zeta. rewrite <- !nil_iff. split.
  - intros [H1 H2]. split.
    + intros ns Hu Hsc. destruct (proj2 (blocked_names true "" root)) as (p & why & B); [by exists ns|].
      destruct (H1 (p, why)). apply walk_unreadable. by left.
    + intros ns f Hf Hsc. assert (at_path true "" root (spell ns) f) as A by (apply at_path_names; by exists ns).
      destruct (head f) as [b|why] eqn:Hh; [|destruct (H1 (spell ns, why)); apply walk_unreadable; right; eauto].
      exists b. split; [done|]. intros ->. apply (assess_ok (spell ns)). destruct (assess (spell ns, f)) as [a|why] eqn:E; [eauto|].
      destruct (H2 (spell ns, why)). apply list_elem_of_omap. exists (spell ns, f). split; [by apply walk_elves|]. unfold bad. by rewrite E.
  - intros [H1 H2]. split.
    + intros [p why] [B|(f & (ns & -> & Hf & Hsc)%at_path_names & Hh)]%walk_unreadable.
      * destruct (proj1 (blocked_names true "" root)) as (ns & Hu & Hsc); [eauto|]. by apply (H1 ns Hu), Hsc.
      * destruct (H2 ns f Hf (Hsc eq_refl)) as (b & Hb & _). congruence.
    + intros x ([p f] & [(ns & -> & Hf & Hsc)%at_path_names Hh]%walk_elves & Hb)%list_elem_of_omap.
      destruct (H2 ns f Hf (Hsc eq_refl)) as (b & Hb' & Ha).
      destruct (proj2 (assess_ok ("" +:+ spell ns) f)) as [a E]; [apply Ha; congruence|]. unfold bad in Hb. by rewrite E in Hb.
Qed.

Definition demo_symbols : string := Text.join (String "010"%char "")
  ["Symbol table '.dynsym' contains 3 entries:";
   "     1: 0000000000000000     0 FUNC    GLOBAL DEFAULT  UND gzwrite@ZLIB_1.2 (2)";
   "     2: 0000000000001040    12 FUNC    GLOBAL DEFAULT   12 iconv_open"].
Definition demo_elf (r : readelf) : node := Regular (File (Ok ELF_MAGIC) (Ok "deflate 1.3.1 Copyright ra+,ccs=") r).
Definition demo_root (r : readelf) : node :=
  Dir (Ok [("proc", Dir (Err "PermissionError: denied")); ("usr", Dir (Ok [("a.so", demo_elf r); ("notes", Regular (File (Ok "# a") (Err "unused") (Not_run "unused")))]))]).
Definition demo_targets : list (string * list string) := [("zlib: gz", ["gzwrite"]); ("glibc: iconv", ["iconv_open"])].
(** C38. The report is exact for the image outside its top-level [/proc], [/sys] and [/dev].  It
    calls itself complete exactly when, there, every directory was listed, the head of every
    regular file was read, and every ELF file was inspected (readelf returned zero and the file
    was read); it has then inspected as many files as it discovered.  Complete or not, for
    every target function the files it lists as importing it are the inspected ELF files there
    in whose table readelf prints the function as undefined, and the files it lists as defining
    it those in whose table it is printed with a section. *)
Theorem elf_report_exact targets root : let r := elf_report targets root in
  (status r = "complete" ↔
     (∀ ns, unlisted_at ns root → ¬ dir_in_scope ns) ∧
     (∀ ns f, file_at ns root f → file_in_scope ns →
        ∃ b, head f = Ok b ∧
          (b = ELF_MAGIC → (∃ out err, symbols f = Returned 0 out err) ∧ ∃ d, contents f = Ok d))) ∧
  (status r = "complete" → inspected r = discovered r) ∧
  (∀ label syms sym by_def by_imp p, (label, syms) ∈ groups r → (sym, (by_def, by_imp)) ∈ syms →
     (p ∈ by_imp ↔ ∃ out, readable_elf root p out ∧ symbol_in out sym "UND") ∧
     (p ∈ by_def ↔ ∃ out ndx, readable_elf root p out ∧ symbol_in out sym ndx ∧ ndx ≠ "UND")).
Proof.
  cbv zeta. unfold elf_report. cbn [status inspected discovered groups]. set (c := elf_candidates root).
  assert (match unreadable c ++ omap bad (elves c) with [] => "complete" | _ => "incomplete" end = "complete"
          ↔ unreadable c = [] ∧ omap bad (elves c) = []) as Hs.
  { rewrite <- app_nil. by destruct (unreadable c ++ omap bad (elves c)). }
  rewrite Hs. split; [|split].
  - by apply complete_spec.
  - intros [_ H2]. by apply all_good.
  - intros label syms sym by_def by_imp p (g & [= -> ->] & _)%list_elem_of_fmap (x & [= -> -> ->] & _)%list_elem_of_fmap.
    unfold c. rewrite !having_learnt, (learnt_symbols root true x p), (learnt_symbols root false x p). naive_solver.
Qed.

Lemma elf_report_exact_witness :
  let r := elf_report demo_targets (demo_root (Returned 0 demo_symbols "")) in
  status r = "complete" ∧ inspected r = discovered r ∧
  ∃ out, readable_elf (demo_root (Returned 0 demo_symbols "")) "/usr/a.so" out ∧ symbol_in out "gzwrite" "UND".
Proof.
  intros r. destruct (elf_report_exact demo_targets (demo_root (Returned 0 demo_symbols ""))) as (_ & H1 & H2).
  assert (status r = "complete") as Hc by (vm_compute; reflexivity). split; [exact Hc|]. split; [by apply H1|].
  apply (H2 "zlib: gz" [("gzwrite", ([], ["/usr/a.so"]))] "gzwrite" [] ["/usr/a.so"] "/usr/a.so").
  - vm_compute. left.
  - left.
  - left.
Defined.

(** [main]'s exit code for the two scans. *)
Definition INCOMPLETE_EXIT : Z := 3.
Definition scan_exit (st : string) (allow_incomplete : bool) : Z :=
  if bool_decide (st = "complete") || allow_incomplete then 0 else INCOMPLETE_EXIT.

(** *** Examples *)

Example demo_complete : elf_report demo_targets (demo_root (Returned 0 demo_symbols "")) =
  Report "complete" 2 1 1 [] [] [("zlib: gz", [("gzwrite", ([], ["/usr/a.so"]))]); ("glibc: iconv", [("iconv_open", (["/usr/a.so"], []))])]
    [("/usr/a.so", ["1.3.1"])] ["/usr/a.so"].
Proof. vm_compute. reflexivity. Qed.
(** A failed readelf leaves the tables empty and the report incomplete. *)
Example demo_incomplete : let r := elf_report demo_targets (demo_root (Returned 1 "" "bad  file")) in
  status r = "incomplete" ∧ unassessed r = [("/usr/a.so", "readelf exit 1: bad file")] ∧ scan_exit (status r) false = 3.
Proof. vm_compute. done. Qed.

End ElfScan.

(** * The scan of the installed distributions *)

Module PyScan.

(** The nodes [ast.walk] gives that the scan looks at. *)
Inductive ast_node :=
| Import (names : list string)
| ImportFrom (module : option string) (level : Z) (names : list string)
| Name (id : string) | Attribute (attr : string)
| Other.

Definition truthy (o : option string) : bool := match o with Some x => str_true x | None => false end.
(** [imported_modules]: a relative import names no top-level module. *)
Definition modules_of (n : ast_node) : list string :=
  match n with
  | Import names => names
  | ImportFrom (Some m) level names => if str_true m && (level =? 0) then m :: map (fun a => m +:+ "." +:+ a) names else []
  | _ => []
  end.
Definition imported_modules (tree : list ast_node) : list string := flat_map modules_of tree.
(** [matches] *)
Definition matches (module target : string) : bool := bool_decide (module = target) || Text.startswith (target +:+ ".") module.
Definition names_of (tree : list ast_node) : list string :=
  omap (fun n => match n with Name i => Some i | Attribute x => Some x | _ => None end) tree.

(** A file of a distribution: its path, its suffix, and its syntax tree or the exception that kept it from being parsed. *)
Record dist_file := DistFile { path : string; suffix : string; tree : result string (list ast_node) }.
Record dist := Dist { d_name : string; d_files : option (list dist_file) }.

Definition STDLIB_TARGETS : list string :=
  ["imaplib"; "poplib"; "http.cookies"; "zipfile"; "stringprep"; "encodings.idna"; "tarfile"; "base64"; "urllib.request"; "sqlite3"; "diskcache"].
Definition NAME_TARGETS : list string := ["HTTPPasswordMgr"; "LlamaDiskCache"; "set_cache"; "load_extension"].
(** Does the file use the target? *)
Definition uses (target : string) (t : list ast_node) : bool :=
  if bool_decide (target ∈ STDLIB_TARGETS) then existsb (fun m => matches m target) (imported_modules t)
  else bool_decide (target ∈ names_of t).

Record report := Report {
  status : string; parsed : nat; unparsed : list string; no_record : list string; native : list (string * Z);
  per_target : list (string * list (string * list string))
}.
(** The Python files of the distributions that have a record, with the distribution's name. *)
Definition python_files (ds : list dist) : list (string * dist_file) :=
  flat_map (fun d => match d_files d with
                     | Some fs => map (pair (d_name d)) (List.filter (fun f => bool_decide (suffix f = ".py")) fs)
                     | None => []
                     end) ds.
(** [d.setdefault(name, []).append(file)] *)
Definition add_file (name file : string) (d : list (string * list string)) : list (string * list string) :=
  dict_set name (default [] (dict_get name d) ++ [file]) d.
Definition files_using (target : string) (ds : list dist) : list (string * list string) :=
  fold_left (fun acc '(name, f) => match tree f with Ok t => if uses target t then add_file name (path f) acc else acc | Err _ => acc end)
    (python_files ds) [].
Definition unparsed_files (ds : list dist) : list string :=
  omap (fun '(name, f) => match tree f with Ok _ => None | Err e => Some (name +:+ ":" +:+ path f +:+ ": " +:+ e) end) (python_files ds).
Definition without_record (ds : list dist) : list string :=
  omap (fun d => match d_files d with None => Some (d_name d) | Some _ => None end) ds.
Definition native_files (ds : list dist) : list (string * Z) :=
  fold_left (fun acc name => dict_set name (default 0 (dict_get name acc) + 1) acc)
    (flat_map (fun d => match d_files d with
                        | Some fs => map (fun _ => d_name d) (List.filter (fun f => bool_decide (suffix f = ".so")) fs)
                        | None => []
                        end) ds) [].
(** [python_static], without the identity of the runtime libraries. *)
Definition python_static (ds : list dist) : report :=
  Report (match unparsed_files ds, without_record ds with [], [] => "complete" | _, _ => "incomplete" end)
    (length (omap (fun '(_, f) => match tree f with Ok t => Some t | Err _ => None end) (python_files ds)))
    (unparsed_files ds) (without_record ds)
    (Sql.order_by (fun a b => str_leb (fst a) (fst b)) (native_files ds))
    (map (fun t => (t, files_using t ds)) (STDLIB_TARGETS ++ NAME_TARGETS)).

(** ** What the report means *)

Lemma add_file_get name file d k : default [] (dict_get k (add_file name file d))
  = default [] (dict_get k d) ++ (if bool_decide (name = k) then [file] else []).
Proof.
  unfold add_file. case_bool_decide as E; [subst k; by rewrite dict_get_set_eq|]. rewrite dict_get_set_ne by done. by rewrite app_nil_r.
Qed.
Lemma fold_using target fs acc name file :
  file ∈ default [] (dict_get name (fold_left (fun acc '(name, f) => match tree f with
     | Ok t => if uses target t then add_file name (path f) acc else acc | Err _ => acc end) fs acc)) ↔
  file ∈ default [] (dict_get name acc) ∨ ∃ f t, (name, f) ∈ fs ∧ tree f = Ok t ∧ uses target t = true ∧ path f = file.
Proof.
  revert acc. induction fs as [|[n f] fs IH]; intros acc; cbn [fold_left].
  - split; [by left|]. intros [H|(f & t & H & _)]; [done|by apply not_elem_of_nil in H].
  - rewrite IH. setoid_rewrite elem_of_cons.
    assert (file ∈ default [] (dict_get name (match tree f with Ok t => if uses target t then add_file n (path f) acc else acc | Err _ => acc end)) ↔
            file ∈ default [] (dict_get name acc) ∨ (n = name ∧ ∃ t, tree f = Ok t ∧ uses target t = true ∧ path f = file)) as ->.
    { destruct (tree f) as [t|e]; [|split; [by left|by intros [H|(_ & t & [=] & _)]]].
      destruct (uses target t) eqn:U; [|split; [by left|intros [H|(_ & t' & [= <-] & H & _)]; [done|congruence]]].
      rewrite add_file_get, elem_of_app. case_bool_decide as E.
      - rewrite list_elem_of_singleton. split; [intros [H| ->]; eauto 6|intros [H|(_ & t' & _ & _ & <-)]; auto].
      - rewrite elem_of_nil. split; [intros [H|[]]; auto|intros [H|[H _]]; auto; done]. }
    split.
    + intros [[H|(-> & t & H)]|(g & t & H & H')]; [by left|right; exists f, t; auto|right; exists g, t; auto].
    + intros [H|(g & t & [[= -> ->]|H] & H')]; [auto|left; right; eauto|right; eauto].
Qed.
(** The Python scan calls itself complete exactly when every distribution has a record and every Python file of it was parsed; and a
    target lists a file under a distribution exactly when that file was parsed and uses the target. *)
Theorem python_static_exact ds : let r := python_static ds in
  (status r = "complete" ↔
     Forall (fun d => is_Some (d_files d)) ds ∧ ∀ name f, (name, f) ∈ python_files ds → ∃ t, tree f = Ok t) ∧
  (∀ target by_dist name file, (target, by_dist) ∈ per_target r →
     file ∈ default [] (dict_get name by_dist) ↔
     ∃ f t, (name, f) ∈ python_files ds ∧ tree f = Ok t ∧ uses target t = true ∧ path f = file).
Proof.
  cbv zeta. unfold python_static. cbn [status per_target]. split.
  - assert (match unparsed_files ds, without_record ds with [], [] => "complete" | _, _ => "incomplete" end = "complete"
            ↔ unparsed_files ds = [] ∧ without_record ds = []) as ->.
    { destruct (unparsed_files ds), (without_record ds); split; try done; by intros [? ?]. }
    rewrite <- !ElfScan.nil_iff. rewrite Forall_forall. split.
    + intros [H1 H2]. split.
      * intros d Hd. destruct (d_files d) eqn:E; [eauto|]. destruct (H2 (d_name d)). apply list_elem_of_omap. exists d. by rewrite E.
      * intros name f Hf. destruct (tree f) as [t|e] eqn:E; [eauto|]. destruct (H1 (name +:+ ":" +:+ path f +:+ ": " +:+ e)).
        apply list_elem_of_omap. exists (name, f). by rewrite E.
    + intros [H1 H2]. split.
      * intros x ([name f] & Hf & Hx)%list_elem_of_omap. destruct (H2 name f Hf) as [t E]. by rewrite E in Hx.
      * intros x (d & Hd & Hx)%list_elem_of_omap. destruct (H1 d Hd) as [fs E]. by rewrite E in Hx.
  - intros target by_dist name file (x & [= -> ->] & _)%list_elem_of_fmap. unfold files_using. rewrite fold_using.
    split; [intros [H|H]; [by apply not_elem_of_nil in H|done]|by right].
Qed.
(** [from urllib import request] is a use of [urllib.request]; a module whose name only begins alike, or a relative import, is not. *)
Example import_forms :
  uses "urllib.request" [ImportFrom (Some "urllib") 0 ["request"]] = true ∧ uses "tarfile" [Import ["tarfile.x"]] = true ∧
  uses "tarfile" [Import ["tarfiles"]] = false ∧ uses "tarfile" [ImportFrom (Some "tarfile") 1 ["open"]] = false ∧
  uses "set_cache" [Attribute "set_cache"] = true.
Proof. vm_compute. done. Qed.

End PyScan.

(** * The recorder *)

Module Recorder.

Definition AUDIT_EVENTS : list string :=
  ["subprocess.Popen"; "os.system"; "os.exec"; "os.posix_spawn"; "ctypes.dlopen"; "socket.getaddrinfo"; "sqlite3.connect";
   "sqlite3.enable_load_extension"; "sqlite3.load_extension"; "shutil.unpack_archive"; "urllib.Request"].
Definition startswith_any (ps : list string) (s : string) : bool := existsb (fun p => Text.startswith p s) ps.

(** [events], [details], [calls] and [origins]; sets are lists without duplicates. *)
Record t := Mk { events : list (string * Z); details : list (string * list string); calls : list (string * Z); origins : list (string * list string) }.
Definition init : t := Mk [] [] [] [].
Definition incr (k : string) (d : list (string * Z)) : list (string * Z) := dict_set k (default 0 (dict_get k d) + 1) d.
Definition set_add (x : string) (l : list string) : list string := if bool_decide (x ∈ l) then l else l ++ [x].
Definition add_to (k x : string) (d : list (string * list string)) : list (string * list string) :=
  dict_set k (set_add x (default [] (dict_get k d))) d.
(** [note]: at most five origins of a label; reading the default dictionary makes the entry. *)
Definition note (label origin : string) (r : t) : t :=
  let here := default [] (dict_get label (origins r)) in
  Mk (events r) (details r) (calls r)
    (if (length here <? 5)%nat then add_to label origin (origins r) else dict_set label here (origins r)).
(** An audit event; [first] and [two] are the texts of its first argument and of its first two, cut to 200 characters. *)
Record event := Event { name : string; first : string; two : string; from : string }.
(** [audit] *)
Definition audit (e : event) (r : t) : t :=
  if negb (startswith_any AUDIT_EVENTS (name e)) then r
  else
    let r := Mk (incr (name e) (events r)) (details r) (calls r) (origins r) in
    let r := if bool_decide (name e ∈ ["ctypes.dlopen"; "socket.getaddrinfo"; "sqlite3.connect"])
             then Mk (events r) (add_to (name e) (first e) (details r)) (calls r) (origins r)
             else if startswith_any ["subprocess"; "os."] (name e)
             then Mk (events r) (add_to (name e) (two e) (details r)) (calls r) (origins r)
             else r in
    if Text.startswith "sqlite3.connect" (name e) then r else note (name e) (from e) r.
(** A call of a wrapped function. *)
Definition counted (label origin : string) (r : t) : t :=
  note label origin (Mk (events r) (details r) (incr label (calls r)) (origins r)).

Inductive op := Audit (e : event) | Called (label origin : string) | Loaded (module origin : string).
Definition step (r : t) (o : op) : t :=
  match o with
  | Audit e => audit e r
  | Called l x => counted l x r
  | Loaded m x => note ("import " +:+ m) x r
  end.
Definition run (os : list op) : t := fold_left step os init.

(** ** What it keeps *)

Definition count (k : string) (d : list (string * Z)) : Z := default 0 (dict_get k d).
Lemma count_incr k k' d : count k (incr k' d) = count k d + (if bool_decide (k' = k) then 1 else 0).
Proof.
  unfold count, incr. case_bool_decide as E; [subst; by rewrite dict_get_set_eq|]. rewrite dict_get_set_ne by done. lia.
Qed.
Lemma set_add_length x l : (length (set_add x l) <= S (length l))%nat.
Proof. unfold set_add. case_bool_decide; rewrite ?length_app; simpl; lia. Qed.
Definition few (r : t) : Prop := ∀ l, (length (default [] (dict_get l (origins r))) <= 5)%nat.
Lemma note_few label x r : few r → few (note label x r).
Proof.
  intros H l. unfold note. cbn [origins]. destruct (Nat.ltb_spec (length (default [] (dict_get label (origins r)))) 5) as [L|L].
  - unfold add_to. destruct (decide (label = l)) as [->|N]; [|rewrite dict_get_set_ne by done; apply H].
    rewrite dict_get_set_eq. simpl. pose proof (set_add_length x (default [] (dict_get l (origins r)))). lia.
  - destruct (decide (label = l)) as [->|N]; [rewrite dict_get_set_eq; apply H|rewrite dict_get_set_ne by done; apply H].
Qed.
Lemma step_few r o : few r → few (step r o).
Proof.
  intros H. destruct o as [e|l x|m x]; simpl; [|by apply note_few..].
  unfold audit. destruct (negb _); [done|]. destruct (bool_decide _); [|destruct (startswith_any ["subprocess"; "os."] _)];
    (destruct (Text.startswith "sqlite3.connect" _); [exact H|by apply note_few]).
Qed.
Definition audited (k : string) (o : op) : bool :=
  match o with Audit e => bool_decide (name e = k) && startswith_any AUDIT_EVENTS (name e) | _ => false end.
Definition calls_of (k : string) (o : op) : bool := match o with Called l _ => bool_decide (l = k) | _ => false end.
Lemma note_counts label x r : events (note label x r) = events r ∧ calls (note label x r) = calls r.
Proof. done. Qed.
Lemma step_counts r o k :
  count k (events (step r o)) = count k (events r) + (if audited k o then 1 else 0) ∧
  count k (calls (step r o)) = count k (calls r) + (if calls_of k o then 1 else 0).
Proof.
  destruct o as [e|l x|m x]; cbn [step audited calls_of].
  - unfold audit. destruct (startswith_any AUDIT_EVENTS (name e)) eqn:S; cbn [negb]; [|rewrite andb_false_r; lia]. rewrite andb_true_r.
    destruct (bool_decide (name e ∈ _)); [|destruct (startswith_any ["subprocess"; "os."] _)];
      (destruct (Text.startswith "sqlite3.connect" _); cbn [events calls note]; rewrite count_incr; split; lia).
  - unfold counted. cbn [note events calls]. rewrite count_incr. lia.
  - cbn [note events calls]. lia.
Qed.
(** The record is faithful and small: every event of the list and every call of a wrapped function is counted once, whatever else happened,
    and at most five origins are kept for a label. *)
Theorem recorder_counts os k :
  count k (events (run os)) = Z.of_nat (length (List.filter (audited k) os)) ∧
  count k (calls (run os)) = Z.of_nat (length (List.filter (calls_of k) os)) ∧ few (run os).
Proof.
  assert (∀ r, let r' := fold_left step os r in
    count k (events r') = count k (events r) + Z.of_nat (length (List.filter (audited k) os)) ∧
    count k (calls r') = count k (calls r) + Z.of_nat (length (List.filter (calls_of k) os)) ∧ (few r → few r')) as H.
  { induction os as [|o os IH]; intros r; cbn [fold_left List.filter length]; [split; [lia|]; split; [lia|done]|].
    destruct (IH (step r o)) as (H1 & H2 & H3). destruct (step_counts r o k) as [C1 C2]. cbv zeta. rewrite H1, H2, C1, C2.
    split; [destruct (audited k o); simpl; lia|]. split; [destruct (calls_of k o); simpl; lia|]. intros H. by apply H3, step_few. }
  destruct (H init) as (H1 & H2 & H3). unfold run. rewrite H1, H2. split; [done|]. split; [done|]. apply H3. intros l. simpl. lia.
Qed.

End Recorder.

(** * The workload *)

Module AuditWorkload.

(** How a request and the reading of its response end, when they do: [urlopen] raises an [OSError] (a [URLError], a timeout), it raises another
    exception (an [http.client] one, by its class), or there is a response with its status, its body (or the class of what reading or parsing it
    raised) and its lines, up to the end of the response or to an exception.  A response that never ends is outside the model. *)
Inductive response :=
| Unreachable (exc : string)
| Raises (cls : string)
| Responds (status : Z) (body : result string Json.t) (lines : list string) (cut : option string).
Record request := Request { method : string; path : string; payload : option Json.t; auth : bool }.
(** [WorkloadFailure] with its message, and any other exception by its class. *)
Inductive failure := Failure (why : string) | Exception_ (cls : string).
Definition reason (f : failure) : string := match f with Failure w => w | Exception_ c => c end.

Section Session.
(** The server and the clock of the host, on a state [S]. *)
Context {S : Type} (server : request → S → S * response) (clock : S → Q) (sleep : S → S).
Context (json_loads : string → option Json.t).

Definition chk (A : Type) : Type := S → S * result failure A.
#[export] Instance chk_ret : MRet chk := fun A a s => (s, Ok a).
#[export] Instance chk_bind : MBind chk := fun A B k c s => match c s with (s, Ok a) => k a s | (s, Err e) => (s, Err e) end.
Definition fails {A} (f : failure) : chk A := fun s => (s, Err f).

Definition at_ (r : request) : string := method r +:+ " " +:+ path r.
(** [request]: an HTTP error is a response. *)
Definition send (r : request) : chk (Z * result string Json.t * (list string * option string)) := fun s =>
  match server r s with
  | (s, Unreachable exc) => (s, Err (Failure (at_ r +:+ ": " +:+ exc)))
  | (s, Raises cls) => (s, Err (Exception_ cls))
  | (s, Responds st body lines cut) => (s, Ok (st, body, (lines, cut)))
  end.
(** [json_ok] *)
Definition json_ok (r : request) : chk Json.t :=
  a ← send r;
  let '(st, body, _) := a in
  if negb (st =? 200) then fails (Failure (at_ r +:+ ": HTTP " +:+ Text.str_int st))
  else match body with Ok v => mret v | Err cls => fails (Exception_ cls) end.
(** The loop of [wait_status]: [None] when the fuel runs out before the deadline. *)
Fixpoint poll (fuel : nat) (r : request) (want : Z) (deadline : Q) (last : string) (s : S) : option (S * result failure ()) :=
  if negb (bool_decide (clock s < deadline)%Q) then Some (s, Err (Failure (at_ r +:+ " not " +:+ Text.str_int want +:+ " (" +:+ last +:+ ")")))
  else match fuel with
       | O => None
       | Datatypes.S n =>
           match server r s with
           | (s, Raises cls) => Some (s, Err (Exception_ cls))
           | (s, Responds st _ _ _) => if st =? want then Some (s, Ok ()) else poll n r want deadline ("HTTP " +:+ Text.str_int st) (sleep s)
           | (s, Unreachable exc) => poll n r want deadline (at_ r +:+ ": " +:+ exc) (sleep s)
           end
       end.
Definition wait_status (fuel : nat) (p : string) (want : Z) (within : Q) : S → option (S * result failure ()) := fun s =>
  poll fuel (Request "GET" p None false) want (clock s + within)%Q "no response" s.

(** [d.get(k)] and [d[k]] of a parsed value, with the exceptions of other types. *)
Definition dget (k : string) (v : Json.t) : chk (option Json.t) :=
  match Json.get k v with Some o => mret o | None => fails (Exception_ "AttributeError") end.
Definition dsub (k : string) (v : Json.t) : chk Json.t :=
  match v with
  | Json.JObj _ => match Json.get k v with Some (Some x) => mret x | _ => fails (Exception_ "KeyError") end
  | _ => fails (Exception_ "TypeError")
  end.
Definition first_of (v : Json.t) : chk Json.t :=
  match v with
  | Json.JArr (x :: _) => mret x
  | Json.JArr [] => fails (Exception_ "IndexError")
  | _ => fails (Exception_ "TypeError")
  end.
(** [len(x or "")] *)
Definition len_or_empty (o : option Json.t) : chk Z :=
  match o with
  | None => mret 0
  | Some v => if negb (Json.truthy v) then mret 0
              else match v with
                   | Json.JStr x => mret (Z.of_nat (String.length x))
                   | Json.JArr l => mret (Z.of_nat (length l))
                   | Json.JObj l => mret (Z.of_nat (length l))
                   | _ => fails (Exception_ "TypeError")
                   end
  end.
Definition truthy_of (o : option Json.t) : option Json.t := match o with Some v => if Json.truthy v then Some v else None | None => None end.
Definition ended (f : option Json.t) : bool := match f with Some v => Json.eq_str v "stop" || Json.eq_str v "length" | None => false end.

(** One chunk of [stream]: its content's length and its finish reason. *)
Definition chunk (data : string) : chk (Z * option Json.t) :=
  v ← (match json_loads data with Some v => mret v | None => fails (Exception_ "JSONDecodeError") end);
  cs ← dsub "choices" v;
  choice ← first_of cs;
  delta ← dget "delta" choice;
  content ← (match delta with Some d => dget "content" d | None => mret None end);
  n ← len_or_empty content;
  fin ← dget "finish_reason" choice;
  mret (n, truthy_of fin).
(** The payload of a line, when it is a data line. *)
Definition data_of (raw : string) : option string :=
  let line := Text.strip raw in
  if Text.startswith "data:" line then Some (Text.strip (String.substring 5 (String.length line - 5) line)) else None.
(** The loop of [stream]: chunks, characters, finish reason, and whether [DONE] came. *)
Fixpoint read_stream (ds : list string) (cut : option string) (chunks content : Z) (fin : option Json.t) : chk (Z * Z * option Json.t * bool) :=
  match ds with
  | [] => match cut with Some cls => fails (Exception_ cls) | None => mret (chunks, content, fin, false) end
  | d :: ds =>
      if bool_decide (d = "[DONE]") then mret (chunks, content, fin, true)
      else match fin with
           | Some _ => fails (Failure "stream: chunk after the finishing chunk")
           | None => c ← chunk d; read_stream ds cut (chunks + 1) (content + fst c) (snd c)
           end
  end.
Definition stream_request (model : string) : request :=
  Request "POST" "/v1/chat/completions"
    (Some (Json.JObj [("model", Json.JStr model); ("stream", Json.JBool true); ("max_tokens", Json.JInt 16);
                      ("messages", Json.JArr [Json.JObj [("role", Json.JStr "user"); ("content", Json.JStr "Count to three.")]])])) true.
Definition detail : Type := list (string * Json.t).
(** What the end of the stream must be. *)
Definition complete (x : Z * Z * option Json.t * bool) : chk detail :=
  let '(chunks, content, fin, done) := x in
  match fin with
  | Some f => if negb (content =? 0) && ended fin && done
              then mret [("chunks", Json.JInt chunks); ("content_chars", Json.JInt content); ("finish_reason", f)]
              else fails (Failure "stream incomplete")
  | None => fails (Failure "stream incomplete")
  end.
(** [stream] *)
Definition stream (model : string) : chk detail :=
  a ← send (stream_request model);
  let '(st, _, (lines, cut)) := a in
  if negb (st =? 200) then fails (Failure ("stream: HTTP " +:+ Text.str_int st))
  else x ← read_stream (omap data_of lines) cut 0 0 None; complete x.

(** The checks of [run]; the values quoted in the messages of a failure are left out. *)
Definition ok_status : detail := [("status", Json.JInt 200)].
Definition import_model (model_path model : string) : chk (string * detail) :=
  got ← json_ok (Request "POST" "/admin/models/import" (Some (Json.JObj [("path", Json.JStr model_path); ("name", Json.JStr model)])) true);
  st ← dget "status" got;
  id ← dget "id" got;
  sha ← dget "sha256" got;
  match st, truthy_of id with
  | Some v, Some i => if Json.eq_str v "ready" then mret (Json.str i, ok_status ++ [("model_status", Json.JStr "ready"); ("sha256", default Json.JNull sha)])
                      else fails (Failure "import: status")
  | _, _ => fails (Failure "import: status")
  end.
Definition said (model : string) : option Json.t :=
  Some (Json.JObj [("model", Json.JStr model); ("max_tokens", Json.JInt 8); ("messages", Json.JArr [Json.JObj [("role", Json.JStr "user"); ("content", Json.JStr "hi")]])]).
Definition chat (model : string) : chk detail :=
  got ← json_ok (Request "POST" "/v1/chat/completions" (said model) true);
  cs ← dsub "choices" got;
  choice ← first_of cs;
  message ← dsub "message" choice;
  text ← dsub "content" message;
  finish ← dsub "finish_reason" choice;
  match text with
  | Json.JStr x => if str_true x && ended (Some finish)
                   then mret (ok_status ++ [("content_chars", Json.JInt (Z.of_nat (String.length x))); ("finish_reason", finish)])
                   else fails (Failure "chat: finish")
  | _ => fails (Failure "chat: finish")
  end.
(** [get] reads the body and does not parse it. *)
Definition parse_errors : list string := ["JSONDecodeError"; "UnicodeDecodeError"].
Definition get (p : string) : chk detail :=
  a ← send (Request "GET" p None true);
  let '(st, body, _) := a in
  if st =? 200 then match body with Err cls => if bool_decide (cls ∈ parse_errors) then mret ok_status else fails (Exception_ cls) | Ok _ => mret ok_status end
  else fails (Failure ("GET " +:+ p +:+ ": HTTP " +:+ Text.str_int st)).

(** The text blocks of an Anthropic answer: iterating over a value that is no list raises, or gives no block for an empty one. *)
Fixpoint blocks (l : list Json.t) : chk (list Json.t) :=
  match l with
  | [] => mret []
  | b :: l =>
      ty ← dget "type" b;
      text ← (if match ty with Some v => Json.eq_str v "text" | None => false end then dget "text" b else mret None);
      rest ← blocks l;
      mret (match truthy_of text with Some x => x :: rest | None => rest end)
  end.
Definition items (v : Json.t) : chk (list Json.t) :=
  match v with
  | Json.JArr l => mret l
  | Json.JObj l => mret (map (fun p => Json.JStr (fst p)) l)
  | Json.JStr x => mret (map (fun c => Json.JStr (String c "")) (Crypto.chars x))
  | _ => fails (Exception_ "TypeError")
  end.
Fixpoint lengths (l : list Json.t) : chk Z :=
  match l with
  | [] => mret 0
  | x :: l => n ← len_or_empty (Some x); m ← lengths l; mret (n + m)
  end.
Definition stopped (o : option Json.t) : bool := match o with Some v => Json.eq_str v "end_turn" || Json.eq_str v "max_tokens" | None => false end.
Definition messages (model : string) : chk detail :=
  got ← json_ok (Request "POST" "/v1/messages" (said model) true);
  content ← dsub "content" got;
  l ← items content;
  bs ← blocks l;
  reason ← dget "stop_reason" got;
  match bs with
  | [] => fails (Failure "messages: stop_reason")
  | _ => if stopped reason
         then n ← lengths bs; mret (ok_status ++ [("content_chars", Json.JInt n); ("stop_reason", default Json.JNull reason)])
         else fails (Failure "messages: stop_reason")
  end.

(** [step]: an outcome is noted, whatever the check raised. *)
Record noted := Noted { step_name : string; ok : bool; what : detail }.
Definition note (name : string) (r : result failure detail) : noted :=
  match r with Ok d => Noted name true d | Err f => Noted name false [("reason", Json.JStr (reason f))] end.
Definition step (name : string) (c : chk detail) (s : S) : S * noted := let '(s, r) := c s in (s, note name r).
Fixpoint steps (l : list (string * chk detail)) (s : S) : S * list noted :=
  match l with
  | [] => (s, [])
  | (name, c) :: l => let '(s, n) := step name c s in let '(s, ns) := steps l s in (s, n :: ns)
  end.
Definition GET_ENDPOINTS : list string :=
  ["/admin/overview"; "/admin/system"; "/admin/models"; "/admin/keys"; "/metrics"; "/logs"; "/dashboard/"; "/version"; "/readyz"].
(** The check [load], with the id the import left, if any. *)
Definition load (fuel : nat) (id : option string) (within : Q) (s : S) : option (S * result failure detail) :=
  match id with
  | None => Some (s, Err (Failure "no imported model"))
  | Some i =>
      match json_ok (Request "POST" ("/admin/models/" +:+ i +:+ "/load") None true) s with
      | (s, Err e) => Some (s, Err e)
      | (s, Ok _) =>
          '(s, r) ← wait_status fuel "/readyz" 200 within s;
          Some (s, match r with Ok _ => Ok (ok_status ++ [("readyz", Json.JInt 200)]) | Err e => Err e end)
      end
  end.
(** The steps after the model is loaded. *)
Definition served (model : string) : list (string * chk detail) :=
  [("OpenAI chat completion", chat model); ("OpenAI streamed completion", stream model); ("Anthropic messages", messages model)]
  ++ map (fun p => ("GET " +:+ p, get p)) GET_ENDPOINTS.
(** [run]: the steps it noted; its verdict is [passed]. *)
Definition run (fuel : nat) (model_path model : string) (within : Q) (s : S) : option (S * list noted) :=
  '(s, up) ← wait_status fuel "/healthz" 200 within s;
  let '(s, imp) := import_model model_path model s in
  '(s, ld) ← load fuel (match imp with Ok (i, _) => Some i | Err _ => None end) within s;
  let '(s, rest) := steps (served model) s in
  Some (s, note "healthz" (match up with Ok _ => Ok [] | Err e => Err e end)
           :: note "import model" (match imp with Ok (_, d) => Ok d | Err e => Err e end)
           :: note "load model + ready" ld :: rest).
Definition passed (l : list noted) : bool := forallb ok l.

(** ** The run ends and reports every step *)

(** The clock of the host: a request does not turn it back, and [time.sleep(0.5)] advances it by half a second at least. *)
Definition clock_runs : Prop :=
  (∀ r s, (clock s <= clock (fst (server r s)))%Q) ∧ ∀ s, (clock s + (1 # 2) <= clock (sleep s))%Q.
Lemma poll_ends r want deadline n last s : clock_runs → (deadline <= clock s + (1 # 2) * inject_Z (Z.of_nat n))%Q →
  ∃ x, poll n r want deadline last s = Some x.
Proof.
  intros [Hr Hs]. revert last s. induction n as [|n IH]; intros last s Hd; cbn [poll].
  - rewrite bool_decide_false; [eauto|]. intros H. change (inject_Z (Z.of_nat 0)) with 0%Q in Hd. lra.
  - destruct (negb _); [eauto|]. pose proof (Hr r s) as H1. destruct (server r s) as [s1 a]. simpl in H1. pose proof (Hs s1) as H2.
    assert (∀ last, ∃ x, poll n r want deadline last (sleep s1) = Some x) as Hp.
    { intros l. apply IH. rewrite Nat2Z.inj_succ in Hd. unfold Z.succ in Hd. rewrite inject_Z_plus in Hd.
      change (inject_Z 1) with 1%Q in Hd. lra. }
    destruct a as [exc|cls|st body lines cut]; [apply Hp|eauto|]. destruct (st =? want); [eauto|apply Hp].
Qed.
Lemma wait_ends p want within s : clock_runs → ∃ x, wait_status (Z.to_nat (ceil (2 * within))) p want within s = Some x.
Proof.
  intros H. apply poll_ends; [done|]. unfold ceil.
  assert (2 * within <= inject_Z (Z.of_nat (Z.to_nat (Qceiling (2 * within)))))%Q as L.
  { eapply Qle_trans; [apply Qle_ceiling|]. rewrite <- Zle_Qle. lia. }
  lra.
Qed.
Lemma steps_names l s : map step_name (snd (steps l s)) = map fst l.
Proof.
  revert s. induction l as [|[name c] l IH]; intros s; [done|]. cbn [steps]. unfold step. destruct (c s) as [s1 r].
  specialize (IH s1). destruct (steps l s1) as [s2 ns]. simpl in *. rewrite IH. by destruct r.
Qed.
Definition STEPS : list string :=
  ["healthz"; "import model"; "load model + ready"; "OpenAI chat completion"; "OpenAI streamed completion"; "Anthropic messages"]
  ++ map (fun p => "GET " +:+ p) GET_ENDPOINTS.
(** When every request and its response end, whatever they end in, the workload reports each of the fifteen steps once, in order, whether or
    not the ones before it passed; each wait needs at most two polls a second. *)
Theorem workload_ends model_path model within s : clock_runs →
  ∃ s' l, run (Z.to_nat (ceil (2 * within))) model_path model within s = Some (s', l) ∧ map step_name l = STEPS.
Proof.
  intros H. unfold run. destruct (wait_ends "/healthz" 200 within s H) as [[s1 up] ->]. cbn [mbind option_bind].
  destruct (import_model model_path model s1) as [s2 imp].
  assert (∃ x, load (Z.to_nat (ceil (2 * within))) (match imp with Ok (i, _) => Some i | Err _ => None end) within s2 = Some x) as [[s3 ld] ->].
  { unfold load. destruct imp as [[i d]|e]; [|eauto]. destruct (json_ok _ s2) as [s3 [v|e]]; [|eauto].
    destruct (wait_ends "/readyz" 200 within s3 H) as [[s4 r] ->]. cbn [mbind option_bind]. eauto. }
  cbn [mbind option_bind]. pose proof (steps_names (served model) s3) as Hn. destruct (steps (served model) s3) as [s4 rest].
  simpl in Hn. eexists _, _. split; [reflexivity|]. simpl. rewrite Hn. by destruct up, imp as [[]|], ld.
Qed.

(** ** What an accepted stream is *)

Lemma bind_ok {A B} (c : chk A) (k : A → chk B) s s' b : (c ≫= k) s = (s', Ok b) → ∃ s1 a, c s = (s1, Ok a) ∧ k a s1 = (s', Ok b).
Proof. unfold mbind, chk_bind. destruct (c s) as [s1 [a|e]]; [eauto|done]. Qed.
(** The chunks read one after the other: characters and the finish reason of the last. *)
Inductive chunked : list string → Z → option Json.t → Prop :=
| chunked_last d s s' n f : chunk d s = (s', Ok (n, f)) → chunked [d] n f
| chunked_more d s s' n ds m f : chunk d s = (s', Ok (n, None)) → chunked ds m f → chunked (d :: ds) (n + m) f.
Lemma read_stream_ok ds cut chunks content s s' chunks' content' fin : read_stream ds cut chunks content None s = (s', Ok (chunks', content', Some fin, true)) →
  ∃ ps rest, ds = ps ++ "[DONE]" :: rest ∧ chunked ps (content' - content) (Some fin) ∧ chunks' = chunks + Z.of_nat (length ps).
Proof.
  revert chunks content s. induction ds as [|d ds IH]; intros chunks content s; cbn [read_stream]; [by destruct cut|].
  case_bool_decide as D; [done|]. intros (s1 & [n f] & C & R)%bind_ok. simpl in R. destruct f as [v|].
  - destruct ds as [|d2 ds]; cbn [read_stream] in R; [by destruct cut|]. case_bool_decide as D2; [|done].
    injection R as <- <- <- <-. exists [d], ds. subst d2. split; [done|]. split; [|simpl; lia].
    replace (content + n - content) with n by lia. by eapply chunked_last.
  - apply IH in R as (ps & rest & -> & H & ->). exists (d :: ps), rest. split; [done|]. split; [|simpl; lia].
    replace (content' - content) with (n + (content' - (content + n))) by lia. by eapply chunked_more.
Qed.
(** The streamed completion passes only for a stream that is whole: its data lines are chunks, of which the last and only the last has a finish
    reason, [stop] or [length], then [DONE]; some of them carry text, and the counts reported are theirs. *)
Theorem stream_whole model s s' d : stream model s = (s', Ok d) →
  ∃ lines ps rest n fin body cut, omap data_of lines = ps ++ "[DONE]" :: rest ∧ chunked ps n (Some fin) ∧ n ≠ 0 ∧ ended (Some fin) = true ∧
    snd (server (stream_request model) s) = Responds 200 body lines cut ∧
    d = [("chunks", Json.JInt (Z.of_nat (length ps))); ("content_chars", Json.JInt n); ("finish_reason", fin)].
Proof.
  intros (s1 & [[st body] [lines cut]] & A & R)%bind_ok. unfold send in A. destruct (server (stream_request model) s) as [s0 a] eqn:V.
  destruct a as [exc|cls|st' body' lines' cut']; [done|done|]. injection A as -> -> -> -> ->.
  destruct (Z.eqb_spec st 200) as [->|N]; cbn [negb] in R; [|done].
  apply bind_ok in R as (s2 & [[[chunks content] fin] dn] & R & C). unfold complete in C. destruct fin as [f|]; [|done].
  destruct (negb (content =? 0) && ended (Some f) && dn) eqn:E; [|done].
  apply andb_true_iff in E as [[E1%negb_true_iff%Z.eqb_neq E2]%andb_true_iff ->]. injection C as _ <-.
  apply read_stream_ok in R as (ps & rest & Hds & H & ->). rewrite Z.sub_0_r in H.
  exists lines, ps, rest, content, f, body, cut. split_and!; done.
Qed.
End Session.

(** ** Examples *)

Definition demo_loads (d : string) : option Json.t :=
  let choice c f := Some (Json.JObj [("choices", Json.JArr [Json.JObj [("delta", Json.JObj [("content", Json.JStr c)]); ("finish_reason", f)]])]) in
  if bool_decide (d = "A") then choice "one" Json.JNull else if bool_decide (d = "B") then choice "" (Json.JStr "stop") else None.
Definition demo_server (lines : list string) (r : request) (now : Q) : Q * response := (now, Responds 200 (Err "JSONDecodeError") lines None).
Definition demo_sleep (now : Q) : Q := (now + (1 # 2))%Q.
Lemma workload_ends_witness :
  ∃ s' l, run (demo_server []) id demo_sleep demo_loads 240 "/m.gguf" "audit" 120 0%Q = Some (s', l) ∧ map step_name l = STEPS.
Proof.
  apply (workload_ends (demo_server []) id demo_sleep demo_loads "/m.gguf" "audit" 120 0%Q). split; intros; simpl; [apply Qle_refl|].
  unfold demo_sleep. simpl. apply Qle_refl.
Defined.
Lemma stream_whole_witness :
  ∃ lines ps rest n fin, omap data_of lines = ps ++ "[DONE]" :: rest ∧ chunked (S:=Q) demo_loads ps n (Some fin) ∧ n ≠ 0 ∧ ended (Some fin) = true.
Proof.
  destruct (stream_whole (demo_server ["data: A"; ""; ": ping"; "data: B"; "data: [DONE]"]) demo_loads "m" 0%Q 0%Q
    [("chunks", Json.JInt 2); ("content_chars", Json.JInt 3); ("finish_reason", Json.JStr "stop")])
    as (lines & ps & rest & n & fin & body & cut & H1 & H2 & H3 & H4 & _); [vm_compute; reflexivity|].
  exists lines, ps, rest, n, fin. by split_and!.
Defined.
(** A chunk after the finishing one, and a stream without its end, are refused. *)
Example stream_refused :
  snd (stream (demo_server ["data: A"; "data: B"; "data: A"; "data: [DONE]"]) demo_loads "m" 0%Q) = Err (Failure "stream: chunk after the finishing chunk") ∧
  snd (stream (demo_server ["data: A"; "data: B"]) demo_loads "m" 0%Q) = Err (Failure "stream incomplete").
Proof. vm_compute. done. Qed.

End AuditWorkload.
