(* ===== verification/ModelViews.v ===== *)
(** * The model listing ([api/models_router.py], [models/service.py])

    [Module ModelViews]: [_serialize] and the two routes that show models, over the registry, the redactor and the compatibility verdict.
    The text of a source and of an error is what the redactor leaves of it; the theorem follows it through the listing. *)

From S2P Require Import Prelude Crypto Text Sql Gguf Models ModelLifecycle Redaction.

Open Scope Z_scope.

Module ModelViews.
Import ModelRegistry ModelService ModelsRouter.

(** What a response shows of a model. *)
Record shown := Shown {
  v_id : string; v_name : Gguf.text; v_filename : string; v_source_type : string; v_source_ref : option Str.t; v_sha256 : option string;
  v_size : option Z; v_downloaded : Z; v_progress : option Q; v_quant : option string; v_arch : option Gguf.text; v_context : option Z;
  v_status : ModelStatus; v_error : option Str.t; v_active : bool; v_loaded : bool; v_added : string; v_compat : Compat.Compat
}.

Section Views.
(** The parameters of the redactor: [str.lower], the host checks of [urlsplit] and the slashes of an empty host in [urlunsplit]. *)
Context (lower : Str.t → Str.t) (netloc_ok : Str.t → bool) (empty_slashes : Str.t → Str.t → bool).
Context (h : Compat.host).

(** [compat_for] *)
Definition compat_for (r : ModelRecord) : Compat.Compat :=
  Compat.assess h (size_bytes r) (bool_decide (status r = READY) || bool_decide (is_Some (arch r))).
(** [_serialize] *)
Definition serialize (a : app) (r : ModelRecord) : shown :=
  Shown (id r) (name r) (filename r) (source_type r)
    (Redaction.redact_source_ref lower netloc_ok empty_slashes (Str.lit <$> source_ref r))
    (sha256 r) (size_bytes r) (downloaded_bytes r) (progress r) (quant r) (arch r) (context_length r) (status r)
    (Redaction.redact_urls_in_text lower netloc_ok empty_slashes (Str.lit <$> error r))
    (active r) (is_loaded a r) (added_at r) (compat_for r).
(** [list_models] and [get_model], after their gate. *)
Definition list_models (a : app) : list shown := map (serialize a) (list_ (models (service a))).
Definition get_model (a : app) (model_id : string) : result http_error shown :=
  match require a model_id with Ok r => Ok (serialize a r) | Err e => Err e end.

(** ** What a listing cannot tell apart *)

(** Sources that differ in the values of credential-bearing query parameters only. *)
Inductive same_source : option string → option string → Prop :=
| source_same x : same_source x x
| source_query x y base q1 q2 :
    Str.lit x = base ++ 63 :: q1 → Str.lit y = base ++ 63 :: q2 → Str.contains (Str.lit "://") base = true →
    Str.mem 63 base = false → Str.mem 35 base = false → Redaction.query_text q1 = true → Redaction.query_text q2 = true →
    Redaction.public lower q1 = Redaction.public lower q2 → same_source (Some x) (Some y).
(** Errors that differ in the userinfo of a URL. *)
Inductive same_error : option string → option string → Prop :=
| error_same x : same_error x x
| error_userinfo x y pre ui post :
    Str.lit x = pre ++ Redaction.colon_slashes ++ ui ++ 64 :: post → Str.lit y = pre ++ Redaction.colon_slashes ++ post →
    forallb (fun c => negb (Redaction.userinfo_stop c)) ui = true → same_error (Some x) (Some y).
Definition blank (r : ModelRecord) : ModelRecord :=
  Model (id r) (name r) (filename r) (path r) (source_type r) None (sha256 r) (expected_sha256 r) (size_bytes r) (downloaded_bytes r) (quant r)
    (arch r) (context_length r) (status r) None (active r) (added_at r) (updated_at r).
Definition twins (r r' : ModelRecord) : Prop :=
  blank r = blank r' ∧ same_source (source_ref r) (source_ref r') ∧ same_error (error r) (error r').

Lemma prefix_app p b c : Str.prefix p b = true → Str.prefix p (b ++ c) = true.
Proof.
  revert b. induction p as [|x p IH]; intros b H; [done|]. destruct b as [|y b]; [done|]. simpl in *.
  apply andb_true_iff in H as [-> H]. by apply IH.
Qed.
Lemma contains_app p b c : Str.contains p b = true → Str.contains p (b ++ c) = true.
Proof.
  induction b as [|y b IH]; cbn [Str.contains Datatypes.app]; intros [H|H]%orb_true_iff; try done.
  - destruct p; [|done]. by destruct c.
  - apply orb_true_iff. left. by apply (prefix_app p (y :: b)).
  - apply orb_true_iff. right. by apply IH.
Qed.
Lemma source_hidden x y : same_source x y →
  Redaction.redact_source_ref lower netloc_ok empty_slashes (Str.lit <$> x) = Redaction.redact_source_ref lower netloc_ok empty_slashes (Str.lit <$> y).
Proof.
  intros [z|u v base q1 q2 E1 E2 Hc H1 H2 Hq1 Hq2 Hp]; [done|]. cbn [fmap option_fmap option_map Redaction.redact_source_ref].
  rewrite E1, E2, !contains_app by done. rewrite !bool_decide_false by (by destruct base). cbn [negb orb]. f_equal.
  by apply Redaction.redact_url_query.
Qed.
Lemma error_hidden x y : same_error x y →
  Redaction.redact_urls_in_text lower netloc_ok empty_slashes (Str.lit <$> x) = Redaction.redact_urls_in_text lower netloc_ok empty_slashes (Str.lit <$> y).
Proof.
  intros [z|u v pre ui post E1 E2 Hu]; [done|]. cbn [fmap option_fmap option_map Redaction.redact_urls_in_text].
  rewrite E1, E2. rewrite !bool_decide_false by (by destruct pre). f_equal.
  unfold Redaction.MAX_NESTING. cbn [Redaction.redact_text]. unfold Redaction.redact_once at 1 3. by rewrite Redaction.strip_userinfo_at.
Qed.
Lemma serialize_twins a a' r r' : state_backend a = state_backend a' → twins r r' → serialize a r = serialize a' r'.
Proof.
  intros Hb (E & Hs & He). unfold serialize, is_loaded, compat_for. rewrite Hb, (source_hidden _ _ Hs), (error_hidden _ _ He).
  destruct r, r'. unfold blank in E. simpl in E. injection E as -> -> -> -> -> -> -> -> -> -> -> -> -> -> -> ->. done.
Qed.

(** No listing shows a credential of a model's source or of its error: registries whose rows differ in the values of credential-bearing
    parameters of a source, or in the userinfo of a URL in an error, give the same listing. *)
Theorem listing_hides_credentials a a' : state_backend a = state_backend a' →
  Forall2 twins (models (service a)) (models (service a')) → list_models a = list_models a'.
Proof.
  intros Hb Ht. unfold list_models, list_.
  assert (Forall2 twins (Sql.order_by (fun a b => str_leb (added_at a) (added_at b)) (models (service a)))
                        (Sql.order_by (fun a b => str_leb (added_at a) (added_at b)) (models (service a')))) as H.
  { apply Sql.order_by_Forall2; [|done]. intros x x' y y' [E _] [E' _].
    by rewrite (f_equal added_at E : added_at x = added_at x'), (f_equal added_at E' : added_at y = added_at y'). }
  induction H as [|r r' l l' Hr Hl IH]; [done|]. cbn [map]. by rewrite IH, (serialize_twins a a' r r').
Qed.
End Views.
End ModelViews.
