(* ===== verification/LiveFeed.v ===== *)
(** * The live feed and the metrics sampler ([telemetry/service.py])

    [Module LiveFeed]: the feed helpers, [publish_snapshot] and the loop of the sampler task, over the event bus, the snapshot builder and the
    start and stop of the sampler.  The theorem is about any interleaving of request handlers, sampler turns, starts, stops and consumers. *)

From S2P Require Import Prelude Crypto Text Sql Placement Admission Telemetry Observability Operability Sensors HostSensors OperatorViews.

Open Scope Z_scope.

Module LiveFeed.
#[local] Existing Instance EventBus.EventChannel_eq_dec.

(** The calls the request handlers make. *)
Inductive call :=
| Start (request_id endpoint : string) (model : option string) (key_id : string)
| Progress (request_id : string) (tokens : Z)
| End_ (request_id : string) (model : option string) (prompt_tokens completion_tokens : Z) (finish_reason : string) (ttft_ms total_ms : option Q)
| Error (request_id category endpoint : string) (model : option string)
| Rejected (request_id endpoint reason : string) (retry_after_s : Z).

Definition opt_str (o : option string) : Json.t := match o with Some s => Json.JStr s | None => Json.JNull end.

Section Feed.
(** A number as a value of the payload, Python's rounding to one digit, and the mapping [build_snapshot] returns. *)
Context (json : Q → Json.t) (round1 : Q → Q) (as_data : Snapshots.snapshot_t → list (string * Json.t)).

Definition millis (o : option Q) : Json.t := match o with Some q => json (round1 q) | None => Json.JNull end.

Definition request_start (request_id endpoint : string) (model : option string) (key_id : string) : EventBus.EventType * list (string * Json.t) :=
  (EventBus.RequestStart,
   [("request_id", Json.JStr request_id); ("endpoint", Json.JStr endpoint); ("model", opt_str model); ("key_id", Json.JStr key_id)]).
Definition request_progress (request_id : string) (tokens : Z) : EventBus.EventType * list (string * Json.t) :=
  (EventBus.RequestProgress, [("request_id", Json.JStr request_id); ("tokens", Json.JInt tokens)]).
Definition request_end (request_id : string) (model : option string) (prompt_tokens completion_tokens : Z) (finish_reason : string)
  (ttft_ms total_ms : option Q) : EventBus.EventType * list (string * Json.t) :=
  (EventBus.RequestEnd,
   [("request_id", Json.JStr request_id); ("model", opt_str model); ("prompt_tokens", Json.JInt prompt_tokens);
    ("completion_tokens", Json.JInt completion_tokens); ("finish_reason", Json.JStr finish_reason); ("ttft_ms", millis ttft_ms);
    ("total_ms", millis total_ms)]).
Definition request_error (request_id category endpoint : string) (model : option string) : EventBus.EventType * list (string * Json.t) :=
  (EventBus.RequestError,
   [("request_id", Json.JStr request_id); ("category", Json.JStr category); ("endpoint", Json.JStr endpoint); ("model", opt_str model)]).
Definition request_rejected (request_id endpoint reason : string) (retry_after_s : Z) : EventBus.EventType * list (string * Json.t) :=
  (EventBus.RequestRejected,
   [("request_id", Json.JStr request_id); ("endpoint", Json.JStr endpoint); ("reason", Json.JStr reason); ("retry_after_s", Json.JInt retry_after_s)]).
Definition event_of (c : call) : EventBus.EventType * list (string * Json.t) :=
  match c with
  | Start r e m k => request_start r e m k
  | Progress r n => request_progress r n
  | End_ r m p c f ttft total => request_end r m p c f ttft total
  | Error r c e m => request_error r c e m
  | Rejected r e w a => request_rejected r e w a
  end.

(** The telemetry service: its bus, what its snapshots advance, and its sampler task. *)
Record t := Mk { bus : EventBus.t; tele : Snapshots.telemetry; task : TelemetryService.sampler }.
Definition init (h : nat) (q : Z) (x : Snapshots.telemetry) : t := Mk (EventBus.init h q) x (TelemetryService.Sampler None [] 0).

(** [feed] at the instant [now]. *)
Definition feed (c : call) (now : Q) (s : t) : t :=
  let '(ty, data) := event_of c in
  Mk (EventBus.publish EventBus.FEED (EventBus.MkEvent ty data now) (bus s)) (tele s) (task s).

(** What one sampler turn reads: the sensors, the backend, the scheduler and the clock of the event. *)
Record reads := Reads { sensors : Snapshots.sensors; backend : option BackendRegistry.backend; sched : option Scheduler.t; at_ : Q }.
Definition metrics_event (v : Snapshots.snapshot_t) (now : Q) : EventBus.Event := EventBus.MkEvent EventBus.Metrics (as_data v) now.
(** [publish_snapshot]: nothing is published when a reading raises. *)
Definition publish_snapshot (x : reads) (s : t) : t * result exn Snapshots.snapshot_t :=
  let '(tl, r) := Snapshots.build_snapshot (sensors x) (backend x) (sched x) (tele s) in
  match r with
  | Ok v => (Mk (EventBus.publish EventBus.METRICS (metrics_event v (at_ x)) (bus s)) tl (task s), Ok v)
  | Err e => (Mk (bus s) tl (task s), Err e)
  end.
(** One turn of [_run]: an exception is dropped, and the loop sleeps and goes on. *)
Definition run_turn (x : reads) (s : t) : t := fst (publish_snapshot x s).

(** ** Interleavings *)

Inductive label :=
| Call (c : call) (now : Q)
| Turn (i : nat) (x : reads)
| Task (o : TelemetryService.op)
| Consumer (l : EventBus.label).
Definition consumes (l : EventBus.label) : bool := match l with EventBus.Publish _ _ => false | _ => true end.
Definition exec (l : label) (s : t) : option t :=
  match l with
  | Call c now => Some (feed c now s)
  | Turn i x => if bool_decide (i ∈ TelemetryService.live (task s)) then Some (run_turn x s) else None
  | Task o => Some (Mk (bus s) (tele s) (TelemetryService.exec o (task s)))
  | Consumer l => if consumes l then b ← EventBus.exec l (bus s); Some (Mk b (tele s) (task s)) else None
  end.
Fixpoint run (ls : list label) (s : t) : option t :=
  match ls with [] => Some s | l :: ls' => s' ← exec l s; run ls' s' end.

(** The events a trace should publish: the calls in order, and the snapshots that could be taken. *)
Definition fed (ls : list label) : list EventBus.Event :=
  omap (fun l => match l with Call c now => let '(ty, d) := event_of c in Some (EventBus.MkEvent ty d now) | _ => None end) ls.
Fixpoint sampled (ls : list label) (tl : Snapshots.telemetry) : list EventBus.Event :=
  match ls with
  | [] => []
  | Turn _ x :: ls' =>
      let '(tl', r) := Snapshots.build_snapshot (sensors x) (backend x) (sched x) tl in
      match r with Ok v => [metrics_event v (at_ x)] | Err _ => [] end ++ sampled ls' tl'
  | _ :: ls' => sampled ls' tl
  end.
Definition ops (ls : list label) : list TelemetryService.op := omap (fun l => match l with Task o => Some o | _ => None end) ls.

Lemma published_publish c c' e b :
  EventBus.published (EventBus.publish c e b) c' = EventBus.published b c' ++ (if bool_decide (c' = c) then [e] else []).
Proof. simpl. unfold EventBus.set_channel. case_bool_decide; subst; [done|]. by rewrite app_nil_r. Qed.
Lemma published_consumer l b b' : consumes l = true → EventBus.exec l b = Some b' → EventBus.published b' = EventBus.published b.
Proof.
  destruct l as [i c r|c e|i|i]; simpl; intros C E; [| done | |]; destruct (EventBus.consumers b !! i) as [k|]; try done.
  - by injection E as <-.
  - cbn in E. destruct (EventBus.resume b k); [|done]. by injection E as <-.
  - by injection E as <-.
Qed.

Record step_ok h q (l : label) (s s' : t) : Prop := StepOk {
  o_fed : EventBus.published (bus s') EventBus.FEED = EventBus.published (bus s) EventBus.FEED ++ fed [l];
  o_sampled : EventBus.published (bus s') EventBus.METRICS = EventBus.published (bus s) EventBus.METRICS ++ sampled [l] (tele s);
  o_rest : ∀ ls, sampled (l :: ls) (tele s) = sampled [l] (tele s) ++ sampled ls (tele s');
  o_task : task s' = fold_left (fun s o => TelemetryService.exec o s) (ops [l]) (task s);
  o_bus : EventBus.reachable h q (bus s) → EventBus.reachable h q (bus s')
}.
Lemma exec_step_ok h q l s s' : exec l s = Some s' → step_ok h q l s s'.
Proof.
  destruct l as [c now|i x|o|l]; simpl; intros E.
  - injection E as <-. unfold feed. destruct (event_of c) as [ty d] eqn:Ec.
    split; cbn [fed sampled ops omap list_omap bus tele task fold_left]; rewrite ?Ec, ?published_publish, ?app_nil_r; try done.
    intros R. by apply (EventBus.reach_step h q (EventBus.Publish EventBus.FEED (EventBus.MkEvent ty d now)) (bus s)).
  - case_bool_decide; [|done]. injection E as <-. unfold run_turn, publish_snapshot.
    destruct (Snapshots.build_snapshot _ _ _ _) as [tl r] eqn:Eb.
    destruct r as [v|e]; split; cbn [fst fed sampled ops omap list_omap bus tele task fold_left]; rewrite ?Eb, ?published_publish, ?app_nil_r; try done.
    intros R. by apply (EventBus.reach_step h q (EventBus.Publish EventBus.METRICS (metrics_event v (at_ x))) (bus s)).
  - injection E as <-. by split; cbn [fed sampled ops omap list_omap bus tele task fold_left]; rewrite ?app_nil_r.
  - destruct (consumes l) eqn:C; [|done]. destruct (EventBus.exec l (bus s)) as [b|] eqn:Eb; [|done]. injection E as <-.
    split; cbn [fed sampled ops omap list_omap bus tele task fold_left]; rewrite ?app_nil_r; try (by rewrite (published_consumer l _ _ C Eb)); try done.
    intros R. by eapply EventBus.reach_step.
Qed.

Lemma live_reachable h q ls s s' : EventBus.reachable h q (bus s) → run ls s = Some s' → EventBus.reachable h q (bus s').
Proof.
  revert s. induction ls as [|l ls IH]; intros s R E; [by injection E as <-|]. simpl in E. destruct (exec l s) as [s1|] eqn:E1; [|done].
  eapply IH; [|exact E]. by eapply o_bus; [eapply exec_step_ok|].
Qed.

(** The live feed is exact in every interleaving of request handlers, sampler turns, starts, stops and consumers: the feed channel
    has published the handlers' events, all of them and in their order, and the metrics channel the snapshots that could be taken; a turn whose
    readings raise publishes nothing and ends neither the sampler nor a consumer; the sampler only ever starts and ends by its own operations; and the
    bus is in a state the guarantees of its consumers hold in. *)
Theorem feed_composed h q x ls s : run ls (init h q x) = Some s →
  EventBus.published (bus s) EventBus.FEED = fed ls ∧
  EventBus.published (bus s) EventBus.METRICS = sampled ls x ∧
  task s = fold_left (fun s o => TelemetryService.exec o s) (ops ls) (TelemetryService.Sampler None [] 0) ∧
  EventBus.reachable h q (bus s).
Proof.
  intros E.
  enough (∀ s0, run ls s0 = Some s →
    EventBus.published (bus s) EventBus.FEED = EventBus.published (bus s0) EventBus.FEED ++ fed ls ∧
    EventBus.published (bus s) EventBus.METRICS = EventBus.published (bus s0) EventBus.METRICS ++ sampled ls (tele s0) ∧
    task s = fold_left (fun s o => TelemetryService.exec o s) (ops ls) (task s0)) as H.
  { destruct (H _ E) as (H1 & H2 & H3). split_and!; [done..|]. eapply live_reachable; [|exact E]. apply EventBus.reach_init. }
  clear E. induction ls as [|l ls IH]; intros s0 E.
  - injection E as <-. cbn [fed sampled ops omap list_omap fold_left]. by rewrite !app_nil_r.
  - simpl in E. destruct (exec l s0) as [s1|] eqn:E1; [|done]. destruct (exec_step_ok h q _ _ _ E1) as [F S O T _].
    destruct (IH s1 E) as (I1 & I2 & I3). rewrite O, I1, I2, I3, F, S, T, <-!app_assoc.
    split_and!; [|done|].
    + f_equal. change (l :: ls) with ([l] ++ ls). unfold fed. by rewrite omap_app.
    + change (l :: ls) with ([l] ++ ls). unfold ops. by rewrite omap_app, fold_left_app.
Qed.
End Feed.

(** A request is fed while the sampler samples: its second turn meets a data directory that may not be searched. *)
Definition demo_reads (closed : bool) : reads :=
  Reads (Snapshots.Sensors_ 10 ResourceSampler.demo (ResourceSampler.demo_host closed) (fun _ => None) 10 (fun _ q => q)) None None 10.
Definition demo_tele : Snapshots.telemetry := Snapshots.Telemetry_ (Counters.init 0) TelemetryService.init (PowerProbe.init []).
Definition demo_data (v : Snapshots.snapshot_t) : list (string * Json.t) :=
  [("requests_total", Json.JInt (Counters.s_total (Snapshots.counts v)))].
Definition demo : list label :=
  [Task TelemetryService.Start; Turn 0 (demo_reads false); Call (Start "r1" "/v1/chat/completions" None "k1") 11;
   Consumer (EventBus.Subscribe 0 EventBus.FEED true); Turn 0 (demo_reads true); Turn 0 (demo_reads false); Call (Progress "r1" 8) 12;
   Consumer (EventBus.Resume 0); Task TelemetryService.Stop].
Lemma feed_composed_witness :
  ∃ s, run (fun _ => Json.JNull) id demo_data demo (init 4 8 demo_tele) = Some s ∧
    length (EventBus.published (bus s) EventBus.FEED) = 2%nat ∧ length (EventBus.published (bus s) EventBus.METRICS) = 2%nat ∧
    TelemetryService.live (task s) = [].
Proof.
  destruct (run (fun _ => Json.JNull) id demo_data demo (init 4 8 demo_tele)) as [s|] eqn:E;
    [|exfalso; revert E; vm_compute; discriminate].
  exists s. split; [done|]. destruct (feed_composed (fun _ => Json.JNull) id demo_data 4 8 demo_tele demo s E) as (-> & -> & -> & _).
  vm_compute. done.
Defined.
End LiveFeed.
