(* ===== verification/LocalBackend.v ===== *)
(** * The local llama.cpp backend ([inference/llamacpp.py], [inference/threaded.py])

    [Module LocalBackend]: the hooks [LlamaCppBackend] gives the threaded backend, with the model object [_llm] they share.  The hooks run in the executor,
    so their effects fall between the halves of [load] and [unload]; [_count_prompt_tokens] runs in [generate] itself. *)

From S2P Require Import Prelude Crypto Text Placement Stream Backend Requests Backends.

Open Scope Z_scope.

Module LocalBackend.
Import BackendRegistry.
#[local] Existing Instance ThreadedBackend.BackendState_eq_dec.

(** What [__init__] keeps. *)
Record config := Config { model_path : string; cfg_model_id : string; n_ctx : Z; n_threads : option Z; n_gpu_layers : Z }.

(** What the hooks meet: the file system, the optional package, and the constructor and tokenizer of the binding.  A model object is a number. *)
Inductive package := Missing | Broken | Installed.
Record world := World {
  is_file : string → bool;
  llama_cpp : package;
  has_grammar : bool;                       (* [from llama_cpp import LlamaGrammar] *)
  Llama : config → option nat;              (* [None] when the constructor raises *)
  tokenize : nat → string → option (list Z) (* [None] when it raises *)
}.

(** [_load]: the model object, or why there is none. *)
Inductive load_error := FileNotFound | NotInstalled | Raised.
Definition load_hook (c : config) (w : world) : result load_error nat :=
  if negb (is_file w (model_path c)) then Err FileNotFound
  else match llama_cpp w with
       | Missing => Err NotInstalled
       | Broken => Err Raised
       | Installed => match Llama w c with Some m => Ok m | None => Err Raised end
       end.

(** [_structured_output_supported] and [_capabilities] *)
Definition structured_output_supported (w : world) : bool :=
  match llama_cpp w with Installed => has_grammar w | _ => false end.
Definition capabilities_hook (c : config) (w : world) : Capabilities :=
  Caps (cfg_model_id c) (n_ctx c) (structured_output_supported w) false.

(** [_count_prompt_tokens]: [None] for any exception, the failed assertion included. *)
Definition count_prompt_tokens (llm : option nat) (w : world) (r : GenerationRequest.t) : option Z :=
  m ← llm; ts ← tokenize w m (GenerationRequest.prompt_text r); Some (Z.of_nat (length ts)).

(** The backend: the threaded one, the model object, and the jobs in the executor by the call that waits for them. *)
Inductive job := Loading | Loaded (ok : bool) | Unloading | Unloaded.
#[export] Instance job_eq_dec : EqDecision job.
Proof. solve_decision. Defined.
Record t := Mk { cfg : config; core : ThreadedBackend.t; llm : option nat; jobs : gmap nat job }.
Definition init (c : config) : t := Mk c ThreadedBackend.init None ∅.

(** [ThreadedBackend.capabilities] and [health] with the hook in place. *)
Definition capabilities (w : world) (b : t) : result ThreadedBackend.error Capabilities :=
  if readyish (ThreadedBackend.state (core b)) then Ok (capabilities_hook (cfg b) w) else Err ThreadedBackend.BackendNotReadyError.
Definition health (w : world) (b : t) : list (string * Json.t) :=
  [("backend", Json.JStr "llama.cpp");
   ("state", Json.JStr (match ThreadedBackend.state (core b) with
                        | UNLOADED => "unloaded" | LOADING => "loading" | READY => "ready" | GENERATING => "generating" | FAILED => "failed" end))]
  ++ (if readyish (ThreadedBackend.state (core b))
      then let caps := capabilities_hook (cfg b) w in
           [("model_id", Json.JStr (BackendRegistry.model_id caps)); ("context_length", Json.JInt (context_length caps))]
      else []).

(** A call that now waits for the executor has its job there. *)
Definition submit (k : nat) (b : ThreadedBackend.t) (js : gmap nat job) : gmap nat job :=
  match ThreadedBackend.pending b !! k with
  | Some ThreadedBackend.LoadWait => <[k := Loading]> js
  | Some ThreadedBackend.UnloadWait => <[k := Unloading]> js
  | _ => js
  end.
Inductive label :=
| Load
| LoadHook (k : nat) (w : world)
| LoadEnds (k : nat)
| LoadCancelled (k : nat)
| Unload
| CloseEnds (k : nat)
| UnloadHook (k : nat)
| UnloadEnds (k : nat)
| Generate (w : world) (r : GenerationRequest.t) (now : Q)
| Stream (i : nat) (l : QueueGenerationStream.label).
Definition lift (l : ThreadedBackend.label) (b : t) : option t :=
  c ← ThreadedBackend.exec l (core b); Some (Mk (cfg b) c (llm b) (jobs b)).
(** A call that submits: [k] is its index. *)
Definition submitting (l : ThreadedBackend.label) (k : nat) (b : t) : option t :=
  c ← ThreadedBackend.exec l (core b); Some (Mk (cfg b) c (llm b) (submit k c (jobs b))).
Definition exec (l : label) (b : t) : option t :=
  match l with
  | Load => if bool_decide (ThreadedBackend.state (core b) ∈ [UNLOADED; FAILED])
            then submitting ThreadedBackend.Load (length (ThreadedBackend.pending (core b))) b else lift ThreadedBackend.Load b
  | LoadHook k w =>
      if bool_decide (jobs b !! k = Some Loading)
      then match load_hook (cfg b) w with
           | Ok m => Some (Mk (cfg b) (core b) (Some m) (<[k := Loaded true]> (jobs b)))
           | Err _ => Some (Mk (cfg b) (core b) (llm b) (<[k := Loaded false]> (jobs b)))
           end
      else None
  | LoadEnds k => match jobs b !! k with Some (Loaded ok) => lift (ThreadedBackend.LoadEnds k ok) b | _ => None end
  | LoadCancelled k => lift (ThreadedBackend.LoadCancelled k) b
  | Unload => submitting ThreadedBackend.Unload (length (ThreadedBackend.pending (core b))) b
  | CloseEnds k => submitting (ThreadedBackend.CloseEnds k) k b
  | UnloadHook k =>
      if bool_decide (jobs b !! k = Some Unloading) then Some (Mk (cfg b) (core b) None (<[k := Unloaded]> (jobs b))) else None
  | UnloadEnds k => if bool_decide (jobs b !! k = Some Unloaded) then lift (ThreadedBackend.UnloadEnds k) b else None
  | Generate w r now => lift (ThreadedBackend.Generate (count_prompt_tokens (llm b) w r) now) b
  | Stream i l => lift (ThreadedBackend.Stream i l) b
  end.
Fixpoint run (ls : list label) (b : t) : option t :=
  match ls with [] => Some b | l :: ls' => b' ← exec l b; run ls' b' end.

(** ** A ready backend has its model *)

Definition unloads (l : label) : bool := match l with Unload => true | _ => false end.
Record honest (b : t) : Prop := Honest {
  h_ready : readyish (ThreadedBackend.state (core b)) = true → is_Some (llm b);
  h_origin : ∀ m, llm b = Some m → ∃ w, load_hook (cfg b) w = Ok m;
  h_loaded : ∀ k, jobs b !! k = Some (Loaded true) → is_Some (llm b);
  h_jobs : ∀ k, jobs b !! k ≠ Some Unloading;
  h_pending : ∀ c, c ∈ ThreadedBackend.pending (core b) → c = ThreadedBackend.LoadWait ∨ c = ThreadedBackend.Returned
}.

(** The threaded backend becomes ready by a load that ended well only. *)
Definition benign (l : ThreadedBackend.label) : bool :=
  match l with ThreadedBackend.Load | ThreadedBackend.LoadCancelled _ | ThreadedBackend.Generate _ _ | ThreadedBackend.Stream _ _ => true | _ => false end.
Definition calls_ok (b : ThreadedBackend.t) : Prop :=
  ∀ c, c ∈ ThreadedBackend.pending b → c = ThreadedBackend.LoadWait ∨ c = ThreadedBackend.Returned.
Lemma become_ok k b : calls_ok b → calls_ok (ThreadedBackend.become k ThreadedBackend.Returned b).
Proof.
  intros H c [i Hi]%list_elem_of_lookup. simpl in Hi. apply list_lookup_insert_Some in Hi as [(_ & <- & _)|[_ Hi]]; [by right|].
  apply H. by eapply list_elem_of_lookup_2.
Qed.
Lemma done_ready b : readyish (ThreadedBackend.state (ThreadedBackend.on_generation_done b)) = readyish (ThreadedBackend.state b).
Proof. unfold ThreadedBackend.on_generation_done. simpl. case_bool_decide as E; simpl; by rewrite ?E. Qed.
Lemma done_pending b : ThreadedBackend.pending (ThreadedBackend.on_generation_done b) = ThreadedBackend.pending b.
Proof. unfold ThreadedBackend.on_generation_done. simpl. by case_bool_decide. Qed.
Lemma benign_step l c c' : benign l = true → ThreadedBackend.exec l c = Some c' → calls_ok c →
  (readyish (ThreadedBackend.state c') = true → readyish (ThreadedBackend.state c) = true) ∧ calls_ok c'.
Proof.
  destruct l as [|? ?|k| | | |n now|i l]; simpl; try done; intros _ E P.
  - injection E as <-. unfold ThreadedBackend.load_begin. destruct (ThreadedBackend.state c) eqn:S; simpl; rewrite ?S; (split; [done|]); try done;
      (intros x [Hx|Hx]%elem_of_app; [by apply P|left; by apply list_elem_of_singleton in Hx]).
  - destruct (ThreadedBackend.pending c !! k) as [[]|]; try done. injection E as <-. split; [done|by apply become_ok].
  - injection E as <-. unfold ThreadedBackend.generate. destruct (ThreadedBackend.state c) eqn:S; try (by simpl; rewrite S).
    destruct n; simpl; rewrite ?S; done.
  - destruct (ThreadedBackend.streams c !! i) as [x|]; [|done]. cbn [mbind option_bind] in E.
    destruct (QueueGenerationStream.exec l x) as [x'|]; [|done]. cbn [mbind option_bind] in E. injection E as <-.
    destruct (_ <? _); [|done]. rewrite done_ready. split; [done|]. intros y. rewrite done_pending. apply P.
Qed.
Lemma honest_lift l b b' : benign l = true → lift l b = Some b' → honest b → honest b'.
Proof.
  unfold lift. intros B E [R O L J P]. destruct (ThreadedBackend.exec l (core b)) as [c|] eqn:Ec; [|done]. injection E as <-.
  destruct (benign_step _ _ _ B Ec P) as [Hr Hp]. split; simpl; auto.
Qed.
Lemma honest_exec l b b' : unloads l = false → exec l b = Some b' → honest b → honest b'.
Proof.
  destruct l as [|k w|k|k| |k|k|k|w r now|i l]; intros U E H; try done; cbn [exec] in E;
    try (by eapply honest_lift; [|exact E|exact H]).
  - case_bool_decide; [|by eapply honest_lift; [|exact E|exact H]].
    unfold submitting in E. destruct (ThreadedBackend.exec ThreadedBackend.Load (core b)) as [c|] eqn:Ec; [|done]. injection E as <-.
    destruct H as [R O L J P]. destruct (benign_step ThreadedBackend.Load _ _ eq_refl Ec P) as [Hr Hp]. unfold submit.
    destruct (ThreadedBackend.pending c !! length _) as [x|] eqn:Ex; [|split; simpl; auto].
    destruct (Hp x) as [-> | ->]; [by eapply list_elem_of_lookup_2| |split; simpl; auto].
    split; simpl; auto.
    + intros j [[? [=]]|[? Hj]]%lookup_insert_Some. eauto.
    + intros j [[? [=]]|[? Hj]]%lookup_insert_Some. by apply (J j).
  - case_bool_decide; [|done]. destruct H as [R O L J P]. destruct (load_hook (cfg b) w) as [m|e] eqn:Eh; injection E as <-; split; simpl; auto; try done;
      try (intros m' [= <-]; by exists w);
      intros j [[? [=]]|[? Hj]]%lookup_insert_Some; eauto; by apply (J j).
  - destruct (jobs b !! k) as [[|ok| |]|] eqn:Ek; try done. unfold lift in E. simpl in E. destruct H as [R O L J P].
    destruct (ThreadedBackend.pending (core b) !! k) as [[]|]; try done. injection E as <-.
    split; simpl; auto; [|by destruct ok; apply become_ok]. destruct ok; simpl; [|done]. intros _. by eapply L.
  - unfold submitting in E. simpl in E. destruct H as [R O L J P].
    destruct (ThreadedBackend.pending (core b) !! k) as [c|] eqn:Ek; [|done].
    destruct (P c) as [-> | ->]; [by eapply list_elem_of_lookup_2|done..].
  - case_bool_decide as Hk; [|done]. by destruct (h_jobs b H k).
  - case_bool_decide as Hk; [|done]. unfold lift in E. simpl in E. destruct H as [R O L J P].
    destruct (ThreadedBackend.pending (core b) !! k) as [c|] eqn:Ek; [|done].
    destruct (P c) as [-> | ->]; [by eapply list_elem_of_lookup_2|done..].
Qed.
Lemma honest_run ls b b' : forallb (fun l => negb (unloads l)) ls = true → run ls b = Some b' → honest b → honest b'.
Proof.
  revert b. induction ls as [|l ls IH]; intros b F E H; [by injection E as <-|]. cbn [forallb run] in *.
  apply andb_true_iff in F as [Fl F]. destruct (exec l b) as [b1|] eqn:E1; [|done]. cbn [mbind option_bind] in E.
  apply (IH b1 F E). eapply honest_exec; [|exact E1|exact H]. by destruct (unloads l).
Qed.
Lemma honest_init c : honest (init c).
Proof. split; simpl; try done; intros; set_solver. Qed.
Lemma run_cfg ls b b' : run ls b = Some b' → cfg b' = cfg b.
Proof.
  revert b. induction ls as [|l ls IH]; intros b E; [by injection E as <-|]. cbn [run] in E.
  destruct (exec l b) as [b1|] eqn:E1; [|done]. cbn [mbind option_bind] in E. rewrite (IH b1 E). clear E IH.
  assert (∀ tl f, (c ← ThreadedBackend.exec tl (core b); Some (Mk (cfg b) c (llm b) (f c))) = Some b1 → cfg b1 = cfg b) as H.
  { intros tl f. destruct (ThreadedBackend.exec tl (core b)); [|done]. by intros [= <-]. }
  destruct l; cbn [exec] in E1; unfold lift, submitting in E1; repeat case_match; try done;
    try (by injection E1 as <-); by apply H in E1.
Qed.

(** C13. Without an unload, the local backend never claims a model it does not have: whatever the order of loads, their ends and
    cancellations, generations and the moves of their streams, capabilities are only reported while a model object is held that the binding
    returned for the configured file, with the configured name and context and with structured output exactly when the installed binding has it; and a ready
    backend accepts every prompt its tokenizer can count and meters it as that count. *)
Theorem local_backend_honest c ls b w :
  forallb (fun l => negb (unloads l)) ls = true → run ls (init c) = Some b →
  (∀ caps, capabilities w b = Ok caps →
     caps = Caps (cfg_model_id c) (n_ctx c) (structured_output_supported w) false ∧
     ∃ m w', llm b = Some m ∧ is_file w' (model_path c) = true ∧ Llama w' c = Some m) ∧
  (∀ r now, ThreadedBackend.state (core b) = READY → (∀ m, is_Some (tokenize w m (GenerationRequest.prompt_text r))) →
     ∃ m ts b', llm b = Some m ∧ tokenize w m (GenerationRequest.prompt_text r) = Some ts ∧ exec (Generate w r now) b = Some b' ∧
       ThreadedBackend.streams (core b') = ThreadedBackend.streams (core b) ++ [QueueGenerationStream.init 64 (Z.of_nat (length ts)) now]).
Proof.
  intros F E. pose proof (honest_run _ _ _ F E (honest_init c)) as [R O _ _ _]. pose proof (run_cfg _ _ _ E) as Ec. simpl in Ec. split.
  - unfold capabilities. destruct (readyish _) eqn:Hr; [|done]. intros caps [= <-]. rewrite Ec. split; [done|].
    destruct (R eq_refl) as [m Hm]. destruct (O m Hm) as [w' Hw]. exists m, w'. split; [done|]. rewrite Ec in Hw. unfold load_hook in Hw.
    destruct (is_file w' (model_path c)); [|done]. simpl in Hw. destruct (llama_cpp w'); try done. destruct (Llama w' c); [|done].
    by injection Hw as ->.
  - intros r now Hs Ht. destruct R as [m Hm]; [by rewrite Hs|]. destruct (Ht m) as [ts Hts]. exists m, ts.
    unfold exec, lift, count_prompt_tokens. rewrite Hm. cbn [mbind option_bind]. rewrite Hts. cbn [mbind option_bind].
    eexists. split; [done|]. split; [done|]. split; [simpl; reflexivity|]. simpl. unfold ThreadedBackend.generate. by rewrite Hs.
Qed.

(** An unload that overtakes a load leaves a backend that is ready without a model: the load ends after the unload has dropped the model
    object it had stored, so capabilities are reported and every generation fails. *)
Lemma load_unload_race c w m : load_hook c w = Ok m →
  ∃ b, run [Load; LoadHook 0 w; Unload; UnloadHook 1; UnloadEnds 1; LoadEnds 0] (init c) = Some b ∧
    llm b = None ∧ ThreadedBackend.state (core b) = READY ∧ capabilities w b = Ok (capabilities_hook c w) ∧
    ∀ w' r now, snd (ThreadedBackend.generate (count_prompt_tokens (llm b) w' r) now (core b)) = Err ThreadedBackend.CountError.
Proof.
  intros H. eexists. split.
  - cbn [run]. cbn [exec]. simpl. rewrite H. simpl. vm_compute. reflexivity.
  - done.
Qed.

Definition demo_config : config := Config "/data/models/tiny.gguf" "tiny" 2048 None 0.
Definition demo_world (present : bool) : world :=
  World (fun _ => present) Installed true (fun _ => Some 7%nat) (fun _ s => Some (repeat 1 (String.length s))).
Definition demo : list label :=
  [Load; LoadHook 0 (demo_world false); LoadEnds 0; Load; Load; LoadHook 1 (demo_world true); LoadEnds 1].
Lemma local_backend_honest_witness :
  ∃ b, run demo (init demo_config) = Some b ∧ capabilities (demo_world true) b = Ok (Caps "tiny" 2048 true false) ∧ is_Some (llm b).
Proof.
  destruct (run demo (init demo_config)) as [b|] eqn:E; [|exfalso; revert E; vm_compute; discriminate].
  assert (capabilities (demo_world true) b = Ok (Caps "tiny" 2048 true false)) as C.
  { revert E. vm_compute. intros [= <-]. reflexivity. }
  exists b. split; [done|]. split; [done|].
  destruct (proj1 (local_backend_honest demo_config demo b (demo_world true) eq_refl E) _ C) as (_ & m & _ & Hm & _). by exists m.
Defined.

End LocalBackend.
