(* ===== verification/Wiring.v ===== *)
(** * The application factory ([main.py], [create_app])

    [Module Wiring]: what [create_app] builds from the settings, component by component: the live feed with its bus and counters, the log mirror, the
    scheduler, the pool and its router, the gateway, the event emitter with its channels, the audit log and the parsed allowlist.
    The theorem connects the validators of the configuration with the limits the running components keep. *)

From S2P Require Import Prelude Crypto Text Sql Admission Placement Routing Store Quota Keys Gateway.
From S2P Require Import AuditChain Webhooks ClientEvents Telemetry Net Config Observability Operability Sensors HostSensors OperatorViews LiveFeed.

Open Scope Z_scope.

Module Wiring.

(** What the store on disk holds when the engine starts. *)
Record stores := Stores {
  tables : Db.t; webhook_store : WebhookStore.t; event_rows : list ClientEventLog.ClientEvent; event_seq : Z; clients : list string; audit_log : AuditLog.t
}.

(** [app.state] *)
Record app := App {
  telemetry : LiveFeed.t;
  log_collector : LogCollector.t;
  scheduler : Scheduler.t;
  entries : list BackendRegistry.BackendEntry;
  router : Router.t;
  gateway : Gateway.state;
  webhooks_on : bool;
  emitter : ClientEventEmitter.t;
  usage_hook : bool;
  audit : AuditLog.t;
  allow_networks : list Ip.network
}.
Inductive failure := ValueError | Misconfigured (e : Config.config_error).

(** The channels of the emitter: the event log and its notifier exist when client events are enabled. *)
Definition build_emitter (s : Config.Settings) (d : stores) : ClientEventEmitter.t :=
  ClientEventEmitter.Mk (Some (webhook_store d))
    (if Config.client_events_enabled s
     then Some (ClientEventLog.Mk (event_rows d) (event_seq d) (clients d) (Config.client_events_retention_max_age_s s) (Config.client_events_retention_max_per_client s))
     else None)
    (if Config.client_events_enabled s then Some ClientEventNotifier.init else None).
(** Whether [gateway.on_usage_recorded] is set. *)
Definition threshold_hook (s : Config.Settings) : bool :=
  bool_decide (0 < Config.webhook_usage_threshold_pct s)%Q && (Config.webhooks_enabled s || Config.client_events_enabled s).

(** [LogCollector(...)] with [db_level] at its default, and [persist = False] until the lifespan owns the store. *)
Definition WARNING : Z := 30.
Definition persisting (p : bool) (c : LogCollector.t) : LogCollector.t :=
  LogCollector.Mk (LogCollector.has_db c) (LogCollector.ring_size c) (LogCollector.db_level c) (LogCollector.max_rows c) (LogCollector.ring c)
    (LogCollector.since_trim c) p.
Definition build_collector (s : Config.Settings) : LogCollector.t :=
  persisting false (LogCollector.init (bool_decide (is_Some (Config.db_path s))) (Z.to_nat (Config.log_ring_size s)) WARNING (Config.log_events_max_rows s)).

(** [create_app] at the instant [now], with the energy counters the power probe finds. *)
Definition create_app (s : Config.Settings) (b : option BackendRegistry.backend) (rapl : list (string * bool)) (d : stores) (now : Q) : result failure app :=
  match Scheduler.init (Config.max_concurrency s) (Config.max_concurrency_queue s) (Config.concurrency_queue_timeout_s s) with
  | None => Err ValueError
  | Some sched =>
      match Startup.create_pool s b with
      | Err e => Err (Misconfigured e)
      | Ok (es, r) =>
          match mapM Ip.ip_network (Config.ip_allowlist s) with
          | None => Err ValueError
          | Some nets =>
              Ok (App (LiveFeed.init (Z.to_nat (Config.event_history_size s)) (Config.event_subscriber_queue s)
                         (Snapshots.Telemetry_ (Counters.init now) TelemetryService.init (PowerProbe.init rapl)))
                    (build_collector s) sched es r (Gateway.init (Exposure.gateway_settings s) (tables d)) (Config.webhooks_enabled s)
                    (build_emitter s d) (threshold_hook s) (audit_log d) nets)
          end
      end
  end.

(** ** The configured limits *)

Record bounds (s : Config.Settings) : Prop := Bounds {
  n_conc : 1 <= Config.max_concurrency s; n_queue : 0 <= Config.max_concurrency_queue s; n_wait : (0 <= Config.concurrency_queue_timeout_s s)%Q;
  n_hist : 0 <= Config.event_history_size s; n_sub : 1 <= Config.event_subscriber_queue s;
  n_ring : 0 <= Config.log_ring_size s; n_rows : 0 <= Config.log_events_max_rows s
}.
Lemma fields_bounds s : Config.fields_ok s = true → bounds s.
Proof.
  unfold Config.fields_ok, Config.betweenZ, Config.betweenQ. intros H. rewrite !andb_true_iff in H. destruct_and?.
  split; first [by apply Z.leb_le|by apply Qle_bool_iff].
Qed.
Lemma scheduler_builds s : bounds s →
  ∃ x, Scheduler.init (Config.max_concurrency s) (Config.max_concurrency_queue s) (Config.concurrency_queue_timeout_s s) = Some x.
Proof.
  intros [H1 H2 H3 _ _ _ _]. unfold Scheduler.init. rewrite (proj2 (Z.ltb_ge _ _)) by lia. rewrite (proj2 (Z.ltb_ge _ _)) by lia.
  rewrite bool_decide_false by lra. eauto.
Qed.
Lemma networks_build l : (∀ c, c ∈ l → is_Some (Ip.ip_network c)) → is_Some (mapM Ip.ip_network l).
Proof. intros H. apply mapM_is_Some_2, Forall_forall. exact H. Qed.

(** The limits of the settings, as the components keep them in any run. *)
Record keeps_limits (s : Config.Settings) (a : app) : Prop := KeepsLimits {
  k_scheduler : ∀ ls x, System.run ls (System.start (scheduler a)) = Some x →
    0 <= Scheduler.in_use (System.sched x) <= Config.max_concurrency s ∧
    0 <= Scheduler.waiters (System.sched x) <= Config.max_concurrency_queue s;
  k_feed : ∀ json round1 as_data ls t, LiveFeed.run json round1 as_data ls (telemetry a) = Some t →
    (∀ c, Z.of_nat (length (EventBus.recent c (LiveFeed.bus t))) <= Config.event_history_size s) ∧
    ∀ i k, EventBus.consumers (LiveFeed.bus t) !! i = Some k → EventBus.subscribed k = true →
      Z.of_nat (length (EventBus.queue (EventBus.sub k))) <= Config.event_subscriber_queue s;
  k_logs : ∀ p l tb0, LogCollector.ids_ok tb0 →
    let c := persisting p (log_collector a) in
    let out := LogCollector.emit_all l c tb0 in
    let size tb := Z.of_nat (length (LogCollector.rows tb)) in
    Z.of_nat (length (LogCollector.ring (fst out))) <= Config.log_ring_size s ∧
    (Forall (fun ar => fst ar = LogCollector.Stored ∨ fst ar = LogCollector.Insert_fails) l →
     size (snd out) <= Z.max (size tb0) (Config.log_events_max_rows s) + 49 ∧
     ((50 <= LogCollector.stored_count c l)%nat → size (snd out) <= Config.log_events_max_rows s + 49));
  k_allowlist : length (allow_networks a) = length (Config.ip_allowlist s)
}.
Lemma scheduler_limits s x0 ls x : bounds s →
  Scheduler.init (Config.max_concurrency s) (Config.max_concurrency_queue s) (Config.concurrency_queue_timeout_s s) = Some x0 →
  System.run ls (System.start x0) = Some x →
  0 <= Scheduler.in_use (System.sched x) <= Config.max_concurrency s ∧ 0 <= Scheduler.waiters (System.sched x) <= Config.max_concurrency_queue s.
Proof.
  intros B E R. pose proof (System.run_reachable _ _ _ _ _ _ (System.reach_init _ _ _ _ E) R) as H%System.inv_reachable.
  destruct H as [_ _ _ Hl [Hq Hd] _ [Hp Hw] _]. pose proof (System.live_nonneg (System.leases x)). lia.
Qed.
Lemma feed_limits h q b : 1 <= q → EventBus.reachable h q b →
  (∀ c, (length (EventBus.recent c b) <= h)%nat) ∧
  ∀ i k, EventBus.consumers b !! i = Some k → EventBus.subscribed k = true → Z.of_nat (length (EventBus.queue (EventBus.sub k))) <= q.
Proof.
  intros Hq R. destruct (EventBus.bus_inv_reachable _ _ _ Hq R) as [V1 _ V3]. split.
  - intros c. unfold EventBus.recent. rewrite V1. unfold lastn. rewrite length_drop. lia.
  - intros i k Hk Hs. destruct (EventBus.c_follows _ _ _ _ (V3 i k Hk) Hs) as [live F]. apply F.
Qed.
Lemma create_pool_fails s b e : Startup.create_pool s b = Err e → ∃ v u, e = Config.Unknown_virtual_backends v u.
Proof.
  unfold Startup.create_pool. generalize (Config.virtual_models s). intros l.
  enough (∀ e, Startup.build_virtual (Config.backend_names s) l = Err e → ∃ v u, e = Config.Unknown_virtual_backends v u) as H.
  { destruct (Startup.build_virtual _ l) as [vs|e'] eqn:E; [done|]. intros [= <-]. by apply H. }
  clear e. induction l as [|v l IH]; intros e; [done|]. cbn [Startup.build_virtual].
  destruct (Config.unknown_backends _ _) as [|u us]; [|intros [= <-]; eauto].
  destruct (Startup.build_virtual _ l) as [vs|e'] eqn:E; [done|]. intros [= <-]. by apply IH.
Qed.

(** C22. An accepted configuration builds an engine that keeps its limits: the constructors of the scheduler and of the
    networks cannot fail on it, so the application factory fails only for a virtual model that names a backend that does not exist; and in any
    run of the components it builds, no more than [max_concurrency] requests are in service and [max_concurrency_queue] wait, the
    rings of the bus and the queue of every consumer stay within [event_history_size] and [event_subscriber_queue], and the log ring, whatever the
    database answers, within [log_ring_size] records.  The log table, whatever it held when the process started, stays, as long as no trim or commit
    of the mirror fails, within 49 rows of what it held or of [log_events_max_rows], whichever is more, and within 49 of
    [log_events_max_rows] once the process has stored fifty rows. *)
Theorem accepted_limits netloc_ok s0 s b rapl d now : Config.validate netloc_ok s0 = Ok s →
  match create_app s b rapl d now with
  | Ok a => keeps_limits s a
  | Err e => ∃ v u, e = Misconfigured (Config.Unknown_virtual_backends v u)
  end.
Proof.
  intros E. destruct (Config.validate_ok _ _ _ E) as [_ A]. pose proof (fields_bounds s (Config.a_fields _ _ A)) as B.
  destruct (networks_build _ (Config.a_allowlist _ _ A)) as [nets En]. destruct (scheduler_builds s B) as [x0 Ex].
  unfold create_app. rewrite Ex, En. destruct (Startup.create_pool s b) as [[es r]|e] eqn:Ep.
  - split; simpl.
    + intros ls x. by apply scheduler_limits.
    + intros json round1 as_data ls t R. apply LiveFeed.live_reachable with (h := Z.to_nat (Config.event_history_size s))
        (q := Config.event_subscriber_queue s) in R; [|apply EventBus.reach_init].
      destruct (feed_limits _ _ _ (n_sub s B) R) as [F1 F2]. split; [|done]. intros c. specialize (F1 c). pose proof (n_hist s B). lia.
    + intros p l tb0 Hi. destruct (LogCollector.log_mirror_bounded (persisting p (build_collector s)) l tb0 (n_rows s B) eq_refl eq_refl Hi) as [H1 H2].
      split; [|exact H2]. cbn in H1. pose proof (n_ring s B). lia.
    + symmetry. by apply length_mapM in En.
  - apply create_pool_fails in Ep as (v & u & ->). eauto.
Qed.

Definition demo_stores : stores := Stores Db.empty (WebhookStore.Mk [] [] [] []) [] 0 [] AuditLog.empty.
Lemma accepted_limits_witness :
  ∃ s a, Config.validate (fun _ => true) (ConfigExamples.settings ConfigExamples.demo) = Ok s ∧
    create_app s None [] demo_stores 0 = Ok a ∧ keeps_limits s a.
Proof.
  assert (match Config.validate (fun _ => true) (ConfigExamples.settings ConfigExamples.demo) with
          | Ok s => is_ok (create_app s None [] demo_stores 0)
          | Err _ => false
          end = true) as C by (vm_compute; reflexivity).
  destruct (Config.validate (fun _ => true) (ConfigExamples.settings ConfigExamples.demo)) as [s|e] eqn:E; [|done].
  exists s. pose proof (accepted_limits (fun _ => true) _ s None [] demo_stores 0 E) as H.
  destruct (create_app s None [] demo_stores 0) as [a|e]; [by exists a|done].
Defined.

End Wiring.
