(* ===== verification/Tooling.v ===== *)
(** * Supply-chain and wiring reports ([scripts/export_routes.py], [scripts/npm_audit_report.py])

    [Module RouteInventory]: the walk over the application's routes, the gate each handler is filed under, the agreement with the OpenAPI paths and the
    staleness check of the generated file.  [Module NpmAudit]: the summary of an npm audit report and the exit status of the tool. *)

From S2P Require Import Prelude Crypto Text Sql Sensors.

Open Scope Z_scope.

Module RouteInventory.

(** A route as the walk sees it: an endpoint with its attributes, or a container with its own path or prefix and its sub-routes.
    [methods] is empty when there are none. *)
Record endpoint := Endpoint {
  e_path : string; e_module : string; in_schema : bool; methods : list string; websocket : bool; e_name : string; source : string
}.
Inductive route := Leaf (e : endpoint) | Container (own : string) (children : list route).
Inductive gate_t := operator | client | stripe_signature | public | api_key.
#[export] Instance gate_eq_dec : EqDecision gate_t.
Proof. solve_decision. Defined.
Record row := Row { r_method : string; r_path : string; r_gate : gate_t; r_module : string; r_handler : string }.
#[export] Instance row_eq_dec : EqDecision row.
Proof. solve_decision. Defined.

(** [s.endswith(suffix)] *)
Definition endswith (suffix s : string) : bool := Text.startswith (Text.rev_string suffix) (Text.rev_string s).
(** [_gate] *)
Definition gate (path module_ src : string) : gate_t :=
  if Text.startswith "/ws/" path || Diagnostics.contains "require_operator(" src then operator
  else if Text.startswith "/client/" path then client
  else if bool_decide (path = "/billing/webhooks/stripe") then stripe_signature
  else if bool_decide (path = "/v1/models") then public
  else if endswith "openai_router" module_ || endswith "anthropic_router" module_ then api_key
  else public.

(** [_walk] *)
Fixpoint walk (prefix : string) (r : route) : list (string * endpoint) :=
  match r with
  | Leaf e => [(prefix +:+ e_path e, e)]
  | Container own cs => concat (map (walk (prefix +:+ own)) cs)
  end.
(** The rows of one leaf: the methods, sorted, or the socket. *)
Definition rows_of (pe : string * endpoint) : list row :=
  let '(path, e) := pe in
  if negb (Text.startswith "engine." (e_module e)) || negb (in_schema e) then []
  else match methods e with
       | _ :: _ => map (fun m => Row m path (gate path (e_module e) (source e)) (e_module e) (e_name e))
                     (sort_str (List.filter (fun m => negb (bool_decide (m ∈ ["HEAD"; "OPTIONS"]))) (remove_dups (methods e))))
       | [] => if websocket e then [Row "WS" path operator (e_module e) (e_name e)] else []
       end.
Definition row_leb (a b : row) : bool := if bool_decide (r_path a = r_path b) then str_leb (r_method a) (r_method b) else str_leb (r_path a) (r_path b).
(** [build_inventory]; [documented] is the set of the schema, and [None] the [SystemExit]. *)
Definition walked (rows : list row) : list (string * string) :=
  map (fun r => (r_method r, r_path r)) (List.filter (fun r => negb (bool_decide (r_method r = "WS"))) rows).
Definition same_set (a b : list (string * string)) : bool := forallb (fun x => bool_decide (x ∈ b)) a && forallb (fun x => bool_decide (x ∈ a)) b.
Definition build_inventory (routes : list route) (documented : list (string * string)) : option (list row) :=
  let rows := Sql.order_by row_leb (concat (map rows_of (concat (map (walk "") routes)))) in
  if match rows with [] => true | _ => negb (same_set (walked rows) documented) end then None else Some rows.

Section Main.
(** [json.dumps] with the fixed comment. *)
Context (render : list row → string).
(** [main]: the exit status and the file it leaves; [current] is the file's text, [None] when it does not exist. *)
Definition main (check : bool) (routes : list route) (documented : list (string * string)) (current : option string) : option (Z * option string) :=
  match build_inventory routes documented with
  | None => None
  | Some rows =>
      if check then Some (if bool_decide (default "" current = render rows) then 0 else 1, current)
      else Some (0, Some (render rows))
  end.
End Main.

(** ** Leaves by rule *)

(** A leaf and the path the prefixes above it give it. *)
Inductive reaches : string → route → string → endpoint → Prop :=
| reach_leaf prefix e : reaches prefix (Leaf e) (prefix +:+ e_path e) e
| reach_child prefix own cs c path e : c ∈ cs → reaches (prefix +:+ own) c path e → reaches prefix (Container own cs) path e.
Lemma walk_reaches r : ∀ prefix path e, (path, e) ∈ walk prefix r ↔ reaches prefix r path e.
Proof.
  revert r. fix IH 1. intros [e0|own cs] prefix path e; cbn [walk].
  - split.
    + intros H%list_elem_of_singleton. simplify_eq. constructor.
    + inversion 1; subst. by apply list_elem_of_singleton.
  - assert (∀ p, (path, e) ∈ concat (map (walk p) cs) ↔ ∃ c, c ∈ cs ∧ reaches p c path e) as H.
    { intros p. induction cs as [|c cs IHc]; cbn [map concat].
      - split; [by intros ?%not_elem_of_nil|intros (c & H & _); by apply not_elem_of_nil in H].
      - rewrite elem_of_app, IHc, (IH c). split.
        + intros [H|(c' & H1 & H2)]; [exists c|exists c']; (split; [|done]); [by left|by right].
        + intros (c' & [->|H1]%elem_of_cons & H2); [by left|right; by exists c']. }
    rewrite H. split; [intros (c & Hc & Hr); by econstructor|]. inversion 1; subst. eauto.
Qed.

(** What belongs into the inventory. *)
Inductive lists (path : string) (e : endpoint) : row → Prop :=
| lists_method m : m ∈ methods e → m ∉ ["HEAD"; "OPTIONS"] →
    lists path e (Row m path (gate path (e_module e) (source e)) (e_module e) (e_name e))
| lists_socket : methods e = [] → websocket e = true → lists path e (Row "WS" path operator (e_module e) (e_name e)).
Lemma rows_of_lists path e x : x ∈ rows_of (path, e) ↔
  Text.startswith "engine." (e_module e) = true ∧ in_schema e = true ∧ lists path e x.
Proof.
  unfold rows_of. destruct (Text.startswith "engine." (e_module e)); [|split; [by intros ?%not_elem_of_nil|by intros []]].
  destruct (in_schema e); [|split; [by intros ?%not_elem_of_nil|by intros (_ & ? & _)]]. cbn [negb orb].
  transitivity (lists path e x); [|split; [by intros ?; split_and!|by intros (_ & _ & ?)]].
  destruct (methods e) as [|m0 ms] eqn:Em.
  - destruct (websocket e) eqn:Ew.
    + rewrite list_elem_of_singleton. split; [intros ->; by apply lists_socket|]. inversion 1 as [m Hm|]; [|done].
      rewrite Em in Hm. by apply not_elem_of_nil in Hm.
    + split; [by intros ?%not_elem_of_nil|]. inversion 1 as [m Hm|]; [|congruence]. rewrite Em in Hm. by apply not_elem_of_nil in Hm.
  - rewrite list_elem_of_fmap. setoid_rewrite sort_str_perm. setoid_rewrite list_elem_of_In. setoid_rewrite filter_In.
    setoid_rewrite <-list_elem_of_In. setoid_rewrite elem_of_remove_dups. rewrite <-Em. split.
    + intros (m & -> & Hm & Hn). apply lists_method; [done|]. by apply negb_true_iff, bool_decide_eq_false in Hn.
    + inversion 1 as [m Hm Hn|E]; subst; [|congruence]. exists m. split; [done|]. split; [done|]. by rewrite bool_decide_false.
Qed.
Lemma elem_of_concat_map {A B} (f : A → list B) l x : x ∈ concat (map f l) ↔ ∃ a, a ∈ l ∧ x ∈ f a.
Proof.
  induction l as [|a l IH]; cbn [map concat]; [split; [by intros ?%not_elem_of_nil|intros (a & H & _); by apply not_elem_of_nil in H]|].
  rewrite elem_of_app, IH. split.
  - intros [H|(b & Hb & H)]; [exists a|exists b]; (split; [|done]); [by left|by right].
  - intros (b & [->|Hb]%elem_of_cons & H); [by left|right; by exists b].
Qed.
Lemma same_set_spec a b : same_set a b = true ↔ ∀ x, x ∈ a ↔ x ∈ b.
Proof.
  unfold same_set. rewrite andb_true_iff, !forallb_forall. setoid_rewrite bool_decide_eq_true. setoid_rewrite <-list_elem_of_In. naive_solver.
Qed.
Lemma walked_spec rows m p : (m, p) ∈ walked rows ↔ m ≠ "WS" ∧ ∃ x, x ∈ rows ∧ r_method x = m ∧ r_path x = p.
Proof.
  unfold walked. rewrite list_elem_of_fmap. setoid_rewrite list_elem_of_In. setoid_rewrite filter_In. split.
  - intros (x & [= -> ->] & Hx & Hn). apply negb_true_iff, bool_decide_eq_false in Hn. eauto.
  - intros (Hm & x & Hx & <- & <-). exists x. split; [done|]. split; [done|]. by rewrite bool_decide_false.
Qed.

(** The inventory is complete and agrees with the schema: when one is built, it lists exactly the methods (and sockets) of the engine's
    documented endpoints, each under the full path of the mounts and routers above it and with the gate its handler is classified under; and its HTTP rows
    are exactly the operations the OpenAPI schema documents. *)
Theorem inventory_exact routes documented rows : build_inventory routes documented = Some rows →
  (∀ x, x ∈ rows ↔ ∃ r path e, r ∈ routes ∧ reaches "" r path e ∧ Text.startswith "engine." (e_module e) = true ∧ in_schema e = true ∧ lists path e x) ∧
  (∀ m p, (m, p) ∈ documented ↔ m ≠ "WS" ∧ ∃ x, x ∈ rows ∧ r_method x = m ∧ r_path x = p).
Proof.
  unfold build_inventory. set (rs := Sql.order_by _ _). intros E.
  assert (rows = rs ∧ same_set (walked rs) documented = true) as [-> Hs].
  { destruct rs eqn:Er; [done|]. destruct (same_set _ _); [|done]. by injection E as <-. }
  split.
  - intros x. unfold rs. rewrite (Sql.order_by_perm row_leb), elem_of_concat_map. setoid_rewrite elem_of_concat_map. split.
    + intros ([path e] & (r & Hr & Hw) & Hx). apply walk_reaches in Hw. apply rows_of_lists in Hx as (? & ? & ?). by exists r, path, e.
    + intros (r & path & e & Hr & Hw & H1 & H2 & H3). exists (path, e). split; [exists r; by rewrite walk_reaches|by apply rows_of_lists].
  - intros m p. rewrite <-walked_spec. rewrite same_set_spec in Hs. by rewrite Hs.
Qed.

(** The staleness check is sound: the file a run writes passes it, and a file that passes it is the one a run would write; so two sets of routes
    that the same committed file passes for have the same inventory. *)
Theorem inventory_check render routes documented routes' documented' file :
  Inj eq eq render → main render false routes documented None = Some (0, file) →
  main render true routes documented file = Some (0, file) ∧
  (main render true routes' documented' file = Some (0, file) → build_inventory routes' documented' = build_inventory routes documented).
Proof.
  intros Hi. unfold main. destruct (build_inventory routes documented) as [rows|]; [|done]. intros [= <-]. cbn [default].
  split; [by rewrite bool_decide_true|]. destruct (build_inventory routes' documented') as [rows'|]; [|done].
  case_bool_decide as E; [|done]. intros _. apply (inj render) in E. by subst.
Qed.

Definition demo_routes : list route :=
  [Container "" [Leaf (Endpoint "/healthz" "engine.api.health" true ["GET"; "HEAD"] false "healthz" "def healthz():");
                 Container "/admin" [Leaf (Endpoint "/keys" "engine.api.admin_router" true ["POST"] false "create_key" "  require_operator(request)")]];
   Leaf (Endpoint "/ws/metrics" "engine.api.ws_router" true [] true "ws_metrics" "");
   Leaf (Endpoint "/openapi.json" "fastapi.applications" false ["GET"] false "openapi" "")].
Definition demo_documented : list (string * string) := [("POST", "/admin/keys"); ("GET", "/healthz")].
Lemma inventory_exact_witness :
  ∃ rows, build_inventory demo_routes demo_documented = Some rows ∧ map r_gate rows = [operator; public; operator] ∧
    ∃ x, x ∈ rows ∧ r_method x = "POST" ∧ r_path x = "/admin/keys".
Proof.
  eexists. split; [vm_compute; reflexivity|]. split; [vm_compute; reflexivity|].
  destruct (inventory_exact demo_routes demo_documented _ ltac:(vm_compute; reflexivity)) as [_ H].
  destruct (proj1 (H "POST" "/admin/keys")) as [_ Hx]; [left|exact Hx].
Defined.
End RouteInventory.

Module NpmAudit.

(** [None] stands for any exception of a report that is not shaped like one. *)
Inductive status := Completed | Failed | Invalid.
Record advisory := Advisory { a_id : option Json.t; a_title : option Json.t; a_severity : option Json.t; a_range : option Json.t }.
Inductive fix_t := Within | Via (name version : option Json.t) (semver_major : bool) | NoFix.
Record package := Package {
  p_name : string; p_severity : option Json.t; p_direct : bool; p_via : list string; p_advisories : list advisory; p_range : option Json.t; p_fix : fix_t
}.
Inductive summary := Report (counts : Json.t) (packages : list package) | Problem (s : status) (reason : option Json.t).
Definition status_of (s : summary) : status := match s with Report _ _ => Completed | Problem st _ => st end.

(** [x or y] of optional values. *)
Definition or_else (x y : option Json.t) : option Json.t :=
  match x with Some v => if Json.truthy v then x else y | None => y end.
(** What a [for] loop goes through; numbers, booleans and null are not iterable. *)
Definition iter (v : Json.t) : option (list Json.t) :=
  match v with
  | Json.JArr l => Some l
  | Json.JObj l => Some (map (fun p => Json.JStr (fst p)) (dict_of l))
  | Json.JStr s => Some (map (fun c => Json.JStr (String c "")) (Crypto.chars s))
  | _ => None
  end.
(** [set(package_json.get(section) or {})], the strings in it; an unhashable element raises. *)
Definition section_names (package_json : Json.t) (section : string) : option (list string) :=
  v ← Json.get section package_json;
  match or_else v None with
  | None => Some []
  | Some v =>
      l ← iter v;
      if existsb (fun x => match x with Json.JArr _ | Json.JObj _ => true | _ => false end) l then None
      else Some (omap (fun x => match x with Json.JStr s => Some s | _ => None end) l)
  end.
Definition SECTIONS : list string := ["dependencies"; "devDependencies"; "optionalDependencies"].
Definition direct_names (package_json : option Json.t) : option (list string) :=
  match package_json with
  | Some p => if Json.truthy p then (fun l => concat l) <$> mapM (section_names p) SECTIONS else Some []
  | None => Some []
  end.

(** One entry of [via]. *)
Definition is_dict (v : Json.t) : bool := match v with Json.JObj _ => true | _ => false end.
Definition field (k : string) (v : Json.t) : option Json.t := default None (Json.get k v).
Definition advisory_of (via : Json.t) : advisory :=
  Advisory (or_else (field "url" via) (field "source" via)) (field "title" via) (field "severity" via) (field "range" via).
Definition fix_of (fix_ : option Json.t) : fix_t :=
  match fix_ with
  | Some (Json.JBool true) => Within
  | Some (Json.JObj _ as f) => Via (field "name" f) (field "version" f) (match field "isSemVerMajor" f with Some v => Json.truthy v | None => false end)
  | _ => NoFix
  end.
(** The row of a vulnerable package. *)
Definition row (direct : list string) (nv : string * Json.t) : option package :=
  let '(name, v) := nv in
  via ← Json.get "via" v;
  vias ← iter (default (Json.JArr []) via);
  Some (Package name (field "severity" v)
          ((match field "isDirect" v with Some d => Json.truthy d | None => false end) || bool_decide (name ∈ direct))
          (map Json.str (List.filter (fun x => negb (is_dict x)) vias)) (map advisory_of (List.filter is_dict vias))
          (field "range" v) (fix_of (field "fixAvailable" v))).

(** [summarize] *)
Definition summarize (report : Json.t) (package_json : option Json.t) : option summary :=
  match report with
  | Json.JObj l =>
      match field "error" report with
      | Some err =>
          let s := if is_dict err then field "summary" err else Some (Json.JStr (Json.str err)) in
          Some (Problem Failed (or_else s (Some (Json.JStr "npm reported an error"))))
      | None =>
          match field "vulnerabilities" report with
          | Some (Json.JObj vulns) =>
              direct ← direct_names package_json;
              rows ← mapM (row direct) (Sql.order_by (fun a b => str_leb (fst a) (fst b)) (dict_of vulns));
              counts ← match or_else (field "metadata" report) None with
                       | None => Some None
                       | Some m => Json.get "vulnerabilities" m
                       end;
              Some (Report (default (Json.JObj []) (or_else counts None)) rows)
          | _ => Some (Problem Invalid (Some (Json.JStr "no 'vulnerabilities' map (npm 7+ format)")))
          end
      end
  | _ => Some (Problem Invalid (Some (Json.JStr "not a JSON object")))
  end.
(** [main]: the exit status; [report] is [None] when the file cannot be read or parsed, [package_json] when it is not asked for. *)
Definition main (report : option Json.t) (package_json : option Json.t) : option Z :=
  s ← match report with
      | None => Some (Problem Invalid None)
      | Some r => summarize r package_json
      end;
  Some (match status_of s with Completed => 0 | _ => 2 end).

(** ** No clean result without an audit *)

Lemma dict_of_nodup (l : list (string * Json.t)) : NoDup (map fst (dict_of l)).
Proof.
  unfold dict_of. assert (NoDup (map fst ([] : list (string * Json.t)))) as H by constructor. revert H. generalize ([] : list (string * Json.t)).
  induction l as [|x l IH]; intros d H; [done|]. cbn [fold_left]. apply IH. by apply dict_set_nodup.
Qed.
Lemma row_name direct nv p : row direct nv = Some p → p_name p = fst nv.
Proof.
  destruct nv as [n v]. unfold row. destruct (Json.get "via" v); [|done]. cbn [mbind option_bind]. destruct (iter _); [|done]. by intros [= <-].
Qed.
Lemma rows_names direct l rows : mapM (row direct) l = Some rows → map p_name rows = map fst l.
Proof.
  intros H%mapM_Some_1. induction H as [|nv p l rows Hp _ IH]; [done|]. cbn [map]. by rewrite IH, (row_name _ _ _ Hp).
Qed.

(** The audit report keeps its three outcomes apart: the tool exits with 0 only for a report that is an object without an error and with
    a map of vulnerabilities, and then every vulnerable package has exactly one row, in order of its name; a report npm could not
    complete is never clean, whatever else it holds; and every other input that is answered at all exits with 2. *)
Theorem audit_outcomes report package_json code : main report package_json = Some code →
  (code = 0 ∧ ∃ l vulns counts rows, report = Some (Json.JObj l) ∧ field "error" (Json.JObj l) = None ∧
     field "vulnerabilities" (Json.JObj l) = Some (Json.JObj vulns) ∧ summarize (Json.JObj l) package_json = Some (Report counts rows) ∧
     map p_name rows ≡ₚ map fst (dict_of vulns) ∧ NoDup (map p_name rows)) ∨
  (code = 2 ∧ ∀ l, report = Some (Json.JObj l) →
     is_Some (field "error" (Json.JObj l)) ∨ ∀ vulns, field "vulnerabilities" (Json.JObj l) ≠ Some (Json.JObj vulns)).
Proof.
  unfold main. destruct report as [r|]; [|intros [= <-]; right; by split].
  destruct r as [| | | | |l]; try (cbn; intros [= <-]; right; split; [done|]; by intros ?).
  cbn [summarize]. destruct (field "error" (Json.JObj l)) as [err|] eqn:Ee.
  { intros [= <-]. right. split; [done|]. intros l' [= <-]. left. by eexists. }
  destruct (field "vulnerabilities" (Json.JObj l)) as [[| | | | |vulns]|] eqn:Ev;
    try (intros [= <-]; right; split; [done|]; intros l' [= <-]; right; intros v; congruence).
  destruct (direct_names package_json) as [direct|] eqn:Ed; [|done]. cbn [mbind option_bind].
  destruct (mapM (row direct) _) as [rows|] eqn:Er; [|done]. cbn [mbind option_bind].
  destruct (match or_else _ _ with Some _ => _ | None => _ end) as [counts|] eqn:Ec; [|done]. cbn [mbind option_bind status_of]. intros [= <-].
  left. split; [done|]. exists l, vulns, (default (Json.JObj []) (or_else counts None)), rows.
  assert (map p_name rows ≡ₚ map fst (dict_of vulns)) as Hp.
  { rewrite (rows_names _ _ _ Er). apply Permutation_map, Sql.order_by_perm. }
  split; [done|]. split; [done|]. split; [done|]. split.
  { cbn [summarize]. rewrite Ee, Ev. destruct (direct_names package_json) as [d|]; [|done]. injection Ed as ->. cbn [mbind option_bind].
    rewrite Er. cbn [mbind option_bind]. by rewrite Ec. }
  split; [done|]. rewrite Hp. apply dict_of_nodup.
Qed.
Definition demo_report : Json.t :=
  Json.JObj [("auditReportVersion", Json.JInt 2);
             ("vulnerabilities", Json.JObj [("vite", Json.JObj [("severity", Json.JStr "high"); ("via", Json.JArr [Json.JStr "esbuild"]); ("fixAvailable", Json.JBool true)]);
                                            ("esbuild", Json.JObj [("via", Json.JArr [Json.JObj [("source", Json.JInt 7)]])])])].
Lemma audit_outcomes_witness :
  main (Some demo_report) None = Some 0 ∧ ∃ counts rows, summarize demo_report None = Some (Report counts rows) ∧ NoDup (map p_name rows).
Proof.
  split; [vm_compute; reflexivity|].
  destruct (audit_outcomes (Some demo_report) None 0) as [[_ (l & v & c & rows & [= <-] & _ & _ & H & _ & Hn)]|[C _]];
    [vm_compute; reflexivity|by exists c, rows|discriminate].
Defined.
End NpmAudit.
