(* ===== verification/BenchRun.v ===== *)
(** * The run command of the benchmark ([bench/main.py])

    [Module BenchRun]: the workload the arguments name, the dictionaries of the results, the delta and the identity, and [_cmd_run], which drives the
    workload and writes the report.  The theorem reads such a report back the way the gate does. *)

From Stdlib Require Import Ascii.
From S2P Require Import Prelude Crypto Text Sql Bench BenchGate.

Open Scope Z_scope.

Module BenchRun.
Import Value Report.

(** The arguments of [run]. *)
Record args := Args {
  base_url : string; smoke : bool; model : string; seed : Z; total_requests : Z; concurrency : Z; burst_concurrency : Z; warmup : Z;
  max_tokens : Z; prefix_chars : Z; long_context_chars : Z; structured : bool; admin_api_key : option string; exclusive_target : bool
}.
(** The defaults of [build_parser]. *)
Definition default_args (url model_ : string) : args := Args url true model_ 1234 200 8 64 8 32 256 2000 false None false.

(** ** Dictionaries *)

Definition opt_float (o : option Q) : Value.t := match o with Some q => VFloat q | None => VNone end.
Definition summary_dict (s : Metrics.summary_t) : dict :=
  [("mean", opt_float (Metrics.mean s)); ("p50", opt_float (Metrics.p50 s)); ("p95", opt_float (Metrics.p95 s)); ("p99", opt_float (Metrics.p99 s))].
Definition slice_dict (m : Metrics.slice_metrics_t) : dict :=
  [("attempted", VInt (Metrics.attempted m)); ("admitted", VInt (Metrics.admitted m)); ("shed", VInt (Metrics.n_shed m));
   ("errors", VInt (Metrics.errors m)); ("cancelled", VInt (Metrics.cancelled m));
   ("pre_stream_failures", VInt (Metrics.pre_stream_failures m)); ("post_stream_failures", VInt (Metrics.post_stream_failures m));
   ("shed_rate", opt_float (Metrics.shed_rate m)); ("error_rate", opt_float (Metrics.error_rate m));
   ("pre_stream_rate", opt_float (Metrics.pre_stream_rate m)); ("post_stream_rate", opt_float (Metrics.post_stream_rate m));
   ("ttft_ms", VDict (summary_dict (Metrics.ttft m))); ("total_ms", VDict (summary_dict (Metrics.total m)))].
(** The dictionary [aggregate] returns. *)
Definition results_dict (a : Metrics.aggregate_t) : dict :=
  [("wall_s", VFloat (Metrics.wall_s a)); ("slices", VDict (map (fun p => (fst p, VDict (slice_dict (snd p)))) (Metrics.slices a)));
   ("overall", VDict (dict_set "accepted_rate" (opt_float (Metrics.accepted_rate a)) (slice_dict (Metrics.overall a))))].
(** The dictionary [_routes_delta] returns. *)
Definition delta_dict (d : Driver.route_delta) : dict :=
  [("source", VStr "admin_routes_delta"); ("exclusive_target", VBool true); ("requests", VFloat (Driver.d_requests d));
   ("completion_tokens", VFloat (Driver.d_completion d)); ("cost", VFloat (Driver.d_cost d)); ("output_tps", opt_float (Driver.d_output_tps d))].
Fixpoint to_value (v : Json.t) : Value.t :=
  match v with
  | Json.JNull => VNone
  | Json.JBool b => VBool b
  | Json.JInt z => VInt z
  | Json.JStr s => VStr s
  | Json.JArr l => VList (map to_value l)
  | Json.JObj l => VDict (map (fun p => (fst p, to_value (snd p))) l)
  end.
Definition manifest_dict (w : Workload.t) : dict := default [] (as_dict (to_value (Workload.manifest w))).

(** ** The command *)

(** [metric_sources]: where each metric of the report comes from. *)
Definition metric_sources_of (d : option dict) : dict :=
  let route := VStr (match d with Some (_ :: _) => "admin_routes_delta" | _ => "unavailable" end) in
  [("ttft", VStr "client"); ("latency", VStr "client"); ("accepted_rate", VStr "client"); ("shed_rate", VStr "client"); ("error_rate", VStr "client");
   ("output_tps", route); ("cost", route)].

Section Run.
(** The JSON parser, float rounding, the random generator, what the target answers a request, and the parser of URLs. *)
Context (json_loads : string → option Json.t) (fl : Q → Q) {R : Type} (seeded : Z → R) (choice : list string → R → string * R) (serve : Workload.RequestSpec → Q * Q * Driver.exchange)
  (urlsplit : string → result exn Compare.parts).

(** [_build_workload] *)
Definition build_workload (a : args) : result exn Workload.t :=
  if smoke a then Ok (Workload.smoke_workload (model a) (seed a))
  else Workload.standard_workload fl (model a) (total_requests a) (seed a) (concurrency a) (burst_concurrency a) (warmup a) (max_tokens a)
         (prefix_chars a) (long_context_chars a) (structured a).

(** What [_identity] reads of the process, and the stamp. *)
Record process := Process { p_build : dict; p_python : string; p_platform : string; p_processor : string; p_now : string }.
Definition identity_of (p : process) (url : string) : result exn IdentityStamp :=
  match Compare.sanitize_origin urlsplit url with
  | Err e => Err e
  | Ok o => Ok (Identity HARNESS_VERSION (p_build p) (p_python p)
                  (p_platform p +:+ " (" +:+ (if str_true (p_processor p) then p_processor p else "unknown-cpu") +:+ ")") (p_now p) o)
  end.

(** [_cmd_run] up to the writing of the file: the report, or what is raised.  [wall] is the measured time, [before] and [after] what the route
    metrics answered. *)
Definition cmd_run (a : args) (p : process) (wall : Q) (before after : option Driver.snapshot) : result exn RunReport :=
  w ← build_workload a;
  samples ← Driver.run_workload json_loads seeded choice serve w;
  let delta := delta_dict <$> Driver.run_delta (admin_api_key a) (exclusive_target a) before after wall in
  i ← identity_of p (base_url a);
  Ok (Report_ i (manifest_dict w) (results_dict (Metrics.aggregate fl samples wall)) delta (metric_sources_of delta) SCHEMA_VERSION HARNESS_VERSION).

(** ** What the gate reads of such a report *)

Lemma trunc_int n : Workload.trunc (inject_Z n) = n.
Proof.
  unfold Workload.trunc. destruct (bool_decide (0 <= inject_Z n)%Q); [apply Qfloor_Z|].
  change (- inject_Z n)%Q with (inject_Z (- n)). rewrite Qfloor_Z. lia.
Qed.
Lemma int_or_0_int n : Gate.int_or_0 (VInt n) = Ok n.
Proof. unfold Gate.int_or_0. cbn [truthy num]. destruct (Z.eqb_spec n 0) as [->|]; [done|]. cbn [negb]. by rewrite trunc_int. Qed.
Lemma get_map (f : Metrics.slice_metrics_t → Value.t) (k : string) l : dict_get k (map (fun p => (fst p, f (snd p))) l) = f <$> dict_get k l.
Proof. unfold dict_get. induction l as [|[k' v] l IH]; [done|]. cbn [map find fst snd]. by case_bool_decide. Qed.
Lemma slice_row_results r a s : results r = results_dict a → Gate.slice_row r s = slice_dict <$> dict_get s (Metrics.slices a).
Proof.
  intros E. unfold Gate.slice_row, Gate.section. rewrite E. cbn [results_dict dict_get find fst snd bool_decide]. simpl. unfold lookup.
  rewrite (get_map (fun m => VDict (slice_dict m))). by destruct (dict_get s (Metrics.slices a)).
Qed.
Lemma overall_results r a : results r = results_dict a →
  Gate.client_value r "accepted_rate" "" = Metrics.accepted_rate a ∧
  Gate.overall_error_rate r = Ok (Metrics.error_rate (Metrics.overall a), Metrics.admitted (Metrics.overall a)).
Proof.
  intros E. unfold Gate.client_value, Gate.overall_error_rate, Gate.section. rewrite E. destruct a as [wall sl ov acc]. split.
  - vm_compute. by destruct acc.
  - simpl. rewrite int_or_0_int. unfold lookup. simpl. by destruct (Metrics.error_rate ov).
Qed.
Lemma not_route_derived to_str b r metric target min_improvement bu : route_delta r = None → metric ∈ Gate.ROUTE_DERIVED →
  ∃ o, Gate.compare to_str b r metric target min_improvement bu = Ok o ∧ Gate.passed o = false.
Proof.
  intros D M. unfold Gate.compare. destruct (Gate.incomparable to_str b r metric target) as [|x l] eqn:E; [|eexists; by split].
  exfalso. unfold Gate.incomparable in E. do 4 (apply app_eq_nil in E as [_ E]). rewrite bool_decide_true in E by done.
  unfold Gate.route_value at 2 in E. rewrite D in E.
  destruct (Gate.route_value to_str b metric) as [[bv [src|]] ex]; done.
Qed.

(** A report carries its measurements to the gate: what [run] writes is read back as it was; the gate then finds in it the error rate and
    the admitted count of all samples, and for every slice exactly the shed rate and the p95 latency that were aggregated for it; and the
    metrics that come from the route counters are there, and named as such, only for a run with an operator key on an exclusive
    target: without them no comparison on such a metric passes. *)
Theorem run_report_measures a p wall before after r : cmd_run a p wall before after = Ok r →
  ∃ w samples, build_workload a = Ok w ∧ Driver.run_workload json_loads seeded choice serve w = Ok samples ∧
    let agg := Metrics.aggregate fl samples wall in
    (∀ to_str pairs, from_dict to_str pairs (to_dict r) = Ok r) ∧
    Gate.overall_error_rate r = Ok (Metrics.error_rate (Metrics.overall agg), Metrics.admitted (Metrics.overall agg)) ∧
    (∀ s, Gate.shed_rate r s = (m ← dict_get s (Metrics.slices agg); Metrics.shed_rate m) ∧
          Gate.p95_latency r s = (m ← dict_get s (Metrics.slices agg); Metrics.p95 (Metrics.total m))) ∧
    Gate.client_value r "accepted_rate" "" = Metrics.accepted_rate agg ∧
    (is_Some (route_delta r) ↔ lookup "cost" (metric_sources r) = VStr "admin_routes_delta") ∧
    (is_Some (route_delta r) → exclusive_target a = true ∧ ∃ k, admin_api_key a = Some k) ∧
    (route_delta r = None → ∀ to_str b metric target min_improvement bu, metric ∈ Gate.ROUTE_DERIVED →
       ∃ o, Gate.compare to_str b r metric target min_improvement bu = Ok o ∧ Gate.passed o = false).
Proof.
  unfold cmd_run. destruct (build_workload a) as [w|] eqn:Ew; [|done]. cbn [mbind result_bind].
  destruct (Driver.run_workload _ _ _ _ _) as [samples|] eqn:Es; [|done]. cbn [mbind result_bind].
  destruct (identity_of p (base_url a)) as [i|]; [|done]. cbn [mbind result_bind]. intros [= <-].
  exists w, samples. split; [done|]. split; [done|]. cbv zeta. set (agg := Metrics.aggregate fl samples wall).
  set (d := Driver.run_delta _ _ _ _ _). set (r := Report_ _ _ _ _ _ _ _).
  split_and!; [intros; by rewrite report_roundtrip| | | | | |intros; by apply not_route_derived].
  - by apply overall_results.
  - intros s. unfold Gate.shed_rate, Gate.p95_latency. rewrite (slice_row_results r agg s eq_refl).
    destruct (dict_get s (Metrics.slices agg)) as [m|]; [|done].
    destruct m as [? ? ? ? ? ? ? sr ? ? ? ? [? ? p95 ?]]. split; [by destruct sr|by destruct p95].
  - by apply overall_results.
  - unfold r. cbn [route_delta metric_sources]. destruct d; cbn; split; try done; by intros [? ?].
  - unfold r. cbn [route_delta]. unfold d, Driver.run_delta. destruct (admin_api_key a) as [k|]; [|by intros [? ?]].
    destruct (exclusive_target a); [by eauto|]. rewrite andb_false_r. by intros [? ?].
Qed.
End Run.

(** A smoke run against a target that sheds everything. *)
Lemma run_report_measures_witness :
  ∃ r, cmd_run (fun _ => None) (fun q => q) (fun z => z) (fun l r => (default "" (head l), r)) (fun _ => (0%Q, 1%Q, Driver.Status 429 true))
         (fun _ => Ok (Compare.Parts "http" (Some "h") (Ok None))) (default_args "http://h" "m") (Process [] "3.12" "linux" "" "now") 2 None None = Ok r ∧
    Gate.shed_rate r "unique" = Some (2 / 2)%Q ∧ route_delta r = None ∧
    ∀ to_str b target min_improvement bu, ∃ o, Gate.compare to_str b r "cost" target min_improvement bu = Ok o ∧ Gate.passed o = false.
Proof.
  eexists. split; [vm_compute; reflexivity|]. split; [vm_compute; reflexivity|]. split; [reflexivity|]. intros to_str b target mi bu.
  destruct (run_report_measures (fun _ => None) (fun q => q) (fun z => z) (fun l r => (default "" (head l), r)) (fun _ => (0%Q, 1%Q, Driver.Status 429 true))
    (fun _ => Ok (Compare.Parts "http" (Some "h") (Ok None))) (default_args "http://h" "m") (Process [] "3.12" "linux" "" "now") 2 None None _
    ltac:(vm_compute; reflexivity)) as (w & samples & _ & _ & _ & _ & _ & _ & _ & _ & H).
  apply H; [reflexivity|]. apply elem_of_cons. right. by left.
Defined.
End BenchRun.
