(* ===== verification/Collected.v ===== *)
(** * The non-streaming answer of both edges ([api/openai_router.py], [api/anthropic_router.py], [inference/base.py])

    [Module Collected]: [GenerationStream.collect] and the rest of the handlers [chat_completions] and [messages] around it, over any stream that keeps the
    contract: the result becomes the response, and whatever goes wrong the stream is closed and the request is accounted for. *)

From S2P Require Import Prelude Text Stream Contract Requests Remote Edges.

Open Scope Z_scope.

Module Collected.
Import QueueGenerationStream SseEdge.

(** What ends a collection early: the stream raises, it ends without a result (the assertion of [collect]), or the handler's task is cancelled. *)
Inductive exc := Stream_raised | No_result | Cancelled.
#[export] Instance exc_eq_dec : EqDecision exc.
Proof. solve_decision. Defined.

(** Where a handler is: in [collect], in the [aclose] of its exception handler, or past the last call of [finish_generation]. *)
Inductive phase R := Collecting | Closing (e : exc) | Responded (r : R) | Raised (e : option exc).
Arguments Collecting {R}.
Arguments Closing {R}.
Arguments Responded {R}.
Arguments Raised {R}.

Section Handler.
Context {R : Type} (respond : res → R) {S : Type} `{Contract.GenerationStreamLaws S}.

(** [finished]: the error of each call of [finish_generation]; [closes]: the calls of [aclose]. *)
Record handler := Handler { stream : S; at_ : phase R; finished : list (option exc); closes : nat }.
Definition start (s : S) : handler := Handler s Collecting [] 0.

(** One step.  A failed [aclose] and a failed [finish_generation] raise an exception of their own ([None]). *)
Inductive step : handler → handler → Prop :=
| c_evolves h s' : at_ h = Collecting → Contract.evolves (stream h) s' → step h (Handler s' Collecting (finished h) (closes h))
| c_returns h r : at_ h = Collecting → Contract.final (stream h) = Some r →
    step h (Handler (stream h) (Responded (respond r)) (finished h ++ [None]) (closes h))
| c_unaccounted h r : at_ h = Collecting → Contract.final (stream h) = Some r →   (* [finish_generation] raises *)
    step h (Handler (stream h) (Raised None) (finished h ++ [None]) (closes h))
| c_fails h e : at_ h = Collecting → step h (Handler (stream h) (Closing e) (finished h) (Datatypes.S (closes h)))
| c_closed h e : at_ h = Closing e → step h (Handler (stream h) (Raised (Some e)) (finished h ++ [Some e]) (closes h))
| c_interrupted h e : at_ h = Closing e → step h (Handler (stream h) (Raised None) (finished h ++ [Some e]) (closes h)).
Inductive reachable (s : S) : handler → Prop :=
| reach_start : reachable s (start s)
| reach_step h h' : reachable s h → step h h' → reachable s h'.

Record inv (h : handler) : Prop := Inv {
  v_lives : Contract.lives (stream h);
  v_phase : match at_ h with
    | Collecting => finished h = [] ∧ closes h = 0%nat
    | Closing _ => finished h = [] ∧ closes h = 1%nat
    | Responded c => finished h = [None] ∧ closes h = 0%nat ∧ ∃ r, Contract.final (stream h) = Some r ∧ c = respond r
    | Raised (Some e) => finished h = [Some e] ∧ closes h = 1%nat
    | Raised None => (finished h = [None] ∧ closes h = 0%nat ∧ is_Some (Contract.final (stream h))) ∨
                     (∃ e, finished h = [Some e] ∧ closes h = 1%nat)
    end
}.
Lemma collected_inv_step h h' : inv h → step h h' → inv h'.
Proof.
  intros [L P] St. destruct St as [h s' E Hev|h r E Hf|h r E Hf|h e E|h e E|h e E]; rewrite E in P; destruct P as [P1 P2]; split; simpl;
    rewrite ?P1, ?P2; eauto.
  by eapply Contract.lives_step.
Qed.
Lemma collected_inv s h : Contract.fresh s → reachable s h → inv h.
Proof.
  intros Hs. induction 1 as [|h h' _ IH St]; [|by eapply collected_inv_step]. split; [by apply Contract.lives_fresh|done].
Qed.

(** A request without streaming is accounted for exactly once: not while it runs, and once it is over, whether it was answered, failed or was cancelled,
    also in the middle of the cleanup; a request that failed or was cancelled has had its stream closed before, and is recorded with its error; and
    an answer is made of the stream's result, whose text is all the chunks the stream returned. *)
Theorem collected_once s h : Contract.fresh s → reachable s h →
  length (finished h) = match at_ h with Collecting | Closing _ => 0%nat | _ => 1%nat end ∧
  (∀ c, at_ h = Responded c → finished h = [None] ∧
     ∃ f n, c = respond (String.concat "" (map fst (Contract.returned (stream h))), f, n)) ∧
  (∀ e, at_ h = Raised (Some e) → finished h = [Some e] ∧ closes h = 1%nat) ∧
  (∀ e, Some e ∈ finished h → closes h = 1%nat).
Proof.
  intros Hs Hr. destruct (collected_inv s h Hs Hr) as [L P]. destruct (at_ h) as [|e|c|[e|]].
  - destruct P as [-> ->]. split_and!; try done. by intros e ?%not_elem_of_nil.
  - destruct P as [-> ->]. split_and!; try done.
  - destruct P as (-> & -> & [[t f] n] & Hf & ->). split_and!; try done.
    + intros c [= <-]. split; [done|]. exists f, n. by rewrite (Contract.final_text _ _ _ _ L Hf).
    + intros e He. by apply list_elem_of_singleton in He.
  - destruct P as [-> ->]. split_and!; try done. by intros e' [= <-].
  - destruct P as [(-> & -> & _)|(e & -> & ->)]; split_and!; try done. intros e He. by apply list_elem_of_singleton in He.
Qed.
End Handler.
Arguments handler R S : clear implicits.

(** ** The same answer with and without streaming *)

(** The two responses on a result and the stream's prompt tokens. *)
Definition openai (prompt : Z) (r : res) : OpenAIEdge.ChatCompletion :=
  let '(t, f, n) := r in OpenAIEdge.Completion t (OpenAIEdge.finish_reason f) prompt n (prompt + n).
Definition anthropic (prompt : Z) (r : res) : AnthropicEdge.MessagesResponse :=
  let '(t, f, n) := r in AnthropicEdge.Message t (AnthropicEdge.stop_reason f) prompt n.
Lemma responses_agree (r : GenerationResult) : let x := (text r, finish_reason r, completion_tokens r) in
  OpenAIEdge.completion r = openai (r_prompt_tokens r) x ∧ AnthropicEdge.response r = anthropic (r_prompt_tokens r) x.
Proof. done. Qed.

Section Same.
Context {S : Type} `{Contract.GenerationStreamLaws S}.

(** C31. With [stream] set or not, a client gets the same answer: over any backend, when the generation has the same result, the deltas of a stream that
    announced its end add up to the text of the plain response, and the reason and (on the Anthropic edge) the token count it announced are the response's. *)
Theorem streamed_or_collected (s s' : S) prompt :
  Contract.fresh s → Contract.fresh s' →
  (∀ e h c r, SseEdge.reachable OpenAIEdge.sse s e → OpenAIEdge.FinishChunk r ∈ frames e →
     reachable (openai prompt) s' h → at_ h = Responded c → Contract.final (SseEdge.stream e) = Contract.final (stream h) →
     String.concat "" (map OpenAIEdge.content (frames e)) = OpenAIEdge.text c ∧ r = OpenAIEdge.finish c) ∧
  (∀ e h c r k, SseEdge.reachable (AnthropicEdge.sse prompt) s e → AnthropicEdge.MessageDelta r k ∈ frames e →
     reachable (anthropic prompt) s' h → at_ h = Responded c → Contract.final (SseEdge.stream e) = Contract.final (stream h) →
     String.concat "" (map AnthropicEdge.content (frames e)) = AnthropicEdge.text c ∧ r = AnthropicEdge.stop c ∧ k = AnthropicEdge.output_tokens c).
Proof.
  intros Hs Hs'. split.
  - intros e h c r He Hr Hh Hc Hf. destruct (collected_inv _ s' h Hs' Hh) as [_ P]. rewrite Hc in P.
    destruct P as (_ & _ & [[t f] n] & Hh' & ->).
    destruct (announced_text OpenAIEdge.sse OpenAIEdge.content StreamingClient.is_finish) with (s := s) (e := e)
      (f := OpenAIEdge.FinishChunk r) as (t' & f' & n' & Hf' & Hin & Ht); try done.
    + intros g r0 n0. apply StreamingClient.openai_quiet.
    + intros g Hg. destruct g; try done. simpl. split_and!; [set_solver|set_solver|done].
    + rewrite Hf', Hh' in Hf. injection Hf as -> -> ->. split; [done|]. simpl in Hin. set_solver.
  - intros e h c r k He Hr Hh Hc Hf. destruct (collected_inv _ s' h Hs' Hh) as [_ P]. rewrite Hc in P.
    destruct P as (_ & _ & [[t f] n] & Hh' & ->).
    destruct (announced_text (AnthropicEdge.sse prompt) AnthropicEdge.content StreamingClient.is_message_delta) with (s := s) (e := e)
      (f := AnthropicEdge.MessageDelta r k) as (t' & f' & n' & Hf' & Hin & Ht); try done.
    + intros g r0 n0. apply StreamingClient.anthropic_quiet.
    + intros g Hg. destruct g; try done. simpl. split_and!; [set_solver|set_solver|done].
    + rewrite Hf', Hh' in Hf. injection Hf as -> -> ->. split; [done|]. simpl in Hin. set_solver.
Qed.
End Same.

(** A run over the remote stream of one token. *)
Section Demo.
Context {R : Type} (respond : res → R).
Lemma demo_responds : reachable respond EdgeRun.s0 (Handler EdgeRun.s2 (Responded (respond ("hi", STOP, 1))) [None] 0).
Proof.
  pose (h0 := start (R := R) EdgeRun.s0). pose (h1 := Handler (R := R) EdgeRun.s1 Collecting [] 0). pose (h2 := Handler (R := R) EdgeRun.s2 Collecting [] 0).
  apply (reach_step respond EdgeRun.s0 h2); [apply (reach_step respond EdgeRun.s0 h1); [apply (reach_step respond EdgeRun.s0 h0); [constructor|]|]|].
  - apply (c_evolves respond h0); [done|]. exists 1%Q. left. by exists false.
  - apply (c_evolves respond h1); [done|]. exists 2%Q. left. by exists false.
  - by apply (c_returns respond h2 ("hi", STOP, 1)).
Qed.
End Demo.
Lemma collected_once_witness :
  ∃ h, reachable (openai 3) EdgeRun.s0 h ∧ length (finished h) = 1%nat ∧
    ∃ f n, at_ h = Responded (openai 3 (String.concat "" (map fst (Contract.returned (stream h))), f, n)).
Proof.
  eexists. split; [apply demo_responds|]. destruct (collected_once (openai 3) EdgeRun.s0 _ EdgeRun.s0_fresh (demo_responds (openai 3))) as (Hl & Hc & _).
  split; [exact Hl|]. destruct (Hc _ eq_refl) as (_ & f & n & E). exists f, n. simpl. f_equal. exact E.
Defined.
Lemma streamed_or_collected_witness :
  ∃ e h c, SseEdge.reachable OpenAIEdge.sse EdgeRun.s0 e ∧ reachable (openai 3) EdgeRun.s0 h ∧ at_ h = Responded c ∧
    String.concat "" (map OpenAIEdge.content (frames e)) = OpenAIEdge.text c.
Proof.
  pose proof (EdgeRun.reach_run3 OpenAIEdge.sse) as He. pose proof (demo_responds (openai 3)) as Hh.
  do 3 eexists. split; [exact He|]. split; [exact Hh|]. split; [reflexivity|].
  destruct (streamed_or_collected EdgeRun.s0 EdgeRun.s0 3 EdgeRun.s0_fresh EdgeRun.s0_fresh) as [H _].
  eapply (H _ _ _ "stop" He _ Hh eq_refl eq_refl). Unshelve. simpl. set_solver.
Defined.
End Collected.
